(* ===== verification/_CoqProject ===== *)
-Q . S2P
Prelude.v
LibString.v
BridgeData.v
BridgeBpdu.v
BridgeStp.v
BridgeTimer.v
BridgeStpIf.v
BridgeFdb.v
BridgeForward.v
BridgeIf.v
BridgeIoctl.v
BridgeWf.v
BridgeSafe.v
BridgeRoot.v
BridgeHandlers.v
BridgeFdbSpec.v
BridgeFdbAge.v
BridgePath.v
BridgePorts.v
BridgeAdmin.v
BridgeSystem.v
BridgeSample.v
BridgeStates.v
BridgeRoles.v
BridgeCodec.v
BridgeTheorems.v
Timer.v
TimerWheel.v
TimerRun.v
TimerTheorems.v
LibSort.v
BitOps.v
Kfifo.v
LibBitmap.v
LibBitmapTheorems.v
Scatterwalk.v
Cipher.v
CipherModes.v
Tea.v
TeaCipher.v
CryptoTheorems.v
Heap.v
HeapLogic.v
RbTree.v
RbSpec.v
RbInsert.v
RbErase.v
RbTheorems.v
Resource.v
ResourceSpec.v
ResourceCalls.v
ResourceMore.v
ResourceAlloc.v
ResourceTheorems.v
Buddy.v
BuddySpec.v
BuddyOps.v
BuddyZone.v
BuddyAlloc.v
BuddyTheorems.v
RwSem.v
RwSemProof.v
RwSemCritical.v
RwSemTheorems.v
LibVsprintf.v
LibSscanf.v
VsprintfProof.v
VsprintfTheorems.v
SscanfProof.v
RadixTree.v
RadixSpec.v
RadixProof.v
RadixDelete.v
RadixGang.v
RadixTheorems.v
Crc.v
CrcTheorems.v
StringOps.v
StringTheorems.v
BitmapText.v
