(* ===== verification/Prelude.v ===== *)
(** * A verified model of the network and library core of the TuxAP kernel

    TuxAP is a Linux 2.6 kernel (src/kernel) for MIPS32 wireless access
    points, with two small tools (src/tools).  What makes an access point of
    it is the Ethernet bridge (src/kernel/net/bridge); the page allocator
    (src/kernel/mm), the timers, the reader/writer semaphores, the resource
    tree, the library routines under src/kernel/lib, the byte queue of
    src/kernel/kernel/kfifo.c and the cipher layer of src/kernel/crypto are
    parts the rest builds on.
    This development models those parts as executable Rocq definitions and
    proves what makes them correct.

    ** How code is modelled

    [int] and [long] are 32 bits wide; a w-bit integer is a [Z] and every
    operation that can wrap is followed by its truncation ([u8], [u16], [u32],
    [s32]).  The bridge is stateful code over a shared heap: its routines are
    computations of the state monad [M] below, over the state [kst] of
    BridgeData (the heap of ports, forwarding entries and devices, the
    bridge's own record and timers, the outcomes of the allocations to come, and
    the trace of frames sent).  An invalid dereference is [None], an oops.
    Loops over kernel lists are folds over the list; a loop with its own exit
    condition has fuel, and [None] when it runs out, so that every theorem that
    gives a result also shows that the fuel is enough.  [wp] is the
    precondition of a computation; the [kernel] hint database and the
    [wp_step] tactic drive it symbolically.

    ** The bridge (src/kernel/net/bridge)

    Frames arrive at [br_handle_frame] (br_input.c); BPDUs go to the spanning
    tree (br_stp.c, br_stp_bpdu.c), others are learned in the forwarding
    database (br_fdb.c) and forwarded (br_forward.c).  Timers (br_stp_timer.c)
    and the administrative calls (br_if.c, br_stp_if.c, br_ioctl.c,
    br_device.c, br_notify.c) change the same state, under the same lock.

    - LibString: [memcmp] of lib/string.c on lists.
    - BridgeData: br_private.h and br_private_stp.h, the state and its
      accessors; timers; the environment.
    - BridgeBpdu: br_stp_bpdu.c (encoding and parsing of BPDUs).
    - BridgeStp: br_stp.c, all of it but the log messages.
    - BridgeTimer: br_stp_timer.c.   - BridgeStpIf: br_stp_if.c.
    - BridgeFdb: br_fdb.c.           - BridgeForward: br_forward.c.
    - BridgeIf: br_if.c, br_input.c, br_device.c, br_notify.c.
    - BridgeIoctl: br_ioctl.c (the device calls; user memory as data).

    Proofs: BridgeWf states the well-formedness of the state, BridgeSafe and
    BridgeRoot the behaviour of the spanning tree routines, BridgeHandlers the
    message and timer handlers, BridgeFdbSpec the abstract forwarding table
    and the refinement of [fdb_insert], BridgeFdbAge ageing, BridgePath the
    data path, BridgePorts adding and removing ports, BridgeAdmin the ioctls.
    BridgeSystem closes the system: an [event] is any call the kernel makes
    into the bridge, [step] is one event from a state in which it is enabled,
    and [exec] is a history of them; [handle_safe] is the preservation of the
    invariant by each event.  BridgeStates follows port states over events,
    BridgeRoles the port roles of a reconfiguration, BridgeCodec the BPDU
    format; BridgeSample has concrete states; BridgeTheorems has the
    properties: the absence of oopses over all histories
    ([bridge_never_oopses]), the refinement of the forwarding table, the
    election of the root port and of the port roles, the forward delay, the
    data path, ageing, the removal of ports, port numbers, the BPDU round trip,
    the table dump, and the defects with their traces that are the exclusions
    of the first.

    The hash chains and the age list are lists of pointers to entries whose
    links are in the entries: adding or removing one touches its neighbours,
    and a neighbour that has been freed is an oops (BridgeFdb).  The invariant
    of the system therefore says that the age list holds exactly the learned
    entries; a device whose address is already in the table as a learned host
    breaks it, which is the exclusion of [aged_local_entry_oopses] and
    [removed_local_entry_oopses].  Entries are freed at once, not after the RCU
    grace period.  The broute hook of ebtables is a parameter of the input
    path; the NF_HOOK points are taken as having no hook registered, so that
    the frame goes on to the function they name.

    ** The page allocator (src/kernel/mm/page_alloc.c)

    - Buddy: one zone, with its free lists and bit maps, page descriptors and
      the hot and cold page caches of the CPU; allocation, freeing, draining,
      set-up and the release of the boot pages (mm/bootmem.c).
    - BuddySpec: the invariant, with the set of free pages the lists stand
      for.  BuddyOps: merging and splitting.  BuddyZone: the bit maps and
      lists of a whole zone.  BuddyAlloc: the caches and the checks.
    - BuddyTheorems: over any history every call returns, a block handed out
      is aligned and disjoint from all others, a refusal means that every
      aligned block has a page that is held or in a per-CPU cache, and no page
      is reported as bad unless one was freed while still in use
      ([page_allocator_safe]; [bad_page] counts its reports), no page is lost ([page_accounting]), and the two
      core routines implement a set of pages ([buddy_implements_set]).  The
      loops over orders have [MAX_ORDER] rounds of fuel, those over lists the
      length of the list.

    ** Reader/writer semaphores (src/kernel/lib/rwsem-spinlock.c)

    - RwSem: the routines as programs of atomic steps, with the waiters on the
      stacks of the tasks, task states and reference counts.
    - RwSemProof: the abstract semaphore, a set of readers, a writer and a
      queue, and the relation of the code to it.  RwSemCritical: every step of
      any number of tasks keeps the relation.
    - RwSemTheorems: refinement, exclusion and first come first served
      ([rwsem_refines]), and no lost wake-ups ([rwsem_wakes]).

    ** Timers (src/kernel/kernel/timer.c)

    - Timer: the wheel of lists, the calls on timers, and the softirq that
      runs them; a handler gives the list of timer calls it makes.
    - TimerWheel, TimerRun: where a timer may be when the wheel has
      reached a tick, the invariant and what the calls, the cascade and a run
      do to it.
    - TimerTheorems: the softirq returns and runs every timer at its tick,
      over all levels and the wrap-around of [jiffies]; the calls
      refine the timers of BridgeData, on which the bridge's theorems rest.
      The fuel of a run is the number of ticks to catch up with, that of a
      tick the length of its list, to which handlers cannot add.

    ** Linked structures

    Heap is a memory of objects that point to each other and HeapLogic a
    separation logic for routines on it, in Iris: [iwp] is total and [adequacy]
    turns it into [wp].  The fuel of every loop is the number of objects in
    memory.

    - RbTree: lib/rbtree.c.  RbSpec has trees, paths and the balance
      invariants, RbInsert the nodes in memory, the rotations and insertion,
      RbErase removal; RbTheorems: insertion, removal
      and replacement keep a red-black tree and do to the order of the nodes
      what they should; navigation.
    - Resource: kernel/resource.c.  ResourceSpec has resource trees and the
      specification of each call, ResourceCalls and ResourceMore the calls in
      memory, ResourceAlloc holes and alignment; ResourceTheorems: the search
      for a range; every call refines its specification and keeps siblings in
      order and disjoint, allocation finds the lowest suitable range; the
      corner cases both exclude, evaluated.

    ** Radix trees (src/kernel/lib/radix-tree.c)

    - RadixTree: the nodes in memory, the slab cache they come from and the
      pool of preloaded nodes; insertion, lookup, removal, tags, gang lookups.
    - RadixSpec: the positions of a tree, tag words, the invariant ([wf]) and
      how a change at one position keeps it.  RadixProof: lookup, insertion
      with extension, and setting tags.  RadixDelete: clearing tags and
      removal.  RadixGang: the gang lookups.
    - RadixTheorems: a tree is a finite map with two sets of tagged indices,
      over any history of allowed calls and of failing allocations
      ([radix_tree_refines_map], [radix_tree_well_formed]); the gang lookups
      end ([gang_lookup_terminates]); a preload is enough when the tree need
      not grow ([preloaded_insert_succeeds]); three defects at the borders.
      The loops over levels recurse on the height; those that raise the tree
      and the preload have the 7 rounds of [RADIX_TREE_MAX_PATH], the most a
      32-bit index needs; a gang lookup has one round for each node in use
      and one more.

    ** Checksums (src/kernel/lib/crc32.c, crc-ccitt.c, libcrc32c.c)

    - Crc: the bit-wise variants, the generation of the tables
      (gen_crc32table.c, 9 rounds of fuel for 8 bits) and the code with tables,
      for both byte orders, on a memory of bytes from which words are loaded
      at aligned addresses only.
    - CrcTheorems: the code with tables computes the bit-wise checks, wherever
      a message lies and in pieces ([crc_code_equals_bitwise]); a frame that
      ends with its check is accepted, and rejected after a burst of errors of
      up to four bytes ([crc32_guards_frames]).  Both rest on linearity over
      exclusive or: an identity of linear functions is checked on single bits.

    ** Library routines

    - LibSort: lib/sort.c, on an array of bytes with the [int] offsets of the
      code and its two exchange functions.  The sort returns a sorted
      permutation for every total comparison and arrays of up to 2^30 bytes,
      from which on the offsets overflow ([sort_sorts]).  A loop takes at most
      one round more than there are elements: a sift at least doubles its
      offset in each round after the first.
    - Kfifo: kernel/kfifo.c and include/linux/kfifo.h against a
      bounded queue of bytes, over sequences of calls and with counters that
      wrap.
    - BitOps: include/linux/bitops.h, bit searches and population counts.
    - LibBitmap, LibBitmapTheorems: lib/bitmap.c bit by bit, on a memory in
      which the arguments may be the same array.  BitmapText: the conversions
      to and from text and their round trip ([bitmap_text_roundtrip]), on top
      of the formatted output below; a round for each word, and for each byte
      of the text.

    ** Formatted text (src/kernel/lib/vsprintf.c, lib/ctype.c)

    - LibVsprintf: the character table, numbers from text and
      formatted output, on a memory of bytes, with counters that wrap as an
      [int] does.  LibSscanf: formatted input from the same memory as the
      results are stored in.
    - VsprintfProof: a format as a list of characters and directives, its text
      form and the output it stands for.  VsprintfProof, VsprintfTheorems: the
      output functions compute it, in buffers of any size
      ([vsnprintf_formats]).  SscanfProof: [sscanf] reads back what [snprintf]
      wrote, into variables outside the text ([scanf_inverts_printf]).  The loops over a format have its length
      as fuel, each round takes at least a character of it; the 64 rounds of the
      digits are those of a 64-bit number in base 2.

    ** Strings (src/kernel/lib/string.c)

    - StringOps: all routines of the file, on the memory of LibVsprintf.  A
      scan for a NUL has the number of bytes of memory as fuel.
    - StringTheorems: searches and comparisons give what the lists of
      characters say ([string_searches_correct]), and [memcmp] and [strncmp]
      are the list functions of LibString and BridgeIf; copies write exactly
      the bytes they should ([copies_stay_in_bounds]); the order of [strcmp]
      is not transitive on characters from 128 on.

    ** The cipher layer (src/kernel/crypto)

    - Scatterwalk: scatterwalk.c; a walk is a sequence of
      addresses, on a flat memory of bytes.
    - Cipher, CipherModes: cipher.c.  CipherModes proves the loop of [crypt]
      against an interface of block functions ([proc_ok]), has the class [BlockCipher], what the layer relies on in a
      cipher, and proves ECB and CBC against it.
    - Tea, TeaCipher: tea.c; TEA and XTEA are instances of the class.
      The XTEA loops have 32 rounds of fuel, exactly what they use.
    - CryptoTheorems: block round trips with termination, the cipher layer as
      a refinement of the modes on byte strings, the CBC round trip over
      scatter lists.

    ** Not modelled

    Concurrency inside the bridge (every handler runs under the bridge lock,
    so that a history of whole handlers is what the code allows; the RCU
    readers are taken to see the list before or after an update), registered
    netfilter hooks other than the broute hook, sysfs and procfs output, module loading.
    The rest of the kernel (memory management, file systems, drivers, the
    protocol stacks, the architecture code) is vendored Linux that the bridge
    only calls, and the tools are C++ programs; the manifest lists these parts
    with the reason.

    ** Next

    Creation and removal of whole bridges (br_add_bridge, br_del_bridge) over several bridges;
    lib/idr.c; the synchronous deletion and the time-keeping of
    kernel/timer.c; the other ciphers and digests of crypto/ as instances of
    the same classes. *)
From stdpp Require Export base gmap list numbers option sorting.
From Stdlib Require Export ZArith Lia Btauto.

(** ** Machine integers

    The target is a 32-bit MIPS, so [int] and [long] are 32 bits wide.  A
    w-bit value is a [Z]; every operation that can wrap is followed by one of
    these truncations. *)
Declare Scope kernel_scope.
Delimit Scope kernel_scope with kernel.
Open Scope Z_scope.

Definition u8 (x : Z) : Z := x mod 2 ^ 8.
Definition u16 (x : Z) : Z := x mod 2 ^ 16.
Definition u32 (x : Z) : Z := x mod 2 ^ 32.
Definition s32 (x : Z) : Z :=
  let y := x mod 2 ^ 32 in if y <? 2 ^ 31 then y else y - 2 ^ 32.

(** The C truth value of an integer. *)
Definition truth (x : Z) : bool := negb (x =? 0).
Definition of_bool (b : bool) : Z := if b then 1 else 0.

(** ** Constants of the target

    Error numbers of include/asm-mips/errno.h and the page size. *)
Definition EPERM : Z := 1.
Definition ENXIO : Z := 6.
Definition ENOMEM : Z := 12.
Definition EFAULT : Z := 14.
Definition EBUSY : Z := 16.
Definition EEXIST : Z := 17.
Definition EINVAL : Z := 22.
Definition ERANGE : Z := 34.
Definition EXFULL : Z := 52.
Definition ENOSYS : Z := 89.
Definition ELOOP : Z := 90.
Definition EOPNOTSUPP : Z := 122.
Definition EADDRNOTAVAIL : Z := 126.
Definition PAGE_SIZE : Z := 4096.

Create HintDb kernel.

Lemma u32_range x : 0 <= u32 x < 2 ^ 32.
Proof. unfold u32. apply Z.mod_pos_bound. lia. Qed.

Lemma u16_range x : 0 <= u16 x < 2 ^ 16.
Proof. unfold u16. apply Z.mod_pos_bound. lia. Qed.

Lemma u8_range x : 0 <= u8 x < 2 ^ 8.
Proof. unfold u8. apply Z.mod_pos_bound. lia. Qed.

Lemma u32_small x : 0 <= x < 2 ^ 32 -> u32 x = x.
Proof. intros. unfold u32. now apply Z.mod_small. Qed.

Lemma u16_small x : 0 <= x < 2 ^ 16 -> u16 x = x.
Proof. intros. unfold u16. now apply Z.mod_small. Qed.

Lemma u8_small x : 0 <= x < 2 ^ 8 -> u8 x = x.
Proof. intros. unfold u8. now apply Z.mod_small. Qed.

Lemma s32_range x : - 2 ^ 31 <= s32 x < 2 ^ 31.
Proof.
  unfold s32. pose proof (Z.mod_pos_bound x (2 ^ 32) ltac:(lia)).
  destruct (Z.ltb_spec (x mod 2 ^ 32) (2 ^ 31)); lia.
Qed.

Lemma s32_small x : - 2 ^ 31 <= x < 2 ^ 31 -> s32 x = x.
Proof.
  intros H. unfold s32.
  assert (x mod 2 ^ 32 = if x <? 0 then x + 2 ^ 32 else x) as ->.
  { destruct (Z.ltb_spec x 0).
    - rewrite <- (Z.mod_add x 1 (2 ^ 32)) by lia. apply Z.mod_small. lia.
    - apply Z.mod_small. lia. }
  destruct (Z.ltb_spec x 0); case_match; lia.
Qed.

Lemma u32_s32 x : u32 (s32 x) = u32 x.
Proof.
  unfold u32, s32. destruct (x mod 2 ^ 32 <? 2 ^ 31).
  - now rewrite Z.mod_mod by lia.
  - replace (x mod 2 ^ 32 - 2 ^ 32) with (x mod 2 ^ 32 + (-1) * 2 ^ 32) by lia.
    rewrite Z.mod_add by lia. now rewrite Z.mod_mod by lia.
Qed.

Lemma s32_u32 x : s32 (u32 x) = s32 x.
Proof. unfold u32, s32. now rewrite Z.mod_mod by lia. Qed.

(** Masking the low bits of a word, as [x & ~(2^k - 1)] does. *)
Lemma u32_ones x : u32 x = Z.land x (Z.ones 32).
Proof. unfold u32. by rewrite Z.land_ones. Qed.

Lemma align_mask x k :
  0 <= x < 2 ^ 32 -> 0 <= k < 32 -> Z.land x (u32 (Z.lnot (u32 (2 ^ k - 1)))) = 2 ^ k * (x / 2 ^ k).
Proof.
  intros Hx Hk. assert (2 ^ k <= 2 ^ 32) by (apply Z.pow_le_mono_r; lia).
  assert (0 < 2 ^ k) by (apply Z.pow_pos_nonneg; lia).
  rewrite (u32_small (2 ^ k - 1)) by lia. replace (2 ^ k - 1) with (Z.ones k) by (rewrite Z.ones_equiv; lia).
  rewrite u32_ones, (Z.land_comm _ (Z.ones 32)), Z.land_assoc, <- u32_ones, u32_small by done.
  rewrite <- Z.ldiff_land, Z.ldiff_ones_r, Z.shiftl_mul_pow2, Z.shiftr_div_pow2 by lia. lia.
Qed.

#[export] Hint Resolve u32_range u16_range u8_range s32_range : kernel.

(** ** Record update

    [r <| f := v |>] is [r] with field [f] set to [v].  A record declares its
    eta expansion once ([Eta]); the setter of a field is computed from it by
    abstracting the projection. *)
Class Eta (R : Type) := eta_of : R -> R.

Class Upd {R T : Type} (proj : R -> T) := upd : (T -> T) -> R -> R.
Arguments upd {R T} proj {_} _ _.

Ltac derive_upd :=
  match goal with
  | |- @Upd ?R ?T ?proj =>
      let e := constr:(ltac:(typeclasses eauto) : Eta R) in
      let e := eval hnf in e in
      let e := eval pattern proj in e in
      match e with
      | ?F _ =>
          let g := constr:(fun h : T -> T => F (fun r : R => h (proj r))) in
          let g := eval cbv beta in g in
          exact g
      end
  end.
#[export] Hint Extern 1 (Upd _) => derive_upd : typeclass_instances.

Notation "r <| f := v |>" := (upd f (fun _ => v) r)
  (at level 1, left associativity, format "r  <| f  :=  v |>") : kernel_scope.
Open Scope kernel_scope.

(** ** Kernel code as a state monad with oopses

    A kernel routine maps a state to a result and a new state, or to [None]
    when it dereferences a pointer that is not valid (an oops). *)
Definition M (S A : Type) : Type := S -> option (A * S).

Definition ret {S A : Type} (a : A) : M S A := fun s => Some (a, s).
Definition bind {S A B : Type} (m : M S A) (k : A -> M S B) : M S B := fun s =>
  match m s with Some (a, s') => k a s' | None => None end.

Notation "x ← y ; z" := (bind y (λ x : _, z))
  (at level 20, y at level 100, z at level 200) : kernel_scope.
Notation "y ;; z" := (bind y (λ _ : _, z))
  (at level 100, z at level 200, right associativity) : kernel_scope.

Section monad.
Context {S : Type}.

Definition gets {A} (f : S -> A) : M S A := fun s => Some (f s, s).
Definition modify (f : S -> S) : M S unit := fun s => Some (tt, f s).
Definition oops {A} : M S A := fun _ => None.

(** Dereference: the object a pointer denotes, or an oops. *)
Definition deref {A} (o : option A) : M S A :=
  match o with Some a => ret a | None => oops end.

(** [if (b) m;] *)
Definition when (b : bool) (m : M S unit) : M S unit :=
  if b then m else ret tt.

(** A loop over a snapshot of a list, the body run for its effect. *)
Fixpoint for_each {A} (l : list A) (body : A -> M S unit) : M S unit :=
  match l with
  | [] => ret tt
  | x :: l => _ ← body x; for_each l body
  end.

(** The same loop with a local variable. *)
Fixpoint fold_each {A B} (l : list A) (acc : B) (body : B -> A -> M S B) : M S B :=
  match l with
  | [] => ret acc
  | x :: l => acc ← body acc x; fold_each l acc body
  end.

(** [wp m Q s]: from [s] the routine [m] does not oops, and its result and
    final state satisfy [Q]. *)
Definition wp {A} (m : M S A) (Q : A -> S -> Prop) (s : S) : Prop :=
  match m s with Some (a, s') => Q a s' | None => False end.

Lemma wp_ret {A} (a : A) Q s : Q a s -> wp (ret a) Q s.
Proof. done. Qed.

Lemma wp_bind {A B} (m : M S A) (k : A -> M S B) Q s :
  wp m (fun a => wp (k a) Q) s -> wp (bind m k) Q s.
Proof. unfold wp, bind. by destruct (m s) as [[a s']|]. Qed.

Lemma wp_gets {A} (f : S -> A) Q s : Q (f s) s -> wp (gets f) Q s.
Proof. done. Qed.

Lemma wp_modify (f : S -> S) Q s : Q tt (f s) -> wp (modify f) Q s.
Proof. done. Qed.

Lemma wp_deref {A} (o : option A) a Q s : o = Some a -> Q a s -> wp (deref o) Q s.
Proof. by intros -> ?. Qed.

Lemma wp_when b (m : M S unit) Q s :
  (b = true -> wp m Q s) -> (b = false -> Q tt s) -> wp (when b m) Q s.
Proof. unfold when. destruct b; auto using wp_ret. Qed.

Lemma wp_mono {A} (m : M S A) (Q Q' : A -> S -> Prop) s :
  wp m Q s -> (forall a s', Q a s' -> Q' a s') -> wp m Q' s.
Proof. unfold wp. destruct (m s) as [[a s']|]; auto. Qed.

Lemma wp_run {A} (m : M S A) Q s :
  wp m Q s -> exists a s', m s = Some (a, s') /\ Q a s'.
Proof. unfold wp. destruct (m s) as [[a s']|]; [eauto|done]. Qed.

(** A routine that is known to run, in a sequence. *)
Lemma bind_run {A B} (m : M S A) (k : A -> M S B) s a s' : m s = Some (a, s') -> bind m k s = k a s'.
Proof. unfold bind. by intros ->. Qed.

Lemma wp_of_run {A} (m : M S A) (Q : A -> S -> Prop) s a s' :
  m s = Some (a, s') -> Q a s' -> wp m Q s.
Proof. unfold wp. by intros ->. Qed.

(** Loop rule: an invariant indexed by the elements already visited and
    those still to come. *)
Lemma wp_for_each {A} (I : list A -> list A -> S -> Prop) (l : list A) body s :
  I [] l s ->
  (forall done x rest s, l = done ++ x :: rest -> I done (x :: rest) s ->
     wp (body x) (fun _ => I (done ++ [x]) rest) s) ->
  wp (for_each l body) (fun _ => I l []) s.
Proof.
  intros H0 Hstep.
  assert (forall rest dn s, l = dn ++ rest -> I dn rest s ->
            wp (for_each rest body) (fun _ => I l []) s) as Hgen.
  { induction rest as [|x rest IH]; intros dn s0 E HI; simpl.
    - apply wp_ret. rewrite app_nil_r in E. by subst.
    - apply wp_bind. eapply wp_mono; [by eapply Hstep|].
      intros [] s1 H1. apply (IH (dn ++ [x])); [|done].
      by rewrite <- app_assoc. }
  by apply (Hgen l []).
Qed.

Lemma wp_fold_each {A B} (I : list A -> list A -> B -> S -> Prop) (l : list A) acc
    (body : B -> A -> M S B) s :
  I [] l acc s ->
  (forall done x rest acc s, l = done ++ x :: rest -> I done (x :: rest) acc s ->
     wp (body acc x) (fun acc => I (done ++ [x]) rest acc) s) ->
  wp (fold_each l acc body) (fun acc => I l [] acc) s.
Proof.
  intros H0 Hstep.
  assert (forall rest dn acc s, l = dn ++ rest -> I dn rest acc s ->
            wp (fold_each rest acc body) (fun acc => I l [] acc) s) as Hgen.
  { induction rest as [|x rest IH]; intros dn acc0 s0 E HI; simpl.
    - apply wp_ret. rewrite app_nil_r in E. by subst.
    - apply wp_bind. eapply wp_mono; [by eapply Hstep|].
      intros b s1 H1. apply (IH (dn ++ [x])); [|done].
      by rewrite <- app_assoc. }
  by apply (Hgen l []).
Qed.
End monad.

Arguments oops {S A} : simpl never.

(** One step of symbolic execution. *)
Ltac wp_step :=
  lazymatch goal with
  | |- wp (ret _) _ _ => apply wp_ret
  | |- wp (bind _ _) _ _ => apply wp_bind
  | |- wp (gets _) _ _ => apply wp_gets
  | |- wp (modify _) _ _ => apply wp_modify
  | |- wp (when _ _) _ _ => apply wp_when; intros
  | |- wp (deref _) _ _ => eapply wp_deref; [by eauto|]
  | |- wp (if ?b then _ else _) _ _ => let E := fresh "E" in destruct b eqn:E
  end.
Ltac wp_steps := repeat (wp_step; cbv beta).
