(* ===== verification/LibString.v ===== *)
(** * lib/string.c: memory comparison

    The generic [memcmp] of the kernel's C library, and the order theory its
    clients rely on: on buffers of [count] bytes it is a three-way
    lexicographic comparison. *)
From S2P Require Import Prelude.

(** [memcmp(cs, ct, count)]: the difference of the first bytes that differ.
    A buffer is the list of its bytes; callers pass buffers of at least
    [count] bytes. *)
Fixpoint memcmp (cs ct : list Z) (count : nat) : Z :=
  match count with
  | O => 0
  | S count =>
      match cs, ct with
      | su1 :: cs, su2 :: ct =>
          let res := su1 - su2 in
          if truth res then res else memcmp cs ct count
      | _, _ => 0
      end
  end.

Section memcmp_order.
Implicit Types (a b c : list Z) (n : nat).

Lemma memcmp_refl a n : memcmp a a n = 0.
Proof.
  revert a; induction n as [|n IH]; intros [|x a]; simpl; try done.
  unfold truth. rewrite Z.sub_diag. simpl. apply IH.
Qed.

Lemma memcmp_antisym a b n : memcmp b a n = - memcmp a b n.
Proof.
  revert a b; induction n as [|n IH]; intros [|x a] [|y b]; simpl; try done.
  unfold truth. destruct (Z.eqb_spec (y - x) 0), (Z.eqb_spec (x - y) 0); simpl; try lia.
  apply IH.
Qed.

Lemma memcmp_eq a b n :
  length a = n -> length b = n -> memcmp a b n = 0 <-> a = b.
Proof.
  intros Ha Hb. split; [|intros ->; apply memcmp_refl].
  revert a b Ha Hb; induction n as [|n IH]; intros [|x a] [|y b] Ha Hb H; simplify_eq/=; try done.
  unfold truth in H. destruct (Z.eqb_spec (x - y) 0) as [E|E]; simpl in H; [|done].
  f_equal; [lia|]. by apply IH.
Qed.

(** The two transitivity facts from which every mixed one follows. *)
Lemma memcmp_eq_l a b c n :
  length a = n -> length b = n -> memcmp a b n = 0 -> memcmp a c n = memcmp b c n.
Proof. intros Ha Hb H. apply memcmp_eq in H as ->; done. Qed.

Lemma memcmp_trans a b c n :
  length a = n -> length b = n -> length c = n ->
  memcmp a b n < 0 -> memcmp b c n < 0 -> memcmp a c n < 0.
Proof.
  revert a b c; induction n as [|n IH]; intros [|x a] [|y b] [|z c] Ha Hb Hc; simplify_eq/=; try lia.
  unfold truth.
  destruct (Z.eqb_spec (x - y) 0), (Z.eqb_spec (y - z) 0), (Z.eqb_spec (x - z) 0);
    simpl; try lia.
  by apply IH.
Qed.

Lemma memcmp_le_trans a b c n :
  length a = n -> length b = n -> length c = n ->
  memcmp a b n <= 0 -> memcmp b c n <= 0 -> memcmp a c n <= 0.
Proof.
  intros Ha Hb Hc H1 H2.
  destruct (Z.eq_dec (memcmp a b n) 0) as [E|E].
  { by rewrite (memcmp_eq_l a b c n). }
  destruct (Z.eq_dec (memcmp b c n) 0) as [E'|E'].
  { apply memcmp_eq in E' as <-; [lia|done..]. }
  pose proof (memcmp_trans a b c n Ha Hb Hc). lia.
Qed.
End memcmp_order.
