(* ===== verification/BridgeData.v ===== *)
(** * net/bridge/br_private.h: the bridge's data

    One bridge and its world.  Structures live in stores indexed by pointers,
    so that aliasing (a port reachable from the bridge's port list, from its
    device and from forwarding entries) is the code's.  Field names carry a
    prefix per structure ([b_] net_bridge, [p_] net_bridge_port, [f_]
    net_bridge_fdb_entry, [c_] br_config_bpdu, [d_] net_device, [t_]
    timer_list); locks, kobjects and RCU heads have no field. *)
From S2P Require Import Prelude LibString.

Abbreviation ptr := nat (only parsing).

(** HZ of the generic MIPS machine, and the device flag bits in use. *)
Definition HZ : Z := 1000.
Definition USER_HZ : Z := 100.
Definition ETH_ALEN : nat := 6.
Definition IFF_UP : Z := 1.
Definition IFF_LOOPBACK : Z := 8.
Definition IFF_PROMISC : Z := 256.
Definition ARPHRD_ETHER : Z := 1.

Definition BR_HASH_BITS : Z := 8.
Definition BR_HASH_SIZE : Z := Z.shiftl 1 BR_HASH_BITS.
Definition BR_HOLD_TIME : Z := 1 * HZ.
Definition BR_PORT_BITS : Z := 10.
Definition BR_MAX_PORTS : Z := Z.shiftl 1 BR_PORT_BITS.

Definition BR_STATE_DISABLED : Z := 0.
Definition BR_STATE_LISTENING : Z := 1.
Definition BR_STATE_LEARNING : Z := 2.
Definition BR_STATE_FORWARDING : Z := 3.
Definition BR_STATE_BLOCKING : Z := 4.

Definition BPDU_TYPE_CONFIG : Z := 0.
Definition BPDU_TYPE_TCN : Z := 128.

(** Comparison of wrapping time stamps ([long] differences). *)
Definition time_after_eq (a b : Z) : bool := 0 <=? s32 (a - b).
Definition time_before_eq (a b : Z) : bool := time_after_eq b a.

(** A timer: whether it is queued, and its expiry time. *)
Record timer_list := { t_pending : bool; t_expires : Z }.
Definition mod_timer (expires : Z) (_ : timer_list) : timer_list :=
  {| t_pending := true; t_expires := expires |}.
Definition del_timer (t : timer_list) : timer_list :=
  {| t_pending := false; t_expires := t_expires t |}.
Definition init_timer : timer_list := {| t_pending := false; t_expires := 0 |}.
Definition timer_pending (t : timer_list) : bool := t_pending t.

(** [struct bridge_id]: two priority bytes, then six address bytes. *)
Record bridge_id := { prio : list Z; addr : list Z }.
Definition id_bytes (i : bridge_id) : list Z := prio i ++ addr i.
Definition id_cmp (i j : bridge_id) : Z := memcmp (id_bytes i) (id_bytes j) 8.

Record net_device := {
  d_addr : list Z;             (* dev_addr *)
  d_flags : Z;
  d_carrier : bool;            (* netif_carrier_ok *)
  d_mtu : Z;
  d_type : Z;
  d_ifindex : Z;
  d_name : list Z;
  d_speed : option Z;          (* dev_ethtool(ETHTOOL_GSET): the speed, if it succeeds *)
  d_is_bridge : bool;          (* hard_start_xmit == br_dev_xmit *)
  d_promiscuity : Z;
  d_br_port : option ptr }.
#[export] Instance eta_net_device : Eta net_device := fun r =>
  Build_net_device (d_addr r) (d_flags r) (d_carrier r) (d_mtu r) (d_type r)
    (d_ifindex r) (d_name r) (d_speed r) (d_is_bridge r) (d_promiscuity r) (d_br_port r).

Record net_bridge_fdb_entry := {
  f_dst : ptr;
  f_use_count : Z;
  f_ageing_timer : Z;
  f_addr : list Z;
  f_is_local : Z;
  f_is_static : Z }.
#[export] Instance eta_fdb : Eta net_bridge_fdb_entry := fun r =>
  Build_net_bridge_fdb_entry (f_dst r) (f_use_count r) (f_ageing_timer r) (f_addr r)
    (f_is_local r) (f_is_static r).

Record net_bridge_port := {
  p_dev : ptr;
  p_priority : Z;
  p_state : Z;
  p_port_no : Z;
  p_topology_change_ack : Z;
  p_config_pending : Z;
  p_port_id : Z;
  p_designated_port : Z;
  p_designated_root : bridge_id;
  p_designated_bridge : bridge_id;
  p_path_cost : Z;
  p_designated_cost : Z;
  p_forward_delay_timer : timer_list;
  p_hold_timer : timer_list;
  p_message_age_timer : timer_list }.
#[export] Instance eta_port : Eta net_bridge_port := fun r =>
  Build_net_bridge_port (p_dev r) (p_priority r) (p_state r) (p_port_no r)
    (p_topology_change_ack r) (p_config_pending r) (p_port_id r) (p_designated_port r)
    (p_designated_root r) (p_designated_bridge r) (p_path_cost r) (p_designated_cost r)
    (p_forward_delay_timer r) (p_hold_timer r) (p_message_age_timer r).

Record net_bridge := {
  b_port_list : list ptr;
  b_dev : ptr;
  b_tx_packets : Z;
  b_tx_bytes : Z;
  b_tx_dropped : Z;
  b_rx_packets : Z;
  b_rx_bytes : Z;
  b_hash : list (list ptr);
  b_age_list : list ptr;
  b_designated_root : bridge_id;
  b_bridge_id : bridge_id;
  b_root_path_cost : Z;
  b_max_age : Z;
  b_hello_time : Z;
  b_forward_delay : Z;
  b_bridge_max_age : Z;
  b_ageing_time : Z;
  b_bridge_hello_time : Z;
  b_bridge_forward_delay : Z;
  b_root_port : Z;
  b_stp_enabled : Z;
  b_topology_change : Z;
  b_topology_change_detected : Z;
  b_hello_timer : timer_list;
  b_tcn_timer : timer_list;
  b_topology_change_timer : timer_list;
  b_gc_timer : timer_list }.
#[export] Instance eta_bridge : Eta net_bridge := fun r =>
  Build_net_bridge (b_port_list r) (b_dev r) (b_tx_packets r) (b_tx_bytes r) (b_tx_dropped r)
    (b_rx_packets r) (b_rx_bytes r) (b_hash r) (b_age_list r) (b_designated_root r)
    (b_bridge_id r) (b_root_path_cost r) (b_max_age r) (b_hello_time r) (b_forward_delay r)
    (b_bridge_max_age r) (b_ageing_time r) (b_bridge_hello_time r) (b_bridge_forward_delay r)
    (b_root_port r) (b_stp_enabled r) (b_topology_change r) (b_topology_change_detected r)
    (b_hello_timer r) (b_tcn_timer r) (b_topology_change_timer r) (b_gc_timer r).

(** [struct br_config_bpdu]; the [int] members are signed. *)
Record br_config_bpdu := {
  c_topology_change : Z;
  c_topology_change_ack : Z;
  c_root : bridge_id;
  c_root_path_cost : Z;
  c_bridge_id : bridge_id;
  c_port_id : Z;
  c_message_age : Z;
  c_max_age : Z;
  c_hello_time : Z;
  c_forward_delay : Z }.

(** The kernel state a bridge routine sees: the bridge, the stores its
    pointers point into, the clock, the frames handed to devices
    ([dev_queue_xmit]) and to the network stack ([netif_rx]), each with the
    device they are bound to, the next free pointer, and the answers the
    memory allocator will give (none left: it succeeds). *)
Record kst := {
  k_br : net_bridge;
  k_ports : gmap ptr net_bridge_port;
  k_devs : gmap ptr net_device;
  k_fdbs : gmap ptr net_bridge_fdb_entry;
  k_jiffies : Z;
  k_xmit : list (ptr * list Z);
  k_up : list (ptr * list Z);
  k_next : ptr;
  k_alloc : list bool }.
#[export] Instance eta_kst : Eta kst := fun r =>
  Build_kst (k_br r) (k_ports r) (k_devs r) (k_fdbs r) (k_jiffies r) (k_xmit r) (k_up r)
    (k_next r) (k_alloc r).

(** Primitive accesses. *)
Definition br_get {A} (f : net_bridge -> A) : M kst A := gets (fun s => f (k_br s)).
Definition br_set (f : net_bridge -> net_bridge) : M kst unit :=
  modify (fun s => s <| k_br := f (k_br s) |>).
Definition jiffies : M kst Z := gets k_jiffies.

Definition port_get (p : ptr) : M kst net_bridge_port :=
  o ← gets (fun s => k_ports s !! p); deref o.
Definition port_set (p : ptr) (f : net_bridge_port -> net_bridge_port) : M kst unit :=
  o ← gets (fun s => k_ports s !! p); x ← deref o;
  modify (fun s => s <| k_ports := <[p := f x]> (k_ports s) |>).

Definition dev_get (d : ptr) : M kst net_device :=
  o ← gets (fun s => k_devs s !! d); deref o.
Definition dev_set (d : ptr) (f : net_device -> net_device) : M kst unit :=
  o ← gets (fun s => k_devs s !! d); x ← deref o;
  modify (fun s => s <| k_devs := <[d := f x]> (k_devs s) |>).

Definition fdb_get (e : ptr) : M kst net_bridge_fdb_entry :=
  o ← gets (fun s => k_fdbs s !! e); deref o.
Definition fdb_set (e : ptr) (f : net_bridge_fdb_entry -> net_bridge_fdb_entry) : M kst unit :=
  o ← gets (fun s => k_fdbs s !! e); x ← deref o;
  modify (fun s => s <| k_fdbs := <[e := f x]> (k_fdbs s) |>).

(** Whether the next allocation succeeds. *)
Definition alloc_ok : M kst bool :=
  l ← gets k_alloc;
  match l with
  | [] => ret true
  | b :: l => modify (fun s => s <| k_alloc := l |>);; ret b
  end.
(** A fresh pointer. *)
Definition fresh : M kst ptr :=
  n ← gets k_next; modify (fun s => s <| k_next := S n |>);; ret n.

(** [br_is_root_bridge] and [br_is_designated_port]. *)
Definition br_is_root_bridge (br : net_bridge) : bool :=
  id_cmp (b_bridge_id br) (b_designated_root br) =? 0.

Definition br_is_designated_port (br : net_bridge) (p : net_bridge_port) : bool :=
  (id_cmp (p_designated_bridge p) (b_bridge_id br) =? 0) &&
  (p_designated_port p =? p_port_id p).
