(* ===== verification/BridgeBpdu.v ===== *)
(** * net/bridge/br_stp_bpdu.c: BPDU encoding, transmission and decoding

    Hello times and ages travel in units of 1/256 second; [br_set_ticks] and
    [br_get_ticks] convert.  A configuration BPDU is 38 bytes on the wire. *)
From S2P Require Import Prelude LibString BridgeData.

Definition bridge_ula : list Z := [1; 128; 194; 0; 0; 0].

(** [JIFFIES_TO_TICKS] and [TICKS_TO_JIFFIES] on [int] operands. *)
Definition JIFFIES_TO_TICKS (j : Z) : Z := Z.quot (s32 (Z.shiftl j 8)) HZ.
Definition TICKS_TO_JIFFIES (j : Z) : Z := Z.shiftr (s32 (j * HZ)) 8.

(** The frame [br_send_bpdu] builds: destination, source, 802.3 length, the
    BPDU, and padding to the minimum frame size. *)
Definition br_bpdu_frame (dev_addr data : list Z) : list Z :=
  let length := Z.of_nat (length data) in
  let size := length + 2 * Z.of_nat ETH_ALEN + 2 in
  let size := if size <? 60 then 60 else size in
  bridge_ula ++ dev_addr ++ [0; u8 length] ++ data ++
  replicate (Z.to_nat (size - length - 2 * Z.of_nat ETH_ALEN - 2)) 165.

Definition br_send_bpdu (p : ptr) (data : list Z) : M kst unit :=
  stp_enabled ← br_get b_stp_enabled;
  pp ← port_get p;
  if negb (truth stp_enabled) then ret tt else
  ok ← alloc_ok;
  if negb ok then ret tt else
  dev ← dev_get (p_dev pp);
  modify (fun s => s <| k_xmit := k_xmit s ++ [(p_dev pp, br_bpdu_frame (d_addr dev) data)] |>).

Definition br_set_ticks (jiff : Z) : list Z :=
  let ticks := u16 (JIFFIES_TO_TICKS jiff) in
  [Z.land (Z.shiftr ticks 8) 255; Z.land ticks 255].

Definition br_get_ticks (dest : list Z) : Z :=
  match dest with
  | d0 :: d1 :: _ => TICKS_TO_JIFFIES (Z.lor (Z.shiftl d0 8) d1)
  | _ => 0
  end.

(** The 38 bytes of a configuration BPDU (LLC header, protocol header, body). *)
Definition config_bpdu_bytes (bpdu : br_config_bpdu) : list Z :=
  [66; 66; 3; 0; 0; 0; BPDU_TYPE_CONFIG;
   Z.lor (if truth (c_topology_change bpdu) then 1 else 0)
         (if truth (c_topology_change_ack bpdu) then 128 else 0)] ++
  prio (c_root bpdu) ++ addr (c_root bpdu) ++
  [Z.land (Z.shiftr (c_root_path_cost bpdu) 24) 255;
   Z.land (Z.shiftr (c_root_path_cost bpdu) 16) 255;
   Z.land (Z.shiftr (c_root_path_cost bpdu) 8) 255;
   Z.land (c_root_path_cost bpdu) 255] ++
  prio (c_bridge_id bpdu) ++ addr (c_bridge_id bpdu) ++
  [Z.land (Z.shiftr (c_port_id bpdu) 8) 255; Z.land (c_port_id bpdu) 255] ++
  br_set_ticks (c_message_age bpdu) ++
  br_set_ticks (c_max_age bpdu) ++
  br_set_ticks (c_hello_time bpdu) ++
  br_set_ticks (c_forward_delay bpdu).

Definition br_send_config_bpdu (p : ptr) (bpdu : br_config_bpdu) : M kst unit :=
  br_send_bpdu p (config_bpdu_bytes bpdu).

Definition tcn_bpdu_bytes : list Z := [66; 66; 3; 0; 0; 0; BPDU_TYPE_TCN].

(** The argument is what [br_get_port] returned, possibly NULL. *)
Definition br_send_tcn_bpdu (p : option ptr) : M kst unit :=
  p ← deref p; br_send_bpdu p tcn_bpdu_bytes.

Definition header : list Z := [66; 66; 3; 0; 0; 0].

Definition byte_at (buf : list Z) (i : nat) : Z := default 0 (buf !! i).

(** The body of a received configuration BPDU: [buf] starts at the type byte
    (after [skb_pull] of the LLC and protocol header). *)
Definition parse_config_bpdu (buf : list Z) : br_config_bpdu :=
  let b := byte_at buf in
  {| c_topology_change := if truth (Z.land (b 1%nat) 1) then 1 else 0;
     c_topology_change_ack := if truth (Z.land (b 1%nat) 128) then 1 else 0;
     c_root := {| prio := [b 2; b 3]%nat;
                  addr := [b 4; b 5; b 6; b 7; b 8; b 9]%nat |};
     c_root_path_cost :=
       s32 (Z.lor (Z.lor (Z.lor (Z.shiftl (b 10%nat) 24) (Z.shiftl (b 11%nat) 16))
              (Z.shiftl (b 12%nat) 8)) (b 13%nat));
     c_bridge_id := {| prio := [b 14; b 15]%nat;
                       addr := [b 16; b 17; b 18; b 19; b 20; b 21]%nat |};
     c_port_id := u16 (Z.lor (Z.shiftl (b 22%nat) 8) (b 23%nat));
     c_message_age := br_get_ticks (drop 24 buf);
     c_max_age := br_get_ticks (drop 26 buf);
     c_hello_time := br_get_ticks (drop 28 buf);
     c_forward_delay := br_get_ticks (drop 30 buf) |}.
