(* ===== verification/BridgeStp.v ===== *)
(** * net/bridge/br_stp.c: the spanning tree protocol engine *)
From S2P Require Import Prelude LibString BridgeData BridgeBpdu.

Definition MESSAGE_AGE_INCR : Z := if HZ <? 256 then 1 else HZ / 256.

(** [br_get_port]: the first port of the list with that number, or NULL. *)
Fixpoint find_port (port_no : Z) (l : list ptr) : M kst (option ptr) :=
  match l with
  | [] => ret None
  | p :: l =>
      pp ← port_get p;
      if p_port_no pp =? port_no then ret (Some p) else find_port port_no l
  end.
Definition br_get_port (port_no : Z) : M kst (option ptr) :=
  l ← br_get b_port_list; find_port port_no l.

(** The comparisons of [br_should_become_root_port] once the current root
    port [rp] is known. *)
Definition better_root_port (p rp : net_bridge_port) : bool :=
  let t := id_cmp (p_designated_root p) (p_designated_root rp) in
  if t <? 0 then true else if t >? 0 then false else
  let cp := u32 (p_designated_cost p + p_path_cost p) in
  let crp := u32 (p_designated_cost rp + p_path_cost rp) in
  if cp <? crp then true else if cp >? crp then false else
  let t := id_cmp (p_designated_bridge p) (p_designated_bridge rp) in
  if t <? 0 then true else if t >? 0 then false else
  if p_designated_port p <? p_designated_port rp then true
  else if p_designated_port p >? p_designated_port rp then false else
  p_port_id p <? p_port_id rp.

Definition br_should_become_root_port (p : ptr) (root_port : Z) : M kst bool :=
  br ← br_get id;
  pp ← port_get p;
  if (p_state pp =? BR_STATE_DISABLED) || br_is_designated_port br pp then ret false else
  if id_cmp (b_bridge_id br) (p_designated_root pp) <=? 0 then ret false else
  if root_port =? 0 then ret true else
  rp ← br_get_port root_port;
  rp ← deref rp;
  rpp ← port_get rp;
  ret (better_root_port pp rpp).

Definition br_root_selection : M kst unit :=
  l ← br_get b_port_list;
  root_port ← fold_each l 0 (fun root_port p =>
    b ← br_should_become_root_port p root_port;
    if b then (pp ← port_get p; ret (p_port_no pp)) else ret root_port);
  br_set (fun br => br <| b_root_port := root_port |>);;
  if root_port =? 0 then
    br_set (fun br => br <| b_designated_root := b_bridge_id br |> <| b_root_path_cost := 0 |>)
  else
    p ← br_get_port root_port;
    p ← deref p;
    pp ← port_get p;
    br_set (fun br => br <| b_designated_root := p_designated_root pp |>
      <| b_root_path_cost := u32 (p_designated_cost pp + p_path_cost pp) |>).

Definition br_transmit_config (p : ptr) : M kst unit :=
  pp ← port_get p;
  if timer_pending (p_hold_timer pp) then
    port_set p (fun pp => pp <| p_config_pending := 1 |>)
  else
  br ← br_get id;
  now ← jiffies;
  message_age ←
    (if br_is_root_bridge br then ret 0 else
     root ← br_get_port (b_root_port br);
     root ← deref root;
     rpp ← port_get root;
     ret (s32 (b_max_age br - (t_expires (p_message_age_timer rpp) - now) + MESSAGE_AGE_INCR)));
  let bpdu := {|
    c_topology_change := Z.land (b_topology_change br) 1;
    c_topology_change_ack := Z.land (p_topology_change_ack pp) 1;
    c_root := b_designated_root br;
    c_root_path_cost := s32 (b_root_path_cost br);
    c_bridge_id := b_bridge_id br;
    c_port_id := p_port_id pp;
    c_message_age := message_age;
    c_max_age := s32 (b_max_age br);
    c_hello_time := s32 (b_hello_time br);
    c_forward_delay := s32 (b_forward_delay br) |} in
  when (u32 (c_message_age bpdu) <? b_max_age br)
    (br_send_config_bpdu p bpdu;;
     port_set p (fun pp => pp <| p_topology_change_ack := 0 |> <| p_config_pending := 0 |>
       <| p_hold_timer := mod_timer (u32 (now + BR_HOLD_TIME)) (p_hold_timer pp) |>)).

Definition br_record_config_information (p : ptr) (bpdu : br_config_bpdu) : M kst unit :=
  now ← jiffies;
  max_age ← br_get b_max_age;
  port_set p (fun pp => pp
    <| p_designated_root := c_root bpdu |>
    <| p_designated_cost := u32 (c_root_path_cost bpdu) |>
    <| p_designated_bridge := c_bridge_id bpdu |>
    <| p_designated_port := c_port_id bpdu |>
    <| p_message_age_timer :=
         mod_timer (u32 (now + (max_age - c_message_age bpdu))) (p_message_age_timer pp) |>).

Definition br_record_config_timeout_values (bpdu : br_config_bpdu) : M kst unit :=
  br_set (fun br => br
    <| b_max_age := u32 (c_max_age bpdu) |>
    <| b_hello_time := u32 (c_hello_time bpdu) |>
    <| b_forward_delay := u32 (c_forward_delay bpdu) |>
    <| b_topology_change := c_topology_change bpdu |>).

Definition br_transmit_tcn : M kst unit :=
  root_port ← br_get b_root_port;
  p ← br_get_port root_port;
  br_send_tcn_bpdu p.

Definition br_should_become_designated_port (br : net_bridge) (p : net_bridge_port) : bool :=
  if br_is_designated_port br p then true else
  if truth (id_cmp (p_designated_root p) (b_designated_root br)) then true else
  if b_root_path_cost br <? p_designated_cost p then true
  else if b_root_path_cost br >? p_designated_cost p then false else
  let t := id_cmp (b_bridge_id br) (p_designated_bridge p) in
  if t <? 0 then true else if t >? 0 then false else
  p_port_id p <? p_designated_port p.

Definition br_become_designated_port (p : ptr) : M kst unit :=
  br ← br_get id;
  port_set p (fun pp => pp
    <| p_designated_root := b_designated_root br |>
    <| p_designated_cost := b_root_path_cost br |>
    <| p_designated_bridge := b_bridge_id br |>
    <| p_designated_port := p_port_id pp |>).

Definition br_designated_port_selection : M kst unit :=
  l ← br_get b_port_list;
  for_each l (fun p =>
    br ← br_get id;
    pp ← port_get p;
    when (negb (p_state pp =? BR_STATE_DISABLED) && br_should_become_designated_port br pp)
      (br_become_designated_port p)).

(** The [int] cost of a received BPDU is compared with the [u32] of the port
    as unsigned. *)
Definition br_supersedes_port_info (br : net_bridge) (p : net_bridge_port)
    (bpdu : br_config_bpdu) : bool :=
  let t := id_cmp (c_root bpdu) (p_designated_root p) in
  if t <? 0 then true else if t >? 0 then false else
  if u32 (c_root_path_cost bpdu) <? p_designated_cost p then true
  else if u32 (c_root_path_cost bpdu) >? p_designated_cost p then false else
  let t := id_cmp (c_bridge_id bpdu) (p_designated_bridge p) in
  if t <? 0 then true else if t >? 0 then false else
  if truth (id_cmp (c_bridge_id bpdu) (b_bridge_id br)) then true else
  c_port_id bpdu <=? p_designated_port p.

Definition br_topology_change_acknowledged : M kst unit :=
  br_set (fun br => br <| b_topology_change_detected := 0 |>
    <| b_tcn_timer := del_timer (b_tcn_timer br) |>).

Definition br_topology_change_detection : M kst unit :=
  br ← br_get id;
  now ← jiffies;
  (if br_is_root_bridge br then
     br_set (fun br => br <| b_topology_change := 1 |>
       <| b_topology_change_timer :=
            mod_timer (u32 (now + b_bridge_forward_delay br + b_bridge_max_age br))
              (b_topology_change_timer br) |>)
   else when (negb (truth (b_topology_change_detected br)))
     (br_transmit_tcn;;
      br_set (fun br => br <| b_tcn_timer :=
        mod_timer (u32 (now + b_bridge_hello_time br)) (b_tcn_timer br) |>)));;
  br_set (fun br => br <| b_topology_change_detected := 1 |>).

Definition br_config_bpdu_generation : M kst unit :=
  l ← br_get b_port_list;
  for_each l (fun p =>
    br ← br_get id;
    pp ← port_get p;
    when (negb (p_state pp =? BR_STATE_DISABLED) && br_is_designated_port br pp)
      (br_transmit_config p)).

Definition br_become_root_bridge : M kst unit :=
  br_set (fun br => br <| b_max_age := b_bridge_max_age br |>
    <| b_hello_time := b_bridge_hello_time br |>
    <| b_forward_delay := b_bridge_forward_delay br |>);;
  br_topology_change_detection;;
  br_set (fun br => br <| b_tcn_timer := del_timer (b_tcn_timer br) |>);;
  d ← br_get b_dev;
  dev ← dev_get d;
  when (truth (Z.land (d_flags dev) IFF_UP))
    (br_config_bpdu_generation;;
     now ← jiffies;
     br_set (fun br => br <| b_hello_timer :=
       mod_timer (u32 (now + b_hello_time br)) (b_hello_timer br) |>)).

Definition br_reply (p : ptr) : M kst unit := br_transmit_config p.

Definition br_configuration_update : M kst unit :=
  br_root_selection;; br_designated_port_selection.

Definition br_make_blocking (p : ptr) : M kst unit :=
  pp ← port_get p;
  when (negb (p_state pp =? BR_STATE_DISABLED) && negb (p_state pp =? BR_STATE_BLOCKING))
    (when ((p_state pp =? BR_STATE_FORWARDING) || (p_state pp =? BR_STATE_LEARNING))
       br_topology_change_detection;;
     port_set p (fun pp => pp <| p_state := BR_STATE_BLOCKING |>
       <| p_forward_delay_timer := del_timer (p_forward_delay_timer pp) |>)).

Definition br_make_forwarding (p : ptr) : M kst unit :=
  pp ← port_get p;
  when (p_state pp =? BR_STATE_BLOCKING)
    (br ← br_get id;
     now ← jiffies;
     port_set p (fun pp => pp
       <| p_state := if truth (b_stp_enabled br) then BR_STATE_LISTENING else BR_STATE_LEARNING |>
       <| p_forward_delay_timer :=
            mod_timer (u32 (now + b_forward_delay br)) (p_forward_delay_timer pp) |>)).

Definition br_port_state_selection : M kst unit :=
  l ← br_get b_port_list;
  for_each l (fun p =>
    br ← br_get id;
    pp ← port_get p;
    when (negb (p_state pp =? BR_STATE_DISABLED))
      (if p_port_no pp =? b_root_port br then
         port_set p (fun pp => pp <| p_config_pending := 0 |> <| p_topology_change_ack := 0 |>);;
         br_make_forwarding p
       else if br_is_designated_port br pp then
         port_set p (fun pp => pp <| p_message_age_timer := del_timer (p_message_age_timer pp) |>);;
         br_make_forwarding p
       else
         port_set p (fun pp => pp <| p_config_pending := 0 |> <| p_topology_change_ack := 0 |>);;
         br_make_blocking p)).

Definition br_topology_change_acknowledge (p : ptr) : M kst unit :=
  port_set p (fun pp => pp <| p_topology_change_ack := 1 |>);;
  br_transmit_config p.

Definition br_received_config_bpdu (p : ptr) (bpdu : br_config_bpdu) : M kst unit :=
  br ← br_get id;
  pp ← port_get p;
  let was_root := br_is_root_bridge br in
  if br_supersedes_port_info br pp bpdu then
    br_record_config_information p bpdu;;
    br_configuration_update;;
    br_port_state_selection;;
    br ← br_get id;
    when (negb (br_is_root_bridge br) && was_root)
      (br_set (fun br => br <| b_hello_timer := del_timer (b_hello_timer br) |>);;
       detected ← br_get b_topology_change_detected;
       when (truth detected)
         (br_set (fun br => br <| b_topology_change_timer := del_timer (b_topology_change_timer br) |>);;
          br_transmit_tcn;;
          now ← jiffies;
          br_set (fun br => br <| b_tcn_timer :=
            mod_timer (u32 (now + b_bridge_hello_time br)) (b_tcn_timer br) |>)));;
    pp ← port_get p;
    root_port ← br_get b_root_port;
    when (p_port_no pp =? root_port)
      (br_record_config_timeout_values bpdu;;
       br_config_bpdu_generation;;
       when (truth (c_topology_change_ack bpdu)) br_topology_change_acknowledged)
  else when (br_is_designated_port br pp) (br_reply p).

Definition br_received_tcn_bpdu (p : ptr) : M kst unit :=
  br ← br_get id;
  pp ← port_get p;
  when (br_is_designated_port br pp)
    (br_topology_change_detection;;
     br_topology_change_acknowledge p).
