(* ===== verification/BridgeTimer.v ===== *)
(** * net/bridge/br_stp_timer.c: the spanning tree timers

    A handler runs after the timer core has dequeued its timer; the bridge
    lock makes each handler atomic. *)
From S2P Require Import Prelude LibString BridgeData BridgeBpdu BridgeStp.

(** [TICK_NSEC] of the generic MIPS machine (a 500000 Hz clock tick rate). *)
Definition TICK_NSEC : Z := 1000000.
Definition NSEC_PER_SEC : Z := 1000000000.
Definition jiffies_to_clock_t (x : Z) : Z :=
  s32 ((s32 x mod 2 ^ 64 * TICK_NSEC) mod 2 ^ 64 / (NSEC_PER_SEC / USER_HZ)).
Definition clock_t_to_jiffies (x : Z) : Z :=
  if x >=? (2 ^ 32 - 1) / (HZ / USER_HZ) then 2 ^ 32 - 1 else x * (HZ / USER_HZ).

Fixpoint designated_for_some (br : net_bridge) (l : list ptr) : M kst bool :=
  match l with
  | [] => ret false
  | p :: l =>
      pp ← port_get p;
      if negb (p_state pp =? BR_STATE_DISABLED) &&
         (id_cmp (p_designated_bridge pp) (b_bridge_id br) =? 0)
      then ret true else designated_for_some br l
  end.
Definition br_is_designated_for_some_port : M kst bool :=
  br ← br_get id; designated_for_some br (b_port_list br).

Definition br_dev_up : M kst bool :=
  d ← br_get b_dev; dev ← dev_get d; ret (truth (Z.land (d_flags dev) IFF_UP)).

Definition br_hello_timer_expired : M kst unit :=
  up ← br_dev_up;
  when up
    (br_config_bpdu_generation;;
     now ← jiffies;
     br_set (fun br => br <| b_hello_timer :=
       mod_timer (u32 (now + b_hello_time br)) (b_hello_timer br) |>)).

(** The unlocked test of the state and the one under the lock read the same
    state here, so the first one decides. *)
Definition br_message_age_timer_expired (p : ptr) : M kst unit :=
  pp ← port_get p;
  if p_state pp =? BR_STATE_DISABLED then ret tt else
  br ← br_get id;
  let was_root := br_is_root_bridge br in
  br_become_designated_port p;;
  br_configuration_update;;
  br_port_state_selection;;
  br ← br_get id;
  when (br_is_root_bridge br && negb was_root) br_become_root_bridge.

Definition br_forward_delay_timer_expired (p : ptr) : M kst unit :=
  pp ← port_get p;
  if p_state pp =? BR_STATE_LISTENING then
    now ← jiffies;
    br ← br_get id;
    port_set p (fun pp => pp <| p_state := BR_STATE_LEARNING |>
      <| p_forward_delay_timer :=
           mod_timer (u32 (now + b_forward_delay br)) (p_forward_delay_timer pp) |>)
  else when (p_state pp =? BR_STATE_LEARNING)
    (port_set p (fun pp => pp <| p_state := BR_STATE_FORWARDING |>);;
     b ← br_is_designated_for_some_port;
     when b br_topology_change_detection).

Definition br_tcn_timer_expired : M kst unit :=
  up ← br_dev_up;
  when up
    (br_transmit_tcn;;
     now ← jiffies;
     br_set (fun br => br <| b_tcn_timer :=
       mod_timer (u32 (now + b_bridge_hello_time br)) (b_tcn_timer br) |>)).

Definition br_topology_change_timer_expired : M kst unit :=
  br_set (fun br => br <| b_topology_change_detected := 0 |> <| b_topology_change := 0 |>).

Definition br_hold_timer_expired (p : ptr) : M kst unit :=
  pp ← port_get p;
  when (truth (p_config_pending pp)) (br_transmit_config p).

(** [br_stp_timer_init] and [br_stp_port_timer_init] initialise the timers;
    which handler belongs to which timer is fixed by the events below. *)
Definition br_stp_timer_init (br : net_bridge) : net_bridge :=
  br <| b_hello_timer := init_timer |> <| b_tcn_timer := init_timer |>
     <| b_topology_change_timer := init_timer |> <| b_gc_timer := init_timer |>.

Definition br_stp_port_timer_init (p : net_bridge_port) : net_bridge_port :=
  p <| p_message_age_timer := init_timer |> <| p_forward_delay_timer := init_timer |>
    <| p_hold_timer := init_timer |>.

Definition br_timer_value (t : timer_list) : M kst Z :=
  now ← jiffies;
  ret (if timer_pending t then jiffies_to_clock_t (t_expires t - now) else 0).
