(* ===== verification/BridgeStpIf.v ===== *)
(** * net/bridge/br_stp_if.c: enabling, disabling and configuring the
    spanning tree protocol *)
From S2P Require Import Prelude LibString BridgeData BridgeBpdu BridgeStp BridgeTimer.

(** [(u16)priority << BR_PORT_BITS | port_no & (BR_MAX_PORTS-1)], as a u16. *)
Definition br_make_port_id (priority port_no : Z) : Z :=
  u16 (Z.lor (Z.shiftl (u16 priority) BR_PORT_BITS)
             (Z.land port_no (Z.shiftl 1 BR_PORT_BITS - 1))).

Definition br_init_port (p : ptr) : M kst unit :=
  port_set p (fun pp => pp <| p_port_id := br_make_port_id (p_priority pp) (p_port_no pp) |>);;
  br_become_designated_port p;;
  port_set p (fun pp => br_stp_port_timer_init
    (pp <| p_state := BR_STATE_BLOCKING |> <| p_topology_change_ack := 0 |>
        <| p_config_pending := 0 |>)).

Definition br_stp_enable_port (p : ptr) : M kst unit :=
  br_init_port p;; br_port_state_selection.

Definition br_stp_enable_bridge : M kst unit :=
  now ← jiffies;
  br_set (fun br => br <| b_hello_timer :=
    mod_timer (u32 (now + b_hello_time br)) (b_hello_timer br) |>);;
  br_config_bpdu_generation;;
  l ← br_get b_port_list;
  for_each l (fun p =>
    pp ← port_get p;
    dev ← dev_get (p_dev pp);
    when (truth (Z.land (d_flags dev) IFF_UP) && d_carrier dev) (br_stp_enable_port p)).

Definition br_stp_disable_port (p : ptr) : M kst unit :=
  br ← br_get id;
  let wasroot := br_is_root_bridge br in
  br_become_designated_port p;;
  port_set p (fun pp => pp <| p_state := BR_STATE_DISABLED |>
    <| p_topology_change_ack := 0 |> <| p_config_pending := 0 |>
    <| p_message_age_timer := del_timer (p_message_age_timer pp) |>
    <| p_forward_delay_timer := del_timer (p_forward_delay_timer pp) |>
    <| p_hold_timer := del_timer (p_hold_timer pp) |>);;
  br_configuration_update;;
  br_port_state_selection;;
  br ← br_get id;
  when (br_is_root_bridge br && negb wasroot) br_become_root_bridge.

Definition br_stp_disable_bridge : M kst unit :=
  l ← br_get b_port_list;
  for_each l (fun p =>
    pp ← port_get p;
    when (negb (p_state pp =? BR_STATE_DISABLED)) (br_stp_disable_port p));;
  br_set (fun br => br <| b_topology_change := 0 |> <| b_topology_change_detected := 0 |>
    <| b_hello_timer := del_timer (b_hello_timer br) |>
    <| b_topology_change_timer := del_timer (b_topology_change_timer br) |>
    <| b_tcn_timer := del_timer (b_tcn_timer br) |>).

(** Replacing the address part of an identifier when it is the old one. *)
Definition id_readdr (oldaddr newaddr : list Z) (i : bridge_id) : bridge_id :=
  if memcmp (addr i) oldaddr ETH_ALEN =? 0 then {| prio := prio i; addr := newaddr |} else i.

Definition br_stp_change_bridge_id (newaddr : list Z) : M kst unit :=
  br ← br_get id;
  let wasroot := br_is_root_bridge br in
  let oldaddr := addr (b_bridge_id br) in
  br_set (fun br => br <| b_bridge_id := {| prio := prio (b_bridge_id br); addr := newaddr |} |>);;
  dev_set (b_dev br) (fun d => d <| d_addr := newaddr |>);;
  for_each (b_port_list br) (fun p =>
    port_set p (fun pp => pp
      <| p_designated_bridge := id_readdr oldaddr newaddr (p_designated_bridge pp) |>
      <| p_designated_root := id_readdr oldaddr newaddr (p_designated_root pp) |>));;
  br_configuration_update;;
  br_port_state_selection;;
  br ← br_get id;
  when (br_is_root_bridge br && negb wasroot) br_become_root_bridge.

Definition br_mac_zero : list Z := replicate 6 0.

(** [addr] starts as the pointer [br_mac_zero], which no device address equals:
    [None] is that pointer. *)
Definition br_stp_recalculate_bridge_id : M kst unit :=
  l ← br_get b_port_list;
  best ← fold_each l None (fun (best : option (list Z)) p =>
    pp ← port_get p;
    dev ← dev_get (p_dev pp);
    ret (match best with
         | None => Some (d_addr dev)
         | Some a => if memcmp (d_addr dev) a ETH_ALEN <? 0 then Some (d_addr dev) else Some a
         end));
  let a := default br_mac_zero best in
  br ← br_get id;
  when (truth (memcmp (addr (b_bridge_id br)) a ETH_ALEN)) (br_stp_change_bridge_id a).

Definition prio_bytes (newprio : Z) : list Z :=
  [Z.land (Z.shiftr newprio 8) 255; Z.land newprio 255].

Definition br_stp_set_bridge_priority (newprio : Z) : M kst unit :=
  br ← br_get id;
  let wasroot := br_is_root_bridge br in
  for_each (b_port_list br) (fun p =>
    pp ← port_get p;
    when (negb (p_state pp =? BR_STATE_DISABLED) && br_is_designated_port br pp)
      (port_set p (fun pp => pp <| p_designated_bridge :=
         {| prio := prio_bytes newprio; addr := addr (p_designated_bridge pp) |} |>)));;
  br_set (fun br => br <| b_bridge_id :=
    {| prio := prio_bytes newprio; addr := addr (b_bridge_id br) |} |>);;
  br_configuration_update;;
  br_port_state_selection;;
  br ← br_get id;
  when (br_is_root_bridge br && negb wasroot) br_become_root_bridge.

Definition br_stp_set_port_priority (p : ptr) (newprio : Z) : M kst unit :=
  br ← br_get id;
  pp ← port_get p;
  let new_port_id := br_make_port_id newprio (p_port_no pp) in
  when (br_is_designated_port br pp)
    (port_set p (fun pp => pp <| p_designated_port := new_port_id |>));;
  port_set p (fun pp => pp <| p_port_id := new_port_id |> <| p_priority := newprio |>);;
  pp ← port_get p;
  when ((id_cmp (b_bridge_id br) (p_designated_bridge pp) =? 0) &&
        (p_port_id pp <? p_designated_port pp))
    (br_become_designated_port p;; br_port_state_selection).

Definition br_stp_set_path_cost (p : ptr) (path_cost : Z) : M kst unit :=
  port_set p (fun pp => pp <| p_path_cost := path_cost |>);;
  br_configuration_update;;
  br_port_state_selection.
