(* ===== verification/BridgeFdb.v ===== *)
(** * net/bridge/br_fdb.c: the forwarding database

    Entries are objects shared by a hash chain and, unless static, by the age
    list, which is kept in order of last use.  Both are linked through the
    entries: adding or removing a node writes to its neighbours, and a
    neighbour that is not an entry in memory is an oops.  [br_fdb_put] frees
    an entry at once; the code defers it to the end of the RCU grace period,
    so that the model finds at least the uses of freed entries that the code
    can have. *)
From S2P Require Import Prelude LibString BridgeData BridgeTimer.

Definition hold_time (br : net_bridge) : Z :=
  if truth (b_topology_change br) then b_forward_delay br else b_ageing_time br.

Definition has_expired (br : net_bridge) (now : Z) (fdb : net_bridge_fdb_entry) : bool :=
  negb (truth (f_is_static fdb)) &&
  time_before_eq (u32 (f_ageing_timer fdb + hold_time br)) now.

Definition br_mac_hash (mac : list Z) : Z :=
  let b := fun i => default 0 (mac !! i) in
  let x := b 0%nat in
  let x := Z.lxor (u32 (Z.shiftl x 2)) (b 1%nat) in
  let x := Z.lxor (u32 (Z.shiftl x 2)) (b 2%nat) in
  let x := Z.lxor (u32 (Z.shiftl x 2)) (b 3%nat) in
  let x := Z.lxor (u32 (Z.shiftl x 2)) (b 4%nat) in
  let x := Z.lxor (u32 (Z.shiftl x 2)) (b 5%nat) in
  let x := Z.lxor x (Z.shiftr x 8) in
  Z.land x (BR_HASH_SIZE - 1).

Definition is_valid_ether_addr (addr : list Z) : bool :=
  negb (truth (Z.land (default 0 (addr !! 0%nat)) 1)) &&
  truth (memcmp addr (replicate 6 0) 6).

Definition hash_chain (h : Z) (br : net_bridge) : list ptr :=
  default [] (b_hash br !! Z.to_nat h).

(** ** Linked lists of entries (include/linux/list.h) *)

(** A list without a node. *)
Definition unlink (e : ptr) (l : list ptr) : list ptr := filter (fun x => x <> e) l.

(** Writing to the links of a node. *)
Definition touch (e : ptr) : M kst unit := _ ← fdb_get e; ret tt.

(** The nodes before and after [e]; none for a node that is not on the list,
    whose links are poison. *)
Fixpoint neighbours (prev : option ptr) (e : ptr) (l : list ptr) : option (list ptr) :=
  match l with
  | [] => None
  | x :: l => if Nat.eqb x e then Some (option_list prev ++ option_list (head l))
              else neighbours (Some x) e l
  end.
Fixpoint chain_neighbours (e : ptr) (chains : list (list ptr)) : option (list ptr) :=
  match chains with
  | [] => None
  | c :: chains =>
      match neighbours None e c with Some ns => Some ns | None => chain_neighbours e chains end
  end.

Definition hlist_del_rcu (e : ptr) : M kst unit :=
  chains ← br_get b_hash;
  ns ← deref (chain_neighbours e chains);
  for_each ns touch;;
  br_set (fun br => br <| b_hash := unlink e <$> b_hash br |>).

Definition hlist_add_head_rcu (e : ptr) (h : Z) : M kst unit :=
  chain ← br_get (hash_chain h);
  for_each (option_list (head chain)) touch;;
  br_set (fun br => br <| b_hash := <[Z.to_nat h := e :: hash_chain h br]> (b_hash br) |>).

Definition age_list_del (e : ptr) : M kst unit :=
  l ← br_get b_age_list;
  ns ← deref (neighbours None e l);
  for_each ns touch;;
  br_set (fun br => br <| b_age_list := unlink e (b_age_list br) |>).

Definition age_list_add_tail (e : ptr) : M kst unit :=
  l ← br_get b_age_list;
  for_each (option_list (last l)) touch;;
  br_set (fun br => br <| b_age_list := b_age_list br ++ [e] |>).

Definition br_fdb_put (e : ptr) : M kst unit :=
  f ← fdb_get e;
  fdb_set e (fun f => f <| f_use_count := f_use_count f - 1 |>);;
  when (f_use_count f - 1 =? 0) (modify (fun s => s <| k_fdbs := delete e (k_fdbs s) |>)).

Definition fdb_delete (e : ptr) : M kst unit :=
  f ← fdb_get e;
  hlist_del_rcu e;;
  when (negb (truth (f_is_static f))) (age_list_del e);;
  br_fdb_put e.

(** The first entry of a chain for an address. *)
Fixpoint find_addr (addr : list Z) (chain : list ptr) : M kst (option ptr) :=
  match chain with
  | [] => ret None
  | e :: chain =>
      f ← fdb_get e;
      if memcmp (f_addr f) addr ETH_ALEN =? 0 then ret (Some e) else find_addr addr chain
  end.

(** The [update:] tail of [fdb_insert]. *)
Definition fdb_update (e source : ptr) (is_local : Z) : M kst unit :=
  now ← jiffies;
  fdb_set e (fun f => f <| f_dst := source |> <| f_is_local := is_local |>
    <| f_is_static := is_local |> <| f_ageing_timer := now |>);;
  when (negb (truth is_local)) (age_list_add_tail e).

(** The tail of [fdb_insert] for an address that is not in the table, once the
    entry is allocated. *)
Definition fdb_insert_new (source : ptr) (addr : list Z) (is_local : Z) : M kst Z :=
  let hash := br_mac_hash addr in
  e ← fresh;
  modify (fun s => s <| k_fdbs := <[e := {|
    f_dst := 0%nat; f_use_count := 1; f_ageing_timer := 0; f_addr := addr;
    f_is_local := 0; f_is_static := 0 |}]> (k_fdbs s) |>);;
  hlist_add_head_rcu e hash;;
  br ← br_get id;
  now ← jiffies;
  when (negb (timer_pending (b_gc_timer br)))
    (br_set (fun br => br <| b_gc_timer :=
       mod_timer (u32 (now + hold_time br)) (b_gc_timer br) |>));;
  fdb_update e source is_local;; ret 0.

Definition fdb_insert (source : ptr) (addr : list Z) (is_local : Z) : M kst Z :=
  let hash := br_mac_hash addr in
  if negb (is_valid_ether_addr addr) then ret (- EADDRNOTAVAIL) else
  chain ← br_get (hash_chain hash);
  found ← find_addr addr chain;
  match found with
  | Some e =>
      f ← fdb_get e;
      if truth (f_is_local f) then
        (if truth is_local then ret 0 else ret (- EEXIST))
      else if truth is_local then
        fdb_update e source is_local;; ret 0
      else if truth (f_is_static f) then ret 0 else
      age_list_del e;;
      fdb_update e source is_local;; ret 0
  | None =>
      ok ← alloc_ok;
      if negb ok then ret ENOMEM else
      fdb_insert_new source addr is_local
  end.

Definition br_fdb_insert (source : ptr) (addr : list Z) (is_local : Z) : M kst Z :=
  fdb_insert source addr is_local.

(** Another port whose device has that address. *)
Fixpoint find_other_port (p : ptr) (addr : list Z) (l : list ptr) : M kst (option ptr) :=
  match l with
  | [] => ret None
  | op :: l =>
      if Nat.eqb op p then find_other_port p addr l else
      opp ← port_get op;
      dev ← dev_get (p_dev opp);
      if memcmp (d_addr dev) addr ETH_ALEN =? 0 then ret (Some op)
      else find_other_port p addr l
  end.

(** The first local entry of a port, in hash order. *)
Fixpoint find_local (p : ptr) (l : list ptr) : M kst (option ptr) :=
  match l with
  | [] => ret None
  | e :: l =>
      f ← fdb_get e;
      if Nat.eqb (f_dst f) p && truth (f_is_local f) then ret (Some e) else find_local p l
  end.

Definition br_fdb_changeaddr (p : ptr) (newaddr : list Z) : M kst unit :=
  br ← br_get id;
  found ← find_local p (concat (b_hash br));
  (match found with
   | Some e =>
       f ← fdb_get e;
       op ← find_other_port p (f_addr f) (b_port_list br);
       match op with
       | Some op => fdb_set e (fun f => f <| f_dst := op |>)
       | None => fdb_delete e
       end
   | None => ret tt
   end);;
  fdb_insert p newaddr 1;; ret tt.

(** The loop of [br_fdb_cleanup] over the age list: delete what has expired,
    stop at the first entry that has not and rearm the timer for it. *)
Fixpoint fdb_cleanup_loop (delay : Z) (l : list ptr) : M kst unit :=
  match l with
  | [] => ret tt
  | e :: l =>
      f ← fdb_get e;
      now ← jiffies;
      let expires := u32 (f_ageing_timer f + delay) in
      if time_before_eq expires now then
        fdb_delete e;; fdb_cleanup_loop delay l
      else
        br_set (fun br => br <| b_gc_timer := mod_timer expires (b_gc_timer br) |>)
  end.
Definition br_fdb_cleanup : M kst unit :=
  br ← br_get id; fdb_cleanup_loop (hold_time br) (b_age_list br).

Definition br_fdb_delete_by_port (p : ptr) : M kst unit :=
  br ← br_get id;
  for_each (b_hash br) (fun chain => for_each chain (fun e =>
    f ← fdb_get e;
    when (Nat.eqb (f_dst f) p)
      (op ← (if truth (f_is_local f) then find_other_port p (f_addr f) (b_port_list br)
             else ret None);
       match op with
       | Some op => fdb_set e (fun f => f <| f_dst := op |>)
       | None => fdb_delete e
       end))).

Definition __br_fdb_get (addr : list Z) : M kst (option ptr) :=
  br ← br_get id;
  now ← jiffies;
  found ← find_addr addr (hash_chain (br_mac_hash addr) br);
  match found with
  | Some e => f ← fdb_get e; if has_expired br now f then ret None else ret (Some e)
  | None => ret None
  end.

Definition br_fdb_get (addr : list Z) : M kst (option ptr) :=
  fdb ← __br_fdb_get addr;
  match fdb with
  | Some e => fdb_set e (fun f => f <| f_use_count := f_use_count f + 1 |>);; ret (Some e)
  | None => ret None
  end.

(** [struct __fdb_entry], the record format of the user interface. *)
Record fdb_record := {
  fe_mac_addr : list Z; fe_port_no : Z; fe_is_local : Z; fe_ageing_timer_value : Z }.

Fixpoint fdb_fill_loop (br : net_bridge) (now maxnum : Z) (l : list ptr) (num skip : Z)
    (acc : list fdb_record) : M kst (list fdb_record) :=
  match l with
  | [] => ret acc
  | e :: l =>
      f ← fdb_get e;
      if num >=? maxnum then ret acc else
      if has_expired br now f then fdb_fill_loop br now maxnum l num skip acc else
      if truth skip then fdb_fill_loop br now maxnum l num (skip - 1) acc else
      port ← port_get (f_dst f);
      fdb_fill_loop br now maxnum l (num + 1) skip
        (acc ++ [{| fe_mac_addr := f_addr f;
                    fe_port_no := u8 (p_port_no port);
                    fe_is_local := f_is_local f;
                    fe_ageing_timer_value :=
                      if truth (f_is_static f) then 0
                      else u32 (jiffies_to_clock_t (now - f_ageing_timer f)) |}])
  end.
Definition br_fdb_fillbuf (maxnum skip : Z) : M kst (list fdb_record) :=
  br ← br_get id;
  now ← jiffies;
  fdb_fill_loop br now maxnum (concat (b_hash br)) 0 skip [].
