(* ===== verification/BridgeForward.v ===== *)
(** * net/bridge/br_forward.c, br_input.c, br_device.c: the data path

    Netfilter hooks are taken as unregistered, so that [NF_HOOK] calls its
    continuation. *)
From S2P Require Import Prelude LibString BridgeData BridgeBpdu BridgeStp BridgeTimer.
From S2P Require Import BridgeStpIf BridgeFdb.

Definition PACKET_HOST : Z := 0.
Definition CHECKSUM_NONE : Z := 0.

(** [skb_mac] is the Ethernet header, [skb_data] what [skb->data] points to. *)
Record sk_buff := {
  skb_dev : ptr;
  skb_mac : list Z;
  skb_data : list Z;
  skb_pkt_type : Z;
  skb_ip_summed : Z }.
#[export] Instance eta_skb : Eta sk_buff := fun r =>
  Build_sk_buff (skb_dev r) (skb_mac r) (skb_data r) (skb_pkt_type r) (skb_ip_summed r).

Definition h_dest (skb : sk_buff) : list Z := take 6 (skb_mac skb).
Definition h_source (skb : sk_buff) : list Z := take 6 (drop 6 (skb_mac skb)).

Definition should_deliver (p : net_bridge_port) (skb : sk_buff) : bool :=
  if Nat.eqb (skb_dev skb) (p_dev p) || negb (p_state p =? BR_STATE_FORWARDING)
  then false else true.

Definition br_dev_queue_push_xmit (skb : sk_buff) : M kst unit :=
  dev ← dev_get (skb_dev skb);
  if Z.of_nat (length (skb_data skb)) >? d_mtu dev then ret tt
  else modify (fun s => s <| k_xmit := k_xmit s ++ [(skb_dev skb, skb_mac skb ++ skb_data skb)] |>).

Definition br_forward_finish (skb : sk_buff) : M kst unit := br_dev_queue_push_xmit skb.

Definition __br_deliver (to : ptr) (skb : sk_buff) : M kst unit :=
  pp ← port_get to;
  br_forward_finish (skb <| skb_dev := p_dev pp |>).

Definition __br_forward (to : ptr) (skb : sk_buff) : M kst unit :=
  pp ← port_get to;
  br_forward_finish (skb <| skb_dev := p_dev pp |> <| skb_ip_summed := CHECKSUM_NONE |>).

Definition br_deliver (to : ptr) (skb : sk_buff) : M kst unit :=
  pp ← port_get to;
  when (should_deliver pp skb) (__br_deliver to skb).

Definition br_forward (to : ptr) (skb : sk_buff) : M kst unit :=
  pp ← port_get to;
  when (should_deliver pp skb) (__br_forward to skb).

Definition br_count_dropped : M kst unit :=
  br_set (fun br => br <| b_tx_dropped := u32 (b_tx_dropped br + 1) |>).

(** The port loop of [br_flood]: a port is served when the next one that wants
    the frame is found, so that the last one gets the original. *)
Fixpoint flood_loop (skb : sk_buff) (hook : ptr -> sk_buff -> M kst unit) (prev : option ptr)
    (l : list ptr) : M kst unit :=
  match l with
  | [] => match prev with Some q => hook q skb | None => ret tt end
  | p :: l =>
      pp ← port_get p;
      if should_deliver pp skb then
        match prev with
        | Some q =>
            ok ← alloc_ok;
            if ok then hook q skb;; flood_loop skb hook (Some p) l
            else br_count_dropped
        | None => flood_loop skb hook (Some p) l
        end
      else flood_loop skb hook prev l
  end.

Definition br_flood (skb : sk_buff) (clone : bool) (hook : ptr -> sk_buff -> M kst unit) : M kst unit :=
  ok ← (if clone then alloc_ok else ret true);
  if negb ok then br_count_dropped else
  l ← br_get b_port_list;
  flood_loop skb hook None l.

Definition br_flood_deliver (skb : sk_buff) (clone : bool) : M kst unit :=
  br_flood skb clone __br_deliver.
Definition br_flood_forward (skb : sk_buff) (clone : bool) : M kst unit :=
  br_flood skb clone __br_forward.

(** ** br_input.c *)
Definition br_pass_frame_up (skb : sk_buff) : M kst unit :=
  br_set (fun br => br <| b_rx_packets := u32 (b_rx_packets br + 1) |>
    <| b_rx_bytes := u32 (b_rx_bytes br + Z.of_nat (length (skb_data skb))) |>);;
  d ← br_get b_dev;
  modify (fun s => s <| k_up := k_up s ++ [(d, skb_mac skb ++ skb_data skb)] |>).

Definition br_handle_frame_finish (skb : sk_buff) : M kst unit :=
  let dest := h_dest skb in
  indev ← dev_get (skb_dev skb);
  p ← deref (d_br_port indev);
  d ← br_get b_dev;
  brdev ← dev_get d;
  passedup ←
    (if truth (Z.land (d_flags brdev) IFF_PROMISC) then
       ok ← alloc_ok;
       if ok then br_pass_frame_up skb;; ret true else ret false
     else ret false);
  if truth (Z.land (default 0 (dest !! 0%nat)) 1) then
    br_flood_forward skb (negb passedup);;
    when (negb passedup) (br_pass_frame_up skb)
  else
  dst ← __br_fdb_get dest;
  match dst with
  | Some e =>
      f ← fdb_get e;
      if truth (f_is_local f) then when (negb passedup) (br_pass_frame_up skb)
      else br_forward (f_dst f) skb
  | None => br_flood_forward skb false
  end.

(** br_stp_bpdu.c: a received BPDU. *)
Definition br_stp_handle_bpdu (skb : sk_buff) : M kst unit :=
  indev ← dev_get (skb_dev skb);
  p ← deref (d_br_port indev);
  pp ← port_get p;
  if (Z.of_nat (length (skb_data skb)) <? 7) || truth (memcmp (skb_data skb) header 6)
  then ret tt else
  let buf := drop 6 (skb_data skb) in
  br ← br_get id;
  up ← br_dev_up;
  if (p_state pp =? BR_STATE_DISABLED) || negb up || negb (truth (b_stp_enabled br))
  then ret tt else
  if byte_at buf 0 =? BPDU_TYPE_CONFIG then
    (if Z.of_nat (length buf) <? 32 then ret tt
     else br_received_config_bpdu p (parse_config_bpdu buf))
  else when (byte_at buf 0 =? BPDU_TYPE_TCN) (br_received_tcn_bpdu p).

(** [br_handle_frame]: the result is 1 when the frame was consumed.  The
    [br_should_route_hook] function pointer is an argument: [None] when unset,
    else a function that says whether the frame is to be routed and gives the
    frame back. *)
Definition br_handle_frame (br_should_route_hook : option (sk_buff -> bool * sk_buff))
    (p : ptr) (skb : sk_buff) : M kst Z :=
  let dest := h_dest skb in
  pp ← port_get p;
  if p_state pp =? BR_STATE_DISABLED then ret 1 else
  if truth (Z.land (default 0 (h_source skb !! 0%nat)) 1) then ret 1 else
  when ((p_state pp =? BR_STATE_LEARNING) || (p_state pp =? BR_STATE_FORWARDING))
    (br_fdb_insert p (h_source skb) 0;; ret tt);;
  br ← br_get id;
  if truth (b_stp_enabled br) && (memcmp dest bridge_ula 5 =? 0) &&
     negb (truth (Z.land (default 0 (dest !! 5%nat)) 240))
  then
    (if negb (truth (default 0 (dest !! 5%nat))) then br_stp_handle_bpdu skb;; ret 1 else ret 1)
  else if p_state pp =? BR_STATE_FORWARDING then
    let '(route, skb) :=
      match br_should_route_hook with Some f => f skb | None => (false, skb) end in
    if route then ret 0 else
    brdev ← dev_get (b_dev br);
    let skb := if memcmp (d_addr brdev) (h_dest skb) ETH_ALEN =? 0
               then skb <| skb_pkt_type := PACKET_HOST |> else skb in
    br_handle_frame_finish skb;; ret 1
  else ret 1.

(** ** br_device.c *)
Definition br_dev_xmit (frame : list Z) : M kst unit :=
  d ← br_get b_dev;
  br_set (fun br => br <| b_tx_packets := u32 (b_tx_packets br + 1) |>
    <| b_tx_bytes := u32 (b_tx_bytes br + Z.of_nat (length frame)) |>);;
  let skb := {| skb_dev := d; skb_mac := take 14 frame; skb_data := drop 14 frame;
                skb_pkt_type := PACKET_HOST; skb_ip_summed := CHECKSUM_NONE |} in
  let dest := take 6 frame in
  if truth (Z.land (default 0 (dest !! 0%nat)) 1) then br_flood_deliver skb false else
  dst ← __br_fdb_get dest;
  match dst with
  | Some e => f ← fdb_get e; br_deliver (f_dst f) skb
  | None => br_flood_deliver skb false
  end.

Definition br_dev_open : M kst unit := br_stp_enable_bridge.
Definition br_dev_stop : M kst unit := br_stp_disable_bridge.
