(* ===== verification/BridgeIf.v ===== *)
(** * net/bridge/br_if.c and br_notify.c: ports joining and leaving a bridge *)
From S2P Require Import Prelude LibString BridgeData BridgeBpdu BridgeStp BridgeTimer.
From S2P Require Import BridgeStpIf BridgeFdb BridgeForward.

(** lib/string.c: [strncmp] on the byte lists of two strings (a missing byte
    is the terminating NUL); bytes are compared as [signed char]. *)
Definition schar (x : Z) : Z := let y := u8 x in if y <? 128 then y else y - 256.
Fixpoint strncmp (cs ct : list Z) (count : nat) : Z :=
  match count with
  | O => 0
  | S count =>
      let c := default 0 (head cs) in
      let d := default 0 (head ct) in
      let res := schar (c - d) in
      if truth res || negb (truth c) then res else strncmp (tail cs) (tail ct) count
  end.

Definition str_lec : list Z := [108; 101; 99].
Definition str_plip : list Z := [112; 108; 105; 112].

Definition br_initial_port_cost (dev : net_device) : Z :=
  match d_speed dev with
  | Some speed =>
      if speed =? 100 then 19
      else if speed =? 1000 then 4
      else if speed =? 10000 then 2
      else if speed =? 10 then 100
      else 100
  | None =>
      if strncmp (d_name dev) str_lec 3 =? 0 then 7
      else if strncmp (d_name dev) str_plip 4 =? 0 then 2500
      else 100
  end.

(** net/core/dev.c *)
Definition dev_set_promiscuity (d : ptr) (inc : Z) : M kst unit :=
  dev_set d (fun dev =>
    let flags := Z.lor (d_flags dev) IFF_PROMISC in
    let promiscuity := s32 (d_promiscuity dev + inc) in
    dev <| d_promiscuity := promiscuity |>
        <| d_flags := if promiscuity =? 0 then Z.ldiff flags IFF_PROMISC else flags |>).

Definition destroy_nbp (p : ptr) : M kst unit :=
  pp ← port_get p;
  dev_set (p_dev pp) (fun dev => dev <| d_br_port := None |>);;
  modify (fun s => s <| k_ports := delete p (k_ports s) |>).

(** [list_del_rcu] of a port whose list node was never linked follows the
    NULL links left by [memset]. *)
Definition port_list_del (p : ptr) : M kst unit :=
  l ← br_get b_port_list;
  if bool_decide (p ∈ l) then br_set (fun br => br <| b_port_list := unlink p l |>) else oops.

(** The RCU callback that frees the port runs when the operation is over. *)
Definition del_nbp (p : ptr) : M kst unit :=
  pp ← port_get p;
  dev_set_promiscuity (p_dev pp) (-1);;
  br_stp_disable_port p;;
  br_fdb_delete_by_port p;;
  port_list_del p;;
  port_set p (fun pp => pp
    <| p_message_age_timer := del_timer (p_message_age_timer pp) |>
    <| p_forward_delay_timer := del_timer (p_forward_delay_timer pp) |>
    <| p_hold_timer := del_timer (p_hold_timer pp) |>);;
  destroy_nbp p.

Definition del_br : M kst unit :=
  l ← br_get b_port_list;
  for_each l del_nbp;;
  br_set (fun br => br <| b_gc_timer := del_timer (b_gc_timer br) |>).

(** The bridge [new_bridge_dev] sets up on its device [dev]. *)
Definition new_bridge_dev (dev : ptr) : net_bridge :=
  let bid := {| prio := [128; 0]; addr := replicate 6 0 |} in
  br_stp_timer_init {|
    b_port_list := []; b_dev := dev;
    b_tx_packets := 0; b_tx_bytes := 0; b_tx_dropped := 0; b_rx_packets := 0; b_rx_bytes := 0;
    b_hash := replicate (Z.to_nat BR_HASH_SIZE) [];
    b_age_list := [];
    b_designated_root := bid;
    b_bridge_id := bid;
    b_root_path_cost := 0;
    b_max_age := 20 * HZ;
    b_hello_time := 2 * HZ;
    b_forward_delay := 15 * HZ;
    b_bridge_max_age := 20 * HZ;
    b_ageing_time := 300 * HZ;
    b_bridge_hello_time := 2 * HZ;
    b_bridge_forward_delay := 15 * HZ;
    b_root_port := 0;
    b_stp_enabled := 0;
    b_topology_change := 0;
    b_topology_change_detected := 0;
    b_hello_timer := init_timer;
    b_tcn_timer := init_timer;
    b_topology_change_timer := init_timer;
    b_gc_timer := init_timer |}.

(** The first clear bit below [size] at or after [i]; [size] when all are set. *)
Fixpoint first_zero_from (map : Z) (i : Z) (n : nat) : Z :=
  match n with
  | O => i
  | S n => if Z.testbit map i then first_zero_from map (i + 1) n else i
  end.
Definition find_first_zero_bit (map size : Z) : Z := first_zero_from map 0 (Z.to_nat size).

Definition find_portno : M kst Z :=
  ok ← alloc_ok;
  if negb ok then ret (- ENOMEM) else
  l ← br_get b_port_list;
  inuse ← fold_each l (Z.setbit 0 0) (fun inuse p =>
    pp ← port_get p; ret (Z.setbit inuse (p_port_no pp)));
  let index := find_first_zero_bit inuse BR_MAX_PORTS in
  ret (if index >=? BR_MAX_PORTS then - EXFULL else index).

(** A new port of device [d], or an error number. *)
Definition new_nbp (d : ptr) (cost : Z) : M kst (Z + ptr) :=
  index ← find_portno;
  if index <? 0 then ret (inl index) else
  ok ← alloc_ok;
  if negb ok then ret (inl (- ENOMEM)) else
  p ← fresh;
  let zero_id := {| prio := [0; 0]; addr := replicate 6 0 |} in
  modify (fun s => s <| k_ports := <[p := {|
    p_dev := d; p_priority := Z.shiftr 32768 BR_PORT_BITS; p_state := 0;
    p_port_no := u16 index; p_topology_change_ack := 0; p_config_pending := 0;
    p_port_id := 0; p_designated_port := 0;
    p_designated_root := zero_id; p_designated_bridge := zero_id;
    p_path_cost := u32 cost; p_designated_cost := 0;
    p_forward_delay_timer := init_timer; p_hold_timer := init_timer;
    p_message_age_timer := init_timer |}]> (k_ports s) |>);;
  dev_set d (fun dev => dev <| d_br_port := Some p |>);;
  br_init_port p;;
  port_set p (fun pp => pp <| p_state := BR_STATE_DISABLED |>);;
  ret (inr p).

Definition br_min_mtu : M kst Z :=
  l ← br_get b_port_list;
  match l with
  | [] => ret 1500
  | _ => fold_each l 0 (fun mtu p =>
      pp ← port_get p;
      dev ← dev_get (p_dev pp);
      ret (if (mtu =? 0) || (d_mtu dev <? mtu) then d_mtu dev else mtu))
  end.

(** br_device.c *)
Definition br_change_mtu (new_mtu : Z) : M kst Z :=
  if new_mtu <? 68 then ret (- EINVAL) else
  m ← br_min_mtu;
  if new_mtu >? m then ret (- EINVAL) else
  d ← br_get b_dev;
  dev_set d (fun dev => dev <| d_mtu := new_mtu |>);; ret 0.

(** net/core/dev.c, on the bridge's device (which is present); no bridge port
    is listening on the notifier chain for it. *)
Definition dev_set_mtu (new_mtu : Z) : M kst Z :=
  d ← br_get b_dev;
  dev ← dev_get d;
  if new_mtu =? d_mtu dev then ret 0 else
  if new_mtu <? 0 then ret (- EINVAL) else
  br_change_mtu new_mtu.

(** [sysfs_err] is what [br_sysfs_addif] returns. *)
Definition br_add_if (sysfs_err : Z) (d : ptr) : M kst Z :=
  dev ← dev_get d;
  if truth (Z.land (d_flags dev) IFF_LOOPBACK) || negb (d_type dev =? ARPHRD_ETHER)
  then ret (- EINVAL) else
  if d_is_bridge dev then ret (- ELOOP) else
  match d_br_port dev with
  | Some _ => ret (- EBUSY)
  | None =>
      r ← new_nbp d (br_initial_port_cost dev);
      match r with
      | inl err => ret err
      | inr p =>
          err ← br_fdb_insert p (d_addr dev) 1;
          if truth err then destroy_nbp p;; ret err
          else if truth sysfs_err then del_nbp p;; ret sysfs_err
          else
            dev_set_promiscuity d 1;;
            br_set (fun br => br <| b_port_list := p :: b_port_list br |>);;
            br_stp_recalculate_bridge_id;;
            up ← br_dev_up;
            dev ← dev_get d;
            when (up && truth (Z.land (d_flags dev) IFF_UP) && d_carrier dev)
              (br_stp_enable_port p);;
            mtu ← br_min_mtu;
            dev_set_mtu mtu;;
            ret 0
      end
  end.

Definition br_del_if (d : ptr) : M kst Z :=
  dev ← dev_get d;
  l ← br_get b_port_list;
  match d_br_port dev with
  | Some p =>
      if bool_decide (p ∈ l) then
        del_nbp p;; br_stp_recalculate_bridge_id;; ret 0
      else ret (- EINVAL)
  | None => ret (- EINVAL)
  end.

(** br_notify.c *)
Inductive netdev_event :=
  | NETDEV_CHANGEMTU | NETDEV_CHANGEADDR | NETDEV_CHANGE | NETDEV_DOWN | NETDEV_UP
  | NETDEV_UNREGISTER.

Definition br_device_event (event : netdev_event) (d : ptr) : M kst unit :=
  dev ← dev_get d;
  match d_br_port dev with
  | None => ret tt
  | Some p =>
      up ← br_dev_up;
      pp ← port_get p;
      match event with
      | NETDEV_CHANGEMTU => mtu ← br_min_mtu; dev_set_mtu mtu;; ret tt
      | NETDEV_CHANGEADDR => br_fdb_changeaddr p (d_addr dev);; br_stp_recalculate_bridge_id
      | NETDEV_CHANGE =>
          when up
            (if d_carrier dev then
               when (p_state pp =? BR_STATE_DISABLED) (br_stp_enable_port p)
             else when (negb (p_state pp =? BR_STATE_DISABLED)) (br_stp_disable_port p))
      | NETDEV_DOWN => when up (br_stp_disable_port p)
      | NETDEV_UP => when (d_carrier dev && up) (br_stp_enable_port p)
      | NETDEV_UNREGISTER => br_del_if d;; ret tt
      end
  end.
