(* ===== verification/BridgeIoctl.v ===== *)
(** * net/bridge/br_ioctl.c: the administrative interface of a bridge

    What the caller's process contributes is in [uenv]: whether it has
    CAP_NET_ADMIN, the arguments [copy_from_user] fetches (none when it
    faults), and whether [copy_to_user] succeeds. *)
From S2P Require Import Prelude LibString BridgeData BridgeBpdu BridgeStp BridgeTimer.
From S2P Require Import BridgeStpIf BridgeFdb BridgeForward BridgeIf.

Definition BRCTL_ADD_IF : Z := 4.
Definition BRCTL_DEL_IF : Z := 5.
Definition BRCTL_GET_BRIDGE_INFO : Z := 6.
Definition BRCTL_GET_PORT_LIST : Z := 7.
Definition BRCTL_SET_BRIDGE_FORWARD_DELAY : Z := 8.
Definition BRCTL_SET_BRIDGE_HELLO_TIME : Z := 9.
Definition BRCTL_SET_BRIDGE_MAX_AGE : Z := 10.
Definition BRCTL_SET_AGEING_TIME : Z := 11.
Definition BRCTL_GET_PORT_INFO : Z := 13.
Definition BRCTL_SET_BRIDGE_STP_STATE : Z := 14.
Definition BRCTL_SET_BRIDGE_PRIORITY : Z := 15.
Definition BRCTL_SET_PORT_PRIORITY : Z := 16.
Definition BRCTL_SET_PATH_COST : Z := 17.
Definition BRCTL_GET_FDB_ENTRIES : Z := 18.

Definition sizeof_fdb_entry : Z := 16.

Record __bridge_info := {
  bi_designated_root : bridge_id; bi_bridge_id : bridge_id; bi_root_path_cost : Z;
  bi_max_age : Z; bi_hello_time : Z; bi_forward_delay : Z; bi_bridge_max_age : Z;
  bi_bridge_hello_time : Z; bi_bridge_forward_delay : Z; bi_topology_change : Z;
  bi_topology_change_detected : Z; bi_root_port : Z; bi_stp_enabled : Z; bi_ageing_time : Z;
  bi_hello_timer_value : Z; bi_tcn_timer_value : Z; bi_topology_change_timer_value : Z;
  bi_gc_timer_value : Z }.

Record __port_info := {
  pi_designated_root : bridge_id; pi_designated_bridge : bridge_id; pi_port_id : Z;
  pi_designated_port : Z; pi_path_cost : Z; pi_designated_cost : Z; pi_state : Z;
  pi_top_change_ack : Z; pi_config_pending : Z; pi_message_age_timer_value : Z;
  pi_forward_delay_timer_value : Z; pi_hold_timer_value : Z }.

Record uenv := { u_args : option (list Z); u_admin : bool; u_copy : bool }.

(** What is copied to the caller's memory. *)
Inductive uout :=
  | Nothing
  | BridgeInfo (b : __bridge_info)
  | PortList (ifindices : list Z)
  | PortInfo (p : __port_info)
  | FdbEntries (l : list fdb_record).

(** The caller's array, zeroed and indexed by port number. *)
Definition get_port_ifindices (num : Z) : M kst (list Z) :=
  l ← br_get b_port_list;
  fold_each l (replicate (Z.to_nat num) 0) (fun ifindices p =>
    pp ← port_get p;
    if p_port_no pp <? num then
      dev ← dev_get (p_dev pp);
      ret (<[Z.to_nat (p_port_no pp) := d_ifindex dev]> ifindices)
    else ret ifindices).

(** [size] is a [size_t]: the product wraps.  Records beyond the buffer of
    [size] bytes would be written past its end. *)
Definition get_fdb_entries (u : uenv) (maxnum offset : Z) : M kst (Z * uout) :=
  let size := u32 (maxnum * sizeof_fdb_entry) in
  let '(size, maxnum) :=
    if size >? PAGE_SIZE then (PAGE_SIZE, PAGE_SIZE / sizeof_fdb_entry) else (size, maxnum) in
  ok ← alloc_ok;
  if negb ok then ret (- ENOMEM, Nothing) else
  buf ← br_fdb_fillbuf maxnum offset;
  let num := Z.of_nat (length buf) in
  if num * sizeof_fdb_entry >? size then oops else
  if (num >? 0) && negb (u_copy u) then ret (- EFAULT, Nothing)
  else ret (num, FdbEntries buf).

(** net/core/dev.c: interface indices are unique, so the order of the search
    does not matter. *)
Definition dev_get_by_index (ifindex : Z) : M kst (option ptr) :=
  gets (fun s => head (fst <$> filter (fun kv => d_ifindex kv.2 = ifindex) (map_to_list (k_devs s)))).

Definition add_del_if (sysfs_err : Z) (u : uenv) (ifindex : Z) (isadd : bool) : M kst Z :=
  if negb (u_admin u) then ret (- EPERM) else
  dev ← dev_get_by_index ifindex;
  match dev with
  | None => ret (- EINVAL)
  | Some d => if isadd then br_add_if sysfs_err d else br_del_if d
  end.

Definition get_bridge_info : M kst __bridge_info :=
  br ← br_get id;
  hello ← br_timer_value (b_hello_timer br);
  tcn ← br_timer_value (b_tcn_timer br);
  tc ← br_timer_value (b_topology_change_timer br);
  gc ← br_timer_value (b_gc_timer br);
  ret {| bi_designated_root := b_designated_root br; bi_bridge_id := b_bridge_id br;
         bi_root_path_cost := b_root_path_cost br;
         bi_max_age := u32 (jiffies_to_clock_t (b_max_age br));
         bi_hello_time := u32 (jiffies_to_clock_t (b_hello_time br));
         bi_forward_delay := b_forward_delay br;
         bi_bridge_max_age := b_bridge_max_age br;
         bi_bridge_hello_time := b_bridge_hello_time br;
         bi_bridge_forward_delay := u32 (jiffies_to_clock_t (b_bridge_forward_delay br));
         bi_topology_change := b_topology_change br;
         bi_topology_change_detected := b_topology_change_detected br;
         bi_root_port := u8 (b_root_port br);
         bi_stp_enabled := b_stp_enabled br;
         bi_ageing_time := u32 (jiffies_to_clock_t (b_ageing_time br));
         bi_hello_timer_value := u32 hello; bi_tcn_timer_value := u32 tcn;
         bi_topology_change_timer_value := u32 tc; bi_gc_timer_value := u32 gc |}.

Definition get_port_info (p : ptr) : M kst __port_info :=
  pt ← port_get p;
  age ← br_timer_value (p_message_age_timer pt);
  fd ← br_timer_value (p_forward_delay_timer pt);
  hold ← br_timer_value (p_hold_timer pt);
  ret {| pi_designated_root := p_designated_root pt;
         pi_designated_bridge := p_designated_bridge pt;
         pi_port_id := p_port_id pt; pi_designated_port := p_designated_port pt;
         pi_path_cost := p_path_cost pt; pi_designated_cost := p_designated_cost pt;
         pi_state := p_state pt; pi_top_change_ack := p_topology_change_ack pt;
         pi_config_pending := p_config_pending pt; pi_message_age_timer_value := u32 age;
         pi_forward_delay_timer_value := u32 fd; pi_hold_timer_value := u32 hold |}.

(** The result, when the copy to the caller succeeds. *)
Definition copy_to_user (u : uenv) (r : Z) (o : uout) : Z * uout :=
  if u_copy u then (r, o) else (- EFAULT, Nothing).

(** A setting that only the administrator may change. *)
Definition admin_set (u : uenv) (m : M kst Z) : M kst (Z * uout) :=
  if negb (u_admin u) then ret (- EPERM, Nothing) else r ← m; ret (r, Nothing).

Definition old_dev_ioctl (sysfs_err : Z) (u : uenv) : M kst (Z * uout) :=
  match u_args u with
  | Some [a0; a1; a2; a3] =>
      if (a0 =? BRCTL_ADD_IF) || (a0 =? BRCTL_DEL_IF) then
        r ← add_del_if sysfs_err u (s32 a1) (a0 =? BRCTL_ADD_IF); ret (r, Nothing)
      else if a0 =? BRCTL_GET_BRIDGE_INFO then
        b ← get_bridge_info; ret (copy_to_user u 0 (BridgeInfo b))
      else if a0 =? BRCTL_GET_PORT_LIST then
        (let num := s32 a2 in
         if num <? 0 then ret (- EINVAL, Nothing) else
         let num := if num =? 0 then 256 else num in
         let num := if num >? BR_MAX_PORTS then BR_MAX_PORTS else num in
         ok ← alloc_ok;
         if negb ok then ret (- ENOMEM, Nothing) else
         indices ← get_port_ifindices num;
         ret (copy_to_user u num (PortList indices)))
      else if a0 =? BRCTL_SET_BRIDGE_FORWARD_DELAY then
        admin_set u
          (br_set (fun br => br <| b_bridge_forward_delay := clock_t_to_jiffies a1 |>);;
           br ← br_get id;
           when (br_is_root_bridge br)
             (br_set (fun br => br <| b_forward_delay := b_bridge_forward_delay br |>));;
           ret 0)
      else if a0 =? BRCTL_SET_BRIDGE_HELLO_TIME then
        admin_set u
          (br_set (fun br => br <| b_bridge_hello_time := clock_t_to_jiffies a1 |>);;
           br ← br_get id;
           when (br_is_root_bridge br)
             (br_set (fun br => br <| b_hello_time := b_bridge_hello_time br |>));;
           ret 0)
      else if a0 =? BRCTL_SET_BRIDGE_MAX_AGE then
        admin_set u
          (br_set (fun br => br <| b_bridge_max_age := clock_t_to_jiffies a1 |>);;
           br ← br_get id;
           when (br_is_root_bridge br)
             (br_set (fun br => br <| b_max_age := b_bridge_max_age br |>));;
           ret 0)
      else if a0 =? BRCTL_SET_AGEING_TIME then
        admin_set u (br_set (fun br => br <| b_ageing_time := clock_t_to_jiffies a1 |>);; ret 0)
      else if a0 =? BRCTL_GET_PORT_INFO then
        pt ← br_get_port (u16 a2);
        match pt with
        | None => ret (- EINVAL, Nothing)
        | Some p => i ← get_port_info p; ret (copy_to_user u 0 (PortInfo i))
        end
      else if a0 =? BRCTL_SET_BRIDGE_STP_STATE then
        admin_set u
          (br_set (fun br => br <| b_stp_enabled := if truth a1 then 1 else 0 |>);; ret 0)
      else if a0 =? BRCTL_SET_BRIDGE_PRIORITY then
        admin_set u (br_stp_set_bridge_priority (u16 a1);; ret 0)
      else if a0 =? BRCTL_SET_PORT_PRIORITY then
        admin_set u
          (if a2 >=? Z.shiftl 1 (16 - BR_PORT_BITS) then ret (- ERANGE) else
           p ← br_get_port (u16 a1);
           match p with
           | None => ret (- EINVAL)
           | Some p => br_stp_set_port_priority p (u8 a2);; ret 0
           end)
      else if a0 =? BRCTL_SET_PATH_COST then
        admin_set u
          (p ← br_get_port (u16 a1);
           match p with
           | None => ret (- EINVAL)
           | Some p => br_stp_set_path_cost p a2;; ret 0
           end)
      else if a0 =? BRCTL_GET_FDB_ENTRIES then get_fdb_entries u a2 a3
      else ret (- EOPNOTSUPP, Nothing)
  | _ => ret (- EFAULT, Nothing)
  end.
