(* ===== verification/BridgeWf.v ===== *)
(** * Well-formedness of the bridge and the frame of the protocol engine

    [stp_wf] is what the engine needs to run without an oops: the port list
    names live ports with distinct numbers, the root port number is 0 or that
    of a port of the list, and the bridge considers itself the root exactly
    when it has no root port.  [s ≈ s'] says that [s'] agrees with [s] on all
    that [stp_wf] and the forwarding database depend on. *)
From S2P Require Import Prelude LibString BridgeData BridgeBpdu BridgeStp.

(** The fields of a port and of a device that no protocol routine changes. *)
Definition port_key (p : net_bridge_port) : Z * ptr := (p_port_no p, p_dev p).

Definition live (s : kst) (p : ptr) : Prop := is_Some (k_ports s !! p).

Record frame (s s' : kst) : Prop := {
  fr_list : b_port_list (k_br s') = b_port_list (k_br s);
  fr_dev : b_dev (k_br s') = b_dev (k_br s);
  fr_hash : b_hash (k_br s') = b_hash (k_br s);
  fr_age : b_age_list (k_br s') = b_age_list (k_br s);
  fr_fdbs : k_fdbs s' = k_fdbs s;
  fr_next : k_next s' = k_next s;
  fr_ports : forall p, port_key <$> k_ports s' !! p = port_key <$> k_ports s !! p;
  fr_devs : forall d, d_br_port <$> k_devs s' !! d = d_br_port <$> k_devs s !! d }.

Record same_root (s s' : kst) : Prop := {
  sr_port : b_root_port (k_br s') = b_root_port (k_br s);
  sr_id : b_bridge_id (k_br s') = b_bridge_id (k_br s);
  sr_root : b_designated_root (k_br s') = b_designated_root (k_br s) }.

Definition frame_eq (s s' : kst) : Prop := frame s s' /\ same_root s s'.
Infix "≈" := frame_eq (at level 70).

#[export] Instance frame_equiv : Equivalence frame.
Proof.
  split.
  - intros s. by split.
  - intros s s' []. split; try congruence; intros x; done.
  - intros s1 s2 s3 [] []. split; try congruence; intros x; by etrans.
Qed.

#[export] Instance frame_eq_equiv : Equivalence frame_eq.
Proof.
  split.
  - intros s. split; [done|by split].
  - intros s s' [H []]. split; [by symmetry|by split].
  - intros s1 s2 s3 [H1 []] [H2 []]. split; [by etrans|split; congruence].
Qed.

Lemma frame_eq_frame s s' : s ≈ s' -> frame s s'.
Proof. by intros []. Qed.

Lemma live_frame s s' p : frame s s' -> live s p -> live s' p.
Proof.
  intros H [x Hx]. unfold live. pose proof (fr_ports _ _ H p) as E. rewrite Hx in E.
  destruct (k_ports s' !! p); [eauto|done].
Qed.

Record ports_wf (s : kst) : Prop := {
  wf_nodup : NoDup (b_port_list (k_br s));
  wf_live : forall p, p ∈ b_port_list (k_br s) -> live s p;
  wf_no : forall p pp, k_ports s !! p = Some pp -> 0 < p_port_no pp < BR_MAX_PORTS;
  wf_inj : forall p q pp qq, p ∈ b_port_list (k_br s) -> q ∈ b_port_list (k_br s) ->
    k_ports s !! p = Some pp -> k_ports s !! q = Some qq -> p_port_no pp = p_port_no qq -> p = q;
  wf_pdev : forall p pp, k_ports s !! p = Some pp ->
    exists dev, k_devs s !! p_dev pp = Some dev /\ d_br_port dev = Some p;
  wf_bdev : is_Some (k_devs s !! b_dev (k_br s));
  wf_fresh : forall p, live s p -> (p < k_next s)%nat }.

Record root_wf (s : kst) : Prop := {
  wf_root : b_root_port (k_br s) = 0 \/
    exists p pp, p ∈ b_port_list (k_br s) /\ k_ports s !! p = Some pp /\
      p_port_no pp = b_root_port (k_br s);
  wf_isroot : br_is_root_bridge (k_br s) = true <-> b_root_port (k_br s) = 0 }.

Definition stp_wf (s : kst) : Prop := ports_wf s /\ root_wf s.

(** A device that belongs to a port is the device of that port, which is
    listed. *)
Definition port_of (s : kst) (d p : ptr) : Prop :=
  exists pp, k_ports s !! p = Some pp /\ p_dev pp = d.
Definition dev_wf (s : kst) : Prop :=
  forall d dev p, k_devs s !! d = Some dev -> d_br_port dev = Some p ->
    p ∈ b_port_list (k_br s) /\ port_of s d p.

Lemma frame_port s s' p pp' :
  frame s s' -> k_ports s' !! p = Some pp' ->
  exists pp, k_ports s !! p = Some pp /\ port_key pp' = port_key pp.
Proof.
  intros H E. pose proof (fr_ports _ _ H p) as F. rewrite E in F.
  destruct (k_ports s !! p) as [pp|]; [|done]. exists pp. split; [done|]. simpl in F. congruence.
Qed.

Lemma frame_dev s s' d dev' :
  frame s s' -> k_devs s' !! d = Some dev' ->
  exists dev, k_devs s !! d = Some dev /\ d_br_port dev' = d_br_port dev.
Proof.
  intros H E. pose proof (fr_devs _ _ H d) as F. rewrite E in F.
  destruct (k_devs s !! d) as [dev|]; [|done]. exists dev. split; [done|]. simpl in F. congruence.
Qed.

Lemma ports_wf_frame s s' : frame s s' -> ports_wf s -> ports_wf s'.
Proof.
  intros H W. pose proof (symmetry H) as H'. split.
  - rewrite (fr_list _ _ H). apply W.
  - intros p Hp. rewrite (fr_list _ _ H) in Hp. eapply live_frame, W; done.
  - intros p pp Hp. destruct (frame_port _ _ _ _ H Hp) as (q & Hq & [= -> _]). by eapply W.
  - intros p q pp qq Hp Hq Ep Eq E. rewrite (fr_list _ _ H) in Hp, Hq.
    destruct (frame_port _ _ _ _ H Ep) as (a & Ha & [= ? _]).
    destruct (frame_port _ _ _ _ H Eq) as (b & Hb & [= ? _]).
    eapply (wf_inj _ W); eauto; congruence.
  - intros p pp Hp. destruct (frame_port _ _ _ _ H Hp) as (q & Hq & [= _ ->]).
    destruct (wf_pdev _ W _ _ Hq) as (dev & Hd & Hb).
    destruct (frame_dev _ _ _ _ H' Hd) as (dev' & Hd' & Hb'). exists dev'. split; congruence.
  - rewrite (fr_dev _ _ H). destruct (wf_bdev _ W) as [d Hd].
    destruct (frame_dev _ _ _ _ H' Hd) as (dev' & Hd' & _). eauto.
  - intros p Hp. rewrite (fr_next _ _ H). eapply W, live_frame; done.
Qed.

Lemma root_wf_frame s s' : s ≈ s' -> root_wf s -> root_wf s'.
Proof.
  intros [H R] [W1 W2]. split.
  - rewrite (sr_port _ _ R), (fr_list _ _ H). destruct W1 as [|(p & pp & Hp & E & N)]; [by left|].
    right. destruct (frame_port _ _ p pp (symmetry H) E) as (q & Hq & [= Hn _]).
    exists p, q. split_and!; [done..|congruence].
  - unfold br_is_root_bridge in *. by rewrite (sr_port _ _ R), (sr_id _ _ R), (sr_root _ _ R).
Qed.

Lemma stp_wf_frame s s' : s ≈ s' -> stp_wf s -> stp_wf s'.
Proof.
  intros H [W R]. split; [eapply ports_wf_frame|eapply root_wf_frame]; eauto using frame_eq_frame.
Qed.

Lemma port_of_frame s s' d p : frame s s' -> port_of s d p -> port_of s' d p.
Proof.
  intros H (pp & E & D). destruct (frame_port s' s p pp (symmetry H) E) as (qq & Eq & [= _ Dq]).
  exists qq. split; congruence.
Qed.

Lemma dev_wf_frame s s' : frame s s' -> dev_wf s -> dev_wf s'.
Proof.
  intros H W d dev p Hd Hp. rewrite (fr_list _ _ H).
  destruct (frame_dev _ _ _ _ H Hd) as (dev0 & H0 & E). rewrite E in Hp.
  destruct (W d dev0 p H0 Hp). eauto using port_of_frame.
Qed.

#[export] Instance ports_wf_proper : Proper (frame ==> iff) ports_wf.
Proof. intros s s' H. split; apply ports_wf_frame; [done|by symmetry]. Qed.
#[export] Instance stp_wf_proper : Proper (frame_eq ==> iff) stp_wf.
Proof. intros s s' H. split; apply stp_wf_frame; [done|by symmetry]. Qed.

(** ** Primitive accesses *)
Lemma wp_port_get s p Q :
  live s p -> (forall pp, k_ports s !! p = Some pp -> Q pp s) -> wp (port_get p) Q s.
Proof. intros [pp H] HQ. unfold port_get. wp_steps. auto. Qed.

Lemma wp_port_set s p f (Q : unit -> kst -> Prop) :
  live s p ->
  (forall pp, k_ports s !! p = Some pp -> Q tt (s <| k_ports := <[p := f pp]> (k_ports s) |>)) ->
  wp (port_set p f) Q s.
Proof.
  intros [pp H] HQ. unfold port_set. wp_steps. auto.
Qed.

Lemma wp_br_get {A} (f : net_bridge -> A) s Q : Q (f (k_br s)) s -> wp (br_get f) Q s.
Proof. done. Qed.

Lemma wp_br_set f s (Q : unit -> kst -> Prop) :
  Q tt (s <| k_br := f (k_br s) |>) -> wp (br_set f) Q s.
Proof. done. Qed.

Lemma wp_jiffies s Q : Q (k_jiffies s) s -> wp jiffies Q s.
Proof. done. Qed.

Lemma wp_dev_get s d Q :
  is_Some (k_devs s !! d) -> (forall dev, k_devs s !! d = Some dev -> Q dev s) -> wp (dev_get d) Q s.
Proof. intros [dev H] HQ. unfold dev_get. wp_steps. auto. Qed.

Lemma wp_dev_set s d f (Q : unit -> kst -> Prop) :
  is_Some (k_devs s !! d) ->
  (forall dev, k_devs s !! d = Some dev -> Q tt (s <| k_devs := <[d := f dev]> (k_devs s) |>)) ->
  wp (dev_set d f) Q s.
Proof.
  intros [dev H] HQ. unfold dev_set. wp_steps. auto.
Qed.

Lemma wp_alloc_ok s (Q : bool -> kst -> Prop) :
  (forall b l, Q b (s <| k_alloc := l |>)) -> Q true s -> wp alloc_ok Q s.
Proof.
  intros H1 H2. unfold alloc_ok. wp_steps. destruct (k_alloc s) as [|b l]; wp_steps; auto.
Qed.

(** ** State changes within the frame *)
Lemma frame_port_set s p pp pp' :
  k_ports s !! p = Some pp -> port_key pp' = port_key pp ->
  s ≈ s <| k_ports := <[p := pp']> (k_ports s) |>.
Proof.
  intros H K. split; split; try done. intros q.
  change (port_key <$> <[p := pp']> (k_ports s) !! q = port_key <$> k_ports s !! q).
  destruct (decide (p = q)) as [->|].
  - rewrite lookup_insert_eq, H. simpl. by f_equal.
  - by rewrite lookup_insert_ne.
Qed.

Lemma frame_br_set s br' :
  b_port_list br' = b_port_list (k_br s) -> b_dev br' = b_dev (k_br s) ->
  b_hash br' = b_hash (k_br s) -> b_age_list br' = b_age_list (k_br s) ->
  b_root_port br' = b_root_port (k_br s) -> b_bridge_id br' = b_bridge_id (k_br s) ->
  b_designated_root br' = b_designated_root (k_br s) ->
  s ≈ s <| k_br := br' |>.
Proof. intros. split; split; done. Qed.

Lemma frame_xmit s l : s ≈ s <| k_xmit := l |>.
Proof. split; split; done. Qed.

Lemma frame_alloc s l : s ≈ s <| k_alloc := l |>.
Proof. split; split; done. Qed.

Lemma frame_refl s : s ≈ s.
Proof. done. Qed.

#[export] Hint Resolve frame_refl frame_xmit frame_alloc frame_eq_frame : kernel.
