(* ===== verification/BridgeSafe.v ===== *)
(** * The protocol engine does not oops

    [ok s0 m]: from every state that agrees with [s0] on the frame, [m] runs
    without an oops and ends in such a state.  Lemmas [foo_ok] say so of the
    routines of br_stp.c other than root selection, from a well-formed [s0]. *)
From S2P Require Import Prelude LibString BridgeData BridgeBpdu BridgeStp BridgeWf.

Definition ok {A} (s0 : kst) (m : M kst A) : Prop :=
  forall s, s0 ≈ s -> wp m (fun _ s' => s0 ≈ s') s.

Create HintDb ok.

Section rules.
Context (s0 : kst).

Lemma ok_ret {A} (a : A) : ok s0 (ret a).
Proof. by intros s Hs. Qed.

Lemma ok_bind {A B} (m : M kst A) (k : A -> M kst B) :
  ok s0 m -> (forall a, ok s0 (k a)) -> ok s0 (bind m k).
Proof.
  intros Hm Hk s Hs. apply wp_bind. eapply wp_mono; [by apply Hm|].
  intros a s' Hs'. by apply Hk.
Qed.

Lemma ok_gets {A} (f : kst -> A) : ok s0 (gets f).
Proof. by intros s Hs. Qed.

Lemma ok_br_get {A} (f : net_bridge -> A) : ok s0 (br_get f).
Proof. by intros s Hs. Qed.

Lemma ok_jiffies : ok s0 jiffies.
Proof. by intros s Hs. Qed.

Lemma ok_port_get p : live s0 p -> ok s0 (port_get p).
Proof. intros L s Hs. apply wp_port_get; [|done]. eapply live_frame; eauto with kernel. Qed.

Lemma ok_port_set p f :
  live s0 p -> (forall pp, port_key (f pp) = port_key pp) -> ok s0 (port_set p f).
Proof.
  intros L K s Hs. apply wp_port_set; [eapply live_frame; eauto with kernel|].
  intros pp H. etrans; [done|]. by eapply frame_port_set.
Qed.

Lemma ok_br_set f :
  (forall br, b_port_list (f br) = b_port_list br /\ b_dev (f br) = b_dev br /\
     b_hash (f br) = b_hash br /\ b_age_list (f br) = b_age_list br /\
     b_root_port (f br) = b_root_port br /\ b_bridge_id (f br) = b_bridge_id br /\
     b_designated_root (f br) = b_designated_root br) ->
  ok s0 (br_set f).
Proof.
  intros K s Hs. apply wp_br_set. etrans; [done|].
  destruct (K (k_br s)) as (?&?&?&?&?&?&?). by apply frame_br_set.
Qed.

Lemma ok_xmit f : ok s0 (modify (fun s => s <| k_xmit := f s |>)).
Proof. intros s Hs. apply wp_modify. etrans; [done|]. apply frame_xmit. Qed.

Lemma ok_dev_get d : is_Some (k_devs s0 !! d) -> ok s0 (dev_get d).
Proof.
  intros [dev H] s Hs. apply wp_dev_get; [|done].
  destruct (frame_dev s s0 d dev) as (? & ? & _); [by symmetry; apply frame_eq_frame|done|eauto].
Qed.

Lemma ok_alloc_ok : ok s0 alloc_ok.
Proof. intros s Hs. apply wp_alloc_ok; [|done]. intros. etrans; [done|]. apply frame_alloc. Qed.

Lemma ok_when b m : (b = true -> ok s0 m) -> ok s0 (when b m).
Proof. intros H. destruct b; simpl; [by apply H|apply ok_ret]. Qed.

Lemma ok_for_each {A} (l : list A) body :
  (forall x, x ∈ l -> ok s0 (body x)) -> ok s0 (for_each l body).
Proof.
  induction l as [|x l IH]; intros H; simpl; [apply ok_ret|].
  apply ok_bind; [apply H; set_solver|]. intros _. apply IH. set_solver.
Qed.

(** Reading the bridge, remembering what was read. *)
Lemma ok_bind_br {B} (k : net_bridge -> M kst B) :
  (forall s, s0 ≈ s -> ok s0 (k (k_br s))) -> ok s0 (bind (br_get id) k).
Proof. intros H s Hs. apply wp_bind, wp_br_get. by apply H. Qed.

Lemma ok_bind_list {B} (k : list ptr -> M kst B) :
  ok s0 (k (b_port_list (k_br s0))) -> ok s0 (bind (br_get b_port_list) k).
Proof.
  intros H s Hs. apply wp_bind, wp_br_get.
  rewrite (fr_list _ _ (frame_eq_frame _ _ Hs)). by apply H.
Qed.

Lemma ok_bind_port {B} p (k : net_bridge_port -> M kst B) :
  live s0 p ->
  (forall s pp, s0 ≈ s -> k_ports s !! p = Some pp -> ok s0 (k pp)) ->
  ok s0 (bind (port_get p) k).
Proof.
  intros L H s Hs. apply wp_bind, wp_port_get; [eapply live_frame; eauto with kernel|].
  intros pp E. by eapply H.
Qed.

Hypothesis W : stp_wf s0.

Lemma wf_list_live p : p ∈ b_port_list (k_br s0) -> live s0 p.
Proof. apply W. Qed.

Lemma wf_port_dev s p pp :
  s0 ≈ s -> k_ports s !! p = Some pp -> is_Some (k_devs s0 !! p_dev pp).
Proof.
  intros Hs H. destruct (frame_port _ _ _ _ (frame_eq_frame _ _ Hs) H) as (q & Hq & [= _ ->]).
  destruct (wf_pdev _ (proj1 W) _ _ Hq) as (dev & Hd & _). eauto.
Qed.
End rules.

(** [br_get_port] finds a port of the list with that number, if any. *)
Lemma find_port_spec s n l :
  (forall p, p ∈ l -> live s p) ->
  wp (find_port n l) (fun r s' => s' = s /\
    match r with
    | Some p => p ∈ l /\ exists pp, k_ports s !! p = Some pp /\ p_port_no pp = n
    | None => forall p pp, p ∈ l -> k_ports s !! p = Some pp -> p_port_no pp <> n
    end) s.
Proof.
  induction l as [|p l IH]; intros L; simpl.
  - apply wp_ret. split; [done|]. set_solver.
  - apply wp_bind, wp_port_get; [apply L; set_solver|]. intros pp E.
    destruct (Z.eqb_spec (p_port_no pp) n) as [N|N].
    + apply wp_ret. split; [done|]. split; [set_solver|eauto].
    + eapply wp_mono; [apply IH; set_solver|]. intros r s' [-> H]. split; [done|].
      destruct r as [q|]; [set_solver|].
      intros q qq [->|Hq]%elem_of_cons; [congruence|by eapply H].
Qed.

Lemma br_get_port_spec s n :
  (forall p, p ∈ b_port_list (k_br s) -> live s p) ->
  wp (br_get_port n) (fun r s' => s' = s /\
    match r with
    | Some p => p ∈ b_port_list (k_br s) /\ exists pp, k_ports s !! p = Some pp /\ p_port_no pp = n
    | None => forall p pp, p ∈ b_port_list (k_br s) -> k_ports s !! p = Some pp -> p_port_no pp <> n
    end) s.
Proof. intros L. unfold br_get_port. apply wp_bind, wp_br_get. by apply find_port_spec. Qed.

(** A bridge that is not the root can look its root port up. *)
Lemma ok_root_deref {B} s0 s (k : ptr -> M kst B) :
  stp_wf s0 -> s0 ≈ s -> br_is_root_bridge (k_br s) = false ->
  (forall p, p ∈ b_port_list (k_br s0) -> ok s0 (k p)) ->
  ok s0 (bind (br_get_port (b_root_port (k_br s))) (fun r => bind (deref r) k)).
Proof.
  intros W Hs NR Hk s1 Hs1. apply wp_bind.
  pose proof (stp_wf_frame _ _ Hs1 W) as [W1 R1].
  assert (s ≈ s1) as Hss by (etrans; [symmetry|]; done).
  eapply wp_mono; [apply br_get_port_spec; apply W1|]. cbv beta. intros r s2 [-> Hr].
  destruct (wf_root _ R1) as [Z0|(q & qq & Hq & Eq & Nq)].
  { exfalso. apply (wf_isroot _ R1) in Z0. unfold br_is_root_bridge in *.
    rewrite (sr_id _ _ (proj2 Hss)), (sr_root _ _ (proj2 Hss)) in Z0. congruence. }
  destruct r as [p|].
  - apply wp_bind. simpl. apply wp_ret. apply Hk; [|done].
    rewrite <- (fr_list _ _ (proj1 Hs1)). apply Hr.
  - exfalso. eapply Hr; eauto. rewrite Nq. apply (sr_port _ _ (proj2 Hss)).
Qed.

#[export] Hint Resolve ok_ret ok_gets ok_br_get ok_jiffies ok_port_get ok_xmit ok_dev_get
  ok_alloc_ok wf_list_live : ok.

(** Decompose a routine along its control structure. *)
Ltac ok_step :=
  lazymatch goal with
  | |- ok _ (bind (br_get id) _) => apply ok_bind_br; intros ? ?
  | |- ok _ (bind (br_get b_port_list) _) => apply ok_bind_list
  | |- ok _ (bind (port_get _) _) => apply ok_bind_port; [by eauto with ok|intros ? ? ? ?]
  | |- ok _ (bind _ _) => apply ok_bind; [|intros ?]
  | |- ok _ (when _ _) => apply ok_when; intros ?
  | |- ok _ (if ?b then _ else _) => destruct b eqn:?
  | |- ok _ (for_each _ _) => apply ok_for_each; intros ? ?
  | |- ok _ (port_set _ _) => apply ok_port_set; [by eauto with ok|done]
  | |- ok _ (br_set _) => apply ok_br_set; done
  | |- ok _ _ => solve [eauto with ok]
  end; cbv beta.
Ltac ok_steps := repeat ok_step.

Section engine.
Context (s0 : kst) (W : stp_wf s0).
Hint Resolve W : ok.

Lemma br_send_bpdu_ok p data : live s0 p -> ok s0 (br_send_bpdu p data).
Proof. intros L. unfold br_send_bpdu. ok_steps. apply ok_dev_get. by eapply wf_port_dev. Qed.
Hint Resolve br_send_bpdu_ok : ok.

Lemma br_transmit_config_ok p : live s0 p -> ok s0 (br_transmit_config p).
Proof.
  intros L. unfold br_transmit_config, br_send_config_bpdu. ok_step. ok_step; [ok_step|].
  ok_step. ok_step; [ok_step|]. ok_step; [|ok_steps].
  ok_step; [ok_step|]. apply ok_root_deref; [done..|]. intros q Hq. ok_steps.
Qed.
Hint Resolve br_transmit_config_ok : ok.

(** The TCN is sent only by a bridge that is not the root. *)
Lemma br_transmit_tcn_ok s :
  s0 ≈ s -> br_is_root_bridge (k_br s) = false -> ok s0 br_transmit_tcn.
Proof.
  intros Hs NR s1 Hs1. unfold br_transmit_tcn. apply wp_bind, wp_br_get.
  rewrite (sr_port _ _ (proj2 Hs1)), <- (sr_port _ _ (proj2 Hs)). revert s1 Hs1.
  unfold br_send_tcn_bpdu. apply ok_root_deref; [done..|]. intros q Hq. ok_steps.
Qed.

Lemma br_topology_change_detection_ok : ok s0 br_topology_change_detection.
Proof.
  unfold br_topology_change_detection. ok_step. ok_step; [ok_step|]. ok_step; [|ok_steps].
  ok_step; [ok_step|]. ok_step. ok_step; [|ok_steps]. by eapply br_transmit_tcn_ok.
Qed.
Hint Resolve br_topology_change_detection_ok : ok.

Lemma br_config_bpdu_generation_ok : ok s0 br_config_bpdu_generation.
Proof. unfold br_config_bpdu_generation. ok_steps. Qed.
Hint Resolve br_config_bpdu_generation_ok : ok.

Lemma br_dev_ok {B} (k : net_device -> M kst B) :
  (forall dev, ok s0 (k dev)) ->
  ok s0 (bind (br_get b_dev) (fun d => bind (dev_get d) k)).
Proof.
  intros Hk s Hs. apply wp_bind, wp_br_get. rewrite (fr_dev _ _ (proj1 Hs)).
  revert s Hs. fold (ok s0 (bind (dev_get (b_dev (k_br s0))) k)).
  apply ok_bind; [|done]. apply ok_dev_get, W.
Qed.

Lemma br_become_root_bridge_ok : ok s0 br_become_root_bridge.
Proof.
  unfold br_become_root_bridge. ok_step; [ok_step|]. ok_step; [ok_step|]. ok_step; [ok_step|].
  apply br_dev_ok. intros dev. ok_steps.
Qed.

Lemma br_make_forwarding_ok p : live s0 p -> ok s0 (br_make_forwarding p).
Proof. intros L. unfold br_make_forwarding. ok_steps. Qed.
Lemma br_make_blocking_ok p : live s0 p -> ok s0 (br_make_blocking p).
Proof. intros L. unfold br_make_blocking. ok_steps. Qed.
Hint Resolve br_make_forwarding_ok br_make_blocking_ok : ok.

Lemma br_port_state_selection_ok : ok s0 br_port_state_selection.
Proof. unfold br_port_state_selection. ok_steps. Qed.

Lemma br_become_designated_port_ok p : live s0 p -> ok s0 (br_become_designated_port p).
Proof. intros L. unfold br_become_designated_port. ok_steps. Qed.
Hint Resolve br_become_designated_port_ok : ok.

Lemma br_record_config_information_ok p bpdu :
  live s0 p -> ok s0 (br_record_config_information p bpdu).
Proof. intros L. unfold br_record_config_information. ok_steps. Qed.

Lemma br_received_tcn_bpdu_ok p : live s0 p -> ok s0 (br_received_tcn_bpdu p).
Proof. intros L. unfold br_received_tcn_bpdu, br_topology_change_acknowledge. ok_steps. Qed.
End engine.
#[export] Hint Resolve br_send_bpdu_ok br_transmit_config_ok br_topology_change_detection_ok
  br_config_bpdu_generation_ok br_become_root_bridge_ok br_make_forwarding_ok br_make_blocking_ok
  br_port_state_selection_ok br_become_designated_port_ok br_record_config_information_ok
  br_received_tcn_bpdu_ok : ok.
