(* ===== verification/BridgeRoot.v ===== *)
(** * Root selection and the configuration update

    [br_root_selection] elects, among the enabled ports that hear of a better
    root than the bridge itself, one with a best priority vector, and resets
    the bridge to be the root when there is none.  It re-establishes
    [root_wf] from a well-formed port list alone. *)
From S2P Require Import Prelude LibString BridgeData BridgeBpdu BridgeStp BridgeWf BridgeSafe.

(** A port that can be the root port. *)
Definition candidate (br : net_bridge) (pp : net_bridge_port) : bool :=
  negb ((p_state pp =? BR_STATE_DISABLED) || br_is_designated_port br pp) &&
  negb (id_cmp (b_bridge_id br) (p_designated_root pp) <=? 0).

(** The priority vectors of a well-formed port have 8-byte identifiers. *)
Definition id_wf (i : bridge_id) : Prop := length (id_bytes i) = 8%nat.
Definition vec_wf (pp : net_bridge_port) : Prop :=
  id_wf (p_designated_root pp) /\ id_wf (p_designated_bridge pp).

(** [better_root_port] as a lexicographic comparison. *)
Definition better (p r : net_bridge_port) : Prop :=
  id_cmp (p_designated_root p) (p_designated_root r) < 0 \/
  id_cmp (p_designated_root p) (p_designated_root r) = 0 /\
  let cp := u32 (p_designated_cost p + p_path_cost p) in
  let cr := u32 (p_designated_cost r + p_path_cost r) in
  (cp < cr \/ cp = cr /\
   (id_cmp (p_designated_bridge p) (p_designated_bridge r) < 0 \/
    id_cmp (p_designated_bridge p) (p_designated_bridge r) = 0 /\
    (p_designated_port p < p_designated_port r \/
     p_designated_port p = p_designated_port r /\ p_port_id p < p_port_id r))).

Lemma better_root_port_spec p r : better_root_port p r = true <-> better p r.
Proof.
  unfold better_root_port, better. cbv zeta.
  set (a := id_cmp (p_designated_root p) _). set (b := id_cmp (p_designated_bridge p) _).
  set (cp := u32 _). set (cr := u32 _).
  repeat match goal with
  | |- context [Z.ltb ?x ?y] => destruct (Z.ltb_spec x y)
  | |- context [Z.gtb ?x ?y] => destruct (Z.gtb_spec x y)
  end; (split; intros ?; [try discriminate; lia|first [reflexivity|exfalso; lia]]).
Qed.

Lemma id_cmp_trans i j k :
  id_wf i -> id_wf j -> id_wf k -> id_cmp i j < 0 -> id_cmp j k < 0 -> id_cmp i k < 0.
Proof. apply memcmp_trans. Qed.

Lemma id_cmp_zero i j : id_wf i -> id_wf j -> id_cmp i j = 0 -> id_bytes i = id_bytes j.
Proof. intros Hi Hj. by apply memcmp_eq. Qed.

Lemma better_trans p q r :
  vec_wf p -> vec_wf q -> vec_wf r -> better p q -> better q r -> better p r.
Proof.
  intros [A1 A2] [B1 B2] [C1 C2] H1 H2.
  pose proof (id_cmp_trans _ _ _ A1 B1 C1) as T1. pose proof (id_cmp_trans _ _ _ A2 B2 C2) as T2.
  pose proof (id_cmp_zero _ _ A1 B1) as Z1. pose proof (id_cmp_zero _ _ B1 C1) as Z2.
  pose proof (id_cmp_zero _ _ A2 B2) as Z3. pose proof (id_cmp_zero _ _ B2 C2) as Z4.
  unfold better, id_cmp in *. cbv zeta in *.
  destruct H1 as [H1|[H1 H1']].
  { left. destruct H2 as [H2|[H2 H2']]; [auto|]. by rewrite <- (Z2 H2). }
  rewrite (Z1 H1). destruct H2 as [H2|[H2 H2']]; [auto|]. right. split; [done|].
  destruct H1' as [H1'|[H1' H1'']]; [lia|]. destruct H2' as [H2'|[H2' H2'']]; [lia|].
  right. split; [lia|].
  destruct H1'' as [G1|[G1 G1']].
  { left. destruct H2'' as [G2|[G2 G2']]; [auto|]. by rewrite <- (Z4 G2). }
  rewrite (Z3 G1). destruct H2'' as [G2|[G2 G2']]; [auto|]. right. split; [done|]. lia.
Qed.

Lemma better_irrefl p : ~ better p p.
Proof. unfold better, id_cmp. rewrite !memcmp_refl. lia. Qed.

(** The outcome of the election over the ports [l]: nobody when there is no
    candidate, else a candidate that none beats. *)
Definition elected (s : kst) (l : list ptr) (root_port : Z) : Prop :=
  (root_port = 0 /\
   forall q qq, q ∈ l -> k_ports s !! q = Some qq -> candidate (k_br s) qq = false) \/
  (exists r rr, r ∈ l /\ k_ports s !! r = Some rr /\ p_port_no rr = root_port /\
     root_port <> 0 /\ candidate (k_br s) rr = true /\
     ((forall q qq, k_ports s !! q = Some qq -> vec_wf qq) ->
      forall q qq, q ∈ l -> k_ports s !! q = Some qq -> candidate (k_br s) qq = true ->
        ~ better qq rr)).

(** The listed port a number denotes is unique. *)
Lemma wp_get_port_no s r rr (Q : option ptr -> kst -> Prop) :
  ports_wf s -> r ∈ b_port_list (k_br s) -> k_ports s !! r = Some rr ->
  Q (Some r) s -> wp (br_get_port (p_port_no rr)) Q s.
Proof.
  intros W Hr Er HQ. eapply wp_mono; [apply br_get_port_spec; apply W|].
  intros [q|] s' [-> H].
  - destruct H as (Hq & qq & Eq & N). by rewrite (wf_inj _ W q r qq rr).
  - exfalso. by eapply H.
Qed.

Section election.
Context (s : kst) (W : ports_wf s).

Lemma br_should_become_root_port_spec p pp root_port :
  k_ports s !! p = Some pp ->
  (root_port = 0 ->
   wp (br_should_become_root_port p root_port)
     (fun b s' => s' = s /\ b = candidate (k_br s) pp) s) /\
  (forall r rr, root_port <> 0 -> root_port = p_port_no rr ->
   r ∈ b_port_list (k_br s) -> k_ports s !! r = Some rr ->
   wp (br_should_become_root_port p root_port)
     (fun b s' => s' = s /\ b = candidate (k_br s) pp && better_root_port pp rr) s).
Proof.
  intros E. assert (live s p) as L by (by exists pp).
  unfold br_should_become_root_port, candidate.
  split; intros; apply wp_bind, wp_br_get; apply wp_bind, wp_port_get; auto; intros pp' E';
    simplify_eq; change (id (k_br s)) with (k_br s);
    (destruct ((_ =? _) || _); [by apply wp_ret|]);
    (destruct (_ <=? 0); [by apply wp_ret|]).
  - by apply wp_ret.
  - destruct (Z.eqb_spec (p_port_no rr) 0); [done|].
    apply wp_bind. eapply wp_get_port_no; [done..|]. apply wp_bind, wp_ret.
    apply wp_bind, wp_port_get; [by exists rr|]. intros rr' Er. simplify_eq. by apply wp_ret.
Qed.

(** One more port in the election. *)
Lemma elected_step dn rest x xx acc :
  b_port_list (k_br s) = dn ++ x :: rest -> k_ports s !! x = Some xx ->
  elected s dn acc ->
  wp (b ← br_should_become_root_port x acc;
      if b then (pp ← port_get x; ret (p_port_no pp)) else ret acc)
    (fun acc' s' => s' = s /\ elected s (dn ++ [x]) acc') s.
Proof.
  intros E Ex Hel. pose proof (br_should_become_root_port_spec x xx acc Ex) as [S0 S1].
  assert (wp (pp ← port_get x; ret (p_port_no pp)) (fun n s' => s' = s /\ n = p_port_no xx) s) as G.
  { apply wp_bind, wp_port_get; [by exists xx|]. intros xx' Ex'. simplify_eq. by apply wp_ret. }
  destruct Hel as [[-> Hno]|(r & rr & Hr & Er & Nr & Nz & Cr & Best)].
  - apply wp_bind. eapply wp_mono; [by apply S0|]. intros b s' [-> ->].
    destruct (candidate (k_br s) xx) eqn:C.
    + eapply wp_mono; [apply G|]. intros n s' [-> ->]. split; [done|]. right.
      exists x, xx. pose proof (wf_no _ W _ _ Ex). split_and!; [set_solver|done..|lia|done|].
      intros _ q qq [Hq|Hq]%elem_of_app Eq Cq.
      * by rewrite (Hno q qq) in Cq.
      * assert (q = x) as -> by set_solver. simplify_eq. apply better_irrefl.
    + apply wp_ret. split; [done|]. left. split; [done|].
      intros q qq [Hq|Hq]%elem_of_app Eq; [by eapply Hno|].
      assert (q = x) as -> by set_solver. by simplify_eq.
  - apply wp_bind. eapply wp_mono; [eapply S1; eauto; rewrite E; set_solver|].
    intros b s' [-> ->]. destruct (candidate (k_br s) xx && better_root_port xx rr) eqn:C.
    + apply andb_prop in C as [C B]. eapply wp_mono; [apply G|]. intros n s' [-> ->].
      split; [done|]. right. exists x, xx. pose proof (wf_no _ W _ _ Ex).
      split_and!; [set_solver|done..|lia|done|].
      intros V q qq [Hq|Hq]%elem_of_app Eq Cq.
      * intros Hb. apply (Best V q qq Hq Eq Cq).
        eapply (better_trans qq xx rr); eauto. by apply better_root_port_spec.
      * assert (q = x) as -> by set_solver. simplify_eq. apply better_irrefl.
    + apply wp_ret. split; [done|]. right. exists r, rr. split_and!; [set_solver|done..|].
      intros V q qq [Hq|Hq]%elem_of_app Eq Cq; [by eapply Best|].
      assert (q = x) as -> by set_solver. simplify_eq. rewrite Cq in C. simpl in C.
      rewrite <- better_root_port_spec. congruence.
Qed.

Lemma br_root_selection_spec :
  wp br_root_selection (fun _ s' =>
    elected s (b_port_list (k_br s)) (b_root_port (k_br s')) /\
    s' = s <| k_br := k_br s' |> /\ frame s s' /\
    b_bridge_id (k_br s') = b_bridge_id (k_br s) /\ root_wf s' /\
    (b_root_port (k_br s') = 0 ->
       b_designated_root (k_br s') = b_bridge_id (k_br s) /\ b_root_path_cost (k_br s') = 0) /\
    (forall r rr, b_root_port (k_br s') <> 0 -> r ∈ b_port_list (k_br s) ->
       k_ports s !! r = Some rr -> p_port_no rr = b_root_port (k_br s') ->
       b_designated_root (k_br s') = p_designated_root rr /\
       b_root_path_cost (k_br s') = u32 (p_designated_cost rr + p_path_cost rr))) s.
Proof.
  unfold br_root_selection. apply wp_bind, wp_br_get. apply wp_bind.
  eapply wp_mono.
  { apply (wp_fold_each (fun dn _ acc s' => s' = s /\ elected s dn acc)).
    - split; [done|]. left. set_solver.
    - intros dn x rest acc s1 E [-> H].
      destruct (wf_live _ W x) as [xx Ex]; [rewrite E; set_solver|]. by eapply elected_step. }
  cbv beta. intros n s1 [-> Hel]. apply wp_bind, wp_br_set.
  destruct Hel as [[-> Hno]|(r & rr & Hr & Er & Nr & Nz & Cr & Best)]; simpl.
  - apply wp_br_set. split_and!; try done.
    + by left.
    + split; [by left|]. unfold br_is_root_bridge, id_cmp. cbn. by rewrite memcmp_refl.
  - destruct (Z.eqb_spec n 0); [done|]. subst n.
    set (s1 := s <| k_br := _ |>). assert (frame s s1) as F by (by split).
    apply wp_bind, (wp_get_port_no s1 r rr); [by eapply ports_wf_frame|done..|].
    apply wp_bind, wp_ret, wp_bind, wp_port_get; [by exists rr|]. intros rr' Er'.
    assert (rr' = rr) as -> by (cbn in Er'; congruence).
    apply wp_br_set. split_and!; try done.
    + right. exists r, rr. by split_and!.
    + split; [right; by exists r, rr|]. split; [|done]. unfold br_is_root_bridge. cbn.
      intros Hz%Z.eqb_eq. unfold candidate in Cr. rewrite Hz in Cr.
      by rewrite andb_false_r in Cr.
    + intros r' rr'' _ Hr' Er'' Nr'. cbn in Nr'.
      rewrite (wf_inj _ W r' r rr'' rr) in Er''; [|done..]. by simplify_eq.
Qed.
End election.

(** After an update the bridge knows whether it is the root, whatever it
    believed before. *)
Lemma br_designated_port_selection_ok s : stp_wf s -> ok s br_designated_port_selection.
Proof.
  intros W. unfold br_designated_port_selection. ok_steps.
Qed.

Lemma br_configuration_update_wf s :
  ports_wf s ->
  wp br_configuration_update (fun _ s' => frame s s' /\ stp_wf s' /\
    b_bridge_id (k_br s') = b_bridge_id (k_br s)) s.
Proof.
  intros W. unfold br_configuration_update. apply wp_bind.
  eapply wp_mono; [by apply br_root_selection_spec|].
  intros _ s1 (_ & _ & F & Eid & R & _).
  assert (stp_wf s1) as W1 by (split; [by eapply ports_wf_frame|done]).
  eapply wp_mono; [by apply br_designated_port_selection_ok|]. cbv beta. intros _ s2 F2.
  split_and!.
  - etrans; [done|]. apply F2.
  - by eapply stp_wf_frame.
  - rewrite (sr_id _ _ (proj2 F2)). done.
Qed.
