(* ===== verification/BridgeHandlers.v ===== *)
(** * Every entry point of the spanning tree code is oops-free

    [okf s0 m]: from a well-formed state in the frame of [s0], [m] runs
    without an oops to a well-formed state in that frame.  [okp s0 m] asks for
    the frame only; it covers the stretches in which the bridge has changed
    its identity and not yet elected a root. *)
From S2P Require Import Prelude LibString BridgeData BridgeBpdu BridgeStp BridgeTimer.
From S2P Require Import BridgeStpIf BridgeWf BridgeSafe BridgeRoot.

Definition okf {A} (s0 : kst) (m : M kst A) : Prop :=
  forall s, frame s0 s -> stp_wf s -> wp m (fun _ s' => frame s0 s' /\ stp_wf s') s.
Definition okp {A} (s0 : kst) (m : M kst A) : Prop :=
  forall s, frame s0 s -> wp m (fun _ s' => frame s0 s') s.

Section rules.
Context (s0 : kst).

Lemma okf_ok {A} (m : M kst A) : (forall s, frame s0 s -> stp_wf s -> ok s m) -> okf s0 m.
Proof.
  intros H s F W. eapply wp_mono; [by apply H|]. cbv beta. intros _ s' E.
  split; [etrans; [done|apply E]|by eapply stp_wf_frame].
Qed.

Lemma okf_ret {A} (a : A) : okf s0 (ret a).
Proof. by intros s F W. Qed.

Lemma okf_bind {A B} (m : M kst A) (k : A -> M kst B) :
  okf s0 m -> (forall a, okf s0 (k a)) -> okf s0 (bind m k).
Proof.
  intros Hm Hk s F W. apply wp_bind. eapply wp_mono; [by apply Hm|].
  cbv beta. intros a s' [F' W']. by apply Hk.
Qed.

Lemma okf_when b m : (b = true -> okf s0 m) -> okf s0 (when b m).
Proof. intros H. destruct b; simpl; [by apply H|apply okf_ret]. Qed.

Lemma okf_for_each {A} (l : list A) body :
  (forall x, x ∈ l -> okf s0 (body x)) -> okf s0 (for_each l body).
Proof.
  induction l as [|x l IH]; intros H; simpl; [apply okf_ret|].
  apply okf_bind; [apply H; set_solver|]. intros _. apply IH. set_solver.
Qed.

Lemma okf_bind_br {B} (k : net_bridge -> M kst B) :
  (forall s, frame s0 s -> stp_wf s -> okf s0 (k (k_br s))) -> okf s0 (bind (br_get id) k).
Proof. intros H s F W. apply wp_bind, wp_br_get. by apply H. Qed.

Lemma okf_bind_list {B} (k : list ptr -> M kst B) :
  okf s0 (k (b_port_list (k_br s0))) -> okf s0 (bind (br_get b_port_list) k).
Proof. intros H s F W. apply wp_bind, wp_br_get. rewrite (fr_list _ _ F). by apply H. Qed.

Lemma okf_bind_port {B} p (k : net_bridge_port -> M kst B) :
  live s0 p ->
  (forall s pp, frame s0 s -> k_ports s !! p = Some pp -> okf s0 (k pp)) ->
  okf s0 (bind (port_get p) k).
Proof.
  intros L H s F W. apply wp_bind, wp_port_get; [by eapply live_frame|].
  intros pp E. by eapply H.
Qed.

Lemma okp_bind {A B} (m : M kst A) (k : A -> M kst B) :
  okp s0 m -> (forall a, okp s0 (k a)) -> okp s0 (bind m k).
Proof.
  intros Hm Hk s F. apply wp_bind. eapply wp_mono; [by apply Hm|].
  cbv beta. intros a s' F'. by apply Hk.
Qed.

Lemma okp_ret {A} (a : A) : okp s0 (ret a).
Proof. by intros s F. Qed.

Lemma okp_when b m : (b = true -> okp s0 m) -> okp s0 (when b m).
Proof. intros H. destruct b; simpl; [by apply H|apply okp_ret]. Qed.

Lemma okp_for_each {A} (l : list A) body :
  (forall x, x ∈ l -> okp s0 (body x)) -> okp s0 (for_each l body).
Proof.
  induction l as [|x l IH]; intros H; simpl; [apply okp_ret|].
  apply okp_bind; [apply H; set_solver|]. intros _. apply IH. set_solver.
Qed.

Lemma okp_port_get p : live s0 p -> okp s0 (port_get p).
Proof. intros L s F. apply wp_port_get; [by eapply live_frame|done]. Qed.

Lemma okp_port_set p f :
  live s0 p -> (forall pp, port_key (f pp) = port_key pp) -> okp s0 (port_set p f).
Proof.
  intros L K s F. apply wp_port_set; [by eapply live_frame|].
  intros pp E. etrans; [done|]. apply frame_eq_frame. by eapply frame_port_set.
Qed.

Lemma okp_br_set f :
  (forall br, b_port_list (f br) = b_port_list br /\ b_dev (f br) = b_dev br /\
     b_hash (f br) = b_hash br /\ b_age_list (f br) = b_age_list br) ->
  okp s0 (br_set f).
Proof.
  intros K s F. apply wp_br_set. etrans; [done|].
  destruct (K (k_br s)) as (?&?&?&?). by split.
Qed.

Lemma okp_dev_set d f :
  is_Some (k_devs s0 !! d) -> (forall dev, d_br_port (f dev) = d_br_port dev) ->
  okp s0 (dev_set d f).
Proof.
  intros [dev0 H0] K s F. apply wp_dev_set.
  { destruct (frame_dev _ _ _ _ (symmetry F) H0) as (? & ? & _). eauto. }
  intros dev E. etrans; [done|]. split; try done. intros d'.
  change (d_br_port <$> <[d := f dev]> (k_devs s) !! d' = d_br_port <$> k_devs s !! d').
  destruct (decide (d = d')) as [->|].
  - rewrite lookup_insert_eq, E. simpl. by rewrite K.
  - by rewrite lookup_insert_ne.
Qed.

Hypothesis W : ports_wf s0.

Lemma wp_update {B} (k : M kst B) Q s :
  frame s0 s -> (forall s', frame s0 s' -> stp_wf s' -> wp k Q s') ->
  wp (br_configuration_update;; k) Q s.
Proof.
  intros F H. apply wp_bind. eapply wp_mono.
  { apply br_configuration_update_wf. by eapply ports_wf_frame. }
  cbv beta. intros _ s' (F' & W' & _). apply H; [by etrans|done].
Qed.

(** The tail most entry points share. *)
Lemma reconfigure_okf wasroot s :
  frame s0 s ->
  wp (br_configuration_update;; br_port_state_selection;; br ← br_get id;
      when (br_is_root_bridge br && negb wasroot) br_become_root_bridge)
    (fun _ s' => frame s0 s' /\ stp_wf s') s.
Proof.
  intros F. apply wp_update; [done|]. revert s F.
  intros _ _ s F Ws. revert s F Ws. apply (okf_bind br_port_state_selection).
  - apply okf_ok. intros s _ Ws. by apply br_port_state_selection_ok.
  - intros _. apply okf_bind_br. intros s _ _. apply okf_when. intros _.
    apply okf_ok. intros s' _ W'. by apply br_become_root_bridge_ok.
Qed.

(** A change that stays in the frame, then the tail. *)
Lemma okf_reconfigure {A} (m : M kst A) wasroot :
  okp s0 m ->
  okf s0 (m;; br_configuration_update;; br_port_state_selection;; br ← br_get id;
          when (br_is_root_bridge br && negb wasroot) br_become_root_bridge).
Proof.
  intros Hm s F _. apply wp_bind. eapply wp_mono; [by apply Hm|]. cbv beta.
  intros _ s' F'. by apply reconfigure_okf.
Qed.
End rules.

Ltac okp_step :=
  lazymatch goal with
  | |- okp _ (bind _ _) => apply okp_bind; [|intros ?]
  | |- okp _ (when _ _) => apply okp_when; intros ?
  | |- okp _ (for_each _ _) => apply okp_for_each; intros ? ?
  | |- okp _ (ret _) => apply okp_ret
  | |- okp _ (port_set _ _) => apply okp_port_set; [by eauto with ok|done]
  | |- okp _ (port_get _) => apply okp_port_get; by eauto with ok
  | |- okp _ (br_set _) => apply okp_br_set; done
  | |- okp _ (br_get _) => by intros ? ?
  | |- okp _ jiffies => by intros ? ?
  | |- okp _ (dev_set _ _) => apply okp_dev_set; [by eauto with ok|done]
  end; cbv beta.

(** [m1;; m2;; k] reassociated, to see [m1;; m2] as one change. *)
Lemma wp_assoc {S A B C} (m1 : M S A) (m2 : M S B) (k : M S C) Q s :
  wp ((m1;; m2);; k) Q s -> wp (m1;; m2;; k) Q s.
Proof. unfold wp, bind. by destruct (m1 s) as [[? ?]|]. Qed.

Section handlers.
Context (s0 : kst) (W : ports_wf s0).

Lemma list_live p : p ∈ b_port_list (k_br s0) -> live s0 p.
Proof. apply W. Qed.
Lemma bdev_live : is_Some (k_devs s0 !! b_dev (k_br s0)).
Proof. apply W. Qed.
Hint Resolve list_live bdev_live : ok.

Ltac by_ok := apply okf_ok; intros ? ? ?; by eauto using live_frame with ok.

Lemma br_become_designated_port_okp p : live s0 p -> okp s0 (br_become_designated_port p).
Proof. intros L. unfold br_become_designated_port. okp_step; [okp_step|]. okp_step. Qed.

(** ** Received BPDUs *)
Lemma lost_root_okf was_root :
  okf s0 (br ← br_get id;
    when (negb (br_is_root_bridge br) && was_root)
      (br_set (fun br => br <| b_hello_timer := del_timer (b_hello_timer br) |>);;
       detected ← br_get b_topology_change_detected;
       when (truth detected)
         (br_set (fun br => br <| b_topology_change_timer := del_timer (b_topology_change_timer br) |>);;
          br_transmit_tcn;;
          now ← jiffies;
          br_set (fun br => br <| b_tcn_timer :=
            mod_timer (u32 (now + b_bridge_hello_time br)) (b_tcn_timer br) |>)))).
Proof.
  apply okf_ok. intros s1 F1 W1. ok_step. ok_step.
  match goal with H : negb _ && _ = true |- _ => apply andb_prop in H as [NR%negb_true_iff _] end.
  ok_step; [ok_step|]. ok_step; [ok_step|]. ok_step. ok_step; [ok_step|].
  ok_step; [by eapply br_transmit_tcn_ok|]. ok_steps.
Qed.

Lemma br_received_config_bpdu_okf p bpdu :
  live s0 p -> okf s0 (br_received_config_bpdu p bpdu).
Proof.
  intros L. unfold br_received_config_bpdu. apply okf_bind_br. intros s _ _.
  apply okf_bind_port; [done|]. intros s1 pp _ _. cbv zeta. destruct (br_supersedes_port_info _ _ _).
  - apply okf_bind; [by_ok|]. intros _ s2 F2 _. apply wp_update with s0; [done|done|].
    revert s2 F2. intros _ _ s2 F2 W2. revert s2 F2 W2.
    apply (okf_bind s0 br_port_state_selection); [by_ok|]. intros _.
    intros s2 F2 W2.
    pose proof (lost_root_okf (br_is_root_bridge (id (k_br s)))) as HL.
    specialize (HL s2 F2 W2). revert HL. unfold wp at 1. unfold bind at 1, br_get at 1, gets at 1.
    intros HL. unfold wp, bind at 1, br_get at 1, gets at 1.
    unfold bind at 1.
    destruct (when _ _ s2) as [[[] s3]|]; [|done]. destruct HL as [F3 W3].
    revert s3 F3 W3. apply okf_bind_port; [done|]. intros s3 pp' _ _.
    apply okf_ok. intros s4 _ W4. ok_step; [ok_step|]. ok_step.
    unfold br_record_config_timeout_values, br_topology_change_acknowledged. ok_steps.
  - apply okf_when. intros _. unfold br_reply. by_ok.
Qed.

(** ** Timers *)
Lemma br_hello_timer_expired_okf : okf s0 br_hello_timer_expired.
Proof.
  apply okf_ok. intros s F Ws. unfold br_hello_timer_expired, br_dev_up.
  apply ok_bind; [|intros ?; ok_steps]. apply br_dev_ok; [done|]. intros. ok_steps.
Qed.

Lemma br_message_age_timer_expired_okf p :
  live s0 p -> okf s0 (br_message_age_timer_expired p).
Proof.
  intros L. unfold br_message_age_timer_expired. apply okf_bind_port; [done|].
  intros s pp _ _. destruct (_ =? _); [apply okf_ret|]. apply okf_bind_br. intros s1 _ _.
  by apply okf_reconfigure, br_become_designated_port_okp.
Qed.

Lemma designated_for_some_ok s br l :
  (forall p, p ∈ l -> live s p) -> ok s (designated_for_some br l).
Proof.
  induction l as [|p l IH]; intros L; simpl; [apply ok_ret|].
  apply ok_bind_port; [apply L; set_solver|]. intros. ok_step; [apply ok_ret|].
  apply IH. set_solver.
Qed.

Lemma br_forward_delay_timer_expired_okf p :
  live s0 p -> okf s0 (br_forward_delay_timer_expired p).
Proof.
  intros L. apply okf_ok. intros s F Ws. assert (live s p) by (by eapply live_frame).
  unfold br_forward_delay_timer_expired, br_is_designated_for_some_port.
  ok_step. ok_step; [ok_steps|]. ok_step. ok_step; [ok_steps|].
  ok_step; [|ok_steps]. ok_step. change (id (k_br s2)) with (k_br s2).
  match goal with H : s ≈ s2 |- _ => pose proof (fr_list _ _ (proj1 H)) as E end.
  apply designated_for_some_ok. rewrite E. apply Ws.
Qed.

Lemma br_topology_change_timer_expired_okf : okf s0 br_topology_change_timer_expired.
Proof. apply okf_ok. intros s F Ws. unfold br_topology_change_timer_expired. ok_steps. Qed.

Lemma br_hold_timer_expired_okf p : live s0 p -> okf s0 (br_hold_timer_expired p).
Proof.
  intros L. apply okf_ok. intros s F Ws. assert (live s p) by (by eapply live_frame).
  unfold br_hold_timer_expired. ok_steps.
Qed.

(** ** Configuration *)
Lemma br_init_port_okp p : live s0 p -> okp s0 (br_init_port p).
Proof.
  intros L. unfold br_init_port. okp_step; [okp_step|].
  okp_step; [by apply br_become_designated_port_okp|]. okp_step.
Qed.

Lemma br_init_port_ok s p : live s p -> ok s (br_init_port p).
Proof. intros L. unfold br_init_port. ok_steps. Qed.

Lemma br_stp_enable_port_okf p : live s0 p -> okf s0 (br_stp_enable_port p).
Proof.
  intros L. apply okf_ok. intros s F Ws. assert (live s p) by (by eapply live_frame).
  unfold br_stp_enable_port. apply ok_bind; [by apply br_init_port_ok|]. intros _. ok_steps.
Qed.

Lemma br_stp_enable_bridge_okf : okf s0 br_stp_enable_bridge.
Proof.
  unfold br_stp_enable_bridge.
  apply okf_bind; [by_ok|]. intros now.
  apply okf_bind; [apply okf_ok; intros; ok_steps|]. intros _.
  apply okf_bind; [by_ok|]. intros _.
  apply okf_bind_list, okf_for_each. intros p Hp.
  apply okf_bind_port; [by apply list_live|]. intros s1 pp F1 E1.
  apply okf_bind.
  { apply okf_ok. intros s F Ws. apply ok_dev_get.
    destruct (frame_port _ _ _ _ F1 E1) as (q & Hq & [= _ ->]).
    destruct (wf_pdev _ W _ _ Hq) as (dev & Hd & _).
    destruct (frame_dev _ _ _ _ (symmetry F) Hd) as (? & ? & _). eauto. }
  intros dev. apply okf_when. intros _. by apply br_stp_enable_port_okf, list_live.
Qed.

Lemma br_stp_disable_port_okf p : live s0 p -> okf s0 (br_stp_disable_port p).
Proof.
  intros L. unfold br_stp_disable_port. apply okf_bind_br. intros s _ _. cbv zeta.
  intros s1 F1 W1. apply wp_assoc. revert s1 F1 W1. apply okf_reconfigure; [done|].
  okp_step; [by apply br_become_designated_port_okp|]. okp_step.
Qed.

Lemma br_stp_disable_bridge_okf : okf s0 br_stp_disable_bridge.
Proof.
  unfold br_stp_disable_bridge. apply okf_bind_list. apply okf_bind.
  - apply okf_for_each. intros p Hp. apply okf_bind_port; [by apply list_live|]. intros s pp _ _.
    apply okf_when. intros _. by apply br_stp_disable_port_okf, list_live.
  - intros _. apply okf_ok. intros. ok_steps.
Qed.

Lemma br_stp_change_bridge_id_okf a : okf s0 (br_stp_change_bridge_id a).
Proof.
  unfold br_stp_change_bridge_id. apply okf_bind_br. intros s F Ws. cbv zeta.
  change (id (k_br s)) with (k_br s). rewrite (fr_list _ _ F), (fr_dev _ _ F).
  intros s1 F1 W1. apply wp_assoc, wp_assoc. revert s1 F1 W1. apply okf_reconfigure; [done|].
  okp_step; [okp_step; okp_step|]. okp_step. okp_step.
Qed.

Lemma br_stp_recalculate_bridge_id_okf : okf s0 br_stp_recalculate_bridge_id.
Proof.
  unfold br_stp_recalculate_bridge_id. apply okf_bind_list. apply okf_bind.
  - intros s F Ws. eapply wp_mono.
    { apply (wp_fold_each (fun _ _ _ s' => s' = s)); [done|].
      intros dn p rest acc s1 E ->. assert (p ∈ b_port_list (k_br s0)) as Hp by (rewrite E; set_solver).
      apply wp_bind, wp_port_get; [by eapply live_frame, list_live|]. intros pp Ep.
      destruct (wf_pdev _ (proj1 Ws) _ _ Ep) as (dev & Hd & _).
      apply wp_bind, wp_dev_get; [eauto|]. intros. by apply wp_ret. }
    cbv beta. by intros ? ? ->.
  - intros best. cbv zeta. apply okf_bind_br. intros. apply okf_when. intros _.
    apply br_stp_change_bridge_id_okf.
Qed.

Lemma br_stp_set_bridge_priority_okf newprio : okf s0 (br_stp_set_bridge_priority newprio).
Proof.
  unfold br_stp_set_bridge_priority. apply okf_bind_br. intros s F Ws. cbv zeta.
  change (id (k_br s)) with (k_br s). rewrite (fr_list _ _ F).
  intros s1 F1 W1. apply wp_assoc. revert s1 F1 W1. apply okf_reconfigure; [done|].
  okp_step; [|okp_step]. okp_step. okp_step; [okp_step|]. okp_step. okp_step.
Qed.

Lemma br_stp_set_port_priority_okf p newprio :
  live s0 p -> okf s0 (br_stp_set_port_priority p newprio).
Proof.
  intros L. apply okf_ok. intros s F Ws. assert (live s p) by (by eapply live_frame).
  unfold br_stp_set_port_priority. ok_steps.
Qed.

Lemma br_stp_set_path_cost_okf p cost : live s0 p -> okf s0 (br_stp_set_path_cost p cost).
Proof.
  intros L s F Ws. unfold br_stp_set_path_cost. apply wp_bind.
  eapply wp_mono; [by apply (okp_port_set s0)|]. cbv beta. intros _ s1 F1.
  apply wp_update with s0; [done|done|]. intros s2 F2 W2. revert s2 F2 W2.
  change (okf s0 br_port_state_selection). by_ok.
Qed.
End handlers.
