(* ===== verification/BridgeFdbSpec.v ===== *)
(** * The forwarding database refines a map from addresses to ports *)
From S2P Require Import Prelude LibString BridgeData BridgeBpdu BridgeStp BridgeTimer.
From S2P Require Import BridgeStpIf BridgeWf BridgeFdb.

(** ** The hash table *)
Lemma br_mac_hash_range mac : 0 <= br_mac_hash mac < 256.
Proof.
  unfold br_mac_hash. cbv zeta. change (BR_HASH_SIZE - 1) with (Z.ones 8).
  rewrite Z.land_ones by lia. apply Z.mod_pos_bound. lia.
Qed.

Definition buckets : nat := 256.
Definition bucket (mac : list Z) : nat := Z.to_nat (br_mac_hash mac).

Lemma bucket_lt mac : (bucket mac < buckets)%nat.
Proof. unfold bucket, buckets. pose proof (br_mac_hash_range mac). lia. Qed.

(** Entry [e], with contents [f], is linked in the table. *)
Definition linked (s : kst) (e : ptr) (f : net_bridge_fdb_entry) : Prop :=
  k_fdbs s !! e = Some f /\ exists i, e ∈ default [] (b_hash (k_br s) !! i).

Record hash_wf (s : kst) : Prop := {
  hw_len : length (b_hash (k_br s)) = buckets;
  hw_nodup : forall i, NoDup (default [] (b_hash (k_br s) !! i));
  hw_entry : forall i e, e ∈ default [] (b_hash (k_br s) !! i) ->
    exists f, k_fdbs s !! e = Some f /\ i = bucket (f_addr f) /\ length (f_addr f) = 6%nat /\
      f_is_static f = f_is_local f /\ 1 <= f_use_count f;
  hw_uniq : forall e e' f f', linked s e f -> linked s e' f' -> f_addr f = f_addr f' -> e = e';
  hw_fresh : forall e, is_Some (k_fdbs s !! e) -> (e < k_next s)%nat }.

(** Every entry forwards to a live port. *)
Definition dst_wf (s : kst) : Prop := forall e f, linked s e f -> live s (f_dst f).

Lemma linked_bucket s e f :
  hash_wf s -> linked s e f -> e ∈ hash_chain (br_mac_hash (f_addr f)) (k_br s).
Proof.
  intros W [E [i Hi]]. destruct (hw_entry _ W i e Hi) as (f' & E' & -> & _).
  simplify_eq. done.
Qed.

Lemma linked_iff s e f a :
  hash_wf s ->
  (linked s e f /\ f_addr f = a <->
   e ∈ hash_chain (br_mac_hash a) (k_br s) /\ k_fdbs s !! e = Some f /\ f_addr f = a).
Proof.
  intros W. split.
  - intros [L <-]. split; [by apply linked_bucket|]. by split; [apply L|].
  - intros (H & E & <-). split; [|done]. split; [done|]. by eexists.
Qed.

(** The abstract map: the port and locality of an address. *)
Definition fdb_lookup (s : kst) (a : list Z) (v : option (ptr * Z)) : Prop :=
  match v with
  | Some (dst, loc) => exists e f, linked s e f /\ f_addr f = a /\ f_dst f = dst /\ f_is_local f = loc
  | None => forall e f, linked s e f -> f_addr f <> a
  end.

Lemma fdb_lookup_fun s a v v' : hash_wf s -> fdb_lookup s a v -> fdb_lookup s a v' -> v = v'.
Proof.
  intros W. destruct v as [[d l]|], v' as [[d' l']|]; simpl; try done.
  - intros (e & f & L & A & D & Lo) (e' & f' & L' & A' & D' & Lo').
    assert (e = e') as <- by (eapply hw_uniq; eauto; congruence).
    destruct L as [L _], L' as [L' _]. congruence.
  - intros (e & f & L & A & _) H. by destruct (H e f L).
  - intros H (e & f & L & A & _). by destruct (H e f L).
Qed.

Lemma wp_fdb_get s e (f : net_bridge_fdb_entry) (Q : net_bridge_fdb_entry -> kst -> Prop) :
  k_fdbs s !! e = Some f -> Q f s -> wp (fdb_get e) Q s.
Proof. intros H HQ. unfold fdb_get. wp_steps. done. Qed.

Lemma wp_fdb_set s e f g (Q : unit -> kst -> Prop) :
  k_fdbs s !! e = Some f -> Q tt (s <| k_fdbs := <[e := g f]> (k_fdbs s) |>) -> wp (fdb_set e g) Q s.
Proof. intros H HQ. unfold fdb_set. wp_steps. done. Qed.

Lemma find_addr_spec s a l :
  length a = 6%nat ->
  (forall e, e ∈ l -> exists f, k_fdbs s !! e = Some f /\ length (f_addr f) = 6%nat) ->
  wp (find_addr a l) (fun r s' => s' = s /\
    match r with
    | Some e => exists f, e ∈ l /\ k_fdbs s !! e = Some f /\ f_addr f = a
    | None => forall e f, e ∈ l -> k_fdbs s !! e = Some f -> f_addr f <> a
    end) s.
Proof.
  intros La. induction l as [|e l IH]; intros Hl; simpl.
  - apply wp_ret. split; [done|]. set_solver.
  - destruct (Hl e) as (f & E & Lf); [set_solver|]. apply wp_bind, wp_fdb_get with f; [done|].
    destruct (Z.eqb_spec (memcmp (f_addr f) a ETH_ALEN) 0) as [H|H].
    + apply wp_ret. split; [done|]. exists f. apply memcmp_eq in H; [|done..]. set_solver.
    + eapply wp_mono; [apply IH; set_solver|]. cbv beta. intros r s' [-> Hr]. split; [done|].
      destruct r as [e'|]; [set_solver|].
      intros e' f' [->|He']%elem_of_cons E'; [|by eapply Hr].
      simplify_eq. intros <-. by rewrite memcmp_refl in H.
Qed.

(** Looking an address up in its chain. *)
Lemma find_chain_spec s a :
  hash_wf s -> length a = 6%nat ->
  wp (find_addr a (hash_chain (br_mac_hash a) (k_br s))) (fun r s' => s' = s /\
    match r with
    | Some e => exists f, linked s e f /\ f_addr f = a
    | None => fdb_lookup s a None
    end) s.
Proof.
  intros W La. eapply wp_mono.
  { apply find_addr_spec; [done|]. intros e He.
    destruct (hw_entry _ W _ e He) as (f & E & _ & L & _). eauto. }
  cbv beta. intros [e|] s' [-> H]; (split; [done|]).
  - destruct H as (f & He & E & A). exists f. by apply linked_iff.
  - intros e f L A. destruct (proj1 (linked_iff s e f a W)) as (He & E & _); [done|]. by eapply H.
Qed.

(** ** The lists of entries *)

(** All nodes are entries in memory. *)
Definition nodes_live (s : kst) (l : list ptr) : Prop := forall e, e ∈ l -> is_Some (k_fdbs s !! e).

(** What the operations on the age list need: its nodes are in memory, and
    every entry that is not static is on it. *)
Record age_live (s : kst) : Prop := {
  al_live : nodes_live s (b_age_list (k_br s));
  al_on : forall e f, linked s e f -> truth (f_is_static f) = false -> e ∈ b_age_list (k_br s) }.

Lemma chain_live s i : hash_wf s -> nodes_live s (default [] (b_hash (k_br s) !! i)).
Proof. intros W e He. destruct (hw_entry _ W i e He) as (f & E & _). by exists f. Qed.

Lemma wp_touch_all s l (Q : unit -> kst -> Prop) :
  nodes_live s l -> Q tt s -> wp (for_each l touch) Q s.
Proof.
  intros H HQ. induction l as [|e l IH]; simpl; [done|].
  destruct (H e) as [f E]; [set_solver|]. unfold touch at 1. apply wp_bind, wp_bind, wp_fdb_get with f; [done|].
  apply wp_ret, IH. intros x Hx. apply H. set_solver.
Qed.

Lemma neighbours_on prev e l :
  e ∈ l -> exists ns, neighbours prev e l = Some ns /\ forall x, x ∈ ns -> prev = Some x \/ x ∈ l.
Proof.
  revert prev. induction l as [|y l IH]; intros prev H; [set_solver|]. simpl.
  destruct (Nat.eqb_spec y e) as [->|N].
  - eexists. split; [done|]. intros x [Hx|Hx]%elem_of_app.
    + left. destruct prev; set_solver.
    + right. destruct l; set_solver.
  - destruct (IH (Some y)) as (ns & E & Hn); [set_solver|]. exists ns. split; [done|].
    intros x Hx. right. destruct (Hn x Hx) as [[= ->]|]; set_solver.
Qed.

Lemma neighbours_off prev e l ns : neighbours prev e l = Some ns -> e ∈ l.
Proof.
  revert prev. induction l as [|y l IH]; intros prev; simpl; [done|].
  destruct (Nat.eqb_spec y e) as [->|N]; [set_solver|]. intros H%IH. set_solver.
Qed.

Lemma chain_neighbours_on e ll i :
  e ∈ default [] (ll !! i) ->
  exists ns j, chain_neighbours e ll = Some ns /\ forall x, x ∈ ns -> x ∈ default [] (ll !! j).
Proof.
  revert i. induction ll as [|c ll IH]; intros i H; [destruct i; set_solver|]. simpl.
  destruct (neighbours None e c) as [ns|] eqn:E.
  - exists ns, 0%nat. split; [done|]. intros x Hx.
    destruct (neighbours_on None e c (neighbours_off _ _ _ _ E)) as (ns' & E' & Hn).
    rewrite E in E'. injection E' as <-. by destruct (Hn x Hx).
  - destruct i as [|i].
    + destruct (neighbours_on None e c H) as (ns & E' & _). congruence.
    + destruct (IH i H) as (ns & j & En & Hn). by exists ns, (S j).
Qed.

Lemma wp_hlist_del_rcu s e f (Q : unit -> kst -> Prop) :
  hash_wf s -> linked s e f ->
  Q tt (s <| k_br := (k_br s) <| b_hash := unlink e <$> b_hash (k_br s) |> |>) -> wp (hlist_del_rcu e) Q s.
Proof.
  intros W [_ [i Hi]] HQ. unfold hlist_del_rcu. apply wp_bind, wp_br_get, wp_bind.
  destruct (chain_neighbours_on _ _ _ Hi) as (ns & j & E & Hn). eapply wp_deref; [done|].
  apply wp_bind, wp_touch_all; [|by apply wp_br_set]. intros x Hx. apply (chain_live s j W), Hn, Hx.
Qed.

Lemma wp_hlist_add_head_rcu s e h (Q : unit -> kst -> Prop) :
  nodes_live s (hash_chain h (k_br s)) ->
  Q tt (s <| k_br := (k_br s) <| b_hash :=
    <[Z.to_nat h := e :: hash_chain h (k_br s)]> (b_hash (k_br s)) |> |>) -> wp (hlist_add_head_rcu e h) Q s.
Proof.
  intros H HQ. unfold hlist_add_head_rcu. apply wp_bind, wp_br_get, wp_bind, wp_touch_all.
  - intros x Hx. apply H. destruct (hash_chain h (k_br s)); set_solver.
  - by apply wp_br_set.
Qed.

Lemma wp_age_list_del s e (Q : unit -> kst -> Prop) :
  nodes_live s (b_age_list (k_br s)) -> e ∈ b_age_list (k_br s) ->
  Q tt (s <| k_br := (k_br s) <| b_age_list := unlink e (b_age_list (k_br s)) |> |>) -> wp (age_list_del e) Q s.
Proof.
  intros H He HQ. unfold age_list_del. apply wp_bind, wp_br_get, wp_bind.
  destruct (neighbours_on None e _ He) as (ns & E & Hn). eapply wp_deref; [done|].
  apply wp_bind, wp_touch_all; [|by apply wp_br_set]. intros x Hx. apply H. by destruct (Hn x Hx).
Qed.

Lemma wp_age_list_add_tail s e (Q : unit -> kst -> Prop) :
  nodes_live s (b_age_list (k_br s)) ->
  Q tt (s <| k_br := (k_br s) <| b_age_list := b_age_list (k_br s) ++ [e] |> |>) ->
  wp (age_list_add_tail e) Q s.
Proof.
  intros H HQ. unfold age_list_add_tail. apply wp_bind, wp_br_get, wp_bind, wp_touch_all.
  - intros x Hx. apply H. destruct (last (b_age_list (k_br s))) as [y|] eqn:E; [|set_solver].
    apply last_Some in E as [l ->]. set_solver.
  - by apply wp_br_set.
Qed.

(** ** State changes *)

(** Rewriting an entry in place, its address and count kept. *)
Lemma linked_update s e0 f0 f1 e f :
  k_fdbs s !! e0 = Some f0 ->
  linked (s <| k_fdbs := <[e0 := f1]> (k_fdbs s) |>) e f <->
  (e = e0 /\ f = f1 /\ linked s e0 f0) \/ (e <> e0 /\ linked s e f).
Proof.
  intros E0. unfold linked. cbn. destruct (decide (e = e0)) as [->|N].
  - rewrite lookup_insert_eq. naive_solver.
  - rewrite lookup_insert_ne by done. naive_solver.
Qed.

Lemma hash_wf_update s e0 f0 f1 :
  hash_wf s -> k_fdbs s !! e0 = Some f0 ->
  f_addr f1 = f_addr f0 -> f_is_static f1 = f_is_local f1 -> 1 <= f_use_count f1 ->
  hash_wf (s <| k_fdbs := <[e0 := f1]> (k_fdbs s) |>).
Proof.
  intros W E0 A St U. split.
  - apply W.
  - apply W.
  - cbn. intros i e He. destruct (hw_entry _ W i e He) as (f & E & Hi & L & S & C).
    destruct (decide (e = e0)) as [->|N].
    + simplify_eq. exists f1. rewrite lookup_insert_eq, A. done.
    + exists f. by rewrite lookup_insert_ne.
  - intros e e' f f'. rewrite !(linked_update s e0 f0 f1) by done.
    intros [(-> & -> & L)|(N & L)] [(-> & -> & L')|(N' & L')] H; try done.
    + rewrite A in H. symmetry. eapply (hw_uniq _ W); eauto.
    + rewrite A in H. eapply (hw_uniq _ W); eauto.
    + eapply (hw_uniq _ W); eauto.
  - cbn. intros e. destruct (decide (e = e0)) as [->|N].
    + intros _. apply (hw_fresh _ W). eauto.
    + rewrite lookup_insert_ne by done. apply (hw_fresh _ W).
Qed.

(** [hash_wf] ignores everything but the table and the entries. *)
Lemma hash_wf_ext s s' :
  b_hash (k_br s') = b_hash (k_br s) -> k_fdbs s' = k_fdbs s -> k_next s' = k_next s ->
  hash_wf s -> hash_wf s'.
Proof.
  intros E1 E2 E3 W. split; unfold linked; rewrite ?E1, ?E2, ?E3; apply W.
Qed.

Lemma linked_ext s s' e f :
  b_hash (k_br s') = b_hash (k_br s) -> k_fdbs s' = k_fdbs s -> linked s' e f <-> linked s e f.
Proof. intros E1 E2. unfold linked. by rewrite E1, E2. Qed.

(** What the forwarding database code leaves alone. *)
Record fdb_frame (s s' : kst) : Prop := {
  ff_ports : k_ports s' = k_ports s;
  ff_devs : k_devs s' = k_devs s;
  ff_now : k_jiffies s' = k_jiffies s;
  ff_xmit : k_xmit s' = k_xmit s;
  ff_list : b_port_list (k_br s') = b_port_list (k_br s);
  ff_dev : b_dev (k_br s') = b_dev (k_br s);
  ff_root : b_root_port (k_br s') = b_root_port (k_br s);
  ff_id : b_bridge_id (k_br s') = b_bridge_id (k_br s);
  ff_droot : b_designated_root (k_br s') = b_designated_root (k_br s);
  ff_hold : hold_time (k_br s') = hold_time (k_br s);
  ff_next : (k_next s <= k_next s')%nat }.

#[export] Instance fdb_frame_preorder : PreOrder fdb_frame.
Proof. split; [by split|]. intros s1 s2 s3 [] []. split; try congruence; lia. Qed.

(** Linking a new entry at the head of its chain. *)
Definition link_new (e : ptr) (f : net_bridge_fdb_entry) (s : kst) : kst :=
  s <| k_next := S e |> <| k_fdbs := <[e := f]> (k_fdbs s) |>
    <| k_br := (k_br s) <| b_hash :=
         <[bucket (f_addr f) := e :: hash_chain (br_mac_hash (f_addr f)) (k_br s)]> (b_hash (k_br s)) |> |>.

Lemma bucket_new s e f i :
  length (b_hash (k_br s)) = buckets ->
  default [] (b_hash (k_br (link_new e f s)) !! i) =
  if decide (i = bucket (f_addr f)) then e :: default [] (b_hash (k_br s) !! i)
  else default [] (b_hash (k_br s) !! i).
Proof.
  intros L. cbn. case_decide as D.
  - subst i. rewrite list_lookup_insert_eq; [done|]. rewrite L. apply bucket_lt.
  - by rewrite list_lookup_insert_ne.
Qed.

Lemma linked_new s e f e' f' :
  hash_wf s -> e = k_next s ->
  linked (link_new e f s) e' f' <-> (e' = e /\ f' = f) \/ linked s e' f'.
Proof.
  intros W ->. unfold linked. setoid_rewrite bucket_new; [|apply W]. cbn.
  assert (k_fdbs s !! k_next s = None) as Nf.
  { destruct (k_fdbs s !! k_next s) eqn:E; [|done].
    pose proof (hw_fresh _ W (k_next s) (mk_is_Some _ _ E)). lia. }
  destruct (decide (e' = k_next s)) as [->|N].
  - rewrite lookup_insert_eq. split; [naive_solver|]. intros [[_ ->]|[H _]]; [|congruence].
    split; [done|]. exists (bucket (f_addr f)). rewrite decide_True by done. set_solver.
  - rewrite lookup_insert_ne by done. split.
    + intros [E [i Hi]]. right. split; [done|]. exists i. case_decide; set_solver.
    + intros [[? _]|[E [i Hi]]]; [done|]. split; [done|]. exists i. case_decide; set_solver.
Qed.

Lemma hash_wf_new s e f :
  hash_wf s -> e = k_next s -> length (f_addr f) = 6%nat -> f_is_static f = f_is_local f ->
  1 <= f_use_count f -> fdb_lookup s (f_addr f) None ->
  hash_wf (link_new e f s).
Proof.
  intros W -> La St U No.
  assert (k_fdbs s !! k_next s = None) as Nf.
  { destruct (k_fdbs s !! k_next s) eqn:E; [|done].
    pose proof (hw_fresh _ W (k_next s) (mk_is_Some _ _ E)). lia. }
  split.
  - cbn. rewrite length_insert. apply W.
  - intros i. rewrite bucket_new by apply W. case_decide; [|apply W].
    apply NoDup_cons. split; [|apply W]. intros He.
    destruct (hw_entry _ W _ _ He) as (f' & E & _). congruence.
  - intros i e. rewrite bucket_new by apply W. cbn.
    assert (e ∈ default [] (b_hash (k_br s) !! i) ->
      exists f0, <[k_next s := f]> (k_fdbs s) !! e = Some f0 /\ i = bucket (f_addr f0) /\
        length (f_addr f0) = 6%nat /\ f_is_static f0 = f_is_local f0 /\ 1 <= f_use_count f0) as Old.
    { intros He. destruct (hw_entry _ W _ _ He) as (f' & E & R). exists f'.
      rewrite lookup_insert_ne by congruence. done. }
    case_decide; [|apply Old]. intros [->|He]%elem_of_cons; [|by apply Old].
    exists f. by rewrite lookup_insert_eq.
  - intros e e' g g'. rewrite !linked_new by done.
    intros [[-> ->]|L] [[-> ->]|L'] A; try done.
    + exfalso. by eapply No.
    + exfalso. by eapply No.
    + by eapply (hw_uniq _ W).
  - cbn. intros e [x Hx]. destruct (decide (e = k_next s)) as [->|N]; [lia|].
    rewrite lookup_insert_ne in Hx by done.
    pose proof (hw_fresh _ W e (mk_is_Some _ _ Hx)). lia.
Qed.

(** ** Insertion *)
Definition updated (src : ptr) (loc now : Z) (f : net_bridge_fdb_entry) : net_bridge_fdb_entry :=
  f <| f_dst := src |> <| f_is_local := loc |> <| f_is_static := loc |> <| f_ageing_timer := now |>.

Lemma fdb_update_spec s e f src loc :
  k_fdbs s !! e = Some f -> nodes_live s (b_age_list (k_br s)) ->
  wp (fdb_update e src loc) (fun _ s' =>
    k_fdbs s' = <[e := updated src loc (k_jiffies s) f]> (k_fdbs s) /\
    b_hash (k_br s') = b_hash (k_br s) /\ k_next s' = k_next s /\ fdb_frame s s' /\
    b_age_list (k_br s') =
      (if truth loc then b_age_list (k_br s) else b_age_list (k_br s) ++ [e])) s.
Proof.
  intros E H. unfold fdb_update. apply wp_bind, wp_jiffies.
  apply wp_bind. eapply wp_fdb_set; [done|].
  apply wp_when; intros Hl.
  - apply wp_age_list_add_tail.
    { intros x [g Hx]%H. cbn. destruct (decide (x = e)) as [->|];
        [rewrite lookup_insert_eq|rewrite lookup_insert_ne by done]; eauto. }
    apply negb_true_iff in Hl. rewrite Hl. split_and!; done.
  - apply negb_false_iff in Hl. rewrite Hl. split_and!; done.
Qed.

(** The abstract operation: a local entry is never displaced by learning. *)
Definition insert_spec (old : option (ptr * Z)) (src : ptr) (loc ret : Z)
    (new : option (ptr * Z)) : Prop :=
  match old with
  | Some (_, l) =>
      if truth l then ret = (if truth loc then 0 else - EEXIST) /\ new = old
      else ret = 0 /\ new = Some (src, loc)
  | None => (ret = 0 /\ new = Some (src, loc)) \/ (ret = ENOMEM /\ new = None)
  end.

(** [s'] maps [a] to [new], and every other address as [s] does. *)
Definition maps_to (s s' : kst) (a : list Z) (new : option (ptr * Z)) : Prop :=
  fdb_lookup s' a new /\ forall a' v, a' <> a -> fdb_lookup s a' v -> fdb_lookup s' a' v.

Lemma maps_to_same s s' a v :
  (forall e f, linked s' e f <-> linked s e f) -> fdb_lookup s a v -> maps_to s s' a v.
Proof.
  intros H L. assert (forall a v, fdb_lookup s a v -> fdb_lookup s' a v) as K.
  { intros a' [[d l]|]; simpl; setoid_rewrite H; done. }
  split; auto.
Qed.

(** The table after an entry for [a] was given new contents. *)
Lemma maps_to_set s s' e f1 a :
  f_addr f1 = a ->
  (forall e' f', linked s' e' f' <-> (e' = e /\ f' = f1) \/ (e' <> e /\ linked s e' f')) ->
  (forall f', linked s e f' -> f_addr f' = a) ->
  maps_to s s' a (Some (f_dst f1, f_is_local f1)).
Proof.
  intros A H N. split.
  - exists e, f1. rewrite H. naive_solver.
  - intros a' [[d l]|] Ha; simpl; setoid_rewrite H.
    + intros (e' & f' & L & A' & R). exists e', f'. split; [|done]. right. split; [|done].
      intros ->. apply Ha. rewrite <- A'. eauto.
    + intros K e' f' [[-> ->]|[_ L]]; [congruence|eauto].
Qed.

Lemma linked_upd s s' e f f1 :
  linked s e f -> k_fdbs s' = <[e := f1]> (k_fdbs s) -> b_hash (k_br s') = b_hash (k_br s) ->
  forall e' f', linked s' e' f' <-> (e' = e /\ f' = f1) \/ (e' <> e /\ linked s e' f').
Proof.
  intros L K B e' f'.
  rewrite (linked_ext (s <| k_fdbs := <[e := f1]> (k_fdbs s) |>) s') by done.
  rewrite (linked_update s e f f1) by apply L. naive_solver.
Qed.

Lemma linked_now s e f f' : linked s e f -> linked s e f' -> f' = f.
Proof. intros [H _] [H' _]. congruence. Qed.

(** Refreshing or re-homing the entry found for [a]. *)
Lemma insert_found s s1 e f src loc a :
  hash_wf s -> dst_wf s -> live s src -> linked s e f -> f_addr f = a ->
  b_hash (k_br s1) = b_hash (k_br s) -> k_fdbs s1 = k_fdbs s -> k_next s1 = k_next s ->
  fdb_frame s s1 -> nodes_live s1 (b_age_list (k_br s1)) ->
  wp (fdb_update e src loc;; ret 0) (fun r s' =>
    hash_wf s' /\ dst_wf s' /\ fdb_frame s s' /\ r = 0 /\ maps_to s s' a (Some (src, loc))) s1.
Proof.
  intros W D Ls L A E1 E2 E3 F Al. apply wp_bind.
  eapply wp_mono; [eapply (fdb_update_spec s1 e f); [rewrite E2; apply L|done]|]. cbv beta.
  intros _ s' (K & B & N & F' & _). rewrite E2 in K. rewrite E1 in B. rewrite E3 in N.
  pose proof (linked_upd s s' e f _ L K B) as U. apply wp_ret. split_and!; try done.
  - apply (hash_wf_ext (s <| k_fdbs := <[e := updated src loc (k_jiffies s1) f]> (k_fdbs s) |>));
      [done..|]. destruct L as [Lf [i Hi]].
    destruct (hw_entry _ W i e Hi) as (f' & E' & _ & _ & _ & C). simplify_eq.
    by eapply hash_wf_update.
  - assert (forall p, live s p -> live s' p) as Lv.
    { intros p. unfold live. by rewrite (ff_ports _ _ F'), (ff_ports _ _ F). }
    intros e' f' [[-> ->]|[_ H]]%U; apply Lv; [done|by eapply D].
  - by etrans.
  - apply (maps_to_set s s' e _ a) in U; [done|done|].
    intros f' L'. by rewrite (linked_now s e f f').
Qed.

Lemma fdb_insert_new_run s src a loc :
  hash_wf s -> nodes_live s (b_age_list (k_br s)) ->
  let f := {| f_dst := 0%nat; f_use_count := 1; f_ageing_timer := 0; f_addr := a;
              f_is_local := 0; f_is_static := 0 |} in
  wp (fdb_insert_new src a loc) (fun r s' => r = 0 /\
    k_fdbs s' = <[k_next s := updated src loc (k_jiffies s) f]> (k_fdbs s) /\
    b_hash (k_br s') = b_hash (k_br (link_new (k_next s) f s)) /\ k_next s' = S (k_next s) /\
    fdb_frame s s' /\
    b_age_list (k_br s') =
      (if truth loc then b_age_list (k_br s) else b_age_list (k_br s) ++ [k_next s])) s.
Proof.
  intros W Al f. assert (forall l, nodes_live s l -> nodes_live (link_new (k_next s) f s) l) as Lv.
  { intros l H x [g Hx]%H. cbn. destruct (decide (x = k_next s)) as [->|];
      [rewrite lookup_insert_eq|rewrite lookup_insert_ne by done]; eauto. }
  unfold fdb_insert_new, fresh. wp_steps.
  apply wp_hlist_add_head_rcu; [apply (Lv (hash_chain (br_mac_hash a) (k_br s))); by apply chain_live|].
  wp_steps. apply wp_br_get. wp_steps. apply wp_jiffies. wp_steps.
  all: try apply wp_br_set.
  all: wp_steps; eapply wp_mono; [apply (fdb_update_spec _ (k_next s) f);
    [cbn; apply lookup_insert_eq|by apply (Lv (b_age_list (k_br s)))]|].
  all: cbv beta; intros _ s' (K & B & N & F & G); apply wp_ret.
  all: split_and!; [done|by rewrite K; cbn; rewrite insert_insert_eq|done|done| |done].
  all: etrans; [|exact F]; split; try done; cbn; lia.
Qed.

Lemma insert_new s s1 src a loc :
  hash_wf s -> dst_wf s -> live s src -> length a = 6%nat -> fdb_lookup s a None ->
  b_hash (k_br s1) = b_hash (k_br s) -> k_fdbs s1 = k_fdbs s -> k_next s1 = k_next s ->
  fdb_frame s s1 -> nodes_live s1 (b_age_list (k_br s1)) ->
  wp (fdb_insert_new src a loc) (fun r s' =>
    hash_wf s' /\ dst_wf s' /\ fdb_frame s s' /\ r = 0 /\ maps_to s s' a (Some (src, loc))) s1.
Proof.
  intros W D Ls La No E1 E2 E3 F Al.
  eapply wp_mono; [apply fdb_insert_new_run; [by apply (hash_wf_ext s)|done]|]. cbv beta zeta.
  set (f := {| f_dst := _ |}). intros r s' (-> & K & B & N & F' & _).
  set (f1 := updated src loc (k_jiffies s1) f) in *.
  assert (K' : k_fdbs s' = k_fdbs (link_new (k_next s) f1 s)) by (rewrite K, E3, E2; done).
  assert (B' : b_hash (k_br s') = b_hash (k_br (link_new (k_next s) f1 s))).
  { rewrite B. cbn. unfold hash_chain. by rewrite E3, E1. }
  pose proof (linked_new s (k_next s) f1) as U.
  assert (H : forall e' f', linked s' e' f' <-> (e' = k_next s /\ f' = f1) \/ linked s e' f').
  { intros e' f'. by rewrite (linked_ext _ _ e' f' B' K'), U. }
  assert (forall f', ~ linked s (k_next s) f') as Nl.
  { intros f' [E _]. pose proof (hw_fresh _ W _ (mk_is_Some _ _ E)). lia. }
  split_and!; try done.
  - apply (hash_wf_ext (link_new (k_next s) f1 s)); [done|done|cbn; congruence|].
    by apply hash_wf_new.
  - assert (forall p, live s p -> live s' p) as Lv.
    { intros p. unfold live. by rewrite (ff_ports _ _ F'), (ff_ports _ _ F). }
    intros e' f' [[-> ->]|L]%H; apply Lv; [done|by eapply D].
  - by etrans.
  - apply (maps_to_set s s' (k_next s) f1 a); [done| |intros f' []%Nl].
    intros e' f'. rewrite H. split; [|naive_solver]. intros [|L]; [by left|]. right.
    split; [|done]. intros ->. by eapply Nl.
Qed.

Theorem fdb_insert_refines s src a loc old :
  hash_wf s -> age_live s -> dst_wf s -> live s src -> length a = 6%nat -> is_valid_ether_addr a = true ->
  fdb_lookup s a old ->
  wp (fdb_insert src a loc) (fun r s' =>
    hash_wf s' /\ dst_wf s' /\ fdb_frame s s' /\
    exists new, insert_spec old src loc r new /\ maps_to s s' a new) s.
Proof.
  intros W Al D Ls La V Old. pose proof (al_live _ Al) as Av. unfold fdb_insert. rewrite V. simpl.
  apply wp_bind, wp_br_get, wp_bind.
  eapply wp_mono; [by apply find_chain_spec|]. cbv beta. intros [e|] s1 [-> H].
  - destruct H as (f & L & A). apply wp_bind, wp_fdb_get with f; [apply L|].
    assert (old = Some (f_dst f, f_is_local f)) as ->.
    { eapply fdb_lookup_fun; [done..|]. exists e, f. done. }
    simpl. destruct (truth (f_is_local f)) eqn:Lo.
    { assert (forall r, r = (if truth loc then 0 else - EEXIST) ->
        hash_wf s /\ dst_wf s /\ fdb_frame s s /\ exists new,
          (r = (if truth loc then 0 else - EEXIST) /\ new = Some (f_dst f, f_is_local f)) /\
          maps_to s s a new) as Done.
      { intros r Hr. split_and!; [done..|]. eexists. split; [done|]. by apply maps_to_same. }
      destruct (truth loc) eqn:Ll; apply wp_ret, Done; done. }
    destruct (truth loc) eqn:Ll.
    { eapply wp_mono; [by eapply insert_found|]. cbv beta.
      intros r s' (W' & D' & F' & -> & M'). split_and!; eauto. }
    pose proof L as [Lf [i Hi]]. destruct (hw_entry _ W i e Hi) as (f' & E' & _ & _ & S & _).
    simplify_eq. rewrite S, Lo. apply wp_bind, wp_age_list_del; [done|by eapply (al_on _ Al); [|rewrite S]|].
    eapply wp_mono; [eapply (insert_found s); try done; by intros x [_ Hx%Av]%list_elem_of_filter|]. cbv beta.
    intros r s' (W' & D' & F' & -> & M'). split_and!; eauto.
  - assert (old = None) as -> by (by eapply fdb_lookup_fun).
    apply wp_bind. apply wp_alloc_ok.
    + intros b l. destruct b; simpl.
      * eapply wp_mono; [by apply (insert_new s)|]. cbv beta.
        intros r s' (W' & D' & F' & -> & M'). split_and!; [done..|]. exists (Some (src, loc)).
        split; [by left|done].
      * apply wp_ret. split_and!; try done; [by apply (hash_wf_ext s)|].
        exists None. split; [by right|]. by apply maps_to_same.
    + simpl. eapply wp_mono; [by apply (insert_new s)|]. cbv beta.
      intros r s' (W' & D' & F' & -> & M'). split_and!; [done..|]. exists (Some (src, loc)).
      split; [by left|done].
Qed.
