(* ===== verification/BridgeFdbAge.v ===== *)
(** * Ageing and deletion of forwarding entries *)
From S2P Require Import Prelude LibString BridgeData BridgeBpdu BridgeStp BridgeTimer.
From S2P Require Import BridgeStpIf BridgeWf BridgeFdb BridgeFdbSpec.

(** The age list holds the linked entries that are not static, once each. *)
Record age_wf (s : kst) : Prop := {
  aw_nodup : NoDup (b_age_list (k_br s));
  aw_iff : forall e, e ∈ b_age_list (k_br s) <->
    exists f, linked s e f /\ truth (f_is_static f) = false }.

Lemma age_wf_live s : age_wf s -> age_live s.
Proof.
  intros A. split.
  - intros e (f & [E _] & _)%(aw_iff _ A). by exists f.
  - intros e f L S. apply (aw_iff _ A). eauto.
Qed.

(** The address is not in the table, or belongs to a port. *)
Definition unlearned (s : kst) (a : list Z) : Prop :=
  forall e f, linked s e f -> f_addr f = a -> truth (f_is_local f) = true.

Lemma elem_unlink e e' l : e' ∈ unlink e l <-> e' <> e /\ e' ∈ l.
Proof. unfold unlink. by rewrite list_elem_of_filter. Qed.

Lemma unlink_notin e l : e ∉ l -> unlink e l = l.
Proof.
  intros H. unfold unlink. induction l as [|x l IH]; [done|].
  apply not_elem_of_cons in H as [N H]. rewrite filter_cons_True by done. f_equal. by apply IH.
Qed.

Lemma unlink_head e l : NoDup (e :: l) -> unlink e (e :: l) = l.
Proof.
  intros [H _]%NoDup_cons. unfold unlink. rewrite filter_cons_False by naive_solver.
  by apply unlink_notin.
Qed.

Lemma NoDup_unlink e l : NoDup l -> NoDup (unlink e l).
Proof. unfold unlink. apply NoDup_filter. Qed.

Lemma bucket_unlink e (h : list (list ptr)) i :
  default [] ((unlink e <$> h) !! i) = unlink e (default [] (h !! i)).
Proof. rewrite list_lookup_fmap. by destruct (h !! i). Qed.

Lemma linked_delete s s' e :
  b_hash (k_br s') = (unlink e <$> b_hash (k_br s)) ->
  (forall e', e' <> e -> k_fdbs s' !! e' = k_fdbs s !! e') ->
  forall e' f', linked s' e' f' <-> e' <> e /\ linked s e' f'.
Proof.
  intros B K e' f'. unfold linked. rewrite B. setoid_rewrite bucket_unlink.
  setoid_rewrite elem_unlink. split.
  - intros (E & i & N & Hi). rewrite K in E by done. eauto.
  - intros (N & E & i & Hi). rewrite K by done. eauto.
Qed.

Lemma hash_wf_delete s s' e :
  hash_wf s -> b_hash (k_br s') = (unlink e <$> b_hash (k_br s)) ->
  (forall e', e' <> e -> k_fdbs s' !! e' = k_fdbs s !! e') ->
  (forall e', is_Some (k_fdbs s' !! e') -> is_Some (k_fdbs s !! e')) ->
  k_next s' = k_next s -> hash_wf s'.
Proof.
  intros W B K Sub N. pose proof (linked_delete s s' e B K) as L. split.
  - rewrite B, length_fmap. apply W.
  - intros i. rewrite B, bucket_unlink. apply NoDup_unlink, W.
  - intros i e'. rewrite B, bucket_unlink, elem_unlink. intros [Ne He].
    rewrite K by done. by apply (hw_entry _ W).
  - intros a b f g [_ H1]%L [_ H2]%L. by eapply (hw_uniq _ W).
  - intros e' H. rewrite N. by apply (hw_fresh _ W), Sub.
Qed.

Lemma fdb_delete_spec s e f :
  hash_wf s -> age_live s -> linked s e f ->
  wp (fdb_delete e) (fun _ s' =>
    hash_wf s' /\ fdb_frame s s' /\
    (forall e' f', linked s' e' f' <-> e' <> e /\ linked s e' f') /\
    b_age_list (k_br s') =
      (if truth (f_is_static f) then b_age_list (k_br s) else unlink e (b_age_list (k_br s)))) s.
Proof.
  intros W Al Le. destruct (Le) as [E Hi]. unfold fdb_delete, br_fdb_put.
  apply wp_bind, wp_fdb_get with f; [done|]. apply wp_bind, (wp_hlist_del_rcu s e f); [done..|].
  set (s1 := s <| k_br := _ |>).
  assert (wp (when (negb (truth (f_is_static f))) (age_list_del e))
    (fun _ s2 => k_fdbs s2 = k_fdbs s /\ b_hash (k_br s2) = (unlink e <$> b_hash (k_br s)) /\
       k_next s2 = k_next s /\ fdb_frame s s2 /\ b_age_list (k_br s2) =
      (if truth (f_is_static f) then b_age_list (k_br s) else unlink e (b_age_list (k_br s)))) s1) as G.
  { apply wp_when; intros Hs.
    - apply negb_true_iff in Hs. rewrite Hs.
      apply wp_age_list_del; [apply (al_live _ Al)|by apply (al_on _ Al e f)|]. split_and!; done.
    - apply negb_false_iff in Hs. rewrite Hs. split_and!; done. }
  apply wp_bind. eapply wp_mono; [exact G|]. cbv beta. clear G s1.
  intros _ s2 (K2 & B2 & N2 & F2 & A2).
  apply wp_bind, wp_fdb_get with f; [by rewrite K2|].
  apply wp_bind. eapply wp_fdb_set; [by rewrite K2|].
  assert (forall s3, (forall e', e' <> e -> k_fdbs s3 !! e' = k_fdbs s !! e') ->
    (forall e', is_Some (k_fdbs s3 !! e') -> is_Some (k_fdbs s !! e')) ->
    k_br s3 = k_br s2 -> k_next s3 = k_next s -> fdb_frame s2 s3 ->
    hash_wf s3 /\ fdb_frame s s3 /\
    (forall e' f', linked s3 e' f' <-> e' <> e /\ linked s e' f') /\
    b_age_list (k_br s3) =
      (if truth (f_is_static f) then b_age_list (k_br s) else unlink e (b_age_list (k_br s)))) as Done.
  { intros s3 K Sub B N F. split_and!.
    - apply (hash_wf_delete s s3 e W); [by rewrite B|done..].
    - by etrans.
    - apply (linked_delete s s3 e); [by rewrite B|done].
    - by rewrite B. }
  apply wp_when; intros Hc; [apply wp_modify|]; apply Done; try done; cbn; rewrite ?K2.
  - intros e' Ne. rewrite lookup_delete_ne, lookup_insert_ne; done.
  - intros e' [x Hx]. apply lookup_delete_Some in Hx as [Ne Hx].
    rewrite lookup_insert_ne in Hx by done. eauto.
  - intros e' Ne. by rewrite lookup_insert_ne.
  - intros e' [x Hx]. destruct (decide (e' = e)) as [->|Ne]; [eauto|].
    rewrite lookup_insert_ne in Hx by done. eauto.
Qed.

Lemma age_wf_delete s s' e f :
  age_wf s -> linked s e f ->
  (forall e' f', linked s' e' f' <-> e' <> e /\ linked s e' f') ->
  b_age_list (k_br s') =
    (if truth (f_is_static f) then b_age_list (k_br s) else unlink e (b_age_list (k_br s))) ->
  age_wf s'.
Proof.
  intros A L H B. destruct (truth (f_is_static f)) eqn:St; split; rewrite B.
  - apply A.
  - intros e'. rewrite (aw_iff _ A). setoid_rewrite H. split; [|naive_solver].
    intros (f' & L' & S'). exists f'. split; [|done]. split; [|done]. intros ->.
    rewrite (linked_now s e f f') in S'; congruence.
  - apply NoDup_unlink, A.
  - intros e'. rewrite elem_unlink, (aw_iff _ A). setoid_rewrite H. naive_solver.
Qed.

(** ** Garbage collection

    [delay] is the current hold time; the collector deletes the longest prefix
    of the age list whose entries have all outlived it. *)
Definition aged (s : kst) (delay : Z) (e : ptr) : Prop :=
  exists f, k_fdbs s !! e = Some f /\
    time_before_eq (u32 (f_ageing_timer f + delay)) (k_jiffies s) = true.

Definition collected (s s' : kst) (delay : Z) (l old rest : list ptr) : Prop :=
  l = old ++ rest /\ b_age_list (k_br s') = rest /\
  Forall (aged s delay) old /\
  (forall e f, linked s' e f <-> linked s e f /\ e ∉ old) /\
  match rest with
  | [] => True
  | e :: _ => ~ aged s delay e /\ exists f, k_fdbs s !! e = Some f /\
      b_gc_timer (k_br s') = {| t_pending := true; t_expires := u32 (f_ageing_timer f + delay) |}
  end.

Lemma fdb_cleanup_loop_spec delay l s :
  hash_wf s -> age_wf s -> b_age_list (k_br s) = l ->
  wp (fdb_cleanup_loop delay l) (fun _ s' =>
    hash_wf s' /\ age_wf s' /\ fdb_frame s s' /\
    exists old rest, collected s s' delay l old rest) s.
Proof.
  revert s. induction l as [|e l IH]; intros s W A El; simpl.
  - apply wp_ret. split_and!; [done..|]. exists [], []. split_and!; try done. set_solver.
  - destruct (proj1 (aw_iff _ A e)) as (f & L & St); [rewrite El; set_solver|].
    apply wp_bind, wp_fdb_get with f; [apply L|]. apply wp_bind, wp_jiffies.
    destruct (time_before_eq _ _) eqn:T.
    + apply wp_bind. eapply wp_mono; [by eapply fdb_delete_spec; [|apply age_wf_live|]|]. cbv beta.
      intros _ s1 (W1 & F1 & L1 & A1). rewrite St in A1.
      assert (NoDup (e :: l)) as ND by (rewrite <- El; apply A).
      pose proof (unlink_head e l ND) as U. apply NoDup_cons in ND as [Ne Nl].
      assert (forall e' f', e' <> e -> linked s e' f' -> k_fdbs s1 !! e' = k_fdbs s !! e') as K.
      { intros e' f' N H. destruct (proj2 (L1 e' f')) as [K _]; [done|].
        rewrite K. symmetry. apply H. }
      eapply wp_mono; [apply IH; [done| |by rewrite A1, El]|].
      { eapply (age_wf_delete s s1 e f); try done. by rewrite St. }
      cbv beta. intros _ s2 (W2 & A2 & F2 & old & rest & -> & B & O & L2 & R).
      split_and!; [done|done|by etrans|].
      assert (forall x, x ∈ old ++ rest -> exists g, linked s x g /\ x <> e) as Sub.
      { intros x Hx. destruct (proj1 (aw_iff _ A x)) as (g & Lg & _); [rewrite El; set_solver|].
        exists g. split; [done|]. intros ->. done. }
      assert (forall x, x ∈ old ++ rest -> aged s1 delay x <-> aged s delay x) as Ag.
      { intros x Hx. destruct (Sub x Hx) as (g & Lg & N). unfold aged.
        by rewrite (K x g N Lg), (ff_now _ _ F1). }
      exists (e :: old), rest. split_and!; [done|done| | |].
      * constructor; [by exists f; split; [apply L|]|].
        rewrite Forall_forall in *. intros x Hx. apply Ag; [set_solver|auto].
      * intros e' f'. rewrite L2, L1, not_elem_of_cons. tauto.
      * destruct rest as [|x rest]; [done|]. rewrite Ag in R by set_solver.
        destruct R as (NA & g & Eg & G). split; [done|]. exists g. split; [|done].
        destruct (Sub x) as (h & Lh & N); [set_solver|]. by rewrite <- (K x h).
    + apply wp_br_set. split_and!.
      * by apply (hash_wf_ext s).
      * split; [apply A|]. intros e'. rewrite (aw_iff _ A). done.
      * by split.
      * exists [], (e :: l). split_and!; try done; [set_solver| |destruct L as [E _]; by exists f].
        destruct L as [E _].
        intros (f' & E' & T'). simplify_eq. congruence.
Qed.

Lemma br_fdb_cleanup_spec s :
  hash_wf s -> age_wf s ->
  wp br_fdb_cleanup (fun _ s' =>
    hash_wf s' /\ age_wf s' /\ fdb_frame s s' /\
    exists old rest, collected s s' (hold_time (k_br s)) (b_age_list (k_br s)) old rest) s.
Proof.
  intros W A. unfold br_fdb_cleanup. apply wp_bind, wp_br_get. by apply fdb_cleanup_loop_spec.
Qed.

(** ** Lookup *)
Lemma br_fdb_get_spec s a :
  hash_wf s -> length a = 6%nat ->
  wp (__br_fdb_get a) (fun r s' => s' = s /\
    match r with
    | Some e => exists f, linked s e f /\ f_addr f = a /\ has_expired (k_br s) (k_jiffies s) f = false
    | None => forall e f, linked s e f -> f_addr f = a -> has_expired (k_br s) (k_jiffies s) f = true
    end) s.
Proof.
  intros W La. unfold __br_fdb_get. apply wp_bind, wp_br_get, wp_bind, wp_jiffies, wp_bind.
  eapply wp_mono; [by apply find_chain_spec|]. cbv beta. intros [e|] s1 [-> H].
  - destruct H as (f & L & A). apply wp_bind, wp_fdb_get with f; [apply L|].
    change (id (k_br s)) with (k_br s). destruct (has_expired _ _ f) eqn:X; apply wp_ret.
    + split; [done|]. intros e' f' L' A'. assert (e' = e) as -> by (eapply hw_uniq; eauto; congruence).
      by rewrite (linked_now s e f f').
    + split; [done|]. eauto.
  - apply wp_ret. split; [done|]. intros e f L A. by destruct (H e f L).
Qed.

(** ** Removing a port *)
Lemma find_other_port_spec s p a l :
  ports_wf s -> (forall q, q ∈ l -> live s q) ->
  wp (find_other_port p a l) (fun r s' => s' = s /\
    match r with Some op => op ∈ l /\ op <> p | None => True end) s.
Proof.
  intros W. induction l as [|q l IH]; intros Ll; simpl; [by apply wp_ret|].
  destruct (Nat.eqb_spec q p) as [->|N].
  - eapply wp_mono; [apply IH; set_solver|]. cbv beta. intros [op|] s' [-> H]; set_solver.
  - apply wp_bind, wp_port_get; [apply Ll; set_solver|]. intros qq Eq.
    destruct (wf_pdev _ W _ _ Eq) as (dev & Hd & _).
    apply wp_bind, wp_dev_get; [eauto|]. intros dev' _. destruct (_ =? 0).
    + apply wp_ret. set_solver.
    + eapply wp_mono; [apply IH; set_solver|]. cbv beta. intros [op|] s' [-> H]; set_solver.
Qed.

(** Two nested loops over the chains are one loop over the table. *)
Lemma for_each_concat {A} (ll : list (list A)) (body : A -> M kst unit) Q s :
  wp (for_each (concat ll) body) Q s <-> wp (for_each ll (fun l => for_each l body)) Q s.
Proof.
  revert s. induction ll as [|l ll IH]; intros s; simpl; [done|].
  unfold wp at 2, bind. rewrite <- (app_nil_r l) at 1. clear -IH.
  revert s. induction l as [|x l IHl]; intros s; simpl.
  - apply IH.
  - unfold wp, bind. destruct (body x s) as [[[] s']|]; [|done]. apply IHl.
Qed.

Lemma elem_concat {A} (ll : list (list A)) x : x ∈ concat ll <-> exists i, x ∈ default [] (ll !! i).
Proof.
  induction ll as [|l ll IH]; simpl.
  - split; [set_solver|]. intros [[] H]; set_solver.
  - rewrite elem_of_app, IH. split.
    + intros [H|[i H]]; [by exists 0%nat|by exists (S i)].
    + intros [[|i] H]; [by left|right; by exists i].
Qed.

Lemma NoDup_concat {A} (ll : list (list A)) :
  (forall i, NoDup (default [] (ll !! i))) ->
  (forall i j x, x ∈ default [] (ll !! i) -> x ∈ default [] (ll !! j) -> i = j) ->
  NoDup (concat ll).
Proof.
  induction ll as [|l ll IH]; intros N D; simpl; [constructor|].
  apply NoDup_app. split_and!.
  - apply (N 0%nat).
  - intros x H [i Hi]%elem_concat. by specialize (D 0%nat (S i) x H Hi).
  - apply IH; [intros i; apply (N (S i))|]. intros i j x Hi Hj.
    specialize (D (S i) (S j) x Hi Hj). congruence.
Qed.

Lemma hash_nodup s : hash_wf s -> NoDup (concat (b_hash (k_br s))).
Proof.
  intros W. apply NoDup_concat; [apply W|]. intros i j e Hi Hj.
  destruct (hw_entry _ W i e Hi) as (f & E & -> & _).
  destruct (hw_entry _ W j e Hj) as (f' & E' & -> & _). congruence.
Qed.

Lemma linked_concat s e : hash_wf s -> e ∈ concat (b_hash (k_br s)) <-> exists f, linked s e f.
Proof.
  intros W. rewrite elem_concat. split.
  - intros [i Hi]. destruct (hw_entry _ W i e Hi) as (f & E & _). exists f. by split; [|exists i].
  - by intros (f & _ & H).
Qed.

Lemma ports_wf_fdb s s' : fdb_frame s s' -> ports_wf s -> ports_wf s'.
Proof.
  intros F W. destruct F as [E1 E2 _ _ E3 E4 _ _ _ _ E5], W.
  split; unfold live in *; rewrite ?E1, ?E2, ?E3, ?E4; try done.
  intros p H. eapply Nat.lt_le_trans; eauto.
Qed.

Lemma live_fdb s s' p : fdb_frame s s' -> live s p <-> live s' p.
Proof. intros F. unfold live. by rewrite (ff_ports _ _ F). Qed.

(** The invariant of the loop of [br_fdb_delete_by_port]: only entries still to
    be visited forward to [p]. *)
Record purging (s0 : kst) (p : ptr) (todo : list ptr) (s : kst) : Prop := {
  pu_hash : hash_wf s;
  pu_age : age_wf s;
  pu_dst : dst_wf s;
  pu_frame : fdb_frame s0 s;
  pu_todo : forall e f, linked s e f -> f_dst f = p -> e ∈ todo;
  pu_linked : forall e, e ∈ todo -> exists f, linked s e f }.

Lemma purging_skip s0 p e f todo s :
  purging s0 p (e :: todo) s -> linked s e f -> f_dst f <> p -> purging s0 p todo s.
Proof.
  intros [W A D F T L] Le N. split; [done..| |set_solver].
  intros e' f' L' D'. pose proof (T e' f' L' D') as [->|]%elem_of_cons; [|done].
  by rewrite (linked_now s e f f') in D'.
Qed.

(** Rewriting an entry that stays as static as it was. *)
Lemma age_wf_set s e f f1 :
  age_wf s -> linked s e f -> f_is_static f1 = f_is_static f ->
  age_wf (s <| k_fdbs := <[e := f1]> (k_fdbs s) |>).
Proof.
  intros A L St. pose proof (linked_upd s (s <| k_fdbs := <[e := f1]> (k_fdbs s) |>) e f f1 L eq_refl eq_refl) as U.
  split; [apply A|]. intros e'. cbn [k_br upd]. setoid_rewrite U.
  change (b_age_list (k_br (s <| k_fdbs := <[e := f1]> (k_fdbs s) |>))) with (b_age_list (k_br s)).
  rewrite (aw_iff _ A). split.
  - intros (g & Lg & Sg). destruct (decide (e' = e)) as [->|N]; [|eauto].
    exists f1. split; [by left|]. rewrite (linked_now s e f g L Lg) in Sg. congruence.
  - intros (g & [[-> ->]|[_ Lg]] & Sg); [|eauto]. exists f. split; [done|]. congruence.
Qed.

Lemma purging_move s0 p e f op todo s :
  purging s0 p (e :: todo) s -> linked s e f -> e ∉ todo -> live s op -> op <> p ->
  purging s0 p todo (s <| k_fdbs := <[e := f <| f_dst := op |>]> (k_fdbs s) |>).
Proof.
  intros [W A D F T L] Le Ne Lo N. set (f1 := f <| f_dst := op |>).
  pose proof (age_wf_set s e f f1 A Le eq_refl) as A1.
  pose proof (linked_upd s (s <| k_fdbs := <[e := f1]> (k_fdbs s) |>) e f f1 Le eq_refl eq_refl) as U.
  destruct Le as [E [i Hi]]. destruct (hw_entry _ W i e Hi) as (f' & E' & _ & _ & St & C).
  simplify_eq. split.
  - by eapply hash_wf_update.
  - done.
  - intros e' g [[-> ->]|[_ L']]%U; [done|by eapply D].
  - etrans; [done|]. by split.
  - intros e' g [[-> ->]|[N' L']]%U D'; [done|]. by pose proof (T e' g L' D') as [->|]%elem_of_cons.
  - intros e' He'. destruct (L e') as [g L']; [set_solver|]. exists g. apply U. right.
    split; [|done]. intros ->. done.
Qed.

Lemma purging_delete s0 p e f todo s :
  purging s0 p (e :: todo) s -> linked s e f -> e ∉ todo ->
  wp (fdb_delete e) (fun _ => purging s0 p todo) s.
Proof.
  intros [W A D F T L] Le Ne. eapply wp_mono; [by eapply fdb_delete_spec; [|apply age_wf_live|]|]. cbv beta.
  intros _ s2 (W2 & F2 & L2 & A2). split; [done|by eapply (age_wf_delete s s2 e f)| |by etrans| |].
  - intros e' f' [_ L']%L2. apply (live_fdb s s2 _ F2). by eapply D.
  - intros e' f' [N L']%L2 D'. by pose proof (T e' f' L' D') as [->|]%elem_of_cons.
  - intros e' He'. destruct (L e') as [f' L']; [set_solver|]. exists f'. apply L2.
    split; [|done]. intros ->. done.
Qed.

Lemma br_fdb_delete_by_port_spec s p :
  hash_wf s -> age_wf s -> dst_wf s -> ports_wf s ->
  wp (br_fdb_delete_by_port p) (fun _ => purging s p []) s.
Proof.
  intros W A D P. unfold br_fdb_delete_by_port. apply wp_bind, wp_br_get.
  change (id (k_br s)) with (k_br s). apply for_each_concat.
  apply (wp_for_each (fun _ rest => purging s p rest)).
  { split; [done..| |intros e; by apply linked_concat].
    intros e f L _. apply linked_concat; eauto. }
  intros dn e rest s1 El I.
  assert (e ∉ rest) as Ne.
  { pose proof (hash_nodup s W) as ND. rewrite El in ND.
    by apply NoDup_app in ND as (_ & _ & [? _]%NoDup_cons). }
  destruct (pu_linked _ _ _ _ I e) as [f L]; [set_solver|].
  apply wp_bind, wp_fdb_get with f; [apply L|].
  apply wp_when; intros Hd; [|apply Nat.eqb_neq in Hd; by eapply purging_skip].
  pose proof (pu_frame _ _ _ _ I) as F1.
  apply wp_bind. eapply (wp_mono _ (fun r s' => s' = s1 /\
    match r with Some op => op ∈ b_port_list (k_br s) /\ op <> p | None => True end)).
  { destruct (truth (f_is_local f)); [|by apply wp_ret].
    apply find_other_port_spec; [by eapply ports_wf_fdb|].
    intros q Hq. by apply (live_fdb s s1 _ F1), P. }
  cbv beta. intros [op|] s2 [-> H].
  - eapply wp_fdb_set; [apply L|]. eapply purging_move; try done.
    apply (live_fdb s s1 _ F1), P, H. apply H.
  - by eapply purging_delete.
Qed.

(** ** Insertion keeps the age list exact *)

(** Appending an entry that was not on the list. *)
Lemma age_wf_append s s' e f1 l :
  NoDup l -> e ∉ l -> b_age_list (k_br s') = l ++ [e] -> truth (f_is_static f1) = false ->
  (forall e' f', linked s' e' f' <-> (e' = e /\ f' = f1) \/ (e' <> e /\ linked s e' f')) ->
  (forall e', e' ∈ l <-> e' <> e /\ exists f, linked s e' f /\ truth (f_is_static f) = false) ->
  age_wf s'.
Proof.
  intros N Ne El St U H. split; rewrite El.
  - apply NoDup_app. split_and!; [done|set_solver|apply NoDup_singleton].
  - intros e'. rewrite elem_of_app, H, list_elem_of_singleton. setoid_rewrite U. split.
    + intros [(D & f & L & S)| -> ]; [exists f|exists f1]; eauto.
    + intros (f & [[-> ->]|[D L]] & S); [by right|left; eauto].
Qed.

Lemma age_wf_ext s s' :
  b_hash (k_br s') = b_hash (k_br s) -> k_fdbs s' = k_fdbs s ->
  b_age_list (k_br s') = b_age_list (k_br s) -> age_wf s -> age_wf s'.
Proof.
  intros E1 E2 E3 [N H]. split; rewrite E3; [done|]. intros e. rewrite H.
  by setoid_rewrite (linked_ext s s' _ _ E1 E2).
Qed.

Lemma insert_new_age s s1 src a loc :
  hash_wf s -> age_wf s -> fdb_lookup s a None -> length a = 6%nat ->
  b_hash (k_br s1) = b_hash (k_br s) -> k_fdbs s1 = k_fdbs s -> k_next s1 = k_next s ->
  b_age_list (k_br s1) = b_age_list (k_br s) ->
  wp (fdb_insert_new src a loc) (fun _ s' => age_wf s') s1.
Proof.
  intros W A No La E1 E2 E3 E4.
  eapply wp_mono; [apply fdb_insert_new_run; [by apply (hash_wf_ext s)|]|].
  { apply (al_live s1), age_wf_live. by apply (age_wf_ext s). }
  cbv beta zeta. set (f := {| f_dst := _ |}). intros r s' (-> & K & B & N & F' & G).
  set (f1 := updated src loc (k_jiffies s1) f) in *.
  assert (K' : k_fdbs s' = k_fdbs (link_new (k_next s) f1 s)) by (rewrite K, E3, E2; done).
  assert (B' : b_hash (k_br s') = b_hash (k_br (link_new (k_next s) f1 s))).
  { rewrite B. cbn. unfold hash_chain. by rewrite E3, E1. }
  assert (forall f', ~ linked s (k_next s) f') as Nl.
  { intros f' [E _]. pose proof (hw_fresh _ W _ (mk_is_Some _ _ E)). lia. }
  assert (forall e' f', linked s' e' f' <-> (e' = k_next s /\ f' = f1) \/ (e' <> k_next s /\ linked s e' f')) as U.
  { intros e' f'. rewrite (linked_ext _ _ e' f' B' K'), (linked_new s (k_next s) f1) by done.
    split; [|naive_solver]. intros [|L]; [by left|]. right. split; [|done]. intros ->. by eapply Nl. }
  rewrite E4, E3 in G. destruct (truth loc) eqn:Tl.
  - split; rewrite G; [apply A|]. intros e'. rewrite (aw_iff _ A). setoid_rewrite U. split.
    + intros (g & L & S). exists g. split; [|done]. right. split; [|done]. intros ->. by eapply Nl.
    + intros (g & [[-> ->]|[_ L]] & S); [|eauto]. cbn in S. congruence.
  - apply (age_wf_append s s' (k_next s) f1 (b_age_list (k_br s))); try done.
    + apply A.
    + intros (f' & L & _)%A. by eapply Nl.
    + intros e'. rewrite (aw_iff _ A). split; [|tauto]. intros H. split; [|done].
      intros ->. destruct H as (f' & L & _). by eapply Nl.
Qed.

Lemma fdb_insert_age s src a loc :
  hash_wf s -> age_wf s -> length a = 6%nat -> (truth loc = true -> unlearned s a) ->
  wp (fdb_insert src a loc) (fun _ s' => age_wf s') s.
Proof.
  intros W A La Ul. pose proof (age_wf_live _ A) as Al. unfold fdb_insert. destruct (negb _); [by apply wp_ret|].
  apply wp_bind, wp_br_get, wp_bind.
  eapply wp_mono; [by apply find_chain_spec|]. cbv beta. intros [e|] s1 [-> H].
  - destruct H as (f & L & Ea). apply wp_bind, wp_fdb_get with f; [apply L|].
    destruct (truth (f_is_local f)) eqn:Lo; [destruct (truth loc); by apply wp_ret|].
    destruct (truth loc) eqn:Tl; [by rewrite (Ul eq_refl e f L Ea) in Lo|].
    pose proof L as [Lf [i Hi]]. destruct (hw_entry _ W i e Hi) as (f' & E' & _ & _ & S & _).
    simplify_eq. rewrite S, Lo.
    apply wp_bind, wp_age_list_del; [apply Al|by eapply (al_on _ Al); [|rewrite S]|]. set (s1 := _ <| k_br := _ |>).
    apply wp_bind. eapply wp_mono; [apply (fdb_update_spec s1 e f); [done|]|].
    { intros x [_ Hx]%elem_unlink. by apply (al_live _ Al). }
    cbv beta. intros _ s' (K & B & _ & _ & G). apply wp_ret. rewrite Tl in G.
    apply (age_wf_append s s' e (updated src loc (k_jiffies s1) f) (unlink e (b_age_list (k_br s)))); try done.
    + apply NoDup_unlink, A.
    + by intros [? _]%elem_unlink.
    + by apply linked_upd with f.
    + intros e'. rewrite elem_unlink. by rewrite (aw_iff _ A).
  - apply wp_bind. apply wp_alloc_ok.
    + intros b l. destruct b; simpl; [by eapply (insert_new_age s)|]. apply wp_ret. by destruct A.
    + simpl. by eapply (insert_new_age s).
Qed.
