(* ===== verification/BridgePath.v ===== *)
(** * The data path: no oops, and where frames go *)
From S2P Require Import Prelude LibString BridgeData BridgeBpdu BridgeStp BridgeTimer.
From S2P Require Import BridgeStpIf BridgeWf BridgeSafe BridgeRoot BridgeHandlers BridgeFdb.
From S2P Require Import BridgeFdbSpec BridgeFdbAge BridgeForward.

Lemma hash_wf_frame s s' : frame s s' -> hash_wf s -> hash_wf s'.
Proof. intros F. apply hash_wf_ext; apply F. Qed.

Lemma age_wf_frame s s' : frame s s' -> age_wf s -> age_wf s'.
Proof. intros F. apply age_wf_ext; apply F. Qed.

Lemma dst_wf_frame s s' : frame s s' -> dst_wf s -> dst_wf s'.
Proof.
  intros F D e f L. eapply live_frame; [done|]. apply (D e f).
  by rewrite <- (linked_ext s s' e f (fr_hash _ _ F) (fr_fdbs _ _ F)).
Qed.

Section path.
Context (s0 : kst) (W : stp_wf s0).
Hint Resolve W : ok.

Lemma ok_up f : ok s0 (modify (fun s => s <| k_up := f s |>)).
Proof. intros s Hs. apply wp_modify. etrans; [done|]. split; by split. Qed.
Hint Resolve ok_up : ok.

Lemma br_dev_queue_push_xmit_ok skb :
  is_Some (k_devs s0 !! skb_dev skb) -> ok s0 (br_dev_queue_push_xmit skb).
Proof. intros L. unfold br_dev_queue_push_xmit. ok_steps. Qed.

Lemma __br_forward_ok p skb : live s0 p -> ok s0 (__br_forward p skb).
Proof.
  intros L. unfold __br_forward, br_forward_finish. ok_step.
  apply br_dev_queue_push_xmit_ok. cbn. by eapply wf_port_dev.
Qed.
Lemma __br_deliver_ok p skb : live s0 p -> ok s0 (__br_deliver p skb).
Proof.
  intros L. unfold __br_deliver, br_forward_finish. ok_step.
  apply br_dev_queue_push_xmit_ok. cbn. by eapply wf_port_dev.
Qed.
Hint Resolve __br_forward_ok __br_deliver_ok : ok.

Lemma br_forward_ok p skb : live s0 p -> ok s0 (br_forward p skb).
Proof. intros L. unfold br_forward. ok_steps. Qed.
Lemma br_deliver_ok p skb : live s0 p -> ok s0 (br_deliver p skb).
Proof. intros L. unfold br_deliver. ok_steps. Qed.

Lemma flood_loop_ok skb (hook : ptr -> sk_buff -> M kst unit) prev l :
  (forall p, live s0 p -> ok s0 (hook p skb)) ->
  (forall p, p ∈ l -> live s0 p) -> (forall q, prev = Some q -> live s0 q) ->
  ok s0 (flood_loop skb hook prev l).
Proof.
  intros Hh. revert prev. induction l as [|p l IH]; intros prev Hl Hp; simpl.
  - destruct prev as [q|]; [by apply Hh, Hp|apply ok_ret].
  - assert (live s0 p) by (apply Hl; set_solver).
    assert (ok s0 (flood_loop skb hook (Some p) l)) by (apply IH; [set_solver|naive_solver]).
    ok_step. ok_step; [|apply IH; set_solver]. destruct prev as [q|]; [|done].
    ok_step; [ok_step|]. ok_step.
    + apply ok_bind; [by apply Hh, Hp|done].
    + unfold br_count_dropped. ok_step.
Qed.

Lemma br_flood_ok skb clone (hook : ptr -> sk_buff -> M kst unit) :
  (forall p, live s0 p -> ok s0 (hook p skb)) -> ok s0 (br_flood skb clone hook).
Proof.
  intros Hh. unfold br_flood. ok_step; [ok_steps|]. ok_step; [unfold br_count_dropped; ok_step|].
  ok_step. apply flood_loop_ok; [done|apply W|done].
Qed.

Lemma br_flood_forward_ok skb clone : ok s0 (br_flood_forward skb clone).
Proof. apply br_flood_ok. auto with ok. Qed.
Lemma br_flood_deliver_ok skb clone : ok s0 (br_flood_deliver skb clone).
Proof. apply br_flood_ok. auto with ok. Qed.

Lemma br_pass_frame_up_ok skb : ok s0 (br_pass_frame_up skb).
Proof. unfold br_pass_frame_up. ok_steps. Qed.
Hint Resolve br_flood_forward_ok br_flood_deliver_ok br_pass_frame_up_ok : ok.

Context (H : hash_wf s0) (D : dst_wf s0).

(** A lookup followed by a use of the entry it found. *)
Lemma ok_lookup {B} a (k : option ptr -> M kst B) :
  length a = 6%nat -> ok s0 (k None) ->
  (forall e, (exists f, linked s0 e f) -> ok s0 (k (Some e))) ->
  ok s0 (bind (__br_fdb_get a) k).
Proof.
  intros La Hn Hs s Hss. apply wp_bind. pose proof (frame_eq_frame _ _ Hss) as F.
  eapply wp_mono; [apply br_fdb_get_spec; [by eapply hash_wf_frame|done]|]. cbv beta.
  intros [e|] s' [-> R]; [|by apply Hn]. destruct R as (f & L & _).
  apply Hs; [|done]. exists f. by rewrite <- (linked_ext s0 s e f (fr_hash _ _ F) (fr_fdbs _ _ F)).
Qed.

Lemma ok_bind_fdb {B} e f (k : net_bridge_fdb_entry -> M kst B) :
  linked s0 e f -> ok s0 (k f) -> ok s0 (bind (fdb_get e) k).
Proof.
  intros [E _] Hk s Hs. apply wp_bind, wp_fdb_get with f; [|by apply Hk].
  by rewrite (fr_fdbs _ _ (frame_eq_frame _ _ Hs)).
Qed.

Lemma br_dev_xmit_ok frm : (14 <= length frm)%nat -> ok s0 (br_dev_xmit frm).
Proof.
  intros Lf. unfold br_dev_xmit. ok_step; [ok_step|]. ok_step; [ok_step|]. cbv zeta.
  ok_step; [ok_step|]. apply ok_lookup; [rewrite length_take; lia|ok_step|].
  intros e [f L]. eapply ok_bind_fdb; [done|]. by eapply br_deliver_ok, D.
Qed.

Lemma br_handle_frame_finish_ok skb dev p :
  k_devs s0 !! skb_dev skb = Some dev -> d_br_port dev = Some p -> (12 <= length (skb_mac skb))%nat ->
  ok s0 (br_handle_frame_finish skb).
Proof.
  intros Ed Ep Lm s Hs. unfold br_handle_frame_finish. cbv zeta.
  destruct (frame_dev _ _ _ _ (symmetry (frame_eq_frame _ _ Hs)) Ed) as (dev' & Ed' & Ep').
  apply wp_bind, wp_dev_get; [eauto|]. intros dev'' Ed''. simplify_eq.
  apply wp_bind. eapply wp_deref; [by rewrite <- Ep'|].
  clear dev' Ed' Ep'. revert s Hs.
  apply br_dev_ok; [done|]. intros bdev.
  ok_step. { ok_step; [|ok_step]. ok_step; [ok_step|]. ok_step; [|ok_step]. ok_steps. }
  ok_step; [ok_steps|]. apply ok_lookup; [unfold h_dest; rewrite length_take; lia|ok_step|].
  intros e [f L]. eapply ok_bind_fdb; [done|]. ok_step; [ok_steps|]. by eapply br_forward_ok, D.
Qed.
End path.

(** ** Where a flooded frame goes *)

(** The specification: the device of port [p] should get a copy when the port
    forwards, the frame did not come in on that device, and it fits the
    device's MTU. *)
Definition gets_copy (s : kst) (skb : sk_buff) (p : ptr) : option ptr :=
  k_ports s !! p ≫= fun pp => k_devs s !! p_dev pp ≫= fun dev =>
  if bool_decide (p_state pp = BR_STATE_FORWARDING /\ p_dev pp <> skb_dev skb /\
                  Z.of_nat (length (skb_data skb)) <= d_mtu dev)
  then Some (p_dev pp) else None.

(** One copy of the frame for each port of [l] that should get one, in order. *)
Definition flood_copies (s : kst) (skb : sk_buff) (l : list ptr) : list (ptr * list Z) :=
  (fun d => (d, skb_mac skb ++ skb_data skb)) <$> omap (gets_copy s skb) l.

(** What sending [skb] out of port [p] hands to its device. *)
Definition copy_to (s : kst) (skb : sk_buff) (p : ptr) : list (ptr * list Z) :=
  match k_ports s !! p with
  | Some pp =>
      match k_devs s !! p_dev pp with
      | Some dev =>
          if Z.of_nat (length (skb_data skb)) >? d_mtu dev then []
          else [(p_dev pp, skb_mac skb ++ skb_data skb)]
      | None => []
      end
  | None => []
  end.

Definition wants (s : kst) (skb : sk_buff) (p : ptr) : bool :=
  match k_ports s !! p with Some pp => should_deliver pp skb | None => false end.

(** The hooks of [br_flood] send one copy and touch nothing else. *)
Definition sends (hook : ptr -> sk_buff -> M kst unit) : Prop :=
  forall s p skb, stp_wf s -> live s p ->
    wp (hook p skb) (fun _ s' => s' = s <| k_xmit := k_xmit s ++ copy_to s skb p |>) s.

Lemma xmit_app_nil s : s = s <| k_xmit := k_xmit s ++ [] |>.
Proof. rewrite app_nil_r. by destruct s. Qed.

Lemma __br_forward_sends : sends __br_forward.
Proof.
  intros s p skb W L. unfold __br_forward, br_forward_finish, br_dev_queue_push_xmit.
  apply wp_bind, wp_port_get; [done|]. intros pp Ep. cbn.
  destruct (wf_pdev _ (proj1 W) _ _ Ep) as (dev & Ed & _).
  apply wp_bind, wp_dev_get; [eauto|]. intros dev' Ed'. simplify_eq.
  unfold copy_to. rewrite Ep, Ed. destruct (_ >? _); [apply wp_ret, xmit_app_nil|done].
Qed.

Lemma __br_deliver_sends : sends __br_deliver.
Proof.
  intros s p skb W L. unfold __br_deliver, br_forward_finish, br_dev_queue_push_xmit.
  apply wp_bind, wp_port_get; [done|]. intros pp Ep. cbn.
  destruct (wf_pdev _ (proj1 W) _ _ Ep) as (dev & Ed & _).
  apply wp_bind, wp_dev_get; [eauto|]. intros dev' Ed'. simplify_eq.
  unfold copy_to. rewrite Ep, Ed. destruct (_ >? _); [apply wp_ret, xmit_app_nil|done].
Qed.

(** States that differ in what flooding may change. *)
Record flooded (s s' : kst) (sent : list (ptr * list Z)) : Prop := {
  fl_eq : s ≈ s';
  fl_ports : k_ports s' = k_ports s;
  fl_devs : k_devs s' = k_devs s;
  fl_up : k_up s' = k_up s;
  fl_xmit : k_xmit s' = k_xmit s ++ sent }.

Lemma flood_copies_ext s s' skb l :
  k_ports s' = k_ports s -> k_devs s' = k_devs s -> flood_copies s' skb l = flood_copies s skb l.
Proof.
  intros E1 E2. unfold flood_copies. f_equal. induction l as [|p l IH]; [done|].
  cbn [omap list_omap]. rewrite IH. unfold gets_copy. by rewrite E1, E2.
Qed.

Lemma flooded_copies s s' sent skb l :
  flooded s s' sent -> flood_copies s' skb l = flood_copies s skb l.
Proof. intros F. apply flood_copies_ext; apply F. Qed.

Lemma flooded_trans s1 s2 s3 a b :
  flooded s1 s2 a -> flooded s2 s3 b -> flooded s1 s3 (a ++ b).
Proof.
  intros [A1 A2 A3 A4 A5] [B1 B2 B3 B4 B5].
  split; [by etrans|congruence..|]. by rewrite B5, A5, app_assoc.
Qed.

Lemma flooded_alloc s b : flooded s (s <| k_alloc := b |>) [].
Proof. split; try done. by rewrite app_nil_r. Qed.

Lemma flood_copies_cons s skb p l :
  flood_copies s skb (p :: l) =
  (if wants s skb p then copy_to s skb p else []) ++ flood_copies s skb l.
Proof.
  unfold flood_copies, wants, copy_to. cbn [omap list_omap]. unfold gets_copy at 1.
  destruct (k_ports s !! p) as [pp|] eqn:Ep; [|done]. cbn [mbind option_bind].
  unfold should_deliver. destruct (k_devs s !! p_dev pp) as [dev|] eqn:Ed; cbn [mbind option_bind].
  2: { by destruct (_ || _). }
  destruct (Nat.eqb_spec (skb_dev skb) (p_dev pp)) as [Ei|Ni]; cbn [orb].
  { rewrite bool_decide_eq_false_2; [done|]. intros (_ & N & _). congruence. }
  destruct (Z.eqb_spec (p_state pp) BR_STATE_FORWARDING) as [Es|Ns]; cbn [negb].
  2: { rewrite bool_decide_eq_false_2; [done|]. tauto. }
  destruct (Z.gtb_spec (Z.of_nat (length (skb_data skb))) (d_mtu dev)).
  - rewrite bool_decide_eq_false_2; [done|]. lia.
  - by rewrite bool_decide_eq_true_2 by auto with lia.
Qed.

Lemma flooded_copy s s' sent skb p : flooded s s' sent -> copy_to s' skb p = copy_to s skb p.
Proof. intros F. unfold copy_to. by rewrite (fl_ports _ _ _ F), (fl_devs _ _ _ F). Qed.

Lemma flooded_live s s' sent p : flooded s s' sent -> live s p -> live s' p.
Proof. intros F. unfold live. by rewrite (fl_ports _ _ _ F). Qed.

Lemma flooded_wf s s' sent : flooded s s' sent -> stp_wf s -> stp_wf s'.
Proof. intros F. apply stp_wf_frame, F. Qed.

(** The frames of [all] were sent in order, all of them unless an allocation
    failed. *)
Definition flood_post (s : kst) (all : list (ptr * list Z)) (_ : unit) (s' : kst) : Prop :=
  exists sent, flooded s s' sent /\ sent `prefix_of` all /\
    (k_alloc s = [] -> sent = all /\ k_alloc s' = []).

Lemma flood_post_step s s1 s2 u first all :
  flooded s s1 first -> (k_alloc s = [] -> k_alloc s1 = []) ->
  flood_post s1 all u s2 -> flood_post s (first ++ all) u s2.
Proof.
  intros F Ha (sent & F' & P & A). exists (first ++ sent).
  split; [by eapply flooded_trans|]. split; [by apply prefix_app|].
  intros Ez. destruct A as [-> Az]; [by apply Ha|]. done.
Qed.

Lemma flood_loop_spec hook skb l prev s :
  sends hook -> stp_wf s -> (forall p, p ∈ l -> live s p) -> (forall q, prev = Some q -> live s q) ->
  wp (flood_loop skb hook prev l) (flood_post s
    (match prev with Some q => copy_to s skb q | None => [] end ++ flood_copies s skb l)) s.
Proof.
  intros Hh. revert prev s. induction l as [|p l IH]; intros prev s W Hl Hp; cbn [flood_loop].
  - rewrite app_nil_r. destruct prev as [q|].
    + eapply wp_mono; [apply Hh; auto|]. cbv beta. intros u s' ->. exists (copy_to s skb q).
      split; [by split|]. done.
    + apply wp_ret. exists []. split; [split; by rewrite ?app_nil_r|done].
  - assert (live s p) as Lp by (apply Hl; set_solver).
    apply wp_bind, wp_port_get; [done|]. intros pp Ep. rewrite flood_copies_cons.
    unfold wants. rewrite Ep. destruct (should_deliver pp skb).
    2: { apply IH; [done|set_solver|done]. }
    destruct prev as [q|]; [|apply (IH (Some p)); [done|set_solver|naive_solver]].
    assert (forall s1, flooded s s1 [] -> (k_alloc s = [] -> k_alloc s1 = []) ->
      wp (hook q skb;; flood_loop skb hook (Some p) l) (flood_post s
        (copy_to s skb q ++ copy_to s skb p ++ flood_copies s skb l)) s1) as Go.
    { intros s1 F1 Ha. apply wp_bind.
      eapply wp_mono; [apply Hh; [by eapply flooded_wf|by eapply flooded_live; auto]|].
      cbv beta. intros _ s2 ->. set (s2 := s1 <| k_xmit := _ |>).
      assert (flooded s s2 (copy_to s skb q)) as F2.
      { rewrite <- (flooded_copy s s1 [] skb q F1). by apply (flooded_trans s s1 s2 []). }
      rewrite <- (flooded_copies _ _ _ _ _ F2), <- (flooded_copy _ _ _ _ p F2).
      eapply wp_mono; [apply (IH (Some p) s2)|].
      - by eapply flooded_wf.
      - intros r Hr. eapply flooded_live; [done|]. apply Hl. set_solver.
      - intros r [= <-]. by eapply flooded_live.
      - intros u s3. by apply flood_post_step. }
    unfold alloc_ok. apply wp_bind, wp_bind, wp_gets. destruct (k_alloc s) as [|b bs] eqn:Ea.
    + apply wp_ret. apply Go; [|done]. split; by rewrite ?app_nil_r.
    + apply wp_bind, wp_modify, wp_ret. destruct b.
      * apply Go; [apply flooded_alloc|done].
      * unfold br_count_dropped. apply wp_br_set. exists [].
        split; [split; by rewrite ?app_nil_r|]. split; [apply prefix_nil|congruence].
Qed.

(** Flooding, with the original cloned first or not. *)
Lemma br_flood_spec hook skb clone s :
  sends hook -> stp_wf s ->
  wp (br_flood skb clone hook) (flood_post s (flood_copies s skb (b_port_list (k_br s)))) s.
Proof.
  intros Hh W. unfold br_flood. apply wp_bind.
  assert (forall s1, flooded s s1 [] -> (k_alloc s = [] -> k_alloc s1 = []) ->
    wp (l ← br_get b_port_list; flood_loop skb hook None l)
      (flood_post s (flood_copies s skb (b_port_list (k_br s)))) s1) as Go.
  { intros s1 F1 Ha. apply wp_bind, wp_br_get. rewrite (fr_list _ _ (proj1 (fl_eq _ _ _ F1))).
    rewrite <- (flooded_copies _ _ _ _ _ F1).
    eapply wp_mono; [apply (flood_loop_spec hook skb _ None s1)|].
    - done.
    - by eapply flooded_wf.
    - intros p Hp. eapply flooded_live; [done|]. by apply W.
    - done.
    - intros u s2. by apply (flood_post_step s s1 s2 u []). }
  destruct clone.
  - unfold alloc_ok. apply wp_bind, wp_gets. destruct (k_alloc s) as [|[] bs] eqn:Ea.
    + apply wp_ret. simpl. apply Go; [|done]. split; by rewrite ?app_nil_r.
    + apply wp_bind, wp_modify, wp_ret. simpl. apply Go; [apply flooded_alloc|done].
    + apply wp_bind, wp_modify, wp_ret. simpl. unfold br_count_dropped. apply wp_br_set.
      exists []. split; [split; by rewrite ?app_nil_r|]. split; [apply prefix_nil|congruence].
  - apply wp_ret. simpl. apply Go; [|done]. split; by rewrite ?app_nil_r.
Qed.

(** The devices that get a copy. *)
Lemma flood_copies_elem s skb l d frm :
  (d, frm) ∈ flood_copies s skb l <->
  frm = skb_mac skb ++ skb_data skb /\
  exists p pp dev, p ∈ l /\ k_ports s !! p = Some pp /\ p_dev pp = d /\ k_devs s !! d = Some dev /\
    p_state pp = BR_STATE_FORWARDING /\ d <> skb_dev skb /\ Z.of_nat (length (skb_data skb)) <= d_mtu dev.
Proof.
  unfold flood_copies. rewrite list_elem_of_fmap. setoid_rewrite list_elem_of_omap. unfold gets_copy. split.
  - intros (d' & [= -> ->] & p & Hp & H). split; [done|].
    apply bind_Some in H as (pp & Ep & (dev & Ed & H)%bind_Some).
    destruct (bool_decide _) eqn:B; [|done]. apply bool_decide_eq_true in B. injection H as <-. eauto 10.
  - intros (-> & p & pp & dev & Hp & Ep & <- & Ed & B). exists (p_dev pp). split; [done|].
    exists p. split; [done|]. rewrite Ep. cbn [mbind option_bind]. rewrite Ed. cbn [mbind option_bind].
    by rewrite bool_decide_eq_true_2.
Qed.

(** ** Where a received frame goes *)

(** An entry is good for ever when it is static, else until its last use plus
    the ageing time (the forward delay while the topology changes), on the
    32-bit clock. *)
Definition current (s : kst) (f : net_bridge_fdb_entry) : Prop :=
  truth (f_is_static f) = true \/
  let hold := if truth (b_topology_change (k_br s)) then b_forward_delay (k_br s) else b_ageing_time (k_br s) in
  s32 (k_jiffies s - (f_ageing_timer f + hold)) < 0.

(** What a lookup of [a] should find: the entry for it that is current, if
    any. *)
Definition resolves (s : kst) (a : list Z) (v : option net_bridge_fdb_entry) : Prop :=
  match v with
  | Some f => exists e, linked s e f /\ f_addr f = a /\ current s f
  | None => forall e f, linked s e f -> f_addr f = a -> ~ current s f
  end.

Lemma has_expired_current s f : has_expired (k_br s) (k_jiffies s) f = false <-> current s f.
Proof.
  unfold has_expired, current, hold_time, time_before_eq, time_after_eq.
  set (h := if truth (b_topology_change (k_br s)) then _ else _).
  assert (s32 (k_jiffies s - u32 (f_ageing_timer f + h)) = s32 (k_jiffies s - (f_ageing_timer f + h))) as ->.
  { rewrite <- (s32_u32 (k_jiffies s - u32 _)), <- (s32_u32 (k_jiffies s - (_ + h))). f_equal.
    unfold u32. by rewrite Zminus_mod_idemp_r. }
  destruct (truth (f_is_static f)); cbn [negb andb]; [split; [by left|done]|].
  rewrite Z.leb_gt. split; [by right|by intros [|]].
Qed.

Definition multicast (a : list Z) : bool := truth (Z.land (default 0 (a !! 0%nat)) 1).

(** The copies sent out, and those given to the local stack: a bridge device
    in promiscuous mode gets every frame. *)
Definition outgoing (s : kst) (skb : sk_buff) (v : option net_bridge_fdb_entry) : list (ptr * list Z) :=
  if multicast (h_dest skb) then flood_copies s skb (b_port_list (k_br s)) else
  match v with
  | Some f => if truth (f_is_local f) then [] else flood_copies s skb [f_dst f]
  | None => flood_copies s skb (b_port_list (k_br s))
  end.
Definition upward (s : kst) (promisc : bool) (skb : sk_buff) (v : option net_bridge_fdb_entry) :
    list (ptr * list Z) :=
  let up := [(b_dev (k_br s), skb_mac skb ++ skb_data skb)] in
  if promisc || multicast (h_dest skb) then up else
  match v with
  | Some f => if truth (f_is_local f) then up else []
  | None => []
  end.

Definition delivered (s s' : kst) (out up : list (ptr * list Z)) : Prop :=
  k_xmit s' = k_xmit s ++ out /\ k_up s' = k_up s ++ up /\ k_ports s' = k_ports s /\ k_devs s' = k_devs s.

Lemma br_flood_delivers hook skb clone s :
  sends hook -> stp_wf s -> k_alloc s = [] ->
  wp (br_flood skb clone hook) (fun _ s' =>
    delivered s s' (flood_copies s skb (b_port_list (k_br s))) [] /\ s ≈ s') s.
Proof.
  intros Hh W Ea. eapply wp_mono; [by apply br_flood_spec|]. intros _ s' (sent & [] & _ & Al).
  destruct (Al Ea) as [-> _]. split; [|done]. split_and!; try done. by rewrite app_nil_r.
Qed.

Lemma br_pass_frame_up_delivers skb s :
  wp (br_pass_frame_up skb) (fun _ s' =>
    delivered s s' [] [(b_dev (k_br s), skb_mac skb ++ skb_data skb)]) s.
Proof.
  unfold br_pass_frame_up. apply wp_bind, wp_br_set, wp_bind, wp_br_get, wp_modify.
  split_and!; try done. cbn. by rewrite app_nil_r.
Qed.

Lemma br_forward_delivers s p skb :
  stp_wf s -> live s p ->
  wp (br_forward p skb) (fun _ s' => delivered s s' (flood_copies s skb [p]) []) s.
Proof.
  intros W L. rewrite flood_copies_cons, app_nil_r. unfold br_forward. apply wp_bind, wp_port_get; [done|]. intros pp Ep.
  unfold wants. rewrite Ep. apply wp_when; intros D; rewrite D.
  - eapply wp_mono; [by apply __br_forward_sends|]. cbv beta. intros _ s' ->.
    split_and!; try done. cbn. by rewrite app_nil_r.
  - split_and!; by rewrite ?app_nil_r.
Qed.

(** What has happened when the promiscuous copy is dealt with. *)
Lemma delivered_trans s s1 s2 o1 u1 o2 u2 :
  delivered s s1 o1 u1 -> delivered s1 s2 o2 u2 -> delivered s s2 (o1 ++ o2) (u1 ++ u2).
Proof.
  intros (X1 & U1 & P1 & D1) (X2 & U2 & P2 & D2).
  split_and!; [rewrite X2, X1|rewrite U2, U1|congruence..]; by rewrite app_assoc.
Qed.

Lemma delivered_refl s s' :
  k_xmit s' = k_xmit s -> k_up s' = k_up s -> k_ports s' = k_ports s -> k_devs s' = k_devs s ->
  delivered s s' [] [].
Proof. intros E1 E2 E3 E4. split_and!; rewrite ?app_nil_r; done. Qed.

Lemma promisc_spec s skb (b : bool) :
  k_alloc s = [] ->
  wp (if b then ok ← alloc_ok; if ok then br_pass_frame_up skb;; ret true else ret false else ret false)
    (fun r s' => r = b /\ s ≈ s' /\ k_alloc s' = [] /\ k_jiffies s' = k_jiffies s /\
      (forall f, current s' f <-> current s f) /\
      delivered s s' [] (if b then [(b_dev (k_br s), skb_mac skb ++ skb_data skb)] else [])) s.
Proof.
  intros Ea. destruct b; [|apply wp_ret; split_and!; try done; by apply delivered_refl].
  unfold alloc_ok. apply wp_bind, wp_bind, wp_gets. rewrite Ea. apply wp_ret.
  unfold br_pass_frame_up. apply wp_bind, wp_bind, wp_br_set, wp_bind, wp_br_get, wp_modify, wp_ret.
  split_and!; try done. split_and!; try done. by rewrite app_nil_r.
Qed.

Lemma resolves_eq s s' a v :
  s ≈ s' -> (forall f, current s' f <-> current s f) -> resolves s a v -> resolves s' a v.
Proof.
  intros [F _] C. pose proof (fun e f => linked_ext s s' e f (fr_hash _ _ F) (fr_fdbs _ _ F)) as L.
  destruct v as [f|]; simpl; setoid_rewrite L; setoid_rewrite C; done.
Qed.

(** The frame is known by then to be for a unicast address. *)
Lemma unicast_spec s skb v up :
  stp_wf s -> hash_wf s -> dst_wf s -> k_alloc s = [] -> (12 <= length (skb_mac skb))%nat ->
  resolves s (h_dest skb) v ->
  wp (dst ← __br_fdb_get (h_dest skb);
      match dst with
      | Some e =>
          f ← fdb_get e;
          if truth (f_is_local f) then when (negb up) (br_pass_frame_up skb)
          else br_forward (f_dst f) skb
      | None => br_flood_forward skb false
      end) (fun _ s' => delivered s s'
        (match v with
         | Some f => if truth (f_is_local f) then [] else flood_copies s skb [f_dst f]
         | None => flood_copies s skb (b_port_list (k_br s))
         end)
        (match v with
         | Some f => if truth (f_is_local f) && negb up then [(b_dev (k_br s), skb_mac skb ++ skb_data skb)] else []
         | None => []
         end)) s.
Proof.
  intros W H D Ea Lm Rv. apply wp_bind. eapply wp_mono; [apply br_fdb_get_spec; [done|]|].
  { unfold h_dest. rewrite length_take. lia. }
  cbv beta. intros [e|] s1 [-> Hr].
  - destruct Hr as (f & L & A & X%has_expired_current). assert (v = Some f) as ->.
    { destruct v as [f'|]; [|by destruct (Rv e f L A)].
      destruct Rv as (e' & L' & A' & _). assert (e' = e) as -> by (eapply (hw_uniq _ H); eauto; congruence).
      by rewrite (linked_now s e f f'). }
    apply wp_bind, wp_fdb_get with f; [apply L|]. destruct (truth (f_is_local f)); cbn [andb].
    + destruct up; cbn [negb when]; [by apply wp_ret, delivered_refl|apply br_pass_frame_up_delivers].
    + apply br_forward_delivers; [done|by eapply D].
  - assert (v = None) as ->.
    { destruct v as [f|]; [|done]. destruct Rv as (e & L & A & X). apply has_expired_current in X. by rewrite (Hr e f L A) in X. }
    eapply wp_mono; [by apply (br_flood_delivers __br_forward skb false s); [apply __br_forward_sends|..]|].
    cbv beta. by intros _ s1 [? _].
Qed.

Lemma br_handle_frame_finish_spec s skb dev p brdev v :
  stp_wf s -> hash_wf s -> dst_wf s -> k_alloc s = [] ->
  k_devs s !! skb_dev skb = Some dev -> d_br_port dev = Some p ->
  k_devs s !! b_dev (k_br s) = Some brdev ->
  (12 <= length (skb_mac skb))%nat -> resolves s (h_dest skb) v ->
  wp (br_handle_frame_finish skb) (fun _ s' => delivered s s' (outgoing s skb v)
    (upward s (truth (Z.land (d_flags brdev) IFF_PROMISC)) skb v)) s.
Proof.
  intros W H D Ea Ed Ep Eb Lm Rv. unfold br_handle_frame_finish. cbv zeta.
  apply wp_bind, wp_dev_get; [by exists dev|]. intros dev' Ed'. simplify_eq.
  apply wp_bind. eapply wp_deref; [done|]. apply wp_bind, wp_br_get.
  apply wp_bind, wp_dev_get; [by exists brdev|]. intros brdev' Eb'. simplify_eq.
  set (pr := truth (Z.land (d_flags brdev) IFF_PROMISC)). clearbody pr.
  apply wp_bind. eapply wp_mono; [by apply promisc_spec|]. cbv beta.
  intros r s1 (-> & F1 & A1 & _ & C1 & D1). pose proof D1 as (_ & _ & P1 & V1).
  pose proof (fun l => flood_copies_ext s s1 skb l P1 V1) as Fl.
  pose proof (stp_wf_frame _ _ F1 W) as W1. pose proof (fr_list _ _ (proj1 F1)) as El.
  pose proof (fr_dev _ _ (proj1 F1)) as Edv.
  unfold outgoing, upward, multicast. destruct (truth (Z.land (default 0 _) 1)).
  - apply wp_bind. eapply wp_mono.
    { by apply (br_flood_delivers __br_forward skb (negb pr) s1); [apply __br_forward_sends|..]. }
    cbv beta. intros _ s2 [D2 F2]. rewrite Fl, El in D2. rewrite orb_true_r.
    pose proof (delivered_trans _ _ _ _ _ _ _ D1 D2) as D12. rewrite app_nil_l, app_nil_r in D12.
    destruct pr; cbn [negb when]; [by apply wp_ret|].
    eapply wp_mono; [apply br_pass_frame_up_delivers|]. cbv beta. intros _ s3 D3.
    rewrite (fr_dev _ _ (proj1 F2)), Edv in D3.
    pose proof (delivered_trans _ _ _ _ _ _ _ D12 D3) as D13. by rewrite app_nil_r, app_nil_l in D13.
  - eapply wp_mono; [apply (unicast_spec s1 skb v pr)|].
    + done.
    + eapply hash_wf_frame; [apply F1|done].
    + eapply dst_wf_frame; [apply F1|done].
    + done.
    + done.
    + by eapply resolves_eq.
    + cbv beta. intros _ s2 D2. pose proof (delivered_trans _ _ _ _ _ _ _ D1 D2) as D12.
      rewrite orb_false_r. destruct v as [f|]; rewrite ?Fl, ?El, ?Edv in D12.
      * destruct pr; cbn [negb] in D12; [by rewrite andb_false_r in D12|].
        rewrite andb_true_r in D12. done.
      * by destruct pr.
Qed.
