(* ===== verification/BridgePorts.v ===== *)
(** * Ports joining and leaving: no oops, and the invariant of a bridge

    [bridge_inv] collects the invariants of the components; [br_add_if],
    [br_del_if], device notifications and received frames preserve it. *)
From S2P Require Import Prelude LibString BridgeData BridgeBpdu BridgeStp BridgeTimer.
From S2P Require Import BridgeStpIf BridgeWf BridgeSafe BridgeRoot BridgeHandlers BridgeFdb.
From S2P Require Import BridgeFdbSpec BridgeFdbAge BridgeForward BridgePath BridgeIf.

Record bridge_inv (s : kst) : Prop := {
  bi_stp : stp_wf s;
  bi_dev : dev_wf s;
  bi_hash : hash_wf s;
  bi_age : age_wf s;
  bi_dst : dst_wf s }.

(** [m] does not oops from [s] and re-establishes the invariant. *)
Definition safe {A} (m : M kst A) (s : kst) : Prop := wp m (fun _ s' => bridge_inv s') s.

Lemma inv_frame s s' : bridge_inv s -> frame s s' -> stp_wf s' -> bridge_inv s'.
Proof.
  intros [W V H A D] F W'. split; [done|by eapply dev_wf_frame|by eapply hash_wf_frame|
    by eapply age_wf_frame|by eapply dst_wf_frame].
Qed.

Lemma inv_frame_eq s s' : bridge_inv s -> s ≈ s' -> bridge_inv s'.
Proof. intros I F. apply (inv_frame s); [done|apply F|eapply stp_wf_frame; [done|apply I]]. Qed.

Lemma safe_okf {A} (m : M kst A) s : bridge_inv s -> okf s m -> safe m s.
Proof.
  intros I H. eapply wp_mono; [apply H; [done|apply I]|]. cbv beta. intros _ s' [F W].
  by eapply inv_frame.
Qed.

Lemma safe_ok {A} (m : M kst A) s : bridge_inv s -> ok s m -> safe m s.
Proof.
  intros I H. eapply wp_mono; [by apply H|]. cbv beta. intros _ s' F. by eapply inv_frame_eq.
Qed.

Lemma safe_bind {A B} (m : M kst A) (k : A -> M kst B) s :
  safe m s -> (forall a s', bridge_inv s' -> safe (k a) s') -> safe (bind m k) s.
Proof. intros Hm Hk. apply wp_bind. eapply wp_mono; [exact Hm|]. cbv beta. auto. Qed.

Lemma safe_ret {A} (a : A) s : bridge_inv s -> safe (ret a) s.
Proof. by intros I. Qed.

Lemma wp_and {S A} (m : M S A) (P Q : A -> S -> Prop) s :
  wp m P s -> wp m Q s -> wp m (fun a s' => P a s' /\ Q a s') s.
Proof. unfold wp. by destruct (m s) as [[a s']|]. Qed.

(** ** The forwarding database within the invariant *)
Lemma root_wf_fdb s s' : fdb_frame s s' -> root_wf s -> root_wf s'.
Proof.
  intros F [W1 W2]. split; unfold br_is_root_bridge in *;
    rewrite ?(ff_root _ _ F), ?(ff_list _ _ F), ?(ff_ports _ _ F), ?(ff_id _ _ F), ?(ff_droot _ _ F); done.
Qed.

Lemma stp_wf_fdb s s' : fdb_frame s s' -> stp_wf s -> stp_wf s'.
Proof. intros F [W R]. split; [by eapply ports_wf_fdb|by eapply root_wf_fdb]. Qed.

Lemma inv_fdb s s' : bridge_inv s -> fdb_frame s s' -> hash_wf s' -> age_wf s' -> dst_wf s' -> bridge_inv s'.
Proof.
  intros I F H A D. split; [eapply stp_wf_fdb; [done|apply I]| |done..].
  intros d dev p. unfold port_of. rewrite (ff_devs _ _ F), (ff_list _ _ F), (ff_ports _ _ F). apply I.
Qed.

(** Every address has an answer. *)
Lemma fdb_lookup_total s a : hash_wf s -> length a = 6%nat -> exists v, fdb_lookup s a v.
Proof.
  intros W La. destruct (wp_run _ _ _ (find_chain_spec s a W La)) as (r & s' & _ & _ & H).
  destruct r as [e|]; [|by exists None]. destruct H as (f & L & A).
  exists (Some (f_dst f, f_is_local f)). by exists e, f.
Qed.

(** Learning or installing an address, valid or not. *)
Lemma fdb_insert_total s src a loc :
  hash_wf s -> age_wf s -> dst_wf s -> live s src -> length a = 6%nat ->
  (truth loc = true -> unlearned s a) ->
  wp (fdb_insert src a loc) (fun r s' =>
    hash_wf s' /\ age_wf s' /\ dst_wf s' /\ fdb_frame s s' /\
    (r <> 0 -> forall a v, length a = 6%nat -> fdb_lookup s a v -> fdb_lookup s' a v)) s.
Proof.
  intros W A D L La Ul. destruct (is_valid_ether_addr a) eqn:V.
  - destruct (fdb_lookup_total s a W La) as [old Old].
    eapply wp_mono.
    { apply wp_and; [by apply (fdb_insert_age s src a loc)|].
      by eapply fdb_insert_refines; [|apply age_wf_live|..]. }
    cbv beta. intros r s' (A' & W' & D' & F & new & Sp & Mt & Mo). split_and!; [done..|].
    intros Nr a' v La' Lv. destruct (decide (a' = a)) as [->|N]; [|by apply Mo].
    rewrite (fdb_lookup_fun s a v old W Lv Old). enough (new = old) as <- by done.
    unfold insert_spec in Sp. destruct old as [[d l]|]; [destruct (truth l)|]; naive_solver.
  - unfold fdb_insert. rewrite V. apply wp_ret. split_and!; done.
Qed.

Lemma find_local_spec s p l :
  (forall e, e ∈ l -> exists f, linked s e f) ->
  wp (find_local p l) (fun r s' => s' = s /\
    match r with Some e => exists f, linked s e f | None => True end) s.
Proof.
  induction l as [|e l IH]; intros H; simpl; [by apply wp_ret|].
  destruct (H e) as [f L]; [set_solver|]. apply wp_bind, wp_fdb_get with f; [apply L|].
  case_match; [apply wp_ret; eauto|]. apply IH. set_solver.
Qed.

(** Handing an entry to another port. *)
Lemma inv_fdb_move s e f op :
  bridge_inv s -> linked s e f -> live s op ->
  bridge_inv (s <| k_fdbs := <[e := f <| f_dst := op |>]> (k_fdbs s) |>).
Proof.
  intros I L Lo. set (f1 := f <| f_dst := op |>).
  pose proof (age_wf_set s e f f1 (bi_age _ I) L eq_refl) as A1.
  pose proof (linked_upd s (s <| k_fdbs := <[e := f1]> (k_fdbs s) |>) e f f1 L eq_refl eq_refl) as U.
  destruct L as [E [i Hi]]. destruct (hw_entry _ (bi_hash _ I) i e Hi) as (f' & E' & _ & _ & St & C).
  simplify_eq. apply (inv_fdb s); [done|by split| | |].
  - eapply hash_wf_update; [apply I|done..].
  - done.
  - intros e' f' [[-> ->]|[_ L']]%U; [done|]. by eapply (bi_dst _ I).
Qed.

Lemma fdb_delete_safe s e f : bridge_inv s -> linked s e f -> safe (fdb_delete e) s.
Proof.
  intros I L. eapply wp_mono; [apply (fdb_delete_spec s e f); [apply I|apply age_wf_live, I|done]|]. cbv beta.
  intros _ s' (W & F & L' & A). apply (inv_fdb s); [done..|by eapply (age_wf_delete s s' e f); [apply I|..]|].
  intros e' f' [_ Le]%L'. apply (live_fdb s s' _ F). by eapply (bi_dst _ I).
Qed.

Lemma br_fdb_changeaddr_safe s p a :
  bridge_inv s -> live s p -> length a = 6%nat -> unlearned s a ->
  wp (br_fdb_changeaddr p a) (fun _ s' => bridge_inv s' /\ fdb_frame s s') s.
Proof.
  intros I Lp La Ul. unfold br_fdb_changeaddr. apply wp_bind, wp_br_get. cbv beta.
  change (id (k_br s)) with (k_br s). apply wp_bind.
  eapply wp_mono.
  { apply find_local_spec. intros e He. apply linked_concat; [apply I|done]. }
  cbv beta. intros found s' [-> Hf]. apply wp_bind.
  apply (wp_mono _ (fun _ s' => bridge_inv s' /\ fdb_frame s s' /\ unlearned s' a)).
  - destruct found as [e|]; [|by apply wp_ret]. destruct Hf as [f L].
    apply wp_bind, wp_fdb_get with f; [apply L|]. apply wp_bind.
    eapply wp_mono; [apply find_other_port_spec; apply I|]. cbv beta.
    intros [op|] s1 [-> Ho].
    + apply wp_fdb_set with f; [apply L|]. split_and!; [|by split|].
      * apply inv_fdb_move; [done..|]. apply I, Ho.
      * set (f1 := f <| f_dst := op |>).
        pose proof (linked_upd s (s <| k_fdbs := <[e := f1]> (k_fdbs s) |>) e f f1 L eq_refl eq_refl) as U.
        intros e' f' [[-> ->]|[_ L']]%U; [by apply (Ul e f)|by apply (Ul e' f')].
    + apply wp_and; [by eapply fdb_delete_safe|].
      eapply wp_mono; [apply (fdb_delete_spec s e f); [apply I|apply age_wf_live, I|done]|]. cbv beta.
      intros _ s' (_ & F & L' & _). split; [done|]. intros e' f' [_ Le]%L'. by apply (Ul e').
  - cbv beta. intros _ s1 (I1 & F1 & U1). apply wp_bind. eapply wp_mono.
    { apply (fdb_insert_total s1 p a 1); [apply I1..|by apply (live_fdb s s1 _ F1)|done|done]. }
    cbv beta. intros r s2 (W2 & A2 & D2 & F2 & _). apply wp_ret.
    split; [by eapply inv_fdb|by etrans].
Qed.

(** ** A free port number *)
Lemma first_zero_from_spec m i n :
  0 <= i ->
  let r := first_zero_from m i n in
  i <= r <= i + Z.of_nat n /\ (r < i + Z.of_nat n -> Z.testbit m r = false) /\
  (forall j, i <= j < r -> Z.testbit m j = true).
Proof.
  revert i. induction n as [|n IH]; intros i Hi; simpl first_zero_from; cbv zeta.
  - split_and!; lia.
  - destruct (Z.testbit m i) eqn:E.
    + destruct (IH (i + 1)) as (A & B & C); [lia|]. split_and!; [lia..| |].
      * intros. apply B. lia.
      * intros j Hj. destruct (decide (j = i)) as [->|]; [done|]. apply C. lia.
    + split_and!; [lia..|done|lia].
Qed.

Definition errno_range (e : Z) : Prop := -4095 <= e < 0.

(** The numbers in use, collected as a bit map. *)
Lemma inuse_spec s :
  ports_wf s ->
  wp (fold_each (b_port_list (k_br s)) (Z.setbit 0 0) (fun inuse p =>
        pp ← port_get p; ret (Z.setbit inuse (p_port_no pp))))
    (fun m s' => s' = s /\ Z.testbit m 0 = true /\
      forall p pp, p ∈ b_port_list (k_br s) -> k_ports s !! p = Some pp ->
        Z.testbit m (p_port_no pp) = true) s.
Proof.
  intros W. apply (wp_fold_each (fun dn _ m s' => s' = s /\ Z.testbit m 0 = true /\
    forall p pp, p ∈ dn -> k_ports s !! p = Some pp -> Z.testbit m (p_port_no pp) = true)).
  { split_and!; [done..|set_solver]. }
  intros dn x rest m s' E (-> & M0 & Md). apply wp_bind, wp_port_get.
  { apply W. rewrite E. set_solver. }
  intros xx Ex. pose proof (wf_no _ W _ _ Ex). apply wp_ret. split_and!; [done| |].
  - rewrite Z.setbit_neq by lia. done.
  - intros p pp Hp Ep. destruct (decide (p_port_no xx = p_port_no pp)) as [->|N].
    + pose proof (wf_no _ W _ _ Ep). apply Z.setbit_eq. lia.
    + rewrite Z.setbit_neq by lia. apply elem_of_app in Hp as [Hp|Hp]; [by eapply Md|].
      assert (p = x) as -> by set_solver. congruence.
Qed.

Lemma find_portno_spec s :
  ports_wf s ->
  wp find_portno (fun r s' => (exists l, s' = s <| k_alloc := l |>) /\
    (errno_range r \/
     0 < r < BR_MAX_PORTS /\
     forall p pp, p ∈ b_port_list (k_br s) -> k_ports s !! p = Some pp -> p_port_no pp <> r)) s.
Proof.
  intros W.
  assert (forall b l, wp (if negb b then ret (- ENOMEM) else
      l ← br_get b_port_list;
      inuse ← fold_each l (Z.setbit 0 0) (fun inuse p =>
        pp ← port_get p; ret (Z.setbit inuse (p_port_no pp)));
      let index := find_first_zero_bit inuse BR_MAX_PORTS in
      ret (if index >=? BR_MAX_PORTS then - EXFULL else index))
    (fun r s' => (exists l, s' = s <| k_alloc := l |>) /\ (errno_range r \/ 0 < r < BR_MAX_PORTS /\
     forall p pp, p ∈ b_port_list (k_br s) -> k_ports s !! p = Some pp -> p_port_no pp <> r))
    (s <| k_alloc := l |>)) as Go.
  { intros b l. destruct b; simpl negb; cbv iota.
    2: { apply wp_ret. split; [eauto|]. by left. }
    apply wp_bind, wp_br_get, wp_bind. eapply wp_mono.
    { apply inuse_spec. eapply ports_wf_frame; [|done]. apply frame_alloc. }
    cbv beta zeta. intros m s' (-> & M0 & Mp). apply wp_ret. split; [eauto|].
    unfold find_first_zero_bit.
    destruct (first_zero_from_spec m 0 (Z.to_nat BR_MAX_PORTS)) as (A & B & _); [lia|].
    destruct (Z.geb_spec (first_zero_from m 0 (Z.to_nat BR_MAX_PORTS)) BR_MAX_PORTS) as [G|G].
    { by left. }
    set (r := first_zero_from _ _ _) in *. assert (Z.testbit m r = false) as T.
    { apply B. rewrite Z2Nat.id; [lia|by apply Z.shiftl_nonneg]. }
    right. assert (r <> 0) by congruence. split; [lia|]. intros p pp Hp Ep <-.
    by rewrite (Mp p pp Hp Ep) in T. }
  unfold find_portno. apply wp_bind, wp_alloc_ok; [done|].
  specialize (Go true (k_alloc s)). by destruct s.
Qed.

(** ** A new port, not yet on the list *)
Definition attach (s : kst) (d p : ptr) (pp : net_bridge_port) (dev : net_device) : kst :=
  s <| k_next := S p |> <| k_ports := <[p := pp]> (k_ports s) |>
    <| k_devs := <[d := dev <| d_br_port := Some p |>]> (k_devs s) |>.

Section attach.
Context (s : kst) (d : ptr) (pp : net_bridge_port) (dev : net_device).
Context (I : bridge_inv s) (Ed : k_devs s !! d = Some dev) (Nd : d_br_port dev = None)
  (Pd : p_dev pp = d) (Pn : 0 < p_port_no pp < BR_MAX_PORTS).
Let p := k_next s.
Let s1 := attach s d p pp dev.

Lemma attach_fresh : k_ports s !! p = None.
Proof.
  destruct (k_ports s !! p) eqn:E; [|done].
  pose proof (wf_fresh _ (proj1 (bi_stp _ I)) p (mk_is_Some _ _ E)). unfold p in *. lia.
Qed.

Lemma attach_unlisted : p ∉ b_port_list (k_br s).
Proof. intros [x E]%(wf_live _ (proj1 (bi_stp _ I))). by rewrite attach_fresh in E. Qed.

Lemma attach_port q qq : q <> p -> k_ports s1 !! q = Some qq <-> k_ports s !! q = Some qq.
Proof. intros N. unfold s1, attach. cbn. by rewrite lookup_insert_ne. Qed.

Lemma attach_live q : live s q -> live s1 q.
Proof.
  intros [x E]. exists x. apply attach_port; [|done]. intros ->. by rewrite attach_fresh in E.
Qed.

Lemma attach_ports_wf : ports_wf s1.
Proof.
  pose proof (proj1 (bi_stp _ I)) as W. pose proof attach_fresh as Np.
  assert (forall q qq, k_ports s1 !! q = Some qq ->
    (q = p /\ qq = pp) \/ k_ports s !! q = Some qq) as Cases.
  { intros q qq. unfold s1, attach. cbn. rewrite lookup_insert_Some. naive_solver. }
  assert (forall q, q ∈ b_port_list (k_br s) -> q <> p) as Ne.
  { intros q Hq ->. by apply attach_unlisted. }
  split.
  - apply W.
  - intros q Hq. by apply attach_live, W.
  - intros q qq [[-> ->]|E]%Cases; [done|by eapply W].
  - intros q r qq rr Hq Hr Eq Er. apply attach_port in Eq, Er; [|by apply Ne..].
    by eapply (wf_inj _ W).
  - intros q qq E. unfold s1, attach. cbn. apply Cases in E as [[-> ->]|E].
    + rewrite Pd, lookup_insert_eq. eauto.
    + destruct (wf_pdev _ W _ _ E) as (dv & Edv & Eb). rewrite lookup_insert_ne; [eauto|].
      intros ->. congruence.
  - unfold s1, attach. cbn. destruct (wf_bdev _ W) as [x Ex].
    destruct (decide (d = b_dev (k_br s))) as [->|]; [rewrite lookup_insert_eq|rewrite lookup_insert_ne]; eauto.
  - intros q [qq [[-> _]|E]%Cases]; cbn; [lia|].
    pose proof (wf_fresh _ W q (mk_is_Some _ _ E)). unfold p. lia.
Qed.

Lemma attach_root_wf : root_wf s1.
Proof.
  destruct (bi_stp _ I) as [W [R1 R2]]. split; [|done].
  destruct R1 as [|(q & qq & Hq & Eq & Nq)]; [by left|]. right. exists q, qq. split_and!; [done| |done].
  apply attach_port; [|done]. intros ->. by apply attach_unlisted.
Qed.

Lemma attach_hash_wf : hash_wf s1.
Proof.
  destruct (bi_hash _ I) as [A B C D E]. split; [done..|].
  intros e He%E. cbn. unfold p. lia.
Qed.

Lemma attach_age_wf : age_wf s1.
Proof. by apply (age_wf_ext s); [..|apply I]. Qed.

Lemma attach_dst_wf : dst_wf s1.
Proof. intros e f L. apply attach_live. by apply (bi_dst _ I e f). Qed.

(** No entry forwards to the new port. *)
Lemma attach_unused e f : linked s1 e f -> f_dst f <> p.
Proof. intros L E. destruct (bi_dst _ I e f L) as [x Ex]. rewrite E, attach_fresh in Ex. done. Qed.
End attach.

(** What [new_nbp] leaves: the port it made, initialised and disabled. *)
Definition joined (s s' : kst) (d p : ptr) : Prop :=
  exists l pp dev, bridge_inv (s <| k_alloc := l |>) /\ p = k_next s /\
    k_devs s !! d = Some dev /\ d_br_port dev = None /\ p_dev pp = d /\
    0 < p_port_no pp < BR_MAX_PORTS /\
    (forall q qq, q ∈ b_port_list (k_br s) -> k_ports s !! q = Some qq -> p_port_no qq <> p_port_no pp) /\
    attach (s <| k_alloc := l |>) d p pp dev ≈ s'.

Lemma inv_alloc s l : bridge_inv s -> bridge_inv (s <| k_alloc := l |>).
Proof. intros I. eapply inv_frame_eq; [done|apply frame_alloc]. Qed.

Lemma new_nbp_spec s d dev cost :
  bridge_inv s -> k_devs s !! d = Some dev -> d_br_port dev = None ->
  wp (new_nbp d cost) (fun r s' =>
    match r with
    | inl e => errno_range e /\ exists l, s' = s <| k_alloc := l |>
    | inr p => joined s s' d p
    end) s.
Proof.
  intros I Ed Nd. unfold new_nbp. apply wp_bind.
  eapply wp_mono; [apply find_portno_spec, I|]. cbv beta. intros n s1 [[l1 ->] Hn].
  destruct (Z.ltb_spec n 0) as [Neg|Pos].
  { apply wp_ret. split; [|eauto]. unfold errno_range in *. lia. }
  destruct Hn as [Hn|[Rn Fn]]; [unfold errno_range in Hn; lia|].
  apply wp_bind.
  apply (wp_mono _ (fun _ s' => exists l, s' = s <| k_alloc := l |>)).
  { apply wp_alloc_ok; eauto. }
  cbv beta. intros b s2 [l ->]. destruct b; simpl negb; cbv iota.
  2: { apply wp_ret. split; [|eauto]. done. }
  set (sa := s <| k_alloc := l |>). pose proof (inv_alloc s l I) as Ia.
  unfold fresh. apply wp_bind, wp_bind, wp_gets, wp_bind, wp_modify, wp_ret. cbv zeta.
  apply wp_bind, wp_modify. set (pp := {| p_dev := d |}). cbv beta.
  apply wp_bind, wp_dev_set; [by exists dev|]. cbn. intros dev' Ed'.
  assert (dev' = dev) as -> by congruence. clear Ed'.
  change (wp (br_init_port (k_next sa);; port_set (k_next sa) (fun pp => pp <| p_state := BR_STATE_DISABLED |>);;
    ret (inr (k_next sa))) (fun r s' =>
    match r with
    | inl e => errno_range e /\ exists l, s' = s <| k_alloc := l |>
    | inr p => joined s s' d p
    end) (attach sa d (k_next sa) pp dev)).
  set (s3 := attach _ _ _ _ _). assert (p_port_no pp = n) as Epn.
  { cbn. apply u16_small. change BR_MAX_PORTS with 1024 in Rn. lia. }
  assert (live s3 (k_next sa)) as L3. { exists pp. unfold s3, attach. cbn. apply lookup_insert_eq. }
  apply wp_bind. eapply wp_mono; [by apply (br_init_port_ok s3)|]. cbv beta. intros _ s4 F4.
  apply wp_bind. eapply wp_mono; [apply (ok_port_set s3 (k_next sa)); [exact L3|reflexivity|exact F4]|]. cbv beta. intros _ s5 F5.
  apply wp_ret. exists l, pp, dev. rewrite Epn. split_and!; try done; lia.
Qed.

(** ** The root port is an enabled port *)
Lemma br_configuration_update_root s :
  ports_wf s ->
  wp br_configuration_update (fun _ s' =>
    forall p pp, p ∈ b_port_list (k_br s) -> k_ports s !! p = Some pp ->
      p_state pp = BR_STATE_DISABLED -> b_root_port (k_br s') <> p_port_no pp) s.
Proof.
  intros W. unfold br_configuration_update. apply wp_bind.
  eapply wp_mono; [by apply br_root_selection_spec|].
  cbv beta. intros _ s1 (El & _ & F & Eid & R & _).
  assert (stp_wf s1) as W1 by (split; [by eapply ports_wf_frame|done]).
  eapply wp_mono; [by apply br_designated_port_selection_ok|]. cbv beta. intros _ s2 F2.
  intros p pp Hp Ep St. rewrite (sr_port _ _ (proj2 F2)).
  destruct El as [[-> _]|(r & rr & Hr & Er & Nr & _ & C & _)].
  - pose proof (wf_no _ W _ _ Ep). lia.
  - intros E. rewrite E in Nr. assert (r = p) as -> by (by eapply (wf_inj _ W)).
    simplify_eq. unfold candidate in C. by rewrite St in C.
Qed.

(** After [br_stp_disable_port p] the root port is another one. *)
Lemma br_stp_disable_port_root s p pp :
  stp_wf s -> p ∈ b_port_list (k_br s) -> k_ports s !! p = Some pp ->
  wp (br_stp_disable_port p) (fun _ s' => b_root_port (k_br s') <> p_port_no pp) s.
Proof.
  intros [W R] Hp Ep. unfold br_stp_disable_port. apply wp_bind, wp_br_get. cbv zeta.
  assert (live s p) as L by (by exists pp).
  apply wp_bind. eapply wp_mono; [apply (br_become_designated_port_okp s p L s); done|].
  cbv beta. intros _ s1 F1. apply wp_bind, wp_port_set; [by eapply live_frame|].
  intros p1 E1. set (p2 := _ <| p_hold_timer := _ |>). set (s2 := s1 <| k_ports := _ |>).
  assert (s1 ≈ s2) as F2 by (by eapply frame_port_set).
  assert (frame s s2) as F12 by (etrans; [done|apply F2]).
  assert (k_ports s2 !! p = Some p2) as E2 by apply lookup_insert_eq.
  assert (ports_wf s2) as W2 by (by eapply ports_wf_frame).
  assert (p_port_no p2 = p_port_no pp) as En.
  { destruct (frame_port _ _ _ _ F12 E2) as (q & Eq & [= Nq _]). rewrite Ep in Eq. injection Eq as <-. exact Nq. }
  apply wp_bind. eapply wp_mono.
  { apply wp_and; [by apply br_configuration_update_wf|by apply br_configuration_update_root]. }
  cbv beta. intros _ s3 [(F3 & W3 & _) H3].
  assert (b_root_port (k_br s3) <> p_port_no pp) as N3.
  { rewrite <- En. eapply H3; [|done|done]. by rewrite (fr_list _ _ F12). }
  apply wp_bind. eapply wp_mono; [by apply br_port_state_selection_ok|]. cbv beta. intros _ s4 F4.
  apply wp_bind, wp_br_get. apply (wp_mono _ (fun _ s' => s3 ≈ s')).
  - assert (ok s3 (when (br_is_root_bridge (id (k_br s4)) && negb (br_is_root_bridge (id (k_br s))))
      br_become_root_bridge)) as K by (ok_steps). by apply K.
  - cbv beta. intros _ s5 F5. by rewrite (sr_port _ _ (proj2 F5)).
Qed.

(** ** Removing a port *)

(** The state with port [p], of device [d], gone. *)
Definition detach (s : kst) (d p : ptr) (dev : net_device) : kst :=
  s <| k_ports := delete p (k_ports s) |>
    <| k_devs := <[d := dev <| d_br_port := None |>]> (k_devs s) |>.

(** What must hold when [destroy_nbp p] runs: all is well but for [p], which
    nothing refers to any more. *)
Record detachable (s : kst) (p : ptr) : Prop := {
  da_stp : stp_wf s;
  da_dev : forall d dev q, k_devs s !! d = Some dev -> d_br_port dev = Some q ->
    (q ∈ b_port_list (k_br s) \/ q = p) /\ port_of s d q;
  da_hash : hash_wf s;
  da_age : age_wf s;
  da_dst : dst_wf s;
  da_list : p ∉ b_port_list (k_br s);
  da_unused : forall e f, linked s e f -> f_dst f <> p }.

Lemma detach_inv s d p pp dev :
  detachable s p -> k_ports s !! p = Some pp -> p_dev pp = d -> k_devs s !! d = Some dev ->
  bridge_inv (detach s d p dev).
Proof.
  intros [[W R] V H A D Nl U] Ep Pd Ed.
  assert (forall q qq, k_ports (detach s d p dev) !! q = Some qq <->
    q <> p /\ k_ports s !! q = Some qq) as Lk.
  { intros q qq. cbn. rewrite lookup_delete_Some. naive_solver. }
  assert (forall q, live (detach s d p dev) q <-> q <> p /\ live s q) as Lv.
  { intros q. unfold live, is_Some. setoid_rewrite Lk. naive_solver. }
  assert (d_br_port dev = Some p) as Edp.
  { destruct (wf_pdev _ W _ _ Ep) as (dv & E1 & E2). congruence. }
  assert (forall d', is_Some (k_devs s !! d') -> is_Some (k_devs (detach s d p dev) !! d')) as Dv.
  { intros d' [x Ex]. cbn. destruct (decide (d = d')) as [<-|]; [rewrite lookup_insert_eq|
      rewrite lookup_insert_ne]; eauto. }
  split; [split| |by destruct H|by destruct A|].
  - split.
    + apply W.
    + intros q Hq. apply Lv. split; [by intros ->|by apply W].
    + intros q qq [_ E]%Lk. by eapply W.
    + intros q r qq rr Hq Hr [_ E1]%Lk [_ E2]%Lk. by eapply (wf_inj _ W).
    + intros q qq [N E]%Lk. destruct (wf_pdev _ W _ _ E) as (dv & E1 & E2). exists dv. split; [|done].
      cbn. rewrite lookup_insert_ne; [done|]. intros Ed'. subst d. rewrite Ed' in Ed. congruence.
    + apply Dv, W.
    + intros q [_ L]%Lv. by apply W.
  - destruct R as [R1 R2]. split; [|done]. destruct R1 as [|(q & qq & Hq & Eq & Nq)]; [by left|].
    right. exists q, qq. split_and!; [done| |done]. apply Lk. split; [by intros ->|done].
  - intros d' dv q. cbn. rewrite lookup_insert_Some. intros [[<- <-]|[N E]] Eq; [done|].
    destruct (V d' dv q E Eq) as [Hl (qq & Eqq & Dq)]. assert (q <> p) as Nq by (intros ->; congruence).
    split; [by destruct Hl|]. exists qq. split; [by apply Lk|done].
  - intros e f L. apply Lv. split; [by eapply U|by eapply D].
Qed.

Lemma destroy_nbp_spec s p :
  detachable s p -> live s p ->
  wp (destroy_nbp p) (fun _ s' => bridge_inv s' /\
    b_port_list (k_br s') = b_port_list (k_br s) /\ k_ports s' !! p = None) s.
Proof.
  intros D L. unfold destroy_nbp. apply wp_bind, wp_port_get; [done|]. intros pp Ep.
  destruct (wf_pdev _ (proj1 (da_stp _ _ D)) _ _ Ep) as (dev & Ed & _).
  apply wp_bind, wp_dev_set; [eauto|]. intros dev' Ed'. apply wp_modify.
  split_and!; [by eapply (detach_inv s _ p pp dev')|done|]. cbn. apply lookup_delete_eq.
Qed.

Lemma destroy_nbp_safe s p : detachable s p -> live s p -> safe (destroy_nbp p) s.
Proof. intros D L. eapply wp_mono; [by apply destroy_nbp_spec|]. cbv beta. by intros _ s' [I _]. Qed.

(** Changes to a device's own attributes stay in the frame. *)
Lemma frame_dev_set s d dev dev' :
  k_devs s !! d = Some dev -> d_br_port dev' = d_br_port dev ->
  s ≈ s <| k_devs := <[d := dev']> (k_devs s) |>.
Proof.
  intros H K. split; split; try done. intros d'.
  change (d_br_port <$> <[d := dev']> (k_devs s) !! d' = d_br_port <$> k_devs s !! d').
  destruct (decide (d = d')) as [->|].
  - rewrite lookup_insert_eq, H. simpl. by f_equal.
  - by rewrite lookup_insert_ne.
Qed.

Lemma ok_dev_set s0 d f :
  is_Some (k_devs s0 !! d) -> (forall dev, d_br_port (f dev) = d_br_port dev) -> ok s0 (dev_set d f).
Proof.
  intros [dev0 H0] K s F. apply wp_dev_set.
  { destruct (frame_dev _ _ _ _ (symmetry (frame_eq_frame _ _ F)) H0) as (? & ? & _). eauto. }
  intros dev E. etrans; [done|]. by eapply frame_dev_set.
Qed.

Lemma dev_set_promiscuity_ok s d inc : is_Some (k_devs s !! d) -> ok s (dev_set_promiscuity d inc).
Proof. intros L. by apply ok_dev_set. Qed.

(** Unlisting a port that is not the root port. *)
Lemma unlist_detachable s p pp :
  bridge_inv s -> k_ports s !! p = Some pp -> p ∈ b_port_list (k_br s) ->
  b_root_port (k_br s) <> p_port_no pp -> (forall e f, linked s e f -> f_dst f <> p) ->
  detachable (s <| k_br := (k_br s) <| b_port_list := unlink p (b_port_list (k_br s)) |> |>) p.
Proof.
  intros [[W R] V H Ag D] Ep Hp Nr U. split; cbn.
  - split.
    + destruct W as [A B C E F G K]. split; cbn; try done.
      * by apply NoDup_unlink.
      * intros q [_ Hq]%elem_unlink. by apply B.
      * intros q r qq rr [_ Hq]%elem_unlink [_ Hr]%elem_unlink. by apply E.
    + destruct R as [R1 R2]. split; [|done]. cbn. destruct R1 as [|(q & qq & Hq & Eq & Nq)]; [by left|].
      right. exists q, qq. split_and!; [|done..]. apply elem_unlink. split; [|done]. congruence.
  - intros d dev q Ed Eb. destruct (V d dev q Ed Eb) as [Hq Po]. split; [|done].
    destruct (decide (q = p)); [by right|]. left. by apply elem_unlink.
  - by destruct H.
  - by destruct Ag.
  - done.
  - by intros [? _]%elem_unlink.
  - done.
Qed.

Lemma del_nbp_spec s p :
  bridge_inv s -> p ∈ b_port_list (k_br s) ->
  wp (del_nbp p) (fun _ s' => bridge_inv s' /\
    b_port_list (k_br s') = unlink p (b_port_list (k_br s)) /\ k_ports s' !! p = None) s.
Proof.
  intros I Hp. unfold del_nbp. assert (live s p) as Lp by (by apply I).
  apply wp_bind, wp_port_get; [done|]. intros pp Ep.
  destruct (wf_pdev _ (proj1 (bi_stp _ I)) _ _ Ep) as (dev & Ed & _).
  apply wp_bind. eapply wp_mono; [by apply (dev_set_promiscuity_ok s); [exists dev|]|].
  cbv beta. intros _ s1 F1. pose proof (inv_frame_eq _ _ I F1) as I1.
  pose proof (proj1 F1) as G1. assert (live s1 p) as L1 by (by eapply live_frame).
  destruct L1 as [p1 E1]. assert (p ∈ b_port_list (k_br s1)) as Hp1 by (by rewrite (fr_list _ _ G1)).
  apply wp_bind. eapply wp_mono.
  { apply wp_and.
    - apply (br_stp_disable_port_okf s1); [apply I1|by exists p1|done|apply I1].
    - by apply (br_stp_disable_port_root s1 p p1); [apply I1|..]. }
  cbv beta. intros _ s2 [[F2 W2] N2]. pose proof (inv_frame _ _ I1 F2 W2) as I2.
  apply wp_bind. eapply wp_mono; [apply br_fdb_delete_by_port_spec; apply I2|]. cbv beta.
  intros _ s3 [H3 A3 D3 F3 T3 _]. pose proof (inv_fdb _ _ I2 F3 H3 A3 D3) as I3.
  assert (p ∈ b_port_list (k_br s3)) as Hp3 by (by rewrite (ff_list _ _ F3), (fr_list _ _ F2)).
  destruct (frame_port s2 s1 p p1 (symmetry F2) E1) as (p2 & E2 & [= K2 _]).
  assert (k_ports s3 !! p = Some p2) as E3 by (by rewrite (ff_ports _ _ F3)).
  unfold port_list_del. apply wp_bind, wp_bind, wp_br_get. rewrite bool_decide_eq_true_2 by done.
  apply wp_br_set. set (s4 := _ <| k_br := _ |>).
  assert (detachable s4 p) as D4.
  { apply (unlist_detachable s3 p p2); try done.
    - rewrite (ff_root _ _ F3). congruence.
    - intros e f L E. by apply (T3 e f L), elem_of_nil in E. }
  apply wp_bind, wp_port_set; [by exists p2|]. intros p4 E4. set (s5 := _ <| k_ports := _ |>).
  assert (s4 ≈ s5) as F5 by (by eapply frame_port_set).
  assert (b_port_list (k_br s5) = unlink p (b_port_list (k_br s))) as <-.
  { cbn. by rewrite (ff_list _ _ F3), (fr_list _ _ F2), (fr_list _ _ G1). }
  apply destroy_nbp_spec; [|exists (p4 <| p_message_age_timer := del_timer (p_message_age_timer p4) |>
    <| p_forward_delay_timer := del_timer (p_forward_delay_timer p4) |>
    <| p_hold_timer := del_timer (p_hold_timer p4) |>); apply lookup_insert_eq].
  destruct D4 as [A B C Ag D E F]. split; try done.
  - by eapply stp_wf_frame.
  - intros d dv q Ed' Eb. destruct (B d dv q Ed' Eb). split; [done|]. by eapply port_of_frame; [apply F5|].
  - eapply hash_wf_frame; [apply F5|done].
  - eapply age_wf_frame; [apply F5|done].
  - eapply dst_wf_frame; [apply F5|done].
Qed.

Lemma del_nbp_safe s p : bridge_inv s -> p ∈ b_port_list (k_br s) -> safe (del_nbp p) s.
Proof. intros I Hp. eapply wp_mono; [by apply del_nbp_spec|]. cbv beta. by intros _ s' [I' _]. Qed.

(** Deleting the bridge removes its ports one by one. *)
Lemma del_br_spec s :
  bridge_inv s -> wp del_br (fun _ s' => bridge_inv s' /\ b_port_list (k_br s') = []) s.
Proof.
  intros I. unfold del_br. apply wp_bind, wp_br_get, wp_bind. eapply wp_mono.
  { apply (wp_for_each (fun _ rest s' => bridge_inv s' /\ b_port_list (k_br s') = rest)); [done|].
    intros dn p rest s1 _ [I1 E1]. eapply wp_mono; [apply del_nbp_spec; [done|rewrite E1; set_solver]|].
    cbv beta. intros _ s2 (I2 & E2 & _). split; [done|]. rewrite E2, E1. apply unlink_head.
    rewrite <- E1. apply I1. }
  cbv beta. intros _ s1 [I1 E1]. apply wp_br_set. split; [|done].
  eapply inv_frame_eq; [done|]. by apply frame_br_set.
Qed.

(** ** The MTU of the bridge *)
Lemma br_min_mtu_ok s : stp_wf s -> ok s br_min_mtu.
Proof.
  intros W. unfold br_min_mtu. ok_step.
  destruct (b_port_list (k_br s)) as [|q l] eqn:E; [ok_step|]. rewrite <- E.
  assert (forall p, p ∈ b_port_list (k_br s) -> live s p) as L by apply W. clear E.
  generalize 0 at 1. induction (b_port_list (k_br s)) as [|p ps IH]; intros m; [apply ok_ret|].
  simpl fold_each. apply ok_bind; [|intros; apply IH; set_solver].
  assert (live s p) by (apply L; set_solver). ok_step. ok_step; [|ok_step].
  apply ok_dev_get. by eapply wf_port_dev.
Qed.

Lemma dev_set_mtu_ok s m : stp_wf s -> ok s (dev_set_mtu m).
Proof.
  intros W. unfold dev_set_mtu, br_change_mtu. apply br_dev_ok; [done|]. intros dev.
  ok_step; [ok_step|]. ok_step; [ok_step|]. ok_step; [ok_step|].
  ok_step; [by apply br_min_mtu_ok|]. ok_step; [ok_step|].
  intros s1 F1. apply wp_bind, wp_br_get. rewrite (fr_dev _ _ (proj1 F1)). revert s1 F1.
  apply ok_bind; [|intros; ok_step]. apply ok_dev_set; [apply W|done].
Qed.

(** ** Adding a port *)
Lemma joined_attach s s' d p :
  joined s s' d p -> bridge_inv s ->
  detachable s' p /\ live s' p /\ (p ∉ b_port_list (k_br s')) /\ p = k_next s /\
  b_hash (k_br s') = b_hash (k_br s) /\ k_fdbs s' = k_fdbs s.
Proof.
  intros (l & pp & dev & Ia & -> & Ed & Nd & Pd & Pn & Fn & F) I. set (sa := s <| k_alloc := l |>) in *.
  pose proof (attach_unlisted sa d pp Ia Pd) as Nl. change (k_next sa) with (k_next s) in *.
  set (s1 := attach sa d (k_next s) pp dev) in *.
  assert (k_ports s1 !! (k_next s) = Some pp) as E1 by apply lookup_insert_eq.
  split_and!; [|by eapply live_frame; [apply F|exists pp]| |done|by rewrite (fr_hash _ _ (proj1 F))|
    by rewrite (fr_fdbs _ _ (proj1 F))].
  2: { by rewrite (fr_list _ _ (proj1 F)). }
  split.
  - eapply stp_wf_frame; [done|]. split; [by apply (attach_ports_wf sa d pp dev)|by apply (attach_root_wf sa d pp dev)].
  - intros d' dv q Ed' Eb. destruct (frame_dev _ _ _ _ (proj1 F) Ed') as (dv1 & Ed1 & Eb1).
    rewrite Eb1 in Eb. rewrite (fr_list _ _ (proj1 F)).
    enough ((q ∈ b_port_list (k_br s1) \/ q = k_next s) /\ port_of s1 d' q) as [? ?]
      by eauto using port_of_frame, frame_eq_frame.
    cbn in Ed1. apply lookup_insert_Some in Ed1 as [[<- <-]|[N Ed1]].
    + cbn in Eb. injection Eb as <-. split; [by right|]. by exists pp.
    + destruct (bi_dev _ Ia d' dv1 q Ed1 Eb) as [Hq (qq & Eq & Dq)]. split; [by left|].
      exists qq. split; [|done]. apply (attach_port sa d pp dev); [|done]. by intros ->.
  - eapply hash_wf_frame; [apply F|]. by apply (attach_hash_wf sa d pp dev).
  - eapply age_wf_frame; [apply F|]. by apply (attach_age_wf sa d pp dev).
  - eapply dst_wf_frame; [apply F|]. by apply (attach_dst_wf sa d pp dev).
  - by rewrite (fr_list _ _ (proj1 F)).
  - intros e f L. apply (attach_unused sa d pp dev Ia Pd e f).
    by apply (linked_ext s1 s' e f (fr_hash _ _ (proj1 F)) (fr_fdbs _ _ (proj1 F))).
Qed.

(** Putting the new port on the list. *)
Lemma joined_list s s' d p :
  joined s s' d p -> bridge_inv s ->
  forall s2, fdb_frame s' s2 -> hash_wf s2 -> age_wf s2 -> dst_wf s2 ->
  bridge_inv (s2 <| k_br := (k_br s2) <| b_port_list := p :: b_port_list (k_br s2) |> |>).
Proof.
  intros J I s2 F2 H2 A2 D2. destruct (joined_attach s s' d p J I) as (Dt & Lp & Nl & -> & _ & _).
  destruct J as (l & pp & dev & Ia & _ & Ed & Nd & Pd & Pn & Fn & F).
  pose proof (stp_wf_fdb _ _ F2 (da_stp _ _ Dt)) as [W R].
  assert (live s2 (k_next s)) as L2 by (by apply (live_fdb s' s2 _ F2)).
  assert (forall q qq, q ∈ b_port_list (k_br s2) -> k_ports s2 !! q = Some qq ->
    forall p2, k_ports s2 !! (k_next s) = Some p2 -> p_port_no qq <> p_port_no p2) as Fr.
  { intros q qq Hq Eq p2 E2. rewrite (ff_list _ _ F2), (fr_list _ _ (proj1 F)) in Hq.
    rewrite (ff_ports _ _ F2) in Eq, E2.
    destruct (frame_port _ _ _ _ (proj1 F) Eq) as (q1 & Eq1 & [= -> _]).
    destruct (frame_port _ _ _ _ (proj1 F) E2) as (p1 & Ep1 & [= -> _]).
    cbn in Ep1, Eq1. rewrite lookup_insert_eq in Ep1. injection Ep1 as <-.
    apply (Fn q q1); [done|]. rewrite lookup_insert_ne in Eq1; [done|].
    intros <-. by apply (attach_unlisted _ d pp Ia Pd). }
  split; [split| |by destruct H2|by destruct A2|done].
  - destruct W as [A B C E G K X]. split; cbn; try done.
    + constructor; [|done]. by rewrite (ff_list _ _ F2).
    + intros q [->|Hq]%elem_of_cons; [done|by apply B].
    + intros q r qq rr [->|Hq]%elem_of_cons [->|Hr]%elem_of_cons Eq Er N; [done|..|by eapply E].
      * by destruct (Fr r rr Hr Er qq Eq).
      * by destruct (Fr q qq Hq Eq rr Er).
  - destruct R as [R1 R2]. split; [|done]. cbn. destruct R1 as [|(q & qq & Hq & Eq & Nq)]; [by left|].
    right. exists q, qq. split_and!; [set_solver|done..].
  - intros d' dv q. cbn. rewrite (ff_devs _ _ F2). intros Ed' Eb.
    destruct (da_dev _ _ Dt d' dv q Ed' Eb) as [Hq Po]. split.
    + rewrite (ff_list _ _ F2). destruct Hq; set_solver.
    + unfold port_of in *. cbn. by rewrite (ff_ports _ _ F2).
Qed.

(** A failed insertion leaves the new port unused. *)
Lemma insert_detachable s s' p :
  detachable s p -> fdb_frame s s' -> hash_wf s' -> age_wf s' -> dst_wf s' ->
  (forall a v, length a = 6%nat -> fdb_lookup s a v -> fdb_lookup s' a v) -> detachable s' p.
Proof.
  intros [W V H A D Nl U] F H' A' D' Un. split; try done.
  - by eapply stp_wf_fdb.
  - intros d dev q. unfold port_of. rewrite (ff_devs _ _ F), (ff_list _ _ F), (ff_ports _ _ F). apply V.
  - by rewrite (ff_list _ _ F).
  - intros e f L E. destruct (L) as [Ef [i Hi]].
    destruct (hw_entry _ H' i e Hi) as (f' & Ef' & _ & La & _). simplify_eq.
    destruct (fdb_lookup_total s (f_addr f) H La) as [v Lv].
    assert (fdb_lookup s' (f_addr f) (Some (f_dst f, f_is_local f))) as L1 by (by exists e, f).
    rewrite (fdb_lookup_fun s' _ v _ H' (Un _ v La Lv) L1) in Lv.
    destruct Lv as (e0 & f0 & L0 & _ & E0 & _). by eapply U.
Qed.

Lemma joined_dev s s' d p : joined s s' d p -> is_Some (k_devs s' !! d).
Proof.
  intros (l & pp & dev & _ & _ & Ed & _ & _ & _ & _ & F).
  destruct (frame_dev s' (attach (s <| k_alloc := l |>) d p pp dev) d (dev <| d_br_port := Some p |>))
    as (dv & E & _); [by symmetry; apply F|apply lookup_insert_eq|eauto].
Qed.

Lemma br_dev_up_ok s : stp_wf s -> ok s br_dev_up.
Proof. intros W. unfold br_dev_up. apply br_dev_ok; [done|]. intros. ok_step. Qed.

(** The tail of [br_add_if], the new port being listed. *)
Lemma add_if_tail_okf s d p :
  ports_wf s -> live s p -> is_Some (k_devs s !! d) ->
  okf s (br_stp_recalculate_bridge_id;;
         up ← br_dev_up;
         dev ← dev_get d;
         when (up && truth (Z.land (d_flags dev) IFF_UP) && d_carrier dev) (br_stp_enable_port p);;
         mtu ← br_min_mtu;
         dev_set_mtu mtu;;
         ret 0).
Proof.
  intros W L [dv Ed].
  apply okf_bind; [by apply br_stp_recalculate_bridge_id_okf|]. intros _.
  apply okf_bind; [apply okf_ok; intros; by apply br_dev_up_ok|]. intros up.
  apply okf_bind.
  { apply okf_ok. intros s1 F1 _. apply ok_dev_get.
    destruct (frame_dev _ _ _ _ (symmetry F1) Ed) as (? & ? & _). eauto. }
  intros dev. apply okf_bind; [apply okf_when; intros _; by apply br_stp_enable_port_okf|]. intros _.
  apply okf_bind; [apply okf_ok; intros; by apply br_min_mtu_ok|]. intros mtu.
  apply okf_bind; [apply okf_ok; intros; by apply dev_set_mtu_ok|]. intros _. apply okf_ret.
Qed.

(** [br_add_if], when sysfs makes no trouble. *)
Lemma br_add_if_safe s d dev :
  bridge_inv s -> k_devs s !! d = Some dev -> length (d_addr dev) = 6%nat -> unlearned s (d_addr dev) ->
  safe (br_add_if 0 d) s.
Proof.
  intros I Ed La Ul. unfold br_add_if. apply wp_bind, wp_dev_get; [by exists dev|]. intros dev' Ed'.
  assert (dev' = dev) as -> by congruence. clear Ed'.
  destruct (_ || _); [by apply wp_ret|]. destruct (d_is_bridge dev); [by apply wp_ret|].
  destruct (d_br_port dev) as [q|] eqn:Nd; [by apply wp_ret|].
  apply wp_bind. eapply wp_mono; [by apply (new_nbp_spec s d dev)|]. cbv beta.
  intros [e|p] s1 J; [destruct J as [_ [l ->]]; by apply wp_ret, inv_alloc|].
  destruct (joined_attach _ _ _ _ J I) as (Dt & Lp & Nl & Ep & Eh & Ef).
  apply wp_bind. eapply wp_mono.
  { apply (fdb_insert_total s1 p (d_addr dev) 1); [apply Dt..|done|done|].
    intros _ e f L. apply Ul with e. by apply (linked_ext s s1 e f Eh Ef). }
  cbv beta. intros err s2 (H2 & Ag2 & D2 & F2 & Un). destruct (truth err) eqn:Te.
  - apply safe_bind; [|intros; by apply safe_ret].
    apply destroy_nbp_safe; [|by apply (live_fdb s1 s2 _ F2)]. apply (insert_detachable s1); try done.
    apply Un. intros ->. done.
  - simpl truth. cbv iota.
    apply wp_bind. eapply wp_mono.
    { apply (dev_set_promiscuity_ok s2 d 1); [|done]. rewrite (ff_devs _ _ F2).
      by eapply joined_dev. }
    cbv beta. intros _ s3 F3. apply wp_bind, wp_br_set. set (s4 := _ <| k_br := _ |>).
    assert (bridge_inv s4) as I4.
    { eapply (inv_frame_eq _ s4 (joined_list _ _ _ _ J I s2 F2 H2 Ag2 D2)).
      destruct F3 as [[A1 A2 A3 A4 A5 A6 A7 A8] [B1 B2 B3]].
      split; split; cbn; try done. by rewrite A1. }
    apply safe_okf; [done|]. apply add_if_tail_okf; [apply I4|apply I4; cbn; set_solver|].
    destruct (joined_dev _ _ _ _ J) as [dv Edv]. rewrite <- (ff_devs _ _ F2) in Edv.
    destruct (frame_dev s3 s2 d dv (symmetry (proj1 F3)) Edv) as (dv3 & E3 & _). by exists dv3.
Qed.

Lemma br_del_if_safe s d : bridge_inv s -> is_Some (k_devs s !! d) -> safe (br_del_if d) s.
Proof.
  intros I L. unfold br_del_if. apply wp_bind, wp_dev_get; [done|]. intros dev Ed.
  apply wp_bind, wp_br_get. destruct (d_br_port dev) as [p|] eqn:Eb; [|by apply wp_ret].
  case_bool_decide as Hp; [|by apply wp_ret].
  apply safe_bind; [by apply del_nbp_safe|]. intros _ s1 I1.
  apply safe_bind; [apply safe_okf, br_stp_recalculate_bridge_id_okf, I1; done|].
  intros _ s2 I2. by apply safe_ret.
Qed.

Lemma br_del_if_spec s d dev p :
  bridge_inv s -> k_devs s !! d = Some dev -> d_br_port dev = Some p ->
  wp (br_del_if d) (fun r s' => r = 0 /\ bridge_inv s' /\ k_ports s' !! p = None /\
    b_port_list (k_br s') = unlink p (b_port_list (k_br s)) /\
    forall e f, linked s' e f -> f_dst f <> p) s.
Proof.
  intros I Ed Eb. destruct (bi_dev _ I d dev p Ed Eb) as [Hp _].
  unfold br_del_if. apply wp_bind, wp_dev_get; [by exists dev|]. intros dev' Ed'.
  assert (dev' = dev) as -> by congruence. rewrite Eb. apply wp_bind, wp_br_get.
  rewrite bool_decide_eq_true_2 by done.
  apply wp_bind. eapply wp_mono; [by apply del_nbp_spec|]. cbv beta. intros _ s1 (I1 & L1 & N1).
  apply wp_bind. eapply wp_mono; [apply (br_stp_recalculate_bridge_id_okf s1); [apply I1|done|apply I1]|].
  cbv beta. intros _ s2 [F2 W2]. apply wp_ret. pose proof (inv_frame _ _ I1 F2 W2) as I2.
  assert (k_ports s2 !! p = None) as N2.
  { pose proof (fr_ports _ _ F2 p) as K. rewrite N1 in K. by destruct (k_ports s2 !! p). }
  split_and!; [done|done|done|by rewrite (fr_list _ _ F2)|].
  intros e f L E. destruct (bi_dst _ I2 e f L) as [x Ex]. congruence.
Qed.

Lemma br_dev_up_spec s :
  ports_wf s ->
  wp br_dev_up (fun b s' => s' = s /\ exists dev, k_devs s !! b_dev (k_br s) = Some dev /\
    b = truth (Z.land (d_flags dev) IFF_UP)) s.
Proof.
  intros W. unfold br_dev_up. apply wp_bind, wp_br_get, wp_bind, wp_dev_get; [apply W|].
  intros dev Ed. apply wp_ret. eauto.
Qed.

Lemma br_device_event_safe s ev d dev :
  bridge_inv s -> k_devs s !! d = Some dev -> length (d_addr dev) = 6%nat ->
  (ev = NETDEV_CHANGEADDR -> unlearned s (d_addr dev)) ->
  safe (br_device_event ev d) s.
Proof.
  intros I Ed La Ul. unfold br_device_event. apply wp_bind, wp_dev_get; [by exists dev|]. intros dev' Ed'.
  assert (dev' = dev) as -> by congruence. clear Ed'.
  destruct (d_br_port dev) as [p|] eqn:Eb; [|by apply wp_ret].
  destruct (bi_dev _ I d dev p Ed Eb) as [Hp _].
  assert (live s p) as L by (by apply I). pose proof (proj1 (bi_stp _ I)) as W.
  apply wp_bind. eapply wp_mono; [by apply br_dev_up_spec|]. cbv beta. intros up s1 [-> _].
  apply wp_bind, wp_port_get; [done|]. intros pp Ep.
  destruct ev.
  - apply safe_ok; [done|]. ok_step; [apply br_min_mtu_ok, I|]. ok_step; [apply dev_set_mtu_ok, I|ok_step].
  - apply wp_bind. eapply wp_mono; [by apply br_fdb_changeaddr_safe; [..|apply Ul]|]. cbv beta. intros _ s1 [I1 F1].
    apply safe_okf, br_stp_recalculate_bridge_id_okf, I1. done.
  - apply safe_okf; [done|]. apply okf_when. intros _. destruct (d_carrier dev); apply okf_when; intros _.
    + by apply br_stp_enable_port_okf.
    + by apply br_stp_disable_port_okf.
  - apply safe_okf; [done|]. apply okf_when. intros _. by apply br_stp_disable_port_okf.
  - apply safe_okf; [done|]. apply okf_when. intros _. by apply br_stp_enable_port_okf.
  - apply safe_bind; [by apply br_del_if_safe; [|exists dev]|]. intros _ s1 I1. by apply safe_ret.
Qed.

(** ** Received frames *)

(** A hook of the routing code gives back a frame of the same device. *)
Definition hook_ok (hook : option (sk_buff -> bool * sk_buff)) : Prop :=
  forall f skb, hook = Some f ->
    skb_dev (f skb).2 = skb_dev skb /\ length (skb_mac (f skb).2) = length (skb_mac skb).

Lemma br_stp_handle_bpdu_okf s skb dev p :
  ports_wf s -> k_devs s !! skb_dev skb = Some dev -> d_br_port dev = Some p -> live s p ->
  okf s (br_stp_handle_bpdu skb).
Proof.
  intros W Ed Eb L s1 F1 W1. unfold br_stp_handle_bpdu.
  destruct (frame_dev _ _ _ _ (symmetry F1) Ed) as (dv & Ed1 & Eb1).
  apply wp_bind, wp_dev_get; [eauto|]. intros dv' Ed1'. simplify_eq.
  apply wp_bind. eapply wp_deref; [by rewrite <- Eb1|]. clear dv Ed1 Eb1. revert s1 F1 W1.
  apply okf_bind_port; [done|]. intros s2 pp _ _. destruct (_ || _); [apply okf_ret|]. cbv zeta.
  apply okf_bind_br. intros s3 _ _.
  apply okf_bind; [apply okf_ok; intros; by apply br_dev_up_ok|]. intros up.
  destruct (_ || _); [apply okf_ret|]. destruct (_ =? _).
  - destruct (_ <? _); [apply okf_ret|]. by apply br_received_config_bpdu_okf.
  - apply okf_when. intros _. apply okf_ok. intros s4 F4 W4.
    apply br_received_tcn_bpdu_ok; [done|by eapply live_frame].
Qed.

Lemma br_handle_frame_safe s hook p skb dev :
  bridge_inv s -> hook_ok hook -> k_devs s !! skb_dev skb = Some dev -> d_br_port dev = Some p ->
  (12 <= length (skb_mac skb))%nat ->
  safe (br_handle_frame hook p skb) s.
Proof.
  intros I Hk Ed Eb Lm. destruct (bi_dev _ I _ _ _ Ed Eb) as [Hp _].
  assert (live s p) as L by (by apply I). unfold br_handle_frame. cbv zeta.
  apply wp_bind, wp_port_get; [done|]. intros pp Ep.
  destruct (_ =? _); [by apply wp_ret|]. destruct (truth _); [by apply wp_ret|].
  apply wp_bind. apply (wp_mono _ (fun _ s' => bridge_inv s' /\ fdb_frame s s')).
  { apply wp_when; intros _; [|done]. apply wp_bind. eapply wp_mono.
    { apply (fdb_insert_total s p (h_source skb) 0); [apply I..|done| |done].
      unfold h_source. rewrite length_take, length_drop. lia. }
    cbv beta. intros r s1 (H1 & A1 & D1 & F1 & _). apply wp_ret. split; [by eapply inv_fdb|done]. }
  cbv beta. intros _ s1 [I1 F1]. rewrite <- (ff_devs _ _ F1) in Ed.
  assert (live s1 p) as L1 by (by apply (live_fdb s s1 _ F1)).
  apply wp_bind, wp_br_get. change (id (k_br s1)) with (k_br s1). destruct (_ && _).
  { destruct (negb _); [|by apply wp_ret]. apply safe_bind; [|intros; by apply safe_ret].
    apply safe_okf; [done|]. eapply br_stp_handle_bpdu_okf; eauto. apply I1. }
  destruct (_ =? _); [|by apply wp_ret].
  destruct (match hook with Some f => f skb | None => (false, skb) end) as [route skb'] eqn:Er.
  assert (skb_dev skb' = skb_dev skb /\ length (skb_mac skb') = length (skb_mac skb)) as [Ev El].
  { destruct hook as [f|]; [|by simplify_eq]. destruct (Hk f skb eq_refl) as [A B].
    by rewrite Er in A, B. }
  destruct route; [by apply wp_ret|].
  apply wp_bind, wp_dev_get; [apply I1|]. intros brdev _.
  apply safe_bind; [|intros; by apply safe_ret]. apply safe_ok; [done|].
  match goal with |- ok _ (br_handle_frame_finish ?x) =>
    assert (skb_dev x = skb_dev skb /\ length (skb_mac x) = length (skb_mac skb)) as [Ex Lx]
      by (destruct (memcmp _ _ _ =? 0); split; cbn; assumption) end.
  apply (br_handle_frame_finish_ok s1 (bi_stp _ I1) (bi_hash _ I1) (bi_dst _ I1) _ dev p).
  - by rewrite Ex.
  - done.
  - by rewrite Lx.
Qed.
