(* ===== verification/BridgeAdmin.v ===== *)
(** * The administrative interface: what it reports, and that it is safe *)
From S2P Require Import Prelude LibString BridgeData BridgeBpdu BridgeStp BridgeTimer.
From S2P Require Import BridgeStpIf BridgeWf BridgeSafe BridgeRoot BridgeHandlers BridgeFdb.
From S2P Require Import BridgeFdbSpec BridgeFdbAge BridgeForward BridgePath BridgeIf.
From S2P Require Import BridgePorts BridgeIoctl.

(** ** The forwarding table dump *)

(** The record of an entry, its port being live. *)
Definition record_of (s : kst) (e : ptr) : list fdb_record :=
  match k_fdbs s !! e with
  | Some f =>
      match k_ports s !! f_dst f with
      | Some port =>
          if has_expired (k_br s) (k_jiffies s) f then []
          else [{| fe_mac_addr := f_addr f; fe_port_no := u8 (p_port_no port);
                   fe_is_local := f_is_local f;
                   fe_ageing_timer_value :=
                     if truth (f_is_static f) then 0
                     else u32 (jiffies_to_clock_t (k_jiffies s - f_ageing_timer f)) |}]
      | None => []
      end
  | None => []
  end.

(** The table as a list: the unexpired entries, in hash order. *)
Definition fdb_table (s : kst) : list fdb_record :=
  concat (record_of s <$> concat (b_hash (k_br s))).

Lemma fdb_fill_loop_spec s maxnum l num skip acc :
  0 <= num -> 0 <= skip ->
  (forall e, e ∈ l -> exists f, k_fdbs s !! e = Some f /\ live s (f_dst f)) ->
  wp (fdb_fill_loop (k_br s) (k_jiffies s) maxnum l num skip acc) (fun r s' => s' = s /\
    r = acc ++ take (Z.to_nat (maxnum - num)) (drop (Z.to_nat skip) (concat (record_of s <$> l)))) s.
Proof.
  revert num skip acc. induction l as [|e l IH]; intros num skip acc Hn Hs Hl; simpl.
  - apply wp_ret. rewrite drop_nil, take_nil, app_nil_r. done.
  - destruct (Hl e) as (f & Ef & Lf); [set_solver|].
    apply wp_bind, wp_fdb_get with f; [done|].
    destruct (Z.geb_spec num maxnum) as [G|G].
    { apply wp_ret. replace (Z.to_nat (maxnum - num)) with 0%nat by lia.
      by rewrite take_0, app_nil_r. }
    unfold record_of at 1. rewrite Ef. destruct Lf as [port Ep]. rewrite Ep.
    destruct (has_expired _ _ f); [apply IH; [lia..|set_solver]|].
    unfold truth. destruct (Z.eqb_spec skip 0) as [->|Nz].
    + apply wp_bind, wp_port_get; [by exists port|]. intros port' Ep'. simplify_eq.
      eapply wp_mono; [apply IH; [lia..|set_solver]|]. cbv beta. intros r s' [-> ->]. split; [done|].
      rewrite <- app_assoc. f_equal. replace (Z.to_nat (maxnum - num)) with (S (Z.to_nat (maxnum - (num + 1)))) by lia.
      done.
    + cbn [negb]. eapply wp_mono; [apply IH; [lia..|set_solver]|]. cbv beta. intros r s' [-> ->].
      split; [done|]. replace (Z.to_nat skip) with (S (Z.to_nat (skip - 1))) by lia. done.
Qed.

Lemma br_fdb_fillbuf_spec s maxnum skip :
  hash_wf s -> dst_wf s -> 0 <= skip ->
  wp (br_fdb_fillbuf maxnum skip) (fun r s' => s' = s /\
    r = take (Z.to_nat maxnum) (drop (Z.to_nat skip) (fdb_table s))) s.
Proof.
  intros H D Hs. unfold br_fdb_fillbuf. apply wp_bind, wp_br_get, wp_bind, wp_jiffies.
  change (id (k_br s)) with (k_br s). eapply wp_mono.
  { apply (fdb_fill_loop_spec s maxnum (concat (b_hash (k_br s))) 0 skip []); [lia|done|].
    intros e [f L]%linked_concat; [|done]. exists f. split; [apply L|by eapply D]. }
  cbv beta. intros r s' [-> ->]. by rewrite Z.sub_0_r.
Qed.

(** Within 2^28 records the size of the buffer does not wrap. *)
Lemma get_fdb_entries_ok s u maxnum offset :
  hash_wf s -> dst_wf s -> 0 <= maxnum < 2 ^ 28 -> 0 <= offset ->
  wp (get_fdb_entries u maxnum offset) (fun r s' => (exists l, s' = s <| k_alloc := l |>) /\
    (r = (- ENOMEM, Nothing) \/ r = (- EFAULT, Nothing) \/
     let l := take (Z.to_nat (Z.min maxnum 256)) (drop (Z.to_nat offset) (fdb_table s)) in
     r = (Z.of_nat (length l), FdbEntries l))) s.
Proof.
  intros H D Hm Ho. unfold get_fdb_entries, sizeof_fdb_entry, PAGE_SIZE. cbv zeta.
  rewrite u32_small by lia. change (4096 / 16) with 256.
  assert ((if maxnum * 16 >? 4096 then (4096, 256) else (maxnum * 16, maxnum)) =
          (Z.min maxnum 256 * 16, Z.min maxnum 256)) as ->.
  { destruct (Z.gtb_spec (maxnum * 16) 4096); f_equal; lia. }
  apply wp_bind. apply (wp_mono _ (fun _ s' => exists l, s' = s <| k_alloc := l |>)).
  { apply wp_alloc_ok; [eauto|]. exists (k_alloc s). by destruct s. }
  cbv beta. intros b s1 [l ->]. destruct b; simpl negb; cbv iota; [|apply wp_ret; eauto].
  apply wp_bind. eapply wp_mono; [by apply br_fdb_fillbuf_spec; [destruct H|..]|]. cbv beta.
  intros r s' [-> ->]. set (t := take _ _).
  assert (Z.of_nat (length t) <= Z.min maxnum 256) as Lt.
  { unfold t. rewrite length_take. lia. }
  destruct (Z.gtb_spec (Z.of_nat (length t) * 16) (Z.min maxnum 256 * 16)) as [G|G]; [lia|].
  destruct (_ && _); apply wp_ret; eauto.
Qed.

(** ** Safety of every request *)
Lemma br_timer_value_ok s t : ok s (br_timer_value t).
Proof. unfold br_timer_value. ok_steps. Qed.
#[export] Hint Resolve br_timer_value_ok : ok.

Lemma get_bridge_info_ok s : ok s get_bridge_info.
Proof. unfold get_bridge_info. ok_steps. Qed.

Lemma get_port_info_ok s p : live s p -> ok s (get_port_info p).
Proof. intros L. unfold get_port_info. ok_steps. Qed.

Lemma get_port_ifindices_ok s num : stp_wf s -> ok s (get_port_ifindices num).
Proof.
  intros W. unfold get_port_ifindices. ok_step.
  assert (forall p, p ∈ b_port_list (k_br s) -> live s p) as L by apply W.
  generalize (replicate (Z.to_nat num) 0).
  induction (b_port_list (k_br s)) as [|p ps IH]; intros a; [apply ok_ret|].
  simpl fold_each. apply ok_bind; [|intros; apply IH; set_solver].
  assert (live s p) by (apply L; set_solver). ok_step. ok_step; [|ok_step].
  ok_step; [|ok_step]. apply ok_dev_get. by eapply wf_port_dev.
Qed.

Lemma admin_set_safe u m s : bridge_inv s -> safe m s -> safe (admin_set u m) s.
Proof.
  intros I H. unfold admin_set. destruct (negb _); [by apply safe_ret|].
  apply safe_bind; [done|]. intros. by apply safe_ret.
Qed.

(** Requests that name a port by its number. *)
Lemma with_port_safe {A} s n (k : ptr -> M kst A) (m : M kst A) :
  bridge_inv s -> (forall p, p ∈ b_port_list (k_br s) -> safe (k p) s) -> safe m s ->
  safe (p ← br_get_port n; match p with None => m | Some p => k p end) s.
Proof.
  intros I Hk Hm. apply wp_bind. eapply wp_mono; [apply br_get_port_spec; apply I|]. cbv beta.
  intros [p|] s' [-> H]; [by apply Hk, H|done].
Qed.

Definition dev_addrs_wf (s : kst) : Prop :=
  forall d dev, k_devs s !! d = Some dev -> length (d_addr dev) = 6%nat.

(** The device with that index has not been learned as a host. *)
Definition joins_unlearned (s : kst) (ifindex : Z) : Prop :=
  forall d dev, k_devs s !! d = Some dev -> d_ifindex dev = ifindex -> unlearned s (d_addr dev).

Lemma add_del_if_safe s u n isadd :
  bridge_inv s -> dev_addrs_wf s -> (isadd = true -> joins_unlearned s n) -> safe (add_del_if 0 u n isadd) s.
Proof.
  intros I A Ul. unfold add_del_if. destruct (negb _); [by apply safe_ret|].
  unfold dev_get_by_index. apply wp_bind, wp_gets.
  destruct (head _) as [d|] eqn:E; [|by apply safe_ret].
  apply head_Some_elem_of in E. apply list_elem_of_fmap in E as ([d' dev] & -> & E).
  apply list_elem_of_filter in E as [Ei E%elem_of_map_to_list]. simpl in *.
  destruct isadd; [eapply br_add_if_safe; [done..|by eapply A|by eapply Ul]|]. apply br_del_if_safe; [done|by exists dev].
Qed.

(** The requests whose buffer arithmetic does not wrap. *)
Definition args_ok (u : uenv) : Prop :=
  match u_args u with
  | Some [a0; a1; a2; a3] => 0 <= a2 /\ 0 <= a3 /\ (a0 = BRCTL_GET_FDB_ENTRIES -> a2 < 2 ^ 28)
  | _ => True
  end.

(** A device that becomes a port has not been learned as a host. *)
Definition add_ok (u : uenv) (s : kst) : Prop :=
  match u_args u with
  | Some [a0; a1; _; _] => a0 = BRCTL_ADD_IF -> joins_unlearned s (s32 a1)
  | _ => True
  end.

Lemma old_dev_ioctl_safe s u :
  bridge_inv s -> dev_addrs_wf s -> args_ok u -> add_ok u s -> safe (old_dev_ioctl 0 u) s.
Proof.
  intros I A Hu Ha. pose proof (bi_stp _ I) as W. unfold old_dev_ioctl, args_ok, add_ok in *.
  destruct (u_args u) as [[|a0 [|a1 [|a2 [|a3 [|]]]]]|]; try by apply safe_ret.
  repeat match goal with
  | |- safe (if (a0 =? ?c) || _ then _ else _) _ => destruct (_ || _)
  | |- safe (if a0 =? ?c then _ else _) _ => destruct (Z.eqb_spec a0 c)
  end.
  - apply safe_bind; [|intros; by apply safe_ret]. apply add_del_if_safe; [done..|].
    intros E%Z.eqb_eq. by apply Ha.
  - apply safe_ok; [done|]. ok_step; [apply get_bridge_info_ok|ok_step].
  - cbv zeta. destruct (_ <? _); [by apply safe_ret|]. apply safe_ok; [done|].
    ok_step; [ok_step|]. ok_step; [ok_step|]. ok_step; [by apply get_port_ifindices_ok|ok_step].
  - apply admin_set_safe; [done|]. apply safe_ok; [done|]. ok_steps.
  - apply admin_set_safe; [done|]. apply safe_ok; [done|]. ok_steps.
  - apply admin_set_safe; [done|]. apply safe_ok; [done|]. ok_steps.
  - apply admin_set_safe; [done|]. apply safe_ok; [done|]. ok_steps.
  - apply with_port_safe; [done| |by apply safe_ret]. intros p Hp. apply safe_ok; [done|].
    ok_step; [apply get_port_info_ok; by apply W|ok_step].
  - apply admin_set_safe; [done|]. apply safe_ok; [done|]. ok_steps.
  - apply admin_set_safe; [done|]. apply safe_bind; [|intros; by apply safe_ret].
    apply safe_okf; [done|]. apply br_stp_set_bridge_priority_okf, W.
  - apply admin_set_safe; [done|]. destruct (_ >=? _); [by apply safe_ret|].
    apply with_port_safe; [done| |by apply safe_ret]. intros p Hp.
    apply safe_bind; [|intros; by apply safe_ret]. apply safe_okf; [done|].
    by apply br_stp_set_port_priority_okf, W.
  - apply admin_set_safe; [done|]. apply with_port_safe; [done| |by apply safe_ret]. intros p Hp.
    apply safe_bind; [|intros; by apply safe_ret]. apply safe_okf; [done|].
    by apply br_stp_set_path_cost_okf; [apply W|apply W].
  - destruct Hu as (H2 & H3 & H4). eapply wp_mono; [apply get_fdb_entries_ok; [apply I|apply I| |done]|].
    + split; [done|by apply H4].
    + cbv beta. intros r s' [[l ->] _]. by apply inv_alloc.
  - by apply safe_ret.
Qed.
