(* ===== verification/BridgeSystem.v ===== *)
(** * The bridge as a state machine

    The kernel calls into the bridge when a frame arrives or is sent, when a
    timer expires, when a device changes, and on administrative requests.
    [step] is one such call, from the condition under which the kernel makes
    it; [reachable] closes the initial state of [new_bridge_dev] under it. *)
From S2P Require Import Prelude LibString BridgeData BridgeBpdu BridgeStp BridgeTimer.
From S2P Require Import BridgeStpIf BridgeWf BridgeSafe BridgeRoot BridgeHandlers BridgeFdb.
From S2P Require Import BridgeFdbSpec BridgeFdbAge BridgeForward BridgePath BridgeIf.
From S2P Require Import BridgePorts BridgeIoctl BridgeAdmin.

Inductive event :=
  | EvFrame (skb : sk_buff)
  | EvXmit (frame : list Z)
  | EvHello | EvTcn | EvTopologyChange | EvGc
  | EvMessageAge (p : ptr) | EvForwardDelay (p : ptr) | EvHold (p : ptr)
  | EvOpen | EvStop
  | EvDevice (ev : netdev_event) (d : ptr)
  | EvIoctl (sysfs_err : Z) (u : uenv)
  | EvLink (d : ptr) (flags : Z) (carrier : bool) (mtu : Z)   (* a driver's own changes *)
  | EvTick (n : Z).

(** A timer that is due. *)
Definition due (s : kst) (t : timer_list) : bool :=
  timer_pending t && time_after_eq (k_jiffies s) (t_expires t).

(** The kernel makes the call. *)
Definition port_timer_due (s : kst) (p : ptr) (t : net_bridge_port -> timer_list) : Prop :=
  p ∈ b_port_list (k_br s) /\ exists pp, k_ports s !! p = Some pp /\ due s (t pp) = true.

Definition enabled (e : event) (s : kst) : Prop :=
  match e with
  | EvFrame skb => exists dev p, k_devs s !! skb_dev skb = Some dev /\ d_br_port dev = Some p /\
      (14 <= length (skb_mac skb))%nat
  | EvXmit frame => (14 <= length frame)%nat
  | EvHello => due s (b_hello_timer (k_br s)) = true
  | EvTcn => due s (b_tcn_timer (k_br s)) = true
  | EvTopologyChange => due s (b_topology_change_timer (k_br s)) = true
  | EvGc => due s (b_gc_timer (k_br s)) = true
  | EvMessageAge p => port_timer_due s p p_message_age_timer
  | EvForwardDelay p => port_timer_due s p p_forward_delay_timer
  | EvHold p => port_timer_due s p p_hold_timer
  | EvDevice _ d => exists dev, k_devs s !! d = Some dev /\ length (d_addr dev) = 6%nat
  | EvIoctl _ _ => dev_addrs_wf s
  | EvLink d _ _ _ => is_Some (k_devs s !! d)
  | EvTick n => 0 <= n
  | EvOpen | EvStop => True
  end.

(** The timer core dequeues a timer before it calls the handler. *)
Definition handle (hook : option (sk_buff -> bool * sk_buff)) (e : event) : M kst unit :=
  match e with
  | EvFrame skb =>
      dev ← dev_get (skb_dev skb);
      p ← deref (d_br_port dev);
      br_handle_frame hook p skb;; ret tt
  | EvXmit frame => br_dev_xmit frame
  | EvHello =>
      br_set (fun br => br <| b_hello_timer := del_timer (b_hello_timer br) |>);;
      br_hello_timer_expired
  | EvTcn =>
      br_set (fun br => br <| b_tcn_timer := del_timer (b_tcn_timer br) |>);;
      br_tcn_timer_expired
  | EvTopologyChange =>
      br_set (fun br => br <| b_topology_change_timer := del_timer (b_topology_change_timer br) |>);;
      br_topology_change_timer_expired
  | EvGc =>
      br_set (fun br => br <| b_gc_timer := del_timer (b_gc_timer br) |>);;
      br_fdb_cleanup
  | EvMessageAge p =>
      port_set p (fun pp => pp <| p_message_age_timer := del_timer (p_message_age_timer pp) |>);;
      br_message_age_timer_expired p
  | EvForwardDelay p =>
      port_set p (fun pp => pp <| p_forward_delay_timer := del_timer (p_forward_delay_timer pp) |>);;
      br_forward_delay_timer_expired p
  | EvHold p =>
      port_set p (fun pp => pp <| p_hold_timer := del_timer (p_hold_timer pp) |>);;
      br_hold_timer_expired p
  | EvOpen => br_dev_open
  | EvStop => br_dev_stop
  | EvDevice ev d => br_device_event ev d
  | EvIoctl sysfs_err u => old_dev_ioctl sysfs_err u;; ret tt
  | EvLink d flags carrier mtu =>
      dev_set d (fun dev => dev <| d_flags := flags |> <| d_carrier := carrier |> <| d_mtu := mtu |>)
  | EvTick n => modify (fun s => s <| k_jiffies := u32 (k_jiffies s + n) |>)
  end.

(** The calls that are taken out, each because it leads to a failing run: the
    topology change timer of a bridge without a root port; a request to add a
    device, or a device changing its address, when that address is in the
    table as a learned host (the entry would become a port's without leaving
    the age list); a request whose sysfs registration fails, or that asks for a
    table dump of 2^28 records or more. *)
Definition guarded (e : event) (s : kst) : Prop :=
  match e with
  | EvTcn => b_root_port (k_br s) <> 0
  | EvDevice NETDEV_CHANGEADDR d =>
      forall dev, k_devs s !! d = Some dev -> unlearned s (d_addr dev)
  | EvIoctl sysfs_err u => sysfs_err = 0 /\ args_ok u /\ add_ok u s
  | _ => True
  end.

Inductive step (hook : option (sk_buff -> bool * sk_buff)) (e : event) : kst -> kst -> Prop :=
  | step_handle s s' : enabled e s -> handle hook e s = Some (tt, s') -> step hook e s s'.

(** A run of enabled events, each of which satisfies [P] when it happens. *)
Inductive exec (hook : option (sk_buff -> bool * sk_buff)) (P : event -> kst -> Prop) :
    list event -> kst -> kst -> Prop :=
  | exec_nil s : exec hook P [] s s
  | exec_cons e es s s1 s2 :
      P e s -> step hook e s s1 -> exec hook P es s1 s2 -> exec hook P (e :: es) s s2.

Lemma ok_event_br s f (m : M kst unit) :
  (forall br, b_port_list (f br) = b_port_list br /\ b_dev (f br) = b_dev br /\
     b_hash (f br) = b_hash br /\ b_age_list (f br) = b_age_list br /\
     b_root_port (f br) = b_root_port br /\ b_bridge_id (f br) = b_bridge_id br /\
     b_designated_root (f br) = b_designated_root br) ->
  okf s m -> okf s (br_set f;; m).
Proof. intros Hf Hm. apply okf_bind; [|done]. apply okf_ok. intros. by apply ok_br_set. Qed.

Lemma ok_event_port s p f (m : M kst unit) :
  live s p -> (forall pp, port_key (f pp) = port_key pp) -> okf s m -> okf s (port_set p f;; m).
Proof.
  intros L Hf Hm. apply okf_bind; [|done]. apply okf_ok. intros s1 F1 _.
  apply ok_port_set; [by eapply live_frame|done].
Qed.

Lemma tcn_event_safe s : bridge_inv s -> b_root_port (k_br s) <> 0 -> safe (handle None EvTcn) s.
Proof.
  intros I N. pose proof (bi_stp _ I) as W. apply safe_ok; [done|]. simpl.
  assert (br_is_root_bridge (k_br s) = false) as Nr.
  { destruct (br_is_root_bridge _) eqn:E; [|done]. by apply (wf_isroot _ (proj2 W)) in E. }
  unfold br_tcn_timer_expired. ok_step; [ok_step|]. ok_step; [by apply br_dev_up_ok|].
  ok_step. ok_step; [by eapply (br_transmit_tcn_ok s W s)|]. ok_steps.
Qed.

Lemma gc_event_safe s : bridge_inv s -> safe (handle None EvGc) s.
Proof.
  intros I. simpl. apply wp_bind, wp_br_set. set (s1 := _ <| k_br := _ |>).
  assert (bridge_inv s1) as I1 by (eapply inv_frame_eq; [done|]; by apply frame_br_set).
  eapply wp_mono; [apply br_fdb_cleanup_spec; apply I1|]. cbv beta.
  intros _ s2 (H2 & A2 & F2 & old & rest & _ & _ & _ & L2 & _). eapply inv_fdb; try done.
  intros e f [L _]%L2. apply (live_fdb s1 s2 _ F2). by eapply (bi_dst _ I1).
Qed.

Lemma handle_safe hook e s :
  hook_ok hook -> bridge_inv s -> enabled e s -> guarded e s -> safe (handle hook e) s.
Proof.
  intros Hk I En G. pose proof (bi_stp _ I) as [W R].
  assert (forall p t, port_timer_due s p t -> live s p) as Lt by (intros p t [Hp _]; by apply I).
  destruct e; simpl in *.
  - destruct En as (dev & p & Ed & Eb & Lm). apply wp_bind, wp_dev_get; [by exists dev|].
    intros dev' Ed'. assert (dev' = dev) as -> by congruence. apply wp_bind.
    eapply wp_deref; [done|]. apply safe_bind; [|intros; by apply safe_ret].
    eapply br_handle_frame_safe; eauto. lia.
  - apply safe_ok; [done|]. apply br_dev_xmit_ok; [apply I..|done].
  - apply safe_okf, ok_event_br, br_hello_timer_expired_okf; done.
  - by apply (tcn_event_safe s).
  - apply safe_okf, ok_event_br, br_topology_change_timer_expired_okf; done.
  - by apply (gc_event_safe s).
  - apply safe_okf, ok_event_port, br_message_age_timer_expired_okf; eauto.
  - apply safe_okf, ok_event_port, br_forward_delay_timer_expired_okf; eauto.
  - apply safe_okf, ok_event_port, br_hold_timer_expired_okf; eauto.
  - by apply safe_okf, br_stp_enable_bridge_okf.
  - by apply safe_okf, br_stp_disable_bridge_okf.
  - destruct En as (dev & Ed & La). eapply br_device_event_safe; [done..|]. intros ->. by apply G.
  - destruct G as (-> & G & Ga). apply safe_bind; [by apply old_dev_ioctl_safe|]. intros. by apply safe_ret.
  - apply safe_ok; [done|]. by apply ok_dev_set.
  - apply wp_modify. eapply inv_frame_eq; [done|]. split; by split.
Qed.

(** ** Executions *)
Lemma exec_inv hook es s s' :
  hook_ok hook -> bridge_inv s -> exec hook guarded es s s' -> bridge_inv s'.
Proof.
  intros Hk I H. induction H as [|e es s s1 s2 G St _ IH]; [done|]. apply IH.
  inversion St as [s0 s1' En E]; subst.
  pose proof (handle_safe hook e _ Hk I En G) as S. unfold safe, wp in S. by rewrite E in S.
Qed.

(** [enabled], decided. *)
Definition port_timer_dueb (s : kst) (p : ptr) (t : net_bridge_port -> timer_list) : bool :=
  bool_decide (p ∈ b_port_list (k_br s)) &&
  match k_ports s !! p with Some pp => due s (t pp) | None => false end.
Definition dev_addrsb (s : kst) : bool :=
  forallb (fun kv => Nat.eqb (length (d_addr kv.2)) 6) (map_to_list (k_devs s)).

Definition enabledb (e : event) (s : kst) : bool :=
  match e with
  | EvFrame skb =>
      match k_devs s !! skb_dev skb with
      | Some dev => match d_br_port dev with Some _ => Nat.leb 14 (length (skb_mac skb)) | None => false end
      | None => false
      end
  | EvXmit frame => Nat.leb 14 (length frame)
  | EvHello => due s (b_hello_timer (k_br s))
  | EvTcn => due s (b_tcn_timer (k_br s))
  | EvTopologyChange => due s (b_topology_change_timer (k_br s))
  | EvGc => due s (b_gc_timer (k_br s))
  | EvMessageAge p => port_timer_dueb s p p_message_age_timer
  | EvForwardDelay p => port_timer_dueb s p p_forward_delay_timer
  | EvHold p => port_timer_dueb s p p_hold_timer
  | EvDevice _ d =>
      match k_devs s !! d with Some dev => Nat.eqb (length (d_addr dev)) 6 | None => false end
  | EvIoctl _ _ => dev_addrsb s
  | EvLink d _ _ _ => match k_devs s !! d with Some _ => true | None => false end
  | EvTick n => 0 <=? n
  | EvOpen | EvStop => true
  end.

Lemma port_timer_dueb_sound s p t : port_timer_dueb s p t = true -> port_timer_due s p t.
Proof.
  unfold port_timer_dueb, port_timer_due. intros [H1%bool_decide_eq_true H2]%andb_prop.
  destruct (k_ports s !! p); [eauto|done].
Qed.

Lemma enabledb_sound e s : enabledb e s = true -> enabled e s.
Proof.
  destruct e; cbn -[Nat.leb Nat.eqb]; intros H; auto using port_timer_dueb_sound.
  - destruct (k_devs s !! _) as [dev|]; [|done]. destruct (d_br_port dev) as [p|] eqn:E; [|done].
    apply Nat.leb_le in H. eauto.
  - by apply Nat.leb_le.
  - destruct (k_devs s !! d) as [dev|]; [|done]. apply Nat.eqb_eq in H. eauto.
  - intros d dev Ed. unfold dev_addrsb in H. rewrite forallb_forall in H.
    apply (Nat.eqb_eq), (H (d, dev)). by apply list_elem_of_In, elem_of_map_to_list.
  - by destruct (k_devs s !! d).
  - by apply Z.leb_le.
Qed.

(** Running a list of events that are enabled one after the other. *)
Fixpoint run (es : list event) (s : kst) : option kst :=
  match es with
  | [] => Some s
  | e :: es =>
      if enabledb e s then
        match handle None e s with Some (_, s') => run es s' | None => None end
      else None
  end.

Definition anything (_ : event) (_ : kst) : Prop := True.

Lemma run_exec es s s' : run es s = Some s' -> exec None anything es s s'.
Proof.
  revert s. induction es as [|e es IH]; intros s; simpl; [intros [= ->]; constructor|].
  destruct (enabledb e s) eqn:En; [|done].
  destruct (handle None e s) as [[[] s1]|] eqn:E; [|done]. intros H.
  econstructor; [done| |by apply IH]. constructor; [by apply enabledb_sound|done].
Qed.

(** A machine with its devices and a bridge just made by [new_bridge_dev] on
    device [d]. *)
Definition init_state (d : ptr) (devs : gmap ptr net_device) : kst :=
  {| k_br := new_bridge_dev d; k_ports := ∅; k_devs := devs; k_fdbs := ∅; k_jiffies := 0;
     k_xmit := []; k_up := []; k_next := 1; k_alloc := [] |}.

Lemma init_inv d devs :
  is_Some (devs !! d) -> (forall d' dev, devs !! d' = Some dev -> d_br_port dev = None) ->
  bridge_inv (init_state d devs).
Proof.
  intros Hd Hn. split.
  - split; [split|split]; cbn; try done; try set_solver.
    + constructor.
    + intros p [x Hx]. cbn in Hx. by rewrite lookup_empty in Hx.
  - intros d' dev p Ed Ep. cbn in Ed. by rewrite (Hn d' dev Ed) in Ep.
  - assert (forall i, default [] (replicate 256 ([] : list ptr) !! i) = []) as Em.
    { intros i. destruct (replicate 256 [] !! i) eqn:E; [|done].
      by apply lookup_replicate in E as [-> _]. }
    split.
    + done.
    + intros i. change (NoDup (default [] (replicate 256 ([] : list ptr) !! i))).
      rewrite Em. constructor.
    + intros i e. change (e ∈ default [] (replicate 256 ([] : list ptr) !! i) -> exists f, k_fdbs
        (init_state d devs) !! e = Some f /\ i = bucket (f_addr f) /\ length (f_addr f) = 6%nat /\
        f_is_static f = f_is_local f /\ 1 <= f_use_count f). rewrite Em. set_solver.
    + intros e e' f f' [Ef _]. cbn in Ef. by rewrite lookup_empty in Ef.
    + intros e [x Hx]. cbn in Hx. by rewrite lookup_empty in Hx.
  - split; [apply NoDup_nil_2|]. intros e. split; [by intros []%elem_of_nil|].
    intros (f & [Ef _] & _). cbn in Ef. by rewrite lookup_empty in Ef.
  - intros e f [Ef _]. cbn in Ef. by rewrite lookup_empty in Ef.
Qed.
