(* ===== verification/BridgeSample.v ===== *)
(** * A concrete machine

    A bridge device (1) and three Ethernet devices (2, 3, 4), and the
    requests and frames from which example executions are built. *)
From S2P Require Import Prelude LibString BridgeData BridgeBpdu BridgeStp BridgeTimer.
From S2P Require Import BridgeStpIf BridgeWf BridgeSafe BridgeRoot BridgeHandlers BridgeFdb.
From S2P Require Import BridgeFdbSpec BridgeFdbAge BridgeForward BridgePath BridgeIf.
From S2P Require Import BridgePorts BridgeIoctl BridgeAdmin BridgeSystem.

Definition sample_dev (idx last : Z) (bridge : bool) : net_device :=
  {| d_addr := if bridge then replicate 6 0 else [0; 16; 24; 0; 0; last];
     d_flags := IFF_UP; d_carrier := true; d_mtu := 1500;
     d_type := ARPHRD_ETHER; d_ifindex := idx; d_name := [101; 116; 104; 48]; d_speed := Some 100;
     d_is_bridge := bridge; d_promiscuity := 0; d_br_port := None |}.

Definition sample_devs : gmap ptr net_device :=
  <[1%nat := sample_dev 1 0 true]> (<[2%nat := sample_dev 2 2 false]>
    (<[3%nat := sample_dev 3 3 false]> (<[4%nat := sample_dev 4 4 false]> ∅))).

Definition sample_init : kst := init_state 1%nat sample_devs.

Definition ioctl (a0 a1 a2 a3 : Z) : event :=
  EvIoctl 0 {| u_args := Some [a0; a1; a2; a3]; u_admin := true; u_copy := true |}.

(** A frame received on device [d]. *)
Definition frame_on (d : ptr) (dest src data : list Z) : event :=
  EvFrame {| skb_dev := d; skb_mac := dest ++ src ++ [0; 38]; skb_data := data;
             skb_pkt_type := 0; skb_ip_summed := 0 |}.
Definition bpdu_on (d : ptr) (bpdu : br_config_bpdu) : event :=
  frame_on d bridge_ula [0; 16; 24; 0; 0; 99] (config_bpdu_bytes bpdu).

Definition host : list Z := [0; 16; 24; 1; 1; 1].

(** Two ports, the protocol switched on and the bridge up. *)
Definition setup : list event :=
  [ioctl BRCTL_ADD_IF 2 0 0; ioctl BRCTL_ADD_IF 3 0 0; ioctl BRCTL_SET_BRIDGE_STP_STATE 1 0 0; EvOpen].

(** A bridge of better priority is heard on device 2. *)
Definition root_bpdu : br_config_bpdu :=
  {| c_topology_change := 0; c_topology_change_ack := 0;
     c_root := {| prio := [0; 1]; addr := [0; 16; 24; 0; 0; 99] |};
     c_root_path_cost := 0;
     c_bridge_id := {| prio := [0; 1]; addr := [0; 16; 24; 0; 0; 99] |};
     c_port_id := 32769; c_message_age := 0; c_max_age := 20000; c_hello_time := 2000;
     c_forward_delay := 15000 |}.

(** [guarded], decided. *)
Definition unlearnedb (s : kst) (a : list Z) : bool :=
  forallb (fun kv => negb (bool_decide (f_addr kv.2 = a)) || truth (f_is_local kv.2))
    (map_to_list (k_fdbs s)).
Definition args_okb (u : uenv) : bool :=
  match u_args u with
  | Some [a0; a1; a2; a3] =>
      (0 <=? a2) && (0 <=? a3) && (negb (a0 =? BRCTL_GET_FDB_ENTRIES) || (a2 <? 2 ^ 28))
  | _ => true
  end.
Definition add_okb (u : uenv) (s : kst) : bool :=
  match u_args u with
  | Some [a0; a1; _; _] => negb (a0 =? BRCTL_ADD_IF) ||
      forallb (fun kv => negb (d_ifindex kv.2 =? s32 a1) || unlearnedb s (d_addr kv.2)) (map_to_list (k_devs s))
  | _ => true
  end.
Definition guardedb (e : event) (s : kst) : bool :=
  match e with
  | EvTcn => negb (b_root_port (k_br s) =? 0)
  | EvDevice NETDEV_CHANGEADDR d =>
      match k_devs s !! d with Some dev => unlearnedb s (d_addr dev) | None => true end
  | EvIoctl sysfs_err u => (sysfs_err =? 0) && args_okb u && add_okb u s
  | _ => true
  end.

Lemma unlearnedb_sound s a : unlearnedb s a = true -> unlearned s a.
Proof.
  intros H e f [E _] A. unfold unlearnedb in H. rewrite forallb_forall in H.
  apply elem_of_map_to_list, list_elem_of_In in E. specialize (H _ E). cbn in H.
  by rewrite bool_decide_eq_true_2 in H.
Qed.

Lemma guardedb_sound e s : guardedb e s = true -> guarded e s.
Proof.
  destruct e as [| | | | | | | | | | |[] d|err u| |]; cbn; try done.
  - by intros H%negb_true_iff%Z.eqb_neq.
  - intros H dev E. rewrite E in H. by apply unlearnedb_sound.
  - intros [[E%Z.eqb_eq Ha]%andb_prop Hj]%andb_prop. split; [done|].
    unfold args_okb, args_ok, add_okb, add_ok in *.
    destruct (u_args u) as [[|a0 [|a1 [|a2 [|a3 [|]]]]]|]; try done. split.
    + apply andb_prop in Ha as [[H2 H3]%andb_prop H4]. split_and!; [lia..|]. intros ->.
      rewrite Z.eqb_refl in H4. simpl in H4. lia.
    + intros -> d dev Ed Ei. rewrite Z.eqb_refl in Hj. simpl in Hj. rewrite forallb_forall in Hj.
      apply elem_of_map_to_list, list_elem_of_In in Ed. specialize (Hj _ Ed). cbn in Hj.
      rewrite Ei, Z.eqb_refl in Hj. by apply unlearnedb_sound.
Qed.

(** Running a list of events that are enabled and guarded. *)
Fixpoint run_guarded (es : list event) (s : kst) : option kst :=
  match es with
  | [] => Some s
  | e :: es =>
      if enabledb e s && guardedb e s then
        match handle None e s with Some (_, s') => run_guarded es s' | None => None end
      else None
  end.

Lemma run_guarded_exec es s s' : run_guarded es s = Some s' -> exec None guarded es s s'.
Proof.
  revert s. induction es as [|e es IH]; intros s; simpl; [intros [= ->]; constructor|].
  destruct (_ && _) eqn:B; [|done]. apply andb_prop in B as [En G].
  destruct (handle None e s) as [[[] s1]|] eqn:E; [|done]. intros R.
  econstructor; [by apply guardedb_sound| |by apply IH]. constructor; [by apply enabledb_sound|done].
Qed.

Lemma run_inv es s s' : bridge_inv s -> run_guarded es s = Some s' -> bridge_inv s'.
Proof. intros I R%run_guarded_exec. eapply exec_inv; [|done|exact R]. by intros f skb. Qed.

Lemma sample_init_inv : bridge_inv sample_init.
Proof.
  apply init_inv; [by eexists|].
  assert (forallb (fun kv => match d_br_port kv.2 with None => true | _ => false end)
    (map_to_list sample_devs) = true) as H by reflexivity.
  rewrite forallb_forall in H. intros d dev E.
  apply elem_of_map_to_list, list_elem_of_In in E. specialize (H _ E). simpl in H.
  by destruct (d_br_port dev).
Qed.

(** The bridge after [setup], with both ports listening. *)
Definition sample : kst := Eval vm_compute in default sample_init (run setup sample_init).

Lemma sample_run : run setup sample_init = Some sample.
Proof. vm_compute. reflexivity. Qed.

Lemma sample_inv : bridge_inv sample.
Proof. apply (run_inv setup sample_init); [apply sample_init_inv|vm_compute; reflexivity]. Qed.

(** ... after hearing of a better root on device 2 ... *)
Definition sample_bpdu : kst := Eval vm_compute in default sample (run [bpdu_on 2 root_bpdu] sample).
Lemma sample_bpdu_inv : bridge_inv sample_bpdu.
Proof. apply (run_inv [bpdu_on 2 root_bpdu] sample); [apply sample_inv|vm_compute; reflexivity]. Qed.

(** ... and a bridge whose two ports forward, a host having been learned on
    device 2. *)
Definition forward_setup : list event :=
  [ioctl BRCTL_ADD_IF 2 0 0; ioctl BRCTL_ADD_IF 3 0 0; EvOpen; EvTick 15000;
   EvForwardDelay 1%nat; EvForwardDelay 3%nat; frame_on 2 [0; 16; 24; 0; 0; 2] host []].
Definition sample_fwd : kst := Eval vm_compute in default sample_init (run forward_setup sample_init).
Lemma sample_fwd_inv : bridge_inv sample_fwd.
Proof. apply (run_inv forward_setup sample_init); [apply sample_init_inv|vm_compute; reflexivity]. Qed.
