(* ===== verification/BridgeStates.v ===== *)
(** * Port states: who may start forwarding

    [within R m]: whenever [m] returns, the final state is related to the
    initial one by [R].  With [calm], the relation that lets no port become
    forwarding, the rules cover every entry point but the forward delay timer. *)
From S2P Require Import Prelude LibString BridgeData BridgeBpdu BridgeStp BridgeTimer.
From S2P Require Import BridgeStpIf BridgeFdb BridgeForward BridgeIf BridgeIoctl BridgeWf.
From S2P Require Import BridgeSafe BridgeHandlers BridgePorts BridgeAdmin BridgeSystem.

Definition within {A} (R : relation kst) (m : M kst A) : Prop :=
  forall s a s', m s = Some (a, s') -> R s s'.

Create HintDb within.

Section rules.
Context (R : relation kst) `{!PreOrder R}.

Lemma within_ret {A} (a : A) : within R (ret a).
Proof. intros s b s' [= <- <-]. reflexivity. Qed.
Lemma within_oops {A} : within R (oops : M kst A).
Proof. by intros s a s'. Qed.
Lemma within_gets {A} (f : kst -> A) : within R (gets f).
Proof. intros s b s' [= <- <-]. reflexivity. Qed.
Lemma within_br_get {A} (f : net_bridge -> A) : within R (br_get f).
Proof. apply within_gets. Qed.
Lemma within_jiffies : within R jiffies.
Proof. apply within_gets. Qed.
Lemma within_deref {A} (o : option A) : within R (deref o).
Proof. destruct o; [apply within_ret|apply within_oops]. Qed.
Lemma within_modify f : (forall s, R s (f s)) -> within R (modify f).
Proof. intros H s b s' [= <- <-]. apply H. Qed.
Lemma within_bind {A B} (m : M kst A) (k : A -> M kst B) :
  within R m -> (forall a, within R (k a)) -> within R (bind m k).
Proof.
  intros Hm Hk s b s'. unfold bind. destruct (m s) as [[a s1]|] eqn:E; [|done].
  intros E'. etrans; [by eapply Hm|by eapply Hk].
Qed.
Lemma within_when b m : within R m -> within R (when b m).
Proof. intros H. destruct b; [done|apply within_ret]. Qed.
Lemma within_for_each {A} (l : list A) body :
  (forall x, within R (body x)) -> within R (for_each l body).
Proof.
  intros H. induction l; simpl; [apply within_ret|]. apply within_bind; auto.
Qed.
Lemma within_fold_each {A B} (l : list A) (acc : B) body :
  (forall a x, within R (body a x)) -> within R (fold_each l acc body).
Proof.
  intros H. revert acc. induction l; intros acc; simpl; [apply within_ret|].
  apply within_bind; auto.
Qed.
Lemma within_port_get p : within R (port_get p).
Proof. apply within_bind; [apply within_gets|intros; apply within_deref]. Qed.
Lemma within_dev_get p : within R (dev_get p).
Proof. apply within_bind; [apply within_gets|intros; apply within_deref]. Qed.
Lemma within_fdb_get p : within R (fdb_get p).
Proof. apply within_bind; [apply within_gets|intros; apply within_deref]. Qed.
End rules.

(** No port starts forwarding, but for those in [P]. *)
Definition calm (P : ptr -> Prop) (s s' : kst) : Prop :=
  forall p pp', k_ports s' !! p = Some pp' -> p_state pp' = BR_STATE_FORWARDING ->
    (exists pp, k_ports s !! p = Some pp /\ p_state pp = BR_STATE_FORWARDING) \/ P p.

Definition nobody (_ : ptr) : Prop := False.

#[export] Instance calm_preorder P : PreOrder (calm P).
Proof.
  split.
  - intros s p pp' E F. eauto.
  - intros s1 s2 s3 H1 H2 p pp' E F. destruct (H2 p pp' E F) as [(pp & E2 & F2)|]; [eauto|by right].
Qed.

Lemma calm_ports P s s' : k_ports s' = k_ports s -> calm P s s'.
Proof. intros E p pp'. rewrite E. eauto. Qed.

Lemma calm_any (Q : ptr -> Prop) {A} (m : M kst A) :
  within (calm nobody) m -> within (calm Q) m.
Proof.
  intros W s a s' E p pp' Ep F. destruct (W s a s' E p pp' Ep F) as [|[]]. by left.
Qed.

Section calm.
Let R := calm nobody.

Lemma calm_br_set f : within R (br_set f).
Proof. apply within_modify. intros s. by apply calm_ports. Qed.

Lemma calm_port_set p f :
  (forall pp, p_state (f pp) = BR_STATE_FORWARDING -> p_state pp = BR_STATE_FORWARDING) ->
  within R (port_set p f).
Proof.
  intros H s [] s'. unfold port_set, bind, gets. destruct (k_ports s !! p) as [x|] eqn:E; [|done].
  simpl. intros [= <-] q qq. cbn. rewrite lookup_insert_Some.
  intros [[<- <-]|[_ Eq]] F; left; eauto.
Qed.

Lemma calm_dev_set d f : within R (dev_set d f).
Proof.
  intros s [] s'. unfold dev_set, bind, gets. destruct (k_devs s !! d) as [x|] eqn:E; [|done].
  simpl. intros [= <-]. by apply calm_ports.
Qed.

Lemma calm_fdb_set d f : within R (fdb_set d f).
Proof.
  intros s [] s'. unfold fdb_set, bind, gets. destruct (k_fdbs s !! d) as [x|] eqn:E; [|done].
  simpl. intros [= <-]. by apply calm_ports.
Qed.
End calm.

#[export] Hint Resolve within_ret within_oops within_gets within_br_get within_jiffies within_deref
  within_port_get within_dev_get within_fdb_get calm_br_set calm_dev_set calm_fdb_set : within.

(** Decompose along the control structure; [port_set]s that do not set the
    forwarding state, and changes of other components, are closed. *)
Ltac calm_step :=
  lazymatch goal with
  | |- within _ (bind _ _) => apply within_bind; [typeclasses eauto| |intros ?]
  | |- within _ (when _ _) => apply within_when; [typeclasses eauto|]
  | |- within _ (for_each _ _) => apply within_for_each; [typeclasses eauto|intros ?]
  | |- within _ (fold_each _ _ _) => apply within_fold_each; [typeclasses eauto|intros ? ?]
  | |- within _ (if ?b then _ else _) => destruct b
  | |- within _ (match ?b with _ => _ end) => destruct b
  | |- within _ (let '_ := ?b in _) => destruct b
  | |- within (calm _) (port_set _ _) => apply calm_port_set; intros ?; cbn; first [tauto|discriminate|repeat case_match; discriminate]
  | |- within (calm _) (modify _) => apply within_modify; intros ?; by apply calm_ports
  | |- within _ _ => solve [eauto 3 with within typeclass_instances]
  end; cbv beta zeta.
Ltac calm := repeat (cbv zeta; calm_step).

(** ** Every routine is calm *)
Abbreviation calmly m := (within (calm nobody) m) (only parsing).

Lemma alloc_ok_calm : calmly (alloc_ok).
Proof. unfold alloc_ok. calm. Qed.
#[export] Hint Resolve alloc_ok_calm : within.
Lemma fresh_calm : calmly (fresh).
Proof. unfold fresh. calm. Qed.
#[export] Hint Resolve fresh_calm : within.
Lemma br_send_bpdu_calm p d : calmly (br_send_bpdu p d).
Proof. unfold br_send_bpdu. calm. Qed.
#[export] Hint Resolve br_send_bpdu_calm : within.
Lemma find_port_calm n l : calmly (find_port n l).
Proof. induction l; simpl; calm. Qed.
#[export] Hint Resolve find_port_calm : within.
Lemma br_get_port_calm n : calmly (br_get_port n).
Proof. unfold br_get_port. calm. Qed.
#[export] Hint Resolve br_get_port_calm : within.
Lemma br_should_become_root_port_calm p r : calmly (br_should_become_root_port p r).
Proof. unfold br_should_become_root_port. calm. Qed.
#[export] Hint Resolve br_should_become_root_port_calm : within.
Lemma br_root_selection_calm : calmly (br_root_selection).
Proof. unfold br_root_selection. calm. Qed.
#[export] Hint Resolve br_root_selection_calm : within.
Lemma br_transmit_config_calm p : calmly (br_transmit_config p).
Proof. unfold br_transmit_config, br_send_config_bpdu. calm. Qed.
#[export] Hint Resolve br_transmit_config_calm : within.
Lemma br_record_config_information_calm p b : calmly (br_record_config_information p b).
Proof. unfold br_record_config_information. calm. Qed.
#[export] Hint Resolve br_record_config_information_calm : within.
Lemma br_record_config_timeout_values_calm b : calmly (br_record_config_timeout_values b).
Proof. unfold br_record_config_timeout_values. calm. Qed.
#[export] Hint Resolve br_record_config_timeout_values_calm : within.
Lemma br_transmit_tcn_calm : calmly (br_transmit_tcn).
Proof. unfold br_transmit_tcn, br_send_tcn_bpdu. calm. Qed.
#[export] Hint Resolve br_transmit_tcn_calm : within.
Lemma br_become_designated_port_calm p : calmly (br_become_designated_port p).
Proof. unfold br_become_designated_port. calm. Qed.
#[export] Hint Resolve br_become_designated_port_calm : within.
Lemma br_designated_port_selection_calm : calmly (br_designated_port_selection).
Proof. unfold br_designated_port_selection. calm. Qed.
#[export] Hint Resolve br_designated_port_selection_calm : within.
Lemma br_topology_change_acknowledged_calm : calmly (br_topology_change_acknowledged).
Proof. unfold br_topology_change_acknowledged. calm. Qed.
#[export] Hint Resolve br_topology_change_acknowledged_calm : within.
Lemma br_topology_change_detection_calm : calmly (br_topology_change_detection).
Proof. unfold br_topology_change_detection. calm. Qed.
#[export] Hint Resolve br_topology_change_detection_calm : within.
Lemma br_config_bpdu_generation_calm : calmly (br_config_bpdu_generation).
Proof. unfold br_config_bpdu_generation. calm. Qed.
#[export] Hint Resolve br_config_bpdu_generation_calm : within.
Lemma br_become_root_bridge_calm : calmly (br_become_root_bridge).
Proof. unfold br_become_root_bridge. calm. Qed.
#[export] Hint Resolve br_become_root_bridge_calm : within.
Lemma br_configuration_update_calm : calmly (br_configuration_update).
Proof. unfold br_configuration_update. calm. Qed.
#[export] Hint Resolve br_configuration_update_calm : within.
Lemma br_make_blocking_calm p : calmly (br_make_blocking p).
Proof. unfold br_make_blocking. calm. Qed.
#[export] Hint Resolve br_make_blocking_calm : within.
Lemma br_make_forwarding_calm p : calmly (br_make_forwarding p).
Proof. unfold br_make_forwarding. calm. Qed.
#[export] Hint Resolve br_make_forwarding_calm : within.
Lemma br_port_state_selection_calm : calmly (br_port_state_selection).
Proof. unfold br_port_state_selection. calm. Qed.
#[export] Hint Resolve br_port_state_selection_calm : within.
Lemma br_received_config_bpdu_calm p b : calmly (br_received_config_bpdu p b).
Proof. unfold br_received_config_bpdu, br_reply. calm. Qed.
#[export] Hint Resolve br_received_config_bpdu_calm : within.
Lemma br_received_tcn_bpdu_calm p : calmly (br_received_tcn_bpdu p).
Proof. unfold br_received_tcn_bpdu, br_topology_change_acknowledge. calm. Qed.
#[export] Hint Resolve br_received_tcn_bpdu_calm : within.

(** Timers and configuration. *)
Lemma br_dev_up_calm : calmly (br_dev_up).
Proof. unfold br_dev_up. calm. Qed.
#[export] Hint Resolve br_dev_up_calm : within.
Lemma br_hello_timer_expired_calm : calmly (br_hello_timer_expired).
Proof. unfold br_hello_timer_expired. calm. Qed.
#[export] Hint Resolve br_hello_timer_expired_calm : within.
Lemma br_message_age_timer_expired_calm p : calmly (br_message_age_timer_expired p).
Proof. unfold br_message_age_timer_expired. calm. Qed.
#[export] Hint Resolve br_message_age_timer_expired_calm : within.
Lemma br_tcn_timer_expired_calm : calmly (br_tcn_timer_expired).
Proof. unfold br_tcn_timer_expired. calm. Qed.
#[export] Hint Resolve br_tcn_timer_expired_calm : within.
Lemma br_topology_change_timer_expired_calm : calmly (br_topology_change_timer_expired).
Proof. unfold br_topology_change_timer_expired. calm. Qed.
#[export] Hint Resolve br_topology_change_timer_expired_calm : within.
Lemma br_hold_timer_expired_calm p : calmly (br_hold_timer_expired p).
Proof. unfold br_hold_timer_expired. calm. Qed.
#[export] Hint Resolve br_hold_timer_expired_calm : within.
Lemma br_timer_value_calm t : calmly (br_timer_value t).
Proof. unfold br_timer_value. calm. Qed.
#[export] Hint Resolve br_timer_value_calm : within.
Lemma br_init_port_calm p : calmly (br_init_port p).
Proof. unfold br_init_port. calm. Qed.
#[export] Hint Resolve br_init_port_calm : within.
Lemma br_stp_enable_port_calm p : calmly (br_stp_enable_port p).
Proof. unfold br_stp_enable_port. calm. Qed.
#[export] Hint Resolve br_stp_enable_port_calm : within.
Lemma br_stp_enable_bridge_calm : calmly (br_stp_enable_bridge).
Proof. unfold br_stp_enable_bridge. calm. Qed.
#[export] Hint Resolve br_stp_enable_bridge_calm : within.
Lemma br_stp_disable_port_calm p : calmly (br_stp_disable_port p).
Proof. unfold br_stp_disable_port. calm. Qed.
#[export] Hint Resolve br_stp_disable_port_calm : within.
Lemma br_stp_disable_bridge_calm : calmly (br_stp_disable_bridge).
Proof. unfold br_stp_disable_bridge. calm. Qed.
#[export] Hint Resolve br_stp_disable_bridge_calm : within.
Lemma br_stp_change_bridge_id_calm a : calmly (br_stp_change_bridge_id a).
Proof. unfold br_stp_change_bridge_id. calm. Qed.
#[export] Hint Resolve br_stp_change_bridge_id_calm : within.
Lemma br_stp_recalculate_bridge_id_calm : calmly (br_stp_recalculate_bridge_id).
Proof. unfold br_stp_recalculate_bridge_id. calm. Qed.
#[export] Hint Resolve br_stp_recalculate_bridge_id_calm : within.
Lemma br_stp_set_bridge_priority_calm n : calmly (br_stp_set_bridge_priority n).
Proof. unfold br_stp_set_bridge_priority. calm. Qed.
#[export] Hint Resolve br_stp_set_bridge_priority_calm : within.
Lemma br_stp_set_port_priority_calm p n : calmly (br_stp_set_port_priority p n).
Proof. unfold br_stp_set_port_priority. calm. Qed.
#[export] Hint Resolve br_stp_set_port_priority_calm : within.
Lemma br_stp_set_path_cost_calm p n : calmly (br_stp_set_path_cost p n).
Proof. unfold br_stp_set_path_cost. calm. Qed.
#[export] Hint Resolve br_stp_set_path_cost_calm : within.

(** The forwarding database. *)
Lemma touch_calm e : calmly (touch e).
Proof. unfold touch. calm. Qed.
#[export] Hint Resolve touch_calm : within.
Lemma hlist_del_rcu_calm e : calmly (hlist_del_rcu e).
Proof. unfold hlist_del_rcu. calm. Qed.
#[export] Hint Resolve hlist_del_rcu_calm : within.
Lemma hlist_add_head_rcu_calm e h : calmly (hlist_add_head_rcu e h).
Proof. unfold hlist_add_head_rcu. calm. Qed.
#[export] Hint Resolve hlist_add_head_rcu_calm : within.
Lemma age_list_del_calm e : calmly (age_list_del e).
Proof. unfold age_list_del. calm. Qed.
#[export] Hint Resolve age_list_del_calm : within.
Lemma age_list_add_tail_calm e : calmly (age_list_add_tail e).
Proof. unfold age_list_add_tail. calm. Qed.
#[export] Hint Resolve age_list_add_tail_calm : within.
Lemma fdb_delete_calm e : calmly (fdb_delete e).
Proof. unfold fdb_delete, br_fdb_put. calm. Qed.
#[export] Hint Resolve fdb_delete_calm : within.
Lemma find_addr_calm a l : calmly (find_addr a l).
Proof. induction l; simpl; calm. Qed.
#[export] Hint Resolve find_addr_calm : within.
Lemma fdb_update_calm e p l : calmly (fdb_update e p l).
Proof. unfold fdb_update. calm. Qed.
#[export] Hint Resolve fdb_update_calm : within.
Lemma fdb_insert_calm p a l : calmly (fdb_insert p a l).
Proof. unfold fdb_insert, fdb_insert_new. calm. Qed.
#[export] Hint Resolve fdb_insert_calm : within.
Lemma find_other_port_calm p a l : calmly (find_other_port p a l).
Proof. induction l; simpl; calm. Qed.
#[export] Hint Resolve find_other_port_calm : within.
Lemma find_local_calm p l : calmly (find_local p l).
Proof. induction l; simpl; calm. Qed.
#[export] Hint Resolve find_local_calm : within.
Lemma br_fdb_changeaddr_calm p a : calmly (br_fdb_changeaddr p a).
Proof. unfold br_fdb_changeaddr. calm. Qed.
#[export] Hint Resolve br_fdb_changeaddr_calm : within.
Lemma fdb_cleanup_loop_calm d l : calmly (fdb_cleanup_loop d l).
Proof. induction l; simpl; calm. Qed.
#[export] Hint Resolve fdb_cleanup_loop_calm : within.
Lemma br_fdb_cleanup_calm : calmly (br_fdb_cleanup).
Proof. unfold br_fdb_cleanup. calm. Qed.
#[export] Hint Resolve br_fdb_cleanup_calm : within.
Lemma br_fdb_delete_by_port_calm p : calmly (br_fdb_delete_by_port p).
Proof. unfold br_fdb_delete_by_port. calm. Qed.
#[export] Hint Resolve br_fdb_delete_by_port_calm : within.
Lemma __br_fdb_get_calm a : calmly (__br_fdb_get a).
Proof. unfold __br_fdb_get. calm. Qed.
#[export] Hint Resolve __br_fdb_get_calm : within.
Lemma fdb_fill_loop_calm br now m l n k acc : calmly (fdb_fill_loop br now m l n k acc).
Proof. revert n k acc. induction l; intros n k acc; simpl; calm. Qed.
#[export] Hint Resolve fdb_fill_loop_calm : within.
Lemma br_fdb_fillbuf_calm m k : calmly (br_fdb_fillbuf m k).
Proof. unfold br_fdb_fillbuf. calm. Qed.
#[export] Hint Resolve br_fdb_fillbuf_calm : within.

(** The data path. *)
Lemma br_dev_queue_push_xmit_calm skb : calmly (br_dev_queue_push_xmit skb).
Proof. unfold br_dev_queue_push_xmit. calm. Qed.
#[export] Hint Resolve br_dev_queue_push_xmit_calm : within.
Lemma __br_forward_calm p skb : calmly (__br_forward p skb).
Proof. unfold __br_forward, br_forward_finish. calm. Qed.
#[export] Hint Resolve __br_forward_calm : within.
Lemma __br_deliver_calm p skb : calmly (__br_deliver p skb).
Proof. unfold __br_deliver, br_forward_finish. calm. Qed.
#[export] Hint Resolve __br_deliver_calm : within.
Lemma br_forward_calm p skb : calmly (br_forward p skb).
Proof. unfold br_forward. calm. Qed.
#[export] Hint Resolve br_forward_calm : within.
Lemma br_deliver_calm p skb : calmly (br_deliver p skb).
Proof. unfold br_deliver. calm. Qed.
#[export] Hint Resolve br_deliver_calm : within.
Lemma flood_loop_calm skb hook prev l :
  (forall p, calmly (hook p skb)) -> calmly (flood_loop skb hook prev l).
Proof.
  intros H. revert prev. induction l as [|p l IH]; intros prev; simpl; [destruct prev; [done|]; calm|].
  unfold br_count_dropped. calm.
Qed.
Lemma br_flood_calm skb c hook : (forall p, calmly (hook p skb)) -> calmly (br_flood skb c hook).
Proof. intros H. unfold br_flood, br_count_dropped. calm. by apply flood_loop_calm. Qed.
Lemma br_flood_forward_calm skb c : calmly (br_flood_forward skb c).
Proof. apply br_flood_calm. eauto with within. Qed.
Lemma br_flood_deliver_calm skb c : calmly (br_flood_deliver skb c).
Proof. apply br_flood_calm. eauto with within. Qed.
#[export] Hint Resolve br_flood_forward_calm br_flood_deliver_calm : within.
Lemma br_pass_frame_up_calm skb : calmly (br_pass_frame_up skb).
Proof. unfold br_pass_frame_up. calm. Qed.
#[export] Hint Resolve br_pass_frame_up_calm : within.
Lemma br_handle_frame_finish_calm skb : calmly (br_handle_frame_finish skb).
Proof. unfold br_handle_frame_finish. calm. Qed.
#[export] Hint Resolve br_handle_frame_finish_calm : within.
Lemma br_stp_handle_bpdu_calm skb : calmly (br_stp_handle_bpdu skb).
Proof. unfold br_stp_handle_bpdu. calm. Qed.
#[export] Hint Resolve br_stp_handle_bpdu_calm : within.
Lemma br_handle_frame_calm hook p skb : calmly (br_handle_frame hook p skb).
Proof. unfold br_handle_frame, br_fdb_insert. calm. Qed.
#[export] Hint Resolve br_handle_frame_calm : within.
Lemma br_dev_xmit_calm f : calmly (br_dev_xmit f).
Proof. unfold br_dev_xmit. calm. Qed.
#[export] Hint Resolve br_dev_xmit_calm : within.

(** Ports and administration. *)
Lemma destroy_nbp_calm p : calmly (destroy_nbp p).
Proof.
  unfold destroy_nbp. calm. apply within_modify. intros s q qq. cbn.
  rewrite lookup_delete_Some. intros [_ E] F. eauto.
Qed.
#[export] Hint Resolve destroy_nbp_calm : within.
Lemma del_nbp_calm p : calmly (del_nbp p).
Proof. unfold del_nbp, dev_set_promiscuity, port_list_del. calm. Qed.
#[export] Hint Resolve del_nbp_calm : within.
Lemma find_portno_calm : calmly find_portno.
Proof. unfold find_portno. calm. Qed.
#[export] Hint Resolve find_portno_calm : within.
Lemma new_nbp_calm d c : calmly (new_nbp d c).
Proof.
  unfold new_nbp. calm. apply within_modify. intros s q qq. cbn. rewrite lookup_insert_Some.
  intros [[_ <-]|[_ E]] F; [done|]. eauto.
Qed.
#[export] Hint Resolve new_nbp_calm : within.
Lemma br_min_mtu_calm : calmly br_min_mtu.
Proof. unfold br_min_mtu. calm. Qed.
#[export] Hint Resolve br_min_mtu_calm : within.
Lemma dev_set_mtu_calm m : calmly (dev_set_mtu m).
Proof. unfold dev_set_mtu, br_change_mtu. calm. Qed.
#[export] Hint Resolve dev_set_mtu_calm : within.
Lemma br_add_if_calm e d : calmly (br_add_if e d).
Proof. unfold br_add_if, br_fdb_insert, dev_set_promiscuity. calm. Qed.
Lemma br_del_if_calm d : calmly (br_del_if d).
Proof. unfold br_del_if. calm. Qed.
#[export] Hint Resolve br_add_if_calm br_del_if_calm : within.
Lemma br_device_event_calm ev d : calmly (br_device_event ev d).
Proof. unfold br_device_event. calm. Qed.
Lemma get_fdb_entries_calm u m o : calmly (get_fdb_entries u m o).
Proof. unfold get_fdb_entries. calm. Qed.
#[export] Hint Resolve br_device_event_calm get_fdb_entries_calm : within.
Lemma old_dev_ioctl_calm e u : calmly (old_dev_ioctl e u).
Proof.
  unfold old_dev_ioctl, admin_set, add_del_if, dev_get_by_index, get_bridge_info, get_port_info,
    get_port_ifindices. calm.
Qed.
#[export] Hint Resolve old_dev_ioctl_calm : within.

Lemma designated_for_some_calm br l : calmly (designated_for_some br l).
Proof. induction l; simpl; calm. Qed.
#[export] Hint Resolve designated_for_some_calm : within.

(** The one exception: the forward delay timer of a learning port. *)
Lemma br_forward_delay_timer_expired_step p s s' :
  br_forward_delay_timer_expired p s = Some (tt, s') ->
  calm (fun q => q = p /\ exists pp, k_ports s !! p = Some pp /\ p_state pp = BR_STATE_LEARNING) s s'.
Proof.
  unfold br_forward_delay_timer_expired, port_get. intros E.
  unfold bind at 1 2, gets in E. destruct (k_ports s !! p) as [pp|] eqn:Ep; [|done]. simpl in E.
  destruct (Z.eqb_spec (p_state pp) BR_STATE_LISTENING) as [L|NL].
  - eapply calm_any; [|exact E]. calm.
  - destruct (Z.eqb_spec (p_state pp) BR_STATE_LEARNING) as [L|]; [|by injection E as <-].
    simpl in E. unfold bind at 1 in E. destruct (port_set _ _ s) as [[[] s1]|] eqn:E1; [|done].
    etrans; [|eapply calm_any; [|exact E]].
    + unfold port_set, bind, gets in E1. rewrite Ep in E1. injection E1 as <-.
      intros q qq. cbn. rewrite lookup_insert_Some. intros [[<- _]|[_ Eq]] F; [right; eauto|left; eauto].
    + unfold br_is_designated_for_some_port. calm.
Qed.

(** What [e] may do to the state of port [q]. *)
Lemma handle_forwarding hook e s s' q qq :
  handle hook e s = Some (tt, s') -> k_ports s' !! q = Some qq -> p_state qq = BR_STATE_FORWARDING ->
  exists q0, k_ports s !! q = Some q0 /\
    (p_state q0 = BR_STATE_FORWARDING \/ (e = EvForwardDelay q /\ p_state q0 = BR_STATE_LEARNING)).
Proof.
  intros E Eq F.
  assert (calm (fun p => e = EvForwardDelay p /\
    exists pp, k_ports s !! p = Some pp /\ p_state pp = BR_STATE_LEARNING) s s') as C.
  { destruct e;
      try (eapply calm_any; [|exact E]; unfold handle, br_dev_open, br_dev_stop; by calm).
    simpl in E. unfold bind at 1 in E. destruct (port_set _ _ s) as [[[] s1]|] eqn:E1; [|done].
    pose proof (br_forward_delay_timer_expired_step p s1 s' E) as C.
    unfold port_set, bind, gets in E1. destruct (k_ports s !! p) as [p0|] eqn:Ep; [|done].
    injection E1 as <-. intros r rr Er Fr.
    destruct (C r rr Er Fr) as [(r1 & Er1 & Fr1)|(-> & r1 & Er1 & Fr1)]; cbn in Er1.
    - left. apply lookup_insert_Some in Er1 as [[<- <-]|[N Er1]]; eauto.
    - right. rewrite lookup_insert_eq in Er1. injection Er1 as <-. eauto. }
  destruct (C q qq Eq F) as [(q0 & E0 & F0)|(-> & q0 & E0 & F0)]; eauto 6.
Qed.
