(* ===== verification/BridgeRoles.v ===== *)
(** * Port roles: what port state selection and designated port selection
    achieve *)
From S2P Require Import Prelude LibString BridgeData BridgeBpdu BridgeStp BridgeTimer.
From S2P Require Import BridgeStpIf BridgeWf BridgeSafe BridgeRoot BridgeHandlers BridgeFdb.
From S2P Require Import BridgeForward BridgeIf BridgeIoctl BridgePorts BridgeAdmin.
From S2P Require Import BridgeSystem BridgeStates.

(** ** Port state selection *)

(** The bridge fields the selection depends on. *)
Record same_sel (s s' : kst) : Prop := {
  ss_list : b_port_list (k_br s') = b_port_list (k_br s);
  ss_root : b_root_port (k_br s') = b_root_port (k_br s);
  ss_id : b_bridge_id (k_br s') = b_bridge_id (k_br s);
  ss_droot : b_designated_root (k_br s') = b_designated_root (k_br s);
  ss_cost : b_root_path_cost (k_br s') = b_root_path_cost (k_br s);
  ss_stp : b_stp_enabled (k_br s') = b_stp_enabled (k_br s) }.

Definition keeps_ports (s s' : kst) : Prop := k_ports s' = k_ports s /\ same_sel s s'.
#[export] Instance keeps_ports_preorder : PreOrder keeps_ports.
Proof.
  split; [intros s; by split|].
  intros s1 s2 s3 [E1 []] [E2 []]. split; [congruence|split; congruence].
Qed.

Lemma br_topology_change_detection_keeps : within keeps_ports br_topology_change_detection.
Proof.
  assert (forall f, (forall br, b_port_list (f br) = b_port_list br /\ b_root_port (f br) = b_root_port br /\
    b_bridge_id (f br) = b_bridge_id br /\ b_designated_root (f br) = b_designated_root br /\
    b_root_path_cost (f br) = b_root_path_cost br /\ b_stp_enabled (f br) = b_stp_enabled br) ->
    within keeps_ports (br_set f)) as Hbr.
  { intros f H. apply within_modify. intros s. destruct (H (k_br s)) as (?&?&?&?&?&?). by split. }
  assert (within keeps_ports alloc_ok) as Ha.
  { unfold alloc_ok. apply within_bind; [typeclasses eauto|apply within_gets; typeclasses eauto|].
    intros [|b l]; [apply within_ret; typeclasses eauto|].
    apply within_bind; [typeclasses eauto|by apply within_modify|intros; apply within_ret; typeclasses eauto]. }
  assert (forall n l, within keeps_ports (find_port n l)) as Hf.
  { intros n l. induction l; simpl; calm; eauto. }
  unfold br_topology_change_detection, br_transmit_tcn, br_get_port, br_send_tcn_bpdu, br_send_bpdu.
  calm; auto; by apply within_modify.
Qed.

(** The role of a port: root port or designated port, or neither. *)
Definition in_role (br : net_bridge) (pp : net_bridge_port) : bool :=
  (p_port_no pp =? b_root_port br) || br_is_designated_port br pp.

(** The state an enabled port of that role settles in. *)
Definition settled_state (br : net_bridge) (pp : net_bridge_port) : Z :=
  if p_state pp =? BR_STATE_DISABLED then BR_STATE_DISABLED
  else if in_role br pp then
    (if p_state pp =? BR_STATE_BLOCKING
     then (if truth (b_stp_enabled br) then BR_STATE_LISTENING else BR_STATE_LEARNING)
     else p_state pp)
  else BR_STATE_BLOCKING.

(** The protocol information of a port. *)
Definition port_vec (pp : net_bridge_port) :=
  (p_dev pp, p_priority pp, p_port_no pp, p_port_id pp, p_designated_port pp, p_designated_root pp,
   p_designated_bridge pp, p_path_cost pp, p_designated_cost pp).

Definition settled (br : net_bridge) (pp pp' : net_bridge_port) : Prop :=
  p_state pp' = settled_state br pp /\ port_vec pp' = port_vec pp.

Lemma port_vec_key pp pp' : port_vec pp' = port_vec pp -> port_key pp' = port_key pp.
Proof. unfold port_vec, port_key. intros [=]. congruence. Qed.

Lemma br_make_forwarding_spec s p pp :
  k_ports s !! p = Some pp ->
  wp (br_make_forwarding p) (fun _ s' => same_sel s s' /\ exists pp',
    k_ports s' = <[p := pp']> (k_ports s) /\ port_vec pp' = port_vec pp /\
    p_state pp' = if p_state pp =? BR_STATE_BLOCKING
      then (if truth (b_stp_enabled (k_br s)) then BR_STATE_LISTENING else BR_STATE_LEARNING)
      else p_state pp) s.
Proof.
  intros E. unfold br_make_forwarding. apply wp_bind, wp_port_get; [by exists pp|].
  intros pp' E'. simplify_eq. apply wp_when; intros B; rewrite B.
  - apply wp_bind, wp_br_get, wp_bind, wp_jiffies, wp_port_set; [by exists pp|].
    intros pp' E'. simplify_eq. split; [done|]. eexists. split; [done|]. done.
  - split; [done|]. exists pp. rewrite insert_id by done. done.
Qed.

Lemma br_make_blocking_spec s p pp :
  stp_wf s -> k_ports s !! p = Some pp -> p_state pp <> BR_STATE_DISABLED ->
  wp (br_make_blocking p) (fun _ s' => same_sel s s' /\ exists pp',
    k_ports s' = <[p := pp']> (k_ports s) /\ port_vec pp' = port_vec pp /\
    p_state pp' = BR_STATE_BLOCKING) s.
Proof.
  intros W E ND. unfold br_make_blocking. apply wp_bind, wp_port_get; [by exists pp|].
  intros pp' E'. simplify_eq. apply wp_when; intros B.
  - apply wp_bind. apply (wp_mono _ (fun _ s1 => keeps_ports s s1)).
    { apply wp_when; intros _; [|done].
      pose proof (br_topology_change_detection_ok s W s (frame_refl s)) as Ok. unfold wp in *.
      destruct (br_topology_change_detection s) as [[[] s1]|] eqn:Er; [|done].
      by eapply br_topology_change_detection_keeps. }
    cbv beta. intros _ s1 [Ep Ss]. apply wp_port_set; [exists pp; by rewrite Ep|].
    rewrite Ep. intros pp' E'. simplify_eq. split; [by destruct Ss|]. eexists. done.
  - split; [done|]. exists pp. rewrite insert_id by done. split_and!; [done..|].
    destruct (Z.eqb_spec (p_state pp) BR_STATE_DISABLED); [done|].
    by destruct (Z.eqb_spec (p_state pp) BR_STATE_BLOCKING).
Qed.

(** One port. *)
Definition select_port (p : ptr) : M kst unit :=
  br ← br_get id;
  pp ← port_get p;
  when (negb (p_state pp =? BR_STATE_DISABLED))
    (if p_port_no pp =? b_root_port br then
       port_set p (fun pp => pp <| p_config_pending := 0 |> <| p_topology_change_ack := 0 |>);;
       br_make_forwarding p
     else if br_is_designated_port br pp then
       port_set p (fun pp => pp <| p_message_age_timer := del_timer (p_message_age_timer pp) |>);;
       br_make_forwarding p
     else
       port_set p (fun pp => pp <| p_config_pending := 0 |> <| p_topology_change_ack := 0 |>);;
       br_make_blocking p).

Lemma select_port_spec s p pp :
  stp_wf s -> k_ports s !! p = Some pp ->
  wp (select_port p) (fun _ s' => same_sel s s' /\ exists pp',
    k_ports s' = <[p := pp']> (k_ports s) /\ settled (k_br s) pp pp') s.
Proof.
  intros W E. unfold select_port. apply wp_bind, wp_br_get, wp_bind, wp_port_get; [by exists pp|].
  intros pp' E'. simplify_eq. change (id (k_br s)) with (k_br s). unfold settled, settled_state, in_role.
  apply wp_when; intros St.
  2: { apply negb_false_iff, Z.eqb_eq in St. rewrite St. split; [done|]. exists pp.
       by rewrite insert_id. }
  apply negb_true_iff in St. rewrite St.
  assert (forall f, port_vec (f pp) = port_vec pp -> p_state (f pp) = p_state pp ->
    let s1 := s <| k_ports := <[p := f pp]> (k_ports s) |> in
    stp_wf s1 /\ k_ports s1 !! p = Some (f pp) /\ same_sel s s1) as Set1.
  { intros f Hv _ s1. split_and!; [|apply lookup_insert_eq|done].
    eapply stp_wf_frame; [|done]. eapply frame_port_set; [done|]. by apply port_vec_key. }
  assert (forall s1 f (Q : net_bridge_port -> Prop), port_vec (f pp) = port_vec pp ->
    s1 = s <| k_ports := <[p := f pp]> (k_ports s) |> ->
    forall s2 : kst, same_sel s1 s2 /\ (exists pp', k_ports s2 = <[p := pp']> (k_ports s1) /\
      port_vec pp' = port_vec (f pp) /\ Q pp') ->
    same_sel s s2 /\ exists pp', k_ports s2 = <[p := pp']> (k_ports s) /\ Q pp' /\ port_vec pp' = port_vec pp)
    as Fin.
  { intros s1 f Q Hv -> s2 [[] (pp' & Ep & Ev & Hq)]. split; [by split|]. exists pp'.
    cbn in Ep. rewrite insert_insert_eq in Ep. split_and!; [done..|congruence]. }
  destruct (Z.eqb_spec (p_port_no pp) (b_root_port (k_br s))); simpl;
    [|destruct (br_is_designated_port (k_br s) pp) eqn:De];
    (apply wp_bind, wp_port_set; [by exists pp|]; intros pp' E'; simplify_eq).
  - match goal with |- wp _ _ (upd k_ports (fun _ => insert p ?g _) _) => set (p1 := g) end.
    destruct (Set1 (fun _ => p1)) as (W1 & E1 & S1); [done..|].
    eapply wp_mono; [by apply br_make_forwarding_spec|]. cbv beta. intros _ s2.
    by apply (Fin _ (fun _ => p1) (fun pp' => p_state pp' = _)).
  - match goal with |- wp _ _ (upd k_ports (fun _ => insert p ?g _) _) => set (p1 := g) end.
    destruct (Set1 (fun _ => p1)) as (W1 & E1 & S1); [done..|].
    eapply wp_mono; [by apply br_make_forwarding_spec|]. cbv beta. intros _ s2.
    by apply (Fin _ (fun _ => p1) (fun pp' => p_state pp' = _)).
  - match goal with |- wp _ _ (upd k_ports (fun _ => insert p ?g _) _) => set (p1 := g) end.
    destruct (Set1 (fun _ => p1)) as (W1 & E1 & S1); [done..|].
    eapply wp_mono; [apply (br_make_blocking_spec _ p p1); [done|done|by apply Z.eqb_neq in St]|].
    cbv beta. intros _ s2. by apply (Fin _ (fun _ => p1) (fun pp' => p_state pp' = _)).
Qed.

(** All ports. *)
Lemma same_sel_trans s1 s2 s3 : same_sel s1 s2 -> same_sel s2 s3 -> same_sel s1 s3.
Proof. intros [] []. split; congruence. Qed.

Lemma settled_sel s s' pp pp' : same_sel s s' -> settled (k_br s') pp pp' -> settled (k_br s) pp pp'.
Proof.
  intros Ss. unfold settled, settled_state, in_role, br_is_designated_port.
  by rewrite (ss_root _ _ Ss), (ss_id _ _ Ss), (ss_stp _ _ Ss).
Qed.

Lemma br_port_state_selection_spec s :
  stp_wf s ->
  wp br_port_state_selection (fun _ s' => stp_wf s' /\ same_sel s s' /\
    (forall p, p ∈ b_port_list (k_br s) -> exists pp pp',
       k_ports s !! p = Some pp /\ k_ports s' !! p = Some pp' /\ settled (k_br s) pp pp')) s.
Proof.
  intros W. unfold br_port_state_selection. apply wp_bind, wp_br_get. cbv beta.
  change (wp (for_each (b_port_list (k_br s)) select_port) (fun _ s' => stp_wf s' /\ same_sel s s' /\
    (forall p, p ∈ b_port_list (k_br s) -> exists pp pp',
       k_ports s !! p = Some pp /\ k_ports s' !! p = Some pp' /\ settled (k_br s) pp pp')) s).
  eapply wp_mono.
  { apply (wp_for_each (fun dn rest s' => s ≈ s' /\ same_sel s s' /\
      (forall p, p ∈ rest -> k_ports s' !! p = k_ports s !! p) /\
      (forall p, p ∈ dn -> exists pp pp',
        k_ports s !! p = Some pp /\ k_ports s' !! p = Some pp' /\ settled (k_br s) pp pp'))).
    { split_and!; [done..|set_solver]. }
    intros dn p rest s1 El (F & Ss & Hr & Hd).
    destruct (wf_live _ (proj1 W) p) as [pp Ep]; [rewrite El; set_solver|].
    assert (k_ports s1 !! p = Some pp) as E1 by (rewrite Hr; [done|set_solver]).
    assert ((p ∉ rest) /\ (p ∉ dn)) as [Nr Nd].
    { pose proof (wf_nodup _ (proj1 W)) as ND. rewrite El in ND.
      apply NoDup_app in ND as (_ & D & [? _]%NoDup_cons). split; [done|]. intros Hin%D. set_solver. }
    assert (ok s (select_port p)) as Ok.
    { assert (live s p) by (by exists pp). unfold select_port. ok_steps. }
    eapply wp_mono; [apply wp_and; [by apply Ok|apply select_port_spec; [by eapply stp_wf_frame|done]]|].
    cbv beta. intros _ s2 (F2 & S2 & pp' & E2 & Hset). split_and!.
    - done.
    - by eapply same_sel_trans.
    - intros q Hq. rewrite E2, lookup_insert_ne; [apply Hr; set_solver|]. by intros ->.
    - intros q [Hq|Hq]%elem_of_app.
      + destruct (Hd q Hq) as (qq & qq' & A & B & C). exists qq, qq'. split_and!; [done| |done].
        rewrite E2, lookup_insert_ne; [done|]. by intros ->.
      + assert (q = p) as -> by set_solver. exists pp, pp'. split_and!; [done| |by eapply settled_sel].
        rewrite E2. apply lookup_insert_eq. }
  cbv beta. intros _ s' (F & Ss & _ & Hd). split_and!; [by eapply stp_wf_frame|done|done].
Qed.

(** ** Designated port selection *)
Definition designate (br : net_bridge) (pp : net_bridge_port) : net_bridge_port :=
  pp <| p_designated_root := b_designated_root br |> <| p_designated_cost := b_root_path_cost br |>
     <| p_designated_bridge := b_bridge_id br |> <| p_designated_port := p_port_id pp |>.

Definition redesignate (br : net_bridge) (pp : net_bridge_port) : net_bridge_port :=
  if negb (p_state pp =? BR_STATE_DISABLED) && br_should_become_designated_port br pp
  then designate br pp else pp.

Lemma designate_designated br pp : br_is_designated_port br (designate br pp) = true.
Proof.
  unfold br_is_designated_port, id_cmp. cbn -[memcmp Z.eqb id_bytes]. rewrite memcmp_refl.
  apply Z.eqb_refl.
Qed.

Lemma redesignate_stable br pp :
  p_state pp <> BR_STATE_DISABLED ->
  br_should_become_designated_port br (redesignate br pp) = br_is_designated_port br (redesignate br pp).
Proof.
  intros N. unfold redesignate. destruct (Z.eqb_spec (p_state pp) BR_STATE_DISABLED); [done|].
  cbn [negb andb]. destruct (br_should_become_designated_port br pp) eqn:E.
  - unfold br_should_become_designated_port at 1. by rewrite designate_designated.
  - rewrite E. unfold br_should_become_designated_port in E.
    revert E. by destruct (br_is_designated_port br pp).
Qed.

Lemma br_designated_port_selection_spec s :
  ports_wf s ->
  wp br_designated_port_selection (fun _ s' => s' = s <| k_ports := k_ports s' |> /\
    (forall p, p ∈ b_port_list (k_br s) -> exists pp,
       k_ports s !! p = Some pp /\ k_ports s' !! p = Some (redesignate (k_br s) pp))) s.
Proof.
  intros W. unfold br_designated_port_selection. apply wp_bind, wp_br_get. cbv beta.
  eapply wp_mono.
  { apply (wp_for_each (fun dn rest s' => s' = s <| k_ports := k_ports s' |> /\
      (forall p, p ∈ rest -> k_ports s' !! p = k_ports s !! p) /\
      (forall p, p ∈ dn -> exists pp,
        k_ports s !! p = Some pp /\ k_ports s' !! p = Some (redesignate (k_br s) pp)))).
    { split_and!; [by destruct s|done|set_solver]. }
    intros dn p rest s1 El (Es & Hr & Hd).
    assert (k_br s1 = k_br s) as Eb by (by rewrite Es).
    destruct (wf_live _ W p) as [pp Ep]; [rewrite El; set_solver|].
    assert (k_ports s1 !! p = Some pp) as E1 by (rewrite Hr; [done|set_solver]).
    assert ((p ∉ rest) /\ (p ∉ dn)) as [Nr Nd].
    { pose proof (wf_nodup _ W) as ND. rewrite El in ND.
      apply NoDup_app in ND as (_ & D & [? _]%NoDup_cons). split; [done|]. intros Hin%D. set_solver. }
    apply wp_bind, wp_br_get, wp_bind, wp_port_get; [by exists pp|]. intros pp' E'. simplify_eq.
    change (id (k_br s1)) with (k_br s1). rewrite Eb.
    assert (forall s2 x, s2 = s1 <| k_ports := <[p := x]> (k_ports s1) |> -> x = redesignate (k_br s) pp ->
      s2 = s <| k_ports := k_ports s2 |> /\
      (forall q, q ∈ rest -> k_ports s2 !! q = k_ports s !! q) /\
      (forall q, q ∈ dn ++ [p] -> exists qq,
        k_ports s !! q = Some qq /\ k_ports s2 !! q = Some (redesignate (k_br s) qq))) as Fin.
    { intros s2 x -> ->. split_and!.
      - rewrite Es. done.
      - intros q Hq. cbn. rewrite lookup_insert_ne; [apply Hr; set_solver|]. by intros ->.
      - intros q [Hq|Hq]%elem_of_app; cbn.
        + rewrite lookup_insert_ne; [by apply Hd|]. by intros ->.
        + assert (q = p) as -> by set_solver. exists pp. by rewrite lookup_insert_eq. }
    apply wp_when; intros B.
    - unfold br_become_designated_port. apply wp_bind, wp_br_get, wp_port_set; [by exists pp|].
      intros pp' E'. simplify_eq. eapply Fin; [done|]. unfold redesignate. rewrite B.
      change (id (k_br s1)) with (k_br s1). by rewrite Eb.
    - apply (Fin s1 pp); [|unfold redesignate; by rewrite B].
      rewrite insert_id by done. by destruct s1. }
  cbv beta. intros _ s' (Es & _ & Hd). done.
Qed.

(** ** The outcome of a reconfiguration *)

(** An enabled port blocks exactly when it is neither root nor designated
    port, and it is designated exactly when it should be. *)
Definition role_ok (br : net_bridge) (pp : net_bridge_port) : Prop :=
  p_state pp = BR_STATE_DISABLED \/
  (p_state pp = BR_STATE_BLOCKING <-> in_role br pp = false) /\
  br_should_become_designated_port br pp = br_is_designated_port br pp.

Lemma settled_role s s' pp pp' :
  settled (k_br s) pp pp' -> same_sel s s' ->
  (p_state pp <> BR_STATE_DISABLED ->
   br_should_become_designated_port (k_br s) pp = br_is_designated_port (k_br s) pp) ->
  role_ok (k_br s') pp'.
Proof.
  unfold settled, settled_state, role_ok. set (br := k_br s). set (br' := k_br s').
  intros [St V] Ss D.
  assert (in_role br' pp' = in_role br pp /\ br_is_designated_port br' pp' = br_is_designated_port br pp /\
    br_should_become_designated_port br' pp' = br_should_become_designated_port br pp) as (-> & -> & ->).
  { unfold in_role, br_should_become_designated_port, br_is_designated_port, br, br'.
    rewrite (ss_root _ _ Ss), (ss_id _ _ Ss), (ss_droot _ _ Ss), (ss_cost _ _ Ss).
    unfold port_vec in V. injection V as E1 E2 E3 E4 E5 E6 E7 E8 E9.
    by rewrite E3, E4, E5, E6, E7, E9. }
  rewrite St. destruct (Z.eqb_spec (p_state pp) BR_STATE_DISABLED) as [|N]; [by left|]. right.
  split; [|by apply D]. destruct (in_role br pp).
  - split; [|done]. destruct (Z.eqb_spec (p_state pp) BR_STATE_BLOCKING); [|done].
    by destruct (truth _).
  - done.
Qed.

Lemma reconfigured_roles s :
  ports_wf s ->
  wp (br_configuration_update;; br_port_state_selection) (fun _ s' => stp_wf s' /\
    forall p, p ∈ b_port_list (k_br s) -> exists pp', k_ports s' !! p = Some pp' /\
      role_ok (k_br s') pp') s.
Proof.
  intros W. unfold br_configuration_update.
  apply wp_bind, wp_bind. eapply wp_mono; [by apply br_root_selection_spec|]. cbv beta.
  intros _ s1 (_ & _ & F1 & _ & R1 & _).
  assert (stp_wf s1) as W1 by (split; [by eapply ports_wf_frame|done]).
  eapply wp_mono.
  { apply wp_and; [apply (br_designated_port_selection_ok s1 W1 s1 (frame_refl s1))|
      apply br_designated_port_selection_spec, W1]. }
  cbv beta. intros _ s2 (F2 & E2 & D2). assert (stp_wf s2) as W2 by (by eapply stp_wf_frame).
  eapply wp_mono; [by apply br_port_state_selection_spec|]. cbv beta. intros _ s3 (W3 & Ss & H3).
  split; [done|]. intros p Hp. rewrite <- (fr_list _ _ F1) in Hp.
  destruct (D2 p Hp) as (pp & Ep & Ep2). rewrite <- (fr_list _ _ (proj1 F2)) in Hp.
  destruct (H3 p Hp) as (pp2 & pp' & Eq2 & Ep3 & Hs). simplify_eq. exists pp'. split; [done|].
  eapply settled_role; [done..|]. intros N. assert (k_br s2 = k_br s1) as -> by (by rewrite E2).
  apply redesignate_stable. revert N. unfold redesignate. by case_match.
Qed.
