(* ===== verification/BridgeCodec.v ===== *)
(** * Configuration BPDUs survive the wire

    Encoding then decoding gives the same message, with its times in the 16-bit
    count of 1/256 seconds of the wire format: rounded down, and cut off from
    256 seconds on. *)
From S2P Require Import Prelude LibString BridgeData BridgeBpdu.

Lemma lor_byte a b : 0 <= b < 2 ^ 8 -> Z.lor (Z.shiftl a 8) b = a * 2 ^ 8 + b.
Proof.
  intros Hb. rewrite <- Z.shiftl_mul_pow2 by lia. rewrite Z.add_nocarry_lxor, Z.lxor_lor; try done.
  all: apply Z.bits_inj'; intros n Hn; rewrite Z.land_spec, Z.bits_0;
    destruct (decide (n < 8)); [by rewrite Z.shiftl_spec_low|].
  all: rewrite (Z.bits_above_log2 b n), andb_false_r; [done|lia|].
  all: destruct (decide (b = 0)) as [->|]; [simpl; lia|]; apply Z.log2_lt_pow2; [lia|].
  all: apply Z.lt_le_trans with (2 ^ 8); [lia|]; apply Z.pow_le_mono_r; lia.
Qed.

Lemma land_255 x : Z.land x 255 = x mod 2 ^ 8.
Proof. change 255 with (Z.ones 8). by apply Z.land_ones. Qed.

(** Two and four big-endian bytes. *)
Lemma be16 x : 0 <= x < 2 ^ 16 ->
  Z.lor (Z.shiftl (Z.land (Z.shiftr x 8) 255) 8) (Z.land x 255) = x.
Proof.
  intros Hx. rewrite !land_255, lor_byte by (apply Z.mod_pos_bound; lia).
  rewrite Z.shiftr_div_pow2 by lia. rewrite (Z.mod_small (x / 2 ^ 8)).
  - pose proof (Z.div_mod x (2 ^ 8)). lia.
  - split; [apply Z.div_pos; lia|]. apply Z.div_lt_upper_bound; lia.
Qed.

Lemma be32 x :
  Z.lor (Z.lor (Z.lor (Z.shiftl (Z.land (Z.shiftr x 24) 255) 24) (Z.shiftl (Z.land (Z.shiftr x 16) 255) 16))
    (Z.shiftl (Z.land (Z.shiftr x 8) 255) 8)) (Z.land x 255) = x mod 2 ^ 32.
Proof.
  rewrite <- Z.land_ones by lia. apply Z.bits_inj'. intros n Hn.
  assert (forall m k, 0 <= m -> Z.testbit (Z.ones m) k = (0 <=? k) && (k <? m)) as T.
  { intros m k Hm. destruct (Z.leb_spec 0 k); [by rewrite Z.testbit_ones_nonneg by lia|].
    by rewrite Z.testbit_neg_r by lia. }
  change 255 with (Z.ones 8). rewrite !Z.lor_spec, !Z.shiftl_spec, !Z.land_spec, !T by lia.
  assert (forall k, 0 <= k -> Z.testbit (Z.shiftr x k) (n - k) && ((0 <=? n - k) && (n - k <? 8)) =
    Z.testbit x n && ((k <=? n) && (n <? k + 8))) as S.
  { intros k Hk. destruct (Z.leb_spec k n).
    - rewrite Z.shiftr_spec by lia. replace (n - k + k) with n by lia. f_equal.
      destruct (Z.leb_spec 0 (n - k)), (Z.ltb_spec (n - k) 8), (Z.ltb_spec n (k + 8)); (done || lia).
    - destruct (Z.leb_spec 0 (n - k)); [lia|]. by rewrite !andb_false_l, !andb_false_r. }
  rewrite !S by lia. clear S T. destruct (Z.testbit x n); [|done]. cbn [andb].
  destruct (Z.leb_spec 24 n), (Z.ltb_spec n (24 + 8)), (Z.leb_spec 16 n), (Z.ltb_spec n (16 + 8)),
    (Z.leb_spec 8 n), (Z.ltb_spec n (8 + 8)), (Z.leb_spec 0 n), (Z.ltb_spec n 8), (Z.ltb_spec n 32);
    (done || lia).
Qed.

(** ** Times *)

(** What becomes of a time of [j] jiffies: the shift of the [int] may wrap,
    the number of ticks is cut to 16 bits, and both divisions round down. *)
Definition wire_time (j : Z) : Z :=
  let ticks := Z.quot (s32 (j * 256)) 1000 mod 2 ^ 16 in ticks * 1000 / 256.

Lemma get_set_ticks j l : br_get_ticks (br_set_ticks j ++ l) = wire_time j.
Proof.
  unfold br_get_ticks, br_set_ticks, wire_time, TICKS_TO_JIFFIES, JIFFIES_TO_TICKS, HZ. cbn [app].
  rewrite be16 by apply u16_range. rewrite (Z.shiftl_mul_pow2 j 8) by lia. change (2 ^ 8) with 256.
  fold (u16 (Z.quot (s32 (j * 256)) 1000)). pose proof (u16_range (Z.quot (s32 (j * 256)) 1000)).
  rewrite s32_small by lia. by rewrite Z.shiftr_div_pow2 by lia.
Qed.

(** Below 256 seconds a time is only rounded. *)
Lemma wire_time_bounds j : 0 <= j < 256000 -> j - 5 < wire_time j <= j.
Proof.
  intros Hj. unfold wire_time. rewrite s32_small by lia. rewrite Z.quot_div_nonneg by lia.
  assert (0 <= j * 256 / 1000 < 2 ^ 16) by (split; [apply Z.div_pos; lia|apply Z.div_lt_upper_bound; lia]).
  rewrite (Z.mod_small (j * 256 / 1000)) by done.
  pose proof (Z.div_mod (j * 256) 1000 ltac:(lia)). pose proof (Z.mod_pos_bound (j * 256) 1000 ltac:(lia)).
  set (t := j * 256 / 1000) in *.
  pose proof (Z.div_mod (t * 1000) 256 ltac:(lia)). pose proof (Z.mod_pos_bound (t * 1000) 256 ltac:(lia)).
  lia.
Qed.

(** ** The whole message *)
Record wire_ok (b : br_config_bpdu) : Prop := {
  wo_tc : c_topology_change b = 0 \/ c_topology_change b = 1;
  wo_tca : c_topology_change_ack b = 0 \/ c_topology_change_ack b = 1;
  wo_root : length (prio (c_root b)) = 2%nat /\ length (addr (c_root b)) = 6%nat;
  wo_bridge : length (prio (c_bridge_id b)) = 2%nat /\ length (addr (c_bridge_id b)) = 6%nat;
  wo_cost : - 2 ^ 31 <= c_root_path_cost b < 2 ^ 31;
  wo_port : 0 <= c_port_id b < 2 ^ 16 }.

Definition on_wire (b : br_config_bpdu) : br_config_bpdu :=
  {| c_topology_change := c_topology_change b; c_topology_change_ack := c_topology_change_ack b;
     c_root := c_root b; c_root_path_cost := c_root_path_cost b; c_bridge_id := c_bridge_id b;
     c_port_id := c_port_id b; c_message_age := wire_time (c_message_age b);
     c_max_age := wire_time (c_max_age b); c_hello_time := wire_time (c_hello_time b);
     c_forward_delay := wire_time (c_forward_delay b) |}.

Lemma list_split2 (l : list Z) : length l = 2%nat -> exists a b, l = [a; b].
Proof. destruct l as [|a [|b [|]]]; try done. eauto. Qed.
Lemma list_split6 (l : list Z) : length l = 6%nat -> exists a b c d e f, l = [a; b; c; d; e; f].
Proof. destruct l as [|a [|b [|c [|d [|e [|f [|]]]]]]]; try done. eauto 10. Qed.

Lemma config_bpdu_length b : wire_ok b -> length (config_bpdu_bytes b) = 38%nat.
Proof.
  intros W. destruct (wo_root _ W), (wo_bridge _ W). unfold config_bpdu_bytes, br_set_ticks.
  rewrite !length_app. cbn [length]. lia.
Qed.

Lemma config_bpdu_roundtrip b :
  wire_ok b ->
  take 6 (config_bpdu_bytes b) = header /\
  byte_at (drop 6 (config_bpdu_bytes b)) 0 = BPDU_TYPE_CONFIG /\
  parse_config_bpdu (drop 6 (config_bpdu_bytes b)) = on_wire b.
Proof.
  intros [Tc Ta [R1 R2] [B1 B2] Co Po]. split; [done|]. split; [done|].
  destruct b as [tc ta [rp ra] co [bp ba] po ag mx he de]; cbn [c_topology_change c_topology_change_ack
    c_root c_root_path_cost c_bridge_id c_port_id c_message_age c_max_age c_hello_time c_forward_delay
    prio addr] in *.
  destruct (list_split2 _ R1) as (r0 & r1 & ->). destruct (list_split6 _ R2) as (r2 & r3 & r4 & r5 & r6 & r7 & ->).
  destruct (list_split2 _ B1) as (b0 & b1 & ->). destruct (list_split6 _ B2) as (b2 & b3 & b4 & b5 & b6 & b7 & ->).
  unfold parse_config_bpdu, on_wire, config_bpdu_bytes. cbn [c_topology_change c_topology_change_ack
    c_root c_root_path_cost c_bridge_id c_port_id c_message_age c_max_age c_hello_time c_forward_delay
    prio addr].
  f_equal.
  - destruct Tc as [-> | ->], Ta as [-> | ->]; done.
  - destruct Tc as [-> | ->], Ta as [-> | ->]; done.
  - unfold byte_at. cbn -[Z.land Z.shiftr Z.shiftl Z.lor Z.pow]. rewrite be32.
    transitivity (s32 co); [apply s32_u32|by apply s32_small].
  - unfold byte_at. cbn -[Z.land Z.shiftr Z.shiftl Z.lor Z.pow u16]. rewrite be16 by done. by apply u16_small.
  - change (drop 24 _) with (br_set_ticks ag ++ br_set_ticks mx ++ br_set_ticks he ++ br_set_ticks de).
    apply get_set_ticks.
  - change (drop 26 _) with (br_set_ticks mx ++ br_set_ticks he ++ br_set_ticks de).
    apply get_set_ticks.
  - change (drop 28 _) with (br_set_ticks he ++ br_set_ticks de). apply get_set_ticks.
  - change (drop 30 _) with (br_set_ticks de ++ []). apply get_set_ticks.
Qed.
