(* ===== verification/BridgeTheorems.v ===== *)
(** * What the bridge guarantees *)
From S2P Require Import Prelude LibString BridgeData BridgeBpdu BridgeStp BridgeTimer.
From S2P Require Import BridgeStpIf BridgeWf BridgeSafe BridgeRoot BridgeHandlers BridgeFdb.
From S2P Require Import BridgeFdbSpec BridgeFdbAge BridgeForward BridgePath BridgeIf.
From S2P Require Import BridgePorts BridgeIoctl BridgeAdmin BridgeSystem BridgeSample.
From S2P Require Import BridgeStates BridgeRoles BridgeCodec.




(** C2: installing or learning a valid address implements the abstract
    table: a local entry is never displaced, an unknown address is added
    unless memory is short, any other entry is moved to the new port, and the
    rest of the table is unchanged.  The nodes of the age list must be entries
    in memory, and learned entries on it: adding and removing a node writes to
    its neighbours. *)
Theorem fdb_insert_implements_table s src a loc old :
  hash_wf s -> age_live s -> dst_wf s -> live s src -> length a = 6%nat -> is_valid_ether_addr a = true ->
  fdb_lookup s a old ->
  wp (br_fdb_insert src a loc) (fun r s' =>
    hash_wf s' /\ dst_wf s' /\ fdb_frame s s' /\
    exists new, insert_spec old src loc r new /\ maps_to s s' a new) s.
Proof. unfold br_fdb_insert. apply fdb_insert_refines. Qed.

Lemma fdb_insert_implements_table_witness :
  wp (br_fdb_insert 1%nat host 0) (fun r s' =>
    hash_wf s' /\ dst_wf s' /\ fdb_frame sample s' /\
    exists new, insert_spec None 1%nat 0 r new /\ maps_to sample s' host new) sample.
Proof.
  apply fdb_insert_implements_table.
  - exact (bi_hash _ sample_inv).
  - exact (age_wf_live _ (bi_age _ sample_inv)).
  - exact (bi_dst _ sample_inv).
  - eexists. reflexivity.
  - reflexivity.
  - reflexivity.
  - destruct (fdb_lookup_total sample host (bi_hash _ sample_inv) eq_refl) as [v Hv].
    destruct v as [[q l]|]; [|exact Hv]. exfalso.
    destruct Hv as (e & f & L & A & _).
    pose proof (linked_bucket sample e f (bi_hash _ sample_inv) L) as Hb. rewrite A in Hb.
    vm_compute in Hb. inversion Hb.
Defined.

(** C3: the root port elected is a candidate (an enabled, not designated port
    that hears of a better root than this bridge) that no other candidate
    beats in the priority order, and the bridge adopts its root and path cost;
    with no candidate the bridge makes itself the root. *)
Theorem root_port_is_best s :
  ports_wf s -> (forall q qq, k_ports s !! q = Some qq -> vec_wf qq) ->
  wp br_root_selection (fun _ s' =>
    let br := k_br s' in
    (b_root_port br = 0 /\ b_designated_root br = b_bridge_id br /\ b_root_path_cost br = 0 /\
     forall q qq, q ∈ b_port_list (k_br s) -> k_ports s !! q = Some qq -> candidate (k_br s) qq = false) \/
    (exists r rr, r ∈ b_port_list (k_br s) /\ k_ports s !! r = Some rr /\
       b_root_port br = p_port_no rr /\ candidate (k_br s) rr = true /\
       b_designated_root br = p_designated_root rr /\
       b_root_path_cost br = u32 (p_designated_cost rr + p_path_cost rr) /\
       forall q qq, q ∈ b_port_list (k_br s) -> k_ports s !! q = Some qq ->
         candidate (k_br s) qq = true -> ~ better qq rr)) s.
Proof.
  intros W V. eapply wp_mono; [by apply br_root_selection_spec|]. cbv beta zeta.
  intros _ s' (El & _ & _ & Eid & _ & Z0 & Rr). destruct El as [[E0 No]|(r & rr & Hr & Er & Nr & Nz & C & Best)].
  - left. destruct (Z0 E0) as [D P]. rewrite Eid. done.
  - right. destruct (Rr r rr Nz Hr Er Nr) as [D P]. exists r, rr. split_and!; try done.
    by apply Best.
Qed.

Lemma sample_ports_vec q qq : k_ports sample_bpdu !! q = Some qq -> vec_wf qq.
Proof.
  assert (forallb (fun kv => Nat.eqb (length (id_bytes (p_designated_root kv.2))) 8 &&
    Nat.eqb (length (id_bytes (p_designated_bridge kv.2))) 8) (map_to_list (k_ports sample_bpdu)) = true) as H
    by (vm_compute; reflexivity).
  rewrite forallb_forall in H. intros E. apply elem_of_map_to_list, list_elem_of_In in E.
  specialize (H _ E). apply andb_prop in H as [H1%Nat.eqb_eq H2%Nat.eqb_eq]. by split.
Qed.

Lemma root_port_is_best_witness :
  exists s', br_root_selection sample_bpdu = Some (tt, s') /\ b_root_port (k_br s') = 1.
Proof.
  pose proof (root_port_is_best sample_bpdu (proj1 (bi_stp _ sample_bpdu_inv)) sample_ports_vec) as H.
  destruct (wp_run _ _ _ H) as ([] & s' & E & _). exists s'. split; [exact E|].
  vm_compute in E. injection E as <-. reflexivity.
Defined.

(** C4: a reconfiguration leaves every port of the bridge in a consistent
    role: disabled, or blocking exactly when it is neither the root port nor a
    designated port, and designated exactly when its information says it
    should be. *)
Theorem reconfiguration_settles_roles s :
  ports_wf s ->
  wp (br_configuration_update;; br_port_state_selection) (fun _ s' => stp_wf s' /\
    forall p, p ∈ b_port_list (k_br s) -> exists pp', k_ports s' !! p = Some pp' /\
      role_ok (k_br s') pp') s.
Proof. apply reconfigured_roles. Qed.

Lemma reconfiguration_settles_roles_witness :
  wp (br_configuration_update;; br_port_state_selection) (fun _ s' => stp_wf s' /\
    forall p, p ∈ b_port_list (k_br sample_bpdu) -> exists pp', k_ports s' !! p = Some pp' /\
      role_ok (k_br s') pp') sample_bpdu.
Proof. apply reconfiguration_settles_roles. apply sample_bpdu_inv. Defined.

(** C5: a port starts forwarding only when its own forward delay timer
    expires in the learning state, whatever the call: no frame, request,
    notification or other timer makes a port forward. *)
Theorem forwarding_needs_forward_delay hook e s s' q qq :
  handle hook e s = Some (tt, s') -> k_ports s' !! q = Some qq -> p_state qq = BR_STATE_FORWARDING ->
  exists q0, k_ports s !! q = Some q0 /\
    (p_state q0 = BR_STATE_FORWARDING \/ (e = EvForwardDelay q /\ p_state q0 = BR_STATE_LEARNING)).
Proof. apply handle_forwarding. Qed.

Lemma forwarding_needs_forward_delay_witness :
  exists q0, k_ports sample_fwd !! 1%nat = Some q0 /\
    (p_state q0 = BR_STATE_FORWARDING \/
     (EvTick 1 = EvForwardDelay 1 /\ p_state q0 = BR_STATE_LEARNING)).
Proof.
  destruct (k_ports sample_fwd !! 1%nat) as [qq|] eqn:E; [|vm_compute in E; discriminate].
  rewrite <- E.
  apply (forwarding_needs_forward_delay None (EvTick 1) sample_fwd
    (sample_fwd <| k_jiffies := u32 (k_jiffies sample_fwd + 1) |>) 1%nat qq).
  - reflexivity.
  - exact E.
  - vm_compute in E. injection E as <-. reflexivity.
Defined.

(** C6: a frame that [br_handle_frame_finish] gets (the netfilter hooks being
    unregistered) goes where the table says, when no allocation fails: a
    multicast is flooded and given to the local stack; a frame for a local
    address is given to the stack only; one for a learned address whose entry
    has not expired goes out of its port, if that port forwards, is not the one
    it came from and its device takes frames of that length; any other is
    flooded.  A bridge device in promiscuous mode gets each frame too, once.
    Ports and devices are unchanged. *)
Theorem received_frame_goes_to_destination s skb dev p brdev v :
  stp_wf s -> hash_wf s -> dst_wf s -> k_alloc s = [] ->
  k_devs s !! skb_dev skb = Some dev -> d_br_port dev = Some p ->
  k_devs s !! b_dev (k_br s) = Some brdev ->
  (12 <= length (skb_mac skb))%nat -> resolves s (h_dest skb) v ->
  wp (br_handle_frame_finish skb) (fun _ s' => delivered s s' (outgoing s skb v)
    (upward s (truth (Z.land (d_flags brdev) IFF_PROMISC)) skb v)) s.
Proof. apply br_handle_frame_finish_spec. Qed.

Definition sample_skb : sk_buff :=
  {| skb_dev := 3%nat; skb_mac := host ++ [0; 16; 24; 1; 1; 2] ++ [8; 0]; skb_data := [1; 2; 3];
     skb_pkt_type := 0; skb_ip_summed := 0 |}.
Definition sample_host_entry : net_bridge_fdb_entry :=
  {| f_dst := 1%nat; f_use_count := 1; f_ageing_timer := 15000; f_addr := host; f_is_local := 0;
     f_is_static := 0 |}.

Lemma received_frame_goes_to_destination_witness :
  exists s', br_handle_frame_finish sample_skb sample_fwd = Some (tt, s') /\
    k_xmit s' = k_xmit sample_fwd ++ [(2%nat, host ++ [0; 16; 24; 1; 1; 2] ++ [8; 0] ++ [1; 2; 3])] /\
    k_up s' = k_up sample_fwd.
Proof.
  assert (exists dev brdev, k_devs sample_fwd !! 3%nat = Some dev /\ d_br_port dev = Some 3%nat /\
    k_devs sample_fwd !! b_dev (k_br sample_fwd) = Some brdev /\
    truth (Z.land (d_flags brdev) IFF_PROMISC) = false) as (dev & brdev & Ed & Ep & Eb & Np).
  { do 2 eexists. split_and!; vm_compute; reflexivity. }
  assert (resolves sample_fwd (h_dest sample_skb) (Some sample_host_entry)) as Rv.
  { exists 5%nat. split_and!; [|vm_compute; reflexivity|right; vm_compute; reflexivity].
    split; [vm_compute; reflexivity|]. exists (bucket host). vm_compute. constructor. }
  destruct (wp_run _ _ _ (received_frame_goes_to_destination sample_fwd sample_skb dev 3%nat brdev
    (Some sample_host_entry) (bi_stp _ sample_fwd_inv) (bi_hash _ sample_fwd_inv) (bi_dst _ sample_fwd_inv)
    eq_refl Ed Ep Eb ltac:(simpl; lia) Rv)) as ([] & s' & E & X & U & _).
  exists s'. split; [exact E|]. rewrite X, U, Np. split; vm_compute; reflexivity.
Defined.

(** C7: flooding a received frame sends it, in port order, on the device of
    each port of the bridge that forwards, other than the device it came from,
    whose MTU the frame fits: to all of them when no allocation fails, and to a
    prefix of them otherwise; the frame sent is the one received. *)
Theorem flood_reaches_other_forwarding_ports skb clone s :
  stp_wf s ->
  wp (br_flood_forward skb clone) (fun _ s' =>
    let all := flood_copies s skb (b_port_list (k_br s)) in
    (exists sent, k_xmit s' = k_xmit s ++ sent /\ sent `prefix_of` all /\ (k_alloc s = [] -> sent = all)) /\
    (forall d frm, (d, frm) ∈ all <->
       frm = skb_mac skb ++ skb_data skb /\
       exists p pp dev, p ∈ b_port_list (k_br s) /\ k_ports s !! p = Some pp /\ p_dev pp = d /\
         k_devs s !! d = Some dev /\ p_state pp = BR_STATE_FORWARDING /\ d <> skb_dev skb /\
         Z.of_nat (length (skb_data skb)) <= d_mtu dev)) s.
Proof.
  intros W. eapply wp_mono; [apply br_flood_spec; [apply __br_forward_sends|done]|].
  intros _ s' (sent & F & P & A). cbv zeta. split.
  - exists sent. split_and!; [apply F|done|by intros [? _]%A].
  - apply flood_copies_elem.
Qed.

Lemma flood_reaches_other_forwarding_ports_witness :
  exists s', br_flood_forward sample_skb true sample_fwd = Some (tt, s') /\
    k_xmit s' = k_xmit sample_fwd ++ [(2%nat, skb_mac sample_skb ++ skb_data sample_skb)].
Proof.
  destruct (wp_run _ _ _ (flood_reaches_other_forwarding_ports sample_skb true sample_fwd
    (bi_stp _ sample_fwd_inv))) as ([] & s' & E & (sent & X & _ & Al) & _).
  exists s'. split; [exact E|]. rewrite X, (Al eq_refl). vm_compute. reflexivity.
Defined.

(** C8: an ageing run removes exactly the entries at the front of the age list
    that have expired, keeps everything else, and re-arms the timer for the
    expiry time of the first one left. *)
Theorem ageing_collects_expired s :
  hash_wf s -> age_wf s ->
  wp br_fdb_cleanup (fun _ s' =>
    hash_wf s' /\ age_wf s' /\ fdb_frame s s' /\
    exists old rest, collected s s' (hold_time (k_br s)) (b_age_list (k_br s)) old rest) s.
Proof. apply br_fdb_cleanup_spec. Qed.

Lemma ageing_collects_expired_witness :
  wp br_fdb_cleanup (fun _ s' =>
    hash_wf s' /\ age_wf s' /\ fdb_frame sample_fwd s' /\
    exists old rest, collected sample_fwd s' (hold_time (k_br sample_fwd)) [5%nat] old rest) sample_fwd.
Proof. apply (ageing_collects_expired sample_fwd); [exact (bi_hash _ sample_fwd_inv)|exact (bi_age _ sample_fwd_inv)]. Defined.

(** C20: removing a device that is a port of the bridge succeeds and leaves no
    trace of the port: it is off the port list, which is otherwise unchanged,
    it is freed, and no entry of the forwarding table forwards to it. *)
Theorem del_if_leaves_no_trace s d dev p :
  bridge_inv s -> k_devs s !! d = Some dev -> d_br_port dev = Some p ->
  wp (br_del_if d) (fun r s' => r = 0 /\ bridge_inv s' /\ k_ports s' !! p = None /\
    b_port_list (k_br s') = unlink p (b_port_list (k_br s)) /\
    forall e f, linked s' e f -> f_dst f <> p) s.
Proof. apply br_del_if_spec. Qed.

Lemma del_if_leaves_no_trace_witness :
  wp (br_del_if 2%nat) (fun r s' => r = 0 /\ bridge_inv s' /\ k_ports s' !! 1%nat = None /\
    b_port_list (k_br s') = [3%nat] /\ forall e f, linked s' e f -> f_dst f <> 1%nat) sample_fwd.
Proof.
  eapply (del_if_leaves_no_trace sample_fwd 2%nat); [exact sample_fwd_inv|vm_compute; reflexivity|reflexivity].
Defined.

(** A new port gets a number between 1 and BR_MAX_PORTS - 1 that no port
    of the bridge has, or the call fails with an error number; nothing but the
    allocator's state changes. *)
Theorem portno_is_free s :
  ports_wf s ->
  wp find_portno (fun r s' => (exists l, s' = s <| k_alloc := l |>) /\
    (errno_range r \/
     0 < r < BR_MAX_PORTS /\
     forall p pp, p ∈ b_port_list (k_br s) -> k_ports s !! p = Some pp -> p_port_no pp <> r)) s.
Proof. apply find_portno_spec. Qed.

Lemma portno_is_free_witness :
  exists s', find_portno sample = Some (3, s').
Proof.
  destruct (wp_run _ _ _ (portno_is_free sample (proj1 (bi_stp _ sample_inv)))) as (r & s' & E & _).
  exists s'. rewrite E. vm_compute in E. injection E as <- _. reflexivity.
Defined.

(** C21: a configuration BPDU (flags 0 or 1, a cost that fits an [int], a
    16-bit port identifier, any times) put on the wire is recognised and decoded
    as the same message, each time [j] as [wire_time j]: its count of 1/256
    seconds, cut to 16 bits, in jiffies.  A time below 256 seconds only loses
    less than 5 jiffies; one of 300 seconds decodes as 44. *)
Theorem bpdu_roundtrip b :
  wire_ok b ->
  length (config_bpdu_bytes b) = 38%nat /\ take 6 (config_bpdu_bytes b) = header /\
  byte_at (drop 6 (config_bpdu_bytes b)) 0 = BPDU_TYPE_CONFIG /\
  parse_config_bpdu (drop 6 (config_bpdu_bytes b)) = on_wire b /\
  (forall j, 0 <= j < 256000 -> j - 5 < wire_time j <= j) /\ wire_time 300000 = 44000.
Proof.
  intros W. destruct (config_bpdu_roundtrip b W) as (? & ? & ?). split_and!; try done.
  - by apply config_bpdu_length.
  - apply wire_time_bounds.
Qed.

Lemma bpdu_roundtrip_witness :
  parse_config_bpdu (drop 6 (config_bpdu_bytes root_bpdu)) = on_wire root_bpdu.
Proof.
  apply bpdu_roundtrip. split; simpl; try lia; split; reflexivity.
Defined.

(** A dump of the forwarding table of fewer than 2^28 records, when it
    does not fail, is the requested slice of the unexpired entries in hash
    order, at most a page of them, and the count is its length. *)
Theorem fdb_dump_is_slice s u maxnum offset :
  hash_wf s -> dst_wf s -> 0 <= maxnum < 2 ^ 28 -> 0 <= offset ->
  wp (get_fdb_entries u maxnum offset) (fun r s' => (exists l, s' = s <| k_alloc := l |>) /\
    (r = (- ENOMEM, Nothing) \/ r = (- EFAULT, Nothing) \/
     let l := take (Z.to_nat (Z.min maxnum 256)) (drop (Z.to_nat offset) (fdb_table s)) in
     r = (Z.of_nat (length l), FdbEntries l))) s.
Proof. apply get_fdb_entries_ok. Qed.

Lemma fdb_dump_is_slice_witness :
  exists r s', get_fdb_entries {| u_args := None; u_admin := false; u_copy := true |} 2 1 sample_fwd =
    Some (r, s') /\ r.1 = 2.
Proof.
  destruct (wp_run _ _ _ (fdb_dump_is_slice sample_fwd {| u_args := None; u_admin := false; u_copy := true |}
    2 1 (bi_hash _ sample_fwd_inv) (bi_dst _ sample_fwd_inv) ltac:(lia) ltac:(lia))) as (r & s' & E & _).
  exists r, s'. split; [exact E|]. vm_compute in E. injection E as <- _. reflexivity.
Defined.

(** ** Failing runs

    Each exclusion of [guarded] is witnessed by a run of enabled events. *)

(** A BPDU that carries the bridge's own identifiers, as the designated port
    of a better root, on the root port. *)
Definition forged_bpdu : br_config_bpdu :=
  {| c_topology_change := 0; c_topology_change_ack := 0;
     c_root := {| prio := [0; 0]; addr := [0; 16; 24; 0; 0; 99] |};
     c_root_path_cost := 0;
     c_bridge_id := {| prio := [128; 0]; addr := [0; 16; 24; 0; 0; 2] |};
     c_port_id := 32769; c_message_age := 0; c_max_age := 20000; c_hello_time := 2000;
     c_forward_delay := 15000 |}.

Definition tcn_trace : list event :=
  setup ++ [bpdu_on 2 root_bpdu; EvTick 15000; EvForwardDelay 1%nat; EvTick 15000;
            EvForwardDelay 1%nat; bpdu_on 2 forged_bpdu; EvTick 2000].

(** The topology change notification timer can expire when the bridge
    has no root port, and its handler then follows a NULL pointer: a
    configuration BPDU whose bridge and port identifiers are the receiver's
    own takes the root port away without stopping the timer. *)
Theorem tcn_timer_oopses :
  exists s, exec None anything tcn_trace sample_init s /\ b_root_port (k_br s) = 0 /\
    enabled EvTcn s /\ handle None EvTcn s = None.
Proof.
  destruct (run tcn_trace sample_init) as [s|] eqn:E; [|vm_compute in E; discriminate].
  exists s. split; [by apply run_exec|]. vm_compute in E. injection E as <-.
  split_and!; vm_compute; reflexivity.
Qed.

(** The address of device 4 is learned as a host's before the device becomes
    a port. *)
Definition local_setup : list event :=
  [ioctl BRCTL_ADD_IF 2 0 0; ioctl BRCTL_ADD_IF 3 0 0; EvOpen; EvTick 15000;
   EvForwardDelay 1%nat; EvForwardDelay 3%nat;
   frame_on 2 host [0; 16; 24; 0; 0; 4] []; ioctl BRCTL_ADD_IF 4 0 0].

(** When the address of a device was learned as a host before the device
    became a port, its entry becomes local but stays on the age list.  The
    ageing timer then frees it without taking it off the list ... *)
Theorem aged_local_entry_oopses :
  exists s, exec None anything (local_setup ++ [EvTick 300000; EvGc]) sample_init s /\
    fdb_lookup s [0; 16; 24; 0; 0; 4] None /\
    enabled (frame_on 3 [0; 16; 24; 0; 0; 3] host []) s /\
    handle None (frame_on 3 [0; 16; 24; 0; 0; 3] host []) s = None.
Proof.
  destruct (run (local_setup ++ [EvTick 300000; EvGc]) sample_init) as [s|] eqn:E; [|vm_compute in E; discriminate].
  exists s. split; [by apply run_exec|]. vm_compute in E. injection E as <-.
  split_and!; [|apply enabledb_sound; vm_compute; reflexivity|vm_compute; reflexivity].
  intros e f [Ef _]. apply elem_of_map_to_list in Ef. vm_compute in Ef.
  repeat (apply elem_of_cons in Ef as [[= _ ->]|Ef]; [done|]). by apply elem_of_nil in Ef.
Qed.

(** ... and so does removing the device again: the next address learned is
    linked behind the freed entry. *)
Theorem removed_local_entry_oopses :
  exists s, exec None anything (local_setup ++ [ioctl BRCTL_DEL_IF 4 0 0]) sample_init s /\
    enabled (frame_on 3 [0; 16; 24; 0; 0; 3] host []) s /\
    handle None (frame_on 3 [0; 16; 24; 0; 0; 3] host []) s = None.
Proof.
  destruct (run (local_setup ++ [ioctl BRCTL_DEL_IF 4 0 0]) sample_init) as [s|] eqn:E; [|vm_compute in E; discriminate].
  exists s. split; [by apply run_exec|]. vm_compute in E. injection E as <-.
  split; [apply enabledb_sound|]; vm_compute; reflexivity.
Qed.

(** An unprivileged dump request of 2^28 + 1 records wraps the size of
    the buffer to one record, and the dump writes past its end. *)
Theorem fdb_dump_overflows :
  let u := {| u_args := Some [BRCTL_GET_FDB_ENTRIES; 0; 2 ^ 28 + 1; 0]; u_admin := false; u_copy := true |} in
  exists s, exec None anything setup sample_init s /\ enabled (EvIoctl 0 u) s /\
    handle None (EvIoctl 0 u) s = None.
Proof.
  exists sample. split; [apply run_exec, sample_run|]. split; [apply enabledb_sound|]; vm_compute; reflexivity.
Qed.

(** When [br_sysfs_addif] fails, [br_add_if] removes a port that was
    never put on the port list, and unlinking it follows NULL links. *)
Theorem sysfs_failure_oopses :
  let u := {| u_args := Some [BRCTL_ADD_IF; 2; 0; 0]; u_admin := true; u_copy := true |} in
  enabled (EvIoctl (- ENOMEM) u) sample_init /\ handle None (EvIoctl (- ENOMEM) u) sample_init = None.
Proof. split; [apply enabledb_sound|]; vm_compute; reflexivity. Qed.
