(* ===== verification/Timer.v ===== *)
(** * kernel/timer.c: the timer wheel

    One CPU, so there is one base and a timer's [base] pointer is NULL or that
    base; spin locks and the [magic] field, a debugging aid, have no effect
    here.  The 256 + 4 * 64 list heads are a map from (level, index) to lists
    of timers; a timer is on at most one list, and [list_del] takes it off
    whichever it is on, the local [work_list] of [__run_timers] included.

    A timer function runs with the base unlocked and may use the timer calls
    on any timer: a handler gives the list of the calls it makes. *)
From S2P Require Import Prelude.

Definition tptr := nat.

Definition TVN_BITS : Z := 6.
Definition TVR_BITS : Z := 8.
Definition TVN_SIZE : Z := Z.shiftl 1 TVN_BITS.
Definition TVR_SIZE : Z := Z.shiftl 1 TVR_BITS.
Definition TVN_MASK : Z := TVN_SIZE - 1.
Definition TVR_MASK : Z := TVR_SIZE - 1.

Record timer_list := { expires : Z; function : bool; base : bool }.
#[export] Instance eta_timer_list : Eta timer_list := fun t =>
  {| expires := expires t; function := function t; base := base t |}.

(** The vectors are levels 1 to 5. *)
Definition slot : Type := nat * Z.

Record tvec_base := {
  timer_jiffies : Z;
  tv : gmap slot (list tptr);
  timers : gmap tptr timer_list;
  work_list : list tptr;
  jiffies : Z;
  fired : list (Z * tptr * Z)   (** what ran: the tick, the timer and its expiry *)
}.
#[export] Instance eta_tvec_base : Eta tvec_base := fun b =>
  {| timer_jiffies := timer_jiffies b; tv := tv b; timers := timers b; work_list := work_list b;
     jiffies := jiffies b; fired := fired b |}.
Implicit Types (s : tvec_base) (t : tptr).

Definition vec s (k : slot) : list tptr := tv s !!! k.

(** ** Primitive accesses *)
Definition timer_get t : M tvec_base timer_list := o ← gets (fun s => timers s !! t); deref o.
Definition timer_set t (f : timer_list -> timer_list) : M tvec_base unit :=
  x ← timer_get t; modify (fun s => s <| timers := <[t := f x]> (timers s) |>).
Definition unlink t (l : list tptr) : list tptr := filter (fun x => x <> t) l.
Definition list_del t : M tvec_base unit :=
  modify (fun s => s <| tv := unlink t <$> tv s |> <| work_list := unlink t (work_list s) |>).
Definition list_add_tail t (k : slot) : M tvec_base unit :=
  modify (fun s => s <| tv := <[k := vec s k ++ [t]]> (tv s) |>).
Definition INIT_LIST_HEAD (k : slot) : M tvec_base unit :=
  modify (fun s => s <| tv := <[k := []]> (tv s) |>).
Definition BUG_ON (b : bool) : M tvec_base unit := if b then oops else ret tt.

(** The comparison of wrapping time stamps of include/linux/jiffies.h. *)
Definition time_after_eq (a b : Z) : bool := 0 <=? s32 (a - b).

(** ** Adding *)

(** The list [internal_add_timer] chooses.  [unsigned long] is 32 bits, so
    [idx > 0xffffffffUL] never holds. *)
Definition add_slot (now expires : Z) : slot :=
  let idx := u32 (expires - now) in
  if idx <? TVR_SIZE then (1%nat, Z.land expires TVR_MASK)
  else if idx <? Z.shiftl 1 (TVR_BITS + TVN_BITS) then
    (2%nat, Z.land (Z.shiftr expires TVR_BITS) TVN_MASK)
  else if idx <? Z.shiftl 1 (TVR_BITS + 2 * TVN_BITS) then
    (3%nat, Z.land (Z.shiftr expires (TVR_BITS + TVN_BITS)) TVN_MASK)
  else if idx <? Z.shiftl 1 (TVR_BITS + 3 * TVN_BITS) then
    (4%nat, Z.land (Z.shiftr expires (TVR_BITS + 2 * TVN_BITS)) TVN_MASK)
  else if s32 idx <? 0 then (1%nat, Z.land now TVR_MASK)
  else (5%nat, Z.land (Z.shiftr expires (TVR_BITS + 3 * TVN_BITS)) TVN_MASK).

Definition internal_add_timer t : M tvec_base unit :=
  x ← timer_get t;
  now ← gets timer_jiffies;
  list_add_tail t (add_slot now (expires x)).

Definition __mod_timer t (e : Z) : M tvec_base Z :=
  x ← timer_get t;
  BUG_ON (negb (function x));;
  (if base x then list_del t else ret tt);;
  timer_set t (fun x => x <| expires := e |>);;
  internal_add_timer t;;
  timer_set t (fun x => x <| base := true |>);;
  ret (of_bool (base x)).

Definition timer_pending (x : timer_list) : bool := base x.

Definition mod_timer t (e : Z) : M tvec_base Z :=
  x ← timer_get t;
  BUG_ON (negb (function x));;
  if (expires x =? e) && timer_pending x then ret 1 else __mod_timer t e.

Definition add_timer t : M tvec_base unit :=
  x ← timer_get t; __mod_timer t (expires x);; ret tt.

Definition add_timer_on t : M tvec_base unit :=
  x ← timer_get t;
  BUG_ON (timer_pending x || negb (function x));;
  internal_add_timer t;;
  timer_set t (fun x => x <| base := true |>).

Definition del_timer t : M tvec_base Z :=
  x ← timer_get t;
  if negb (base x) then ret 0 else
  list_del t;;
  timer_set t (fun x => x <| base := false |>);;
  ret 1.

Definition init_timer t : M tvec_base unit := timer_set t (fun x => x <| base := false |>).

(** ** Running *)

(** A timer that went back on the list being emptied would be lost: the
    model stops there. *)
Definition cascade (level : nat) (index : Z) : M tvec_base Z :=
  l ← gets (fun s => vec s (level, index));
  for_each l (fun t =>
    x ← timer_get t;
    BUG_ON (negb (base x));;
    now ← gets timer_jiffies;
    BUG_ON (bool_decide (add_slot now (expires x) = (level, index)));;
    internal_add_timer t);;
  INIT_LIST_HEAD (level, index);;
  ret index.

Definition INDEX (now N : Z) : Z := Z.land (Z.shiftr now (TVR_BITS + N * TVN_BITS)) TVN_MASK.

(** The chain of [&&] that cascades a level only when the index of the one
    below is 0. *)
Definition cascade_all (now index : Z) : M tvec_base unit :=
  when (index =? 0)
   (i ← cascade 2 (INDEX now 0);
    when (i =? 0)
     (i ← cascade 3 (INDEX now 1);
      when (i =? 0)
       (i ← cascade 4 (INDEX now 2);
        when (i =? 0) (_ ← cascade 5 (INDEX now 3); ret tt)))).

Inductive timer_op := op_add (t : tptr) | op_mod (t : tptr) (e : Z) | op_del (t : tptr).
Definition op_timer (o : timer_op) : tptr :=
  match o with op_add t => t | op_mod t _ => t | op_del t => t end.
Definition do_op (o : timer_op) : M tvec_base unit :=
  match o with
  | op_add t => add_timer t
  | op_mod t e => mod_timer t e;; ret tt
  | op_del t => del_timer t;; ret tt
  end.

Section run.
Context (handler : tptr -> tvec_base -> list timer_op).

(** [fn(data)] *)
Definition call t : M tvec_base unit :=
  ops ← gets (handler t); for_each ops do_op.

(** The loop at [repeat]; the calls never put a timer on the work list, whose
    length bounds the fuel. *)
Fixpoint run_work (fuel : nat) (tick : Z) : M tvec_base unit :=
  l ← gets work_list;
  match l with
  | [] => ret tt
  | t :: _ =>
      match fuel with
      | O => oops
      | S fuel =>
          x ← timer_get t;
          BUG_ON (negb (function x));;
          list_del t;;
          timer_set t (fun x => x <| base := false |>);;
          modify (fun s => s <| fired := fired s ++ [(tick, t, expires x)] |>);;
          call t;;
          run_work fuel tick
      end
  end.

(** One round of the loop of [__run_timers]. *)
Definition run_tick : M tvec_base unit :=
  now ← gets timer_jiffies;
  let index := Z.land now TVR_MASK in
  cascade_all now index;;
  modify (fun s => s <| timer_jiffies := u32 (now + 1) |>);;
  l ← gets (fun s => vec s (1%nat, index));
  modify (fun s => s <| work_list := l |> <| tv := <[(1%nat, index) := []]> (tv s) |>);;
  run_work (length l) now.

(** [jiffies] stands still while the timers run. *)
Fixpoint run_timers_loop (fuel : nat) : M tvec_base unit :=
  j ← gets jiffies;
  now ← gets timer_jiffies;
  if time_after_eq j now then
    match fuel with O => oops | S fuel => run_tick;; run_timers_loop fuel end
  else ret tt.

Definition __run_timers : M tvec_base unit :=
  j ← gets jiffies;
  now ← gets timer_jiffies;
  run_timers_loop (Z.to_nat (s32 (j - now) + 1)).

Definition run_timer_softirq : M tvec_base unit :=
  j ← gets jiffies;
  now ← gets timer_jiffies;
  when (time_after_eq j now) __run_timers.
End run.

Definition init_timers_cpu (j : Z) (ts : gmap tptr timer_list) : tvec_base :=
  {| timer_jiffies := j; tv := ∅; timers := ts; work_list := []; jiffies := j; fired := [] |}.
