(* ===== verification/TimerWheel.v ===== *)
(** * The timer wheel: placement of timers

    A timer is on a list from which it will be taken in time: the lists of
    level 1 are indexed by the tick, those of a higher level by a block of
    ticks, and a timer on one of them has its block still to come. *)
From S2P Require Import Prelude.
From S2P Require Import Timer.
From Stdlib Require Import ZifyNat.

Ltac Zify.zify_post_hook ::= Z.to_euclidean_division_equations.

(** ** Arithmetic of the slots *)

(** The number of low bits a level does not look at. *)
Definition low_bits (level : nat) : Z := 8 + 6 * (Z.of_nat level - 2).

Definition index_of (level : nat) (e : Z) : Z := (e / 2 ^ low_bits level) mod 64.

Lemma land_mask x n : 0 <= n -> Z.land x (2 ^ n - 1) = x mod 2 ^ n.
Proof. intros. rewrite <- Z.land_ones by done. by rewrite Z.ones_equiv, Z.sub_1_r. Qed.

Lemma tvr_index x : Z.land x TVR_MASK = x mod 256.
Proof. apply (land_mask x 8). lia. Qed.

Lemma tvn_index x n : 0 <= n -> Z.land (Z.shiftr x n) TVN_MASK = (x / 2 ^ n) mod 64.
Proof. intros. rewrite Z.shiftr_div_pow2 by done. apply (land_mask _ 6). lia. Qed.

(** Where a timer that expires at [e] may be when the wheel has reached
    [now]. *)
Definition placed (now : Z) (k : slot) (e : Z) : Prop :=
  let d := u32 (e - now) in
  (k.1 = 1%nat /\ (k.2 = e mod 256 /\ d < 256 \/ k.2 = now mod 256 /\ 2 ^ 31 <= d)) \/
  ((2 <= k.1 <= 5)%nat /\ k.2 = index_of k.1 e /\ e mod 2 ^ low_bits k.1 <= d < 2 ^ (low_bits k.1 + 6) /\ d < 2 ^ 31).

(** A timer of a higher level whose block is not the current one. *)
Definition ahead (now : Z) (k : slot) (e : Z) : Prop :=
  k.1 <> 1%nat -> e mod 2 ^ low_bits k.1 < u32 (e - now).

(** The expiry has come: its signed distance from the tick is not positive. *)
Definition due (now e : Z) : Prop := s32 (e - now) <= 0.

Lemma level_cases (k : nat) : (2 <= k <= 5)%nat -> k = 2%nat \/ k = 3%nat \/ k = 4%nat \/ k = 5%nat.
Proof. lia. Qed.

Lemma add_slot_placed now e :
  0 <= now < 2 ^ 32 -> 0 <= e < 2 ^ 32 -> placed now (add_slot now e) e /\ ahead now (add_slot now e) e.
Proof.
  intros Hn He. unfold add_slot.
  change (Z.shiftl 1 (TVR_BITS + TVN_BITS)) with (2 ^ 14). change (Z.shiftl 1 (TVR_BITS + 2 * TVN_BITS)) with (2 ^ 20).
  change (Z.shiftl 1 (TVR_BITS + 3 * TVN_BITS)) with (2 ^ 26). change TVR_SIZE with 256.
  rewrite !tvr_index, !tvn_index by (by vm_compute).
  pose proof (u32_range (e - now)). set (d := u32 (e - now)) in *.
  unfold placed, ahead. fold d.
  destruct (Z.ltb_spec d 256); [simpl; split; [left|]; lia|].
  destruct (Z.ltb_spec d (2 ^ 14)).
  { cbn [fst snd]. change (low_bits 2) with 8. change (index_of 2 e) with ((e / 2 ^ 8) mod 64).
    change (TVR_BITS) with 8. split; [right|]; simpl Z.add; lia. }
  destruct (Z.ltb_spec d (2 ^ 20)).
  { cbn [fst snd]. change (low_bits 3) with 14. change (index_of 3 e) with ((e / 2 ^ 14) mod 64).
    change (TVR_BITS + TVN_BITS) with 14. split; [right|]; simpl Z.add; lia. }
  destruct (Z.ltb_spec d (2 ^ 26)).
  { cbn [fst snd]. change (low_bits 4) with 20. change (index_of 4 e) with ((e / 2 ^ 20) mod 64).
    change (TVR_BITS + 2 * TVN_BITS) with 20. split; [right|]; simpl Z.add; lia. }
  assert (s32 d = if d <? 2 ^ 31 then d else d - 2 ^ 32) as ->.
  { unfold s32. rewrite Z.mod_small by lia. done. }
  destruct (Z.ltb_spec d (2 ^ 31)).
  - destruct (Z.ltb_spec d 0); [lia|]. cbn [fst snd]. change (low_bits 5) with 26.
    change (index_of 5 e) with ((e / 2 ^ 26) mod 64). change (TVR_BITS + 3 * TVN_BITS) with 26.
    split; [right|]; simpl Z.add; lia.
  - destruct (Z.ltb_spec (d - 2 ^ 32) 0); [|lia]. simpl. split; [left|]; lia.
Qed.

Section arith.
Context (now e : Z) (Hn : 0 <= now < 2 ^ 32) (He : 0 <= e < 2 ^ 32).

(** A timer whose block is the current one is in the slot of the current
    index, and the current tick starts the block. *)
Lemma behind_index k :
  placed now k e -> ~ ahead now k e ->
  (2 <= k.1 <= 5)%nat /\ now mod 2 ^ low_bits k.1 = 0 /\ k.2 = index_of k.1 now.
Proof using Hn He.
  intros [[E _]|(Hk & -> & Hd & _)] Ha; [destruct Ha; unfold ahead; lia|]. split; [done|].
  assert (e mod 2 ^ low_bits k.1 = u32 (e - now)) as E.
  { destruct (Z.eq_dec (e mod 2 ^ low_bits k.1) (u32 (e - now))); [done|]. destruct Ha. unfold ahead. lia. }
  clear Ha Hd. revert E. unfold index_of, u32.
  destruct (level_cases _ Hk) as [-> |[-> |[-> | ->]]];
    [change (low_bits 2) with 8|change (low_bits 3) with 14|change (low_bits 4) with 20|change (low_bits 5) with 26]; lia.
Qed.

(** What is in the slot of the current index at the start of a block belongs
    to that block: it goes to a lower level, ahead of the wheel. *)
Lemma current_slot k :
  placed now k e -> (2 <= k.1 <= 5)%nat -> now mod 2 ^ low_bits k.1 = 0 -> k.2 = index_of k.1 now ->
  u32 (e - now) < 2 ^ low_bits k.1.
Proof using Hn He.
  intros [[E _]|(_ & E & Hd & _)] Hk H0 Hi; [lia|]. rewrite E in Hi. clear E. revert H0 Hi Hd. unfold index_of, u32.
  destruct (level_cases _ Hk) as [-> |[-> |[-> | ->]]];
    [change (low_bits 2) with 8|change (low_bits 3) with 14|change (low_bits 4) with 20|change (low_bits 5) with 26];
    simpl Z.add; lia.
Qed.

Lemma add_slot_lower k : (2 <= k <= 5)%nat -> u32 (e - now) < 2 ^ low_bits k -> ((add_slot now e).1 < k)%nat.
Proof using Hn He.
  intros Hk Hd. unfold add_slot.
  change (Z.shiftl 1 (TVR_BITS + TVN_BITS)) with (2 ^ 14). change (Z.shiftl 1 (TVR_BITS + 2 * TVN_BITS)) with (2 ^ 20).
  change (Z.shiftl 1 (TVR_BITS + 3 * TVN_BITS)) with (2 ^ 26). change TVR_SIZE with 256.
  destruct (level_cases _ Hk) as [-> |[-> |[-> | ->]]];
    [change (low_bits 2) with 8 in Hd|change (low_bits 3) with 14 in Hd|change (low_bits 4) with 20 in Hd|change (low_bits 5) with 26 in Hd];
    repeat match goal with |- context [?a <? ?b] => destruct (Z.ltb_spec a b) end; simpl; lia.
Qed.

(** The next tick. *)
Lemma placed_next k :
  placed now k e -> ahead now k e -> k <> (1%nat, now mod 256) -> placed (u32 (now + 1)) k e.
Proof using Hn He.
  intros Hp Ha Hk. destruct k as [l i]. unfold placed, ahead in *. cbn [fst snd] in *.
  assert (forall d, d = u32 (e - now) -> 0 < d -> u32 (e - u32 (now + 1)) = d - 1) as Hd.
  { intros d -> H. revert H. unfold u32. lia. }
  destruct Hp as [[-> [[-> H]|[-> H]]]|(Hl & -> & H & H')]; [|done|].
  - left. split; [done|]. left. split; [done|].
    assert (u32 (e - now) <> 0). { intros E. apply Hk. f_equal. revert E. unfold u32. lia. }
    pose proof (u32_range (e - now)). erewrite Hd by (done || lia). lia.
  - right. specialize (Ha ltac:(lia)). assert (0 <= e mod 2 ^ low_bits l) by (apply Z.mod_pos_bound, Z.pow_pos_nonneg; unfold low_bits; lia).
    erewrite Hd by (done || lia). split_and!; [lia..|done|lia|lia|lia].
Qed.

(** What is in the slot of the tick is due. *)
Lemma slot_due : placed now (1%nat, now mod 256) e -> due now e.
Proof using Hn He.
  intros [[_ [[E H]|[_ H]]]|[H _]]; [| |simpl in H; lia]; unfold due, s32, u32 in *; cbn [fst snd] in *;
    destruct (Z.ltb_spec ((e - now) mod 2 ^ 32) (2 ^ 31)); lia.
Qed.

(** A timer that expires now, or should have before, is in the slot of the
    tick. *)
Lemma due_slot k :
  placed now k e -> ahead now k e -> e = now \/ 2 ^ 31 <= u32 (e - now) -> k = (1%nat, now mod 256).
Proof using Hn He.
  intros Hp Ha E. destruct k as [l i]. unfold placed, ahead in *. cbn [fst snd] in *.
  destruct Hp as [[-> [[-> H]|[-> H]]]|(Hl & _ & Hm & H)].
  - destruct E as [->|]; [done|lia].
  - done.
  - specialize (Ha ltac:(lia)). destruct E as [E|]; [|lia]. rewrite E, Z.sub_diag in Ha. change (u32 0) with 0 in Ha.
    assert (0 <= now mod 2 ^ low_bits l) by (apply Z.mod_pos_bound, Z.pow_pos_nonneg; unfold low_bits; lia). lia.
Qed.
End arith.

(** ** The timer wheel: its invariant and what the calls do to it *)
Implicit Types (s : tvec_base) (t : tptr).

(** ** The invariant

    [wheel o s]: every queued timer is on one list, at a place from which it
    will be taken in time; the timer [o], when there is one, is being moved
    and is on no list. *)
Record wheel (o : option tptr) s : Prop := {
  w_now : 0 <= timer_jiffies s < 2 ^ 32;
  w_expires t x : timers s !! t = Some x -> 0 <= expires x < 2 ^ 32;
  w_on k t : t ∈ vec s k ->
    exists x, timers s !! t = Some x /\ base x = true /\ placed (timer_jiffies s) k (expires x);
  w_work t : t ∈ work_list s -> exists x, timers s !! t = Some x /\ base x = true;
  w_queued t x : Some t <> o -> timers s !! t = Some x -> base x = true ->
    (exists k, t ∈ vec s k) \/ t ∈ work_list s;
  w_one t k k' : t ∈ vec s k -> t ∈ vec s k' -> k = k';
  w_nodup k : NoDup (vec s k);
  w_nodup_work : NoDup (work_list s);
  w_apart t k : t ∈ work_list s -> t ∉ vec s k;
  w_off t : Some t = o -> (forall k, t ∉ vec s k) /\ t ∉ work_list s
}.
Abbreviation wheel_ok := (wheel None).

(** ** Lists *)
Lemma elem_of_unlink x t l : x ∈ unlink t l <-> x <> t /\ x ∈ l.
Proof. unfold unlink. by rewrite list_elem_of_filter. Qed.

Lemma vec_del s t k :
  vec (s <| tv := unlink t <$> tv s |> <| work_list := unlink t (work_list s) |>) k = unlink t (vec s k).
Proof.
  unfold vec. simpl. rewrite !lookup_total_alt, lookup_fmap. by destruct (tv s !! k).
Qed.

Lemma vec_insert s k l j : vec (s <| tv := <[k := l]> (tv s) |>) j = if decide (j = k) then l else vec s j.
Proof.
  unfold vec. simpl. case_decide as E; [subst; apply lookup_total_insert_eq|by apply lookup_total_insert_ne].
Qed.

(** ** Taking a timer off its list *)
Lemma list_del_ok s t x :
  wheel_ok s -> timers s !! t = Some x ->
  let s' := s <| tv := unlink t <$> tv s |> <| work_list := unlink t (work_list s) |> in
  wheel (Some t) s' /\ (forall u, u <> t -> u ∈ work_list s -> u ∈ work_list s').
Proof.
  intros W Hx s'. split; [|intros u Hu Hw; by apply elem_of_unlink].
  assert (forall k, vec s' k = unlink t (vec s k)) as Ev by (intros k; apply vec_del).
  destruct W. split; try done.
  - intros k u. rewrite Ev. intros [_ Hu]%elem_of_unlink. eauto.
  - intros u [_ Hu]%elem_of_unlink. eauto.
  - intros u y Hne Hy Hb. destruct (w_queued0 u y) as [[k Hk]|Hw]; [done|done|done| |].
    + left. exists k. rewrite Ev. apply elem_of_unlink. split; [congruence|done].
    + right. apply elem_of_unlink. split; [congruence|done].
  - intros u k k'. rewrite !Ev. intros [_ H1]%elem_of_unlink [_ H2]%elem_of_unlink. eauto.
  - intros k. rewrite Ev. by apply NoDup_filter.
  - by apply NoDup_filter.
  - intros u k [_ H1]%elem_of_unlink. rewrite Ev. intros [_ H2]%elem_of_unlink. by eapply w_apart0.
  - intros u [= ->]. split; [intros k; rewrite Ev|]; intros []%elem_of_unlink; done.
Qed.

(** A timer that is not queued is on no list. *)
Lemma idle_off s t x : wheel_ok s -> timers s !! t = Some x -> base x = false -> wheel (Some t) s.
Proof.
  intros W Hx Hb. destruct W. split; try done; [by intros; eapply w_queued0|].
  intros u [= ->]. split.
  - intros k Hu. destruct (w_on0 k t Hu) as (y & Hy & Hby & _). congruence.
  - intros Hu. destruct (w_work0 t Hu) as (y & Hy & Hby). congruence.
Qed.

(** ** Queueing it *)
Lemma enqueue_ok s t x e :
  wheel (Some t) s -> timers s !! t = Some x -> 0 <= e < 2 ^ 32 ->
  let k := add_slot (timer_jiffies s) e in
  wheel_ok (s <| tv := <[k := vec s k ++ [t]]> (tv s) |>
              <| timers := <[t := x <| expires := e |> <| base := true |>]> (timers s) |>).
Proof.
  intros W Hx He k. destruct W. set (y := x <| expires := e |> <| base := true |>).
  set (s' := s <| tv := _ |> <| timers := _ |>).
  assert (forall j, vec s' j = if decide (j = k) then vec s k ++ [t] else vec s j) as Ev
    by (intros j; apply (vec_insert s k _ j)).
  destruct (w_off0 t eq_refl) as [Hoff Hoffw].
  assert (forall u j, u ∈ vec s' j <-> u ∈ vec s j \/ (u = t /\ j = k)) as Hin.
  { intros u j. rewrite Ev. case_decide as E; [subst j|]; [rewrite elem_of_app, list_elem_of_singleton|]; naive_solver. }
  assert (forall u, u <> t -> timers s' !! u = timers s !! u) as Hne by (intros u Hu; by apply lookup_insert_ne).
  assert (timers s' !! t = Some y) as Heq by apply lookup_insert_eq.
  split; try done.
  - intros u z Hz. destruct (decide (u = t)) as [->|Hu]; [rewrite Heq in Hz; by injection Hz as <-|].
    rewrite Hne in Hz by done. eauto.
  - intros j u [Hu|[-> ->]]%Hin.
    + destruct (w_on0 j u Hu) as (z & Hz & Hb & Hp). exists z. rewrite Hne; [done|]. intros ->. by apply (Hoff j).
    + exists y. split_and!; [done..|]. by apply add_slot_placed.
  - intros u Hu. destruct (w_work0 u Hu) as (z & Hz & Hb). exists z. rewrite Hne; [done|]. by intros ->.
  - intros u z _ Hz Hb. destruct (decide (u = t)) as [->|Hu]; [left; exists k; apply Hin; by right|].
    rewrite Hne in Hz by done. destruct (w_queued0 u z) as [[j Hj]|Hw]; [congruence|done|done| |by right].
    left. exists j. apply Hin. by left.
  - intros u j j' [H1|[-> ->]]%Hin [H2|[E ->]]%Hin; [eauto| | |done]; subst; by destruct (Hoff _ ltac:(eassumption)).
  - intros j. rewrite Ev. case_decide; [|done]. apply NoDup_app. split_and!; [done| |apply NoDup_singleton].
    intros u Hu ->%list_elem_of_singleton. by apply (Hoff k).
  - intros u j Hu [Hj|[-> _]]%Hin; [by eapply w_apart0|done].
Qed.

(** Leaving it idle. *)
Lemma dequeue_ok s t x :
  wheel (Some t) s -> timers s !! t = Some x ->
  wheel_ok (s <| timers := <[t := x <| base := false |>]> (timers s) |>).
Proof.
  intros W Hx. destruct W. destruct (w_off0 t eq_refl) as [Hoff Hoffw].
  set (s' := s <| timers := _ |>).
  assert (forall u, u <> t -> timers s' !! u = timers s !! u) as Hne by (intros u Hu; by apply lookup_insert_ne).
  assert (timers s' !! t = Some (x <| base := false |>)) as Heq by apply lookup_insert_eq.
  split; try done.
  - intros u z Hz. destruct (decide (u = t)) as [->|Hu]; [rewrite Heq in Hz; injection Hz as <-; by apply (w_expires0 t x)|].
    rewrite Hne in Hz by done. eauto.
  - intros j u Hu. destruct (w_on0 j u Hu) as (z & Hz & Hb & Hp). exists z. rewrite Hne; [done|]. intros ->. by apply (Hoff j).
  - intros u Hu. destruct (w_work0 u Hu) as (z & Hz & Hb). exists z. rewrite Hne; [done|]. by intros ->.
  - intros u z _ Hz Hb. destruct (decide (u = t)) as [->|Hu]; [rewrite Heq in Hz; by injection Hz as <-|].
    rewrite Hne in Hz by done. apply (w_queued0 u z); [congruence|done..].
Qed.

(** ** The timer calls *)

(** What running code that touches only timers outside [P] leaves alone. *)
Record keeps (P : tptr -> Prop) s s' : Prop := {
  k_now : timer_jiffies s' = timer_jiffies s;
  k_jiffies : jiffies s' = jiffies s;
  k_fired : fired s' = fired s;
  k_known t : function <$> timers s' !! t = function <$> timers s !! t;
  k_length : (length (work_list s') <= length (work_list s))%nat;
  k_work t : t ∈ work_list s' -> t ∈ work_list s /\ timers s' !! t = timers s !! t;
  k_timer t : P t -> timers s' !! t = timers s !! t;
  k_stay t : P t -> t ∈ work_list s -> t ∈ work_list s'
}.

Lemma keeps_refl P s : keeps P s s.
Proof. split; eauto. Qed.

Lemma keeps_trans P s1 s2 s3 : keeps P s1 s2 -> keeps P s2 s3 -> keeps P s1 s3.
Proof.
  intros [] []. split; try congruence; try lia.
  - intros t Ht. destruct (k_work1 t Ht) as [H1 E1]. destruct (k_work0 t H1) as [H2 E2]. split; congruence.
  - intros t Ht. rewrite k_timer1 by done. by apply k_timer0.
  - intros t Ht Hw. apply k_stay1; [done|]. by apply k_stay0.
Qed.

Lemma keeps_mono (P Q : tptr -> Prop) s s' : (forall t, Q t -> P t) -> keeps P s s' -> keeps Q s s'.
Proof. intros H []. split; auto. Qed.

(** A change of one timer's record and lists. *)
Lemma keeps_one s s' t x y :
  timer_jiffies s' = timer_jiffies s -> jiffies s' = jiffies s -> fired s' = fired s ->
  timers s !! t = Some x -> function y = function x ->
  timers s' = <[t := y]> (timers s) -> work_list s' = unlink t (work_list s) ->
  keeps (fun u => u <> t) s s'.
Proof.
  intros H1 H2 H3 Hx Hf Et Ew. split; try done.
  - intros u. rewrite Et. destruct (decide (u = t)) as [->|Hu]; [|by rewrite lookup_insert_ne].
    rewrite lookup_insert_eq, Hx. simpl. by rewrite Hf.
  - rewrite Ew. apply length_filter.
  - intros u. rewrite Ew, Et. intros [Hu Hw]%elem_of_unlink. split; [done|]. by rewrite lookup_insert_ne.
  - intros u Hu. rewrite Et. by apply lookup_insert_ne.
  - intros u Hu Hw. rewrite Ew. by apply elem_of_unlink.
Qed.

Lemma unlink_absent t l : t ∉ l -> unlink t l = l.
Proof.
  intros H. unfold unlink. induction l as [|u l IH]; [done|]. apply not_elem_of_cons in H as [Hne H].
  rewrite filter_cons_True by congruence. by rewrite IH.
Qed.

Lemma wp_timer_get s t x Q : timers s !! t = Some x -> Q x s -> wp (timer_get t) Q s.
Proof. intros Hx HQ. apply wp_bind, wp_gets. by eapply wp_deref. Qed.

Lemma wp_timer_set s t x f Q :
  timers s !! t = Some x -> Q tt (s <| timers := <[t := f x]> (timers s) |>) -> wp (timer_set t f) Q s.
Proof. intros Hx HQ. apply wp_bind. by eapply wp_timer_get, wp_modify. Qed.

Lemma wp_BUG_ON s b (Q : unit -> tvec_base -> Prop) : b = false -> Q tt s -> wp (BUG_ON b) Q s.
Proof. by intros ->. Qed.

Lemma __mod_timer_ok s t x e :
  wheel_ok s -> timers s !! t = Some x -> function x = true -> 0 <= e < 2 ^ 32 ->
  wp (__mod_timer t e) (fun r s' => r = of_bool (base x) /\ wheel_ok s' /\ keeps (fun u => u <> t) s s' /\
    timers s' !! t = Some (x <| expires := e |> <| base := true |>)) s.
Proof.
  intros W Hx Hf He. unfold __mod_timer, internal_add_timer, list_add_tail.
  assert (exists s1, (if base x then list_del t else ret tt) s = Some (tt, s1) /\ wheel (Some t) s1 /\
    timers s1 = timers s /\ work_list s1 = unlink t (work_list s) /\ timer_jiffies s1 = timer_jiffies s /\
    jiffies s1 = jiffies s /\ fired s1 = fired s) as (s1 & E1 & W1 & T1 & L1 & J1 & J1' & F1).
  { destruct (base x) eqn:Hb.
    - eexists. split; [done|]. destruct (list_del_ok s t x W Hx) as [W1 _]. done.
    - exists s. destruct (idle_off s t x W Hx Hb). split_and!; try done. symmetry. apply unlink_absent. by apply w_off0. }
  apply wp_bind. eapply wp_timer_get; [done|]. apply wp_bind, wp_BUG_ON; [by rewrite Hf|].
  apply wp_bind. eapply wp_of_run; [exact E1|]. apply wp_bind. eapply wp_timer_set; [by rewrite T1|].
  apply wp_bind, wp_bind. eapply wp_timer_get; [simpl; rewrite T1; apply lookup_insert_eq|].
  apply wp_bind, wp_gets, wp_modify. apply wp_bind.
  eapply wp_timer_set; [simpl; rewrite T1; apply lookup_insert_eq|]. apply wp_ret. simpl. rewrite T1.
  rewrite insert_insert_eq.
  split; [done|]. assert (timers s1 !! t = Some x) as Hx1 by (by rewrite T1).
  pose proof (enqueue_ok s1 t x e W1 Hx1 He) as W2. rewrite T1 in W2. split; [exact W2|]. split.
  - by apply (keeps_one s _ t x (x <| expires := e |> <| base := true |>)).
  - apply lookup_insert_eq.
Qed.

Lemma mod_timer_ok s t x e :
  wheel_ok s -> timers s !! t = Some x -> function x = true -> 0 <= e < 2 ^ 32 ->
  wp (mod_timer t e) (fun r s' => r = of_bool (base x) /\ wheel_ok s' /\ keeps (fun u => u <> t) s s' /\
    timers s' !! t = Some (x <| expires := e |> <| base := true |>)) s.
Proof.
  intros W Hx Hf He. apply wp_bind. eapply wp_timer_get; [done|]. apply wp_bind, wp_BUG_ON; [by rewrite Hf|].
  unfold timer_pending. destruct (Z.eqb_spec (expires x) e) as [E|]; [destruct (base x) eqn:Hb|];
    [|pose proof (__mod_timer_ok s t x e W Hx Hf He) as H; by rewrite Hb in H|by apply __mod_timer_ok].
  apply wp_ret. split_and!; [done..|apply keeps_refl|]. rewrite Hx. destruct x. simpl in *. by subst.
Qed.

Lemma add_timer_ok s t x :
  wheel_ok s -> timers s !! t = Some x -> function x = true ->
  wp (add_timer t) (fun _ s' => wheel_ok s' /\ keeps (fun u => u <> t) s s' /\
    timers s' !! t = Some (x <| base := true |>)) s.
Proof.
  intros W Hx Hf. apply wp_bind. eapply wp_timer_get; [done|]. apply wp_bind.
  eapply wp_mono; [apply (__mod_timer_ok s t x); [done..|by apply (w_expires None s W t)]|].
  intros r s' (_ & W' & K & E). apply wp_ret. split_and!; [done..|]. rewrite E. by destruct x.
Qed.

Lemma del_timer_ok s t x :
  wheel_ok s -> timers s !! t = Some x ->
  wp (del_timer t) (fun r s' => r = of_bool (base x) /\ wheel_ok s' /\ keeps (fun u => u <> t) s s' /\
    timers s' !! t = Some (x <| base := false |>)) s.
Proof.
  intros W Hx. apply wp_bind. eapply wp_timer_get; [done|]. destruct (base x) eqn:Hb; simpl.
  - apply wp_bind, wp_modify, wp_bind. eapply wp_timer_set; [done|]. apply wp_ret.
    destruct (list_del_ok s t x W Hx) as [W1 _]. split_and!; [done|by apply dequeue_ok| |apply lookup_insert_eq].
    by apply (keeps_one s _ t x (x <| base := false |>)).
  - apply wp_ret. split_and!; [done..|apply keeps_refl|]. rewrite Hx. destruct x. simpl in *. by subst.
Qed.

(** ** Handlers *)
Definition known s t : Prop := function <$> timers s !! t = Some true.

Lemma known_timer s t : known s t -> exists x, timers s !! t = Some x /\ function x = true.
Proof. unfold known. destruct (timers s !! t) as [x|]; simpl; [|done]. intros [= ?]. eauto. Qed.

Definition op_ok s (o : timer_op) : Prop :=
  known s (op_timer o) /\ match o with op_mod _ e => 0 <= e < 2 ^ 32 | _ => True end.

Lemma op_ok_keeps P s s' o : keeps P s s' -> op_ok s o -> op_ok s' o.
Proof.
  intros K [Hk Ho]. split; [|done]. unfold known. by rewrite (k_known _ _ _ K).
Qed.

Lemma do_op_ok s o :
  wheel_ok s -> op_ok s o ->
  wp (do_op o) (fun _ s' => wheel_ok s' /\ keeps (fun u => u <> op_timer o) s s') s.
Proof.
  intros W [(x & Hx & Hf)%known_timer Ho]. destruct o as [t|t e|t]; simpl in *.
  - eapply wp_mono; [by apply (add_timer_ok s t x)|]. naive_solver.
  - apply wp_bind. eapply wp_mono; [by apply (mod_timer_ok s t x e)|]. intros. apply wp_ret. naive_solver.
  - apply wp_bind. eapply wp_mono; [by apply (del_timer_ok s t x)|]. intros. apply wp_ret. naive_solver.
Qed.

Lemma do_ops_ok s ops :
  wheel_ok s -> Forall (op_ok s) ops ->
  wp (for_each ops do_op) (fun _ s' => wheel_ok s' /\ keeps (fun u => u ∉ (op_timer <$> ops)) s s') s.
Proof.
  revert s. induction ops as [|o ops IH]; intros s W Ho; simpl.
  { apply wp_ret. split; [done|apply keeps_refl]. }
  apply Forall_cons in Ho as [Ho Hops]. apply wp_bind. eapply wp_mono; [by apply do_op_ok|].
  intros _ s1 [W1 K1]. eapply wp_mono; [apply IH; [done|]|].
  { eapply Forall_impl; [done|]. intros o'. by eapply op_ok_keeps. }
  intros _ s2 [W2 K2]. split; [done|]. eapply keeps_trans; (eapply keeps_mono; [|done]);
    intros t Ht; apply not_elem_of_cons in Ht as [??]; done.
Qed.
