(* ===== verification/TimerRun.v ===== *)
(** * The timer wheel: cascading and running *)
From S2P Require Import Prelude.
From S2P Require Import Timer.
From S2P Require Import TimerWheel.

Implicit Types (s : tvec_base) (t : tptr).

(** ** Cascading *)

(** Only the lists change. *)
Definition same s s' : Prop :=
  timer_jiffies s' = timer_jiffies s /\ timers s' = timers s /\ work_list s' = work_list s /\
  jiffies s' = jiffies s /\ fired s' = fired s.

(** The timers of a level have their blocks still to come. *)
Definition level_ahead s (k : nat) : Prop :=
  forall i t x, t ∈ vec s (k, i) -> timers s !! t = Some x -> ahead (timer_jiffies s) (k, i) (expires x).

Definition dest s t : option slot := (fun x => add_slot (timer_jiffies s) (expires x)) <$> timers s !! t.

(** The effect of [cascade]: the timers of list [k] move to their
    destinations, in order. *)
Lemma cascade_run s (k : slot) :
  (forall t, t ∈ vec s k -> exists x, timers s !! t = Some x /\ base x = true /\
     add_slot (timer_jiffies s) (expires x) <> k) ->
  wp (cascade k.1 k.2) (fun i s' => i = k.2 /\ same s s' /\
    forall j, vec s' j = if decide (j = k) then [] else vec s j ++ filter (fun t => dest s t = Some j) (vec s k)) s.
Proof.
  intros Hl. destruct k as [lv ix]. cbn [fst snd]. unfold cascade. apply wp_bind, wp_gets, wp_bind.
  eapply wp_mono.
  { apply (wp_for_each (fun dn _ s' => same s s' /\
      forall j, vec s' j = vec s j ++ filter (fun t => dest s t = Some j) dn)).
    - split; [done|]. intros j. by rewrite app_nil_r.
    - intros dn t rest s1 El [(J1 & T1 & W1 & J1' & F1) V1].
      destruct (Hl t) as (x & Hx & Hb & Hne). { rewrite El. apply elem_of_app. right. by left. }
      apply wp_bind. eapply wp_timer_get; [by rewrite T1|]. apply wp_bind, wp_BUG_ON; [by rewrite Hb|].
      apply wp_bind, wp_gets, wp_bind, wp_BUG_ON; [rewrite J1; by apply bool_decide_eq_false|].
      apply wp_bind. eapply wp_timer_get; [by rewrite T1|]. apply wp_bind, wp_gets, wp_modify.
      split; [done|]. intros j. rewrite vec_insert, J1, filter_app, app_assoc, <- V1.
      assert (dest s t = Some (add_slot (timer_jiffies s) (expires x))) as Hd by (unfold dest; by rewrite Hx).
      rewrite filter_cons, Hd. case_decide as E; [subst j; by rewrite decide_True|].
      rewrite decide_False by congruence. by rewrite app_nil_r. }
  intros [] s1 [(J1 & T1 & W1 & J1' & F1) V1]. apply wp_bind, wp_modify, wp_ret. split_and!; [done..|].
  intros j. rewrite vec_insert. case_decide; [done|]. apply V1.
Qed.

Section cascade.
Context s (k : slot) (W : wheel_ok s) (Hk : (2 <= k.1 <= 5)%nat).
Context (Hstart : timer_jiffies s mod 2 ^ low_bits k.1 = 0) (Hidx : k.2 = index_of k.1 (timer_jiffies s)).

(** The timers of the current slot all go to lower levels. *)
Lemma current_dest t :
  t ∈ vec s k -> exists x, timers s !! t = Some x /\ base x = true /\ dest s t = Some (add_slot (timer_jiffies s) (expires x)) /\
    ((add_slot (timer_jiffies s) (expires x)).1 < k.1)%nat.
Proof using All.
  intros Ht. destruct (w_on _ _ W k t Ht) as (x & Hx & Hb & Hp). exists x.
  pose proof (w_expires _ _ W t x Hx) as He. pose proof (w_now _ _ W) as Hn.
  split_and!; [done..|unfold dest; by rewrite Hx|]. apply add_slot_lower; [done..|]. by apply current_slot.
Qed.

Lemma cascaded_ok s' :
  same s s' ->
  (forall j, vec s' j = if decide (j = k) then [] else vec s j ++ filter (fun t => dest s t = Some j) (vec s k)) ->
  wheel_ok s' /\ level_ahead s' k.1 /\ forall l, level_ahead s l -> level_ahead s' l.
Proof using All.
  intros (J & T & Wl & J' & F) V.
  assert (forall t j, t ∈ vec s' j <-> (t ∈ vec s j /\ j <> k) \/ (t ∈ vec s k /\ dest s t = Some j /\ j <> k)) as Hin.
  { intros t j. rewrite V. case_decide as E.
    - subst j. split; [intros []%elem_of_nil|]. intros [[_ []]|(_ & _ & [])]; done.
    - rewrite elem_of_app, list_elem_of_filter. naive_solver. }
  assert (forall t j, t ∈ vec s k -> dest s t = Some j -> exists x, timers s !! t = Some x /\ base x = true /\
    placed (timer_jiffies s) j (expires x) /\ ahead (timer_jiffies s) j (expires x)) as Hnew.
  { intros t j Ht Hd. destruct (current_dest t Ht) as (x & Hx & Hb & Hd' & _). rewrite Hd in Hd'. injection Hd' as ->.
    exists x. destruct (add_slot_placed (timer_jiffies s) (expires x)); [apply (w_now _ _ W)|by apply (w_expires _ _ W t)|done]. }
  assert (forall l, (l = k.1 \/ level_ahead s l) -> level_ahead s' l) as Hahead.
  { intros l Hl i t x. rewrite J, T. intros Ht Hx. apply Hin in Ht as [[Ht Hne]|(Ht & Hd & _)].
    - destruct Hl as [->|Hl]; [|by apply (Hl i t x)].
      destruct (w_on _ _ W _ t Ht) as (y & Hy & _ & Hp). simplify_eq.
      destruct (Z.lt_ge_cases (expires x mod 2 ^ low_bits k.1) (u32 (expires x - timer_jiffies s))) as [Hlt|Hge]; [by intros _|].
      destruct (behind_index (timer_jiffies s) (expires x)  (w_now _ _ W) (w_expires _ _ W t x Hx) (k.1, i) Hp) as (_ & _ & Hi).
      { intros Ha. specialize (Ha ltac:(simpl; lia)). simpl in *. lia. }
      destruct Hne. destruct k as [k1 k2]. simpl in *. by rewrite Hi, Hidx.
    - destruct (Hnew t _ Ht Hd) as (y & Hy & _ & _ & Ha). simplify_eq. done. }
  split; [|split; [apply Hahead; by left|intros; apply Hahead; by right]].
  pose proof W as [Q1 Q2 Q3 Q4 Q5 Q6 Q7 Q8 Q9 Q10]. split; rewrite ?J, ?T, ?Wl; try done.
  - intros j t [[Ht _]|(Ht & Hd & _)]%Hin; [eauto|].
    destruct (Hnew t j Ht Hd) as (x & Hx & Hb & Hp & _). eauto.
  - intros t x _ Hx Hb. destruct (Q5 t x) as [[j Hj]|Hw]; [done..| |by right]. left.
    destruct (decide (j = k)) as [->|Hne].
    + destruct (current_dest t Hj) as (y & Hy & _ & Hd & Hlt). exists (add_slot (timer_jiffies s) (expires y)).
      apply Hin. right. split_and!; [done..|]. intros E. rewrite E in Hlt. lia.
    + exists j. apply Hin. by left.
  - intros t j j' [[H1 N1]|(H1 & D1 & N1)]%Hin [[H2 N2]|(H2 & D2 & N2)]%Hin; [eauto| | |congruence];
      by rewrite (Q6 t _ _ H1 H2) in *.
  - intros j. rewrite V. case_decide; [constructor|]. apply NoDup_app. split_and!; [done| |by apply NoDup_filter].
    intros t H1 [_ H2]%list_elem_of_filter. by rewrite (Q6 t _ _ H1 H2) in *.
  - intros t j Ht [[Hj _]|(Hj & _)]%Hin; by eapply Q9.
Qed.

Lemma cascade_ok :
  wp (cascade k.1 k.2) (fun i s' => i = k.2 /\ same s s' /\ wheel_ok s' /\ level_ahead s' k.1 /\
    forall l, level_ahead s l -> level_ahead s' l) s.
Proof using All.
  eapply wp_mono; [apply cascade_run|].
  - intros t Ht. destruct (current_dest t Ht) as (x & Hx & Hb & _ & Hlt). exists x. split_and!; [done..|].
    intros E. rewrite E in Hlt. lia.
  - intros i s' (-> & S & V). split; [done|]. split; [done|]. by apply cascaded_ok.
Qed.
End cascade.

(** The whole chain: afterwards every level above the first is ahead. *)
Lemma behind_start s k :
  wheel_ok s -> (2 <= k <= 5)%nat -> timer_jiffies s mod 2 ^ low_bits k <> 0 -> level_ahead s k.
Proof.
  intros W Hk Hne i t x Ht Hx _. destruct (w_on _ _ W _ t Ht) as (y & Hy & _ & Hp). simplify_eq.
  destruct (Z.lt_ge_cases (expires x mod 2 ^ low_bits k) (u32 (expires x - timer_jiffies s))) as [|Hge]; [done|].
  destruct Hne. destruct (behind_index (timer_jiffies s) (expires x) (w_now _ _ W) (w_expires _ _ W t x Hx) (k, i) Hp)
    as (_ & H0 & _); [|done]. intros Ha. specialize (Ha ltac:(simpl; lia)). simpl in *. lia.
Qed.

Lemma same_trans s1 s2 s3 : same s1 s2 -> same s2 s3 -> same s1 s3.
Proof. unfold same. intros (?&?&?&?&?) (?&?&?&?&?). split_and!; congruence. Qed.

Definition all_ahead s (n : nat) : Prop := forall k, (2 <= k < n)%nat -> level_ahead s k.

Definition caught_up s s' : Prop := same s s' /\ wheel_ok s' /\ all_ahead s' 6.

(** From level [k] on, given that the lower levels are ahead. *)
Lemma chain_stop s s' k :
  same s s' -> wheel_ok s' -> all_ahead s' k -> (2 <= k <= 6)%nat ->
  (forall j, (k <= j <= 5)%nat -> timer_jiffies s mod 2 ^ low_bits j <> 0) -> caught_up s s'.
Proof.
  intros S W A Hk H0. split; [done|]. split; [done|]. intros j Hj.
  destruct (decide (j < k)%nat); [apply A; lia|]. destruct S as (J & _).
  apply behind_start; [done|lia|]. rewrite J. apply H0. lia.
Qed.

Lemma chain_step s s1 (k : nat) (Q : Z -> tvec_base -> Prop) :
  same s s1 -> wheel_ok s1 -> all_ahead s1 k -> (2 <= k <= 5)%nat ->
  timer_jiffies s mod 2 ^ low_bits k = 0 ->
  (forall s2, same s s2 -> wheel_ok s2 -> all_ahead s2 (S k) -> Q (index_of k (timer_jiffies s)) s2) ->
  wp (cascade k (index_of k (timer_jiffies s))) Q s1.
Proof.
  intros S W A Hk H0 HQ. pose proof S as (J & _).
  eapply wp_mono; [apply (cascade_ok s1 (k, index_of k (timer_jiffies s)) W Hk); simpl; by rewrite J|].
  intros i s2 (-> & S2 & W2 & L2 & P2). simpl in *. apply HQ; [by eapply same_trans|done|].
  intros j Hj. destruct (decide (j = k)) as [->|]; [done|]. apply P2, A. lia.
Qed.

Lemma INDEX_at now N (k : nat) : (2 <= k <= 5)%nat -> N = Z.of_nat k - 2 -> INDEX now N = index_of k now.
Proof.
  intros Hk ->. unfold INDEX, index_of, low_bits. change TVR_BITS with 8. change TVN_BITS with 6.
  rewrite tvn_index by lia. by rewrite (Z.mul_comm (Z.of_nat k - 2)).
Qed.

Lemma next_start now k : (2 <= k <= 5)%nat -> now mod 2 ^ low_bits k = 0 ->
  now mod 2 ^ low_bits (S k) = 0 <-> index_of k now = 0.
Proof.
  intros Hk. unfold index_of.
  destruct (level_cases _ Hk) as [-> |[-> |[-> | ->]]];
    [change (low_bits 2) with 8; change (low_bits 3) with 14|change (low_bits 3) with 14; change (low_bits 4) with 20
    |change (low_bits 4) with 20; change (low_bits 5) with 26|change (low_bits 5) with 26; change (low_bits 6) with 32];
    Z.to_euclidean_division_equations; lia.
Qed.

Lemma not_start now k j : (2 <= k <= j)%nat -> now mod 2 ^ low_bits k <> 0 -> now mod 2 ^ low_bits j <> 0.
Proof.
  intros Hk Hne E. apply Hne. replace (low_bits j) with (low_bits k + (low_bits j - low_bits k)) in E by lia.
  rewrite Z.pow_add_r in E by (unfold low_bits; lia).
  apply Z.mod_divide; [apply Z.pow_nonzero; unfold low_bits; lia|].
  apply Z.mod_divide in E; [|apply Z.neq_mul_0; split; apply Z.pow_nonzero; unfold low_bits; lia].
  destruct E as [q ->]. exists (q * 2 ^ (low_bits j - low_bits k)). lia.
Qed.

Lemma chain_when s s1 k (m : M tvec_base unit) :
  same s s1 -> wheel_ok s1 -> all_ahead s1 (S k) -> (2 <= k <= 5)%nat -> timer_jiffies s mod 2 ^ low_bits k = 0 ->
  (timer_jiffies s mod 2 ^ low_bits (S k) = 0 -> wp m (fun _ s' => caught_up s s') s1) ->
  wp (when (index_of k (timer_jiffies s) =? 0) m) (fun _ s' => caught_up s s') s1.
Proof.
  intros S1 W1 A1 Hk H0 Hm. pose proof (next_start (timer_jiffies s) k Hk H0) as Hnext.
  apply wp_when; intros E; [apply Hm; lia|].
  apply (chain_stop s s1 (S k)); [done..|lia|]. intros j Hj. apply (not_start _ (S k)); lia.
Qed.

Lemma cascade_all_ok s :
  wheel_ok s ->
  wp (cascade_all (timer_jiffies s) (timer_jiffies s mod 256)) (fun _ s' => caught_up s s') s.
Proof.
  intros W. set (now := timer_jiffies s). assert (same s s) as S0 by done.
  assert (all_ahead s 2) as A0 by (intros k Hk; lia).
  assert (low_bits 2 = 8) as L2 by done.
  unfold cascade_all. rewrite (INDEX_at now 0 2), (INDEX_at now 1 3), (INDEX_at now 2 4), (INDEX_at now 3 5) by lia.
  apply wp_when; intros E.
  2: { apply (chain_stop s s 2); [done..|lia|]. intros j Hj. apply (not_start _ 2); [lia|]. rewrite L2. lia. }
  assert (timer_jiffies s mod 2 ^ low_bits 2 = 0) as H2 by (rewrite L2; fold now; lia).
  apply wp_bind, (chain_step s s 2); [done..|lia|done|]. intros s2 S2 W2 A2. apply chain_when; [done..|lia|done|]. intros H3.
  apply wp_bind, (chain_step s s2 3); [done..|lia|done|]. intros s3 S3 W3 A3. apply chain_when; [done..|lia|done|]. intros H4.
  apply wp_bind, (chain_step s s3 4); [done..|lia|done|]. intros s4 S4 W4 A4. apply chain_when; [done..|lia|done|]. intros H5.
  apply wp_bind, (chain_step s s4 5); [done..|lia|done|]. intros s5 S5 W5 A5. by apply wp_ret.
Qed.

(** ** Running the timers of a tick *)

(** The lists at the start of the run: the timers of the tick are on the work
    list, and all of them are due. *)
Lemma splice_ok s s1 :
  wheel_ok s -> work_list s = [] -> caught_up s s1 ->
  let now := timer_jiffies s in
  let l := vec s1 (1%nat, now mod 256) in
  let s2 := s1 <| timer_jiffies := u32 (now + 1) |> <| work_list := l |>
               <| tv := <[(1%nat, now mod 256) := []]> (tv s1) |> in
  wheel_ok s2 /\ forall t x, timers s !! t = Some x -> base x = true ->
    (t ∈ l -> due now (expires x)) /\ (expires x = now -> t ∈ l) /\ (2 ^ 31 <= u32 (expires x - now) -> t ∈ l).
Proof.
  intros W0 L0 ((J & T & Wl & J' & F) & W & A). cbv zeta. set (now := timer_jiffies s) in *.
  set (k0 := (1%nat, now mod 256)). set (s2 := s1 <| timer_jiffies := _ |> <| work_list := _ |> <| tv := _ |>).
  assert (forall j, vec s2 j = if decide (j = k0) then [] else vec s1 j) as V by (intros j; apply (vec_insert s1)).
  assert (forall t j, t ∈ vec s2 j <-> t ∈ vec s1 j /\ j <> k0) as Hin.
  { intros t j. rewrite V. case_decide; [|naive_solver]. split; [intros []%elem_of_nil|naive_solver]. }
  pose proof W as [Q1 Q2 Q3 Q4 Q5 Q6 Q7 Q8 Q9 Q10]. rewrite J in *.
  assert (forall k t x, t ∈ vec s1 k -> timers s1 !! t = Some x -> ahead now k (expires x)) as Hah.
  { intros [l i] t x Ht Hx Hl. destruct (Q3 _ t Ht) as (y & Hy & _ & Hp).
    rewrite <- J. apply (A l) with (x := x) (t := t); [|done..]. destruct Hp as [[E _]|[E _]]; simpl in *; [done|lia]. }
  split.
  - split; try done.
    + apply u32_range.
    + intros j t [Ht Hj]%Hin. destruct (Q3 j t Ht) as (x & Hx & Hb & Hp). exists x. split_and!; [done..|].
      apply placed_next; [done|by eapply Q2|done|by eapply Hah|done].
    + intros t Ht. destruct (Q3 _ t Ht) as (x & Hx & Hb & _). eauto.
    + intros t x _ Hx Hb. destruct (Q5 t x) as [[j Hj]|Hw]; [done..| |rewrite Wl, L0 in Hw; by apply elem_of_nil in Hw].
      destruct (decide (j = k0)) as [->|]; [by right|left]. exists j. by apply Hin.
    + intros t j j' [H1 _]%Hin [H2 _]%Hin. eauto.
    + intros j. rewrite V. case_decide; [constructor|done].
    + apply Q7.
    + intros t j Ht [Hj Hne]%Hin. destruct Hne. by apply (Q6 t).
  - intros t x Hx Hb. rewrite <- T in Hx. pose proof (Q2 t x Hx) as He. split.
    + intros Ht. destruct (Q3 _ t Ht) as (y & Hy & _ & Hp). rewrite Hx in Hy. injection Hy as <-. by apply slot_due.
    + destruct (Q5 t x) as [[j Hj]|Hw]; [done..| |rewrite Wl, L0 in Hw; by apply elem_of_nil in Hw].
      destruct (Q3 j t Hj) as (y & Hy & _ & Hp). rewrite Hx in Hy. injection Hy as <-. specialize (Hah j t x Hj Hx).
      split; intros E; by rewrite (due_slot now (expires x) Q1 He j Hp Hah ltac:(auto)) in Hj.
Qed.

Section run.
Context (handler : tptr -> tvec_base -> list timer_op) (F : tptr -> option bool).

(** Which timers there are, and which have a function, never changes. *)
Definition fns s : Prop := forall t, function <$> timers s !! t = F t.

(** Handlers use existing timers that have a function, as do the queued
    timers themselves. *)
Definition handler_ok : Prop :=
  (forall t, F t <> Some false) /\ forall t s, fns s -> Forall (op_ok s) (handler t s).

(** No handler touches the timer. *)
Definition untouched t : Prop := forall t' s, t ∉ (op_timer <$> handler t' s).

Context (Hh : handler_ok).

Lemma fns_keeps P s s' : keeps P s s' -> fns s -> fns s'.
Proof using. intros K H t. rewrite (k_known _ _ _ K). apply H. Qed.

Lemma call_ok s t :
  wheel_ok s -> fns s ->
  wp (call handler t) (fun _ s' => wheel_ok s' /\ keeps (fun u => u ∉ (op_timer <$> handler t s)) s s') s.
Proof using Hh. intros W Hf. apply wp_bind, wp_gets. apply do_ops_ok; [done|]. by apply Hh. Qed.

(** What a run of the work list at [tick] does. *)
Record ran (tick : Z) s s' : Prop := {
  ran_wheel : wheel_ok s';
  ran_work : work_list s' = [];
  ran_fns : fns s';
  ran_now : timer_jiffies s' = timer_jiffies s;
  ran_jiffies : jiffies s' = jiffies s;
  ran_fired : exists fs, fired s' = fired s ++ fs /\
    (forall j t e, (j, t, e) ∈ fs -> j = tick /\ due tick e) /\
    (forall t x, untouched t -> timers s !! t = Some x -> t ∈ work_list s -> (tick, t, expires x) ∈ fs);
  ran_others : forall t, untouched t -> t ∉ work_list s -> timers s' !! t = timers s !! t
}.

Lemma run_work_ok fuel tick s :
  wheel_ok s -> fns s -> (length (work_list s) <= fuel)%nat ->
  (forall t x, t ∈ work_list s -> timers s !! t = Some x -> due tick (expires x)) ->
  wp (run_work handler fuel tick) (fun _ s' => ran tick s s') s.
Proof using Hh.
  revert s. induction fuel as [|fuel IH]; intros s W Hf Hl Hd; cbn [run_work]; apply wp_bind, wp_gets;
    destruct (work_list s) as [|t l] eqn:El; simpl in Hl; try lia.
  1, 2: apply wp_ret; split; try done; exists []; split_and!; [by rewrite app_nil_r|intros ??? []%elem_of_nil|
    intros ?? _ _; rewrite El; intros []%elem_of_nil].
  destruct (w_work _ _ W t) as (x & Hx & Hb); [rewrite El; by left|].
  assert (function x = true) as Hfx.
  { pose proof (Hf t) as E. rewrite Hx in E. simpl in E. destruct (function x); [done|]. symmetry in E. by apply (proj1 Hh) in E. }
  apply wp_bind. eapply wp_timer_get; [done|]. apply wp_bind, wp_BUG_ON; [by rewrite Hfx|].
  apply wp_bind, wp_modify, wp_bind. eapply wp_timer_set; [done|]. apply wp_bind, wp_modify, wp_bind.
  destruct (list_del_ok s t x W Hx) as [W1 _]. pose proof (dequeue_ok _ t x W1 Hx) as W2.
  set (s2 := upd timers _ _) in *.
  assert (keeps (fun u => u <> t) s s2) as K2 by (by apply (keeps_one s s2 t x (x <| base := false |>))).
  set (s3 := upd fired _ s2).
  assert (wheel_ok s3) as W3 by (destruct W2; by split).
  eapply wp_mono; [apply call_ok; [done|]; exact (fns_keeps _ s s2 K2 Hf)|].
  intros _ s4 [W4 K4]. destruct K4 as [N4 J4 F4 Kn4 L4 Wk4 T4 St4]. destruct K2 as [N2 J2 F2 Kn2 L2 Wk2 T2 St2].
  assert (t ∉ work_list s4) as Hout.
  { intros [Ht _]%Wk4. by apply (elem_of_unlink t t (work_list s)) in Ht as []. }
  assert (forall u, untouched u -> u <> t -> timers s4 !! u = timers s !! u) as Same.
  { intros u Hu Hne. rewrite T4 by apply Hu. by apply T2. }
  assert (forall u, u ∈ work_list s4 -> u ∈ work_list s /\ timers s4 !! u = timers s !! u) as Back.
  { intros u [Hu E]%Wk4. destruct (Wk2 u Hu) as [Hu' E']. split; [done|]. by rewrite E. }
  eapply wp_mono; [apply (IH s4 W4)|].
  - intros u. rewrite Kn4. change (timers s3) with (timers s2). rewrite Kn2. apply Hf.
  - assert (length (work_list s2) < length (work_list s))%nat; [|change (work_list s3) with (work_list s2) in L4; rewrite El in *; simpl in *; lia].
    apply (length_filter_lt _ (work_list s) t); [rewrite El; by left|]. by intros [].
  - intros u y Hu Hy. destruct (Back u Hu) as [Hw E]. apply (Hd u y); [by rewrite <- El|by rewrite <- E].
  - intros _ s5 [R1 R2 R3 R4 R5 (fs & R6 & R7 & R8) R9].
    split; [done|done|done|rewrite R4, N4; apply N2|rewrite R5, J4; apply J2| |].
    + exists ((tick, t, expires x) :: fs). rewrite R6, F4. simpl. rewrite <- app_assoc. split_and!; [done| |].
      * intros j u e [[= -> -> ->]|Hin]%elem_of_cons; [|eauto]. split; [done|]. apply (Hd t x); [by left|done].
      * intros u y Hu Hy Hw. destruct (decide (u = t)) as [->|Hne]; [rewrite Hx in Hy; injection Hy as ->; by left|].
        right. apply R8; [done|by rewrite Same|]. apply St4; [apply Hu|]. by apply St2.
    + intros u Hu Hw. assert (u <> t) by (intros ->; apply Hw; rewrite El; by left).
      rewrite R9; [by apply Same|done|]. intros [Hw' _]%Back. done.
Qed.

(** ** Ticks *)

(** What [n] ticks from [now] on do to a timer that no handler touches. *)
Definition served (n now : Z) (fs : list (Z * tptr * Z)) s s' : Prop :=
  forall t x, untouched t -> timers s !! t = Some x -> base x = true ->
    let d := u32 (expires x - now) in
    (d < n -> (expires x, t, expires x) ∈ fs) /\
    (2 ^ 31 <= d -> 0 < n -> (now, t, expires x) ∈ fs) /\
    (n <= d < 2 ^ 31 -> timers s' !! t = Some x).

(** The state between ticks. *)
Record idle s : Prop := { idle_wheel : wheel_ok s; idle_work : work_list s = []; idle_fns : fns s }.

(** [n] ticks from [now], with what they ran. *)
Record ticked (n now : Z) s s' : Prop := {
  tk_idle : idle s';
  tk_now : timer_jiffies s' = u32 (now + n);
  tk_jiffies : jiffies s' = jiffies s;
  tk_fired : exists fs, fired s' = fired s ++ fs /\
    (forall j t e, (j, t, e) ∈ fs -> (exists i, 0 <= i < n /\ j = u32 (now + i)) /\ due j e) /\
    served n now fs s s'
}.

Lemma run_tick_ok s :
  idle s -> wp (run_tick handler) (fun _ s' => ticked 1 (timer_jiffies s) s s') s.
Proof using Hh.
  intros [W L Hf]. pose proof (w_now _ _ W) as Hn. apply wp_bind, wp_gets. cbv zeta. rewrite tvr_index. apply wp_bind.
  eapply wp_mono; [by apply cascade_all_ok|]. intros [] s1 C. pose proof C as ((J1 & T1 & L1 & J1' & F1) & W1 & _).
  destruct (splice_ok s s1 W L C) as [W2 Hdue]. cbv zeta in *.
  apply wp_bind, wp_modify, wp_bind, wp_gets, wp_bind, wp_modify.
  eapply wp_mono; [apply run_work_ok|].
  - exact W2.
  - intros t. simpl. rewrite T1. apply Hf.
  - simpl. done.
  - simpl. intros t x Ht Hx. destruct (w_on _ _ W1 _ t Ht) as (y & Hy & Hb & _). rewrite Hx in Hy. injection Hy as <-.
    rewrite T1 in Hx. by apply (Hdue t x).
  - intros _ s3 [R1 R2 R3 R4 R5 (fs & R6 & R7 & R8) R9]. simpl in *. split.
    + by split.
    + done.
    + by rewrite R5.
    + exists fs. rewrite R6, F1. split_and!; [done| |].
      * intros j t e Hin. destruct (R7 j t e Hin) as [-> Hd]. split; [|done]. exists 0. split; [lia|].
        by rewrite Z.add_0_r, u32_small.
      * intros t x Hu Hx Hb. cbv zeta. destruct (Hdue t x Hx Hb) as (D1 & D2 & D3).
        pose proof (w_expires _ _ W t x Hx) as He.
        assert (u32 (expires x - timer_jiffies s) = 0 -> expires x = timer_jiffies s) as D0.
        { unfold u32. intros E. Z.to_euclidean_division_equations. lia. }
        rewrite <- T1 in Hx. split_and!.
        -- intros Hlt. pose proof (u32_range (expires x - timer_jiffies s)).
           specialize (D0 ltac:(lia)). specialize (R8 t x Hu Hx (D2 D0)). by rewrite <- D0 in R8 at 1.
        -- intros Hge _. apply R8; [done..|]. by apply D3.
        -- intros Hd. rewrite R9; [done..|]. intros Hin%D1. revert Hin Hd. unfold due.
           rewrite <- s32_u32. intros Hin Hd. rewrite s32_small in Hin by lia. lia.
Qed.

Lemma tick_distance now e :
  0 <= now < 2 ^ 32 -> 1 <= u32 (e - now) -> u32 (e - u32 (now + 1)) = u32 (e - now) - 1.
Proof using. intros Hn. unfold u32. Z.to_euclidean_division_equations. lia. Qed.

Lemma u32_add_l a b : u32 (u32 a + b) = u32 (a + b).
Proof using. unfold u32. by rewrite Z.add_mod_idemp_l. Qed.

Lemma served_step n now fs1 fs2 s s1 s2 :
  0 <= now < 2 ^ 32 -> 0 <= n < 2 ^ 31 ->
  served 1 now fs1 s s1 -> served n (u32 (now + 1)) fs2 s1 s2 -> served (n + 1) now (fs1 ++ fs2) s s2.
Proof using.
  intros Hn Hr H1 H2 t x Hu Hx Hb. cbv zeta. destruct (H1 t x Hu Hx Hb) as (P1 & P2 & P3).
  pose proof (u32_range (expires x - now)) as Hd. pose proof (tick_distance now (expires x) Hn) as Ht.
  set (d := u32 (expires x - now)) in *.
  assert (1 <= d < 2 ^ 31 -> (d - 1 < n -> (expires x, t, expires x) ∈ fs2) /\ (n <= d - 1 -> timers s2 !! t = Some x)) as Later.
  { intros Hd1. destruct (H2 t x Hu (P3 Hd1) Hb) as (Q1 & _ & Q3). rewrite Ht in Q1, Q3 by lia.
    split; [done|]. intros. apply Q3. lia. }
  rewrite !elem_of_app. split_and!.
  - intros Hlt. destruct (Z.eq_dec d 0); [left; apply P1; lia|]. right. apply Later; lia.
  - intros Hge _. left. apply P2; lia.
  - intros Hge. apply Later; lia.
Qed.

Lemma ticked_step n s s1 s2 :
  0 <= timer_jiffies s < 2 ^ 32 -> 0 <= n < 2 ^ 31 ->
  ticked 1 (timer_jiffies s) s s1 -> ticked n (timer_jiffies s1) s1 s2 -> ticked (n + 1) (timer_jiffies s) s s2.
Proof using.
  intros Hn Hr [I1 N1 J1 (fs1 & F1 & D1 & S1)] [I2 N2 J2 (fs2 & F2 & D2 & S2)]. rewrite N1 in *. split; [done| | |].
  - rewrite N2, u32_add_l. f_equal. lia.
  - congruence.
  - exists (fs1 ++ fs2). rewrite F2, F1, app_assoc. split_and!; [done| |by eapply served_step].
    intros j t e [Hin|Hin]%elem_of_app.
    + destruct (D1 j t e Hin) as [(i & Hi & ->) Hd]. split; [|done]. exists i. split; [lia|done].
    + destruct (D2 j t e Hin) as [(i & Hi & ->) Hd]. split; [|done]. exists (i + 1). split; [lia|].
      rewrite u32_add_l. f_equal. lia.
Qed.

Lemma ticked_none s : idle s -> ticked 0 (timer_jiffies s) s s.
Proof using.
  intros I. pose proof (w_now _ _ (idle_wheel _ I)). split; [done|by rewrite Z.add_0_r, u32_small|done|].
  exists []. split_and!; [by rewrite app_nil_r|intros ??? []%elem_of_nil|].
  intros t x Hu Hx Hb. cbv zeta. pose proof (u32_range (expires x - timer_jiffies s)). split_and!; [lia|lia|done].
Qed.

(** The ticks up to [jiffies]. *)
Definition late s : Z := s32 (jiffies s - timer_jiffies s) + 1.

Lemma late_step j now : 0 <= s32 (j - now) -> s32 (j - u32 (now + 1)) = s32 (j - now) - 1.
Proof using.
  unfold s32, u32. destruct (Z.ltb_spec ((j - now) mod 2 ^ 32) (2 ^ 31)), (Z.ltb_spec ((j - (now + 1) mod 2 ^ 32) mod 2 ^ 32) (2 ^ 31));
    Z.to_euclidean_division_equations; lia.
Qed.

Lemma run_timers_loop_ok fuel s :
  idle s -> Z.of_nat fuel = Z.max 0 (late s) ->
  wp (run_timers_loop handler fuel) (fun _ s' => ticked (Z.max 0 (late s)) (timer_jiffies s) s s') s.
Proof using Hh.
  revert s. induction fuel as [|fuel IH]; intros s I Hfuel; cbn [run_timers_loop];
    apply wp_bind, wp_gets, wp_bind, wp_gets; unfold time_after_eq, late in *;
    pose proof (s32_range (jiffies s - timer_jiffies s)) as Hr;
    destruct (Z.leb_spec 0 (s32 (jiffies s - timer_jiffies s))) as [Hle|Hlt]; try lia.
  { apply wp_ret. rewrite Z.max_l by lia. by apply ticked_none. }
  apply wp_bind. eapply wp_mono; [by apply run_tick_ok|]. intros [] s1 K1. pose proof K1 as [I1 N1 J1 _].
  assert (s32 (jiffies s1 - timer_jiffies s1) = s32 (jiffies s - timer_jiffies s) - 1) as E
    by (rewrite J1, N1; by apply late_step).
  eapply wp_mono; [apply (IH s1 I1); rewrite E; lia|]. intros [] s2. rewrite E. intros K2.
  replace (Z.max 0 (s32 (jiffies s - timer_jiffies s) + 1)) with (Z.max 0 (s32 (jiffies s - timer_jiffies s) - 1 + 1) + 1) by lia.
  eapply ticked_step; [apply (w_now _ _ (idle_wheel _ I))|lia|exact K1|exact K2].
Qed.

Lemma __run_timers_ok s :
  idle s -> wp (__run_timers handler) (fun _ s' => ticked (Z.max 0 (late s)) (timer_jiffies s) s s') s.
Proof using Hh.
  intros I. apply wp_bind, wp_gets, wp_bind, wp_gets. apply run_timers_loop_ok; [done|]. unfold late. lia.
Qed.

Lemma run_timer_softirq_ok s :
  idle s -> wp (run_timer_softirq handler) (fun _ s' => ticked (Z.max 0 (late s)) (timer_jiffies s) s s') s.
Proof using Hh.
  intros I. apply wp_bind, wp_gets, wp_bind, wp_gets. apply wp_when; [intros _; by apply __run_timers_ok|].
  unfold time_after_eq, late. intros E%Z.leb_gt. rewrite Z.max_l by lia. by apply ticked_none.
Qed.
End run.
