(* ===== verification/TimerTheorems.v ===== *)
(** * The timer wheel: theorems

    The wheel runs every timer at its tick, and its calls implement the
    timers the bridge is modelled with. *)
From S2P Require Import Prelude.
From S2P Require Import BridgeData.
From S2P Require Import Timer.
From S2P Require Import TimerWheel.
From S2P Require Import TimerRun.

Implicit Types (s : tvec_base) (t : tptr).

(** ** The interrupt *)

(** Handlers only use timers that exist and have a function, with expiries of
    32 bits. *)
Definition well_behaved (handler : tptr -> tvec_base -> list timer_op) s : Prop :=
  forall t s', (forall u, function <$> timers s' !! u = function <$> timers s !! u) ->
    Forall (op_ok s') (handler t s').

(** C34 (liveness): the timer softirq returns, whatever the handlers queue or
    delete; it leaves the wheel in order and caught up with [jiffies]; each
    timer it runs is due; and of the timers no handler touches, one that
    expires at a tick up to [jiffies] runs, at exactly that tick, one whose
    expiry had passed before runs at the first tick, and one that expires
    later is still pending. *)
Theorem run_timer_softirq_serves handler s :
  wheel_ok s -> work_list s = [] -> (forall t x, timers s !! t = Some x -> function x = true) ->
  well_behaved handler s -> 0 <= s32 (jiffies s - timer_jiffies s) ->
  exists s' fs, run_timer_softirq handler s = Some (tt, s') /\
    wheel_ok s' /\ work_list s' = [] /\ timer_jiffies s' = u32 (jiffies s + 1) /\
    fired s' = fired s ++ fs /\
    (forall tick t e, (tick, t, e) ∈ fs -> due tick e /\ s32 (jiffies s - tick) >= 0) /\
    (forall t x, untouched handler t -> timers s !! t = Some x -> base x = true ->
      let left := s32 (expires x - timer_jiffies s) in
      (0 <= left <= s32 (jiffies s - timer_jiffies s) -> (expires x, t, expires x) ∈ fs) /\
      (left < 0 -> (timer_jiffies s, t, expires x) ∈ fs) /\
      (s32 (jiffies s - timer_jiffies s) < left -> timers s' !! t = Some x)).
Proof.
  intros W L Hf Hh Hlate. set (F t := function <$> timers s !! t).
  assert (handler_ok handler F) as Hok.
  { split; [|exact Hh]. unfold F. intros t. destruct (timers s !! t) as [x|] eqn:Hx; [|done].
    simpl. by rewrite (Hf t x Hx). }
  destruct (wp_run _ _ _ (run_timer_softirq_ok handler F Hok s ltac:(by split))) as ([] & s' & Es & [[W' L' _] N J (fs & Fs & D & S)]).
  unfold late in *. rewrite Z.max_r in * by lia. set (n := s32 (jiffies s - timer_jiffies s)) in *.
  pose proof (s32_range (jiffies s - timer_jiffies s)) as Hn. fold n in Hn.
  assert (forall i, u32 (timer_jiffies s + (n + i)) = u32 (jiffies s + i)) as Ej.
  { intros i. unfold n, s32, u32. destruct (Z.ltb_spec ((jiffies s - timer_jiffies s) mod 2 ^ 32) (2 ^ 31));
      Z.to_euclidean_division_equations; lia. }
  exists s', fs. split_and!; [done..|rewrite N; apply Ej|done| |].
  - intros tick t e Hin. destruct (D tick t e Hin) as [(i & Hi & ->) Hd]. split; [done|].
    clear -Hi Hn. revert Hi Hn. unfold n, s32, u32.
    destruct (Z.ltb_spec ((jiffies s - timer_jiffies s) mod 2 ^ 32) (2 ^ 31)),
      (Z.ltb_spec ((jiffies s - (timer_jiffies s + i) mod 2 ^ 32) mod 2 ^ 32) (2 ^ 31));
      Z.to_euclidean_division_equations; lia.
  - intros t x Hu Hx Hb. cbv zeta. set (left := s32 (expires x - timer_jiffies s)). destruct (S t x Hu Hx Hb) as (S1 & S2 & S3).
    assert (u32 (expires x - timer_jiffies s) = if left <? 0 then left + 2 ^ 32 else left) as E.
    { unfold left, s32, u32. destruct (Z.ltb_spec ((expires x - timer_jiffies s) mod 2 ^ 32) (2 ^ 31));
        case Z.ltb_spec; Z.to_euclidean_division_equations; lia. }
    rewrite E in S1, S2, S3. pose proof (s32_range (expires x - timer_jiffies s)) as Hl. fold left in Hl.
    destruct (Z.ltb_spec left 0).
    + split_and!; [lia|intros _; apply S2; lia|lia].
    + split_and!; intros; [apply S1; lia|lia|apply S3; lia].
Qed.

(** ** The calls *)

(** A timer as the bridge sees it: pending or not, and its expiry. *)
Definition abs s : gmap tptr BridgeData.timer_list :=
  (fun x => {| BridgeData.t_pending := base x; BridgeData.t_expires := expires x |}) <$> timers s.

Definition abs_op (o : timer_op) (m : gmap tptr BridgeData.timer_list) : gmap tptr BridgeData.timer_list :=
  match o with
  | op_add t => alter (fun x => BridgeData.mod_timer (BridgeData.t_expires x) x) t m
  | op_mod t e => alter (BridgeData.mod_timer e) t m
  | op_del t => alter BridgeData.del_timer t m
  end.

Lemma abs_one s s' t x y f :
  keeps (fun u => u <> t) s s' -> timers s !! t = Some x -> timers s' !! t = Some y ->
  {| BridgeData.t_pending := base y; BridgeData.t_expires := expires y |} =
    f {| BridgeData.t_pending := base x; BridgeData.t_expires := expires x |} ->
  abs s' = alter f t (abs s).
Proof.
  intros K Hx Hy E. apply map_eq. intros u. unfold abs. rewrite lookup_fmap.
  destruct (decide (u = t)) as [->|Hu].
  - rewrite lookup_alter_eq, lookup_fmap, Hx, Hy. simpl. by rewrite E.
  - rewrite lookup_alter_ne, lookup_fmap by congruence. by rewrite (k_timer _ _ _ K).
Qed.

Lemma do_op_abs s o :
  wheel_ok s -> op_ok s o ->
  wp (do_op o) (fun _ s' => wheel_ok s' /\ keeps (fun u => u <> op_timer o) s s' /\ abs s' = abs_op o (abs s)) s.
Proof.
  intros W [(x & Hx & Hf)%known_timer Ho]. destruct o as [t|t e|t]; simpl in *; [|apply wp_bind..].
  - eapply wp_mono; [by apply (add_timer_ok s t x)|]. intros _ s' (W' & K & E). split_and!; [done..|]. by eapply abs_one.
  - eapply wp_mono; [by apply (mod_timer_ok s t x e)|]. intros r s' (_ & W' & K & E). apply wp_ret.
    split_and!; [done..|]. by eapply abs_one.
  - eapply wp_mono; [by apply (del_timer_ok s t x)|]. intros r s' (_ & W' & K & E). apply wp_ret.
    split_and!; [done..|]. by eapply abs_one.
Qed.

(** An idle wheel. *)
Lemma init_timers_cpu_ok j ts :
  0 <= j < 2 ^ 32 -> (forall t x, ts !! t = Some x -> 0 <= expires x < 2 ^ 32 /\ base x = false) ->
  wheel_ok (init_timers_cpu j ts).
Proof.
  intros Hj Hts. assert (forall k, vec (init_timers_cpu j ts) k = []) as V.
  { intros k. unfold vec. simpl. by rewrite lookup_total_empty. }
  split; try done.
  - intros t x Hx. by apply (Hts t).
  - intros k t. rewrite V. intros []%elem_of_nil.
  - intros t []%elem_of_nil.
  - intros t x _ Hx Hb. apply Hts in Hx as [_ Hx]. congruence.
  - intros t k k'. rewrite V. intros []%elem_of_nil.
  - intros k. rewrite V. constructor.
  - constructor.
  - intros t k []%elem_of_nil.
Qed.

Lemma do_ops_refine s ops :
  wheel_ok s -> Forall (op_ok s) ops ->
  wp (for_each ops do_op) (fun _ s' => wheel_ok s' /\ abs s' = foldl (fun m o => abs_op o m) (abs s) ops) s.
Proof.
  revert s. induction ops as [|o ops IH]; intros s W Ho; simpl; [by apply wp_ret|].
  apply Forall_cons in Ho as [Ho Hops]. apply wp_bind. eapply wp_mono; [by apply do_op_abs|].
  intros [] s1 (W1 & K1 & <-). apply IH; [done|].
  eapply Forall_impl; [done|]. intros o'. by eapply op_ok_keeps.
Qed.

(** C35 (refinement): from the wheel [init_timers_cpu] sets up, every sequence
    of timer calls on timers that have a function succeeds, keeps every queued
    timer on exactly the list from which it will be taken in time, and has on
    the timers the effect of the calls the bridge is modelled with. *)
Theorem timer_calls_refine j ts ops :
  0 <= j < 2 ^ 32 ->
  (forall t x, ts !! t = Some x -> 0 <= expires x < 2 ^ 32 /\ base x = false) ->
  Forall (op_ok (init_timers_cpu j ts)) ops ->
  exists s', for_each ops do_op (init_timers_cpu j ts) = Some (tt, s') /\ wheel_ok s' /\
    abs s' = foldl (fun m o => abs_op o m) (abs (init_timers_cpu j ts)) ops.
Proof.
  intros Hj Hts Ho. pose proof (init_timers_cpu_ok j ts Hj Hts) as W.
  destruct (wp_run _ _ _ (do_ops_refine _ ops W Ho)) as ([] & s' & E & W' & A). by exists s'.
Qed.

(** ** Witnesses *)

(** Three timers: the first rearms itself far ahead, the third is far ahead
    on the wheel; time passes the wrap-around. *)
Definition demo_timers : gmap tptr timer_list :=
  <[1%nat := {| expires := 0; function := true; base := false |}]>
  (<[2%nat := {| expires := 4294967293; function := true; base := false |}]>
  (<[3%nat := {| expires := 70000; function := true; base := false |}]> ∅)).
Definition demo_ops : list timer_op :=
  [op_add 3%nat; op_mod 1%nat 5; op_add 2%nat; op_del 3%nat; op_mod 1%nat 1; op_mod 3%nat 300].
Definition demo_handler t s : list timer_op :=
  if decide (t = 1%nat) then [op_mod 1%nat 1000] else [].

Lemma demo_range t x : demo_timers !! t = Some x -> (0 <= expires x < 2 ^ 32 /\ base x = false) /\ function x = true.
Proof.
  unfold demo_timers. rewrite !lookup_insert_Some, lookup_empty. intros [[_ <-]|[_ [[_ <-]|[_ [[_ <-]|[_ [=]]]]]]]; simpl; lia.
Qed.

Lemma timer_calls_refine_witness :
  exists s', for_each demo_ops do_op (init_timers_cpu 4294967290 demo_timers) = Some (tt, s') /\ wheel_ok s' /\
    abs s' = foldl (fun m o => abs_op o m) (abs (init_timers_cpu 4294967290 demo_timers)) demo_ops.
Proof.
  apply (timer_calls_refine 4294967290 demo_timers demo_ops).
  - lia.
  - intros t x Hx. by apply (demo_range t x).
  - repeat constructor; (discriminate || reflexivity).
Defined.

Definition demo_state : tvec_base :=
  {| timer_jiffies := 4294967290;
     tv := <[(3%nat, 4) := []]> (<[(1%nat, 5) := []]> {[ (1%nat, 1) := [1%nat]; (1%nat, 253) := [2%nat]; (2%nat, 1) := [3%nat] ]});
     timers := {[ 1%nat := {| expires := 1; function := true; base := true |};
                  2%nat := {| expires := 4294967293; function := true; base := true |};
                  3%nat := {| expires := 300; function := true; base := true |} ]};
     work_list := []; jiffies := 2; fired := [] |}.

Lemma demo_reached :
  (fun r => r.2 <| jiffies := 2 |>) <$> for_each demo_ops do_op (init_timers_cpu 4294967290 demo_timers) = Some demo_state.
Proof. vm_compute. reflexivity. Qed.

Lemma demo_state_wheel : wheel_ok demo_state.
Proof.
  assert (Forall (op_ok (init_timers_cpu 4294967290 demo_timers)) demo_ops) as Ho
    by (repeat constructor; (discriminate || reflexivity)).
  pose proof (init_timers_cpu_ok 4294967290 demo_timers ltac:(lia) (fun t x Hx => proj1 (demo_range t x Hx))) as W.
  destruct (wp_run _ _ _ (do_ops_refine _ demo_ops W Ho)) as (u & s' & E & W' & _).
  pose proof demo_reached as D. rewrite E in D. apply (inj Some) in D. rewrite <- D. destruct W'. by split.
Qed.

Lemma run_timer_softirq_serves_witness :
  exists s' fs, run_timer_softirq demo_handler demo_state = Some (tt, s') /\ timer_jiffies s' = 3 /\ fired s' = fs /\
    (4294967293, 2%nat, 4294967293) ∈ fs /\ timers s' !! 3%nat = timers demo_state !! 3%nat.
Proof.
  destruct (run_timer_softirq_serves demo_handler demo_state) as (s' & fs & E & _ & _ & N & Fs & _ & S).
  - exact demo_state_wheel.
  - reflexivity.
  - intros t x. unfold demo_state. simpl. rewrite !lookup_insert_Some, lookup_singleton_Some. naive_solver.
  - intros t s' K. unfold demo_handler. case_decide; [|constructor]. apply Forall_singleton. split; [|lia].
    unfold known. cbn [op_timer]. rewrite K. reflexivity.
  - vm_compute. discriminate.
  - assert (forall t, t <> 1%nat -> untouched demo_handler t) as U.
    { intros t Ht t' s0. unfold demo_handler. case_decide; simpl; [|apply not_elem_of_nil].
      intros Hin%list_elem_of_singleton. exact (Ht Hin). }
    exists s', fs. split; [exact E|]. split; [exact N|]. split; [exact Fs|]. split.
    + apply (S 2%nat {| expires := 4294967293; function := true; base := true |});
        [by apply U|reflexivity|reflexivity|vm_compute; split; discriminate].
    + apply (S 3%nat {| expires := 300; function := true; base := true |});
        [by apply U|reflexivity|reflexivity|vm_compute; reflexivity].
Defined.
