(* ===== verification/LibSort.v ===== *)
(** * lib/sort.c: heapsort

    The memory is the array being sorted, a list of bytes; an address is an
    offset from [base], and an access outside the array is an oops.  The
    counters [i], [n], [c] and [r] are the code's [int] byte offsets, scaled by
    the element size, with their wrap-around.  Children of the node at [r] are
    at [2 r] and [2 r + size], so that node 0 is its own left child.

    The proof has a heapsort on lists of elements in the middle: it sorts, and
    the code refines it on arrays of at most 2^30 bytes. *)
From S2P Require Import Prelude.
From Stdlib Require Import ZifyNat.

(** ** Access to the array *)
Definition load (a : Z) : M (list Z) Z :=
  if 0 <=? a then v ← gets (lookup (Z.to_nat a)); deref v else oops.

Definition store (a v : Z) : M (list Z) unit :=
  _ ← load a; modify (insert (Z.to_nat a) v).

(** The [len] bytes from an address on. *)
Fixpoint load_bytes (len : nat) (a : Z) : M (list Z) (list Z) :=
  match len with
  | O => ret []
  | S len => b ← load a; bs ← load_bytes len (a + 1); ret (b :: bs)
  end.

Fixpoint store_bytes (a : Z) (bs : list Z) : M (list Z) unit :=
  match bs with
  | [] => ret tt
  | b :: bs => _ ← store a b; store_bytes (a + 1) bs
  end.

(** ** The exchange functions *)

(** A word in a register is the four bytes it has in memory. *)
Definition u32_swap (a b size : Z) : M (list Z) unit :=
  t ← load_bytes 4 a;
  v ← load_bytes 4 b;
  _ ← store_bytes a v;
  store_bytes b t.

(** [do ... while (--size > 0)]; [fuel] is a bound on the rounds. *)
Fixpoint swap_bytes (fuel : nat) (a b size : Z) : M (list Z) unit :=
  match fuel with
  | O => oops
  | S fuel =>
      t ← load a;
      v ← load b;
      _ ← store a v;
      _ ← store b t;
      let size := s32 (size - 1) in
      if 0 <? size then swap_bytes fuel (a + 1) (b + 1) size else ret tt
  end.
Definition generic_swap (a b size : Z) : M (list Z) unit :=
  swap_bytes (Nat.max 1 (Z.to_nat size)) a b size.

(** ** The routine

    [cmp] reads the bytes of two elements; [swap] is called with two addresses
    and the size.  [rounds] bounds the rounds of each loop, and a loop that
    needs more is an oops. *)
Section sort.
Context (cmp : list Z -> list Z -> Z) (swap : Z -> Z -> Z -> M (list Z) unit) (size : Z).

Definition cmp_at (a b : Z) : M (list Z) Z :=
  x ← load_bytes (Z.to_nat size) a;
  y ← load_bytes (Z.to_nat size) b;
  ret (cmp x y).

(** The inner loop; [c < n - size] compares as [size_t]. *)
Fixpoint sift (rounds : nat) (r n : Z) : M (list Z) unit :=
  if s32 (r * 2) <? n then
    match rounds with
    | O => oops
    | S rounds =>
        let c := s32 (r * 2) in
        c ← (if u32 c <? u32 (n - size) then
               d ← cmp_at c (c + size);
               ret (if d <? 0 then s32 (c + size) else c)
             else ret c);
        d ← cmp_at r c;
        if 0 <=? d then ret tt
        else _ ← swap r c (s32 size); sift rounds c n
    end
  else ret tt.

Fixpoint heapify (rounds : nat) (fuel : nat) (i n : Z) : M (list Z) unit :=
  if 0 <=? i then
    match fuel with
    | O => oops
    | S fuel => _ ← sift rounds i n; heapify rounds fuel (s32 (i - size)) n
    end
  else ret tt.

Fixpoint sort_down (rounds : nat) (fuel : nat) (i : Z) : M (list Z) unit :=
  if 0 <=? i then
    match fuel with
    | O => oops
    | S fuel =>
        _ ← swap 0 i (s32 size);
        _ ← sift rounds 0 i;
        sort_down rounds fuel (s32 (i - size))
    end
  else ret tt.
End sort.

Definition sort (rounds : nat) (num size : Z) (cmp : list Z -> list Z -> Z)
    (swap : option (Z -> Z -> Z -> M (list Z) unit)) : M (list Z) unit :=
  let i := s32 (num / 2 * size) in
  let n := s32 (num * size) in
  let swap := match swap with
              | Some swap => swap
              | None => if size =? 4 then u32_swap else generic_swap
              end in
  _ ← heapify cmp swap size rounds rounds i n;
  sort_down cmp swap size rounds rounds (s32 (n - size)).

(** ** Heapsort on a list of elements, the reference *)
Section elements.
Context {A : Type} `{!Inhabited A} (cmp : A -> A -> Z).

(** The exchange of two elements. *)
Definition eswap (l : list A) (i j : nat) : list A := <[i := l !!! j]> (<[j := l !!! i]> l).

(** The inner loop: sift the element at [r] down in a heap of [n] elements.
    [None]: the fuel is used up before the loop ends. *)
Fixpoint esift (fuel : nat) (l : list A) (r n : nat) : option (list A) :=
  if Nat.ltb (r * 2) n then
    match fuel with
    | O => None
    | S fuel =>
        let c := (r * 2)%nat in
        let c := if Nat.ltb c (n - 1) && (cmp (l !!! c) (l !!! S c) <? 0) then S c else c in
        if 0 <=? cmp (l !!! r) (l !!! c) then Some l
        else esift fuel (eswap l r c) c n
    end
  else Some l.

(** [for (i = ...; i >= 0; i--)] over the first phase: [i] counts down from
    [k - 1] to 0. *)
Fixpoint eheapify (l : list A) (k n : nat) : option (list A) :=
  match k with
  | O => Some l
  | S i => match esift n l i n with Some l => eheapify l i n | None => None end
  end.

Fixpoint esort_down (l : list A) (k : nat) : option (list A) :=
  match k with
  | O => Some l
  | S i =>
      match esift i (eswap l 0 i) 0 i with Some l => esort_down l i | None => None end
  end.

Definition esort (l : list A) : option (list A) :=
  let num := length l in
  match eheapify l (S (num / 2)) num with Some l => esort_down l num | None => None end.
End elements.

(** ** Heapsort sorts *)
Ltac Zify.zify_post_hook ::= Z.div_mod_to_equations.

(** A comparison function as the callers of [sort] supply. *)
Class TotalCmp {A : Type} (cmp : A -> A -> Z) : Prop := {
  cmp_refl a : cmp a a = 0;
  cmp_sym a b : 0 <= cmp a b <-> cmp b a <= 0;
  cmp_trans a b c : cmp a b <= 0 -> cmp b c <= 0 -> cmp a c <= 0 }.

Section spec.
Context {A : Type} `{!Inhabited A} (cmp : A -> A -> Z) `{!TotalCmp cmp}.

Abbreviation le a b := (cmp a b <= 0).

Lemma ge_le a b : 0 <= cmp a b <-> le b a.
Proof. apply cmp_sym. Qed.

Lemma lt_le a b : cmp a b < 0 -> le a b.
Proof. lia. Qed.

(** ** Exchanges *)
Lemma length_swap (l : list A) i j : length (eswap l i j) = length l.
Proof. unfold eswap. by rewrite !length_insert. Qed.

Lemma swap_at (l : list A) i j k :
  (i < length l)%nat -> (j < length l)%nat ->
  eswap l i j !!! k = if decide (k = i) then l !!! j else if decide (k = j) then l !!! i else l !!! k.
Proof.
  intros Hi Hj. unfold eswap. destruct (decide (k = i)) as [->|Ni].
  - by rewrite list_lookup_total_insert_eq by (rewrite length_insert; done).
  - rewrite list_lookup_total_insert_ne by done. destruct (decide (k = j)) as [->|Nj].
    + by rewrite list_lookup_total_insert_eq.
    + by rewrite list_lookup_total_insert_ne.
Qed.

Lemma swap_perm (l : list A) i j : (i < length l)%nat -> (j < length l)%nat -> eswap l i j ≡ₚ l.
Proof.
  intros Hi Hj. unfold eswap. destruct (decide (i = j)) as [->|N].
  { rewrite list_insert_insert_eq, list_insert_id; [done|]. by apply list_lookup_lookup_total_lt. }
  assert (l !! i = Some (l !!! i)) as Ei by (by apply list_lookup_lookup_total_lt).
  assert (l !! j = Some (l !!! j)) as Ej by (by apply list_lookup_lookup_total_lt).
  by apply Permutation_insert_swap.
Qed.

(** ** Heaps

    [heap l lo n]: every node below [n] whose parent is at least [lo] is
    dominated by it.  [hole l lo n r]: so is every node but the children of
    [r], which are dominated by the parent of [r]. *)
Definition heap (l : list A) (lo n : nat) : Prop :=
  forall c, (0 < c < n)%nat -> (lo <= c / 2)%nat -> le (l !!! c) (l !!! (c / 2)%nat).

Definition hole (l : list A) (lo n r : nat) : Prop :=
  forall c, (0 < c < n)%nat -> (lo <= c / 2)%nat ->
    ((c / 2)%nat <> r -> le (l !!! c) (l !!! (c / 2)%nat)) /\
    ((c / 2)%nat = r -> (0 < r)%nat -> (lo <= r / 2)%nat -> le (l !!! c) (l !!! (r / 2)%nat)).

(** What sifting preserves. *)
Record sifted (l l' : list A) (n : nat) : Prop := {
  si_perm : l' ≡ₚ l;
  si_above : forall k, (n <= k)%nat -> l' !!! k = l !!! k }.

Lemma sifted_trans l1 l2 l3 n : sifted l1 l2 n -> sifted l2 l3 n -> sifted l1 l3 n.
Proof.
  intros [P1 A1] [P2 A2]. split; [by etrans|]. intros k Hk. by rewrite A2, A1.
Qed.

Lemma sifted_swap l i j n :
  (i < n)%nat -> (j < n)%nat -> (n <= length l)%nat -> sifted l (eswap l i j) n.
Proof.
  intros Hi Hj Hn. split; [apply swap_perm; lia|]. intros k Hk.
  rewrite swap_at by lia. destruct (decide (k = i)), (decide (k = j)); (lia || done).
Qed.

(** The child the loop descends to: the larger one. *)
Definition child (l : list A) (r n : nat) : nat :=
  let c := (r * 2)%nat in
  if Nat.ltb c (n - 1) && (cmp (l !!! c) (l !!! S c) <? 0) then S c else c.

Lemma child_spec l r n :
  (r * 2 < n)%nat ->
  let c := child l r n in
  (c < n)%nat /\ (c / 2 = r)%nat /\
  forall d, (0 < d < n)%nat -> (d / 2 = r)%nat -> le (l !!! d) (l !!! c).
Proof.
  intros Hr. unfold child. cbv zeta.
  destruct (Nat.ltb_spec (r * 2) (n - 1)) as [H1|H1]; cbn [andb].
  - destruct (Z.ltb_spec (cmp (l !!! (r * 2)%nat) (l !!! S (r * 2))) 0) as [H2|H2].
    + split_and!; [lia..|]. intros d Hd E.
      assert (d = r * 2 \/ d = S (r * 2))%nat as [-> | ->] by lia; [lia|]. rewrite cmp_refl. lia.
    + split_and!; [lia..|]. intros d Hd E.
      assert (d = r * 2 \/ d = S (r * 2))%nat as [-> | ->] by lia; [rewrite cmp_refl; lia|].
      by apply ge_le.
  - split_and!; [lia..|]. intros d Hd E. assert (d = r * 2)%nat as -> by lia. rewrite cmp_refl. lia.
Qed.

(** One exchange moves the hole to the child. *)
Lemma hole_step l lo n r :
  (n <= length l)%nat -> (lo <= r)%nat -> (r * 2 < n)%nat -> hole l lo n r ->
  cmp (l !!! r) (l !!! child l r n) < 0 ->
  hole (eswap l r (child l r n)) lo n (child l r n) /\ (r < child l r n)%nat.
Proof.
  intros Hl Hlo Hr H Lt. destruct (child_spec l r n Hr) as (Cn & Cr & Cm). set (c := child l r n) in *.
  assert (r < c)%nat as Rc.
  { assert (r <> c) by (intros E; rewrite <- E, cmp_refl in Lt; lia). lia. }
  split; [|done]. intros d Hd Hlod.
  assert (forall k, eswap l r c !!! k =
    if decide (k = r) then l !!! c else if decide (k = c) then l !!! r else l !!! k) as Sw.
  { intros k. apply swap_at; lia. }
  rewrite !Sw. split.
  - intros N. destruct (decide (d = r)) as [->|Ndr].
    + (* the child moved up is below the parent of [r] *)
      destruct (decide ((r / 2)%nat = r)); [lia|]. destruct (decide ((r / 2)%nat = c)); [lia|].
      apply (H c); [lia..|done].
    + destruct (decide (d = c)) as [->|Ndc].
      * rewrite Cr. rewrite decide_True by done. lia.
      * destruct (decide ((d / 2)%nat = r)) as [E|Ndr2]; [by apply Cm|].
        rewrite decide_False by done. by apply (H d).
  - intros E Hc Hlo2. rewrite Cr. rewrite decide_False by lia. rewrite decide_False by lia.
    rewrite decide_True by done. rewrite <- E. apply (H d); [lia..|]. lia.
Qed.

Lemma hole_heap l lo n r :
  (lo <= r)%nat -> hole l lo n r ->
  (forall d, (0 < d < n)%nat -> (d / 2 = r)%nat -> le (l !!! d) (l !!! r)) -> heap l lo n.
Proof.
  intros Hlo H C d Hd Hl. destruct (decide ((d / 2)%nat = r)) as [E|N]; [rewrite E; by apply C|by apply H].
Qed.

(** Sifting fills the hole; [n] iterations suffice. *)
Lemma esift_spec fuel l lo n r :
  (n <= fuel + r)%nat -> (n <= length l)%nat -> (lo <= r)%nat -> hole l lo n r ->
  exists l', esift cmp fuel l r n = Some l' /\ heap l' lo n /\ sifted l l' n.
Proof.
  revert l r. induction fuel as [|fuel IH]; intros l r Hf Hl Hlo H; simpl.
  - rewrite (proj2 (Nat.ltb_ge (r * 2) n)) by lia. exists l. split_and!; [done| |by split].
    apply (hole_heap l lo n r); [done..|]. lia.
  - destruct (Nat.ltb_spec (r * 2) n) as [Hr|Hr].
    2: { exists l. split_and!; [done| |by split]. apply (hole_heap l lo n r); [done..|]. lia. }
    fold (child l r n). destruct (child_spec l r n Hr) as (Cn & Cr & Cm).
    destruct (Z.leb_spec 0 (cmp (l !!! r) (l !!! child l r n))) as [G|G].
    + exists l. split_and!; [done| |by split]. apply (hole_heap l lo n r); [done..|].
      intros d Hd E. eapply cmp_trans; [by apply Cm|]. by apply ge_le.
    + destruct (hole_step l lo n r Hl Hlo Hr H G) as [H' Rc].
      destruct (IH (eswap l r (child l r n)) (child l r n)) as (l' & E & Hh & Hs);
        [lia|by rewrite length_swap|lia|done|].
      exists l'. split_and!; [done|done|]. eapply sifted_trans; [|done]. apply sifted_swap; lia.
Qed.

(** ** Building the heap *)
Lemma eheapify_spec l k n :
  (n <= length l)%nat -> heap l k n ->
  exists l', eheapify cmp l k n = Some l' /\ heap l' 0 n /\ sifted l l' n.
Proof.
  revert l. induction k as [|i IH]; intros l Hl H; simpl; [exists l; split_and!; [done..|by split]|].
  destruct (esift_spec n l i n i) as (l1 & E & H1 & S1); [lia|done|done| |].
  { intros c Hc Hi. split; [|lia]. intros N. apply H; lia. }
  rewrite E. destruct (IH l1) as (l2 & E2 & H2 & S2).
  { by rewrite (Permutation_length (si_perm _ _ _ S1)). }
  { done. }
  exists l2. split_and!; [done..|by eapply sifted_trans].
Qed.

(** The root of a heap is its maximum. *)
Lemma heap_max l n c : heap l 0 n -> (c < n)%nat -> le (l !!! c) (l !!! 0%nat).
Proof.
  intros H. induction c as [c IH] using lt_wf_ind. intros Hc.
  destruct (decide (c = 0)%nat) as [->|N]; [rewrite cmp_refl; lia|].
  apply cmp_trans with (l !!! (c / 2)%nat); [apply H; lia|apply IH; lia].
Qed.

(** ** Taking the maxima out *)
Record sorting (l : list A) (k : nat) : Prop := {
  so_len : (k <= length l)%nat;
  so_heap : heap l 0 k;
  so_sorted : forall a b, (k <= a <= b)%nat -> (b < length l)%nat -> le (l !!! a) (l !!! b);
  so_below : forall a b, (a < k <= b)%nat -> (b < length l)%nat -> le (l !!! a) (l !!! b) }.

(** A sifted prefix holds the same elements. *)
Lemma sifted_prefix l l' i a :
  sifted l l' i -> (a < i <= length l)%nat -> exists a', (a' < i)%nat /\ l' !!! a = l !!! a'.
Proof.
  intros [P Ab] Ha. assert (length l' = length l) as El by (by apply Permutation_length).
  assert (drop i l' = drop i l) as Ed.
  { apply list_eq. intros k. rewrite !lookup_drop. specialize (Ab (i + k)%nat ltac:(lia)).
    destruct (decide (i + k < length l)%nat).
    - rewrite !list_lookup_lookup_total_lt by lia. by rewrite Ab.
    - by rewrite !lookup_ge_None_2 by lia. }
  assert (take i l' ≡ₚ take i l) as Et.
  { apply (Permutation_app_inv_r (drop i l)). rewrite <- Ed at 1. by rewrite !take_drop. }
  assert (l' !!! a ∈ take i l) as Hin.
  { rewrite <- Et. apply list_elem_of_lookup. exists a. rewrite lookup_take_lt by lia.
    apply list_lookup_lookup_total_lt. lia. }
  apply list_elem_of_lookup in Hin as [a' Ha']. assert (a' < i)%nat as Hlt.
  { apply lookup_lt_Some in Ha'. rewrite length_take in Ha'. lia. }
  exists a'. split; [done|]. rewrite lookup_take_lt in Ha' by done.
  symmetry. by apply list_lookup_total_correct.
Qed.

Lemma sorting_step l i :
  sorting l (S i) ->
  exists l', esift cmp i (eswap l 0 i) 0 i = Some l' /\ sorting l' i /\ l' ≡ₚ l.
Proof.
  intros [Len H So Be]. set (l1 := eswap l 0 i).
  assert (length l1 = length l) as El1 by apply length_swap.
  assert (forall k, l1 !!! k = if decide (k = 0)%nat then l !!! i else if decide (k = i) then l !!! 0%nat
    else l !!! k) as Sw by (intros k; apply swap_at; lia).
  destruct (esift_spec i l1 0 i 0) as (l' & E & Hh & Sf); [lia..| |].
  { intros c Hc _. split; [|lia]. intros N. rewrite !Sw, !decide_False by lia. apply H; lia. }
  assert (length l' = length l) as El' by (rewrite <- El1; by apply Permutation_length, Sf).
  assert (forall a, (a < i)%nat -> exists a', (a' <= i)%nat /\ l' !!! a = l !!! a') as Pre.
  { intros a Ha. destruct (sifted_prefix l1 l' i a Sf) as (a' & Ha' & ->); [lia|]. rewrite Sw.
    destruct (decide (a' = 0)%nat); [by exists i|]. rewrite decide_False by lia. exists a'. split; [lia|done]. }
  assert (l' !!! i = l !!! 0%nat) as Ei.
  { rewrite (si_above _ _ _ Sf) by lia. rewrite Sw. destruct (decide (i = 0)%nat) as [->|]; [done|].
    by rewrite decide_True. }
  assert (forall b, (i < b)%nat -> l' !!! b = l !!! b) as Eb.
  { intros b Hb. rewrite (si_above _ _ _ Sf) by lia. by rewrite Sw, !decide_False by lia. }
  exists l'. split; [done|]. split; [split|].
  - lia.
  - done.
  - intros a b Hab Hb. destruct (decide (a = i)) as [->|].
    + destruct (decide (b = i)) as [->|]; [rewrite cmp_refl; lia|].
      rewrite Ei, Eb by lia. apply Be; lia.
    + rewrite !Eb by lia. apply So; lia.
  - intros a b Hab Hb. destruct (Pre a) as (a' & Ha' & ->); [lia|]. destruct (decide (b = i)) as [->|].
    + rewrite Ei. apply heap_max with (S i); [done|lia].
    + rewrite Eb by lia. apply Be; lia.
  - etrans; [apply Sf|]. apply swap_perm; lia.
Qed.

Lemma esort_down_spec l k :
  sorting l k -> exists l', esort_down cmp l k = Some l' /\ sorting l' 0 /\ l' ≡ₚ l.
Proof.
  revert l. induction k as [|i IH]; intros l H; simpl; [by exists l|].
  destruct (sorting_step l i H) as (l1 & E & H1 & P1). rewrite E.
  destruct (IH l1 H1) as (l2 & E2 & H2 & P2). exists l2. split_and!; [done..|by etrans].
Qed.

(** ** The whole routine *)
Lemma esort_spec l :
  exists l', esort cmp l = Some l' /\ l' ≡ₚ l /\
    forall a b, (a <= b < length l')%nat -> le (l' !!! a) (l' !!! b).
Proof.
  unfold esort. destruct (eheapify_spec l (S (length l / 2)) (length l)) as (l1 & -> & H1 & S1); [done| |].
  { intros c Hc Hl. lia. }
  assert (length l1 = length l) as El by (by apply Permutation_length, S1).
  destruct (esort_down_spec l1 (length l)) as (l2 & E2 & H2 & P2).
  { split; [lia|done|lia|lia]. }
  exists l2. split_and!; [done|by etrans; [|apply S1]|]. intros a b Hab. apply (so_sorted _ _ H2); lia.
Qed.
End spec.

(** Offsets of bytes and elements are natural numbers in what follows. *)
#[local] Coercion Z.of_nat : nat >-> Z.

(** ** The array and its elements *)
Definition elem (size : nat) (mem : list Z) (i : nat) : list Z := take size (drop (i * size) mem).
Definition elems (size num : nat) (mem : list Z) : list (list Z) := elem size mem <$> seq 0 num.

(** What [sort] needs of an exchange function: on two elements of the
    array, which are disjoint or the same, it exchanges their bytes. *)
Class Exchanges (swap : Z -> Z -> Z -> M (list Z) unit) (size : nat) : Prop :=
  exchanges mem (a b : nat) :
    (a + size <= length mem)%nat -> (b + size <= length mem)%nat ->
    a = b \/ (a + size <= b)%nat \/ (b + size <= a)%nat ->
    exists mem', swap a b size mem = Some (tt, mem') /\ length mem' = length mem /\
      forall k, mem' !!! k =
        if decide (a <= k < a + size)%nat then mem !!! (b + (k - a))%nat
        else if decide (b <= k < b + size)%nat then mem !!! (a + (k - b))%nat else mem !!! k.

Lemma load_at (a : nat) mem : (a < length mem)%nat -> load a mem = Some (mem !!! a, mem).
Proof.
  intros H. unfold load, bind, gets. destruct (Z.leb_spec 0 a); [|lia]. rewrite Nat2Z.id.
  by rewrite (list_lookup_lookup_total_lt mem a) by done.
Qed.

Lemma store_at (a : nat) v mem : (a < length mem)%nat -> store a v mem = Some (tt, <[a := v]> mem).
Proof. intros H. unfold store, bind. rewrite load_at by done. unfold modify. by rewrite Nat2Z.id. Qed.

Lemma load_bytes_at len (a : nat) mem :
  (a + len <= length mem)%nat -> load_bytes len a mem = Some (take len (drop a mem), mem).
Proof.
  revert a. induction len as [|len IH]; intros a H; [done|]. cbn [load_bytes]. unfold bind.
  rewrite load_at by lia. replace (Z.of_nat a + 1) with (Z.of_nat (S a)) by lia. rewrite IH by lia.
  unfold ret. do 2 f_equal.
  rewrite (drop_S mem (mem !!! a) a); [done|]. apply list_lookup_lookup_total_lt. lia.
Qed.

Lemma store_bytes_at bs (a : nat) mem :
  (a + length bs <= length mem)%nat ->
  exists mem', store_bytes a bs mem = Some (tt, mem') /\ length mem' = length mem /\
    forall k, mem' !!! k = if decide (a <= k < a + length bs)%nat then bs !!! (k - a)%nat else mem !!! k.
Proof.
  revert a mem. induction bs as [|b bs IH]; intros a mem H; cbn [store_bytes length] in *.
  { exists mem. split_and!; [done..|]. intros k. by rewrite decide_False by lia. }
  unfold bind. rewrite store_at by lia. replace (Z.of_nat a + 1) with (Z.of_nat (S a)) by lia.
  destruct (IH (S a) (<[a := b]> mem)) as (mem' & E & L & K); [rewrite length_insert; lia|].
  exists mem'. split_and!; [done|by rewrite L, length_insert|]. intros k. rewrite K.
  destruct (decide (k = a)) as [->|N].
  - rewrite decide_False, decide_True by lia. rewrite list_lookup_total_insert_eq by lia.
    by rewrite Nat.sub_diag.
  - rewrite list_lookup_total_insert_ne by done.
    destruct (decide (S a <= k < S a + length bs)%nat).
    + rewrite decide_True by lia. by replace (k - a)%nat with (S (k - S a)) by lia.
    + by rewrite decide_False by lia.
Qed.

Lemma slice_at len (a : nat) (mem : list Z) k :
  (k < len)%nat -> take len (drop a mem) !!! k = mem !!! (a + k)%nat.
Proof. intros H. rewrite !list_lookup_total_alt. by rewrite lookup_take_lt, lookup_drop. Qed.

#[export] Instance u32_swap_exchanges : Exchanges u32_swap 4.
Proof.
  intros mem a b Ha Hb Hab. unfold u32_swap, bind. rewrite !load_bytes_at by done.
  destruct (store_bytes_at (take 4 (drop b mem)) a mem) as (m1 & -> & L1 & K1).
  { rewrite length_take, length_drop. lia. }
  destruct (store_bytes_at (take 4 (drop a mem)) b m1) as (m2 & -> & L2 & K2).
  { rewrite length_take, length_drop. lia. }
  rewrite length_take, length_drop, Nat.min_l in K1, K2 by lia.
  exists m2. split_and!; [done|lia|]. intros k. rewrite K2, K1.
  repeat case_decide; try lia; rewrite ?slice_at by lia; f_equal; lia.
Qed.

Lemma swap_bytes_at fuel (a b size : nat) mem :
  (size <= fuel)%nat -> (0 < size)%nat -> Z.of_nat size < 2 ^ 31 ->
  (a + size <= length mem)%nat -> (b + size <= length mem)%nat ->
  a = b \/ (a + size <= b)%nat \/ (b + size <= a)%nat ->
  exists mem', swap_bytes fuel a b size mem = Some (tt, mem') /\ length mem' = length mem /\
    forall k, mem' !!! k =
      if decide (a <= k < a + size)%nat then mem !!! (b + (k - a))%nat
      else if decide (b <= k < b + size)%nat then mem !!! (a + (k - b))%nat else mem !!! k.
Proof.
  revert a b size mem. induction fuel as [|fuel IH]; intros a b size mem Hf H0 H31 Ha Hb Hab; [lia|].
  cbn [swap_bytes]. unfold bind. rewrite !load_at by lia. rewrite store_at by lia.
  rewrite store_at by (rewrite length_insert; lia).
  set (m1 := <[b := mem !!! a]> (<[a := mem !!! b]> mem)).
  assert (length m1 = length mem) as L1 by (unfold m1; by rewrite !length_insert).
  assert (forall j, m1 !!! j =
    if decide (j = b) then mem !!! a else if decide (j = a) then mem !!! b else mem !!! j) as Sw.
  { intros j. unfold m1. destruct (decide (j = b)) as [->|].
    - by rewrite list_lookup_total_insert_eq by (rewrite length_insert; lia).
    - rewrite list_lookup_total_insert_ne by done. destruct (decide (j = a)) as [->|].
      + by rewrite list_lookup_total_insert_eq by lia.
      + by rewrite list_lookup_total_insert_ne. }
  rewrite s32_small by lia. destruct (Z.ltb_spec 0 (size - 1)).
  - destruct (IH (S a) (S b) (size - 1)%nat m1) as (m2 & E & L2 & K2); [lia..|].
    exists m2. split_and!; [|lia|].
    + rewrite <- E. f_equal; lia.
    + intros k. rewrite K2, !Sw. repeat case_decide; subst; try lia; f_equal; lia.
  - exists m1. split_and!; [done..|]. intros k. rewrite Sw. repeat case_decide; subst; try lia; f_equal; lia.
Qed.

Lemma generic_swap_exchanges (size : nat) :
  (0 < size)%nat -> Z.of_nat size < 2 ^ 31 -> Exchanges generic_swap size.
Proof. intros H0 H31 mem a b Ha Hb Hab. apply swap_bytes_at; lia. Qed.

Section refines.
Context (cmp : list Z -> list Z -> Z) (swap : Z -> Z -> Z -> M (list Z) unit) (size num : nat).
Context `{!Exchanges swap size} (Hsize : (0 < size)%nat) (Hsz : Z.of_nat size <= 2 ^ 30) (Hnum : Z.of_nat (num * size) <= 2 ^ 30).

(** The memory holds the elements [l]. *)
Definition holds (mem : list Z) (l : list (list Z)) : Prop :=
  length mem = (num * size)%nat /\ elems size num mem = l.

Lemma holds_len mem l : holds mem l -> length l = num.
Proof. intros [_ <-]. unfold elems. by rewrite length_fmap, length_seq. Qed.

Lemma holds_at mem l i : holds mem l -> (i < num)%nat -> l !!! i = elem size mem i.
Proof.
  intros [_ <-] Hi. unfold elems. rewrite list_lookup_total_alt, list_lookup_fmap.
  by rewrite lookup_seq_lt.
Qed.

Lemma offset_bound i : (i < num)%nat -> (i * size + size <= num * size)%nat.
Proof. nia. Qed.

Lemma cmp_at_holds mem l i j :
  holds mem l -> (i < num)%nat -> (j < num)%nat ->
  cmp_at cmp size (Z.of_nat (i * size)) (Z.of_nat (j * size)) mem = Some (cmp (l !!! i) (l !!! j), mem).
Proof.
  intros H Hi Hj. pose proof (offset_bound i Hi). pose proof (offset_bound j Hj). destruct (id H) as [L _].
  unfold cmp_at, bind. rewrite Nat2Z.id, !load_bytes_at by lia.
  by rewrite (holds_at _ _ i H), (holds_at _ _ j H).
Qed.

Lemma swap_holds mem l i j :
  holds mem l -> (i < num)%nat -> (j < num)%nat ->
  exists mem', swap (Z.of_nat (i * size)) (Z.of_nat (j * size)) (s32 size) mem = Some (tt, mem') /\
    holds mem' (eswap l i j).
Proof.
  intros H Hi Hj. pose proof (offset_bound i Hi). pose proof (offset_bound j Hj). destruct (id H) as [L _].
  rewrite s32_small by lia.
  destruct (exchanges mem (i * size) (j * size)) as (mem' & -> & L' & K); [lia..| |].
  { destruct (decide (i = j)); [left; by subst|]. right. nia. }
  exists mem'. split; [done|]. split; [lia|]. apply list_eq. intros k.
  pose proof (holds_len _ _ H) as Len.
  destruct (decide (k < num)%nat) as [Hk|Hk].
  2: { rewrite !lookup_ge_None_2; [done|rewrite length_swap; lia|].
       unfold elems. rewrite length_fmap, length_seq. lia. }
  unfold elems. rewrite list_lookup_fmap, lookup_seq_lt by done. cbn [fmap option_fmap option_map].
  rewrite list_lookup_lookup_total_lt by (rewrite length_swap; lia). f_equal.
  rewrite swap_at by lia. pose proof (offset_bound k Hk).
  apply list_eq_same_length with size; try (unfold elem; rewrite length_take, length_drop; lia).
  { repeat case_decide; rewrite (holds_at _ _ _ H) by lia; unfold elem; rewrite length_take, length_drop; lia. }
  intros q x y Hq Ex Ey.
  apply list_lookup_total_correct in Ex as <-. apply list_lookup_total_correct in Ey as <-.
  unfold elem at 1. rewrite slice_at, K by lia.
  destruct (decide (k = i)) as [->|Ni]; [|destruct (decide (k = j)) as [->|Nj]].
  - rewrite decide_True by lia. rewrite (holds_at _ _ j H) by lia. unfold elem. rewrite slice_at by lia.
    f_equal. lia.
  - rewrite decide_False by nia. rewrite decide_True by lia. rewrite (holds_at _ _ i H) by lia.
    unfold elem. rewrite slice_at by lia. f_equal. lia.
  - rewrite !decide_False by nia. rewrite (holds_at _ _ k H) by lia. unfold elem. by rewrite slice_at by lia.
Qed.

(** An offset of an element, doubled, does not wrap. *)
Lemma double_offset r : (r < num \/ r = 0)%nat -> s32 (Z.of_nat (r * size) * 2) = Z.of_nat (r * 2 * size).
Proof.
  intros [H | ->]; [|by rewrite s32_small by lia]. pose proof (offset_bound r H). rewrite s32_small; lia.
Qed.

Lemma sift_refines fuel rounds mem l r n l' :
  holds mem l -> (n <= num)%nat -> (r < num \/ r = 0)%nat -> (fuel <= rounds)%nat ->
  esift cmp fuel l r n = Some l' ->
  exists mem', sift cmp swap size rounds (Z.of_nat (r * size)) (Z.of_nat (n * size)) mem = Some (tt, mem') /\
    holds mem' l'.
Proof.
  revert rounds mem l r. induction fuel as [|fuel IH]; intros rounds mem l r H Hn Hr Hf E;
    cbn [esift] in E; (destruct (Nat.ltb_spec (r * 2) n) as [Lt|Ge];
      [|injection E as <-; exists mem; split; [|done];
        destruct rounds; cbn [sift]; rewrite double_offset by done;
        (destruct (Z.ltb_spec (Z.of_nat (r * 2 * size)) (Z.of_nat (n * size))); [nia|done])]); [done|].
  destruct rounds as [|rounds]; [lia|]. cbn [sift]. rewrite double_offset by done.
  destruct (Z.ltb_spec (Z.of_nat (r * 2 * size)) (Z.of_nat (n * size))); [|nia].
  fold (child cmp l r n) in E. set (c := child cmp l r n) in *.
  assert (c < n)%nat as Cn by (unfold c, child; destruct (_ && _) eqn:B; [|lia];
    apply andb_prop in B as [B _]; apply Nat.ltb_lt in B; lia).
  assert (n * size <= num * size)%nat by nia. assert (size <= n * size)%nat by nia.
  unfold bind at 1.
  match goal with |- context [match ?x mem with _ => _ end] => assert (x mem = Some (Z.of_nat (c * size), mem)) as -> end.
  { rewrite !u32_small by lia.
    destruct (Z.ltb_spec (Z.of_nat (r * 2 * size)) (Z.of_nat (n * size) - Z.of_nat size)) as [L1|L1].
    - assert (r * 2 < n - 1)%nat as L2 by nia. unfold bind.
      replace (Z.of_nat (r * 2 * size) + Z.of_nat size) with (Z.of_nat (S (r * 2) * size)) by lia.
      rewrite (cmp_at_holds _ l) by (done || lia). unfold ret, c, child. rewrite (proj2 (Nat.ltb_lt _ _) L2).
      cbn [andb]. destruct (_ <? 0); [|done]. rewrite s32_small by nia. done.
    - unfold ret, c, child. destruct (Nat.ltb_spec (r * 2) (n - 1)); [nia|done]. }
  unfold bind at 1. rewrite (cmp_at_holds _ l) by (done || lia).
  destruct (0 <=? cmp (l !!! r) (l !!! c)).
  - injection E as <-. by exists mem.
  - destruct (swap_holds mem l r c H) as (m1 & Es & Hm); [lia..|]. unfold bind at 1. rewrite Es.
    by apply (IH _ _ (eswap l r c)); [..|lia|lia|].
Qed.

Lemma heapify_refines rounds fuel mem l k n l' :
  holds mem l -> (n <= num)%nat -> (k <= S (num / 2))%nat -> (n <= rounds)%nat -> (k <= fuel)%nat ->
  eheapify cmp l k n = Some l' ->
  exists mem', heapify cmp swap size rounds fuel (Z.of_nat (k * size) - Z.of_nat size) (Z.of_nat (n * size)) mem
      = Some (tt, mem') /\ holds mem' l'.
Proof.
  revert fuel mem l. induction k as [|k IH]; intros fuel mem l H Hn Hk Hr Hf E; cbn [eheapify] in E.
  { injection E as <-. exists mem. split; [|done]. destruct fuel; cbn [heapify];
      (destruct (Z.leb_spec 0 (Z.of_nat (0 * size) - Z.of_nat size)); [lia|done]). }
  destruct fuel as [|fuel]; [lia|]. cbn [heapify].
  replace (Z.of_nat (S k * size) - Z.of_nat size) with (Z.of_nat (k * size)) by lia.
  destruct (Z.leb_spec 0 (Z.of_nat (k * size))) as [_|]; [|lia].
  destruct (esift cmp n l k n) as [l1|] eqn:E1; [|done].
  destruct (sift_refines n rounds mem l k n l1) as (m1 & E2 & Hm); [done|done|lia|done|done|].
  unfold bind. rewrite E2. assert (k * size <= num * size)%nat by nia.
  rewrite s32_small by lia. by apply (IH _ _ l1); [..|lia|done|lia|].
Qed.

Lemma sort_down_refines rounds fuel mem l k l' :
  holds mem l -> (k <= num)%nat -> (k <= rounds)%nat -> (k <= fuel)%nat ->
  esort_down cmp l k = Some l' ->
  exists mem', sort_down cmp swap size rounds fuel (Z.of_nat (k * size) - Z.of_nat size) mem
      = Some (tt, mem') /\ holds mem' l'.
Proof.
  revert fuel mem l. induction k as [|k IH]; intros fuel mem l H Hk Hr Hf E; cbn [esort_down] in E.
  { injection E as <-. exists mem. split; [|done]. destruct fuel; cbn [sort_down];
      (destruct (Z.leb_spec 0 (Z.of_nat (0 * size) - Z.of_nat size)); [lia|done]). }
  destruct fuel as [|fuel]; [lia|]. cbn [sort_down].
  replace (Z.of_nat (S k * size) - Z.of_nat size) with (Z.of_nat (k * size)) by lia.
  destruct (Z.leb_spec 0 (Z.of_nat (k * size))) as [_|]; [|lia].
  destruct (swap_holds mem l 0 k H) as (m0 & E0 & H0); [lia..|].
  change (Z.of_nat (0 * size)) with 0 in E0. unfold bind at 1. rewrite E0.
  destruct (esift cmp k (eswap l 0 k) 0 k) as [l1|] eqn:E1; [|done].
  destruct (sift_refines k rounds m0 (eswap l 0 k) 0 k l1) as (m1 & E2 & Hm); [done|lia|lia|lia|done|].
  change (Z.of_nat (0 * size)) with 0 in E2. unfold bind at 1. rewrite E2.
  assert (k * size <= num * size)%nat by nia.
  rewrite s32_small by lia. by apply (IH _ _ l1); [..|lia|lia|lia|].
Qed.
End refines.

(** C26. [sort] on an array of [num] elements of [size] bytes, at least one
    and at most 2^30 in all (the offsets, doubled, must fit an [int]), with its
    own exchange function ([u32_swap] for four bytes, [generic_swap]
    otherwise) or a caller's that exchanges two elements, and a comparison of
    elements that is a total preorder: every access is inside the array, each
    loop ends within [num + 1] rounds, the elements are permuted, and they end
    up in the order of the comparison. *)
Theorem sort_sorts cmp swap (num size rounds : nat) mem :
  TotalCmp cmp -> (0 < size)%nat -> Z.of_nat size <= 2 ^ 30 -> Z.of_nat (num * size) <= 2 ^ 30 ->
  (forall f, swap = Some f -> Exchanges f size) ->
  (num < rounds)%nat -> length mem = (num * size)%nat ->
  exists mem', sort rounds num size cmp swap mem = Some (tt, mem') /\
    length mem' = length mem /\
    elems size num mem' ≡ₚ elems size num mem /\
    forall a b, (a <= b < num)%nat -> cmp (elem size mem' a) (elem size mem' b) <= 0.
Proof.
  intros T H0 Hs Hn Hsw Hr L. unfold sort.
  set (f := match swap with Some g => g | None => if size =? 4 then u32_swap else generic_swap end).
  assert (Exchanges f size) as X.
  { unfold f. destruct swap as [g|]; [by apply Hsw|]. destruct (Z.eqb_spec size 4) as [E|].
    - replace size with 4%nat by lia. apply _.
    - apply generic_swap_exchanges; lia. }
  destruct (esort_spec cmp (elems size num mem)) as (l2 & E & P & So).
  assert (holds size num mem (elems size num mem)) as H by done.
  unfold esort in E. rewrite (holds_len size num _ _ H) in E.
  destruct (eheapify cmp (elems size num mem) (S (num / 2)) num) as [l1|] eqn:E1; [|done].
  assert (num / 2 * size <= num * size)%nat as Hhalf by nia.
  destruct (heapify_refines cmp f size num H0 Hs Hn rounds rounds mem _ (S (num / 2)) num l1 H)
    as (m1 & F1 & M1); [lia..|done|].
  destruct (sort_down_refines cmp f size num H0 Hs Hn rounds rounds m1 l1 num l2 M1) as (m2 & F2 & M2); [lia..|done|].
  unfold bind. rewrite !s32_small by lia.
  replace (Z.of_nat (S (num / 2) * size) - Z.of_nat size) with (Z.of_nat num / 2 * Z.of_nat size) in F1 by lia.
  replace (Z.of_nat (num * size)) with (Z.of_nat num * Z.of_nat size) in * by lia.
  rewrite F1, F2. exists m2. split_and!; [done|by rewrite (proj1 M2)|by rewrite (proj2 M2)|].
  intros a b Hab. rewrite (holds_len size num _ _ M2) in So. specialize (So a b Hab).
  by rewrite !(holds_at size num m2 l2) in So by (done || lia).
Qed.

(** Little-endian numbers of any length, compared as numbers. *)
Definition le_value (bs : list Z) : Z := foldr (fun b v => b + 256 * v) 0 bs.
Definition le_cmp (x y : list Z) : Z := le_value x - le_value y.

#[export] Instance le_cmp_total : TotalCmp le_cmp.
Proof. split; unfold le_cmp; lia. Qed.

Lemma sort_sorts_witness :
  (exists mem', sort 4 3 4 le_cmp None [0; 1; 0; 0;  9; 0; 0; 0;  7; 0; 0; 0] = Some (tt, mem') /\
    mem' = [7; 0; 0; 0;  9; 0; 0; 0;  0; 1; 0; 0]) /\
  exists mem', sort 6 5 2 le_cmp None [5; 0;  0; 2;  3; 0;  9; 1;  3; 1] = Some (tt, mem') /\
    mem' = [3; 0;  5; 0;  3; 1;  9; 1;  0; 2].
Proof.
  split.
  - destruct (sort_sorts le_cmp None 3 4 4 [0; 1; 0; 0; 9; 0; 0; 0; 7; 0; 0; 0])
      as (mem' & E & _); [apply _|lia..|done|lia|done|].
    exists mem'. split; [exact E|]. vm_compute in E. injection E as <-. reflexivity.
  - destruct (sort_sorts le_cmp None 5 2 6 [5; 0; 0; 2; 3; 0; 9; 1; 3; 1])
      as (mem' & E & _); [apply _|lia..|done|lia|done|].
    exists mem'. split; [exact E|]. vm_compute in E. injection E as <-. reflexivity.
Defined.

