(* ===== verification/BitOps.v ===== *)
(** * include/linux/bitops.h: searching and counting bits

    The branching searches and the parallel population counts, with the
    reference functions they implement. *)
From S2P Require Import Prelude.

(** One step of a search: when the masked bits of [x] are clear, shift. *)
Definition fls_step (mask k : Z) (xr : Z * Z) : Z * Z :=
  let '(x, r) := xr in
  if negb (truth (Z.land x mask)) then (u32 (Z.shiftl x k), r - k) else (x, r).
Definition generic_fls (x : Z) : Z :=
  if negb (truth x) then 0 else
  let xr := (x, 32) in
  let xr := fls_step 4294901760 16 xr in
  let xr := fls_step 4278190080 8 xr in
  let xr := fls_step 4026531840 4 xr in
  let xr := fls_step 3221225472 2 xr in
  let xr := fls_step 2147483648 1 xr in
  snd xr.

(** [x] is a signed [int]: the shift is arithmetic. *)
Definition ffs_step (mask k : Z) (xr : Z * Z) : Z * Z :=
  let '(x, r) := xr in
  if negb (truth (Z.land x mask)) then (Z.shiftr x k, r + k) else (x, r).
Definition generic_ffs (x : Z) : Z :=
  if negb (truth x) then 0 else
  let xr := (x, 1) in
  let xr := ffs_step 65535 16 xr in
  let xr := ffs_step 255 8 xr in
  let xr := ffs_step 15 4 xr in
  let xr := ffs_step 3 2 xr in
  let xr := ffs_step 1 1 xr in
  snd xr.

Definition generic_hweight32 (w : Z) : Z :=
  let res := Z.land w 1431655765 + Z.land (Z.shiftr w 1) 1431655765 in
  let res := Z.land res 858993459 + Z.land (Z.shiftr res 2) 858993459 in
  let res := Z.land res 252645135 + Z.land (Z.shiftr res 4) 252645135 in
  let res := Z.land res 16711935 + Z.land (Z.shiftr res 8) 16711935 in
  Z.land res 65535 + Z.land (Z.shiftr res 16) 65535.

Definition generic_hweight16 (w : Z) : Z :=
  let res := Z.land w 21845 + Z.land (Z.shiftr w 1) 21845 in
  let res := Z.land res 13107 + Z.land (Z.shiftr res 2) 13107 in
  let res := Z.land res 3855 + Z.land (Z.shiftr res 4) 3855 in
  Z.land res 255 + Z.land (Z.shiftr res 8) 255.

Definition generic_hweight8 (w : Z) : Z :=
  let res := Z.land w 85 + Z.land (Z.shiftr w 1) 85 in
  let res := Z.land res 51 + Z.land (Z.shiftr res 2) 51 in
  Z.land res 15 + Z.land (Z.shiftr res 4) 15.

(** The number of set bits among the [n] lowest. *)
Fixpoint popcount (n : nat) (w : Z) : Z :=
  match n with O => 0 | S n => Z.b2z (Z.testbit w (Z.of_nat n)) + popcount n w end.

(** ** Find last set *)
Lemma land_high x k n :
  0 <= n <= k -> 0 <= x < 2 ^ k -> Z.land x (2 ^ k - 2 ^ n) = 0 <-> x < 2 ^ n.
Proof.
  intros Hn Hx.
  assert (2 ^ k - 2 ^ n = Z.shiftl (Z.ones (k - n)) n) as ->.
  { rewrite Z.shiftl_mul_pow2, Z.ones_equiv by lia. rewrite Z.mul_pred_l, <- Z.pow_add_r by lia.
    do 2 f_equal. lia. }
  assert (Z.land x (Z.shiftl (Z.ones (k - n)) n) = Z.shiftl (Z.land (Z.shiftr x n) (Z.ones (k - n))) n) as ->.
  { apply Z.bits_inj'. intros i Hi. rewrite Z.land_spec. destruct (decide (i < n)).
    - rewrite !Z.shiftl_spec_low by lia. apply andb_false_r.
    - rewrite !Z.shiftl_spec, Z.land_spec, Z.shiftr_spec by lia. do 2 f_equal. lia. }
  assert (Z.land (Z.shiftr x n) (Z.ones (k - n)) = x / 2 ^ n) as ->.
  { rewrite Z.shiftr_div_pow2, Z.land_ones by lia. apply Z.mod_small. split; [apply Z.div_pos; lia|].
    apply Z.div_lt_upper_bound; [lia|]. rewrite <- Z.pow_add_r by lia. replace (n + (k - n)) with k by lia. lia. }
  rewrite Z.shiftl_mul_pow2 by lia. split.
  - intros E. assert (x / 2 ^ n = 0) as Q by nia. apply Z.div_small_iff in Q; lia.
  - intros L. rewrite Z.div_small by lia. done.
Qed.

(** The invariant of the search: [x] is the argument shifted by [32 - r], and
    at least [2^n]. *)
Definition fls_inv (x0 n : Z) (xr : Z * Z) : Prop :=
  let '(x, r) := xr in x = x0 * 2 ^ (32 - r) /\ 0 <= 32 - r /\ 2 ^ n <= x < 2 ^ 32.

Lemma fls_step_inv x0 n k xr :
  0 <= n -> 0 <= k -> n + k <= 31 -> 2 * k <= 32 - n -> fls_inv x0 n xr ->
  fls_inv x0 (n + k) (fls_step (2 ^ 32 - 2 ^ (32 - k)) k xr).
Proof.
  intros Hn Hk Hnk Hk2. destruct xr as [x r]. intros (E & Hr & Hx). unfold fls_step, truth.
  pose proof (land_high x 32 (32 - k) ltac:(lia) ltac:(pose proof (Z.pow_nonneg 2 n); lia)) as L.
  destruct (Z.eqb_spec (Z.land x (2 ^ 32 - 2 ^ (32 - k))) 0) as [Z0|N0]; cbn [negb].
  - apply L in Z0. assert (x * 2 ^ k < 2 ^ 32) as B.
    { replace (2 ^ 32) with (2 ^ (32 - k) * 2 ^ k) by (rewrite <- Z.pow_add_r by lia; f_equal; lia).
      apply Z.mul_lt_mono_pos_r; [apply Z.pow_pos_nonneg; lia|done]. }
    pose proof (Z.pow_pos_nonneg 2 k ltac:(lia) Hk). pose proof (Z.pow_pos_nonneg 2 n ltac:(lia) Hn).
    rewrite Z.shiftl_mul_pow2, u32_small by nia. split_and!; [|lia|..].
    + rewrite E. rewrite <- Z.mul_assoc, <- Z.pow_add_r by lia. do 2 f_equal. lia.
    + rewrite Z.pow_add_r by lia. nia.
    + done.
  - split_and!; [done|lia| |lia]. apply Z.nlt_ge. intros G. apply N0, L.
    eapply Z.lt_le_trans; [exact G|]. apply Z.pow_le_mono_r; lia.
Qed.

Lemma generic_fls_spec x : 0 < x < 2 ^ 32 -> generic_fls x = Z.log2 x + 1.
Proof.
  intros Hx. unfold generic_fls, truth. destruct (Z.eqb_spec x 0); [lia|]. cbn [negb].
  assert (fls_inv x 0 (x, 32)) as I0 by (split_and!; simpl; lia).
  pose proof (fls_step_inv x 0 16 _ ltac:(lia) ltac:(lia) ltac:(lia) ltac:(lia) I0) as I1.
  pose proof (fls_step_inv x 16 8 _ ltac:(lia) ltac:(lia) ltac:(lia) ltac:(lia) I1) as I2.
  pose proof (fls_step_inv x 24 4 _ ltac:(lia) ltac:(lia) ltac:(lia) ltac:(lia) I2) as I3.
  pose proof (fls_step_inv x 28 2 _ ltac:(lia) ltac:(lia) ltac:(lia) ltac:(lia) I3) as I4.
  pose proof (fls_step_inv x 30 1 _ ltac:(lia) ltac:(lia) ltac:(lia) ltac:(lia) I4) as I5.
  cbv zeta. simpl (_ + _) in I5. set (xr := fls_step 2147483648 1 _).
  change (fls_inv x 31 xr) in I5. destruct xr as [y r]. destruct I5 as (E & Hr & Hy). simpl snd.
  assert (Z.log2 y = 31) as Ly by (apply Z.log2_unique; lia).
  rewrite E, Z.log2_mul_pow2 in Ly by lia. lia.
Qed.

(** ** Find first set *)

(** The invariant: the [r - 1] lowest bits of the argument are clear, [x] is
    the rest, and one of its [n] lowest bits is set. *)
Definition ffs_inv (x0 n : Z) (xr : Z * Z) : Prop :=
  let '(x, r) := xr in 1 <= r /\ x0 = x * 2 ^ (r - 1) /\ Z.land x (Z.ones n) <> 0.

Lemma ffs_step_inv x0 k xr :
  0 <= k -> ffs_inv x0 (2 * k) xr -> ffs_inv x0 k (ffs_step (Z.ones k) k xr).
Proof.
  intros Hk. destruct xr as [x r]. intros (Hr & E & Nz). unfold ffs_step, truth.
  destruct (Z.eqb_spec (Z.land x (Z.ones k)) 0) as [Z0|N0]; cbn [negb]; [|done].
  rewrite Z.land_ones in Z0, Nz by lia. rewrite Z.shiftr_div_pow2 by lia.
  pose proof (Z.pow_pos_nonneg 2 k ltac:(lia) Hk) as P.
  assert (x = x / 2 ^ k * 2 ^ k) as Ex by (pose proof (Z.div_mod x (2 ^ k)); lia).
  split_and!; [lia| |].
  - rewrite E at 1. rewrite Ex at 1. rewrite <- Z.mul_assoc, <- Z.pow_add_r by lia. do 2 f_equal. lia.
  - rewrite Z.land_ones by lia. intros D. apply Nz. replace (2 * k) with (k + k) by lia.
    rewrite Z.pow_add_r, Z.rem_mul_r by lia. rewrite Z0, D. lia.
Qed.

Lemma generic_ffs_spec x :
  x mod 2 ^ 32 <> 0 ->
  let r := generic_ffs x in
  1 <= r /\ Z.testbit x (r - 1) = true /\ forall i, 0 <= i < r - 1 -> Z.testbit x i = false.
Proof.
  intros Hx. unfold generic_ffs, truth.
  destruct (Z.eqb_spec x 0) as [->|N]; [by rewrite Z.mod_0_l in Hx|]. cbn [negb].
  assert (ffs_inv x 32 (x, 1)) as I0.
  { split_and!; [lia|simpl; lia|]. by rewrite Z.land_ones by lia. }
  pose proof (ffs_step_inv x 16 _ ltac:(lia) I0) as I1. pose proof (ffs_step_inv x 8 _ ltac:(lia) I1) as I2.
  pose proof (ffs_step_inv x 4 _ ltac:(lia) I2) as I3. pose proof (ffs_step_inv x 2 _ ltac:(lia) I3) as I4.
  pose proof (ffs_step_inv x 1 _ ltac:(lia) I4) as I5.
  cbv zeta. set (xr := ffs_step 1 1 _). change (ffs_inv x 1 xr) in I5.
  destruct xr as [y r]. destruct I5 as (Hr & E & Nz). simpl snd.
  assert (forall i, 0 <= i -> Z.testbit x i = Z.testbit y (i - (r - 1))) as T.
  { intros i Hi. rewrite E, <- Z.shiftl_mul_pow2 by lia. by apply Z.shiftl_spec. }
  split_and!; [done| |].
  - rewrite T, Z.sub_diag by lia. change (Z.ones 1) with 1 in Nz.
    destruct (Z.testbit y 0) eqn:B; [done|]. exfalso. apply Nz. apply Z.bits_inj'. intros i Hi.
    rewrite Z.land_spec, Z.bits_0. destruct (decide (i = 0)) as [->|]; [by rewrite B|].
    change 1 with (Z.ones 1). rewrite Z.ones_spec_high by lia. apply andb_false_r.
  - intros i Hi. rewrite T by lia. by rewrite Z.testbit_neg_r by lia.
Qed.

(** ** Population counts

    A word is a sequence of digits of [h] bits; one stage of the count adds
    neighbouring digits into digits of [2 h] bits. *)
Fixpoint pack (h : Z) (ds : list Z) : Z :=
  match ds with [] => 0 | d :: ds => d + pack h ds * 2 ^ h end.

Fixpoint pair_sums (ds : list Z) : list Z :=
  match ds with a :: b :: ds => (a + b) :: pair_sums ds | _ => [] end.

Definition digits_ok (h : Z) (ds : list Z) : Prop := Forall (fun d => 0 <= d < 2 ^ h) ds.

Lemma testbit_pack d x k i :
  0 <= k -> 0 <= d < 2 ^ k -> 0 <= i ->
  Z.testbit (d + x * 2 ^ k) i = if i <? k then Z.testbit d i else Z.testbit x (i - k).
Proof.
  intros Hk Hd Hi. destruct (Z.ltb_spec i k).
  - rewrite <- (Z.mod_pow2_bits_low _ k i) by done. rewrite Z.mod_add, Z.mod_small by lia. done.
  - assert ((d + x * 2 ^ k) / 2 ^ k = x) as E by (rewrite Z.div_add, Z.div_small by lia; lia).
    rewrite <- E at 2. rewrite Z.div_pow2_bits by lia. f_equal. lia.
Qed.

Lemma pack_nonneg h ds : 0 <= h -> digits_ok h ds -> 0 <= pack h ds.
Proof.
  intros Hh. induction 1 as [|d ds Hd _ IH]; simpl; [done|].
  pose proof (Z.pow_nonneg 2 h ltac:(lia)). nia.
Qed.

(** One stage on one pair of digits and the rest of the word. *)
Lemma stage_pair h a b x y :
  0 < h -> 0 <= a < 2 ^ h -> 0 <= b < 2 ^ h -> 0 <= x -> 0 <= y ->
  let w := a + (b + x * 2 ^ h) * 2 ^ h in
  let m := Z.ones h + y * 2 ^ (2 * h) in
  Z.land w m = a + Z.land x y * 2 ^ (2 * h) /\
  Z.land (Z.shiftr w h) m = b + Z.land (Z.shiftr x h) y * 2 ^ (2 * h).
Proof.
  intros Hh Ha Hb Hx Hy w m.
  assert (2 ^ (2 * h) = 2 ^ h * 2 ^ h) as E2 by (rewrite <- Z.pow_add_r by lia; f_equal; lia).
  assert (0 <= Z.ones h < 2 ^ (2 * h)) as Ho.
  { rewrite Z.ones_equiv. pose proof (Z.pow_pos_nonneg 2 h ltac:(lia) ltac:(lia)). nia. }
  assert (0 <= a < 2 ^ (2 * h) /\ 0 <= b < 2 ^ (2 * h)) as [Ha2 Hb2] by nia.
  assert (forall i, 0 <= i -> Z.testbit (Z.ones h) i = (i <? h)) as To.
  { intros i Hi. apply Z.testbit_ones_nonneg; lia. }
  assert (forall i, 0 <= i -> Z.testbit w i = if i <? h then Z.testbit a i
    else if i - h <? h then Z.testbit b (i - h) else Z.testbit x (i - h - h)) as Tw.
  { intros i Hi. unfold w. rewrite testbit_pack by lia. destruct (Z.ltb_spec i h); [done|].
    by rewrite testbit_pack by lia. }
  split; apply Z.bits_inj'; intros i Hi; rewrite Z.land_spec; unfold m;
    rewrite !testbit_pack by lia; rewrite To by lia; rewrite ?Z.shiftr_spec by lia; rewrite Tw by lia.
  - destruct (Z.ltb_spec i (2 * h)).
    + destruct (Z.ltb_spec i h); [apply andb_true_r|]. rewrite andb_false_r.
      symmetry. apply Z.bits_above_log2; [lia|]. destruct (decide (a = 0)) as [->|]; [simpl; lia|].
      apply Z.log2_lt_pow2; [lia|]. apply Z.lt_le_trans with (2 ^ h); [lia|]. apply Z.pow_le_mono_r; lia.
    + destruct (Z.ltb_spec i h); [lia|]. destruct (Z.ltb_spec (i - h) h); [lia|].
      rewrite Z.land_spec. do 2 f_equal. lia.
  - destruct (Z.ltb_spec (i + h) h); [lia|]. destruct (Z.ltb_spec i (2 * h)).
    + destruct (Z.ltb_spec i h).
      * destruct (Z.ltb_spec (i + h - h) h); [|lia]. rewrite andb_true_r. f_equal. lia.
      * rewrite andb_false_r. symmetry. apply Z.bits_above_log2; [lia|].
        destruct (decide (b = 0)) as [->|]; [simpl; lia|].
        apply Z.log2_lt_pow2; [lia|]. apply Z.lt_le_trans with (2 ^ h); [lia|]. apply Z.pow_le_mono_r; lia.
    + destruct (Z.ltb_spec (i + h - h) h); [lia|]. rewrite Z.land_spec, Z.shiftr_spec by lia.
      do 2 f_equal. lia.
Qed.

Lemma stage h n ds :
  0 < h -> digits_ok h ds -> length ds = (2 * n)%nat ->
  let m := pack (2 * h) (replicate n (Z.ones h)) in
  Z.land (pack h ds) m + Z.land (Z.shiftr (pack h ds) h) m = pack (2 * h) (pair_sums ds) /\
  digits_ok (2 * h) (pair_sums ds) /\ length (pair_sums ds) = n /\
  foldr Z.add 0 (pair_sums ds) = foldr Z.add 0 ds.
Proof.
  intros Hh. revert ds. induction n as [|n IH]; intros ds Hd Hl.
  { apply nil_length_inv in Hl as ->. simpl. rewrite !Z.land_0_r. split_and!; try done. constructor. }
  destruct ds as [|a [|b ds]]; simpl in Hl; [lia..|].
  apply Forall_cons in Hd as [Ha Hd]. apply Forall_cons in Hd as [Hb Hd].
  destruct (IH ds Hd ltac:(lia)) as (E & D & L & S). cbv zeta. cbn [pack replicate pair_sums length foldr].
  assert (0 <= pack (2 * h) (replicate n (Z.ones h))) as Hm.
  { apply pack_nonneg; [lia|]. apply Forall_replicate. rewrite Z.ones_equiv.
    pose proof (Z.pow_pos_nonneg 2 h ltac:(lia) ltac:(lia)).
    assert (2 ^ (2 * h) = 2 ^ h * 2 ^ h) by (rewrite <- Z.pow_add_r by lia; f_equal; lia). nia. }
  destruct (stage_pair h a b (pack h ds) (pack (2 * h) (replicate n (Z.ones h)))) as [-> ->];
    [lia|lia|lia|apply pack_nonneg; [lia|done]|done|].
  split_and!; [lia| |lia|lia]. constructor; [|done].
  assert (2 ^ (2 * h) = 2 ^ h * 2 ^ h) by (rewrite <- Z.pow_add_r by lia; f_equal; lia).
  assert (2 <= 2 ^ h) by (change 2 with (2 ^ 1) at 1; apply Z.pow_le_mono_r; lia). nia.
Qed.

(** The bits of a word as digits. *)
Definition bits (n : nat) (w : Z) : list Z := (fun i => Z.b2z (Z.testbit w (Z.of_nat i))) <$> seq 0 n.

Lemma foldr_add_app l z : foldr Z.add z l = foldr Z.add 0 l + z.
Proof. induction l; simpl; lia. Qed.

Lemma bits_sum n w : foldr Z.add 0 (bits n w) = popcount n w.
Proof.
  induction n as [|n IH]; [done|]. unfold bits in *. rewrite seq_S, fmap_app, foldr_app, foldr_add_app, IH.
  simpl. lia.
Qed.

Lemma bits_ok n w : digits_ok 1 (bits n w).
Proof. apply Forall_fmap, Forall_true. intros i. simpl. destruct (Z.testbit _ _); simpl; lia. Qed.

Lemma bits_pack n w : 0 <= w < 2 ^ Z.of_nat n -> pack 1 (bits n w) = w.
Proof.
  revert w. induction n as [|n IH]; intros w Hw; [simpl in *; lia|].
  unfold bits. cbn [seq fmap list_fmap pack]. rewrite <- fmap_S_seq, <- list_fmap_compose.
  assert (((fun i => Z.b2z (Z.testbit w (Z.of_nat i))) ∘ S) <$> seq 0 n = bits n (w / 2)) as ->.
  { apply list_fmap_ext. intros i x Hx. unfold compose.
    by rewrite Nat2Z.inj_succ, <- Z.div2_bits by lia. }
  rewrite IH.
  - change (Z.of_nat 0) with 0. rewrite Z.bit0_mod. change (2 ^ 1) with 2.
    pose proof (Z.div_mod w 2 ltac:(lia)). lia.
  - rewrite Nat2Z.inj_succ, Z.pow_succ_r in Hw by lia. split; [apply Z.div_pos; lia|].
    apply Z.div_lt_upper_bound; lia.
Qed.

Lemma length_bits n w : length (bits n w) = n.
Proof. unfold bits. by rewrite length_fmap, length_seq. Qed.

Lemma generic_hweight32_spec w : 0 <= w < 2 ^ 32 -> generic_hweight32 w = popcount 32 w.
Proof.
  intros Hw. rewrite <- (bits_sum 32 w). rewrite <- (bits_pack 32 w Hw) at 1. unfold generic_hweight32.
  pose proof (bits_ok 32 w) as D. pose proof (length_bits 32 w) as L.
  revert D L. generalize (bits 32 w). intros ds D L. cbv zeta.
  destruct (stage 1 16 ds) as (E1 & D1 & L1 & S1); [lia|done..|].
  change (pack (2 * 1) (replicate 16 (Z.ones 1))) with 1431655765 in E1. rewrite E1.
  destruct (stage 2 8 (pair_sums ds)) as (E2 & D2 & L2 & S2); [lia|done..|].
  change (pack (2 * 2) (replicate 8 (Z.ones 2))) with 858993459 in E2. change (2 * 1) with 2 in *. rewrite E2.
  destruct (stage 4 4 (pair_sums (pair_sums ds))) as (E3 & D3 & L3 & S3); [lia|done..|].
  change (pack (2 * 4) (replicate 4 (Z.ones 4))) with 252645135 in E3. change (2 * 2) with 4 in *. rewrite E3.
  set (d3 := pair_sums (pair_sums (pair_sums ds))) in *.
  destruct (stage 8 2 d3) as (E4 & D4 & L4 & S4); [lia|done..|].
  change (pack (2 * 8) (replicate 2 (Z.ones 8))) with 16711935 in E4. change (2 * 4) with 8 in *. rewrite E4.
  destruct (stage 16 1 (pair_sums d3)) as (E5 & D5 & L5 & S5); [lia|done..|].
  change (pack (2 * 16) (replicate 1 (Z.ones 16))) with 65535 in E5. change (2 * 8) with 16 in *. rewrite E5.
  rewrite <- S1, <- S2, <- S3, <- S4, <- S5.
  destruct (pair_sums (pair_sums d3)) as [|x [|]]; simpl in L5; try lia. simpl. lia.
Qed.

Lemma generic_hweight16_spec w : 0 <= w < 2 ^ 16 -> generic_hweight16 w = popcount 16 w.
Proof.
  intros Hw. rewrite <- (bits_sum 16 w). rewrite <- (bits_pack 16 w Hw) at 1. unfold generic_hweight16.
  pose proof (bits_ok 16 w) as D. pose proof (length_bits 16 w) as L.
  revert D L. generalize (bits 16 w). intros ds D L. cbv zeta.
  destruct (stage 1 8 ds) as (E1 & D1 & L1 & S1); [lia|done..|].
  change (pack (2 * 1) (replicate 8 (Z.ones 1))) with 21845 in E1. rewrite E1.
  destruct (stage 2 4 (pair_sums ds)) as (E2 & D2 & L2 & S2); [lia|done..|].
  change (pack (2 * 2) (replicate 4 (Z.ones 2))) with 13107 in E2. change (2 * 1) with 2 in *. rewrite E2.
  destruct (stage 4 2 (pair_sums (pair_sums ds))) as (E3 & D3 & L3 & S3); [lia|done..|].
  change (pack (2 * 4) (replicate 2 (Z.ones 4))) with 3855 in E3. change (2 * 2) with 4 in *. rewrite E3.
  set (d3 := pair_sums (pair_sums (pair_sums ds))) in *.
  destruct (stage 8 1 d3) as (E4 & D4 & L4 & S4); [lia|done..|].
  change (pack (2 * 8) (replicate 1 (Z.ones 8))) with 255 in E4. change (2 * 4) with 8 in *. rewrite E4.
  rewrite <- S1, <- S2, <- S3, <- S4.
  destruct (pair_sums d3) as [|x [|]]; simpl in L4; try lia. simpl. lia.
Qed.

Lemma generic_hweight8_spec w : 0 <= w < 2 ^ 8 -> generic_hweight8 w = popcount 8 w.
Proof.
  intros Hw. rewrite <- (bits_sum 8 w). rewrite <- (bits_pack 8 w Hw) at 1. unfold generic_hweight8.
  pose proof (bits_ok 8 w) as D. pose proof (length_bits 8 w) as L.
  revert D L. generalize (bits 8 w). intros ds D L. cbv zeta.
  destruct (stage 1 4 ds) as (E1 & D1 & L1 & S1); [lia|done..|].
  change (pack (2 * 1) (replicate 4 (Z.ones 1))) with 85 in E1. rewrite E1.
  destruct (stage 2 2 (pair_sums ds)) as (E2 & D2 & L2 & S2); [lia|done..|].
  change (pack (2 * 2) (replicate 2 (Z.ones 2))) with 51 in E2. change (2 * 1) with 2 in *. rewrite E2.
  destruct (stage 4 1 (pair_sums (pair_sums ds))) as (E3 & D3 & L3 & S3); [lia|done..|].
  change (pack (2 * 4) (replicate 1 (Z.ones 4))) with 15 in E3. change (2 * 2) with 4 in *. rewrite E3.
  rewrite <- S1, <- S2, <- S3.
  destruct (pair_sums (pair_sums (pair_sums ds))) as [|x [|]]; simpl in L3; try lia. simpl. lia.
Qed.

(** C28: the branching searches and the parallel counts equal their
    definitions by bits: [generic_fls] is the position of the highest set bit,
    counted from 1, [generic_ffs] that of the lowest, and the weights are the
    number of set bits. *)
Theorem bit_operations_correct x :
  0 < x < 2 ^ 32 ->
  generic_fls x = Z.log2 x + 1 /\
  (let r := generic_ffs x in
   1 <= r /\ Z.testbit x (r - 1) = true /\ forall i, 0 <= i < r - 1 -> Z.testbit x i = false) /\
  generic_hweight32 x = popcount 32 x /\
  (x < 2 ^ 16 -> generic_hweight16 x = popcount 16 x) /\ (x < 2 ^ 8 -> generic_hweight8 x = popcount 8 x).
Proof.
  intros Hx. split; [by apply generic_fls_spec|]. split; [apply generic_ffs_spec; rewrite Z.mod_small; lia|].
  split_and!; intros; [apply generic_hweight32_spec|apply generic_hweight16_spec|apply generic_hweight8_spec]; lia.
Qed.

Lemma bit_operations_correct_witness :
  generic_fls 2560 = 12 /\ generic_ffs 2560 = 10 /\ generic_hweight32 2560 = popcount 32 2560.
Proof.
  destruct (bit_operations_correct 2560 ltac:(lia)) as (H & _ & H' & _). split; [exact H|]. split; [reflexivity|exact H'].
Defined.
