(* ===== verification/Kfifo.v ===== *)
(** * kernel/kfifo.c: a byte queue in a circular buffer

    The indices [in] and [out] run freely modulo 2^32; the size is a power of
    two, so that masking them gives positions in the buffer. *)
From S2P Require Import Prelude.
From S2P Require Import BitOps.

Record kfifo := { buffer : list Z; size : Z; k_in : Z; k_out : Z }.
#[export] Instance eta_kfifo : Eta kfifo := fun r =>
  Build_kfifo (buffer r) (size r) (k_in r) (k_out r).

(** [memcpy] of [n] bytes into [dst] at [off]. *)
Definition memcpy_at (dst : list Z) (off : Z) (src : list Z) : list Z :=
  take (Z.to_nat off) dst ++ src ++ drop (Z.to_nat off + length src) dst.
(** [n] bytes of [src] from [off]. *)
Definition bytes_at (src : list Z) (off n : Z) : list Z :=
  take (Z.to_nat n) (drop (Z.to_nat off) src).

(** Outcomes of the constructors: [BUG_ON] stops the kernel. *)
Inductive outcome := Bug | Err (errno : Z) | Fifo (f : kfifo).


(** [alloc] says whether [kmalloc] succeeds. *)
Definition kfifo_init (alloc : bool) (buf : list Z) (sz : Z) : outcome :=
  if truth (Z.land sz (u32 (sz - 1))) then Bug else
  if negb alloc then Err (- ENOMEM) else
  Fifo {| buffer := buf; size := sz; k_in := 0; k_out := 0 |}.

(** include/linux/kernel.h, include/linux/bitops.h: [1UL << fls(x - 1)]; a
    shift count of 32 leaves the register as it was on MIPS. *)
Definition roundup_pow_of_two (x : Z) : Z := u32 (Z.shiftl 1 (generic_fls (u32 (x - 1)) mod 32)).

(** [heap] gives the (arbitrary) contents of the memory [kmalloc] returns. *)
Definition kfifo_alloc (alloc1 alloc2 : bool) (heap : Z -> list Z) (sz : Z) : outcome :=
  let bad := truth (Z.land sz (u32 (sz - 1))) in
  if bad && (sz >? 2147483648) then Bug else
  let newsize := if bad then roundup_pow_of_two sz else sz in
  if negb alloc1 then Err (- ENOMEM) else
  kfifo_init alloc2 (heap newsize) sz.

(** [data] is the caller's buffer, of [len] bytes or more. *)
Definition __kfifo_put (fifo : kfifo) (data : list Z) (len : Z) : Z * kfifo :=
  let len := Z.min len (u32 (u32 (size fifo - k_in fifo) + k_out fifo)) in
  let off := Z.land (k_in fifo) (size fifo - 1) in
  let l := Z.min len (u32 (size fifo - off)) in
  let buf := memcpy_at (buffer fifo) off (bytes_at data 0 l) in
  let buf := memcpy_at buf 0 (bytes_at data l (len - l)) in
  (len, fifo <| buffer := buf |> <| k_in := u32 (k_in fifo + len) |>).

(** The bytes copied to the caller's buffer, their number, and the fifo. *)
Definition __kfifo_get (fifo : kfifo) (len : Z) : list Z * Z * kfifo :=
  let len := Z.min len (u32 (k_in fifo - k_out fifo)) in
  let off := Z.land (k_out fifo) (size fifo - 1) in
  let l := Z.min len (u32 (size fifo - off)) in
  let out := bytes_at (buffer fifo) off l ++ bytes_at (buffer fifo) 0 (len - l) in
  (out, len, fifo <| k_out := u32 (k_out fifo + len) |>).

(** include/linux/kfifo.h; the locked versions. *)
Definition __kfifo_reset (fifo : kfifo) : kfifo := fifo <| k_in := 0 |> <| k_out := 0 |>.
Definition kfifo_reset (fifo : kfifo) : kfifo := __kfifo_reset fifo.
Definition kfifo_put (fifo : kfifo) (data : list Z) (len : Z) : Z * kfifo := __kfifo_put fifo data len.
Definition kfifo_get (fifo : kfifo) (len : Z) : list Z * Z * kfifo :=
  let '(out, n, fifo) := __kfifo_get fifo len in
  (out, n, if k_in fifo =? k_out fifo then __kfifo_reset fifo else fifo).
Definition __kfifo_len (fifo : kfifo) : Z := u32 (k_in fifo - k_out fifo).
Definition kfifo_len (fifo : kfifo) : Z := __kfifo_len fifo.

(** ** The kfifo is a bounded queue *)
(** The invariant: a power-of-two size that is the buffer's, indices in
    range, and no more data than fits. *)
Record kfifo_wf (f : kfifo) : Prop := {
  kf_pow : exists n, 0 <= n <= 31 /\ size f = 2 ^ n;
  kf_len : Z.of_nat (length (buffer f)) = size f;
  kf_in : 0 <= k_in f < 2 ^ 32;
  kf_out : 0 <= k_out f < 2 ^ 32;
  kf_fill : __kfifo_len f <= size f }.

(** The queue a kfifo represents: the bytes from [out] up to [in]. *)
Definition slot (f : kfifo) (i : Z) : Z := default 0 (buffer f !! Z.to_nat (i mod size f)).
Definition contents (f : kfifo) : list Z :=
  (fun j => slot f (k_out f + Z.of_nat j)) <$> seq 0 (Z.to_nat (__kfifo_len f)).

Lemma kf_size f : kfifo_wf f -> 0 < size f <= 2 ^ 31.
Proof.
  intros W. destruct (kf_pow _ W) as (n & Hn & ->). split; [apply Z.pow_pos_nonneg; lia|].
  apply Z.pow_le_mono_r; lia.
Qed.

Lemma kf_mask f x : kfifo_wf f -> Z.land x (size f - 1) = x mod size f.
Proof.
  intros W. destruct (kf_pow _ W) as (n & Hn & ->).
  replace (2 ^ n - 1) with (Z.ones n) by (rewrite Z.ones_equiv; lia). apply Z.land_ones. lia.
Qed.

(** Wrapping an index at 2^32 does not move it in the buffer. *)
Lemma kf_wrap f x : kfifo_wf f -> u32 x mod size f = x mod size f.
Proof.
  intros W. destruct (kf_pow _ W) as (n & Hn & ->). apply Z.mod_mod_divide.
  exists (2 ^ (32 - n)). rewrite <- Z.pow_add_r by lia. f_equal. lia.
Qed.

(** ** Copies *)
Lemma length_bytes_at l off n :
  0 <= off -> 0 <= n -> off + n <= Z.of_nat (length l) -> length (bytes_at l off n) = Z.to_nat n.
Proof. intros. unfold bytes_at. rewrite length_take, length_drop. lia. Qed.

Lemma bytes_at_lookup l off n k :
  0 <= off -> (k < Z.to_nat n)%nat -> bytes_at l off n !! k = l !! (Z.to_nat off + k)%nat.
Proof. intros Ho Hk. unfold bytes_at. by rewrite lookup_take_lt, lookup_drop by lia. Qed.

Lemma memcpy_at_lookup dst off src k :
  0 <= off -> off + Z.of_nat (length src) <= Z.of_nat (length dst) ->
  memcpy_at dst off src !! k =
    if decide (Z.to_nat off <= k < Z.to_nat off + length src)%nat then src !! (k - Z.to_nat off)%nat
    else dst !! k.
Proof.
  intros Ho Hl. unfold memcpy_at.
  assert (length (take (Z.to_nat off) dst) = Z.to_nat off) as Et by (rewrite length_take; lia).
  destruct (decide (Z.to_nat off <= k < Z.to_nat off + length src)%nat) as [D|D].
  - rewrite lookup_app_r by lia. rewrite Et. by rewrite lookup_app_l by lia.
  - destruct (decide (k < Z.to_nat off)%nat).
    + rewrite lookup_app_l by lia. by rewrite lookup_take_lt by lia.
    + rewrite lookup_app_r by lia. rewrite lookup_app_r by lia. rewrite lookup_drop, Et. f_equal. lia.
Qed.

Lemma length_memcpy_at dst off src :
  0 <= off -> off + Z.of_nat (length src) <= Z.of_nat (length dst) ->
  length (memcpy_at dst off src) = length dst.
Proof. intros. unfold memcpy_at. rewrite !length_app, length_take, length_drop. lia. Qed.

(** ** The positions of a run of indices *)
Lemma pos_step s x j :
  0 < s -> 0 <= j < s ->
  (x + j) mod s = if x mod s + j <? s then x mod s + j else x mod s + j - s.
Proof.
  intros Hs Hj. pose proof (Z.mod_pos_bound x s Hs). rewrite <- Zplus_mod_idemp_l.
  destruct (Z.ltb_spec (x mod s + j) s).
  - apply Z.mod_small. lia.
  - rewrite <- (Z.mod_add _ (-1)) by lia. apply Z.mod_small. lia.
Qed.

Lemma kfifo_fill f : kfifo_wf f -> 0 <= __kfifo_len f <= size f /\
  u32 (u32 (size f - k_in f) + k_out f) = size f - __kfifo_len f.
Proof.
  intros W. pose proof (kf_size f W) as S. pose proof (kf_fill f W) as F. unfold __kfifo_len in *.
  pose proof (u32_range (k_in f - k_out f)) as R. split; [lia|].
  unfold u32 in *. rewrite Zplus_mod_idemp_l.
  replace (size f - k_in f + k_out f) with (size f - (k_in f - k_out f)) by lia.
  rewrite <- Zminus_mod_idemp_r. apply Z.mod_small. lia.
Qed.

Lemma fill_add f n :
  kfifo_wf f -> 0 <= n <= size f - __kfifo_len f ->
  u32 (u32 (k_in f + n) - k_out f) = __kfifo_len f + n.
Proof.
  intros W Hn. destruct (kfifo_fill f W) as [F _]. pose proof (kf_size f W) as S.
  unfold __kfifo_len, u32 in *. rewrite Zminus_mod_idemp_l.
  replace (k_in f + n - k_out f) with (k_in f - k_out f + n) by lia.
  rewrite <- Zplus_mod_idemp_l. apply Z.mod_small. lia.
Qed.

Lemma fill_sub f n :
  kfifo_wf f -> 0 <= n <= __kfifo_len f ->
  u32 (k_in f - u32 (k_out f + n)) = __kfifo_len f - n.
Proof.
  intros W Hn. destruct (kfifo_fill f W) as [F _]. pose proof (kf_size f W) as S.
  unfold __kfifo_len, u32 in *. rewrite Zminus_mod_idemp_r.
  replace (k_in f - (k_out f + n)) with (k_in f - k_out f - n) by lia.
  rewrite <- Zminus_mod_idemp_l. apply Z.mod_small. lia.
Qed.

Lemma in_out f : kfifo_wf f -> k_in f mod size f = (k_out f + __kfifo_len f) mod size f.
Proof.
  intros W. unfold __kfifo_len. rewrite <- (kf_wrap f (k_out f + _)) by done.
  f_equal. unfold u32. rewrite Zplus_mod_idemp_r. replace (k_out f + (k_in f - k_out f)) with (k_in f) by lia.
  symmetry. apply Z.mod_small, W.
Qed.

Lemma slot_mod f x y : x mod size f = y mod size f -> slot f x = slot f y.
Proof. unfold slot. by intros ->. Qed.

(** The slot of a queue position, counted from [in]. *)
Lemma slot_in f j : kfifo_wf f -> slot f (k_out f + __kfifo_len f + j) = slot f (k_in f + j).
Proof.
  intros W. apply slot_mod. rewrite <- Zplus_mod_idemp_l, <- in_out by done. by rewrite Zplus_mod_idemp_l.
Qed.

(** ** Putting *)
Lemma put_slot f data len j :
  kfifo_wf f -> 0 <= len <= Z.of_nat (length data) -> 0 <= j < size f ->
  let '(n, f') := __kfifo_put f data len in
  n = Z.min len (size f - __kfifo_len f) /\
  length (buffer f') = length (buffer f) /\ size f' = size f /\
  k_out f' = k_out f /\ k_in f' = u32 (k_in f + n) /\
  slot f' (k_in f + j) = if j <? n then default 0 (data !! Z.to_nat j) else slot f (k_in f + j).
Proof.
  intros W Hd Hj. unfold __kfifo_put. pose proof (kf_size f W) as S. destruct (kfifo_fill f W) as [F ->].
  rewrite kf_mask by done. set (n := Z.min len (size f - __kfifo_len f)).
  pose proof (Z.mod_pos_bound (k_in f) (size f) ltac:(lia)) as Off. set (off := k_in f mod size f) in *.
  rewrite (u32_small (size f - off)) by lia. set (l := Z.min n (size f - off)).
  pose proof (kf_len f W) as Lb.
  assert (length (bytes_at data 0 l) = Z.to_nat l) as L1 by (apply length_bytes_at; lia).
  assert (length (bytes_at data l (n - l)) = Z.to_nat (n - l)) as L2 by (apply length_bytes_at; lia).
  assert (length (memcpy_at (buffer f) off (bytes_at data 0 l)) = length (buffer f)) as L3
    by (apply length_memcpy_at; lia).
  split_and!; [done| |done..|].
  { cbn. rewrite length_memcpy_at by lia. done. }
  unfold slot at 1. cbn. rewrite pos_step by lia. fold off.
  rewrite memcpy_at_lookup by lia. rewrite memcpy_at_lookup by lia. rewrite L1, L2.
  unfold slot. rewrite pos_step by lia. fold off.
  destruct (Z.ltb_spec (off + j) (size f)); destruct (Z.ltb_spec j n).
  - rewrite decide_False by lia. rewrite decide_True by lia. rewrite bytes_at_lookup by lia.
    do 2 f_equal. lia.
  - rewrite decide_False by lia. by rewrite decide_False by lia.
  - rewrite decide_True by lia. rewrite bytes_at_lookup by lia. do 2 f_equal. lia.
  - rewrite decide_False by lia. by rewrite decide_False by lia.
Qed.

Lemma contents_lookup f j :
  contents f !! j = if decide (j < Z.to_nat (__kfifo_len f))%nat then Some (slot f (k_out f + Z.of_nat j)) else None.
Proof.
  unfold contents. rewrite list_lookup_fmap. case_decide.
  - by rewrite lookup_seq_lt.
  - by rewrite lookup_seq_ge by lia.
Qed.

Lemma length_contents f : length (contents f) = Z.to_nat (__kfifo_len f).
Proof. unfold contents. by rewrite length_fmap, length_seq. Qed.

Lemma put_spec f data len :
  kfifo_wf f -> 0 <= len <= Z.of_nat (length data) ->
  let '(n, f') := __kfifo_put f data len in
  n = Z.min len (size f - Z.of_nat (length (contents f))) /\ kfifo_wf f' /\
  contents f' = contents f ++ take (Z.to_nat n) data.
Proof.
  intros W Hd. pose proof (kf_size f W) as S. destruct (kfifo_fill f W) as [F _].
  pose proof (fun j => put_slot f data len j W Hd) as P.
  destruct (__kfifo_put f data len) as [n f'].
  destruct (P 0 ltac:(lia)) as (En & Lb & Sz & Ko & Ki & _).
  assert (0 <= n <= size f - __kfifo_len f) as Hn by lia.
  assert (__kfifo_len f' = __kfifo_len f + n) as Ef.
  { unfold __kfifo_len. rewrite Ki, Ko. by apply fill_add. }
  rewrite length_contents. split_and!; [lia| |].
  - destruct W as [Po Le In Ou Fi]. split; rewrite ?Sz, ?Lb, ?Ef; try done; [by rewrite Ki; apply u32_range|congruence|lia].
  - apply list_eq. intros j. rewrite contents_lookup, Ef.
    destruct (decide (j < Z.to_nat (__kfifo_len f))%nat) as [D|D].
    + rewrite lookup_app_l by (rewrite length_contents; lia).
      rewrite contents_lookup, !decide_True by lia. f_equal. rewrite Ko.
      set (j' := size f - __kfifo_len f + Z.of_nat j).
      assert (forall g, size g = size f -> slot g (k_out f + Z.of_nat j) = slot g (k_in f + j')) as Eq.
      { intros g Eg. apply slot_mod. rewrite Eg. rewrite <- (Zplus_mod_idemp_l (k_in f)), in_out by done.
        rewrite Zplus_mod_idemp_l. unfold j'.
        replace (k_out f + __kfifo_len f + (size f - __kfifo_len f + Z.of_nat j))
          with (k_out f + Z.of_nat j + 1 * size f) by lia. by rewrite Z.mod_add by lia. }
      rewrite !Eq by done. destruct (P j') as (_ & _ & _ & _ & _ & ->); [lia|].
      destruct (Z.ltb_spec j' n); [lia|done].
    + rewrite lookup_app_r by (rewrite length_contents; lia). rewrite length_contents.
      case_decide.
      * rewrite lookup_take_lt by lia. rewrite Ko.
        replace (k_out f + Z.of_nat j) with (k_out f + __kfifo_len f + (Z.of_nat j - __kfifo_len f)) by lia.
        set (i := Z.of_nat j - __kfifo_len f).
        assert (slot f' (k_out f + __kfifo_len f + i) = slot f' (k_in f + i)) as ->.
        { apply slot_mod. rewrite Sz. rewrite <- Zplus_mod_idemp_l, <- in_out by done. by rewrite Zplus_mod_idemp_l. }
        destruct (P i) as (_ & _ & _ & _ & _ & ->); [lia|]. destruct (Z.ltb_spec i n); [|lia].
        replace (Z.to_nat i) with (j - Z.to_nat (__kfifo_len f))%nat by lia.
        destruct (lookup_lt_is_Some_2 data (j - Z.to_nat (__kfifo_len f))) as [x Ex]; [lia|].
        by rewrite Ex.
      * rewrite lookup_take_ge by lia. done.
Qed.

(** ** Getting *)
Lemma get_bytes f n :
  kfifo_wf f -> 0 <= n <= __kfifo_len f ->
  let off := k_out f mod size f in
  let l := Z.min n (size f - off) in
  bytes_at (buffer f) off l ++ bytes_at (buffer f) 0 (n - l) = take (Z.to_nat n) (contents f).
Proof.
  intros W Hn off l. pose proof (kf_size f W) as S. destruct (kfifo_fill f W) as [F _].
  pose proof (Z.mod_pos_bound (k_out f) (size f) ltac:(lia)) as Off. pose proof (kf_len f W) as Lb.
  fold off in Off.
  assert (length (bytes_at (buffer f) off l) = Z.to_nat l) as L1 by (apply length_bytes_at; lia).
  assert (length (bytes_at (buffer f) 0 (n - l)) = Z.to_nat (n - l)) as L2 by (apply length_bytes_at; lia).
  apply list_eq. intros j. destruct (decide (j < Z.to_nat n)%nat) as [D|D].
  2: { rewrite lookup_take_ge by lia. apply lookup_ge_None_2. rewrite length_app. lia. }
  rewrite lookup_take_lt, contents_lookup, decide_True by lia. unfold slot.
  rewrite pos_step by lia. fold off.
  assert (forall k, (k < length (buffer f))%nat -> buffer f !! k = Some (default 0 (buffer f !! k))) as Ex.
  { intros k Hk. destruct (lookup_lt_is_Some_2 (buffer f) k Hk) as [x ->]. done. }
  destruct (decide (j < Z.to_nat l)%nat).
  - rewrite lookup_app_l by lia. rewrite bytes_at_lookup by lia.
    destruct (Z.ltb_spec (off + Z.of_nat j) (size f)); [|lia]. rewrite Ex by lia. do 3 f_equal. lia.
  - rewrite lookup_app_r by lia. rewrite bytes_at_lookup by lia. rewrite L1.
    destruct (Z.ltb_spec (off + Z.of_nat j) (size f)); [lia|]. rewrite Ex by lia. do 3 f_equal. lia.
Qed.

Lemma get_spec f len :
  kfifo_wf f -> 0 <= len ->
  let '(out, n, f') := __kfifo_get f len in
  n = Z.min len (Z.of_nat (length (contents f))) /\ kfifo_wf f' /\
  contents f = out ++ contents f' /\ Z.of_nat (length out) = n.
Proof.
  intros W Hl. unfold __kfifo_get. fold (__kfifo_len f).
  pose proof (kf_size f W) as S. destruct (kfifo_fill f W) as [F _].
  rewrite kf_mask by done. set (n := Z.min len (__kfifo_len f)).
  pose proof (Z.mod_pos_bound (k_out f) (size f) ltac:(lia)) as Off.
  rewrite (u32_small (size f - k_out f mod size f)) by lia. rewrite get_bytes by (done || lia).
  set (f' := f <| k_out := _ |>).
  assert (__kfifo_len f' = __kfifo_len f - n) as Ef.
  { change (__kfifo_len f') with (u32 (k_in f - u32 (k_out f + n))). apply fill_sub; [done|lia]. }
  rewrite length_contents. split_and!; [lia| | |].
  - destruct W as [Po Le In Ou Fi]. split; try done; [cbn; apply u32_range|]. rewrite Ef. cbn. lia.
  - rewrite <- (take_drop (Z.to_nat n) (contents f)) at 1. f_equal.
    apply list_eq. intros j. rewrite lookup_drop, !contents_lookup, Ef.
    destruct (decide (Z.to_nat n + j < Z.to_nat (__kfifo_len f))%nat);
      [rewrite decide_True by lia|by rewrite decide_False by lia].
    f_equal. unfold slot. cbn [buffer size k_out f']. change (size f') with (size f).
    change (buffer f') with (buffer f). change (k_out f') with (u32 (k_out f + n)).
    rewrite <- (Zplus_mod_idemp_l (u32 _)), kf_wrap, Zplus_mod_idemp_l by done.
    replace (k_out f + n + Z.of_nat j) with (k_out f + Z.of_nat (Z.to_nat n + j)) by lia. done.
  - rewrite length_take, length_contents. lia.
Qed.

Lemma init_wf alloc buf sz f :
  kfifo_init alloc buf sz = Fifo f -> Z.of_nat (length buf) = sz -> (exists n, 0 <= n <= 31 /\ sz = 2 ^ n) ->
  kfifo_wf f /\ contents f = [].
Proof.
  unfold kfifo_init. destruct (truth _); [done|]. destruct (negb alloc); [done|]. intros [= <-] Hl Hp.
  split; [|done]. split; cbn; try done; try lia. unfold __kfifo_len, u32. cbn.
  destruct Hp as (n & Hn & ->). pose proof (Z.pow_pos_nonneg 2 n ltac:(lia) ltac:(lia)).
  rewrite Zmod_0_l. lia.
Qed.

(** Emptying the fifo when it is empty changes nothing that shows. *)
Lemma reset_spec f : kfifo_wf f -> kfifo_wf (__kfifo_reset f) /\ contents (__kfifo_reset f) = [].
Proof.
  intros W. pose proof (kf_size f W). destruct W as [Po Le In Ou Fi].
  split; [|done]. split; cbn; try done; try lia. change (u32 (0 - 0) <= size f). unfold u32.
  change ((0 - 0) mod 2 ^ 32) with 0. lia.
Qed.

(** [kfifo_get] empties the indices of a queue that has become empty. *)
Lemma locked_get_spec f len :
  kfifo_wf f -> 0 <= len ->
  let '(out, n, f') := kfifo_get f len in
  n = Z.min len (Z.of_nat (length (contents f))) /\ kfifo_wf f' /\ size f' = size f /\
  contents f = out ++ contents f' /\ Z.of_nat (length out) = n.
Proof.
  intros W Hl. pose proof (get_spec f len W Hl) as H. unfold kfifo_get.
  assert (size (__kfifo_get f len).2 = size f) as Hsz by done.
  destruct (__kfifo_get f len) as [[out n] f'].
  destruct H as (E & W' & C & L). destruct (Z.eqb_spec (k_in f') (k_out f')) as [Eq|]; [|done].
  destruct (reset_spec f' W') as [W0 C0]. split_and!; try done. rewrite C0.
  enough (contents f' = []) as <- by done. unfold contents, __kfifo_len.
  rewrite Eq, Z.sub_diag. done.
Qed.

(** ** Sequences of calls *)
Inductive fifo_op := Put (data : list Z) (len : Z) | Get (len : Z) | Unlocked_get (len : Z) | Reset | Len.

(** The bytes an operation gives to the caller, the number it returns, the queue. *)
Definition fifo_do (op : fifo_op) (f : kfifo) : list Z * Z * kfifo :=
  match op with
  | Put data len => let '(n, f) := kfifo_put f data len in ([], n, f)
  | Get len => kfifo_get f len
  | Unlocked_get len => __kfifo_get f len
  | Reset => ([], 0, kfifo_reset f)
  | Len => ([], kfifo_len f, f)
  end.
(** The same on a queue of at most [cap] bytes. *)
Definition queue_do (cap : Z) (op : fifo_op) (q : list Z) : list Z * Z * list Z :=
  match op with
  | Put data len => let n := Z.min len (cap - Z.of_nat (length q)) in ([], n, q ++ take (Z.to_nat n) data)
  | Get len | Unlocked_get len =>
      (take (Z.to_nat len) q, Z.min len (Z.of_nat (length q)), drop (Z.to_nat len) q)
  | Reset => ([], 0, [])
  | Len => ([], Z.of_nat (length q), q)
  end.
Fixpoint do_all {S} (op : fifo_op -> S -> list Z * Z * S) (ops : list fifo_op) (s : S) : list (list Z * Z) * S :=
  match ops with
  | [] => ([], s)
  | o :: ops => let '(r, s) := op o s in let '(rs, s) := do_all op ops s in (r :: rs, s)
  end.

(** The caller's buffer has the bytes it says. *)
Definition op_ok (op : fifo_op) : Prop :=
  match op with Put data len => 0 <= len <= Z.of_nat (length data) | Get len | Unlocked_get len => 0 <= len | _ => True end.

Lemma taken (q out rest : list Z) n :
  q = out ++ rest -> 0 <= n -> Z.of_nat (length out) = Z.min n (Z.of_nat (length q)) ->
  out = take (Z.to_nat n) q /\ rest = drop (Z.to_nat n) q.
Proof.
  intros -> Hn Hl. rewrite length_app in Hl. destruct (decide (Z.to_nat n <= length out)%nat).
  - by rewrite take_app_length', drop_app_length' by lia.
  - assert (rest = []) as -> by (destruct rest; [done|simpl in Hl; lia]). rewrite app_nil_r, take_ge, drop_ge by lia. done.
Qed.

Lemma op_refines op f :
  kfifo_wf f -> op_ok op ->
  let '(r, f') := fifo_do op f in kfifo_wf f' /\ size f' = size f /\ queue_do (size f) op (contents f) = (r, contents f').
Proof.
  intros W Hop. destruct op as [data len|len|len| |]; cbn [fifo_do queue_do op_ok] in *.
  - pose proof (put_spec f data len W Hop) as H. unfold kfifo_put. assert (size (__kfifo_put f data len).2 = size f) as Hsz by done.
    destruct (__kfifo_put f data len) as [n f']. destruct H as (-> & W' & E). by rewrite E.
  - pose proof (locked_get_spec f len W Hop) as H. destruct (kfifo_get f len) as [[out n] f'].
    destruct H as (E1 & W' & Hsz & E2 & E3). destruct (taken _ _ _ len E2 Hop) as [<- <-]; [lia|]. by rewrite <- E1.
  - pose proof (get_spec f len W Hop) as H. assert (size (__kfifo_get f len).2 = size f) as Hsz by done.
    destruct (__kfifo_get f len) as [[out n] f']. destruct H as (E1 & W' & E2 & E3).
    destruct (taken _ _ _ len E2 Hop) as [<- <-]; [lia|]. by rewrite <- E1.
  - destruct (reset_spec f W) as [W' E]. unfold kfifo_reset. by rewrite E.
  - split_and!; try done. rewrite length_contents, Z2Nat.id; [done|]. by destruct (kfifo_fill f W) as [[? _] _].
Qed.

Lemma ops_refine ops f :
  kfifo_wf f -> Forall op_ok ops ->
  let '(rs, f') := do_all fifo_do ops f in kfifo_wf f' /\ do_all (queue_do (size f)) ops (contents f) = (rs, contents f').
Proof.
  intros W Hops. revert f W. induction Hops as [|op ops Hop _ IH]; intros f W; cbn; [done|].
  pose proof (op_refines op f W Hop) as H. destruct (fifo_do op f) as [r f1]. destruct H as (W1 & Hsz & ->).
  specialize (IH f1 W1). rewrite <- Hsz. destruct (do_all fifo_do ops f1) as [rs f2]. destruct IH as (W2 & ->). done.
Qed.

(** C27: a fifo is a bounded queue of bytes: every sequence of puts, gets,
    resets and length queries on a new fifo gives the results it gives on a
    queue of at most [size] bytes, wherever the indices wrap. *)
Theorem kfifo_implements_queue alloc buf sz f ops :
  kfifo_init alloc buf sz = Fifo f -> Z.of_nat (length buf) = sz -> (exists n, 0 <= n <= 31 /\ sz = 2 ^ n) -> Forall op_ok ops ->
  exists rs f', do_all fifo_do ops f = (rs, f') /\ do_all (queue_do sz) ops [] = (rs, contents f').
Proof.
  intros E Hl Hn Hops. destruct (init_wf _ _ _ _ E Hl Hn) as [W Hc]. pose proof (ops_refine ops f W Hops) as H.
  assert (size f = sz) as Hsz. { unfold kfifo_init in E. destruct (truth _), (negb alloc); try done. by injection E as <-. }
  rewrite Hc, Hsz in H. destruct (do_all fifo_do ops f) as [rs f'] eqn:Ed. exists rs, f'. by destruct H as [_ ->].
Qed.

Lemma kfifo_implements_queue_witness :
  exists rs f', do_all fifo_do [Put [1; 2; 3] 3; Get 2; Put [4; 5; 6; 7] 4; Len; Get 9]
    {| buffer := [0; 0; 0; 0]; size := 4; k_in := 0; k_out := 0 |} = (rs, f') /\
  rs = [([], 3); ([1; 2], 2); ([], 3); ([], 4); ([3; 4; 5; 6], 4)].
Proof.
  destruct (kfifo_implements_queue true [0; 0; 0; 0] 4 _ [Put [1; 2; 3] 3; Get 2; Put [4; 5; 6; 7] 4; Len; Get 9] eq_refl)
    as (rs & f' & E & Eq); [done|by exists 2|repeat constructor; cbn; lia|].
  exists rs, f'. split; [exact E|]. apply (f_equal fst) in Eq. cbn [fst] in Eq. rewrite <- Eq. reflexivity.
Defined.

(** [kfifo_alloc] stops the kernel for every size that is not a power of
    two, although it has just rounded the size up: it passes the requested
    size on. *)
Theorem kfifo_alloc_rejects_other_sizes alloc2 heap sz :
  truth (Z.land sz (u32 (sz - 1))) = true ->
  kfifo_alloc true alloc2 heap sz = Bug.
Proof.
  intros H. unfold kfifo_alloc, kfifo_init. rewrite H. by destruct (true && _).
Qed.

Lemma kfifo_alloc_rejects_other_sizes_witness :
  kfifo_alloc true true (fun n => replicate (Z.to_nat n) 0) 5 = Bug /\ roundup_pow_of_two 5 = 8.
Proof. split; [apply kfifo_alloc_rejects_other_sizes|]; reflexivity. Defined.
