(* ===== verification/LibBitmap.v ===== *)
(** * lib/bitmap.c: bit maps as arrays of words

    A bit map is an array of 32-bit words ([BITS_PER_LONG] is 32).  The
    operations take pointers, and their callers pass the same map as source
    and destination, so the arrays live in a memory ([mem]) and an operation
    names them by their index in it: two arguments may be the same array. *)
From S2P Require Import Prelude.
From S2P Require Import BitOps.

Abbreviation mem := (list (list Z)).
Implicit Types (m : mem) (p d s : nat) (bits : Z).

(** [p[k]] and [p[k] = v]. *)
Definition word m p (k : nat) : Z := default 0 (m !! p ≫= (.!! k)).
Definition set_word m p (k : nat) (v : Z) : mem := alter (<[k := v]>) p m.

(** [for (k in ks) d[g(k)] = f(k);], each [f(k)] read from the memory the
    earlier iterations leave. *)
Definition fill (d : nat) (g : nat -> nat) (f : mem -> nat -> Z) (ks : list nat) m : mem :=
  foldl (fun m k => set_word m d (g k) (f m k)) m ks.

Definition lnot32 (w : Z) : Z := u32 (Z.lnot w).
Definition BITMAP_LAST_WORD_MASK bits : Z :=
  if truth (bits mod 32) then 2 ^ (bits mod 32) - 1 else 2 ^ 32 - 1.
Definition BITS_TO_LONGS bits : nat := Z.to_nat ((bits + 31) / 32).
Definition full_words bits : nat := Z.to_nat (bits / 32).

(** ** Predicates *)

(** The loop the predicates share: [true] when no full word stops it and the
    masked last word is zero. *)
Definition scan (stop : nat -> bool) (last : nat -> Z) bits : bool :=
  let lim := full_words bits in
  negb (existsb stop (seq 0 lim)) &&
  negb (truth (bits mod 32) && truth (Z.land (last lim) (BITMAP_LAST_WORD_MASK bits))).

Definition __bitmap_empty m p bits : Z :=
  of_bool (scan (fun k => truth (word m p k)) (word m p) bits).

Definition __bitmap_full m p bits : Z :=
  of_bool (scan (fun k => truth (lnot32 (word m p k))) (fun k => lnot32 (word m p k)) bits).

Definition __bitmap_equal m (p1 p2 : nat) bits : Z :=
  of_bool (scan (fun k => negb (word m p1 k =? word m p2 k))
    (fun k => Z.lxor (word m p1 k) (word m p2 k)) bits).

Definition __bitmap_intersects m (p1 p2 : nat) bits : Z :=
  of_bool (negb (scan (fun k => truth (Z.land (word m p1 k) (word m p2 k)))
    (fun k => Z.land (word m p1 k) (word m p2 k)) bits)).

Definition __bitmap_subset m (p1 p2 : nat) bits : Z :=
  of_bool (scan (fun k => truth (Z.land (word m p1 k) (lnot32 (word m p2 k))))
    (fun k => Z.land (word m p1 k) (lnot32 (word m p2 k))) bits).

Definition __bitmap_weight m p bits : Z :=
  let lim := full_words bits in
  let w := foldl (fun w k => w + generic_hweight32 (word m p k)) 0 (seq 0 lim) in
  if truth (bits mod 32)
  then w + generic_hweight32 (Z.land (word m p lim) (BITMAP_LAST_WORD_MASK bits)) else w.

(** ** Word-wise operations *)

Definition __bitmap_complement m d s bits : mem :=
  let lim := full_words bits in
  let m := fill d id (fun m k => lnot32 (word m s k)) (seq 0 lim) m in
  if truth (bits mod 32)
  then set_word m d lim (Z.land (lnot32 (word m s lim)) (BITMAP_LAST_WORD_MASK bits)) else m.

Definition __bitmap_and m d (p1 p2 : nat) bits : mem :=
  fill d id (fun m k => Z.land (word m p1 k) (word m p2 k)) (seq 0 (BITS_TO_LONGS bits)) m.

Definition __bitmap_or m d (p1 p2 : nat) bits : mem :=
  fill d id (fun m k => Z.lor (word m p1 k) (word m p2 k)) (seq 0 (BITS_TO_LONGS bits)) m.

Definition __bitmap_xor m d (p1 p2 : nat) bits : mem :=
  fill d id (fun m k => Z.lxor (word m p1 k) (word m p2 k)) (seq 0 (BITS_TO_LONGS bits)) m.

Definition __bitmap_andnot m d (p1 p2 : nat) bits : mem :=
  fill d id (fun m k => Z.land (word m p1 k) (lnot32 (word m p2 k))) (seq 0 (BITS_TO_LONGS bits)) m.

(** ** Shifts

    The bodies of the two loops compute the word that is stored; [shift] is
    between 0 and [bits].  A shift count of 32 only occurs on a zero word. *)
Definition shift_right_word (shift bits : Z) s m (k : nat) : Z :=
  let lim := BITS_TO_LONGS bits in
  let left := bits mod 32 in
  let off := Z.to_nat (shift / 32) in
  let rem := shift mod 32 in
  let mask := 2 ^ left - 1 in
  let upper :=
    if negb (truth rem) || Nat.leb lim (off + k + 1) then 0 else
    let upper := word m s (off + k + 1) in
    if Nat.eqb (off + k + 1) (lim - 1) && truth left then Z.land upper mask else upper in
  let lower := word m s (off + k) in
  let lower := if truth left && Nat.eqb (off + k) (lim - 1) then Z.land lower mask else lower in
  let w := Z.lor (u32 (Z.shiftl upper (32 - rem))) (Z.shiftr lower rem) in
  if truth left && Nat.eqb k (lim - 1) then Z.land w mask else w.

(** [memset(&d[from], 0, n * sizeof(unsigned long))] *)
Definition clear_words d (from n : nat) m : mem :=
  fill d id (fun _ _ => 0) (seq from n) m.

Definition __bitmap_shift_right m d s (shift bits : Z) : mem :=
  let lim := BITS_TO_LONGS bits in
  let off := Z.to_nat (shift / 32) in
  let m := fill d id (shift_right_word shift bits s) (seq 0 (lim - off)) m in
  if Nat.eqb off 0 then m else clear_words d (lim - off) off m.

Definition shift_left_word (shift bits : Z) s m (k : nat) : Z :=
  let lim := BITS_TO_LONGS bits in
  let left := bits mod 32 in
  let off := Z.to_nat (shift / 32) in
  let rem := shift mod 32 in
  let lower := if truth rem && Nat.ltb 0 k then word m s (k - 1) else 0 in
  let upper := word m s k in
  let upper := if truth left && Nat.eqb k (lim - 1) then Z.land upper (2 ^ left - 1) else upper in
  let w := Z.lor (Z.shiftr lower (32 - rem)) (u32 (Z.shiftl upper rem)) in
  if truth left && Nat.eqb (k + off) (lim - 1) then Z.land w (2 ^ left - 1) else w.

Definition __bitmap_shift_left m d s (shift bits : Z) : mem :=
  let lim := BITS_TO_LONGS bits in
  let off := Z.to_nat (shift / 32) in
  let m := fill d (fun k => k + off)%nat (shift_left_word shift bits s) (reverse (seq 0 (lim - off))) m in
  if Nat.eqb off 0 then m else clear_words d 0 off m.

(** ** Regions *)

(** [(1ul << (pages - 1))], doubled less one: a mask of [pages] ones. *)
Definition region_mask (pages : Z) : Z :=
  let mask := u32 (Z.shiftl 1 (pages - 1)) in u32 (mask + (mask - 1)).

(** The search, [n] candidate regions from bit [i] on. *)
Fixpoint find_free (m : mem) (p : nat) (mask pages i : Z) (n : nat) : Z * mem :=
  match n with
  | O => (- ENOMEM, m)
  | S n =>
      let index := Z.to_nat (i / 32) in
      let offset := i - i / 32 * 32 in
      if Z.land (word m p index) (u32 (Z.shiftl mask offset)) =? 0
      then (i, set_word m p index (Z.lor (word m p index) (u32 (Z.shiftl mask offset))))
      else find_free m p mask pages (i + pages) n
  end.

(** [order] is between 0 and 30, so [1 << order] does not overflow; the loop
    [for (i = 0; i < bits; i += pages)] runs [bits / pages] times, rounded
    up. *)
Definition bitmap_find_free_region m p bits (order : Z) : Z * mem :=
  let pages := Z.shiftl 1 order in
  if 32 <? pages then (- EINVAL, m)
  else find_free m p (region_mask pages) pages 0 (Z.to_nat ((bits + pages - 1) / pages)).

Definition bitmap_release_region m p (pos order : Z) : mem :=
  let pages := Z.shiftl 1 order in
  let index := Z.to_nat (pos / 32) in
  let offset := pos - pos / 32 * 32 in
  set_word m p index (Z.land (word m p index) (lnot32 (u32 (Z.shiftl (region_mask pages) offset)))).

(** [None] is the [BUG_ON] of a region of more than a word. *)
Definition bitmap_allocate_region m p (pos order : Z) : option (Z * mem) :=
  let pages := Z.shiftl 1 order in
  let index := Z.to_nat (pos / 32) in
  let offset := pos - pos / 32 * 32 in
  if 32 <? pages then None else
  let mask := region_mask pages in
  if truth (Z.land (word m p index) (u32 (Z.shiftl mask offset))) then Some (- EBUSY, m)
  else Some (0, set_word m p index (Z.lor (word m p index) (u32 (Z.shiftl mask offset)))).
