(* ===== verification/LibBitmapTheorems.v ===== *)
(** * Bit maps, bit by bit

    [bit m p i] is bit [i] of the map at [p]; every operation of
    lib/bitmap.c is characterised by the bits of its result, also when its
    arguments are the same array. *)
From S2P Require Import Prelude.
From S2P Require Import BitOps.
From S2P Require Import LibBitmap.
From Stdlib Require Import ZifyNat.

Ltac Zify.zify_post_hook ::= Z.to_euclidean_division_equations.

Definition bit (m : mem) (p : nat) (i : Z) : bool := Z.testbit (word m p (Z.to_nat (i / 32))) (i mod 32).

Definition len (m : mem) (p : nat) : nat := default 0%nat (length <$> m !! p).

(** Enough words for [bits] bits, each within its width. *)
Definition map_ok (m : mem) (p : nat) (bits : Z) : Prop :=
  (BITS_TO_LONGS bits <= len m p)%nat /\ forall k, 0 <= word m p k < 2 ^ 32.

(** The number of indices below [n] at which [f] holds. *)
Fixpoint count (f : Z -> bool) (n : nat) : Z :=
  match n with O => 0 | S n => Z.b2z (f (Z.of_nat n)) + count f n end.

(** ** Words and memory *)

Lemma len_set_word m p q k v : len (set_word m p k v) q = len m q.
Proof.
  unfold len, set_word. destruct (decide (p = q)) as [->|].
  - rewrite list_lookup_alter_eq. destruct (m !! q); simpl; [|done]. by rewrite length_insert.
  - by rewrite list_lookup_alter_ne.
Qed.

Lemma word_set_word m p k v : (k < len m p)%nat -> word (set_word m p k v) p k = v.
Proof.
  unfold len, word, set_word. rewrite list_lookup_alter_eq. intros H.
  destruct (m !! p); simpl in *; [|lia]. by rewrite list_lookup_insert_eq.
Qed.

Lemma word_set_word_ne m p k v q j :
  (q = p -> j <> k) -> word (set_word m p k v) q j = word m q j.
Proof.
  intros Hne. unfold word, set_word. destruct (decide (q = p)) as [->|].
  - rewrite list_lookup_alter_eq. destruct (m !! p); simpl; [|done].
    rewrite list_lookup_insert_ne; [done|]. intros ->. by apply Hne.
  - by rewrite list_lookup_alter_ne.
Qed.

(** A loop whose body does not read what earlier iterations have written
    stores what it would read from the initial memory. *)
Lemma fill_spec d g f ks m :
  (forall k, k ∈ ks -> (g k < len m d)%nat) ->
  NoDup (g <$> ks) ->
  (forall l1 k l2 m', ks = l1 ++ k :: l2 ->
     (forall q j, (q = d -> j ∉ (g <$> l1)) -> word m' q j = word m q j) -> f m' k = f m k) ->
  (forall k, k ∈ ks -> word (fill d g f ks m) d (g k) = f m k) /\
  (forall q j, (q = d -> j ∉ (g <$> ks)) -> word (fill d g f ks m) q j = word m q j) /\
  (forall q, len (fill d g f ks m) q = len m q).
Proof.
  induction ks as [|k ks IH] using rev_ind; intros Hlen Hnd Hst.
  { split_and!; [intros ? []%elem_of_nil|done..]. }
  rewrite fmap_app in Hnd. apply NoDup_app in Hnd as (Hnd & Hnk & _).
  destruct IH as (IH1 & IH2 & IH3).
  { intros. apply Hlen, elem_of_app. by left. }
  { done. }
  { intros l1 k' l2 m' -> Hm. apply (Hst l1 k' (l2 ++ [k])); [by rewrite <- app_assoc|done]. }
  unfold fill in *. rewrite foldl_app. simpl. set (m1 := foldl _ m ks) in *.
  assert (g k < len m1 d)%nat as Hk.
  { rewrite IH3. apply Hlen, elem_of_app. right. by apply list_elem_of_singleton. }
  assert (f m1 k = f m k) as Hf by (by apply (Hst ks k [])). split_and!.
  - intros k' [Hk'|Hk']%elem_of_app.
    + rewrite word_set_word_ne; [by apply IH1|]. intros _ E.
      apply (Hnk (g k')); [by apply list_elem_of_fmap_2|]. rewrite E. by apply list_elem_of_singleton.
    + apply list_elem_of_singleton in Hk' as ->. by rewrite word_set_word.
  - intros q j Hq. rewrite fmap_app in Hq. rewrite word_set_word_ne.
    + apply IH2. intros E Hj. apply (Hq E), elem_of_app. by left.
    + intros E ->. apply (Hq E), elem_of_app. right. by apply list_elem_of_singleton.
  - intros q. by rewrite len_set_word.
Qed.

(** The same for loops over an interval. *)
Lemma fill_seq d f a n m :
  (a + n <= len m d)%nat ->
  (forall k m', (a <= k < a + n)%nat ->
     (forall q j, (q = d -> k <= j)%nat -> word m' q j = word m q j) -> f m' k = f m k) ->
  (forall k, (a <= k < a + n)%nat -> word (fill d id f (seq a n) m) d k = f m k) /\
  (forall q j, (q = d -> ~ (a <= j < a + n))%nat -> word (fill d id f (seq a n) m) q j = word m q j) /\
  (forall q, len (fill d id f (seq a n) m) q = len m q).
Proof.
  intros Hlen Hst. destruct (fill_spec d id f (seq a n) m) as (H1 & H2 & H3).
  { intros k Hk%elem_of_seq. unfold id. lia. }
  { rewrite list_fmap_id. apply NoDup_seq. }
  { intros l1 k l2 m' E Hm. assert (k ∈ seq a n) as Hk%elem_of_seq.
    { rewrite E. apply elem_of_app. right. by left. }
    apply Hst; [lia|]. intros q j Hj. apply Hm. intros -> Hin. rewrite list_fmap_id in Hin.
    assert (j < k)%nat; [|specialize (Hj eq_refl); lia].
    apply list_elem_of_lookup in Hin as [i Hi].
    assert (seq a n !! i = Some j) as [-> ?]%lookup_seq by (rewrite E; by apply lookup_app_l_Some).
    assert (seq a n !! length l1 = Some k) as [-> ?]%lookup_seq by (rewrite E; by apply list_lookup_middle).
    apply lookup_lt_Some in Hi. lia. }
  rewrite list_fmap_id in H2. split_and!; [|intros; apply H2|done].
  - intros k Hk. apply H1, elem_of_seq. lia.
  - intros E Hj%elem_of_seq. naive_solver lia.
Qed.

(** A downward loop that writes [off] words above what it reads. *)
Lemma fill_down d f off n m :
  (n + off <= len m d)%nat ->
  (forall k m', (forall q j, (q = d -> j <= k + off)%nat -> word m' q j = word m q j) -> f m' k = f m k) ->
  let m' := fill d (fun k => k + off)%nat f (reverse (seq 0 n)) m in
  (forall k, (k < n)%nat -> word m' d (k + off) = f m k) /\
  (forall q j, (q = d -> ~ (off <= j < off + n))%nat -> word m' q j = word m q j) /\
  (forall q, len m' q = len m q).
Proof.
  intros Hlen Hst. destruct (fill_spec d (fun k => k + off)%nat f (reverse (seq 0 n)) m) as (H1 & H2 & H3).
  { intros k Hk%elem_of_reverse%elem_of_seq. lia. }
  { apply NoDup_fmap; [intros ???; lia|]. rewrite reverse_Permutation. apply NoDup_seq. }
  { intros l1 k l2 m' E Hm. apply Hst. intros q j Hj. apply Hm.
    intros -> (k' & -> & Hin)%list_elem_of_fmap. specialize (Hj eq_refl).
    assert (k < k')%nat; [|lia].
    apply (f_equal reverse) in E. rewrite reverse_involutive, reverse_app, reverse_cons, <- app_assoc in E.
    apply elem_of_reverse, list_elem_of_lookup in Hin as [i Hi].
    assert (seq 0 n !! length (reverse l2) = Some k) as [? _]%lookup_seq by (rewrite E; by apply list_lookup_middle).
    assert (seq 0 n !! (length (reverse l2) + S i)%nat = Some k') as [? _]%lookup_seq; [|lia].
    rewrite E, lookup_app_r by lia. by replace (length (reverse l2) + S i - length (reverse l2))%nat with (S i) by lia. }
  split_and!; [intros k Hk; by apply (H1 k), elem_of_reverse, elem_of_seq; lia| |done].
  intros q j Hq. apply H2. intros E (k & -> & Hk%elem_of_reverse%elem_of_seq)%list_elem_of_fmap. naive_solver lia.
Qed.

(** ** Bits of words *)

Lemma lnot32_range w : 0 <= lnot32 w < 2 ^ 32.
Proof. apply u32_range. Qed.

Lemma lnot32_bit w j : 0 <= j < 32 -> Z.testbit (lnot32 w) j = negb (Z.testbit w j).
Proof.
  intros Hj. unfold lnot32, u32. rewrite Z.mod_pow2_bits_low by lia. by rewrite Z.lnot_spec by lia.
Qed.

Lemma ones_bit r j : 0 <= r -> 0 <= j -> Z.testbit (2 ^ r - 1) j = (j <? r).
Proof.
  intros Hr Hj. replace (2 ^ r - 1) with (Z.ones r) by (rewrite Z.ones_equiv; lia).
  destruct (Z.ltb_spec j r); [by apply Z.ones_spec_low|by apply Z.ones_spec_high].
Qed.

Lemma high_bit w j : 0 <= w < 2 ^ 32 -> 32 <= j -> Z.testbit w j = false.
Proof.
  intros Hw Hj. rewrite <- (Z.mod_small w (2 ^ 32)) by lia. apply Z.mod_pow2_bits_high. lia.
Qed.

Lemma bitwise_range (w : Z) : 0 <= w -> (forall j, 32 <= j -> Z.testbit w j = false) -> w < 2 ^ 32.
Proof.
  intros H0 Hb. destruct (Z.eq_dec w 0) as [->|]; [lia|]. apply Z.log2_lt_pow2; [lia|].
  destruct (Z.lt_ge_cases (Z.log2 w) 32) as [|Hge]; [done|].
  specialize (Hb _ Hge). by rewrite Z.bit_log2 in Hb by lia.
Qed.

Lemma truth_false w : truth w = false <-> w = 0.
Proof. unfold truth. rewrite negb_false_iff. apply Z.eqb_eq. Qed.

(** A word with no bit set below [r], under the mask of the [r] low bits. *)
Lemma masked_zero w r :
  0 <= r -> truth (Z.land w (2 ^ r - 1)) = false <-> forall j, 0 <= j < r -> Z.testbit w j = false.
Proof.
  intros Hr. rewrite truth_false. split.
  - intros E j Hj. apply (f_equal (fun x => Z.testbit x j)) in E.
    rewrite Z.land_spec, ones_bit, Z.bits_0 in E by lia. destruct (Z.ltb_spec j r); [|lia].
    by rewrite andb_true_r in E.
  - intros H. apply Z.bits_inj'. intros j Hj. rewrite Z.land_spec, ones_bit, Z.bits_0 by lia.
    destruct (Z.ltb_spec j r); [|by rewrite andb_false_r]. by rewrite H by lia.
Qed.

Lemma word_zero w :
  0 <= w < 2 ^ 32 -> truth w = false <-> forall j, 0 <= j < 32 -> Z.testbit w j = false.
Proof.
  intros Hw. rewrite <- (masked_zero w 32) by lia.
  replace (2 ^ 32 - 1) with (Z.ones 32) by reflexivity. rewrite Z.land_ones, Z.mod_small by lia. done.
Qed.

Lemma existsb_none {A} (f : A -> bool) l : existsb f l = false <-> forall x, x ∈ l -> f x = false.
Proof.
  induction l as [|y l IH]; simpl; [set_solver|]. rewrite orb_false_iff, IH. set_solver.
Qed.

(** The shared loop decides that no bit of [last] is set. *)
Lemma scan_spec stop last bits :
  0 <= bits -> (forall k, 0 <= last k < 2 ^ 32) -> (forall k, stop k = truth (last k)) ->
  scan stop last bits = true <->
  forall i, 0 <= i < bits -> Z.testbit (last (Z.to_nat (i / 32))) (i mod 32) = false.
Proof.
  intros Hb Hr Hstop. unfold scan, full_words.
  rewrite andb_true_iff, !negb_true_iff, andb_false_iff, existsb_none. split.
  - intros [Hfull Hlast] i Hi. destruct (Z.lt_ge_cases (i / 32) (bits / 32)).
    + assert (stop (Z.to_nat (i / 32)) = false) as Hs by (apply Hfull, elem_of_seq; lia).
      rewrite Hstop in Hs. apply word_zero; [done..|lia].
    + assert (bits mod 32 <> 0) by lia. destruct Hlast as [E|E]; [by apply truth_false in E|].
      unfold BITMAP_LAST_WORD_MASK in E. destruct (truth (bits mod 32)) eqn:T; [|by apply truth_false in T].
      rewrite masked_zero in E by lia. replace (i / 32) with (bits / 32) by lia. apply E. lia.
  - intros H. split.
    + intros k Hk%elem_of_seq. rewrite Hstop, word_zero by done.
      intros j Hj. specialize (H (32 * Z.of_nat k + j)).
      replace ((32 * Z.of_nat k + j) / 32) with (Z.of_nat k) in H by lia.
      replace ((32 * Z.of_nat k + j) mod 32) with j in H by lia. rewrite Nat2Z.id in H. apply H. lia.
    + destruct (truth (bits mod 32)) eqn:T; [right|by left].
      unfold BITMAP_LAST_WORD_MASK. rewrite T. apply masked_zero; [lia|]. intros j Hj.
      specialize (H (32 * (bits / 32) + j)).
      replace ((32 * (bits / 32) + j) / 32) with (bits / 32) in H by lia.
      replace ((32 * (bits / 32) + j) mod 32) with j in H by lia. apply H. lia.
Qed.

(** ** Word-wise results *)

Lemma word_of_bit m p bits k :
  map_ok m p bits -> 0 <= word m p k < 2 ^ 32.
Proof. intros [_ H]. apply H. Qed.
#[local] Hint Resolve word_of_bit lnot32_range : kernel.

Lemma land_range v w : 0 <= v < 2 ^ 32 -> 0 <= Z.land v w < 2 ^ 32.
Proof.
  intros Hv. assert (0 <= Z.land v w) by (apply Z.land_nonneg; lia). split; [done|].
  apply bitwise_range; [done|]. intros j Hj. rewrite Z.land_spec, (high_bit v) by done. done.
Qed.

Lemma lxor_range v w : 0 <= v < 2 ^ 32 -> 0 <= w < 2 ^ 32 -> 0 <= Z.lxor v w < 2 ^ 32.
Proof.
  intros Hv Hw. assert (0 <= Z.lxor v w) by (apply Z.lxor_nonneg; lia). split; [done|].
  apply bitwise_range; [done|]. intros j Hj. by rewrite Z.lxor_spec, !high_bit by done.
Qed.
#[local] Hint Resolve land_range lxor_range : kernel.

(** A loop that combines the words at [k] bit by bit combines the maps bit by
    bit. *)
Lemma fill_bitwise (f : mem -> nat -> Z) (h : Z -> bool) m d bits i :
  map_ok m d bits -> 0 <= i < bits ->
  (forall k m', (forall q j, (q = d -> k <= j)%nat -> word m' q j = word m q j) -> f m' k = f m k) ->
  (forall i, 0 <= i < bits -> Z.testbit (f m (Z.to_nat (i / 32))) (i mod 32) = h i) ->
  bit (fill d id f (seq 0 (BITS_TO_LONGS bits)) m) d i = h i.
Proof.
  intros [Hlen Hr] Hi Hst Hh. unfold bit.
  destruct (fill_seq d f 0 (BITS_TO_LONGS bits) m) as (H1 & _ & _); [lia|by auto|].
  rewrite H1 by (unfold BITS_TO_LONGS; lia). by apply Hh.
Qed.

Lemma bool_eq_false (b : bool) (P : Prop) : (b = true <-> P) -> of_bool b = 1 <-> P.
Proof. intros <-. by destruct b. Qed.

Lemma negb_of_bool (b : bool) (P : Prop) : (b = true <-> P) -> of_bool (negb b) = 0 <-> P.
Proof. intros <-. by destruct b. Qed.

Lemma eq_words_zero v w : negb (v =? w) = truth (Z.lxor v w).
Proof.
  unfold truth. f_equal. destruct (Z.eqb_spec v w) as [->|Hne].
  - by rewrite Z.lxor_nilpotent.
  - symmetry. apply Z.eqb_neq. intros E. by apply Hne, Z.lxor_eq.
Qed.

(** ** Weight *)

Lemma count_ext f g n : (forall i, 0 <= i < Z.of_nat n -> f i = g i) -> count f n = count g n.
Proof.
  induction n as [|n IH]; intros H; simpl; [done|]. rewrite H, IH by (intros; try apply H; lia). done.
Qed.

Lemma count_app f a b : count f (a + b) = count f a + count (fun i => f (Z.of_nat a + i)) b.
Proof.
  induction b as [|b IH]; [rewrite Nat.add_0_r; simpl; lia|].
  rewrite Nat.add_succ_r. simpl. rewrite IH. replace (Z.of_nat (a + b)) with (Z.of_nat a + Z.of_nat b) by lia. lia.
Qed.

Lemma popcount_count n w : popcount n w = count (Z.testbit w) n.
Proof. induction n as [|n IH]; simpl; [done|]. by rewrite IH. Qed.

Lemma count_false f a b : (forall i, Z.of_nat a <= i -> f i = false) -> (a <= b)%nat -> count f b = count f a.
Proof.
  intros Hf Hab. induction Hab as [|b Hab IH]; [done|]. simpl. rewrite Hf by lia. done.
Qed.

(** The loop over the full words counts the bits of the first [n] words. *)
Lemma weight_words m p bits n :
  map_ok m p bits ->
  foldl (fun w k => w + generic_hweight32 (word m p k)) 0 (seq 0 n) = count (bit m p) (32 * n).
Proof.
  intros Hok. induction n as [|n IH]; [done|].
  rewrite seq_S, foldl_app, IH. simpl foldl. replace (32 * S n)%nat with (32 * n + 32)%nat by lia.
  rewrite (count_app _ (32 * n)), generic_hweight32_spec, popcount_count by (by eauto with kernel). f_equal.
  apply count_ext. intros i Hi. unfold bit.
  replace ((Z.of_nat (32 * n) + i) / 32) with (Z.of_nat n) by lia.
  replace ((Z.of_nat (32 * n) + i) mod 32) with i by lia. by rewrite Nat2Z.id.
Qed.

Lemma weight_spec m p bits :
  0 <= bits -> map_ok m p bits -> __bitmap_weight m p bits = count (bit m p) (Z.to_nat bits).
Proof.
  intros Hb Hok. unfold __bitmap_weight. rewrite (weight_words _ _ _ _ Hok). unfold full_words.
  destruct (truth (bits mod 32)) eqn:T.
  2: { apply truth_false in T. f_equal. lia. }
  assert (bits mod 32 <> 0) by (intros E; by rewrite E in T).
  replace (Z.to_nat bits) with (32 * Z.to_nat (bits / 32) + Z.to_nat (bits mod 32))%nat by lia.
  rewrite (count_app _ (32 * _)), generic_hweight32_spec, popcount_count by (by eauto with kernel). f_equal.
  unfold BITMAP_LAST_WORD_MASK. rewrite T.
  rewrite (count_false _ (Z.to_nat (bits mod 32)) 32); [|intros i Hi|lia].
  - apply count_ext. intros i Hi. unfold bit. rewrite Z.land_spec, ones_bit by lia.
    replace ((Z.of_nat (32 * Z.to_nat (bits / 32)) + i) / 32) with (bits / 32) by lia.
    replace ((Z.of_nat (32 * Z.to_nat (bits / 32)) + i) mod 32) with i by lia.
    destruct (Z.ltb_spec i (bits mod 32)); [|lia]. by rewrite andb_true_r.
  - rewrite Z.land_spec, ones_bit by lia. destruct (Z.ltb_spec i (bits mod 32)); [lia|]. by rewrite andb_false_r.
Qed.

(** ** Complement *)

Lemma complement_spec m d s bits i :
  map_ok m d bits -> 0 <= i < bits -> bit (__bitmap_complement m d s bits) d i = negb (bit m s i).
Proof.
  intros [Hlen _] Hi. unfold __bitmap_complement, bit.
  destruct (fill_seq d (fun m k => lnot32 (word m s k)) 0 (full_words bits) m) as (H1 & H2 & H3).
  { unfold full_words, BITS_TO_LONGS in *. lia. }
  { intros k m' _ Hm. by rewrite Hm. }
  set (m1 := fill _ _ _ _ _) in *.
  destruct (truth (bits mod 32)) eqn:T.
  - destruct (Z.lt_ge_cases (i / 32) (bits / 32)).
    + rewrite word_set_word_ne by (unfold full_words; lia).
      rewrite H1, lnot32_bit by (unfold full_words; lia). done.
    + replace (i / 32) with (bits / 32) by lia. fold (full_words bits).
      assert (bits mod 32 <> 0) by (intros E; by rewrite E in T).
      rewrite word_set_word by (rewrite H3; unfold full_words, BITS_TO_LONGS in *; lia).
      unfold BITMAP_LAST_WORD_MASK. rewrite T, Z.land_spec, ones_bit, lnot32_bit, H2 by lia.
      destruct (Z.ltb_spec (i mod 32) (bits mod 32)); [|lia]. by rewrite andb_true_r.
  - apply truth_false in T. rewrite H1, lnot32_bit by (unfold full_words; lia). done.
Qed.

(** ** Shifts *)

Lemma mask_if_bit (b : bool) w l j :
  0 <= l -> 0 <= j ->
  Z.testbit (if b then Z.land w (2 ^ l - 1) else w) j = Z.testbit w j && (negb b || (j <? l)).
Proof.
  intros Hl Hj. destruct b; simpl; [|by rewrite andb_true_r]. by rewrite Z.land_spec, ones_bit.
Qed.

Lemma shiftl32_bit w n j : 0 <= j < 32 -> Z.testbit (u32 (Z.shiftl w n)) j = Z.testbit w (j - n).
Proof. intros Hj. unfold u32. rewrite Z.mod_pow2_bits_low by lia. by rewrite Z.shiftl_spec by lia. Qed.

Lemma truth_spec x : truth x = true <-> x <> 0.
Proof. unfold truth. rewrite negb_true_iff. apply Z.eqb_neq. Qed.

(** Boolean guards of the shifts as propositions for [lia]. *)
Ltac split_guards :=
  repeat match goal with
  | |- context [truth ?x] => let E := fresh "T" in destruct (truth x) eqn:E;
      [apply truth_spec in E|apply truth_false in E]
  | |- context [Nat.eqb ?x ?y] => destruct (Nat.eqb_spec x y)
  | |- context [Nat.leb ?x ?y] => destruct (Nat.leb_spec x y)
  | |- context [Nat.ltb ?x ?y] => destruct (Nat.ltb_spec x y)
  | |- context [Z.ltb ?x ?y] => destruct (Z.ltb_spec x y)
  | |- context [Z.leb ?x ?y] => destruct (Z.leb_spec x y)
  end.

Lemma shift_right_bit m s shift bits k j :
  (forall k, 0 <= word m s k < 2 ^ 32) -> 0 <= shift <= bits -> 0 <= j < 32 ->
  32 * Z.of_nat k + j < bits -> (k < BITS_TO_LONGS bits - Z.to_nat (shift / 32))%nat ->
  Z.testbit (shift_right_word shift bits s m k) j =
  (if 32 * Z.of_nat k + j + shift <? bits then bit m s (32 * Z.of_nat k + j + shift) else false).
Proof.
  intros Hr Hsh Hj Hi Hk. unfold shift_right_word, bit.
  rewrite mask_if_bit, Z.lor_spec, shiftl32_bit, Z.shiftr_spec, mask_if_bit by lia.
  set (off := Z.to_nat (shift / 32)) in *. assert (Z.of_nat off = shift / 32) by lia.
  set (lim := BITS_TO_LONGS bits) in *. assert (Z.of_nat lim = (bits + 31) / 32) by (unfold lim, BITS_TO_LONGS; lia).
  destruct (Z.lt_ge_cases (j + shift mod 32) 32) as [Hlow|Hhigh].
  - rewrite (Z.testbit_neg_r _ (j - _)) by lia. simpl orb.
    replace ((32 * Z.of_nat k + j + shift) / 32) with (Z.of_nat (off + k)) by lia.
    replace ((32 * Z.of_nat k + j + shift) mod 32) with (j + shift mod 32) by lia. rewrite Nat2Z.id.
    split_guards; simpl; rewrite ?andb_true_r, ?andb_false_r; done || lia.
  - rewrite (high_bit _ (j + _)) by (done || lia). rewrite orb_false_r.
    replace ((32 * Z.of_nat k + j + shift) / 32) with (Z.of_nat (off + k + 1)) by lia.
    replace ((32 * Z.of_nat k + j + shift) mod 32) with (j - (32 - shift mod 32)) by lia. rewrite Nat2Z.id.
    destruct (negb (truth (shift mod 32)) || Nat.leb lim (off + k + 1)) eqn:G.
    + rewrite Z.bits_0. simpl. destruct (Z.ltb_spec (32 * Z.of_nat k + j + shift) bits); [|done].
      revert G. split_guards; simpl; intros; done || lia.
    + rewrite mask_if_bit by lia. revert G. split_guards; simpl; rewrite ?andb_true_r, ?andb_false_r; done || lia.
Qed.

Lemma shift_right_spec m d s shift bits i :
  map_ok m d bits -> map_ok m s bits -> 0 <= shift <= bits -> 0 <= i < bits ->
  bit (__bitmap_shift_right m d s shift bits) d i = (if i + shift <? bits then bit m s (i + shift) else false).
Proof.
  intros [Hlen _] [_ Hr] Hsh Hi. unfold __bitmap_shift_right.
  set (lim := BITS_TO_LONGS bits) in *. set (off := Z.to_nat (shift / 32)).
  assert (Z.of_nat lim = (bits + 31) / 32) by (unfold lim, BITS_TO_LONGS; lia).
  assert (Z.of_nat off = shift / 32) by lia.
  destruct (fill_seq d (shift_right_word shift bits s) 0 (lim - off) m) as (H1 & H2 & H3); [lia| |].
  { intros k m' _ Hm. unfold shift_right_word. fold off. rewrite !Hm by lia. done. }
  set (m1 := fill _ _ _ _ _) in *.
  destruct (fill_seq d (fun _ _ => 0) (lim - off) off m1) as (C1 & C2 & _); [rewrite H3; lia|done|].
  set (k := Z.to_nat (i / 32)). assert (i = 32 * Z.of_nat k + i mod 32) as E by lia.
  destruct (Nat.lt_ge_cases k (lim - off)) as [Hk|Hk].
  - assert (word (if Nat.eqb off 0 then m1 else clear_words d (lim - off) off m1) d k =
      shift_right_word shift bits s m k) as Hw.
    { destruct (Nat.eqb_spec off 0); [apply H1; lia|]. unfold clear_words. rewrite C2 by lia. apply H1. lia. }
    unfold bit at 1. fold k. rewrite Hw, shift_right_bit by (done || lia). by rewrite <- E.
  - destruct (Z.ltb_spec (i + shift) bits); [lia|].
    destruct (Nat.eqb_spec off 0); [lia|]. unfold bit, clear_words. fold k.
    rewrite C1 by lia. apply Z.bits_0.
Qed.

Lemma shift_left_bit m s shift bits k j :
  (forall k, 0 <= word m s k < 2 ^ 32) -> 0 <= shift <= bits -> 0 <= j < 32 ->
  32 * Z.of_nat (k + Z.to_nat (shift / 32)) + j < bits ->
  Z.testbit (shift_left_word shift bits s m k) j =
  (let i := 32 * Z.of_nat (k + Z.to_nat (shift / 32)) + j in
   if shift <=? i then bit m s (i - shift) else false).
Proof.
  intros Hr Hsh Hj Hi. unfold shift_left_word, bit.
  rewrite mask_if_bit, Z.lor_spec, shiftl32_bit, Z.shiftr_spec by lia.
  set (off := Z.to_nat (shift / 32)) in *. assert (Z.of_nat off = shift / 32) by lia. cbv zeta.
  set (lim := BITS_TO_LONGS bits) in *. assert (Z.of_nat lim = (bits + 31) / 32) by (unfold lim, BITS_TO_LONGS; lia).
  destruct (Z.lt_ge_cases j (shift mod 32)) as [Hlow|Hhigh].
  - rewrite (Z.testbit_neg_r _ (j - _)) by lia. rewrite orb_false_r.
    replace ((32 * Z.of_nat (k + off) + j - shift) / 32) with (Z.of_nat k - 1) by lia.
    replace ((32 * Z.of_nat (k + off) + j - shift) mod 32) with (j + (32 - shift mod 32)) by lia.
    replace (Z.to_nat (Z.of_nat k - 1)) with (k - 1)%nat by lia.
    split_guards; simpl; rewrite ?Z.bits_0, ?andb_true_r, ?andb_false_r; done || lia.
  - replace ((32 * Z.of_nat (k + off) + j - shift) / 32) with (Z.of_nat k) by lia.
    replace ((32 * Z.of_nat (k + off) + j - shift) mod 32) with (j - shift mod 32) by lia. rewrite Nat2Z.id.
    assert (Z.testbit (if truth (shift mod 32) && Nat.ltb 0 k then word m s (k - 1) else 0)
      (j + (32 - shift mod 32)) = false) as ->.
    { apply high_bit; [case_match; [done|lia]|lia]. }
    rewrite mask_if_bit by lia. simpl orb.
    split_guards; simpl; rewrite ?andb_true_r, ?andb_false_r; done || lia.
Qed.

Lemma shift_left_spec m d s shift bits i :
  map_ok m d bits -> map_ok m s bits -> 0 <= shift <= bits -> 0 <= i < bits ->
  bit (__bitmap_shift_left m d s shift bits) d i = (if shift <=? i then bit m s (i - shift) else false).
Proof.
  intros [Hlen _] [_ Hr] Hsh Hi. unfold __bitmap_shift_left.
  set (lim := BITS_TO_LONGS bits) in *. set (off := Z.to_nat (shift / 32)).
  assert (Z.of_nat lim = (bits + 31) / 32) by (unfold lim, BITS_TO_LONGS; lia).
  assert (Z.of_nat off = shift / 32) by lia.
  destruct (fill_down d (shift_left_word shift bits s) off (lim - off) m) as (H1 & H2 & H3); [lia| |].
  { intros k m' Hm. unfold shift_left_word. rewrite !Hm by lia. done. }
  set (m1 := fill _ _ _ _ _) in *.
  destruct (fill_seq d (fun _ _ => 0) 0 off m1) as (C1 & C2 & _); [rewrite H3; lia|done|].
  set (k := Z.to_nat (i / 32)). assert (i = 32 * Z.of_nat k + i mod 32) as E by lia.
  destruct (Nat.le_gt_cases off k) as [Hk|Hk].
  - assert (word (if Nat.eqb off 0 then m1 else clear_words d 0 off m1) d k =
      shift_left_word shift bits s m (k - off)) as Hw.
    { replace k with (k - off + off)%nat at 1 by lia. rewrite <- H1 by lia.
      destruct (Nat.eqb_spec off 0); [done|]. unfold clear_words. apply C2. lia. }
    unfold bit at 1. fold k. rewrite Hw, shift_left_bit by (done || fold off; lia). fold off.
    by replace (32 * Z.of_nat (k - off + off) + i mod 32) with i by lia.
  - destruct (Z.leb_spec shift i); [lia|].
    destruct (Nat.eqb_spec off 0); [lia|]. unfold bit, clear_words. fold k. rewrite C1 by lia. apply Z.bits_0.
Qed.

(** ** Regions of a bit map: search, allocation and release *)
Ltac Zify.zify_post_hook ::= Z.to_euclidean_division_equations.

(** The bits [i], ..., [i + n - 1] are clear. *)
Definition free (m : mem) (p : nat) (i n : Z) : Prop := forall j, i <= j < i + n -> bit m p j = false.

Definition in_region (pos pages j : Z) : bool := (pos <=? j) && (j <? pos + pages).

Lemma region_mask_ones pages : 1 <= pages <= 32 -> region_mask pages = 2 ^ pages - 1.
Proof.
  intros Hp. unfold region_mask. rewrite Z.shiftl_1_l.
  assert (2 ^ pages = 2 * 2 ^ (pages - 1)) as E.
  { rewrite <- Z.pow_succ_r by lia. f_equal. lia. }
  assert (0 < 2 ^ (pages - 1)) by (apply Z.pow_pos_nonneg; lia).
  assert (2 ^ (pages - 1) <= 2 ^ 31) by (apply Z.pow_le_mono_r; lia).
  rewrite (u32_small (2 ^ _)), u32_small by lia. lia.
Qed.

(** The mask of a region, bit by bit; the region stays within a word. *)
Section region.
Context (pos pages : Z) (Hpos : 0 <= pos) (Hpages : 1 <= pages) (Hfit : pos mod 32 + pages <= 32).

Definition placed : Z := u32 (Z.shiftl (region_mask pages) (pos - pos / 32 * 32)).

Lemma placed_bit j : 0 <= j < 32 -> Z.testbit placed j = in_region (pos mod 32) pages j.
Proof using Hpos Hpages Hfit.
  intros Hj. unfold placed, in_region. rewrite shiftl32_bit, region_mask_ones by lia.
  replace (pos - pos / 32 * 32) with (pos mod 32) by lia.
  destruct (Z.leb_spec (pos mod 32) j); simpl.
  - rewrite ones_bit by lia. destruct (Z.ltb_spec (j - pos mod 32) pages), (Z.ltb_spec j (pos mod 32 + pages)); lia || done.
  - by rewrite Z.testbit_neg_r by lia.
Qed.

Lemma placed_range : 0 <= placed < 2 ^ 32.
Proof using. apply u32_range. Qed.

(** The test of the code: the region is free. *)
Lemma region_test m p :
  (forall k, 0 <= word m p k < 2 ^ 32) ->
  (Z.land (word m p (Z.to_nat (pos / 32))) placed = 0 <-> free m p pos pages).
Proof using Hpos Hpages Hfit.
  intros Hr. unfold free, bit. split.
  - intros E j Hj. apply (f_equal (fun x => Z.testbit x (j mod 32))) in E.
    rewrite Z.land_spec, placed_bit, Z.bits_0 in E by lia. unfold in_region in E.
    replace (j / 32) with (pos / 32) by lia.
    destruct (Z.leb_spec (pos mod 32) (j mod 32)), (Z.ltb_spec (j mod 32) (pos mod 32 + pages)); try lia.
    by rewrite andb_true_r in E.
  - intros H. apply Z.bits_inj'. intros j Hj. rewrite Z.land_spec, Z.bits_0.
    destruct (Z.lt_ge_cases j 32) as [|]; [|by rewrite high_bit].
    rewrite placed_bit by lia. unfold in_region.
    destruct (Z.leb_spec (pos mod 32) j), (Z.ltb_spec j (pos mod 32 + pages)); simpl; try by rewrite andb_false_r.
    specialize (H (pos / 32 * 32 + j)). replace ((pos / 32 * 32 + j) / 32) with (pos / 32) in H by lia.
    replace ((pos / 32 * 32 + j) mod 32) with j in H by lia. rewrite H by lia. done.
Qed.

(** Storing a word that differs from the old one on the region only. *)
Lemma region_store m p v (b : bool) j :
  (Z.to_nat (pos / 32) < len m p)%nat -> 0 <= j ->
  (forall i, 0 <= i < 32 -> Z.testbit v i =
     if in_region (pos mod 32) pages i then b else Z.testbit (word m p (Z.to_nat (pos / 32))) i) ->
  bit (set_word m p (Z.to_nat (pos / 32)) v) p j = if in_region pos pages j then b else bit m p j.
Proof using Hpos Hpages Hfit.
  intros Hk Hj Hv. unfold bit. destruct (Z.eq_dec (j / 32) (pos / 32)) as [E|E].
  - rewrite E, word_set_word, Hv by (done || lia). unfold in_region.
    destruct (Z.leb_spec (pos mod 32) (j mod 32)), (Z.ltb_spec (j mod 32) (pos mod 32 + pages)),
      (Z.leb_spec pos j), (Z.ltb_spec j (pos + pages)); simpl; done || lia.
  - rewrite word_set_word_ne by lia. unfold in_region.
    destruct (Z.leb_spec pos j), (Z.ltb_spec j (pos + pages)); simpl; done || lia.
Qed.

Lemma region_set m p j :
  (Z.to_nat (pos / 32) < len m p)%nat -> 0 <= j ->
  bit (set_word m p (Z.to_nat (pos / 32)) (Z.lor (word m p (Z.to_nat (pos / 32))) placed)) p j =
  (if in_region pos pages j then true else bit m p j).
Proof using Hpos Hpages Hfit.
  intros Hk Hj. apply region_store; [done..|]. intros i Hi. rewrite Z.lor_spec, placed_bit by done.
  case_match; [by rewrite orb_true_r|by rewrite orb_false_r].
Qed.

Lemma region_clear m p j :
  (Z.to_nat (pos / 32) < len m p)%nat -> 0 <= j ->
  bit (set_word m p (Z.to_nat (pos / 32)) (Z.land (word m p (Z.to_nat (pos / 32))) (lnot32 placed))) p j =
  (if in_region pos pages j then false else bit m p j).
Proof using Hpos Hpages Hfit.
  intros Hk Hj. apply region_store; [done..|]. intros i Hi. rewrite Z.land_spec, lnot32_bit, placed_bit by done.
  case_match; simpl; [by rewrite andb_false_r|by rewrite andb_true_r].
Qed.
End region.

Lemma region_fits pos order :
  0 <= order <= 5 -> 0 <= pos -> pos mod 2 ^ order = 0 -> 1 <= 2 ^ order /\ pos mod 32 + 2 ^ order <= 32.
Proof.
  intros Ho Hp Hm. assert (order ∈ [0; 1; 2; 3; 4; 5]) as H.
  { assert (order = 0 \/ order = 1 \/ order = 2 \/ order = 3 \/ order = 4 \/ order = 5) by lia. set_solver. }
  revert Hm. repeat (apply elem_of_cons in H as [->|H]; [simpl; lia|]). by apply elem_of_nil in H.
Qed.

(** The search finds the first free candidate. *)
Lemma find_free_spec m p order n i :
  0 <= order <= 5 -> 0 <= i -> i mod 2 ^ order = 0 -> (forall k, 0 <= word m p k < 2 ^ 32) ->
  (exists t, 0 <= t < Z.of_nat n /\ let r := i + t * 2 ^ order in
     find_free m p (region_mask (2 ^ order)) (2 ^ order) i n =
       (r, set_word m p (Z.to_nat (r / 32)) (Z.lor (word m p (Z.to_nat (r / 32))) (placed r (2 ^ order)))) /\
     free m p r (2 ^ order) /\ forall u, 0 <= u < t -> ~ free m p (i + u * 2 ^ order) (2 ^ order)) \/
  (find_free m p (region_mask (2 ^ order)) (2 ^ order) i n = (- ENOMEM, m) /\
   forall u, 0 <= u < Z.of_nat n -> ~ free m p (i + u * 2 ^ order) (2 ^ order)).
Proof.
  intros Ho Hi Hm Hr. revert i Hi Hm. induction n as [|n IH]; intros i Hi Hm; simpl.
  { right. split; [done|lia]. }
  destruct (region_fits i order) as [Hp Hfit]; [done..|].
  pose proof (region_test i _ Hi Hp Hfit m p Hr) as Ht. unfold placed in Ht.
  destruct (Z.eqb_spec (Z.land (word m p (Z.to_nat (i / 32)))
    (u32 (Z.shiftl (region_mask (2 ^ order)) (i - i / 32 * 32)))) 0) as [E|E].
  - left. exists 0. rewrite Z.mul_0_l, Z.add_0_r. split_and!; [lia..|done|by apply Ht|lia].
  - destruct (IH (i + 2 ^ order)) as [(t & Ht' & IHt)|[E' Hn]]; [lia| |left|right].
    + rewrite <- (Z.mul_1_l (2 ^ order)) at 1. rewrite Z.mod_add; lia.
    + exists (t + 1). replace (i + (t + 1) * 2 ^ order) with (i + 2 ^ order + t * 2 ^ order) by lia.
      destruct IHt as (H1 & H2 & H3). split_and!; [lia..|done|done|]. intros u Hu.
      destruct (Z.eq_dec u 0) as [->|]; [rewrite Z.mul_0_l, Z.add_0_r; naive_solver|].
      specialize (H3 (u - 1) ltac:(lia)).
      by replace (i + u * 2 ^ order) with (i + 2 ^ order + (u - 1) * 2 ^ order) by lia.
    + split; [done|]. intros u Hu. destruct (Z.eq_dec u 0) as [->|]; [rewrite Z.mul_0_l, Z.add_0_r; naive_solver|].
      specialize (Hn (u - 1) ltac:(lia)).
      by replace (i + u * 2 ^ order) with (i + 2 ^ order + (u - 1) * 2 ^ order) by lia.
Qed.

(** The number of candidates of the search. *)
Lemma candidate_in_map bits t order n :
  0 <= order <= 5 -> 0 <= bits -> n = Z.to_nat ((bits + 2 ^ order - 1) / 2 ^ order) ->
  0 <= t < Z.of_nat n -> 0 <= t * 2 ^ order < bits.
Proof.
  intros Ho Hb -> Ht. assert (1 <= 2 ^ order) by (apply (Z.pow_le_mono_r 2 0 order); lia).
  revert Ht. generalize dependent (2 ^ order). intros. nia.
Qed.

Lemma candidate_count bits u order :
  0 <= order <= 5 -> 0 <= u -> u * 2 ^ order < bits ->
  u < Z.of_nat (Z.to_nat ((bits + 2 ^ order - 1) / 2 ^ order)).
Proof.
  intros Ho Hu Hlt. assert (1 <= 2 ^ order) by (apply (Z.pow_le_mono_r 2 0 order); lia).
  revert Hlt. generalize dependent (2 ^ order). intros. nia.
Qed.

(** ** Correctness of the bit maps of lib/bitmap.c *)
Ltac Zify.zify_post_hook ::= Z.to_euclidean_division_equations.

#[local] Hint Resolve word_of_bit lnot32_range land_range lxor_range : kernel.

(** Three maps of three words, 70 bits in use; the third holds rubbish
    above them. *)
Definition sample_mem : mem :=
  [[3735928559; 1; 63]; [0; 4294967295; 36]; [4294967295; 4294967295; 4294967295]].

Lemma sample_ok p : (p < 3)%nat -> map_ok sample_mem p 70.
Proof.
  intros Hp. assert (len sample_mem p = 3%nat) as E by (by destruct p as [|[|[|p]]]; try lia).
  split; [rewrite E; by vm_compute; lia|]. intros k.
  destruct p as [|[|[|p]]]; try lia; destruct k as [|[|[|k]]]; (vm_compute; split; congruence) || done.
Defined.

(** The predicates decide what their names say of the [bits] first bits
    of the maps, whatever the words hold above them: no bit set, all bits
    set, the same bits, a common bit, an inclusion; and [__bitmap_weight] is
    the number of bits set. *)
Lemma bitmap_predicates_correct m p1 p2 bits :
  0 <= bits -> map_ok m p1 bits -> map_ok m p2 bits ->
  (__bitmap_empty m p1 bits = 1 <-> forall i, 0 <= i < bits -> bit m p1 i = false) /\
  (__bitmap_full m p1 bits = 1 <-> forall i, 0 <= i < bits -> bit m p1 i = true) /\
  (__bitmap_equal m p1 p2 bits = 1 <-> forall i, 0 <= i < bits -> bit m p1 i = bit m p2 i) /\
  (__bitmap_intersects m p1 p2 bits = 0 <-> forall i, 0 <= i < bits -> bit m p1 i && bit m p2 i = false) /\
  (__bitmap_subset m p1 p2 bits = 1 <-> forall i, 0 <= i < bits -> bit m p1 i = true -> bit m p2 i = true) /\
  __bitmap_weight m p1 bits = count (bit m p1) (Z.to_nat bits).
Proof.
  intros Hb H1 H2. split_and!; [..|by apply weight_spec];
    (apply bool_eq_false || apply negb_of_bool); (rewrite scan_spec; [|done|by eauto with kernel|]);
    try (intros k; done || apply eq_words_zero);
    apply forall_proper; intros i; apply forall_proper; intros Hi; unfold bit;
    rewrite ?Z.lxor_spec, ?Z.land_spec, ?lnot32_bit by lia;
    repeat (match goal with |- context [Z.testbit ?w ?j] => destruct (Z.testbit w j) end); simpl; naive_solver.
Qed.

(** The word-wise operations compute the intersection, union, symmetric
    difference, difference and complement of the maps bit by bit, also when
    the destination is one of the sources. *)
Lemma bitmap_operations_correct m d p1 p2 bits i :
  map_ok m d bits -> map_ok m p1 bits -> map_ok m p2 bits -> 0 <= i < bits ->
  bit (__bitmap_and m d p1 p2 bits) d i = bit m p1 i && bit m p2 i /\
  bit (__bitmap_or m d p1 p2 bits) d i = bit m p1 i || bit m p2 i /\
  bit (__bitmap_xor m d p1 p2 bits) d i = xorb (bit m p1 i) (bit m p2 i) /\
  bit (__bitmap_andnot m d p1 p2 bits) d i = bit m p1 i && negb (bit m p2 i) /\
  bit (__bitmap_complement m d p1 bits) d i = negb (bit m p1 i).
Proof.
  intros Hd H1 H2 Hi. split_and!; [..|by apply complement_spec].
  1: apply (fill_bitwise _ (fun i => bit m p1 i && bit m p2 i)); try done.
  3: apply (fill_bitwise _ (fun i => bit m p1 i || bit m p2 i)); try done.
  5: apply (fill_bitwise _ (fun i => xorb (bit m p1 i) (bit m p2 i))); try done.
  7: apply (fill_bitwise _ (fun i => bit m p1 i && negb (bit m p2 i))); try done.
  all: (intros k m' Hm; by rewrite !Hm) ||
    (intros j Hj; rewrite ?Z.land_spec, ?Z.lor_spec, ?Z.lxor_spec, ?lnot32_bit by lia; done).
Qed.

(** C29: the routines on words do what their names say of the bits of the
    maps, whatever the words hold above them.  The predicates decide whether no
    bit is set, all are, the maps are the same, have a common bit, are included
    in each other, and [__bitmap_weight] is the number of bits set; the
    operations compute the intersection, union, symmetric difference, difference
    and complement bit by bit, and the shifts move every bit by [shift] places,
    lose the bits that leave the map and bring in zeros, also when the
    destination is a source. *)
Theorem bitmap_routines_correct m d p1 p2 bits shift :
  0 <= shift <= bits -> map_ok m d bits -> map_ok m p1 bits -> map_ok m p2 bits ->
  (__bitmap_empty m p1 bits = 1 <-> forall i, 0 <= i < bits -> bit m p1 i = false) /\
  (__bitmap_full m p1 bits = 1 <-> forall i, 0 <= i < bits -> bit m p1 i = true) /\
  (__bitmap_equal m p1 p2 bits = 1 <-> forall i, 0 <= i < bits -> bit m p1 i = bit m p2 i) /\
  (__bitmap_intersects m p1 p2 bits = 0 <-> forall i, 0 <= i < bits -> bit m p1 i && bit m p2 i = false) /\
  (__bitmap_subset m p1 p2 bits = 1 <-> forall i, 0 <= i < bits -> bit m p1 i = true -> bit m p2 i = true) /\
  __bitmap_weight m p1 bits = count (bit m p1) (Z.to_nat bits) /\
  forall i, 0 <= i < bits ->
    (bit (__bitmap_and m d p1 p2 bits) d i = bit m p1 i && bit m p2 i /\
     bit (__bitmap_or m d p1 p2 bits) d i = bit m p1 i || bit m p2 i /\
     bit (__bitmap_xor m d p1 p2 bits) d i = xorb (bit m p1 i) (bit m p2 i) /\
     bit (__bitmap_andnot m d p1 p2 bits) d i = bit m p1 i && negb (bit m p2 i) /\
     bit (__bitmap_complement m d p1 bits) d i = negb (bit m p1 i)) /\
    bit (__bitmap_shift_right m d p1 shift bits) d i = (if i + shift <? bits then bit m p1 (i + shift) else false) /\
    bit (__bitmap_shift_left m d p1 shift bits) d i = (if shift <=? i then bit m p1 (i - shift) else false).
Proof.
  intros Hs Hd H1 H2. destruct (bitmap_predicates_correct m p1 p2 bits ltac:(lia) H1 H2) as (? & ? & ? & ? & ? & ?).
  split_and!; try done. intros i Hi. split; [by apply bitmap_operations_correct|].
  split; [by apply shift_right_spec|by apply shift_left_spec].
Qed.

Lemma bitmap_routines_correct_witness :
  (forall i, 0 <= i < 70 -> bit sample_mem 2 i = true) /\ bit (__bitmap_andnot sample_mem 1 2 1 70) 1 2 = true /\
  bit (__bitmap_shift_right sample_mem 1 1 35 70) 1 34 = true.
Proof.
  destruct (bitmap_routines_correct sample_mem 1 2 1 70 35) as (_ & E1 & _ & _ & _ & _ & E2); [lia|apply sample_ok; lia..|].
  destruct (bitmap_routines_correct sample_mem 1 1 1 70 35) as (_ & _ & _ & _ & _ & _ & E3); [lia|apply sample_ok; lia..|].
  split; [apply E1; reflexivity|]. destruct (E2 2 ltac:(lia)) as [(_ & _ & _ & E & _) _]. rewrite E. split; [reflexivity|].
  destruct (E3 34 ltac:(lia)) as (_ & E' & _). rewrite E'. reflexivity.
Defined.

(** C30: [bitmap_find_free_region] returns the lowest aligned free region
    whose first bit lies in the map and marks exactly its bits, so that
    releasing the region gives back the old map; it fails with [-ENOMEM],
    changing nothing, only when there is no such region. *)
Theorem find_free_region_correct m p bits order :
  0 <= bits -> map_ok m p bits -> 0 <= order <= 5 ->
  let '(r, m') := bitmap_find_free_region m p bits order in
  (r = - ENOMEM /\ m' = m /\ forall i, 0 <= i < bits -> i mod 2 ^ order = 0 -> ~ free m p i (2 ^ order)) \/
  (0 <= r < bits /\ r mod 2 ^ order = 0 /\ free m p r (2 ^ order) /\
   (forall i, 0 <= i < r -> i mod 2 ^ order = 0 -> ~ free m p i (2 ^ order)) /\
   (forall j, 0 <= j -> bit m' p j = bit m p j || in_region r (2 ^ order) j) /\
   (forall j, 0 <= j -> bit (bitmap_release_region m' p r order) p j = bit m p j)).
Proof.
  intros Hb [Hlen Hr] Ho. unfold bitmap_find_free_region. rewrite Z.shiftl_1_l.
  assert (1 <= 2 ^ order) as Hp by (apply (Z.pow_le_mono_r 2 0 order); lia).
  assert (2 ^ order <= 32) by (apply (Z.pow_le_mono_r 2 order 5); lia).
  destruct (Z.ltb_spec 32 (2 ^ order)); [lia|]. set (n := Z.to_nat _).
  assert (forall i, 0 <= i -> i mod 2 ^ order = 0 -> exists u, 0 <= u /\ i = 0 + u * 2 ^ order) as Hal.
  { intros i Hi Hm. exists (i / 2 ^ order). split; [by apply Z.div_pos; lia|]. apply Z.div_exact in Hm; lia. }
  destruct (find_free_spec m p order n 0) as [(t & Ht & -> & Hfree & Hmin)|[-> Hnone]];
    [done|done|by apply Z.mod_0_l; lia|done|right|left].
  - rewrite Z.add_0_l in *. set (r := t * 2 ^ order) in *.
    assert (r mod 2 ^ order = 0) as Hm by (apply Z.mod_mul; lia).
    assert (0 <= r < bits) as Hrb by (by apply (candidate_in_map bits t order n)).
    destruct (region_fits r order) as [_ Hfit]; [done|lia|done|].
    assert (Z.to_nat (r / 32) < len m p)%nat as Hk by (unfold BITS_TO_LONGS in Hlen; lia).
    assert (forall j, 0 <= j -> in_region r (2 ^ order) j = true -> bit m p j = false) as Hfb.
    { intros j Hj Hin. apply Hfree. unfold in_region in Hin. lia. }
    split_and!; [lia..|done|done| | |].
    + intros i Hi Him. destruct (Hal i) as (u & Hu & ->); [lia|done|]. apply Hmin. unfold r in Hi. nia.
    + intros j Hj. rewrite region_set by (done || lia). case_match; [by rewrite orb_true_r|by rewrite orb_false_r].
    + intros j Hj. unfold bitmap_release_region. rewrite Z.shiftl_1_l. cbv zeta.
      fold (placed r (2 ^ order)). rewrite region_clear; [|lia|done..| |done].
      2: by rewrite len_set_word.
      rewrite region_set by (done || lia). destruct (in_region r (2 ^ order) j) eqn:Hin; [|done].
      symmetry. by apply Hfb.
  - split_and!; [done..|]. intros i Hi Him. destruct (Hal i) as (u & Hu & ->); [lia|done|].
    apply Hnone. split; [done|]. apply (candidate_count bits u order); [done..|lia].
Qed.

Lemma find_free_region_correct_witness :
  fst (bitmap_find_free_region sample_mem 1 70 1) = 0 /\ free sample_mem 1 0 2.
Proof.
  pose proof (find_free_region_correct sample_mem 1 70 1 ltac:(lia) ltac:(apply sample_ok; lia) ltac:(lia)) as H.
  split; [reflexivity|].
  destruct H as [[H _]|(_ & _ & H & _)]; [vm_compute in H; congruence|exact H].
Defined.
