(* ===== verification/Scatterwalk.v ===== *)
(** * crypto/scatterwalk.c: walking a scatter list block by block

    Memory is a flat map from addresses to bytes.  Kernel pages are mapped
    linearly, so page frame [p] is at address [PAGE_SIZE * p] and the next
    [struct page] ([page++]) is frame [p + 1]; the mapping calls and the cache
    flushes do not change it.  A scatter list is a Rocq list of its entries;
    [None] is an access beyond its end. *)
From S2P Require Import Prelude.

Definition byte_mem := Z -> Z.
Implicit Types (m : byte_mem) (a : Z).

(** ** Bytes in memory *)
Definition store m a (v : Z) : byte_mem := fun x => if x =? a then v else m x.
Definition read m a (n : nat) : list Z := (fun i => m (a + Z.of_nat i)) <$> seq 0 n.
Fixpoint write m a (bs : list Z) : byte_mem :=
  match bs with [] => m | b :: bs => write (store m a b) (a + 1) bs end.
Definition memcpy m (dst src : Z) (n : nat) : byte_mem := write m dst (read m src n).

(** A 32-bit load and store, in little-endian order. *)
Definition load32 m a : Z := m a + 2 ^ 8 * m (a + 1) + 2 ^ 16 * m (a + 2) + 2 ^ 24 * m (a + 3).
Definition le_bytes (v : Z) : list Z := [u8 v; u8 (v / 2 ^ 8); u8 (v / 2 ^ 16); u8 (v / 2 ^ 24)].
Definition store32 m a (v : Z) : byte_mem := write m a (le_bytes v).

(** ** The walk *)

Record scatterlist := { sg_page : Z; sg_offset : Z; sg_length : Z }.

Record scatter_walk := {
  sg : list scatterlist;     (** the current entry and those after it *)
  page : Z;
  data : Z;
  len_this_page : Z;
  len_this_segment : Z;
  offset : Z
}.
#[export] Instance eta_scatter_walk : Eta scatter_walk := fun w =>
  {| sg := sg w; page := page w; data := data w; len_this_page := len_this_page w;
     len_this_segment := len_this_segment w; offset := offset w |}.

Definition scatterwalk_whichbuf (w : scatter_walk) (nbytes scratch : Z) : Z :=
  if (nbytes <=? len_this_page w) && (Z.land (data w) (PAGE_SIZE - 1) + nbytes <=? PAGE_SIZE)
  then data w else scratch.

Definition memcpy_dir m (buf sgdata : Z) (nbytes : Z) (out : bool) : byte_mem :=
  if out then memcpy m sgdata buf (Z.to_nat nbytes) else memcpy m buf sgdata (Z.to_nat nbytes).

(** [data] keeps its value until [scatterwalk_map]. *)
Definition scatterwalk_start (d : Z) (sgs : list scatterlist) : option scatter_walk :=
  match sgs with
  | [] => None
  | e :: _ =>
      let rest_of_page := u32 (PAGE_SIZE - Z.land (sg_offset e) (PAGE_SIZE - 1)) in
      Some {| sg := sgs; page := sg_page e; data := d; len_this_page := Z.min (sg_length e) rest_of_page;
              len_this_segment := sg_length e; offset := sg_offset e |}
  end.

Definition scatterwalk_map (w : scatter_walk) : scatter_walk :=
  w <| data := page w * PAGE_SIZE + offset w |>.

Definition scatterwalk_pagedone (w : scatter_walk) (more : bool) : option scatter_walk :=
  if more then
    let w := w <| len_this_segment := u32 (len_this_segment w - len_this_page w) |> in
    if truth (len_this_segment w) then
      Some (w <| page := page w + 1 |> <| len_this_page := Z.min (len_this_segment w) PAGE_SIZE |>
              <| offset := 0 |>)
    else scatterwalk_start (data w) (tail (sg w))
  else Some w.

Definition scatterwalk_done (w : scatter_walk) (more : bool) : option scatter_walk :=
  if (len_this_page w =? 0) || negb more then scatterwalk_pagedone w more else Some w.

(** The loop [while (nbytes > walk->len_this_page)].  Each round consumes a
    byte or an entry of the list, which bounds the fuel. *)
Fixpoint copy_loop (fuel : nat) m (buf : Z) (w : scatter_walk) (nbytes : Z) (out : bool)
    : option (byte_mem * Z * scatter_walk * Z) :=
  if len_this_page w <? nbytes then
    match fuel with
    | O => None
    | S fuel =>
        let m := memcpy_dir m buf (data w) (len_this_page w) out in
        let buf := buf + len_this_page w in
        let nbytes := u32 (nbytes - len_this_page w) in
        match scatterwalk_pagedone w true with
        | Some w => copy_loop fuel m buf (scatterwalk_map w) nbytes out
        | None => None
        end
    end
  else Some (m, buf, w, nbytes).

Definition advance (w : scatter_walk) (nbytes : Z) : scatter_walk :=
  w <| offset := u32 (offset w + nbytes) |> <| len_this_page := u32 (len_this_page w - nbytes) |>
    <| len_this_segment := u32 (len_this_segment w - nbytes) |>.

Definition scatterwalk_copychunks m (buf : Z) (w : scatter_walk) (nbytes : Z) (out : bool)
    : option (byte_mem * scatter_walk) :=
  if negb (buf =? data w) then
    match copy_loop (length (sg w) + Z.to_nat nbytes) m buf w nbytes out with
    | Some (m, buf, w, nbytes) => Some (memcpy_dir m buf (data w) nbytes out, advance w nbytes)
    | None => None
    end
  else Some (m, advance w nbytes).

Definition scatterwalk_samebuf (win wout : scatter_walk) (src_p dst_p : Z) : bool :=
  (page win =? page wout) && (offset win =? offset wout) && (data win =? src_p) && (data wout =? dst_p).

(** ** Scatter lists as sequences of addresses

    A scatter list stands for the sequence of addresses of its bytes; a walk
    stands for what is left of the sequence.  Every step of
    crypto/scatterwalk.c is the corresponding step on sequences. *)
(** ** Gathering and scattering bytes *)
Definition gather (m : byte_mem) (xs : list Z) : list Z := m <$> xs.

Fixpoint scatter (m : byte_mem) (xs bs : list Z) : byte_mem :=
  match xs, bs with
  | x :: xs, b :: bs => scatter (store m x b) xs bs
  | _, _ => m
  end.

(** The bytes at [from] copied to [to]. *)
Definition transfer (m : byte_mem) (to from : list Z) : byte_mem := scatter m to (gather m from).

Lemma store_eq m a v : store m a v a = v.
Proof. unfold store. by rewrite Z.eqb_refl. Qed.

Lemma store_ne m a v x : x <> a -> store m a v x = m x.
Proof. unfold store. intros H. apply Z.eqb_neq in H. by rewrite H. Qed.

Lemma scatter_ne m xs bs x : x ∉ xs -> scatter m xs bs x = m x.
Proof.
  revert m bs. induction xs as [|y xs IH]; intros m bs Hx; simpl; [done|]. destruct bs; [done|].
  apply not_elem_of_cons in Hx as [Hne Hx]. rewrite IH by done. by apply store_ne.
Qed.

Lemma gather_ext m m' xs : (forall x, x ∈ xs -> m' x = m x) -> gather m' xs = gather m xs.
Proof. intros H. apply list_fmap_ext. intros i x Hx%list_elem_of_lookup_2. by apply H. Qed.

Lemma gather_scatter m xs bs : NoDup xs -> length bs = length xs -> gather (scatter m xs bs) xs = bs.
Proof.
  revert m bs. induction xs as [|x xs IH]; intros m [|b bs] Hnd Hl; simpl in *; try done.
  apply NoDup_cons in Hnd as [Hx Hnd]. f_equal.
  - rewrite scatter_ne by done. apply store_eq.
  - apply IH; [done|lia].
Qed.

Lemma scatter_app m xs ys bs cs :
  length xs = length bs -> scatter m (xs ++ ys) (bs ++ cs) = scatter (scatter m xs bs) ys cs.
Proof.
  revert m bs. induction xs as [|x xs IH]; intros m [|b bs] H; simpl in *; try lia; [done|]. apply IH. lia.
Qed.

Lemma gather_app m xs ys : gather m (xs ++ ys) = gather m xs ++ gather m ys.
Proof. apply fmap_app. Qed.

Lemma length_gather m xs : length (gather m xs) = length xs.
Proof. apply length_fmap. Qed.

Lemma transfer_app m t1 t2 f1 f2 :
  length t1 = length f1 -> (forall x, x ∈ f2 -> x ∉ t1) ->
  transfer m (t1 ++ t2) (f1 ++ f2) = transfer (transfer m t1 f1) t2 f2.
Proof.
  intros Hl Hd. unfold transfer. rewrite gather_app, scatter_app by (by rewrite length_gather).
  f_equal. symmetry. apply gather_ext. intros x Hx. by apply scatter_ne, Hd.
Qed.

Lemma transfer_ne m to from x : x ∉ to -> transfer m to from x = m x.
Proof. apply scatter_ne. Qed.

Lemma gather_transfer m to from :
  NoDup to -> length from = length to -> gather (transfer m to from) to = gather m from.
Proof. intros. apply gather_scatter; [done|]. by rewrite length_gather. Qed.

(** ** Intervals of addresses *)
Lemma seqZ_length a n : 0 <= n -> length (seqZ a n) = Z.to_nat n.
Proof. intros. apply length_seqZ. Qed.

Lemma seqZ_split a n k : 0 <= k <= n -> seqZ a n = seqZ a k ++ seqZ (a + k) (n - k).
Proof. intros Hk. rewrite <- seqZ_app by lia. f_equal. lia. Qed.

Lemma take_seqZ a n k : 0 <= k <= n -> take (Z.to_nat k) (seqZ a n) = seqZ a k.
Proof. intros Hk. rewrite (seqZ_split a n k) by done. rewrite take_app_length'; [done|]. by rewrite length_seqZ. Qed.

Lemma drop_seqZ a n k : 0 <= k <= n -> drop (Z.to_nat k) (seqZ a n) = seqZ (a + k) (n - k).
Proof. intros Hk. rewrite (seqZ_split a n k) by done. rewrite drop_app_length'; [done|]. by rewrite length_seqZ. Qed.

Lemma read_gather m a n : read m a n = gather m (seqZ a (Z.of_nat n)).
Proof.
  unfold read, gather. apply list_eq. intros i. rewrite !list_lookup_fmap.
  destruct (decide (i < n)%nat).
  - rewrite lookup_seq_lt, lookup_seqZ_lt by lia. simpl. done.
  - rewrite lookup_seq_ge, lookup_seqZ_ge by lia. done.
Qed.

Lemma write_scatter m a bs : write m a bs = scatter m (seqZ a (Z.of_nat (length bs))) bs.
Proof.
  revert m a. induction bs as [|b bs IH]; intros m a; simpl length; [by rewrite seqZ_nil by lia|].
  rewrite seqZ_cons by lia. simpl. rewrite IH. f_equal. f_equal; lia.
Qed.

Lemma memcpy_transfer m dst src n :
  0 <= n -> memcpy m dst src (Z.to_nat n) = transfer m (seqZ dst n) (seqZ src n).
Proof.
  intros Hn. unfold memcpy, transfer. rewrite write_scatter, read_gather, length_gather, length_seqZ.
  by rewrite !Z2Nat.id by lia.
Qed.

(** ** Walks *)
Definition entry_addrs (e : scatterlist) : list Z := seqZ (sg_page e * PAGE_SIZE + sg_offset e) (sg_length e).
Definition sg_addrs (sgs : list scatterlist) : list Z := mjoin (entry_addrs <$> sgs).
Definition walk_addrs (w : scatter_walk) : list Z :=
  seqZ (page w * PAGE_SIZE + offset w) (len_this_segment w) ++ sg_addrs (tail (sg w)).

(** An entry starts inside its first page and has at least one byte. *)
Definition entry_ok (e : scatterlist) : Prop := 0 <= sg_offset e < PAGE_SIZE /\ 0 < sg_length e < 2 ^ 32.

Record walk_ok (w : scatter_walk) : Prop := {
  walk_lens : 0 <= len_this_page w <= len_this_segment w;
  walk_seg : len_this_segment w < 2 ^ 32;
  walk_off : 0 <= offset w;
  walk_in_page : offset w + len_this_page w <= PAGE_SIZE;
  walk_page_end : len_this_page w = len_this_segment w \/ offset w + len_this_page w = PAGE_SIZE;
  walk_entries : Forall entry_ok (sg w);
  walk_nonempty : sg w <> []
}.

(** The walk is not at the end of a page or of a segment. *)
Definition fresh (w : scatter_walk) : Prop := 0 < len_this_page w.
Definition mapped (w : scatter_walk) : Prop := data w = page w * PAGE_SIZE + offset w.

Lemma start_ok d sgs :
  sgs <> [] -> Forall entry_ok sgs ->
  exists w, scatterwalk_start d sgs = Some w /\ walk_ok w /\ fresh w /\ walk_addrs w = sg_addrs sgs /\ sg w = sgs.
Proof.
  intros Hne Hok. destruct sgs as [|e sgs]; [done|]. simpl. eexists. split; [done|].
  pose proof Hok as [[Ho Hl] Hok']%Forall_cons.
  unfold PAGE_SIZE in *. change (4096 - 1) with (Z.ones 12). rewrite Z.land_ones, Z.mod_small by lia.
  rewrite u32_small by lia. split_and!; [|..|done|done].
  - split; simpl; unfold PAGE_SIZE; [lia..|done|done].
  - unfold fresh. simpl. lia.
Qed.

Lemma length_walk_addrs w :
  walk_ok w -> Z.of_nat (length (walk_addrs w)) = len_this_segment w + Z.of_nat (length (sg_addrs (tail (sg w)))).
Proof. intros H. unfold walk_addrs. rewrite length_app, length_seqZ. destruct H. lia. Qed.

(** Finishing a page goes on to the byte after it. *)
Lemma pagedone_ok w :
  walk_ok w -> len_this_page w < Z.of_nat (length (walk_addrs w)) ->
  exists w', scatterwalk_pagedone w true = Some w' /\ walk_ok w' /\ fresh w' /\
    walk_addrs w' = drop (Z.to_nat (len_this_page w)) (walk_addrs w) /\
    (length (sg w') <= length (sg w))%nat.
Proof.
  intros Hok Hlt. rewrite length_walk_addrs in Hlt by done. destruct Hok as [Hl Hs Ho Hp He Hen Hne0].
  unfold scatterwalk_pagedone. cbn -[u32 PAGE_SIZE]. rewrite u32_small by lia. unfold truth.
  destruct (Z.eqb_spec (len_this_segment w - len_this_page w) 0) as [E|E]; cbn -[u32 PAGE_SIZE scatterwalk_start].
  - destruct (start_ok (data w) (tail (sg w))) as (w' & -> & Hw & Hf & Ha & Hsg).
    { intros E'. rewrite E' in Hlt. simpl in Hlt. lia. }
    { destruct (sg w); [done|]. by apply Forall_cons in Hen as [_ ?]. }
    exists w'. split_and!; [done..| |].
    + rewrite Ha. unfold walk_addrs. replace (len_this_page w) with (len_this_segment w) by lia.
      rewrite drop_app_length'; [done|]. by rewrite length_seqZ.
    + rewrite Hsg. destruct (sg w); simpl; lia.
  - eexists. split; [done|]. unfold PAGE_SIZE in *. split_and!; try done.
    + split; simpl; unfold PAGE_SIZE; [lia..|done|done].
    + unfold fresh. simpl. lia.
    + unfold walk_addrs. simpl. unfold PAGE_SIZE. rewrite drop_app_le, drop_seqZ by (rewrite ?length_seqZ; lia).
      do 2 f_equal; lia.
Qed.

Lemma done_ok w more :
  walk_ok w -> (more = true -> walk_addrs w <> []) ->
  exists w', scatterwalk_done w more = Some w' /\ (more = true -> walk_ok w' /\ fresh w' /\ walk_addrs w' = walk_addrs w).
Proof.
  intros Hok Hm. unfold scatterwalk_done. destruct more; cbn [negb].
  - rewrite orb_false_r. destruct (Z.eqb_spec (len_this_page w) 0) as [E|E].
    + destruct (pagedone_ok w) as (w' & -> & Hw & Hf & Ha & _); [done| |].
      { rewrite E. destruct (walk_addrs w); [by destruct Hm|]. simpl. lia. }
      exists w'. rewrite E in Ha. eauto.
    + exists w. split; [done|]. intros _. split_and!; [done| |done].
      destruct Hok. unfold fresh. lia.
  - rewrite orb_true_r. by eexists.
Qed.

(** ** Copying chunks *)

Lemma elem_of_take_mono {A} (x : A) (xs : list A) i j : x ∈ take i xs -> (i <= j)%nat -> x ∈ take j xs.
Proof.
  intros (k & Hx & Hk)%elem_of_take Hij. apply elem_of_take. exists k. split; [done|lia].
Qed.

Lemma elem_of_take_drop (x : Z) xs k n :
  x ∈ take (Z.to_nat (n - k)) (drop (Z.to_nat k) xs) -> 0 <= k <= n -> x ∈ take (Z.to_nat n) xs.
Proof.
  intros (i & Hx & Hi)%elem_of_take Hk. rewrite lookup_drop in Hx. apply elem_of_take.
  eexists. split; [done|]. lia.
Qed.

(** The bytes [copychunks] moves: from the walk to the buffer, or back. *)
Definition chunk_to (out : bool) (buf : Z) (xs : list Z) (n : Z) : list Z :=
  if out then take (Z.to_nat n) xs else seqZ buf n.
Definition chunk_from (out : bool) (buf : Z) (xs : list Z) (n : Z) : list Z :=
  if out then seqZ buf n else take (Z.to_nat n) xs.

Lemma memcpy_dir_transfer m buf w n (out : bool) :
  walk_ok w -> mapped w -> 0 <= n <= len_this_page w ->
  memcpy_dir m buf (data w) n out =
  transfer m (chunk_to out buf (walk_addrs w) n) (chunk_from out buf (walk_addrs w) n).
Proof.
  intros Hok Hmap Hn. destruct Hok. unfold memcpy_dir, chunk_to, chunk_from, walk_addrs.
  rewrite take_app_le by (rewrite length_seqZ; lia). rewrite take_seqZ by lia. rewrite Hmap.
  destruct out; by rewrite memcpy_transfer by lia.
Qed.

Lemma chunk_split (out : bool) m buf xs k n :
  0 <= k <= n -> n <= Z.of_nat (length xs) ->
  (forall x, x ∈ seqZ buf n -> x ∉ take (Z.to_nat n) xs) ->
  transfer m (chunk_to out buf xs n) (chunk_from out buf xs n) =
  transfer (transfer m (chunk_to out buf xs k) (chunk_from out buf xs k))
    (chunk_to out (buf + k) (drop (Z.to_nat k) xs) (n - k))
    (chunk_from out (buf + k) (drop (Z.to_nat k) xs) (n - k)).
Proof.
  intros Hk Hn Hd.
  assert (take (Z.to_nat n) xs = take (Z.to_nat k) xs ++ take (Z.to_nat (n - k)) (drop (Z.to_nat k) xs)) as E.
  { rewrite take_drop_commute. rewrite <- (take_drop (Z.to_nat k) (take (Z.to_nat n) xs)) at 1.
    rewrite take_take. f_equal; f_equal; [lia|]. f_equal. lia. }
  assert (length (seqZ buf k) = length (take (Z.to_nat k) xs)) as Hl.
  { rewrite length_seqZ, length_take. lia. }
  rewrite E in Hd. rewrite (seqZ_split buf n k) in Hd by done.
  unfold chunk_to, chunk_from. destruct out; rewrite E, (seqZ_split buf n k) by done; apply transfer_app; try done.
  - intros x Hx Hin. apply (Hd x); apply elem_of_app; auto.
  - intros x Hx Hin. apply (Hd x); apply elem_of_app; auto.
Qed.

Lemma copy_loop_ok (out : bool) fuel m buf w n :
  walk_ok w -> fresh w -> mapped w ->
  0 <= n < 2 ^ 32 -> n <= Z.of_nat (length (walk_addrs w)) ->
  (length (sg w) + Z.to_nat n <= fuel)%nat ->
  (forall x, x ∈ seqZ buf n -> x ∉ take (Z.to_nat n) (walk_addrs w)) ->
  exists k w', 0 <= k <= n /\
    copy_loop fuel m buf w n out =
      Some (transfer m (chunk_to out buf (walk_addrs w) k) (chunk_from out buf (walk_addrs w) k),
            buf + k, w', n - k) /\
    walk_ok w' /\ mapped w' /\ n - k <= len_this_page w' /\ walk_addrs w' = drop (Z.to_nat k) (walk_addrs w).
Proof.
  revert m buf w n. induction fuel as [|fuel IH]; intros m buf w n Hok Hf Hmap Hn Hlen Hfuel Hd.
  { pose proof (walk_nonempty w Hok). destruct (sg w); simpl in *; [done|lia]. }
  cbn [copy_loop]. destruct (Z.ltb_spec (len_this_page w) n) as [Hlt|Hge].
  2: { exists 0, w. rewrite Z.add_0_r, Z.sub_0_r.
       split_and!; try done; try lia. unfold chunk_to, chunk_from. by destruct out. }
  pose proof Hok as [Hl ? ? ? ? ? ?]. set (lp := len_this_page w) in *.
  destruct (pagedone_ok w) as (w1 & -> & Hok1 & Hf1 & Ha1 & Hle); [done|fold lp; lia|]. fold lp in Ha1.
  assert (walk_addrs (scatterwalk_map w1) = drop (Z.to_nat lp) (walk_addrs w)) as Ha1' by done.
  rewrite memcpy_dir_transfer by (done || lia). rewrite u32_small by lia.
  destruct (IH (transfer m (chunk_to out buf (walk_addrs w) lp) (chunk_from out buf (walk_addrs w) lp))
    (buf + lp) (scatterwalk_map w1) (n - lp)) as (k & w' & Hk & -> & Hok' & Hmap' & Hle' & Ha').
  { destruct Hok1. by split. }
  { done. }
  { done. }
  { lia. }
  { rewrite Ha1', length_drop. lia. }
  { change (sg (scatterwalk_map w1)) with (sg w1). unfold fresh in Hf. lia. }
  { intros x Hx Hin. apply (Hd x).
    - apply elem_of_seqZ in Hx. apply elem_of_seqZ. lia.
    - rewrite Ha1' in Hin. by apply elem_of_take_drop in Hin; [|lia]. }
  exists (lp + k), w'. split_and!; try done; try lia.
  - replace (buf + lp + k) with (buf + (lp + k)) by lia. replace (n - lp - k) with (n - (lp + k)) by lia.
    do 4 f_equal. rewrite Ha1'. rewrite (chunk_split out m buf (walk_addrs w) lp (lp + k)); [|lia..|].
    + replace (lp + k - lp) with k by lia. done.
    + intros x Hx Hin. apply (Hd x).
      * apply elem_of_seqZ in Hx. apply elem_of_seqZ. lia.
      * by apply (elem_of_take_mono _ _ _ _ Hin); lia.
  - rewrite Ha', Ha1', drop_drop. f_equal. lia.
Qed.

Lemma advance_ok w n :
  walk_ok w -> 0 <= n <= len_this_page w ->
  walk_ok (advance w n) /\ walk_addrs (advance w n) = drop (Z.to_nat n) (walk_addrs w).
Proof.
  intros [Hl Hs Ho Hp He Hen Hne] Hn. unfold advance, PAGE_SIZE in *. split.
  - split; simpl; unfold PAGE_SIZE; try done; rewrite ?u32_small by lia; lia.
  - unfold walk_addrs. simpl. unfold PAGE_SIZE in *. rewrite !u32_small by lia.
    rewrite drop_app_le, drop_seqZ by (rewrite ?length_seqZ; lia). do 2 f_equal. lia.
Qed.

(** [scatterwalk_copychunks] moves [n] bytes between the buffer and the
    walk, or nothing when the buffer is the walk's own page. *)
Lemma copychunks_ok (out : bool) m buf w n :
  walk_ok w -> fresh w -> mapped w -> 0 <= n < 2 ^ 32 -> n <= Z.of_nat (length (walk_addrs w)) ->
  (if buf =? data w then n <= len_this_page w
   else forall x, x ∈ seqZ buf n -> x ∉ take (Z.to_nat n) (walk_addrs w)) ->
  exists w', scatterwalk_copychunks m buf w n out =
      Some (if buf =? data w then m
            else transfer m (chunk_to out buf (walk_addrs w) n) (chunk_from out buf (walk_addrs w) n), w') /\
    walk_ok w' /\ walk_addrs w' = drop (Z.to_nat n) (walk_addrs w).
Proof.
  intros Hok Hf Hmap Hn Hlen Hd. unfold scatterwalk_copychunks.
  destruct (buf =? data w); cbn [negb].
  { eexists. split; [done|]. apply advance_ok; [done|lia]. }
  destruct (copy_loop_ok out (length (sg w) + Z.to_nat n) m buf w n)
    as (k & w' & Hk & -> & Hok' & Hmap' & Hle & Ha); try done.
  destruct (advance_ok w' (n - k)) as [Hok2 Ha2]; [done|lia|].
  eexists. split_and!; [|done|].
  - rewrite memcpy_dir_transfer by (done || lia). rewrite (chunk_split out m buf (walk_addrs w) k n) by done.
    by rewrite Ha.
  - rewrite Ha2, Ha, drop_drop. f_equal. lia.
Qed.
