(* ===== verification/Cipher.v ===== *)
(** * crypto/cipher.c: block modes over scatter lists

    A cipher algorithm is a record of operations on memory.  The local arrays
    of the C functions have the addresses of a [frame]; the function pointers
    of a [cipher_tfm] are the names of the functions they point to. *)
From S2P Require Import Prelude.
From S2P Require Import Scatterwalk.

Definition CRYPTO_TFM_MODE_MASK : Z := 255.
Definition CRYPTO_TFM_MODE_ECB : Z := 1.
Definition CRYPTO_TFM_MODE_CBC : Z := 2.
Definition CRYPTO_TFM_MODE_CFB : Z := 4.
Definition CRYPTO_TFM_MODE_CTR : Z := 8.
Definition CRYPTO_TFM_REQ_WEAK_KEY : Z := 256.
Definition CRYPTO_TFM_RES_BAD_KEY_LEN : Z := 2097152.      (* 0x00200000 *)
Definition CRYPTO_TFM_RES_BAD_BLOCK_LEN : Z := 8388608.    (* 0x00800000 *)

(** ** Data *)

(** [cryptfn_t], its context applied: [fn dst src]. *)
Definition cryptfn := Z -> Z -> byte_mem -> option byte_mem.

Record cipher_alg (C : Type) := {
  cra_blocksize : Z;
  cia_min_keysize : Z;
  cia_max_keysize : Z;
  cia_setkey : byte_mem -> C -> Z -> Z -> Z -> Z * C * Z;
  cia_encrypt : C -> cryptfn;
  cia_decrypt : C -> cryptfn
}.
Arguments cra_blocksize {C}.
Arguments cia_min_keysize {C}.
Arguments cia_max_keysize {C}.
Arguments cia_setkey {C}.
Arguments cia_encrypt {C}.
Arguments cia_decrypt {C}.

Inductive cipher_fn :=
  | fn_none | fn_ecb_encrypt | fn_ecb_decrypt | fn_cbc_encrypt | fn_cbc_decrypt
  | fn_cbc_encrypt_iv | fn_cbc_decrypt_iv | fn_nocrypt | fn_nocrypt_iv.

Record cipher_tfm := {
  cit_mode : Z;
  cit_iv : Z;          (** the address of the vector, 0 when there is none *)
  cit_ivsize : Z;
  cit_xor_words : nat; (** the number of words [cit_xor_block] covers *)
  cit_encrypt : cipher_fn;
  cit_decrypt : cipher_fn;
  cit_encrypt_iv : cipher_fn;
  cit_decrypt_iv : cipher_fn
}.
#[export] Instance eta_cipher_tfm : Eta cipher_tfm := fun t =>
  {| cit_mode := cit_mode t; cit_iv := cit_iv t; cit_ivsize := cit_ivsize t; cit_xor_words := cit_xor_words t;
     cit_encrypt := cit_encrypt t; cit_decrypt := cit_decrypt t;
     cit_encrypt_iv := cit_encrypt_iv t; cit_decrypt_iv := cit_decrypt_iv t |}.

Record crypto_tfm (C : Type) := {
  crt_flags : Z;
  crt_alg : cipher_alg C;
  crt_ctx : C;
  crt_cipher : cipher_tfm
}.
Arguments crt_flags {C}.
Arguments crt_alg {C}.
Arguments crt_ctx {C}.
Arguments crt_cipher {C}.

(** The addresses of [tmp_src] and [tmp_dst] of [crypt] and of [stack] of
    [cbc_process]. *)
Record frame := { tmp_src : Z; tmp_dst : Z; stack : Z }.

(** ** Xor of blocks *)
Fixpoint xor_words (n : nat) (m : byte_mem) (a b : Z) : byte_mem :=
  match n with
  | O => m
  | S n => xor_words n (store32 m a (Z.lxor (load32 m a) (load32 m b))) (a + 4) (b + 4)
  end.
Definition xor_64 (m : byte_mem) (a b : Z) : byte_mem := xor_words 2 m a b.
Definition xor_128 (m : byte_mem) (a b : Z) : byte_mem := xor_words 4 m a b.
Definition cit_xor_block (t : cipher_tfm) (m : byte_mem) (a b : Z) : byte_mem :=
  if Nat.eqb (cit_xor_words t) 2 then xor_64 m a b else xor_128 m a b.

Section crypt.
Context {C : Type} (tfm : crypto_tfm C) (fr : frame).

Definition bsize : Z := cra_blocksize (crt_alg tfm).

(** [procfn_t]: [prfn dst src fn enc info in_place]. *)
Definition procfn := Z -> Z -> cryptfn -> bool -> Z -> bool -> byte_mem -> option byte_mem.

Definition cbc_process : procfn := fun dst src fn enc iv in_place m =>
  if iv =? 0 then Some m
  else if enc then
    let m := cit_xor_block (crt_cipher tfm) m iv src in
    match fn dst iv m with
    | Some m => Some (memcpy m iv dst (Z.to_nat bsize))
    | None => None
    end
  else
    let buf := if in_place then stack fr else dst in
    match fn buf src m with
    | Some m =>
        let m := cit_xor_block (crt_cipher tfm) m buf iv in
        let m := memcpy m iv src (Z.to_nat bsize) in
        Some (if negb (buf =? dst) then memcpy m dst buf (Z.to_nat bsize) else m)
    | None => None
    end.

Definition ecb_process : procfn := fun dst src fn enc info in_place m => fn dst src m.

(** The loop of [crypt]; [fuel] counts the blocks. *)
Fixpoint crypt_loop (fuel : nat) (win wout : scatter_walk) (nbytes : Z) (crfn : cryptfn) (prfn : procfn)
    (enc : bool) (info : Z) (m : byte_mem) : option byte_mem :=
  match fuel with
  | O => None
  | S fuel =>
      let win := scatterwalk_map win in
      let wout := scatterwalk_map wout in
      let src_p := scatterwalk_whichbuf win bsize (tmp_src fr) in
      let dst_p := scatterwalk_whichbuf wout bsize (tmp_dst fr) in
      let in_place := scatterwalk_samebuf win wout src_p dst_p in
      let nbytes := u32 (nbytes - bsize) in
      '(m, win) ← scatterwalk_copychunks m src_p win bsize false;
      m ← prfn dst_p src_p crfn enc info in_place m;
      win ← scatterwalk_done win (truth nbytes);
      '(m, wout) ← scatterwalk_copychunks m dst_p wout bsize true;
      wout ← scatterwalk_done wout (truth nbytes);
      if nbytes =? 0 then Some m else crypt_loop fuel win wout nbytes crfn prfn enc info m
  end%stdpp.

(** The return value, the flags and the memory. *)
Definition crypt (dst src : list scatterlist) (nbytes : Z) (crfn : cryptfn) (prfn : procfn)
    (enc : bool) (info : Z) (m : byte_mem) : option (Z * Z * byte_mem) :=
  if nbytes =? 0 then Some (0, crt_flags tfm, m)
  else if truth (nbytes mod bsize)
  then Some (- EINVAL, Z.lor (crt_flags tfm) CRYPTO_TFM_RES_BAD_BLOCK_LEN, m)
  else
   (win ← scatterwalk_start 0 src;
    wout ← scatterwalk_start 0 dst;
    m ← crypt_loop (Z.to_nat (nbytes / bsize)) win wout nbytes crfn prfn enc info m;
    Some (0, crt_flags tfm, m))%stdpp.

Definition ecb_encrypt (dst src : list scatterlist) (nbytes : Z) :=
  crypt dst src nbytes (cia_encrypt (crt_alg tfm) (crt_ctx tfm)) ecb_process true 0.
Definition ecb_decrypt (dst src : list scatterlist) (nbytes : Z) :=
  crypt dst src nbytes (cia_decrypt (crt_alg tfm) (crt_ctx tfm)) ecb_process true 0.
Definition cbc_encrypt (dst src : list scatterlist) (nbytes : Z) :=
  crypt dst src nbytes (cia_encrypt (crt_alg tfm) (crt_ctx tfm)) cbc_process true (cit_iv (crt_cipher tfm)).
Definition cbc_encrypt_iv (dst src : list scatterlist) (nbytes iv : Z) :=
  crypt dst src nbytes (cia_encrypt (crt_alg tfm) (crt_ctx tfm)) cbc_process true iv.
Definition cbc_decrypt (dst src : list scatterlist) (nbytes : Z) :=
  crypt dst src nbytes (cia_decrypt (crt_alg tfm) (crt_ctx tfm)) cbc_process false (cit_iv (crt_cipher tfm)).
Definition cbc_decrypt_iv (dst src : list scatterlist) (nbytes iv : Z) :=
  crypt dst src nbytes (cia_decrypt (crt_alg tfm) (crt_ctx tfm)) cbc_process false iv.
Definition nocrypt (dst src : list scatterlist) (nbytes : Z) (m : byte_mem) : option (Z * Z * byte_mem) :=
  Some (- ENOSYS, crt_flags tfm, m).
Definition nocrypt_iv (dst src : list scatterlist) (nbytes iv : Z) (m : byte_mem)
    : option (Z * Z * byte_mem) :=
  Some (- ENOSYS, crt_flags tfm, m).

(** A call through one of the function pointers; [None] for a pointer that is
    not set. *)
Definition call_cipher (f : cipher_fn) (dst src : list scatterlist) (nbytes iv : Z)
    : byte_mem -> option (Z * Z * byte_mem) :=
  match f with
  | fn_none => fun _ => None
  | fn_ecb_encrypt => ecb_encrypt dst src nbytes
  | fn_ecb_decrypt => ecb_decrypt dst src nbytes
  | fn_cbc_encrypt => cbc_encrypt dst src nbytes
  | fn_cbc_decrypt => cbc_decrypt dst src nbytes
  | fn_cbc_encrypt_iv => cbc_encrypt_iv dst src nbytes iv
  | fn_cbc_decrypt_iv => cbc_decrypt_iv dst src nbytes iv
  | fn_nocrypt => nocrypt dst src nbytes
  | fn_nocrypt_iv => nocrypt_iv dst src nbytes iv
  end.
End crypt.

(** ** Set-up *)
Section setup.
Context {C : Type}.

Definition with_cipher (tfm : crypto_tfm C) (t : cipher_tfm) : crypto_tfm C :=
  {| crt_flags := crt_flags tfm; crt_alg := crt_alg tfm; crt_ctx := crt_ctx tfm; crt_cipher := t |}.

Definition setkey (m : byte_mem) (tfm : crypto_tfm C) (key keylen : Z) : Z * crypto_tfm C :=
  let cia := crt_alg tfm in
  if (keylen <? cia_min_keysize cia) || (cia_max_keysize cia <? keylen) then
    (- EINVAL, {| crt_flags := Z.lor (crt_flags tfm) CRYPTO_TFM_RES_BAD_KEY_LEN; crt_alg := cia;
                  crt_ctx := crt_ctx tfm; crt_cipher := crt_cipher tfm |})
  else
    let '(ret, ctx, flags) := cia_setkey cia m (crt_ctx tfm) key keylen (crt_flags tfm) in
    (ret, {| crt_flags := flags; crt_alg := cia; crt_ctx := ctx; crt_cipher := crt_cipher tfm |}).

Definition crypto_init_cipher_flags (tfm : crypto_tfm C) (flags : Z) : Z * crypto_tfm C :=
  let mode := Z.land flags CRYPTO_TFM_MODE_MASK in
  let t := crt_cipher tfm in
  (0, {| crt_flags := if truth (Z.land flags CRYPTO_TFM_REQ_WEAK_KEY)
                      then CRYPTO_TFM_REQ_WEAK_KEY else crt_flags tfm;
         crt_alg := crt_alg tfm; crt_ctx := crt_ctx tfm;
         crt_cipher := t <| cit_mode := if truth mode then mode else CRYPTO_TFM_MODE_ECB |> |}).

(** The switch on the mode; [None] is its [BUG()]. *)
Definition mode_ops (t : cipher_tfm) : option cipher_tfm :=
  if cit_mode t =? CRYPTO_TFM_MODE_ECB then
    Some (t <| cit_encrypt := fn_ecb_encrypt |> <| cit_decrypt := fn_ecb_decrypt |>)
  else if cit_mode t =? CRYPTO_TFM_MODE_CBC then
    Some (t <| cit_encrypt := fn_cbc_encrypt |> <| cit_decrypt := fn_cbc_decrypt |>
            <| cit_encrypt_iv := fn_cbc_encrypt_iv |> <| cit_decrypt_iv := fn_cbc_decrypt_iv |>)
  else if (cit_mode t =? CRYPTO_TFM_MODE_CFB) || (cit_mode t =? CRYPTO_TFM_MODE_CTR) then
    Some (t <| cit_encrypt := fn_nocrypt |> <| cit_decrypt := fn_nocrypt |>
            <| cit_encrypt_iv := fn_nocrypt_iv |> <| cit_decrypt_iv := fn_nocrypt_iv |>)
  else None.

(** [iv] is the address [kmalloc] returns, 0 for a failure. *)
Definition crypto_init_cipher_ops (tfm : crypto_tfm C) (iv : Z) : option (Z * crypto_tfm C) :=
  match mode_ops (crt_cipher tfm) with
  | None => None
  | Some t =>
      let bs := cra_blocksize (crt_alg tfm) in
      if cit_mode t =? CRYPTO_TFM_MODE_CBC then
        if (bs =? 8) || (bs =? 16) then
          let t := t <| cit_xor_words := if bs =? 8 then 2%nat else 4%nat |>
                     <| cit_ivsize := bs |> <| cit_iv := iv |> in
          Some (if iv =? 0 then - ENOMEM else 0, with_cipher tfm t)
        else Some (- EINVAL, with_cipher tfm t)
      else Some (0, with_cipher tfm t)
  end.
End setup.
