(* ===== verification/CipherModes.v ===== *)
(** * Block modes over scatter lists refine block modes over byte strings

    [run_mode F n iv s] applies a mode [F] (a chaining value and a block to
    an output block and the next chaining value) to [n] blocks of [s].  The
    loop of crypto/cipher.c computes it on the bytes the scatter lists stand
    for, also when source and destination are the same memory. *)
From S2P Require Import Prelude.
From S2P Require Import Scatterwalk.
From S2P Require Import Cipher.

Definition disj (xs ys : list Z) : Prop := forall x, x ∈ xs -> x ∉ ys.
Definition bytes (s : list Z) : Prop := Forall (fun b => 0 <= b < 256) s.

Lemma disj_sym xs ys : disj xs ys -> disj ys xs.
Proof. intros H x Hy Hx. exact (H x Hx Hy). Qed.

Lemma disj_app xs ys zs : disj xs (ys ++ zs) <-> disj xs ys /\ disj xs zs.
Proof.
  unfold disj. split.
  - intros H. split; intros x Hx Hin; apply (H x Hx), elem_of_app; auto.
  - intros [H1 H2] x Hx [Hin|Hin]%elem_of_app; [by apply (H1 x)|by apply (H2 x)].
Qed.

Lemma disj_app_l xs ys zs : disj (xs ++ ys) zs <-> disj xs zs /\ disj ys zs.
Proof.
  unfold disj. split.
  - intros H. split; intros x Hx; apply H, elem_of_app; auto.
  - intros [H1 H2] x [Hin|Hin]%elem_of_app; auto.
Qed.

Lemma disj_mono xs xs' ys : (forall x, x ∈ xs' -> x ∈ xs) -> disj xs ys -> disj xs' ys.
Proof. intros H Hd x Hx. by apply Hd, H. Qed.

Lemma gather_frame m m' xs ys :
  disj xs ys -> (forall x, x ∉ ys -> m' x = m x) -> gather m' xs = gather m xs.
Proof. intros Hd H. apply gather_ext. intros x Hx. by apply H, Hd. Qed.

Fixpoint run_mode (bs : nat) (F : list Z -> list Z -> list Z * list Z) (n : nat) (iv s : list Z)
    : list Z * list Z :=
  match n with
  | O => ([], iv)
  | S n =>
      let '(o, iv1) := F iv (take bs s) in
      let '(os, iv2) := run_mode bs F n iv1 (drop bs s) in (o ++ os, iv2)
  end.

(** ** One block *)
Section block.
Context {C : Type} (tfm : crypto_tfm C) (fr : frame).
Context (crfn : cryptfn) (prfn : procfn) (enc : bool) (info : Z).
Context (ivs : list Z) (F : list Z -> list Z -> list Z * list Z).

Abbreviation bs := (bsize tfm).
Definition blk (a : Z) : list Z := seqZ a bs.

(** The memory of the loop's own: the chaining value and the local arrays. *)
Definition priv : list Z := ivs ++ blk (stack fr) ++ blk (tmp_src fr) ++ blk (tmp_dst fr).

(** What the loop requires of [prfn]. *)
Definition proc_ok : Prop := forall m dst src (in_place : bool),
  (if in_place then dst = src else disj (blk dst) (blk src)) ->
  disj (blk dst) (ivs ++ blk (stack fr)) -> disj (blk src) (ivs ++ blk (stack fr)) ->
  bytes (gather m (blk src)) -> bytes (gather m ivs) ->
  exists m', prfn dst src crfn enc info in_place m = Some m' /\
    gather m' (blk dst) = (F (gather m ivs) (gather m (blk src))).1 /\
    gather m' ivs = (F (gather m ivs) (gather m (blk src))).2 /\ bytes (gather m' ivs) /\
    forall x, x ∉ blk dst ++ ivs ++ blk (stack fr) -> m' x = m x.

Context (Hbs : 0 < bs < 2 ^ 32) (Hpriv : NoDup priv) (Hproc : proc_ok).

(** The source and destination of one block. *)
Record pair_ok (A B : list Z) : Prop := {
  pair_nodup : NoDup B;
  pair_same : forall i j x, A !! i = Some x -> B !! j = Some x -> i = j;
  pair_src : disj A priv;
  pair_dst : disj B priv
}.

Lemma priv_parts xs :
  disj xs priv <-> disj xs ivs /\ disj xs (blk (stack fr)) /\ disj xs (blk (tmp_src fr)) /\ disj xs (blk (tmp_dst fr)).
Proof using. unfold priv. by rewrite !disj_app. Qed.

Lemma priv_disj :
  disj ivs (blk (stack fr)) /\ disj ivs (blk (tmp_src fr)) /\ disj ivs (blk (tmp_dst fr)) /\
  disj (blk (stack fr)) (blk (tmp_src fr)) /\ disj (blk (stack fr)) (blk (tmp_dst fr)) /\
  disj (blk (tmp_src fr)) (blk (tmp_dst fr)).
Proof using Hpriv.
  unfold priv in Hpriv. apply NoDup_app in Hpriv as (_ & H1 & H2). apply NoDup_app in H2 as (_ & H2 & H3).
  apply NoDup_app in H3 as (_ & H3 & _).
  apply disj_app in H1 as [? H1]. apply disj_app in H1 as [??]. apply disj_app in H2 as [??]. done.
Qed.

Lemma whichbuf_spec w scratch :
  walk_ok w -> fresh w -> bs <= Z.of_nat (length (walk_addrs w)) ->
  disj (take (Z.to_nat bs) (walk_addrs w)) (blk scratch) ->
  let w := scatterwalk_map w in
  let p := scatterwalk_whichbuf w bs scratch in
  (p = data w /\ bs <= len_this_page w /\ take (Z.to_nat bs) (walk_addrs w) = blk p) \/
  (p = scratch /\ p <> data w).
Proof using Hbs.
  intros Hok Hf Hlen Hd. cbv zeta. unfold scatterwalk_whichbuf.
  destruct (_ && _) eqn:E; [left|right]; (split; [done|]).
  - apply andb_true_iff in E as [E%Z.leb_le _]. simpl in *. split; [done|]. destruct Hok.
    unfold walk_addrs. simpl. rewrite take_app_le by (rewrite length_seqZ; lia). by rewrite take_seqZ by lia.
  - intros Es. apply (Hd (data (scatterwalk_map w))).
    + destruct Hok. unfold fresh in Hf. unfold walk_addrs. rewrite seqZ_cons by lia.
      destruct (Z.to_nat bs) eqn:Eb; [lia|]. simpl. by left.
    + rewrite <- Es. apply elem_of_seqZ. lia.
Qed.

Lemma samebuf_spec win wout src_p dst_p A B :
  walk_ok win -> walk_ok wout -> fresh win -> fresh wout -> pair_ok A B ->
  let win := scatterwalk_map win in
  let wout := scatterwalk_map wout in
  (src_p = data win /\ A = blk src_p \/ src_p = tmp_src fr) ->
  (dst_p = data wout /\ B = blk dst_p \/ dst_p = tmp_dst fr) ->
  if scatterwalk_samebuf win wout src_p dst_p then dst_p = src_p else disj (blk dst_p) (blk src_p).
Proof using Hbs Hpriv.
  intros [] [] Hf1 Hf2 [Hnd Hsame HA HB]. cbv zeta. intros Hs Hd.
  destruct (scatterwalk_samebuf _ _ _ _) eqn:E.
  { unfold scatterwalk_samebuf in E. rewrite !andb_true_iff, !Z.eqb_eq in E. simpl in *. lia. }
  intros x Hx1 Hx2. apply priv_parts in HA as (_ & _ & HAs & HAd). apply priv_parts in HB as (_ & _ & HBs & HBd).
  destruct Hs as [[Es EA]| ->], Hd as [[Ed EB]| ->].
  - apply elem_of_seqZ in Hx1, Hx2.
    assert (Z.to_nat (x - src_p) = Z.to_nat (x - dst_p)) as Ex.
    { apply (Hsame _ _ x); [rewrite EA|rewrite EB]; unfold blk; rewrite lookup_seqZ; lia. }
    assert (src_p = dst_p) as Ep by lia.
    unfold scatterwalk_samebuf, fresh, PAGE_SIZE in *. simpl in *. unfold PAGE_SIZE in *.
    rewrite !andb_false_iff, !Z.eqb_neq in E. lia.
  - rewrite <- EA in Hx2. by apply (HAd x).
  - rewrite <- EB in Hx1. by apply (HBs x).
  - destruct priv_disj as (_ & _ & _ & _ & _ & H). by apply (H x).
Qed.

(** Copying a block in makes it available at the buffer. *)
Lemma copy_in_ok m w scratch :
  walk_ok w -> fresh w -> bs <= Z.of_nat (length (walk_addrs w)) ->
  disj (take (Z.to_nat bs) (walk_addrs w)) (blk scratch) ->
  let A := take (Z.to_nat bs) (walk_addrs w) in
  let p := scatterwalk_whichbuf (scatterwalk_map w) bs scratch in
  (p = data (scatterwalk_map w) /\ A = blk p \/ p = scratch) /\
  exists m1 w1, scatterwalk_copychunks m p (scatterwalk_map w) bs false = Some (m1, w1) /\
    walk_ok w1 /\ walk_addrs w1 = drop (Z.to_nat bs) (walk_addrs w) /\
    gather m1 (blk p) = gather m A /\ forall x, x ∉ blk scratch -> m1 x = m x.
Proof using Hbs.
  intros Hok Hf Hlen Hd A p. assert (walk_ok (scatterwalk_map w)) as Hok' by (destruct Hok; by split).
  pose proof (whichbuf_spec w scratch Hok Hf Hlen Hd) as Hp. cbv zeta in Hp. fold p in Hp.
  change (walk_addrs (scatterwalk_map w)) with (walk_addrs w) in Hp.
  destruct (copychunks_ok false m p (scatterwalk_map w) bs) as (w1 & E & Hok1 & Ha); [done|done|done|lia|done| |].
  { destruct (Z.eqb_spec p (data (scatterwalk_map w))); [|destruct Hp as [[? _]|[-> _]]; [done|by apply disj_sym]].
    destruct Hp as [(_ & ? & _)|[_ ?]]; done. }
  destruct Hp as [(Ep & Hle & HA)|[Ep Hne]]; (split; [by eauto|]); rewrite E; do 2 eexists; (split; [done|]);
    (split_and!; [done..| |]).
  - apply Z.eqb_eq in Ep. rewrite Ep. unfold A. by rewrite HA.
  - intros x _. apply Z.eqb_eq in Ep. by rewrite Ep.
  - apply Z.eqb_neq in Hne. rewrite Hne. apply gather_transfer; [apply NoDup_seqZ|].
    unfold A, blk.
    rewrite length_take, length_seqZ. lia.
  - intros x Hx. apply Z.eqb_neq in Hne. rewrite Hne. apply transfer_ne. simpl. by rewrite Ep.
Qed.

(** Copying a block out puts the bytes of the buffer in their places. *)
Lemma copy_out_ok m w scratch :
  walk_ok w -> fresh w -> bs <= Z.of_nat (length (walk_addrs w)) ->
  disj (take (Z.to_nat bs) (walk_addrs w)) (blk scratch) -> NoDup (take (Z.to_nat bs) (walk_addrs w)) ->
  let A := take (Z.to_nat bs) (walk_addrs w) in
  let p := scatterwalk_whichbuf (scatterwalk_map w) bs scratch in
  exists m1 w1, scatterwalk_copychunks m p (scatterwalk_map w) bs true = Some (m1, w1) /\
    walk_ok w1 /\ walk_addrs w1 = drop (Z.to_nat bs) (walk_addrs w) /\
    gather m1 A = gather m (blk p) /\ forall x, x ∉ A -> m1 x = m x.
Proof using Hbs.
  intros Hok Hf Hlen Hd Hnd A p. assert (walk_ok (scatterwalk_map w)) as Hok' by (destruct Hok; by split).
  pose proof (whichbuf_spec w scratch Hok Hf Hlen Hd) as Hp. cbv zeta in Hp. fold p in Hp.
  change (walk_addrs (scatterwalk_map w)) with (walk_addrs w) in Hp.
  destruct (copychunks_ok true m p (scatterwalk_map w) bs) as (w1 & E & Hok1 & Ha); [done|done|done|lia|done| |].
  { destruct (Z.eqb_spec p (data (scatterwalk_map w))); [|destruct Hp as [[? _]|[-> _]]; [done|by apply disj_sym]].
    destruct Hp as [(_ & ? & _)|[_ ?]]; done. }
  rewrite E. do 2 eexists. split; [done|]. split_and!; [done..| |].
  - destruct Hp as [(Ep & Hle & HA)|[Ep Hne]].
    + apply Z.eqb_eq in Ep. rewrite Ep. unfold A. by rewrite HA.
    + apply Z.eqb_neq in Hne. rewrite Hne. apply gather_transfer; [done|].
      unfold A, blk.
    rewrite length_take, length_seqZ. lia.
  - intros x Hx. case_match; [done|]. by apply transfer_ne.
Qed.

(** One round of the loop. *)
Lemma round_ok fuel m win wout nbytes :
  walk_ok win -> fresh win -> walk_ok wout -> fresh wout ->
  bs <= nbytes < 2 ^ 32 ->
  nbytes <= Z.of_nat (length (walk_addrs win)) -> nbytes <= Z.of_nat (length (walk_addrs wout)) ->
  let A := take (Z.to_nat bs) (walk_addrs win) in
  let B := take (Z.to_nat bs) (walk_addrs wout) in
  pair_ok A B -> bytes (gather m A) -> bytes (gather m ivs) ->
  exists m' win' wout',
    crypt_loop tfm fr (S fuel) win wout nbytes crfn prfn enc info m =
      (if nbytes - bs =? 0 then Some m'
       else crypt_loop tfm fr fuel win' wout' (nbytes - bs) crfn prfn enc info m') /\
    (nbytes - bs <> 0 -> walk_ok win' /\ fresh win' /\ walk_ok wout' /\ fresh wout' /\
       walk_addrs win' = drop (Z.to_nat bs) (walk_addrs win) /\
       walk_addrs wout' = drop (Z.to_nat bs) (walk_addrs wout)) /\
    gather m' B = (F (gather m ivs) (gather m A)).1 /\ gather m' ivs = (F (gather m ivs) (gather m A)).2 /\
    bytes (gather m' ivs) /\ forall x, x ∉ B ++ priv -> m' x = m x.
Proof using Hbs Hpriv Hproc.
  intros Hi Hfi Ho Hfo Hn HlA HlB A B HAB HbA Hbiv. pose proof HAB as [Hnd _ HA HB].
  apply priv_parts in HA as (HAi & HAst & HAs & HAd). apply priv_parts in HB as (HBi & HBst & HBs & HBd).
  destruct priv_disj as (Pis & Pit & Pid & Pst & Psd & Ptd).
  destruct (copy_in_ok m win (tmp_src fr)) as [Hsp (m1 & w1 & E1 & Hok1 & Ha1 & G1 & Fr1)]; [done|done|lia|done|].
  fold A in Hsp, G1. set (src_p := scatterwalk_whichbuf (scatterwalk_map win) bs (tmp_src fr)) in *.
  destruct (copy_in_ok m wout (tmp_dst fr)) as [Hdp _]; [done|done|lia|done|].
  fold B in Hdp. set (dst_p := scatterwalk_whichbuf (scatterwalk_map wout) bs (tmp_dst fr)) in *.
  pose proof (samebuf_spec win wout src_p dst_p A B Hi Ho Hfi Hfo HAB Hsp Hdp) as Hin. cbv zeta in Hin.
  assert (disj (blk src_p) (ivs ++ blk (stack fr))) as Dsrc.
  { apply disj_app. destruct Hsp as [[_ <-]| ->]; split; done || by apply disj_sym. }
  assert (disj (blk dst_p) (ivs ++ blk (stack fr))) as Ddst.
  { apply disj_app. destruct Hdp as [[_ <-]| ->]; split; done || by apply disj_sym. }
  assert (gather m1 ivs = gather m ivs) as Eiv by (by apply (gather_frame _ _ _ (blk (tmp_src fr)))).
  destruct (Hproc m1 dst_p src_p _ Hin Ddst Dsrc) as (m2 & E2 & G2 & I2 & B2 & Fr2);
    [by rewrite G1|by rewrite Eiv|].
  rewrite G1, Eiv in G2, I2.
  destruct (copy_out_ok m2 wout (tmp_dst fr)) as (m3 & w3 & E3 & Hok3 & Ha3 & G3 & Fr3); [done|done|lia|done|done|].
  fold B in G3, Fr3. fold dst_p in E3, G3.
  destruct (done_ok w1 (truth (nbytes - bs))) as (w1' & D1 & H1).
  { done. }
  { intros T E%(f_equal length). rewrite Ha1, length_drop in E. unfold truth in T. simpl in E. lia. }
  destruct (done_ok w3 (truth (nbytes - bs))) as (w3' & D3 & H3).
  { done. }
  { intros T E%(f_equal length). rewrite Ha3, length_drop in E. unfold truth in T. simpl in E. lia. }
  exists m3, w1', w3'. split_and!.
  - cbn [crypt_loop]. fold src_p dst_p. rewrite E1. simpl. rewrite E2. simpl. rewrite u32_small by lia.
    rewrite D1. simpl. rewrite E3. simpl. by rewrite D3.
  - intros Hne. destruct H1 as (? & ? & E1'); [unfold truth; lia|].
    destruct H3 as (? & ? & E3'); [unfold truth; lia|]. rewrite E1', E3'. done.
  - by rewrite G3.
  - rewrite (gather_frame m2 m3 ivs B); [done|by apply disj_sym|done].
  - rewrite (gather_frame m2 m3 ivs B); [done|by apply disj_sym|done].
  - intros x Hx. apply not_elem_of_app in Hx as [HxB Hx]. unfold priv in Hx. rewrite !not_elem_of_app in Hx.
    destruct Hx as (? & ? & ? & ?). rewrite Fr3, Fr2, Fr1; try done.
    rewrite !not_elem_of_app. split_and!; [|done..].
    destruct Hdp as [[_ <-]| ->]; done.
Qed.

(** ** All blocks *)
Lemma pair_ok_take k A B : pair_ok A B -> pair_ok (take k A) (take k B).
Proof using.
  intros [H1 H2 H3 H4]. split.
  - rewrite <- (take_drop k B) in H1. by apply NoDup_app in H1 as [? _].
  - intros i j x [Hi _]%lookup_take_Some [Hj _]%lookup_take_Some. by apply (H2 i j x).
  - eapply disj_mono, H3. intros x (i & ? & _)%elem_of_take. by eapply list_elem_of_lookup_2.
  - eapply disj_mono, H4. intros x (i & ? & _)%elem_of_take. by eapply list_elem_of_lookup_2.
Qed.

Lemma pair_ok_drop k A B : pair_ok A B -> pair_ok (drop k A) (drop k B).
Proof using.
  intros [H1 H2 H3 H4]. split.
  - rewrite <- (take_drop k B) in H1. by apply NoDup_app in H1 as (_ & _ & ?).
  - intros i j x Hi Hj. rewrite lookup_drop in Hi, Hj. specialize (H2 _ _ _ Hi Hj). lia.
  - eapply disj_mono, H3. intros x (i & Hi)%list_elem_of_lookup. rewrite lookup_drop in Hi.
    by eapply list_elem_of_lookup_2.
  - eapply disj_mono, H4. intros x (i & Hi)%list_elem_of_lookup. rewrite lookup_drop in Hi.
    by eapply list_elem_of_lookup_2.
Qed.

(** What is still to be read is not what has been written. *)
Lemma pair_rest k A B : pair_ok A B -> disj (drop k A) (take k B ++ priv).
Proof using.
  intros H. apply disj_app. split; [|apply (pair_ok_drop k A B H)].
  intros x (i & Hi)%list_elem_of_lookup (j & Hj & Hlt)%elem_of_take. rewrite lookup_drop in Hi.
  pose proof (pair_same _ _ H _ _ _ Hi Hj). lia.
Qed.

Lemma run_gather n m A iv :
  run_mode (Z.to_nat bs) F (S n) iv (gather m A) =
  (let '(o, iv1) := F iv (gather m (take (Z.to_nat bs) A)) in
   let '(os, iv2) := run_mode (Z.to_nat bs) F n iv1 (gather m (drop (Z.to_nat bs) A)) in (o ++ os, iv2)).
Proof using. unfold gather. by rewrite fmap_take, fmap_drop. Qed.

(** The effect of a round followed by the effect of [n] more rounds. *)
Definition effect (n : nat) (A B : list Z) (m m' : byte_mem) : Prop :=
  gather m' B = (run_mode (Z.to_nat bs) F n (gather m ivs) (gather m A)).1 /\
  gather m' ivs = (run_mode (Z.to_nat bs) F n (gather m ivs) (gather m A)).2 /\
  forall x, x ∉ B ++ priv -> m' x = m x.

Lemma effect_cons n A B m m1 m2 :
  pair_ok A B ->
  gather m1 (take (Z.to_nat bs) B) = (F (gather m ivs) (gather m (take (Z.to_nat bs) A))).1 ->
  gather m1 ivs = (F (gather m ivs) (gather m (take (Z.to_nat bs) A))).2 ->
  (forall x, x ∉ take (Z.to_nat bs) B ++ priv -> m1 x = m x) ->
  effect n (drop (Z.to_nat bs) A) (drop (Z.to_nat bs) B) m1 m2 ->
  effect (S n) A B m m2.
Proof using.
  intros HAB G1 I1 Fr1 (G2 & I2 & Fr2). unfold effect. rewrite run_gather.
  assert (gather m1 (drop (Z.to_nat bs) A) = gather m (drop (Z.to_nat bs) A)) as Erest.
  { apply (gather_frame _ _ _ (take (Z.to_nat bs) B ++ priv)); [by apply pair_rest|done]. }
  rewrite Erest, I1 in G2, I2. destruct (F _ _) as [o iv1]. cbn [fst snd] in *.
  destruct (run_mode _ F n iv1 _) as [os iv2]. cbn [fst snd] in *.
  pose proof (pair_nodup _ _ HAB) as Hnd. rewrite <- (take_drop (Z.to_nat bs) B) in Hnd.
  apply NoDup_app in Hnd as (_ & Hnd & _).
  split_and!; [|done|].
  - rewrite <- (take_drop (Z.to_nat bs) B), gather_app, G2. f_equal. rewrite <- G1.
    apply (gather_frame _ _ _ (drop (Z.to_nat bs) B ++ priv)); [|done]. apply disj_app. split; [done|].
    apply (pair_ok_take (Z.to_nat bs) A B HAB).
  - rewrite <- (take_drop (Z.to_nat bs) B). intros x Hx. rewrite !not_elem_of_app in Hx.
    destruct Hx as [[??]?]. by rewrite Fr2, Fr1 by (by rewrite not_elem_of_app).
Qed.

Lemma effect_0 B m : B = [] -> effect 0 [] B m m.
Proof using. by intros ->. Qed.

Lemma loop_ok n m win wout nbytes :
  walk_ok win -> fresh win -> walk_ok wout -> fresh wout ->
  nbytes = Z.of_nat (S n) * bs -> nbytes < 2 ^ 32 ->
  nbytes <= Z.of_nat (length (walk_addrs win)) -> nbytes <= Z.of_nat (length (walk_addrs wout)) ->
  let A := take (Z.to_nat nbytes) (walk_addrs win) in
  let B := take (Z.to_nat nbytes) (walk_addrs wout) in
  pair_ok A B -> bytes (gather m A) -> bytes (gather m ivs) ->
  exists m', crypt_loop tfm fr (S n) win wout nbytes crfn prfn enc info m = Some m' /\ effect (S n) A B m m'.
Proof using Hbs Hpriv Hproc.
  revert m win wout nbytes. induction n as [|n IH];
    intros m win wout nbytes Hi Hfi Ho Hfo En Hn HlA HlB A B HAB HbA Hbiv.
  all: assert (take (Z.to_nat bs) (walk_addrs win) = take (Z.to_nat bs) A) as EA
    by (unfold A; rewrite take_take; f_equal; lia).
  all: assert (take (Z.to_nat bs) (walk_addrs wout) = take (Z.to_nat bs) B) as EB
    by (unfold B; rewrite take_take; f_equal; lia).
  all: pose proof (pair_ok_take (Z.to_nat bs) A B HAB) as HAB1.
  all: assert (bytes (gather m (take (Z.to_nat bs) A))) as HbA1
    by (unfold gather; rewrite fmap_take; by apply Forall_take).
  - destruct (round_ok 0 m win wout nbytes) as (m1 & win1 & wout1 & E1 & _ & G1 & I1 & _ & Fr1);
      rewrite ?EA, ?EB in *; [done..|lia|lia|lia|done|done|done|].
    exists m1. rewrite E1. destruct (Z.eqb_spec (nbytes - bs) 0); [|lia]. split; [done|].
    apply (effect_cons 0 A B m m1 m1); [done..|]. rewrite !drop_ge by (unfold A, B; rewrite length_take; lia).
    by apply effect_0.
  - destruct (round_ok (S n) m win wout nbytes) as (m1 & win1 & wout1 & E1 & W1 & G1 & I1 & B1 & Fr1);
      rewrite ?EA, ?EB in *; [done..|lia|lia|lia|done|done|done|].
    destruct (Z.eqb_spec (nbytes - bs) 0) as [|Hne]; [lia|]. rewrite E1.
    destruct (W1 Hne) as (Hi1 & Hfi1 & Ho1 & Hfo1 & Ea1 & Eb1).
    assert (take (Z.to_nat (nbytes - bs)) (walk_addrs win1) = drop (Z.to_nat bs) A) as EA1.
    { unfold A. rewrite Ea1, take_drop_commute. do 2 f_equal. lia. }
    assert (take (Z.to_nat (nbytes - bs)) (walk_addrs wout1) = drop (Z.to_nat bs) B) as EB1.
    { unfold B. rewrite Eb1, take_drop_commute. do 2 f_equal. lia. }
    destruct (IH m1 win1 wout1 (nbytes - bs)) as (m2 & E2 & Eff); rewrite ?EA1, ?EB1 in *; try done; try lia.
    { rewrite Ea1, length_drop. lia. } { rewrite Eb1, length_drop. lia. } { by apply pair_ok_drop. }
    { rewrite (gather_frame m m1 _ (take (Z.to_nat bs) B ++ priv)); [|by apply pair_rest|done].
      unfold gather. rewrite fmap_drop. by apply Forall_drop. }
    exists m2. split; [done|]. by apply (effect_cons (S n) A B m m1 m2).
Qed.

(** [crypt] on scatter lists is the mode on the bytes they stand for. *)
Lemma crypt_ok n m dst src :
  src <> [] -> dst <> [] -> Forall entry_ok src -> Forall entry_ok dst ->
  let nbytes := Z.of_nat (S n) * bs in
  nbytes < 2 ^ 32 -> nbytes <= Z.of_nat (length (sg_addrs src)) -> nbytes <= Z.of_nat (length (sg_addrs dst)) ->
  let A := take (Z.to_nat nbytes) (sg_addrs src) in
  let B := take (Z.to_nat nbytes) (sg_addrs dst) in
  pair_ok A B -> bytes (gather m A) -> bytes (gather m ivs) ->
  exists m', crypt tfm fr dst src nbytes crfn prfn enc info m = Some (0, crt_flags tfm, m') /\ effect (S n) A B m m'.
Proof using Hbs Hpriv Hproc.
  intros Hs Hd Hse Hde nbytes Hn HlA HlB A B HAB HbA Hbiv. unfold crypt.
  destruct (Z.eqb_spec nbytes 0); [lia|]. unfold nbytes at 1. rewrite Z.mod_mul by lia. cbn [truth negb Z.eqb].
  destruct (start_ok 0 src Hs Hse) as (win & -> & Hi & Hfi & EA & _).
  destruct (start_ok 0 dst Hd Hde) as (wout & -> & Ho & Hfo & EB & _). simpl.
  destruct (loop_ok n m win wout nbytes) as (m' & E & Heff); rewrite ?EA, ?EB in *; try done.
  unfold nbytes at 1. rewrite Z.div_mul by lia. rewrite Nat2Z.id, E. simpl. by exists m'.
Qed.
End block.

(** ** ECB and CBC over any block cipher

    [BlockCipher] is what crypto/cipher.c relies on in a cipher; the modes are
    proved against it. *)
(** ** Words and bytes *)
Definition word_of (s : list Z) : Z :=
  s !!! 0%nat + 2 ^ 8 * s !!! 1%nat + 2 ^ 16 * s !!! 2%nat + 2 ^ 24 * s !!! 3%nat.

Lemma seqZ_4 a : seqZ a 4 = [a; a + 1; a + 2; a + 3].
Proof. rewrite !seqZ_cons by lia. rewrite seqZ_nil by lia. repeat f_equal; lia. Qed.

Lemma load32_gather m a : load32 m a = word_of (gather m (seqZ a 4)).
Proof. by rewrite seqZ_4. Qed.

Lemma bytes_4 s : length s = 4%nat -> bytes s ->
  exists a b c d, s = [a; b; c; d] /\ 0 <= a < 256 /\ 0 <= b < 256 /\ 0 <= c < 256 /\ 0 <= d < 256.
Proof.
  intros Hl Hb. destruct s as [|a [|b [|c [|d [|]]]]]; simpl in Hl; try lia.
  repeat apply Forall_cons in Hb as [? Hb]. by exists a, b, c, d.
Qed.

Lemma le_bytes_word s : length s = 4%nat -> bytes s -> le_bytes (word_of s) = s.
Proof.
  intros Hl Hb. destruct (bytes_4 s Hl Hb) as (a & b & c & d & -> & ? & ? & ? & ?).
  unfold le_bytes, word_of, u8. simpl. repeat f_equal; Z.to_euclidean_division_equations; lia.
Qed.

Lemma word_range s : length s = 4%nat -> bytes s -> 0 <= word_of s < 2 ^ 32.
Proof.
  intros Hl Hb. destruct (bytes_4 s Hl Hb) as (a & b & c & d & -> & ? & ? & ? & ?). unfold word_of. simpl. lia.
Qed.

Lemma word_le_bytes v : 0 <= v < 2 ^ 32 -> word_of (le_bytes v) = v.
Proof. intros Hv. unfold le_bytes, word_of, u8. simpl. Z.to_euclidean_division_equations; lia. Qed.

Lemma le_bytes_ok v : length (le_bytes v) = 4%nat /\ bytes (le_bytes v).
Proof. split; [done|]. unfold bytes, le_bytes. repeat (apply Forall_cons; split); try apply u8_range. done. Qed.

Lemma u8_lxor x y : u8 (Z.lxor x y) = Z.lxor (u8 x) (u8 y).
Proof.
  unfold u8. apply Z.bits_inj'. intros i Hi. rewrite Z.lxor_spec. destruct (Z.lt_ge_cases i 8).
  - by rewrite !Z.mod_pow2_bits_low, Z.lxor_spec by lia.
  - by rewrite !Z.mod_pow2_bits_high by lia.
Qed.

Lemma div_lxor x y k : 0 <= k -> Z.lxor x y / 2 ^ k = Z.lxor (x / 2 ^ k) (y / 2 ^ k).
Proof. intros Hk. rewrite <- !Z.shiftr_div_pow2 by done. apply Z.shiftr_lxor. Qed.

Lemma le_bytes_lxor x y : le_bytes (Z.lxor x y) = zip_with Z.lxor (le_bytes x) (le_bytes y).
Proof. unfold le_bytes. simpl. rewrite !(div_lxor x y), !u8_lxor by lia. done. Qed.

Lemma xor_bytes s t : bytes s -> bytes t -> bytes (zip_with Z.lxor s t).
Proof.
  intros Hs. revert t. induction Hs as [|a s Ha Hs IH]; intros t Ht; [constructor|].
  destruct Ht as [|b t Hb Ht]; [constructor|]. simpl. apply Forall_cons. split; [|by apply IH].
  assert (Z.lxor a b = u8 (Z.lxor a b)) as -> by (rewrite u8_lxor, !u8_small by lia; done). apply u8_range.
Qed.

Lemma xor_cancel s t : length s = length t -> zip_with Z.lxor (zip_with Z.lxor s t) s = t.
Proof.
  revert t. induction s as [|a s IH]; intros [|b t] Hl; simpl in *; try lia; [done|].
  f_equal; [|apply IH; lia]. rewrite (Z.lxor_comm a b), Z.lxor_assoc, Z.lxor_nilpotent. apply Z.lxor_0_r.
Qed.

Lemma store32_spec m a v :
  gather (store32 m a v) (seqZ a 4) = le_bytes v /\ forall x, x ∉ seqZ a 4 -> store32 m a v x = m x.
Proof.
  unfold store32. rewrite write_scatter. change (Z.of_nat (length (le_bytes v))) with 4. split.
  - apply gather_scatter; [apply NoDup_seqZ|by rewrite length_seqZ].
  - intros x. apply scatter_ne.
Qed.

Lemma xor_words_spec n m a b :
  disj (seqZ a (4 * Z.of_nat n)) (seqZ b (4 * Z.of_nat n)) ->
  bytes (gather m (seqZ a (4 * Z.of_nat n))) -> bytes (gather m (seqZ b (4 * Z.of_nat n))) ->
  gather (xor_words n m a b) (seqZ a (4 * Z.of_nat n)) =
    zip_with Z.lxor (gather m (seqZ a (4 * Z.of_nat n))) (gather m (seqZ b (4 * Z.of_nat n))) /\
  forall x, x ∉ seqZ a (4 * Z.of_nat n) -> xor_words n m a b x = m x.
Proof.
  revert m a b. induction n as [|n IH]; intros m a b Hd Ha Hb; [by rewrite !seqZ_nil by lia|].
  assert (forall c, seqZ c (4 * Z.of_nat (S n)) = seqZ c 4 ++ seqZ (c + 4) (4 * Z.of_nat n)) as Es.
  { intros c. rewrite <- seqZ_app by lia. f_equal. lia. }
  rewrite !Es in *. rewrite !gather_app in *. apply Forall_app in Ha as [Ha1 Ha2], Hb as [Hb1 Hb2].
  apply disj_app in Hd as [Hd1 Hd2]. apply disj_app_l in Hd1 as [Hd1 Hd3], Hd2 as [Hd2 Hd4].
  assert (disj (seqZ (a + 4) (4 * Z.of_nat n)) (seqZ a 4)) as Haa.
  { intros x Hx%elem_of_seqZ Hy%elem_of_seqZ. lia. }
  cbn [xor_words]. set (v := Z.lxor (load32 m a) (load32 m b)). destruct (store32_spec m a v) as [G Fr].
  set (m1 := store32 m a v) in *.
  assert (gather m1 (seqZ (a + 4) (4 * Z.of_nat n)) = gather m (seqZ (a + 4) (4 * Z.of_nat n))) as E1
    by (by apply (gather_frame _ _ _ (seqZ a 4))).
  assert (gather m1 (seqZ (b + 4) (4 * Z.of_nat n)) = gather m (seqZ (b + 4) (4 * Z.of_nat n))) as E2
    by (apply (gather_frame _ _ _ (seqZ a 4)); [by apply disj_sym|done]).
  destruct (IH m1 (a + 4) (b + 4)) as [G' Fr']; [done|by rewrite E1|by rewrite E2|].
  split.
  - rewrite G', E1, E2, (gather_frame m1 _ _ (seqZ (a + 4) (4 * Z.of_nat n))), G by (done || by apply disj_sym).
    unfold v. rewrite !load32_gather, le_bytes_lxor, !le_bytes_word by (done || by rewrite length_gather).
    by rewrite zip_with_app by (by rewrite !length_gather).
  - intros x [Hx1 Hx2]%not_elem_of_app. by rewrite Fr', Fr.
Qed.

(** ** The interface of a block cipher *)
Class BlockCipher {C : Type} (alg : cipher_alg C) := {
  enc_block : C -> list Z -> list Z;
  dec_block : C -> list Z -> list Z;
  block_size : cra_blocksize alg = 8 \/ cra_blocksize alg = 16;
  enc_block_bytes c s : length s = Z.to_nat (cra_blocksize alg) -> bytes s ->
    length (enc_block c s) = Z.to_nat (cra_blocksize alg) /\ bytes (enc_block c s);
  dec_block_length c s : length s = Z.to_nat (cra_blocksize alg) -> bytes s ->
    length (dec_block c s) = Z.to_nat (cra_blocksize alg) /\ bytes (dec_block c s);
  dec_enc_block c s : length s = Z.to_nat (cra_blocksize alg) -> bytes s -> dec_block c (enc_block c s) = s;
  encrypt_spec c m dst src :
    bytes (gather m (seqZ src (cra_blocksize alg))) ->
    exists m', cia_encrypt alg c dst src m = Some m' /\
      gather m' (seqZ dst (cra_blocksize alg)) = enc_block c (gather m (seqZ src (cra_blocksize alg))) /\
      forall x, x ∉ seqZ dst (cra_blocksize alg) -> m' x = m x;
  decrypt_spec c m dst src :
    bytes (gather m (seqZ src (cra_blocksize alg))) ->
    exists m', cia_decrypt alg c dst src m = Some m' /\
      gather m' (seqZ dst (cra_blocksize alg)) = dec_block c (gather m (seqZ src (cra_blocksize alg))) /\
      forall x, x ∉ seqZ dst (cra_blocksize alg) -> m' x = m x
}.

(** ** The modes on blocks *)
Section modes.
Context {C : Type} (tfm : crypto_tfm C) (fr : frame) `{!BlockCipher (crt_alg tfm)}.

Abbreviation bs := (bsize tfm).
Abbreviation enc1 := (enc_block (crt_ctx tfm)).
Abbreviation dec1 := (dec_block (crt_ctx tfm)).

Definition ecb_enc_block (iv s : list Z) : list Z * list Z := (enc1 s, iv).
Definition ecb_dec_block (iv s : list Z) : list Z * list Z := (dec1 s, iv).
Definition cbc_enc_block (iv s : list Z) : list Z * list Z :=
  let o := enc1 (zip_with Z.lxor iv s) in (o, o).
Definition cbc_dec_block (iv s : list Z) : list Z * list Z := (zip_with Z.lxor (dec1 s) iv, s).

Lemma bsize_pos : 0 < bs < 2 ^ 32.
Proof using BlockCipher0. unfold bsize. destruct block_size as [-> | ->]; lia. Qed.

Lemma ecb_encrypt_proc : proc_ok tfm fr (cia_encrypt (crt_alg tfm) (crt_ctx tfm)) (ecb_process) true 0 [] ecb_enc_block.
Proof using BlockCipher0.
  intros m dst src in_place _ _ _ Hb _. destruct (encrypt_spec (crt_ctx tfm) m dst src Hb) as (m' & E & G & Fr).
  exists m'. split_and!; [done..|by constructor|]. intros x [Hx _]%not_elem_of_app. by apply Fr.
Qed.

Lemma ecb_decrypt_proc : proc_ok tfm fr (cia_decrypt (crt_alg tfm) (crt_ctx tfm)) (ecb_process) true 0 [] ecb_dec_block.
Proof using BlockCipher0.
  intros m dst src in_place _ _ _ Hb _. destruct (decrypt_spec (crt_ctx tfm) m dst src Hb) as (m' & E & G & Fr).
  exists m'. split_and!; [done..|by constructor|]. intros x [Hx _]%not_elem_of_app. by apply Fr.
Qed.

(** CBC works on a vector in memory, with the xor of the block size. *)
Context (iv : Z) (Hiv : iv <> 0) (Hxor : Z.of_nat (cit_xor_words (crt_cipher tfm)) * 4 = bs).
Abbreviation ivs := (blk tfm iv).

Lemma xor_block_spec m a b :
  disj (blk tfm a) (blk tfm b) -> bytes (gather m (blk tfm a)) -> bytes (gather m (blk tfm b)) ->
  let m' := cit_xor_block (crt_cipher tfm) m a b in
  gather m' (blk tfm a) = zip_with Z.lxor (gather m (blk tfm a)) (gather m (blk tfm b)) /\
  forall x, x ∉ blk tfm a -> m' x = m x.
Proof using BlockCipher0 Hxor.
  cbv zeta. unfold blk. intros Hd Ha Hb. set (m' := cit_xor_block _ _ _ _). rewrite <- Hxor, Z.mul_comm in *.
  assert (m' = xor_words (cit_xor_words (crt_cipher tfm)) m a b) as ->; [|by apply xor_words_spec].
  unfold m', cit_xor_block. clear Hd Ha Hb m'. unfold bsize in Hxor. revert Hxor. destruct block_size as [-> | ->]; intros.
  - assert (cit_xor_words (crt_cipher tfm) = 2%nat) as -> by lia. done.
  - assert (cit_xor_words (crt_cipher tfm) = 4%nat) as -> by lia. done.
Qed.

Lemma gather_blk_length m a : length (gather m (blk tfm a)) = Z.to_nat bs.
Proof using. unfold blk. by rewrite length_gather, length_seqZ. Qed.

Lemma memcpy_blk m dst src :
  let m' := memcpy m dst src (Z.to_nat bs) in
  gather m' (blk tfm dst) = gather m (blk tfm src) /\ forall x, x ∉ blk tfm dst -> m' x = m x.
Proof using BlockCipher0.
  pose proof bsize_pos. cbv zeta. rewrite memcpy_transfer by lia. split.
  - apply gather_transfer; [apply NoDup_seqZ|]. unfold blk. by rewrite !length_seqZ.
  - intros x. apply transfer_ne.
Qed.

Lemma cbc_encrypt_proc :
  proc_ok tfm fr (cia_encrypt (crt_alg tfm) (crt_ctx tfm)) (cbc_process tfm fr) true iv ivs cbc_enc_block.
Proof using All.
  intros m dst src in_place Hin [Ddi Dds]%disj_app [Dsi Dss]%disj_app Hbs Hbi. unfold cbc_process.
  destruct (Z.eqb_spec iv 0); [done|].
  destruct (xor_block_spec m iv src) as [G1 F1]; [by apply disj_sym|done..|].
  set (m1 := cit_xor_block _ _ _ _) in *.
  assert (bytes (gather m1 ivs)) as B1 by (rewrite G1; by apply xor_bytes).
  destruct (encrypt_spec (crt_ctx tfm) m1 dst iv B1) as (m2 & E2 & G2 & F2). rewrite E2.
  fold bs (blk tfm dst) ivs in G2, F2. rewrite G1 in G2.
  destruct (memcpy_blk m2 iv dst) as [G3 F3]. set (m3 := memcpy _ _ _ _) in *.
  destruct (enc_block_bytes (crt_ctx tfm) (zip_with Z.lxor (gather m ivs) (gather m (blk tfm src)))) as [_ B2].
  { rewrite length_zip_with, !gather_blk_length. apply Nat.min_id. } { by apply xor_bytes. }
  exists m3. split_and!; [done| |..].
  - rewrite (gather_frame m2 m3 _ ivs) by done. by rewrite G2.
  - by rewrite G3, G2.
  - by rewrite G3, G2.
  - intros x Hx. rewrite !not_elem_of_app in Hx. destruct Hx as (? & ? & ?). by rewrite F3, F2, F1.
Qed.

Lemma cbc_decrypt_proc :
  disj ivs (blk tfm (stack fr)) ->
  proc_ok tfm fr (cia_decrypt (crt_alg tfm) (crt_ctx tfm)) (cbc_process tfm fr) false iv ivs cbc_dec_block.
Proof using All.
  intros Dis m dst src in_place Hin [Ddi Dds]%disj_app [Dsi Dss]%disj_app Hbs Hbi. unfold cbc_process.
  destruct (Z.eqb_spec iv 0); [done|]. set (buf := if in_place then stack fr else dst).
  assert (disj (blk tfm buf) (blk tfm src)) as Dbs by (unfold buf; destruct in_place; [by apply disj_sym|done]).
  assert (disj (blk tfm buf) ivs) as Dbi by (unfold buf; destruct in_place; [by apply disj_sym|done]).
  destruct (decrypt_spec (crt_ctx tfm) m buf src Hbs) as (m1 & E1 & G1 & F1). rewrite E1.
  fold bs (blk tfm buf) (blk tfm src) in G1, F1.
  assert (gather m1 ivs = gather m ivs) as I1 by (apply (gather_frame _ _ _ (blk tfm buf)); [by apply disj_sym|done]).
  destruct (dec_block_length (crt_ctx tfm) (gather m (blk tfm src))) as [_ B1]; [apply gather_blk_length|done|].
  destruct (xor_block_spec m1 buf iv) as [G2 F2]; [done|by rewrite G1|by rewrite I1|].
  set (m2 := cit_xor_block _ _ _ _) in *. rewrite G1, I1 in G2.
  destruct (memcpy_blk m2 iv src) as [G3 F3]. set (m3 := memcpy m2 _ _ _) in *.
  assert (gather m2 (blk tfm src) = gather m (blk tfm src)) as S2.
  { rewrite (gather_frame m1 m2 _ (blk tfm buf)), (gather_frame m m1 _ (blk tfm buf)); done || by apply disj_sym. }
  assert (gather m3 (blk tfm buf) = gather m2 (blk tfm buf)) as S3 by (by apply (gather_frame _ _ _ ivs)).
  rewrite S2 in G3. eexists. split; [done|].
  destruct (Z.eqb_spec buf dst) as [Eb|Eb]; cbn [negb].
  - rewrite Eb in *. split_and!; [by rewrite S3|by rewrite G3|by rewrite G3|].
    intros x Hx. rewrite !not_elem_of_app in Hx. destruct Hx as (? & ? & ?). by rewrite F3, F2, F1.
  - destruct in_place; [|done]. destruct (memcpy_blk m3 dst buf) as [G4 F4]. set (m4 := memcpy m3 _ _ _) in *.
    assert (gather m4 ivs = gather m3 ivs) as I4 by (apply (gather_frame _ _ _ (blk tfm dst)); [by apply disj_sym|done]).
    split_and!; [by rewrite G4, S3|by rewrite I4, G3|by rewrite I4, G3|].
    intros x Hx. rewrite !not_elem_of_app in Hx. destruct Hx as (? & ? & ?). unfold buf in *. by rewrite F4, F3, F2, F1.
Qed.
End modes.

(** ** Decryption inverts encryption, mode by mode *)
Section inverse.
Context (bs : nat) (iv_ok : list Z -> Prop) (Fe Fd : list Z -> list Z -> list Z * list Z).
Context (Hinv : forall iv s, iv_ok iv -> length s = bs -> bytes s ->
  length (Fe iv s).1 = bs /\ bytes (Fe iv s).1 /\ iv_ok (Fe iv s).2 /\ Fd iv (Fe iv s).1 = (s, (Fe iv s).2)).

Lemma run_mode_inverse n iv s :
  iv_ok iv -> length s = (n * bs)%nat -> bytes s ->
  length (run_mode bs Fe n iv s).1 = (n * bs)%nat /\ bytes (run_mode bs Fe n iv s).1 /\
  (run_mode bs Fd n iv (run_mode bs Fe n iv s).1).1 = s.
Proof using Hinv.
  revert iv s. induction n as [|n IH]; intros iv s Hiv Hl Hb; simpl in *.
  { split_and!; [done|by constructor|]. by destruct s. }
  destruct (Hinv iv (take bs s)) as (H1 & H2 & H3 & H4); [done|rewrite length_take; lia|by apply Forall_take|].
  destruct (Fe iv (take bs s)) as [o iv1]. simpl in *.
  destruct (IH iv1 (drop bs s)) as (I1 & I2 & I3); [done|rewrite length_drop; lia|by apply Forall_drop|].
  destruct (run_mode bs Fe n iv1 (drop bs s)) as [os iv2]. simpl in *.
  split_and!; [rewrite length_app; lia|by apply Forall_app|].
  rewrite take_app_length', H4, drop_app_length' by done.
  destruct (run_mode bs Fd n iv1 os) as [ps iv3]. simpl in *. rewrite I3. apply take_drop.
Qed.
End inverse.

Section roundtrip.
Context {C : Type} (tfm : crypto_tfm C) `{!BlockCipher (crt_alg tfm)}.

Lemma cbc_inverse n iv s :
  length iv = Z.to_nat (bsize tfm) -> bytes iv ->
  length s = (n * Z.to_nat (bsize tfm))%nat -> bytes s ->
  let o := (run_mode (Z.to_nat (bsize tfm)) (cbc_enc_block tfm) n iv s).1 in
  bytes o /\ (run_mode (Z.to_nat (bsize tfm)) (cbc_dec_block tfm) n iv o).1 = s.
Proof using.
  intros Hil Hib Hl Hb.
  apply (run_mode_inverse _ (fun iv => length iv = Z.to_nat (bsize tfm) /\ bytes iv)); [|done..].
  clear iv s Hil Hib Hl Hb. intros iv s [Hil Hib] Hl Hb. unfold cbc_enc_block, cbc_dec_block. cbn [fst snd].
  assert (length (zip_with Z.lxor iv s) = Z.to_nat (bsize tfm)) as Hx by (rewrite length_zip_with; lia).
  destruct (enc_block_bytes (crt_ctx tfm) (zip_with Z.lxor iv s)) as [H1 H2]; [done|by apply xor_bytes|].
  split_and!; [done..|]. rewrite dec_enc_block by (done || by apply xor_bytes). f_equal. apply xor_cancel. lia.
Qed.

Lemma ecb_inverse n s :
  length s = (n * Z.to_nat (bsize tfm))%nat -> bytes s ->
  let o := (run_mode (Z.to_nat (bsize tfm)) (ecb_enc_block tfm) n [] s).1 in
  bytes o /\ (run_mode (Z.to_nat (bsize tfm)) (ecb_dec_block tfm) n [] o).1 = s.
Proof using.
  intros Hl Hb. apply (run_mode_inverse _ (fun _ => True)); [|done..].
  clear s Hl Hb. intros iv s _ Hl Hb. unfold ecb_enc_block, ecb_dec_block. cbn [fst snd].
  destruct (enc_block_bytes (crt_ctx tfm) s) as [H1 H2]; [done..|].
  split_and!; [done..|]. by rewrite dec_enc_block.
Qed.
End roundtrip.
