(* ===== verification/Tea.v ===== *)
(** * crypto/tea.c: the TEA and XTEA block ciphers

    A cipher context is the four words of the key; [u32] arithmetic wraps.  A
    block operation reads the block at [src] before it writes the one at
    [dst]. *)
From S2P Require Import Prelude.
From S2P Require Import Scatterwalk.
From S2P Require Import Cipher.

Definition TEA_ROUNDS : nat := 32.
Definition TEA_DELTA : Z := 2654435769.   (* 0x9e3779b9 *)
Definition XTEA_ROUNDS : Z := 32.
Definition XTEA_DELTA : Z := 2654435769.
Definition TEA_BLOCK_SIZE : Z := 8.
Definition TEA_KEY_SIZE : Z := 16.
Definition XTEA_BLOCK_SIZE : Z := 8.
Definition XTEA_KEY_SIZE : Z := 16.

(** [le32_to_cpu] and [cpu_to_le32] at an address. *)
Definition u32_in (m : byte_mem) (x : Z) : Z := load32 m x.
Definition u32_out (m : byte_mem) (to from : Z) : byte_mem := store32 m to from.

Record tea_ctx := { KEY0 : Z; KEY1 : Z; KEY2 : Z; KEY3 : Z }.
Definition KEY (ctx : tea_ctx) (i : Z) : Z :=
  if i =? 0 then KEY0 ctx else if i =? 1 then KEY1 ctx else if i =? 2 then KEY2 ctx else KEY3 ctx.

(** The return value, the new context and the flags. *)
Definition tea_setkey (m : byte_mem) (ctx : tea_ctx) (in_key key_len flags : Z) : Z * tea_ctx * Z :=
  if negb (key_len =? 16) then (- EINVAL, ctx, Z.lor flags CRYPTO_TFM_RES_BAD_KEY_LEN)
  else (0, {| KEY0 := u32_in m in_key; KEY1 := u32_in m (in_key + 4); KEY2 := u32_in m (in_key + 8);
              KEY3 := u32_in m (in_key + 12) |}, flags).

(** ** TEA *)
Definition tea_mix (x sum ka kb : Z) : Z :=
  Z.lxor (Z.lxor (u32 (u32 (Z.shiftl x 4) + ka)) (u32 (x + sum))) (u32 (Z.shiftr x 5 + kb)).

Fixpoint tea_encrypt_rounds (n : nat) (ctx : tea_ctx) (sum y z : Z) : Z * Z :=
  match n with
  | O => (y, z)
  | S n =>
      let sum := u32 (sum + TEA_DELTA) in
      let y := u32 (y + tea_mix z sum (KEY0 ctx) (KEY1 ctx)) in
      let z := u32 (z + tea_mix y sum (KEY2 ctx) (KEY3 ctx)) in
      tea_encrypt_rounds n ctx sum y z
  end.

Definition tea_encrypt (ctx : tea_ctx) (dst src : Z) (m : byte_mem) : option byte_mem :=
  let '(y, z) := tea_encrypt_rounds TEA_ROUNDS ctx 0 (u32_in m src) (u32_in m (src + 4)) in
  Some (u32_out (u32_out m dst y) (dst + 4) z).

Fixpoint tea_decrypt_rounds (n : nat) (ctx : tea_ctx) (sum y z : Z) : Z * Z :=
  match n with
  | O => (y, z)
  | S n =>
      let z := u32 (z - tea_mix y sum (KEY2 ctx) (KEY3 ctx)) in
      let y := u32 (y - tea_mix z sum (KEY0 ctx) (KEY1 ctx)) in
      let sum := u32 (sum - TEA_DELTA) in
      tea_decrypt_rounds n ctx sum y z
  end.

Definition tea_decrypt (ctx : tea_ctx) (dst src : Z) (m : byte_mem) : option byte_mem :=
  let '(y, z) := tea_decrypt_rounds TEA_ROUNDS ctx (u32 (Z.shiftl TEA_DELTA 5))
                   (u32_in m src) (u32_in m (src + 4)) in
  Some (u32_out (u32_out m dst y) (dst + 4) z).

(** ** XTEA

    The loops run until [sum] reaches its limit: [None] when the fuel ends
    first. *)
Definition xtea_setkey := tea_setkey.

Definition xtea_mix (ctx : tea_ctx) (x sum k : Z) : Z :=
  u32 (u32 (Z.lxor (u32 (Z.shiftl x 4)) (Z.shiftr x 5) + Z.lxor x sum) + KEY ctx k).

Fixpoint xtea_encrypt_loop (fuel : nat) (ctx : tea_ctx) (limit sum y z : Z) : option (Z * Z) :=
  if sum =? limit then Some (y, z) else
  match fuel with
  | O => None
  | S fuel =>
      let y := u32 (y + xtea_mix ctx z sum (Z.land sum 3)) in
      let sum := u32 (sum + XTEA_DELTA) in
      let z := u32 (z + xtea_mix ctx y sum (Z.land (Z.shiftr sum 11) 3)) in
      xtea_encrypt_loop fuel ctx limit sum y z
  end.

Definition xtea_encrypt (ctx : tea_ctx) (dst src : Z) (m : byte_mem) : option byte_mem :=
  let limit := u32 (XTEA_DELTA * XTEA_ROUNDS) in
  match xtea_encrypt_loop 32 ctx limit 0 (u32_in m src) (u32_in m (src + 4)) with
  | Some (y, z) => Some (u32_out (u32_out m dst y) (dst + 4) z)
  | None => None
  end.

Fixpoint xtea_decrypt_loop (fuel : nat) (ctx : tea_ctx) (sum y z : Z) : option (Z * Z) :=
  if negb (truth sum) then Some (y, z) else
  match fuel with
  | O => None
  | S fuel =>
      let z := u32 (z - xtea_mix ctx y sum (Z.land (Z.shiftr sum 11) 3)) in
      let sum := u32 (sum - XTEA_DELTA) in
      let y := u32 (y - xtea_mix ctx z sum (Z.land sum 3)) in
      xtea_decrypt_loop fuel ctx sum y z
  end.

Definition xtea_decrypt (ctx : tea_ctx) (dst src : Z) (m : byte_mem) : option byte_mem :=
  match xtea_decrypt_loop 32 ctx (u32 (XTEA_DELTA * XTEA_ROUNDS)) (u32_in m src) (u32_in m (src + 4)) with
  | Some (y, z) => Some (u32_out (u32_out m dst y) (dst + 4) z)
  | None => None
  end.

(** ** The algorithms as the cipher layer sees them *)
Definition tea_alg : cipher_alg tea_ctx :=
  {| cra_blocksize := TEA_BLOCK_SIZE; cia_min_keysize := TEA_KEY_SIZE; cia_max_keysize := TEA_KEY_SIZE;
     cia_setkey := tea_setkey; cia_encrypt := tea_encrypt; cia_decrypt := tea_decrypt |}.
Definition xtea_alg : cipher_alg tea_ctx :=
  {| cra_blocksize := XTEA_BLOCK_SIZE; cia_min_keysize := XTEA_KEY_SIZE; cia_max_keysize := XTEA_KEY_SIZE;
     cia_setkey := xtea_setkey; cia_encrypt := xtea_encrypt; cia_decrypt := xtea_decrypt |}.
