(* ===== verification/TeaCipher.v ===== *)
(** * TEA and XTEA: decryption inverts encryption *)
From S2P Require Import Prelude.
From S2P Require Import Scatterwalk.
From S2P Require Import Cipher.
From S2P Require Import CipherModes.
From S2P Require Import Tea.

(** ** Rounds indexed by a running sum

    Both ciphers apply [n] rounds, each with the next multiple of [delta];
    decryption applies the inverse rounds with the sums in reverse. *)
Section rounds.
Context (delta : Z) (enc1 dec1 : Z -> Z * Z -> Z * Z) (ok : Z * Z -> Prop).
Context (enc_ok : forall sum p, ok p -> ok (enc1 sum p)).
Context (dec_enc : forall sum p, 0 <= sum < 2 ^ 32 -> ok p -> dec1 sum (enc1 sum p) = p).

Fixpoint enc_n (n : nat) (sum : Z) (p : Z * Z) : Z * Z :=
  match n with O => p | S n => enc_n n (u32 (sum + delta)) (enc1 sum p) end.

Fixpoint dec_n (n : nat) (sum : Z) (p : Z * Z) : Z * Z :=
  match n with O => p | S n => dec_n n (u32 (sum - delta)) (dec1 (u32 (sum - delta)) p) end.

Lemma enc_n_ok n sum p : ok p -> ok (enc_n n sum p).
Proof using enc_ok. revert sum p. induction n; simpl; auto. Qed.

Lemma u32_sub_sub s a b : u32 (u32 (s - a) - b) = u32 (s - (a + b)).
Proof using. unfold u32. rewrite Zminus_mod_idemp_l. f_equal. lia. Qed.

Lemma dec_n_snoc n sum p :
  dec_n (S n) sum p = dec1 (u32 (sum - Z.of_nat (S n) * delta)) (dec_n n sum p).
Proof using.
  revert sum p. induction n as [|n IH]; intros sum p.
  - simpl. f_equal. f_equal. lia.
  - change (dec_n (S (S n)) sum p) with (dec_n (S n) (u32 (sum - delta)) (dec1 (u32 (sum - delta)) p)).
    rewrite IH, u32_sub_sub. simpl dec_n. do 2 f_equal. lia.
Qed.

Lemma dec_enc_n n sum p :
  0 <= sum < 2 ^ 32 -> ok p -> dec_n n (u32 (sum + Z.of_nat n * delta)) (enc_n n sum p) = p.
Proof using enc_ok dec_enc.
  revert sum p. induction n as [|n IH]; intros sum p Hs Hp; [done|].
  rewrite dec_n_snoc. simpl enc_n.
  assert (u32 (u32 (sum + Z.of_nat (S n) * delta) - Z.of_nat (S n) * delta) = sum) as ->.
  { unfold u32. rewrite Zminus_mod_idemp_l, Z.add_simpl_r. by apply Z.mod_small. }
  rewrite <- (dec_enc sum p) at 2 by done. f_equal.
  replace (u32 (sum + Z.of_nat (S n) * delta)) with (u32 (u32 (sum + delta) + Z.of_nat n * delta)).
  - apply IH; [apply u32_range|by apply enc_ok].
  - unfold u32. rewrite Zplus_mod_idemp_l. f_equal. lia.
Qed.
End rounds.

(** ** The two ciphers as such rounds *)
Definition words_ok (p : Z * Z) : Prop := 0 <= p.1 < 2 ^ 32 /\ 0 <= p.2 < 2 ^ 32.

Lemma u32_add_sub x f : 0 <= x < 2 ^ 32 -> u32 (u32 (x + f) - f) = x.
Proof. intros Hx. unfold u32. rewrite Zminus_mod_idemp_l, Z.add_simpl_r. by apply Z.mod_small. Qed.

Definition tea_enc1 (ctx : tea_ctx) (sum : Z) (p : Z * Z) : Z * Z :=
  let sum := u32 (sum + TEA_DELTA) in
  let y := u32 (p.1 + tea_mix p.2 sum (KEY0 ctx) (KEY1 ctx)) in
  (y, u32 (p.2 + tea_mix y sum (KEY2 ctx) (KEY3 ctx))).

Definition tea_dec1 (ctx : tea_ctx) (sum : Z) (p : Z * Z) : Z * Z :=
  let sum := u32 (sum + TEA_DELTA) in
  let z := u32 (p.2 - tea_mix p.1 sum (KEY2 ctx) (KEY3 ctx)) in
  (u32 (p.1 - tea_mix z sum (KEY0 ctx) (KEY1 ctx)), z).

Definition xtea_enc1 (ctx : tea_ctx) (sum : Z) (p : Z * Z) : Z * Z :=
  let y := u32 (p.1 + xtea_mix ctx p.2 sum (Z.land sum 3)) in
  let sum := u32 (sum + XTEA_DELTA) in
  (y, u32 (p.2 + xtea_mix ctx y sum (Z.land (Z.shiftr sum 11) 3))).

Definition xtea_dec1 (ctx : tea_ctx) (sum : Z) (p : Z * Z) : Z * Z :=
  let sum' := u32 (sum + XTEA_DELTA) in
  let z := u32 (p.2 - xtea_mix ctx p.1 sum' (Z.land (Z.shiftr sum' 11) 3)) in
  (u32 (p.1 - xtea_mix ctx z sum (Z.land sum 3)), z).

Lemma tea_dec_enc1 ctx sum p : words_ok p -> tea_dec1 ctx sum (tea_enc1 ctx sum p) = p.
Proof. destruct p as [y z]. intros [Hy Hz]. unfold tea_dec1, tea_enc1. simpl in *. by rewrite !u32_add_sub. Qed.

Lemma xtea_dec_enc1 ctx sum p : words_ok p -> xtea_dec1 ctx sum (xtea_enc1 ctx sum p) = p.
Proof. destruct p as [y z]. intros [Hy Hz]. unfold xtea_dec1, xtea_enc1. simpl in *. by rewrite !u32_add_sub. Qed.

Lemma tea_enc1_ok ctx sum p : words_ok p -> words_ok (tea_enc1 ctx sum p).
Proof. split; apply u32_range. Qed.

Lemma xtea_enc1_ok ctx sum p : words_ok p -> words_ok (xtea_enc1 ctx sum p).
Proof. split; apply u32_range. Qed.

Lemma tea_encrypt_rounds_eq n ctx sum y z :
  tea_encrypt_rounds n ctx sum y z = enc_n TEA_DELTA (tea_enc1 ctx) n sum (y, z).
Proof. revert sum y z. induction n as [|n IH]; intros; simpl; [done|]. apply IH. Qed.

Lemma u32_sub_add sum d : 0 <= sum < 2 ^ 32 -> u32 (u32 (sum - d) + d) = sum.
Proof. intros Hx. unfold u32. rewrite Zplus_mod_idemp_l, Z.sub_simpl_r. by apply Z.mod_small. Qed.

Lemma tea_decrypt_rounds_eq n ctx sum y z :
  0 <= sum < 2 ^ 32 ->
  tea_decrypt_rounds n ctx sum y z = dec_n TEA_DELTA (tea_dec1 ctx) n sum (y, z).
Proof.
  revert sum y z. induction n as [|n IH]; intros sum y z Hs; simpl; [done|].
  rewrite IH by apply u32_range. unfold tea_dec1. cbn [fst snd]. by rewrite u32_sub_add.
Qed.

(** The sums before the limit differ from it, so the XTEA loops run exactly
    32 rounds. *)
Definition xtea_sum (t : nat) : Z := u32 (Z.of_nat t * XTEA_DELTA).

Lemma xtea_sum_ne t : (t < 32)%nat -> xtea_sum t <> xtea_sum 32 /\ xtea_sum (S t) <> 0.
Proof.
  intros Ht.
  assert (forallb (fun t => negb (xtea_sum t =? xtea_sum 32) && negb (xtea_sum (S t) =? 0)) (seq 0 32) = true)
    as H by (vm_compute; reflexivity).
  rewrite forallb_forall in H. specialize (H t ltac:(apply in_seq; lia)). lia.
Qed.

Lemma xtea_sum_S t : u32 (xtea_sum t + XTEA_DELTA) = xtea_sum (S t).
Proof. unfold xtea_sum, u32. rewrite Zplus_mod_idemp_l. f_equal. lia. Qed.

Lemma xtea_sum_pred t : u32 (xtea_sum (S t) - XTEA_DELTA) = xtea_sum t.
Proof. unfold xtea_sum, u32. rewrite Zminus_mod_idemp_l. f_equal. lia. Qed.

Lemma xtea_encrypt_loop_eq n t ctx y z :
  (t + n = 32)%nat ->
  xtea_encrypt_loop n ctx (xtea_sum 32) (xtea_sum t) y z =
  Some (enc_n XTEA_DELTA (xtea_enc1 ctx) n (xtea_sum t) (y, z)).
Proof.
  revert t y z. induction n as [|n IH]; intros t y z Ht; simpl.
  { assert (t = 32%nat) as -> by lia. by rewrite Z.eqb_refl. }
  destruct (xtea_sum_ne t) as [Hne _]; [lia|]. apply Z.eqb_neq in Hne. rewrite Hne.
  unfold xtea_enc1 at 2. cbn [fst snd]. rewrite xtea_sum_S. apply IH. lia.
Qed.

Lemma xtea_decrypt_loop_eq n ctx y z :
  (n <= 32)%nat ->
  xtea_decrypt_loop n ctx (xtea_sum n) y z = Some (dec_n XTEA_DELTA (xtea_dec1 ctx) n (xtea_sum n) (y, z)).
Proof.
  revert y z. induction n as [|n IH]; intros y z Hn; [done|].
  cbn [xtea_decrypt_loop dec_n]. destruct (xtea_sum_ne n) as [_ Hne]; [lia|].
  unfold truth. apply Z.eqb_neq in Hne. rewrite Hne. cbn [negb].
  rewrite xtea_sum_pred. unfold xtea_dec1 at 2. cbn [fst snd]. rewrite xtea_sum_S. apply IH. lia.
Qed.

(** ** Words: decryption inverts encryption *)
Lemma tea_words ctx y z :
  words_ok (y, z) ->
  let '(y', z') := tea_encrypt_rounds TEA_ROUNDS ctx 0 y z in
  words_ok (y', z') /\ tea_decrypt_rounds TEA_ROUNDS ctx (u32 (Z.shiftl TEA_DELTA 5)) y' z' = (y, z).
Proof.
  intros Hok. rewrite tea_encrypt_rounds_eq. destruct (enc_n _ _ _ _ _) as [y' z'] eqn:E.
  rewrite tea_decrypt_rounds_eq by apply u32_range. rewrite <- E. split.
  - apply enc_n_ok; [apply tea_enc1_ok|done].
  - apply (dec_enc_n TEA_DELTA _ _ words_ok (tea_enc1_ok ctx) (fun s p _ => tea_dec_enc1 ctx s p) 32 0);
      [lia|done].
Qed.

Lemma xtea_words ctx y z :
  words_ok (y, z) ->
  exists y' z', xtea_encrypt_loop 32 ctx (u32 (XTEA_DELTA * XTEA_ROUNDS)) 0 y z = Some (y', z') /\
    words_ok (y', z') /\ xtea_decrypt_loop 32 ctx (u32 (XTEA_DELTA * XTEA_ROUNDS)) y' z' = Some (y, z).
Proof.
  intros Hok. change (u32 (XTEA_DELTA * XTEA_ROUNDS)) with (xtea_sum 32). change 0 with (xtea_sum 0) at 1.
  rewrite xtea_encrypt_loop_eq by done. destruct (enc_n _ _ _ _ _) as [y' z'] eqn:E. exists y', z'.
  rewrite xtea_decrypt_loop_eq by done. rewrite <- E. split_and!; [done| |f_equal].
  - apply enc_n_ok; [apply xtea_enc1_ok|done].
  - apply (dec_enc_n XTEA_DELTA _ _ words_ok (xtea_enc1_ok ctx) (fun s p _ => xtea_dec_enc1 ctx s p) 32 0);
      [lia|done].
Qed.

(** ** TEA and XTEA as block ciphers

    The two ciphers of crypto/tea.c meet the interface crypto/cipher.c relies
    on. *)
(** A block of eight bytes as two words. *)
Definition words (s : list Z) : Z * Z := (word_of (take 4 s), word_of (drop 4 s)).
Definition unwords (p : Z * Z) : list Z := le_bytes p.1 ++ le_bytes p.2.

Lemma words_unwords p : words_ok p -> words (unwords p) = p.
Proof.
  destruct p as [y z]. intros [Hy Hz]. unfold words, unwords. cbn [fst snd] in *.
  rewrite take_app_length', drop_app_length' by done. by rewrite !word_le_bytes.
Qed.

Lemma unwords_words s : length s = 8%nat -> bytes s -> unwords (words s) = s.
Proof.
  intros Hl Hb. unfold words, unwords. cbn [fst snd].
  rewrite !le_bytes_word; [apply take_drop|rewrite length_drop; lia|by apply Forall_drop|rewrite length_take; lia|by apply Forall_take].
Qed.

Lemma words_words_ok s : length s = 8%nat -> bytes s -> words_ok (words s).
Proof.
  intros Hl Hb. split; apply word_range; [rewrite length_take; lia|by apply Forall_take|rewrite length_drop; lia|by apply Forall_drop].
Qed.

Lemma unwords_ok p : length (unwords p) = 8%nat /\ bytes (unwords p).
Proof. split; [done|]. apply Forall_app. split; apply le_bytes_ok. Qed.

Lemma seqZ_8 a : seqZ a 8 = seqZ a 4 ++ seqZ (a + 4) 4.
Proof. rewrite <- seqZ_app by lia. done. Qed.

Lemma load_words m a : (load32 m a, load32 m (a + 4)) = words (gather m (seqZ a 8)).
Proof.
  unfold words. rewrite seqZ_8, gather_app, take_app_length', drop_app_length' by (by rewrite length_gather, length_seqZ).
  by rewrite !load32_gather.
Qed.

Lemma store_words m a y z :
  let m' := store32 (store32 m a y) (a + 4) z in
  gather m' (seqZ a 8) = unwords (y, z) /\ forall x, x ∉ seqZ a 8 -> m' x = m x.
Proof.
  cbv zeta. destruct (store32_spec m a y) as [G1 F1]. set (m1 := store32 m a y) in *.
  destruct (store32_spec m1 (a + 4) z) as [G2 F2]. rewrite seqZ_8. split.
  - rewrite gather_app, G2. unfold unwords. cbn [fst snd]. f_equal. rewrite <- G1.
    apply (gather_frame _ _ _ (seqZ (a + 4) 4)); [|done]. intros x Hx%elem_of_seqZ Hy%elem_of_seqZ. lia.
  - intros x [? ?]%not_elem_of_app. by rewrite F2, F1.
Qed.

(** A cipher whose operations transform the two words of a block. *)
Section words_cipher.
Context (enc dec : tea_ctx -> Z * Z -> Z * Z) (alg : cipher_alg tea_ctx).
Context (Hbs : cra_blocksize alg = 8).
Context (Hok : forall c p, words_ok p -> words_ok (enc c p)).
Context (Hdec : forall c p, words_ok p -> dec c (enc c p) = p).
Context (He : forall c dst src m, cia_encrypt alg c dst src m =
  let p := enc c (load32 m src, load32 m (src + 4)) in Some (store32 (store32 m dst p.1) (dst + 4) p.2)).
Context (Hd : forall c dst src m, cia_decrypt alg c dst src m =
  let p := dec c (load32 m src, load32 m (src + 4)) in Some (store32 (store32 m dst p.1) (dst + 4) p.2)).

Definition words_cipher : BlockCipher alg.
Proof using Hbs Hok Hdec He Hd.
  refine {| enc_block c s := unwords (enc c (words s)); dec_block c s := unwords (dec c (words s)) |};
    rewrite ?Hbs; try by (intros; apply unwords_ok).
  - by left.
  - intros c s Hl Hb. rewrite words_unwords by (apply Hok; by apply words_words_ok).
    rewrite Hdec by (by apply words_words_ok). by apply unwords_words.
  - intros c m dst src Hb. rewrite He, load_words. cbv zeta. destruct (enc c _) as [y z].
    eexists. split; [done|]. apply store_words.
  - intros c m dst src Hb. rewrite Hd, load_words. cbv zeta. destruct (dec c _) as [y z].
    eexists. split; [done|]. apply store_words.
Defined.
End words_cipher.

#[export] Instance tea_cipher : BlockCipher tea_alg.
Proof.
  apply (words_cipher (fun c => enc_n TEA_DELTA (tea_enc1 c) 32 0)
    (fun c => dec_n TEA_DELTA (tea_dec1 c) 32 (u32 (Z.shiftl TEA_DELTA 5)))); [done|..].
  - intros c p Hp. apply (enc_n_ok _ _ words_ok); [apply tea_enc1_ok|done].
  - intros c p Hp. apply (dec_enc_n TEA_DELTA _ _ words_ok (tea_enc1_ok c) (fun s p _ => tea_dec_enc1 c s p) 32 0);
      [lia|done].
  - intros c dst src m. change (cia_encrypt tea_alg) with tea_encrypt. cbv zeta. unfold tea_encrypt, u32_in, u32_out, TEA_ROUNDS.
    rewrite tea_encrypt_rounds_eq. by destruct (enc_n _ _ _ _ _).
  - intros c dst src m. change (cia_decrypt tea_alg) with tea_decrypt. cbv zeta. unfold tea_decrypt, u32_in, u32_out, TEA_ROUNDS.
    rewrite tea_decrypt_rounds_eq by apply u32_range. by destruct (dec_n _ _ _ _ _).
Defined.

#[export] Instance xtea_cipher : BlockCipher xtea_alg.
Proof.
  apply (words_cipher (fun c => enc_n XTEA_DELTA (xtea_enc1 c) 32 0)
    (fun c => dec_n XTEA_DELTA (xtea_dec1 c) 32 (xtea_sum 32))); [done|..].
  - intros c p Hp. apply (enc_n_ok _ _ words_ok); [apply xtea_enc1_ok|done].
  - intros c p Hp. apply (dec_enc_n XTEA_DELTA _ _ words_ok (xtea_enc1_ok c) (fun s p _ => xtea_dec_enc1 c s p) 32 0);
      [lia|done].
  - intros c dst src m. change (cia_encrypt xtea_alg) with xtea_encrypt. unfold xtea_encrypt, u32_in, u32_out.
    change (u32 (XTEA_DELTA * XTEA_ROUNDS)) with (xtea_sum 32).
    pose proof (xtea_encrypt_loop_eq 32 0 c (load32 m src) (load32 m (src + 4)) eq_refl) as E.
    change (xtea_sum 0) with 0 in E. rewrite E. cbv zeta. by destruct (enc_n _ _ _ _ _).
  - intros c dst src m. change (cia_decrypt xtea_alg) with xtea_decrypt. unfold xtea_decrypt, u32_in, u32_out.
    change (u32 (XTEA_DELTA * XTEA_ROUNDS)) with (xtea_sum 32).
    rewrite xtea_decrypt_loop_eq by done. cbv zeta. by destruct (dec_n _ _ _ _ _).
Defined.

(** Decrypting what has been encrypted, from memory to memory. *)
Lemma block_roundtrip {C} (alg : cipher_alg C) `{!BlockCipher alg} c m src dst back :
  bytes (gather m (seqZ src (cra_blocksize alg))) ->
  exists m1 m2, cia_encrypt alg c dst src m = Some m1 /\ cia_decrypt alg c back dst m1 = Some m2 /\
    gather m2 (seqZ back (cra_blocksize alg)) = gather m (seqZ src (cra_blocksize alg)).
Proof.
  intros Hb. assert (length (gather m (seqZ src (cra_blocksize alg))) = Z.to_nat (cra_blocksize alg)) as Hl
    by (by rewrite length_gather, length_seqZ).
  destruct (encrypt_spec c m dst src Hb) as (m1 & E1 & G1 & _).
  destruct (enc_block_bytes c _ Hl Hb) as [_ Hb1].
  destruct (decrypt_spec c m1 back dst) as (m2 & E2 & G2 & _); [by rewrite G1|].
  exists m1, m2. split_and!; [done..|]. rewrite G2, G1. by apply dec_enc_block.
Qed.
