(* ===== verification/CryptoTheorems.v ===== *)
(** * Correctness of the cipher layer of crypto/ *)
From S2P Require Import Prelude.
From S2P Require Import Scatterwalk.
From S2P Require Import Cipher.
From S2P Require Import CipherModes.
From S2P Require Import Tea.
From S2P Require Import TeaCipher.

(** A request the cipher layer accepts: [n + 1] whole blocks, scatter lists
    with room for them, and memory regions that do not collide: the local
    arrays and the vector [ivs] are apart from each other and from the data,
    and source and destination overlap only in place. *)
Record request_ok {C} (tfm : crypto_tfm C) (fr : frame) (ivs : list Z) (n : nat) (dst src : list scatterlist)
    : Prop := {
  req_src : src <> [] /\ Forall entry_ok src;
  req_dst : dst <> [] /\ Forall entry_ok dst;
  req_size : Z.of_nat (S n) * bsize tfm < 2 ^ 32;
  req_src_len : Z.of_nat (S n) * bsize tfm <= Z.of_nat (length (sg_addrs src));
  req_dst_len : Z.of_nat (S n) * bsize tfm <= Z.of_nat (length (sg_addrs dst));
  req_priv : NoDup (priv tfm fr ivs);
  req_pair : pair_ok tfm fr ivs (take (Z.to_nat (Z.of_nat (S n) * bsize tfm)) (sg_addrs src))
               (take (Z.to_nat (Z.of_nat (S n) * bsize tfm)) (sg_addrs dst))
}.

(** The data of a request: the bytes the first [k] addresses hold. *)
Definition sg_bytes (m : byte_mem) (sgs : list scatterlist) (k : Z) : list Z :=
  gather m (take (Z.to_nat k) (sg_addrs sgs)).

Section modes.
Context {C : Type} (tfm : crypto_tfm C) (fr : frame) `{!BlockCipher (crt_alg tfm)}.

Lemma crypt_request ivs n dst src m crfn prfn enc info F :
  request_ok tfm fr ivs n dst src -> proc_ok tfm fr crfn prfn enc info ivs F ->
  let nbytes := Z.of_nat (S n) * bsize tfm in
  bytes (sg_bytes m src nbytes) -> bytes (gather m ivs) ->
  exists m', crypt tfm fr dst src nbytes crfn prfn enc info m = Some (0, crt_flags tfm, m') /\
    effect tfm fr ivs F (S n) (take (Z.to_nat nbytes) (sg_addrs src)) (take (Z.to_nat nbytes) (sg_addrs dst)) m m'.
Proof using BlockCipher0.
  intros [[] [] ? ? ? ? ?] Hproc. cbv zeta. intros.
  by apply (crypt_ok tfm fr crfn prfn enc info ivs F (bsize_pos tfm)).
Qed.

(** A request with a vector is one without. *)
Lemma request_ecb ivs n dst src : request_ok tfm fr ivs n dst src -> request_ok tfm fr [] n dst src.
Proof using.
  intros [? ? ? ? ? Hp [? ? H1 H2]]. unfold priv in *. apply NoDup_app in Hp as (_ & _ & Hp).
  apply disj_app in H1 as [_ H1], H2 as [_ H2]. by split.
Qed.

Context (iv : Z) (Hiv : iv <> 0) (Hxor : Z.of_nat (cit_xor_words (crt_cipher tfm)) * 4 = bsize tfm).

Lemma cbc_encrypt_request n dst src m :
  request_ok tfm fr (blk tfm iv) n dst src ->
  let nbytes := Z.of_nat (S n) * bsize tfm in
  bytes (sg_bytes m src nbytes) -> bytes (gather m (blk tfm iv)) ->
  exists m', cbc_encrypt_iv tfm fr dst src nbytes iv m = Some (0, crt_flags tfm, m') /\
    effect tfm fr (blk tfm iv) (cbc_enc_block tfm) (S n) (take (Z.to_nat nbytes) (sg_addrs src))
      (take (Z.to_nat nbytes) (sg_addrs dst)) m m'.
Proof using All. intros H. cbv zeta. intros. apply crypt_request; [done| |done..]. by apply cbc_encrypt_proc. Qed.

Lemma cbc_decrypt_request n dst src m :
  request_ok tfm fr (blk tfm iv) n dst src ->
  let nbytes := Z.of_nat (S n) * bsize tfm in
  bytes (sg_bytes m src nbytes) -> bytes (gather m (blk tfm iv)) ->
  exists m', cbc_decrypt_iv tfm fr dst src nbytes iv m = Some (0, crt_flags tfm, m') /\
    effect tfm fr (blk tfm iv) (cbc_dec_block tfm) (S n) (take (Z.to_nat nbytes) (sg_addrs src))
      (take (Z.to_nat nbytes) (sg_addrs dst)) m m'.
Proof using All.
  intros H. cbv zeta. intros. apply crypt_request; [done| |done..]. apply cbc_decrypt_proc; [done..|].
  by apply (priv_disj tfm fr (blk tfm iv)); destruct H.
Qed.
End modes.

Lemma tea_alg_encrypt : cia_encrypt tea_alg = tea_encrypt.
Proof. reflexivity. Qed.

Lemma tea_alg_decrypt : cia_decrypt tea_alg = tea_decrypt.
Proof. reflexivity. Qed.

Lemma xtea_alg_encrypt : cia_encrypt xtea_alg = xtea_encrypt.
Proof. reflexivity. Qed.

Lemma xtea_alg_decrypt : cia_decrypt xtea_alg = xtea_decrypt.
Proof. reflexivity. Qed.

Lemma read_eq m m' a b n :
  gather m (seqZ a (Z.of_nat n)) = gather m' (seqZ b (Z.of_nat n)) -> read m a n = read m' b n.
Proof. by rewrite !read_gather. Qed.

(** Encryption followed by decryption gives back a block in memory, for
    TEA and for XTEA, whose loops end, and whatever the three addresses. *)
Theorem tea_block_roundtrip ctx m src dst back :
  bytes (read m src 8) ->
  (exists m1 m2, tea_encrypt ctx dst src m = Some m1 /\ tea_decrypt ctx back dst m1 = Some m2 /\
     read m2 back 8 = read m src 8) /\
  (exists m1 m2, xtea_encrypt ctx dst src m = Some m1 /\ xtea_decrypt ctx back dst m1 = Some m2 /\
     read m2 back 8 = read m src 8).
Proof.
  intros Hb. rewrite read_gather in Hb. split.
  - destruct (block_roundtrip tea_alg ctx m src dst back Hb) as (m1 & m2 & E1 & E2 & G).
    rewrite tea_alg_encrypt in E1. rewrite tea_alg_decrypt in E2.
    exists m1, m2. exact (conj E1 (conj E2 (read_eq m2 m back src 8 G))).
  - destruct (block_roundtrip xtea_alg ctx m src dst back Hb) as (m1 & m2 & E1 & E2 & G).
    rewrite xtea_alg_encrypt in E1. rewrite xtea_alg_decrypt in E2.
    exists m1, m2. exact (conj E1 (conj E2 (read_eq m2 m back src 8 G))).
Qed.

Definition sample_key : tea_ctx := {| KEY0 := 1745158699; KEY1 := 1984500742; KEY2 := 638475639; KEY3 := 1132996716 |}.

Lemma tea_block_roundtrip_witness :
  exists m1 m2, tea_encrypt sample_key 0 0 (fun a => a mod 256) = Some m1 /\
    tea_decrypt sample_key 4 0 m1 = Some m2 /\ read m2 4 8 = read (fun a => a mod 256) 0 8.
Proof.
  apply (tea_block_roundtrip sample_key (fun a => a mod 256) 0 0 4).
  vm_compute. repeat (constructor; [split; [discriminate|reflexivity]|]). constructor.
Defined.

(** C32: the cipher layer computes ECB and CBC.  For any cipher that meets
    the interface, a request on scatter lists succeeds, stores at the
    destination the mode applied to the bytes of the source, block by block
    across segments and pages and also in place, leaves the last chaining
    value in the vector, and touches nothing else but its local arrays. *)
Theorem cipher_layer_implements_modes {C} (tfm : crypto_tfm C) (fr : frame) `{!BlockCipher (crt_alg tfm)}
    iv n dst src m :
  iv <> 0 -> Z.of_nat (cit_xor_words (crt_cipher tfm)) * 4 = bsize tfm ->
  request_ok tfm fr (blk tfm iv) n dst src ->
  let nbytes := Z.of_nat (S n) * bsize tfm in
  bytes (sg_bytes m src nbytes) -> bytes (gather m (blk tfm iv)) ->
  let spec F v (m' : byte_mem) ivs :=
    (sg_bytes m' dst nbytes, gather m' ivs) = run_mode (Z.to_nat (bsize tfm)) F (S n) v (sg_bytes m src nbytes) /\
    forall x, x ∉ take (Z.to_nat nbytes) (sg_addrs dst) ++ priv tfm fr ivs -> m' x = m x in
  (exists m', ecb_encrypt tfm fr dst src nbytes m = Some (0, crt_flags tfm, m') /\ spec (ecb_enc_block tfm) [] m' []) /\
  (exists m', ecb_decrypt tfm fr dst src nbytes m = Some (0, crt_flags tfm, m') /\ spec (ecb_dec_block tfm) [] m' []) /\
  (exists m', cbc_encrypt_iv tfm fr dst src nbytes iv m = Some (0, crt_flags tfm, m') /\
     spec (cbc_enc_block tfm) (gather m (blk tfm iv)) m' (blk tfm iv)) /\
  (exists m', cbc_decrypt_iv tfm fr dst src nbytes iv m = Some (0, crt_flags tfm, m') /\
     spec (cbc_dec_block tfm) (gather m (blk tfm iv)) m' (blk tfm iv)).
Proof.
  intros Hiv Hxor Hr. cbv zeta. intros Hb Hbi. pose proof (request_ecb tfm fr _ n dst src Hr) as Hr0.
  assert (bytes (gather m [])) as Hb0 by constructor. unfold sg_bytes in *. split_and!.
  - destruct (crypt_request tfm fr [] n dst src m _ _ _ _ _ Hr0 (ecb_encrypt_proc tfm fr) Hb Hb0)
      as (m' & E & G & I & Fr).
    exists m'. split; [exact E|]. split; [|exact Fr]. rewrite G, I. by destruct (run_mode _ _ _ _ _).
  - destruct (crypt_request tfm fr [] n dst src m _ _ _ _ _ Hr0 (ecb_decrypt_proc tfm fr) Hb Hb0)
      as (m' & E & G & I & Fr).
    exists m'. split; [exact E|]. split; [|exact Fr]. rewrite G, I. by destruct (run_mode _ _ _ _ _).
  - destruct (cbc_encrypt_request tfm fr iv Hiv Hxor n dst src m Hr Hb Hbi) as (m' & E & G & I & Fr).
    exists m'. split; [exact E|]. split; [|exact Fr]. rewrite G, I. by destruct (run_mode _ _ _ _ _).
  - destruct (cbc_decrypt_request tfm fr iv Hiv Hxor n dst src m Hr Hb Hbi) as (m' & E & G & I & Fr).
    exists m'. split; [exact E|]. split; [|exact Fr]. rewrite G, I. by destruct (run_mode _ _ _ _ _).
Qed.

(** A request of three blocks: the source is split over two segments, the
    first of which crosses a page boundary, and is encrypted in place. *)
Definition sample_sg : list scatterlist :=
  [{| sg_page := 1; sg_offset := 4090; sg_length := 9 |}; {| sg_page := 5; sg_offset := 3; sg_length := 15 |}].
Definition sample_frame : frame := {| tmp_src := 16; tmp_dst := 24; stack := 32 |}.
Definition sample_tfm : crypto_tfm tea_ctx :=
  {| crt_flags := 0; crt_alg := tea_alg; crt_ctx := sample_key;
     crt_cipher := {| cit_mode := CRYPTO_TFM_MODE_CBC; cit_iv := 64; cit_ivsize := 8; cit_xor_words := 2;
       cit_encrypt := fn_cbc_encrypt; cit_decrypt := fn_cbc_decrypt;
       cit_encrypt_iv := fn_cbc_encrypt_iv; cit_decrypt_iv := fn_cbc_decrypt_iv |} |}.
Definition sample_bytes : byte_mem := fun a => a mod 256.

(** Decidable forms of the conditions on lists of addresses. *)
Lemma disj_by_compute xs ys : forallb (fun x => negb (existsb (Z.eqb x) ys)) xs = true -> disj xs ys.
Proof.
  intros H x Hx Hy. rewrite forallb_forall in H. specialize (H x (proj1 (list_elem_of_In _ _) Hx)).
  apply negb_true_iff in H. assert (existsb (Z.eqb x) ys = true) as E; [|congruence].
  apply existsb_exists. exists x. split; [by apply list_elem_of_In|apply Z.eqb_refl].
Qed.

Lemma bytes_by_compute s : forallb (fun b => (0 <=? b) && (b <? 256)) s = true -> bytes s.
Proof.
  intros H. apply Forall_forall. intros b Hb%list_elem_of_In. rewrite forallb_forall in H. specialize (H b Hb). lia.
Qed.

Lemma in_place_pair {C} (tfm : crypto_tfm C) fr ivs A :
  NoDup A -> disj A (priv tfm fr ivs) -> pair_ok tfm fr ivs A A.
Proof. intros Hnd Hd. split; [done| |done|done]. intros i j x Hi Hj. by apply (NoDup_lookup A i j x). Qed.

Lemma sample_request ivs :
  ivs = blk sample_tfm 64 \/ ivs = blk sample_tfm 72 ->
  request_ok sample_tfm sample_frame ivs 2 sample_sg sample_sg.
Proof.
  intros Hivs. split; change (bsize sample_tfm) with 8.
  1, 2: split; [done|]; repeat (apply Forall_cons; split); try done; by unfold entry_ok, PAGE_SIZE; simpl; lia.
  1, 2, 3: vm_compute; congruence.
  - destruct Hivs as [-> | ->]; apply (bool_decide_unpack _); vm_compute; exact I.
  - apply in_place_pair; [apply (bool_decide_unpack _); vm_compute; exact I|].
    apply disj_by_compute. destruct Hivs as [-> | ->]; vm_compute; reflexivity.
Qed.

Lemma sample_bytes_ok xs : bytes (gather sample_bytes xs).
Proof. apply Forall_fmap, Forall_true. intros x. apply (Z.mod_pos_bound x 256). lia. Qed.

Lemma cipher_layer_implements_modes_witness :
  exists m', cbc_encrypt_iv sample_tfm sample_frame sample_sg sample_sg 24 64 sample_bytes = Some (0, 0, m').
Proof.
  destruct (cipher_layer_implements_modes sample_tfm sample_frame 64 2 sample_sg sample_sg sample_bytes)
    as (_ & _ & (m' & E & _) & _); [lia|reflexivity|apply sample_request; by left|apply sample_bytes_ok..|].
  exists m'. exact E.
Defined.

(** C33: what CBC encrypts, CBC decrypts.  A request encrypted from [src] to
    [dst] and decrypted from [dst] to [back], with a vector that holds the
    same initial value, gives back the source bytes, for any layout of the
    three scatter lists. *)
Theorem cbc_roundtrip {C} (tfm : crypto_tfm C) (fr : frame) `{!BlockCipher (crt_alg tfm)}
    iv1 iv2 n src dst back m :
  iv1 <> 0 -> iv2 <> 0 -> Z.of_nat (cit_xor_words (crt_cipher tfm)) * 4 = bsize tfm ->
  request_ok tfm fr (blk tfm iv1) n dst src -> request_ok tfm fr (blk tfm iv2) n back dst ->
  disj (blk tfm iv2) (blk tfm iv1) -> gather m (blk tfm iv2) = gather m (blk tfm iv1) ->
  let nbytes := Z.of_nat (S n) * bsize tfm in
  bytes (sg_bytes m src nbytes) -> bytes (gather m (blk tfm iv1)) ->
  exists m1 m2, cbc_encrypt_iv tfm fr dst src nbytes iv1 m = Some (0, crt_flags tfm, m1) /\
    cbc_decrypt_iv tfm fr back dst nbytes iv2 m1 = Some (0, crt_flags tfm, m2) /\
    sg_bytes m2 back nbytes = sg_bytes m src nbytes.
Proof.
  intros H1 H2 Hxor Hr1 Hr2 Hd Eiv. cbv zeta. intros Hb Hbi. pose proof (bsize_pos tfm).
  destruct (cbc_encrypt_request tfm fr iv1 H1 Hxor n dst src m Hr1 Hb Hbi) as (m1 & E1 & G1 & _ & F1).
  fold (sg_bytes m1 dst (Z.of_nat (S n) * bsize tfm)) (sg_bytes m src (Z.of_nat (S n) * bsize tfm)) in G1.
  destruct (cbc_inverse tfm (S n) (gather m (blk tfm iv1)) (sg_bytes m src (Z.of_nat (S n) * bsize tfm)))
    as [Hbo Hinv]; [by rewrite gather_blk_length|done| |done|].
  { unfold sg_bytes. rewrite length_gather, length_take. destruct Hr1. lia. }
  rewrite <- G1 in Hbo, Hinv.
  assert (gather m1 (blk tfm iv2) = gather m (blk tfm iv1)) as Eiv1.
  { rewrite <- Eiv. eapply gather_frame, F1. destruct (priv_disj tfm fr (blk tfm iv2)) as (? & ? & ? & _); [by destruct Hr2|].
    apply disj_app. split; [|by apply priv_parts].
    apply disj_sym. destruct Hr2 as [? ? ? ? ? ? [? ? Hs ?]]. by apply priv_parts in Hs as [? _]. }
  destruct (cbc_decrypt_request tfm fr iv2 H2 Hxor n back dst m1 Hr2 Hbo) as (m2 & E2 & G2 & _ & _).
  { by rewrite Eiv1. }
  exists m1, m2. split_and!; [done..|]. rewrite <- Hinv, <- Eiv1. exact G2.
Qed.

Lemma cbc_roundtrip_witness :
  exists m1 m2,
    cbc_encrypt_iv sample_tfm sample_frame sample_sg sample_sg 24 64 (memcpy sample_bytes 72 64 8) = Some (0, 0, m1) /\
    cbc_decrypt_iv sample_tfm sample_frame sample_sg sample_sg 24 72 m1 = Some (0, 0, m2) /\
    sg_bytes m2 sample_sg 24 = sg_bytes (memcpy sample_bytes 72 64 8) sample_sg 24.
Proof.
  apply (cbc_roundtrip sample_tfm sample_frame 64 72 2 sample_sg sample_sg sample_sg (memcpy sample_bytes 72 64 8));
    [lia|lia|reflexivity|apply sample_request; by left|apply sample_request; by right|..].
  - apply disj_by_compute. vm_compute. reflexivity.
  - vm_compute. reflexivity.
  - apply (bytes_by_compute _). vm_compute. reflexivity.
  - apply (bytes_by_compute _). vm_compute. reflexivity.
Defined.
