(* ===== verification/Heap.v ===== *)
(** * Linked structures in memory

    The memory of a component whose objects point to each other: a map from
    addresses to objects of one type, with the rest of the component's state
    beside it.  A dereference of NULL or of an address that holds no object
    is an oops. *)
From S2P Require Import Prelude.

Record mem (V R : Type) := { heap : gmap nat V; rest : R }.
Arguments heap {V R} _.
Arguments rest {V R} _.
Arguments Build_mem {V R} _ _.
#[export] Instance eta_mem V R : Eta (mem V R) := fun s => Build_mem (heap s) (rest s).

(** A pointer; NULL is [None]. *)
Definition rptr : Type := option nat.
Definition is_null (p : rptr) : bool := match p with None => true | Some _ => false end.

Section access.
Context {V R : Type}.
Definition get (p : rptr) : M (mem V R) V :=
  a ← deref p; o ← gets (fun s => heap s !! a); deref o.
Definition set (p : rptr) (f : V -> V) : M (mem V R) unit :=
  a ← deref p; n ← get p; modify (fun s => s <| heap := <[a := f n]> (heap s) |>).
(** The number of objects, which bounds the loops over them. *)
Definition objects : M (mem V R) nat := gets (fun s => size (heap s)).
End access.
