(* ===== verification/HeapLogic.v ===== *)
(** * A separation logic for linked structures

    [iwp m Q]: from any memory that has the resources at hand, [m] does not
    oops and ends with the resources [Q].  The memory is Iris's generic heap
    and the rest of the state a ghost variable split with the caller; [adequacy]
    turns a proof in the logic into the plain [wp] of the routine. *)
From S2P Require Import Prelude.
From S2P Require Import Heap.
From iris.proofmode Require Export proofmode.
From iris.base_logic.lib Require Export gen_heap ghost_var.

Notation "p ↦ n" := (pointsto (L := nat) p (DfracOwn 1) n) (at level 20, format "p  ↦  n") : bi_scope.

(** Objects outside [ps] are as before. *)
Definition kept {V R} (ps : list nat) (s s' : mem V R) : Prop :=
  forall p n, p ∉ ps -> heap s !! p = Some n -> heap s' !! p = Some n.

Class memGS (V R : Type) (Σ : gFunctors) := {
  mem_heapGS :: gen_heapGS nat V Σ;
  mem_restG :: ghost_varG Σ R;
  mem_rest_name : gname
}.

Section logic.
Context {V R : Type} `{!memGS V R Σ}.
Implicit Types (s : mem V R).

Definition rest_is (r : R) : iProp Σ := ghost_var mem_rest_name (1/2) r.
Definition interp s : iProp Σ := gen_heap_interp (heap s) ∗ rest_is (rest s).

Definition iwp {A} (m : M (mem V R) A) (Q : A -> iProp Σ) : iProp Σ :=
  ∀ s, interp s ==∗ ∃ a s', ⌜m s = Some (a, s')⌝ ∗ interp s' ∗ Q a.

Lemma iwp_ret {A} (a : A) Q : Q a ⊢ iwp (ret a) Q.
Proof. iIntros "Q" (s) "I". iModIntro. iExists a, s. by iFrame. Qed.

Lemma iwp_bind {A B} (m : M (mem V R) A) (k : A -> M (mem V R) B) Q :
  iwp m (fun a => iwp (k a) Q) ⊢ iwp (bind m k) Q.
Proof.
  iIntros "W" (s) "I". iMod ("W" with "I") as (a s1 E1) "[I W]". iMod ("W" with "I") as (b s2 E2) "[I Q]".
  iModIntro. iExists b, s2. iFrame. iPureIntro. unfold bind. by rw E1.
Qed.

Lemma iwp_wand {A} (m : M (mem V R) A) Q Q' : iwp m Q -∗ (∀ a, Q a -∗ Q' a) -∗ iwp m Q'.
Proof.
  iIntros "W H" (s) "I". iMod ("W" with "I") as (a s1 E1) "[I Q]". iModIntro. iExists a, s1. iFrame.
  iSplit; [done|]. by iApply "H".
Qed.

Lemma iwp_get p n Q : p ↦ n -∗ (p ↦ n -∗ Q n) -∗ iwp (get (Some p)) Q.
Proof.
  iIntros "P Q" (s) "[I R]". iDestruct (gen_heap_valid with "I P") as %E. iModIntro. iExists n, s.
  iFrame "I R". iSplit; [|by iApply "Q"]. iPureIntro. unfold get, bind, deref, gets, ret. by rw E.
Qed.

Lemma iwp_set p n f Q : p ↦ n -∗ (p ↦ f n -∗ Q tt) -∗ iwp (set (Some p) f) Q.
Proof.
  iIntros "P Q" (s) "[I R]". iDestruct (gen_heap_valid with "I P") as %E.
  iMod (gen_heap_update _ _ _ (f n) with "I P") as "[I P]". iModIntro. iExists tt, (s <| heap := <[p := f n]> (heap s) |>).
  iFrame "I R". iSplit; [|by iApply "Q"]. iPureIntro. unfold set, get, bind, deref, gets, modify, ret. by rw E.
Qed.

Lemma iwp_rest r Q : rest_is r -∗ (rest_is r -∗ Q r) -∗ iwp (gets rest) Q.
Proof.
  iIntros "R Q" (s) "[I R']". iDestruct (ghost_var_agree with "R' R") as %E. iModIntro. iExists r, s.
  iFrame "I R'". iSplit; [|by iApply "Q"]. iPureIntro. unfold gets. by rw E.
Qed.

Lemma iwp_set_rest r v Q : rest_is r -∗ (rest_is v -∗ Q tt) -∗ iwp (modify (fun s => s <| rest := v |>)) Q.
Proof.
  iIntros "R Q" (s) "[I R']". iMod (ghost_var_update_halves v with "R' R") as "[R' R]". iModIntro.
  iExists tt, (s <| rest := v |>). iFrame "I R'". iSplit; [done|]. by iApply "Q".
Qed.

(** ** Sets of objects *)
Definition cells (l : list (nat * V)) : iProp Σ := [∗ list] c ∈ l, c.1 ↦ c.2.

Definition holds (h : gmap nat V) (l : list (nat * V)) : Prop :=
  NoDup l.*1 /\ forall p n, (p, n) ∈ l -> h !! p = Some n.

Lemma holds_intro h l : NoDup l.*1 -> Forall (fun c => h !! c.1 = Some c.2) l -> holds h l.
Proof using. intros H1 H2. split; [done|]. intros p n Hin. rw Forall_forall in H2. by apply (H2 (p, n)). Qed.

Lemma cells_holds s l : interp s -∗ cells l -∗ ⌜holds (heap s) l⌝.
Proof.
  iIntros "[I _] L". iInduction l as [|[p n] l IH]; [iPureIntro; split; [constructor|intros ?? []%elem_of_nil]|].
  iDestruct "L" as "[P L]". iDestruct (gen_heap_valid with "I P") as %E.
  iAssert ⌜p ∉ l.*1⌝%I as %Hp.
  { iIntros (([q m] & -> & Hin)%list_elem_of_fmap). iDestruct (big_sepL_elem_of with "L") as "P'"; [done|].
    by iDestruct (pointsto_ne with "P P'") as %[]. }
  iDestruct ("IH" with "I L") as %[H1 H2]. iPureIntro. split; [by constructor|].
  intros q m [[= -> ->]|Hin]%elem_of_cons; eauto.
Qed.

Lemma holds_length h l : holds h l -> (length l <= size h)%nat.
Proof.
  intros [Hn Hh]. rw -(length_fmap fst l) -size_dom -(size_list_to_set (C := gset nat)) //.
  apply subseteq_size. intros p. rw elem_of_list_to_set elem_of_dom list_elem_of_fmap.
  intros ([q n] & -> & Hin). eexists. by apply (Hh q n).
Qed.

(** The number of objects in memory is enough fuel for any set of them. *)
Lemma iwp_fuel l Q :
  cells l -∗ (∀ n : nat, ⌜(length l <= n)%nat⌝ -∗ cells l -∗ Q n) -∗ iwp objects Q.
Proof.
  iIntros "L Q" (s) "I". iDestruct (cells_holds with "I L") as %H%holds_length. iModIntro.
  iExists (size (heap s)), s. iFrame "I". iSplit; [done|]. by iApply "Q".
Qed.

Lemma cells_intro h l :
  holds h l -> ([∗ map] p ↦ n ∈ h, p ↦ n) ⊢ cells l ∗ [∗ map] p ↦ n ∈ filter (fun c => c.1 ∉ l.*1) h, p ↦ n.
Proof.
  revert h. induction l as [|[p n] l IH]; intros h [Hn Hh].
  - rw map_filter_id; [|intros p n _; apply not_elem_of_nil]. rw /cells /=. iIntros "$".
  - apply NoDup_cons in Hn as [Hp Hn]. rw (big_sepM_delete _ h p n); [|apply Hh; by left].
    rw (IH (delete p h)).
    + iIntros "($ & $ & H)". iApply (big_sepM_subseteq with "H"). apply map_subseteq_spec. intros q m.
      rw !map_lookup_filter_Some lookup_delete_Some /= not_elem_of_cons. naive_solver.
    + split; [done|]. intros q m Hin. rw lookup_delete_ne; [apply Hh; by right|].
      intros ->. apply Hp. apply list_elem_of_fmap. by exists (q, m).
Qed.
End logic.

Global Arguments rest_is : simpl never.
Global Arguments cells : simpl never.

(** ** Adequacy *)
Definition memΣ (V R : Type) : gFunctors := #[gen_heapΣ nat V; ghost_varΣ R].

Lemma adequacy {V R A} (m : M (mem V R) A) s l (Q : A -> mem V R -> Prop) :
  holds (heap s) l ->
  (forall Σ `{!memGS V R Σ}, cells l -∗ rest_is (rest s) -∗
     iwp m (fun a => ∀ s', interp s' -∗ ⌜kept l.*1 s s' -> Q a s'⌝)) ->
  wp m Q s.
Proof.
  intros Hl Hm.
  enough (exists a s', m s = Some (a, s') /\ Q a s') as (a & s' & E & HQ) by (by eapply wp_of_run).
  apply (pure_soundness (PROP := iPropI (memΣ V R))). apply uPred.bupd_soundness; [apply _|].
  iMod (gen_heap_init (Σ := memΣ V R) (heap s)) as (hG) "(I & L & _)".
  iMod (ghost_var_alloc (Σ := memΣ V R) (rest s)) as (γ) "[R R']".
  set (rG := {| mem_heapGS := hG; mem_rest_name := γ |} : memGS V R (memΣ V R)).
  iDestruct (@cells_intro V R _ rG _ l Hl with "L") as "[L F]".
  iMod (Hm (memΣ V R) rG with "L R [$I $R']") as (a s') "(%E & I & Q)". iModIntro.
  iAssert ⌜kept l.*1 s s'⌝%I as %Hk.
  { iIntros (p n Hp Hn). iDestruct (big_sepM_lookup _ _ p n with "F") as "P"; [by apply map_lookup_filter_Some|].
    iDestruct "I" as "[I _]". by iDestruct (gen_heap_valid with "I P") as %?. }
  iDestruct ("Q" with "I") as %HQ. iPureIntro. exists a, s'. split; [done|]. by apply HQ.
Qed.
