(* ===== verification/RbTree.v ===== *)
(** * lib/rbtree.c and include/linux/rbtree.h: red-black trees

    The nodes are embedded in the objects of the caller, who links a new node
    at a leaf with [rb_link_node] and calls [rb_insert_color]; the keys are
    the caller's, so that what the library keeps is the order of the nodes.

    The two halves of the rebalancing loops, and the two rotations, are mirror
    images, and are one definition with the side as an argument.  Each loop
    takes the number of nodes in memory as fuel. *)
From S2P Require Import Prelude.
From S2P Require Import Heap.

Inductive rb_col := RB_RED | RB_BLACK.
#[export] Instance rb_col_eq_dec : EqDecision rb_col.
Proof. solve_decision. Defined.

Record rb_node := { rb_parent : rptr; rb_color : rb_col; rb_right : rptr; rb_left : rptr }.
#[export] Instance eta_rb_node : Eta rb_node := fun n =>
  {| rb_parent := rb_parent n; rb_color := rb_color n; rb_right := rb_right n; rb_left := rb_left n |}.

(** The memory, with the root pointer. *)
Definition rb_state : Type := mem rb_node rptr.
Definition root : rb_state -> rptr := rest.

(** ** Accesses *)
Definition set_root (p : rptr) : M rb_state unit := modify (fun s => s <| rest := p |>).

Definition with_parent (v : rptr) (n : rb_node) : rb_node := n <| rb_parent := v |>.
Definition with_color (c : rb_col) (n : rb_node) : rb_node := n <| rb_color := c |>.
Definition set_parent (p v : rptr) : M rb_state unit := set p (with_parent v).
Definition set_color (p : rptr) (c : rb_col) : M rb_state unit := set p (with_color c).

Inductive side := Left | Right.
Definition opp (d : side) : side := match d with Left => Right | Right => Left end.
Definition child (d : side) (n : rb_node) : rptr := match d with Left => rb_left n | Right => rb_right n end.
Definition with_child (d : side) (v : rptr) (n : rb_node) : rb_node :=
  match d with Left => n <| rb_left := v |> | Right => n <| rb_right := v |> end.
Definition set_child (d : side) (p v : rptr) : M rb_state unit := set p (with_child d v).

(** [if (p) p->rb_parent = v] *)
Definition set_parent_if (p v : rptr) : M rb_state unit := when (negb (is_null p)) (set_parent p v).

(** [!p || p->rb_color == RB_BLACK] *)
Definition is_black (p : rptr) : M rb_state bool :=
  if is_null p then ret true else n ← get p; ret (bool_decide (rb_color n = RB_BLACK)).

(** The link of [parent] that is [old] becomes [new]; without a parent it is
    the root.  The [d] link is looked at first. *)
Definition relink (d : side) (parent old new : rptr) : M rb_state unit :=
  if is_null parent then set_root new else
  n ← get parent;
  if bool_decide (old = child d n) then set_child d parent new else set_child (opp d) parent new.

(** ** Rotations *)
Definition __rb_rotate (d : side) (node : rptr) : M rb_state unit :=
  n ← get node;
  let right := child (opp d) n in
  r ← get right;
  set_child (opp d) node (child d r);;
  set_parent_if (child d r) node;;
  set_child d right node;;
  n ← get node;
  set_parent right (rb_parent n);;
  relink d (rb_parent n) node right;;
  set_parent node right.
Definition __rb_rotate_left : rptr -> M rb_state unit := __rb_rotate Left.
Definition __rb_rotate_right : rptr -> M rb_state unit := __rb_rotate Right.

(** ** Insertion *)

(** [*rb_link = node] *)
Inductive link := root_link | child_link (d : side) (p : rptr).
Definition set_link (l : link) (v : rptr) : M rb_state unit :=
  match l with root_link => set_root v | child_link d p => set_child d p v end.

Definition rb_link_node (node parent : rptr) (rb_link : link) : M rb_state unit :=
  set node (fun _ => {| rb_parent := parent; rb_color := RB_RED; rb_right := None; rb_left := None |});;
  set_link rb_link node.

(** The body of the loop, for a parent that is the [d] child of its parent;
    the result is the node to go on with. *)
Definition insert_half (d : side) (node parent gparent : rptr) : M rb_state rptr :=
  g ← get gparent;
  let uncle := child (opp d) g in
  b ← is_black uncle;
  if negb b then
    set_color uncle RB_BLACK;;
    set_color parent RB_BLACK;;
    set_color gparent RB_RED;;
    ret gparent
  else
    p ← get parent;
    np ←
      (if bool_decide (child (opp d) p = node) then __rb_rotate d parent;; ret (parent, node)
       else ret (node, parent));
    let '(node, parent) := np in
    set_color parent RB_BLACK;;
    set_color gparent RB_RED;;
    __rb_rotate (opp d) gparent;;
    ret node.

Fixpoint insert_loop (fuel : nat) (node : rptr) : M rb_state unit :=
  n ← get node;
  let parent := rb_parent n in
  b ← is_black parent;
  if b then ret tt else
  match fuel with
  | O => oops
  | S fuel =>
      p ← get parent;
      let gparent := rb_parent p in
      g ← get gparent;
      node ← insert_half (if bool_decide (parent = rb_left g) then Left else Right) node parent gparent;
      insert_loop fuel node
  end.

Definition rb_insert_color (node : rptr) : M rb_state unit :=
  fuel ← objects;
  insert_loop fuel node;;
  r ← gets root;
  set_color r RB_BLACK.

(** ** Removal *)

(** The body of the loop of [__rb_erase_color], for a node that is the [d]
    child of its parent.  First a red sibling is rotated up; the result is
    the new [other]. *)
Definition red_sibling (d : side) (parent other : rptr) : M rb_state rptr :=
  o ← get other;
  if bool_decide (rb_color o = RB_RED) then
    set_color other RB_BLACK;;
    set_color parent RB_RED;;
    __rb_rotate d parent;;
    p ← get parent; ret (child (opp d) p)
  else ret other.

(** [if (!other->rb_right || other->rb_right->rb_color == RB_BLACK) { ... }] *)
Definition red_nephew (d : side) (parent other : rptr) : M rb_state rptr :=
  o ← get other;
  b ← is_black (child (opp d) o);
  if b : bool then
    when (negb (is_null (child d o))) (set_color (child d o) RB_BLACK);;
    set_color other RB_RED;;
    __rb_rotate (opp d) other;;
    p ← get parent; ret (child (opp d) p)
  else ret other.

Definition last_rotation (d : side) (parent other : rptr) : M rb_state unit :=
  p ← get parent;
  set_color other (rb_color p);;
  set_color parent RB_BLACK;;
  o ← get other;
  when (negb (is_null (child (opp d) o))) (set_color (child (opp d) o) RB_BLACK);;
  __rb_rotate d parent.

(** The result is the new [node], [parent], and whether the loop goes on. *)
Definition erase_half (d : side) (node parent : rptr) : M rb_state (rptr * rptr * bool) :=
  p ← get parent;
  other ← red_sibling d parent (child (opp d) p);
  o ← get other;
  b ← (bl ← is_black (rb_left o); if bl : bool then is_black (rb_right o) else ret false);
  if b : bool then
    set_color other RB_RED;;
    n ← get parent;
    ret (parent, rb_parent n, true)
  else
    other ← red_nephew d parent other;
    last_rotation d parent other;;
    r ← gets root;
    ret (r, parent, false).

Fixpoint erase_loop (fuel : nat) (node parent : rptr) : M rb_state rptr :=
  b ← is_black node;
  r ← gets root;
  if negb (b && negb (bool_decide (node = r))) then ret node else
  match fuel with
  | O => oops
  | S fuel =>
      p ← get parent;
      r ← erase_half (if bool_decide (rb_left p = node) then Left else Right) node parent;
      let '(node, parent, go) := r in
      if go : bool then erase_loop fuel node parent else ret node
  end.

Definition __rb_erase_color (node parent : rptr) : M rb_state unit :=
  fuel ← objects;
  node ← erase_loop fuel node parent;
  when (negb (is_null node)) (set_color node RB_BLACK).

(** [while (node->rb_left) node = node->rb_left], or the same on the right. *)
Fixpoint down (d : side) (fuel : nat) (node : rptr) : M rb_state rptr :=
  n ← get node;
  if is_null (child d n) then ret node else
  match fuel with O => oops | S fuel => down d fuel (child d n) end.

(** The branch of [rb_erase] for a node with two children: its successor
    takes its place; the result is [child], [parent] and [color]. *)
Definition erase_inner (old : rptr) : M rb_state (rptr * rptr * rb_col) :=
  o ← get old;
  fuel ← objects;
  node ← down Left fuel (rb_right o);
  n ← get node;
  let child := rb_right n in
  let parent := rb_parent n in
  let color := rb_color n in
  set_parent_if child parent;;
  relink Left parent node child;;
  n ← get node;
  let parent := if bool_decide (rb_parent n = old) then node else parent in
  o ← get old;
  set node (fun n => n <| rb_parent := rb_parent o |> <| rb_color := rb_color o |>
                       <| rb_right := rb_right o |> <| rb_left := rb_left o |>);;
  relink Left (rb_parent o) old node;;
  o ← get old;
  set_parent (rb_left o) node;;
  set_parent_if (rb_right o) node;;
  ret (child, parent, color).

Definition erase_outer (node child : rptr) : M rb_state (rptr * rptr * rb_col) :=
  n ← get node;
  let parent := rb_parent n in
  let color := rb_color n in
  set_parent_if child parent;;
  relink Left parent node child;;
  ret (child, parent, color).

Definition rb_erase (node : rptr) : M rb_state unit :=
  n ← get node;
  r ←
    (if is_null (rb_left n) then erase_outer node (rb_right n)
     else if is_null (rb_right n) then erase_outer node (rb_left n)
     else erase_inner node);
  let '(child, parent, color) := r in
  when (bool_decide (color = RB_BLACK)) (__rb_erase_color child parent).

(** ** Navigation *)
Definition end_of (d : side) : M rb_state rptr :=
  n ← gets root;
  if is_null n then ret None else
  fuel ← objects; down d fuel n.
Definition rb_first : M rb_state rptr := end_of Left.
Definition rb_last : M rb_state rptr := end_of Right.

(** [while (node->rb_parent && node == node->rb_parent->rb_right)
       node = node->rb_parent;] and its result, [node->rb_parent]. *)
Fixpoint up (d : side) (fuel : nat) (node : rptr) : M rb_state rptr :=
  n ← get node;
  if is_null (rb_parent n) then ret None else
  p ← get (rb_parent n);
  if bool_decide (node = child d p) then
    match fuel with O => oops | S fuel => up d fuel (rb_parent n) end
  else ret (rb_parent n).

(** The neighbour of a node on side [d]. *)
Definition step (d : side) (node : rptr) : M rb_state rptr :=
  n ← get node;
  fuel ← objects;
  if negb (is_null (child d n)) then down (opp d) fuel (child d n) else up d fuel node.
Definition rb_next : rptr -> M rb_state rptr := step Right.
Definition rb_prev : rptr -> M rb_state rptr := step Left.

Definition rb_replace_node (victim new : rptr) : M rb_state unit :=
  v ← get victim;
  relink Left (rb_parent v) victim new;;
  set_parent_if (rb_left v) new;;
  set_parent_if (rb_right v) new;;
  v ← get victim;
  set new (fun _ => v).
