(* ===== verification/RbSpec.v ===== *)
(** * Red-black trees: trees, contexts and balance

    The mathematical trees the memory stands for.  A context is the path from
    a subtree up to the root, innermost first; [rb] says that a subtree is
    balanced, [ok] that a context is, around a hole for a subtree of a given
    colour and black height. *)
From S2P Require Import Prelude.
From S2P Require Import Heap.
From S2P Require Import RbTree.

Inductive tree := E | T (c : rb_col) (l : tree) (p : nat) (r : tree).

#[export] Instance tree_eq_dec : EqDecision tree.
Proof. solve_decision. Defined.

(** A node with the subtree [a] on side [d]. *)
Definition mk (d : side) (c : rb_col) (a : tree) (p : nat) (b : tree) : tree :=
  match d with Left => T c a p b | Right => T c b p a end.

Definition rootp (t : tree) : rptr := match t with E => None | T _ _ p _ => Some p end.

Fixpoint inorder (t : tree) : list nat :=
  match t with E => [] | T _ l p r => inorder l ++ p :: inorder r end.

Fixpoint height (t : tree) : nat :=
  match t with E => O | T _ l _ r => S (height l `max` height r) end.

(** ** Contexts *)
Record hframe := Fr { f_side : side; f_color : rb_col; f_ptr : nat; f_sib : tree }.

Fixpoint plug (k : list hframe) (t : tree) : tree :=
  match k with [] => t | Fr d c p b :: k => plug k (mk d c t p b) end.

Fixpoint before (k : list hframe) : list nat :=
  match k with
  | [] => []
  | Fr Left _ _ _ :: k => before k
  | Fr Right _ p b :: k => before k ++ inorder b ++ [p]
  end.
Fixpoint after (k : list hframe) : list nat :=
  match k with
  | [] => []
  | Fr Left _ p b :: k => p :: inorder b ++ after k
  | Fr Right _ _ _ :: k => after k
  end.

Lemma inorder_plug k t : inorder (plug k t) = before k ++ inorder t ++ after k.
Proof.
  revert t. induction k as [|[d c p b] k IH]; intros t; simpl; [by rewrite app_nil_r|].
  rewrite IH. destruct d; simpl; by rewrite <- !app_assoc.
Qed.

Lemma plug_app k1 k2 t : plug (k1 ++ k2) t = plug k2 (plug k1 t).
Proof. revert t. induction k1 as [|[d c p b] k1 IH]; intros t; simpl; [done|]. apply IH. Qed.

(** The node above a hole, or [par]; and the link that points to the hole. *)
Definition cptr (par : rptr) (k : list hframe) : rptr := match k with [] => par | f :: _ => Some (f_ptr f) end.

Definition link_of (k : list hframe) : link :=
  match k with [] => root_link | Fr d _ p _ :: _ => child_link d (Some p) end.

(** What a caller does to add a node at a leaf. *)
Definition insert_at (k : list hframe) (x : nat) : M rb_state unit :=
  rb_link_node (Some x) (cptr None k) (link_of k);; rb_insert_color (Some x).

(** Every node of a tree is at the end of a path. *)
Lemma focus_node t p : p ∈ inorder t -> exists k c l r, t = plug k (T c l p r).
Proof.
  induction t as [|c l IHl q r IHr]; simpl; [intros []%elem_of_nil|].
  rewrite elem_of_app, elem_of_cons. intros [H|[->|H]].
  - destruct (IHl H) as (k & c' & l' & r' & ->). exists (k ++ [Fr Left c q r]), c', l', r'. by rewrite plug_app.
  - by exists [], c, l, r.
  - destruct (IHr H) as (k & c' & l' & r' & ->). exists (k ++ [Fr Right c q l]), c', l', r'. by rewrite plug_app.
Qed.

(** ** Balance *)
Inductive rb : tree -> rb_col -> nat -> Prop :=
| rb_E : rb E RB_BLACK 0
| rb_R l p r n : rb l RB_BLACK n -> rb r RB_BLACK n -> rb (T RB_RED l p r) RB_RED n
| rb_B l p r n cl cr : rb l cl n -> rb r cr n -> rb (T RB_BLACK l p r) RB_BLACK (S n).

(** A red-black tree: black at the root, no red node with a red child, and
    equally many black nodes on every path. *)
Definition red_black (t : tree) : Prop := exists n, rb t RB_BLACK n.

Inductive ok : list hframe -> rb_col -> nat -> Prop :=
| ok_nil n : ok [] RB_BLACK n
| ok_R d p b k n : rb b RB_BLACK n -> ok k RB_RED n -> ok (Fr d RB_RED p b :: k) RB_BLACK n
| ok_B d p b k n c cb : rb b cb n -> ok k RB_BLACK (S n) -> ok (Fr d RB_BLACK p b :: k) c n.
#[export] Hint Constructors rb ok : kernel.

Lemma rb_mk_R d a p b n : rb a RB_BLACK n -> rb b RB_BLACK n -> rb (mk d RB_RED a p b) RB_RED n.
Proof. destruct d; simpl; eauto with kernel. Qed.
Lemma rb_mk_B d a p b n ca cb : rb a ca n -> rb b cb n -> rb (mk d RB_BLACK a p b) RB_BLACK (S n).
Proof. destruct d; simpl; eauto with kernel. Qed.
#[export] Hint Resolve rb_mk_R rb_mk_B : kernel.

Lemma rb_mk_R_inv d a p b c n : rb (mk d RB_RED a p b) c n -> c = RB_RED /\ rb a RB_BLACK n /\ rb b RB_BLACK n.
Proof. destruct d; simpl; inversion 1; subst; done. Qed.
Lemma rb_mk_B_inv d a p b c n :
  rb (mk d RB_BLACK a p b) c n -> c = RB_BLACK /\ exists m ca cb, n = S m /\ rb a ca m /\ rb b cb m.
Proof. destruct d; simpl; inversion 1; subst; eauto 10. Qed.

Lemma ok_R_inv d p b k c n : ok (Fr d RB_RED p b :: k) c n -> c = RB_BLACK /\ rb b RB_BLACK n /\ ok k RB_RED n.
Proof. inversion 1; subst; done. Qed.
Lemma ok_B_inv d p b k c n : ok (Fr d RB_BLACK p b :: k) c n -> (exists cb, rb b cb n) /\ ok k RB_BLACK (S n).
Proof. inversion 1; subst; eauto. Qed.
(** The hole for a red subtree is below a black node. *)
Lemma ok_red_inv k n : ok k RB_RED n -> exists d p b k', k = Fr d RB_BLACK p b :: k'.
Proof. inversion 1; subst; eauto. Qed.

Lemma plug_ok k t c n : rb t c n -> ok k c n -> red_black (plug k t).
Proof.
  revert t c n. induction k as [|[d c' p b] k IH]; intros t c n Ht Hk; inversion Hk; subst; simpl; [by exists n|..];
    eapply IH; eauto with kernel.
Qed.

Lemma plug_rb k t : red_black (plug k t) -> exists c n, rb t c n /\ ok k c n.
Proof.
  revert t. induction k as [|[d c p b] k IH]; intros t; simpl; [intros [n H]; eauto with kernel|].
  intros (c' & n & Ht & Hk)%IH. destruct c.
  - apply rb_mk_R_inv in Ht as (-> & Ha & Hb). eauto with kernel.
  - apply rb_mk_B_inv in Ht as (-> & m & ca & cb & -> & Ha & Hb). eauto 10 with kernel.
Qed.

(** A hole for a red subtree takes a black one. *)
Lemma ok_black k c n : ok k c n -> ok k RB_BLACK n.
Proof. inversion 1; subst; eauto with kernel. Qed.

(** Colouring the root black keeps a tree balanced. *)
Definition blacken (t : tree) : tree := match t with E => E | T _ l p r => T RB_BLACK l p r end.

Lemma rb_blacken t c n : rb t c n -> exists m, rb (blacken t) RB_BLACK m.
Proof. inversion 1; subst; simpl; eauto with kernel. Qed.

Lemma inorder_blacken t : inorder (blacken t) = inorder t.
Proof. by destruct t. Qed.

(** ** Sizes *)
Lemma rb_size t c n : rb t c n -> (2 ^ n <= S (length (inorder t)))%nat.
Proof.
  induction 1; simpl; rewrite ?length_app; simpl; lia.
Qed.

Lemma rb_height t c n : rb t c n -> (height t <= 2 * n + match c with RB_RED => 1 | RB_BLACK => 0 end)%nat.
Proof.
  induction 1; simpl; [lia|lia|]. destruct cl, cr; lia.
Qed.
