(* ===== verification/RbInsert.v ===== *)
(** * Red-black trees in memory

    The nodes of a tree and of a context, as resources, and what the
    pointer-level helpers and the rotations do to them. *)
From S2P Require Import Prelude.
From S2P Require Import Heap.
From S2P Require Import HeapLogic.
From S2P Require Import RbTree.
From S2P Require Import RbSpec.

(** ** Nodes *)

(** A node with the [d] child [x] and the other child [y]. *)
Definition mknode (d : side) (par : rptr) (c : rb_col) (x y : rptr) : rb_node :=
  {| rb_parent := par; rb_color := c;
     rb_left := match d with Left => x | Right => y end;
     rb_right := match d with Left => y | Right => x end |}.

Section node.
Context (d : side) (par : rptr) (c : rb_col) (x y : rptr).
Lemma child_same : child d (mknode d par c x y) = x.
Proof. by destruct d. Qed.
Lemma child_opp : child (opp d) (mknode d par c x y) = y.
Proof. by destruct d. Qed.
Lemma with_child_same v : with_child d v (mknode d par c x y) = mknode d par c v y.
Proof. by destruct d. Qed.
Lemma with_child_opp v : with_child (opp d) v (mknode d par c x y) = mknode d par c x v.
Proof. by destruct d. Qed.
Lemma with_parent_mknode v : with_parent v (mknode d par c x y) = mknode d v c x y.
Proof. by destruct d. Qed.
Lemma with_color_mknode v : with_color v (mknode d par c x y) = mknode d par v x y.
Proof. by destruct d. Qed.
Lemma parent_mknode : rb_parent (mknode d par c x y) = par.
Proof. done. Qed.
Lemma color_mknode : rb_color (mknode d par c x y) = c.
Proof. done. Qed.
Lemma mknode_opp : mknode (opp d) par c x y = mknode d par c y x.
Proof. by destruct d. Qed.
Lemma mk_opp a p b : mk (opp d) c a p b = mk d c b p a.
Proof. by destruct d. Qed.
Lemma rootp_mk a p b : rootp (mk d c a p b) = Some p.
Proof. by destruct d. Qed.
Lemma opp_opp : opp (opp d) = d.
Proof. by destruct d. Qed.
End node.
Create Rewrite HintDb rbn.
Global Arguments mknode : simpl never.
#[export] Hint Rewrite child_same child_opp with_child_same with_child_opp with_parent_mknode with_color_mknode
  parent_mknode color_mknode mknode_opp mk_opp rootp_mk opp_opp : rbn.

(** Every tree with a node can be seen from either side. *)
Lemma tree_side d t : t = E \/ exists c a p b, t = mk d c a p b.
Proof. destruct t as [|c l p r]; [by left|right]. destruct d; [by exists c, l, p, r|by exists c, r, p, l]. Qed.

(** ** Trees and contexts *)
Fixpoint tcells (par : rptr) (t : tree) : list (nat * rb_node) :=
  match t with
  | E => []
  | T c l p r => (p, mknode Left par c (rootp l) (rootp r)) :: tcells (Some p) l ++ tcells (Some p) r
  end.

(** The nodes of a context over [par], with [hole] at the hole. *)
Fixpoint kcells (par hole : rptr) (k : list hframe) : list (nat * rb_node) :=
  match k with
  | [] => []
  | Fr d c p b :: k =>
      (p, mknode d (cptr par k) c hole (rootp b)) :: tcells (Some p) b ++ kcells par (Some p) k
  end.

Fixpoint top (hole : rptr) (k : list hframe) : rptr :=
  match k with [] => hole | f :: k => top (Some (f_ptr f)) k end.

Lemma rootp_plug k t : rootp (plug k t) = top (rootp t) k.
Proof.
  revert t. induction k as [|[d c p b] k IH]; intros t; [done|]. simpl. rw IH. by autorewrite with rbn.
Qed.

Lemma cptr_app par k1 k2 : cptr par (k1 ++ k2) = cptr (cptr par k2) k1.
Proof. by destruct k1. Qed.

Lemma top_app hole k1 k2 : top hole (k1 ++ k2) = top (top hole k1) k2.
Proof. revert hole. induction k1 as [|f k1 IH]; intros; [done|]. apply IH. Qed.

Lemma length_kcells par hole k : (length k <= length (kcells par hole k))%nat.
Proof.
  revert hole. induction k as [|[d c p b] k IH]; intros hole; simpl; [lia|]. rw length_app.
  specialize (IH (Some p)). lia.
Qed.

(** The memory holds tree [t], and only [t] at the root. *)
Definition rbtree (s : rb_state) (t : tree) : Prop := root s = rootp t /\ holds (heap s) (tcells None t).

(** One access to the node [H]. *)
Ltac do_get H := iApply iwp_bind; iApply (iwp_get with H); iIntros H; autorewrite with rbn.
Ltac do_set H := first [iApply iwp_bind; iApply (iwp_set with H)|iApply (iwp_set with H)]; iIntros H; autorewrite with rbn.

Section heap.
Context `{!memGS rb_node rptr Σ}.
Implicit Types (t a b : tree) (k : list hframe).

Definition itree (par : rptr) t : iProp Σ := cells (tcells par t).
Definition iseg (par hole : rptr) k : iProp Σ := cells (kcells par hole k).
Definition ictx (hole : rptr) k : iProp Σ := iseg None hole k ∗ rest_is (top hole k).

Lemma cells_nil : cells [] ⊣⊢ emp.
Proof. done. Qed.
Lemma cells_cons p n l : cells ((p, n) :: l) ⊣⊢ p ↦ n ∗ cells l.
Proof. done. Qed.
Lemma cells_app l1 l2 : cells (l1 ++ l2) ⊣⊢ cells l1 ∗ cells l2.
Proof. apply big_sepL_app. Qed.

Lemma itree_E par : itree par E ⊣⊢ emp.
Proof. done. Qed.
Lemma itree_mk d par c a p b :
  itree par (mk d c a p b) ⊣⊢ p ↦ mknode d par c (rootp a) (rootp b) ∗ itree (Some p) a ∗ itree (Some p) b.
Proof.
  destruct d; rw /itree /= cells_cons cells_app; [done|]. change (mknode Left) with (mknode (opp Right)).
  rw mknode_opp. iSplit; iIntros "($ & $ & $)".
Qed.

Lemma iseg_cons par hole d c p b k :
  iseg par hole (Fr d c p b :: k) ⊣⊢
    p ↦ mknode d (cptr par k) c hole (rootp b) ∗ itree (Some p) b ∗ iseg par (Some p) k.
Proof. by rw /iseg /= cells_cons cells_app. Qed.

Lemma ictx_nil hole : ictx hole [] ⊣⊢ rest_is hole.
Proof. by rw /ictx /iseg /= cells_nil left_id. Qed.

Lemma ictx_cons hole d c p b k :
  ictx hole (Fr d c p b :: k) ⊣⊢
    p ↦ mknode d (cptr None k) c hole (rootp b) ∗ itree (Some p) b ∗ ictx (Some p) k.
Proof. rw /ictx iseg_cons. iSplit; [iIntros "(($ & $ & $) & $)"|iIntros "($ & $ & $ & $)"]. Qed.

Lemma iseg_app par hole k1 k2 :
  iseg par hole (k1 ++ k2) ⊣⊢ iseg (cptr par k2) hole k1 ∗ iseg par (top hole k1) k2.
Proof.
  revert hole. induction k1 as [|[d c p b] k1 IH]; intros hole; [by rw /iseg /= cells_nil left_id|].
  rw /= !iseg_cons IH cptr_app. iSplit; [iIntros "($ & $ & $ & $)"|iIntros "(($ & $ & $) & $)"].
Qed.

Lemma ictx_app hole k1 k2 : ictx hole (k1 ++ k2) ⊣⊢ iseg (cptr None k2) hole k1 ∗ ictx (top hole k1) k2.
Proof. by rw /ictx iseg_app top_app -assoc. Qed.

(** A subtree in its context. *)
Lemma itree_plug par k t : itree par (plug k t) ⊣⊢ iseg par (rootp t) k ∗ itree (cptr par k) t.
Proof.
  revert t. induction k as [|[d c p b] k IH]; intros t; simpl; [by rw /iseg /= cells_nil left_id|].
  rw IH iseg_cons itree_mk rootp_mk. iSplit; [iIntros "($ & $ & $ & $)"|iIntros "(($ & $ & $) & $)"].
Qed.

Lemma ictx_plug k t :
  itree None (plug k t) ∗ rest_is (rootp (plug k t)) ⊣⊢ ictx (rootp t) k ∗ itree (cptr None k) t.
Proof. rw /ictx itree_plug rootp_plug. iSplit; iIntros "[[$ $] $]". Qed.

(** ** Distinct nodes *)
Lemma itree_ne p n par t : p ↦ n -∗ itree par t -∗ ⌜rootp t <> Some p⌝.
Proof.
  iIntros "P T". destruct t as [|c l q r]; [done|]. iDestruct (itree_mk Left with "T") as "(Q & _)".
  iDestruct (pointsto_ne with "P Q") as %H. iPureIntro. by intros [= ->].
Qed.

Lemma iseg_ne p n par hole k : p ↦ n -∗ iseg par hole k -∗ ⌜hole <> Some p -> top hole k <> Some p⌝.
Proof.
  iIntros "P K". iInduction k as [|[d c q b] k IH] forall (hole); [done|].
  iDestruct (iseg_cons with "K") as "(Q & _ & K)". iDestruct (pointsto_ne with "P Q") as %H.
  iDestruct ("IH" with "P K") as %H'. iPureIntro. intros _. apply H'. by intros [= ->].
Qed.

(** ** Helpers *)

Lemma iwp_is_black par t (Q : bool -> iProp Σ) :
  itree par t -∗ (itree par t -∗ Q (match t with T RB_RED _ _ _ => false | _ => true end)) -∗ iwp (is_black (rootp t)) Q.
Proof.
  iIntros "T Q". unfold is_black. destruct t as [|c l p r]; simpl; [iApply iwp_ret; by iApply "Q"|].
  iDestruct (itree_mk Left with "T") as "(P & L)". iApply iwp_bind. iApply (iwp_get with "P"). iIntros "P".
  iApply iwp_ret. rw color_mknode. case_bool_decide; destruct c; try done; iApply "Q"; iApply (itree_mk Left); iFrame.
Qed.

Lemma iwp_set_parent par v t (Q : unit -> iProp Σ) :
  itree par t -∗ (itree v t -∗ Q tt) -∗ iwp (set_parent_if (rootp t) v) Q.
Proof.
  iIntros "T Q". destruct t as [|c l p r]; rw /set_parent_if /when /=; [iApply iwp_ret; by iApply "Q"|].
  iDestruct (itree_mk Left with "T") as "(P & L)". iApply (iwp_set with "P"). iIntros "P". iApply "Q".
  rw with_parent_mknode. iApply (itree_mk Left). iFrame.
Qed.

Lemma iwp_blacken par t (Q : unit -> iProp Σ) :
  itree par t -∗ (itree par (blacken t) -∗ Q tt) -∗
  iwp (when (negb (is_null (rootp t))) (set_color (rootp t) RB_BLACK)) Q.
Proof.
  iIntros "T Q". destruct t as [|c l p r]; rw /when /=; [iApply iwp_ret; by iApply "Q"|].
  iDestruct (itree_mk Left with "T") as "(P & L)". iApply (iwp_set with "P"). iIntros "P". iApply "Q".
  rw with_color_mknode. iApply (itree_mk Left). iFrame.
Qed.

Lemma iwp_relink d k p n new (Q : unit -> iProp Σ) :
  p ↦ n -∗ ictx (Some p) k -∗ (p ↦ n -∗ ictx new k -∗ Q tt) -∗ iwp (relink d (cptr None k) (Some p) new) Q.
Proof.
  iIntros "P K Q". destruct k as [|[d' c q b] k]; rw /relink /=.
  - rw !ictx_nil. iApply (iwp_set_rest with "K"). by iApply "Q".
  - iDestruct (ictx_cons with "K") as "(N & B & K)". iDestruct (itree_ne with "P B") as %Hne.
    iApply iwp_bind. iApply (iwp_get with "N"). iIntros "N".
    assert (d = d' \/ d = opp d') as [->| ->] by (destruct d, d'; auto); autorewrite with rbn.
    + rw bool_decide_true //. iApply (iwp_set with "N"). iIntros "N". autorewrite with rbn.
      iApply ("Q" with "P"). iApply ictx_cons. iFrame.
    + rw bool_decide_false //. iApply (iwp_set with "N"). iIntros "N". autorewrite with rbn.
      iApply ("Q" with "P"). iApply ictx_cons. iFrame.
Qed.

(** A rotation: [q] takes the place of [p], and the order stays. *)
Lemma iwp_rotate d k c a p c' b q e (Q : unit -> iProp Σ) :
  ictx (Some p) k -∗ itree (cptr None k) (mk d c a p (mk d c' b q e)) -∗
  (ictx (Some q) k -∗ itree (cptr None k) (mk d c' (mk d c a p b) q e) -∗ Q tt) -∗
  iwp (__rb_rotate d (Some p)) Q.
Proof.
  iIntros "K T Q". rw !itree_mk rootp_mk. iDestruct "T" as "(P & A & N & B & C)". unfold __rb_rotate.
  do_get "P". do_get "N". do_set "P". iApply iwp_bind. iApply (iwp_set_parent with "B"). iIntros "B".
  do_set "N". do_get "P". do_set "N". iApply iwp_bind. iApply (iwp_relink with "P K"). iIntros "P K".
  do_set "P". iApply ("Q" with "K"). iFrame.
Qed.
End heap.

(** ** Red-black trees: insertion *)
Ltac inorder_eq := rw ?inorder_plug; simpl; repeat (match goal with d : side |- _ => destruct d end); simpl;
  rw ?inorder_blacken; repeat (rw -app_assoc; simpl); done.

Section insert.
Context `{!memGS rb_node rptr Σ}.
Implicit Types (t a b sib unc : tree) (k : list hframe).

(** The colour of the node above a hole. *)
Lemma iwp_ctx_black hole k (Q : bool -> iProp Σ) :
  ictx hole k -∗ (ictx hole k -∗ Q (match k with Fr _ RB_RED _ _ :: _ => false | _ => true end)) -∗
  iwp (is_black (cptr None k)) Q.
Proof.
  iIntros "K Q". destruct k as [|[d c p b] k]; rw /is_black /=; [iApply iwp_ret; by iApply "Q"|].
  iDestruct (ictx_cons with "K") as "(P & B & K)". do_get "P". iApply iwp_ret.
  case_bool_decide; destruct c; try done; iApply "Q"; iApply ictx_cons; iFrame.
Qed.

Lemma side_of d par c x y : y <> x ->
  (if bool_decide (x = rb_left (mknode d par c x y)) then Left else Right) = d.
Proof. intros Hne. destruct d; simpl; [by rw bool_decide_true|rw bool_decide_false //]. Qed.

(** A red uncle: the two nodes and their parent swap colours. *)
Lemma iwp_insert_recolor d d' cp cg t p sib g u1 u u2 par node (Q : rptr -> iProp Σ) :
  let unc := T RB_RED u1 u u2 in
  itree par (mk d cg (mk d' cp t p sib) g unc) -∗
  (itree par (mk d RB_RED (mk d' RB_BLACK t p sib) g (blacken unc)) -∗ Q (Some g)) -∗
  iwp (insert_half d node (Some p) (Some g)) Q.
Proof.
  iIntros (unc) "T Q". rw !itree_mk !rootp_mk. iDestruct "T" as "(G & (P & T & S) & U)". unfold insert_half.
  do_get "G". iApply iwp_bind. iApply (iwp_is_black with "U"). iIntros "U". simpl.
  iDestruct (itree_mk Left with "U") as "(U & U1 & U2)". do_set "U". do_set "P". do_set "G". iApply iwp_ret.
  iApply "Q". iFrame.
Qed.

Definition black_top t : Prop := match t with T RB_RED _ _ _ => False | _ => True end.
#[export] Instance black_top_dec t : Decision (black_top t).
Proof. destruct t as [|[] ? ? ?]; apply _. Defined.

(** An outer node: one rotation. *)
Lemma iwp_insert_outer d k cp cg ct t1 x t2 p sib g unc (Q : rptr -> iProp Σ) :
  black_top unc ->
  let t := mk d ct t1 x t2 in
  ictx (Some g) k -∗ itree (cptr None k) (mk d cg (mk d cp t p sib) g unc) -∗
  (ictx (Some p) k -∗ itree (cptr None k) (mk d RB_BLACK t p (mk d RB_RED sib g unc)) -∗ Q (Some x)) -∗
  iwp (insert_half d (Some x) (Some p) (Some g)) Q.
Proof.
  iIntros (Hu t) "K T Q". rw !(itree_mk d (cptr None k)) !(itree_mk d (Some g)) !rootp_mk.
  iDestruct "T" as "(G & (P & T & S) & U)". unfold insert_half.
  do_get "G". iApply iwp_bind. iApply (iwp_is_black with "U"). iIntros "U".
  replace (match unc with T RB_RED _ _ _ => false | _ => true end) with true by (by destruct unc as [|[]]). simpl.
  iDestruct (itree_mk d with "T") as "(X & T)". iDestruct (itree_ne with "X S") as %Hne.
  do_get "P". iApply iwp_bind. rw bool_decide_false //. iApply iwp_ret. do_set "P". do_set "G".
  iApply iwp_bind.
  iApply (iwp_rotate (opp d) k _ _ _ _ sib p t with "K [-Q]").
  { rw !mk_opp !itree_mk !rootp_mk. iFrame. }
  iIntros "K T". iApply iwp_ret. iApply ("Q" with "K"). rw !mk_opp !itree_mk !rootp_mk. iFrame.
Qed.

(** An inner node: it is first rotated outwards. *)
Lemma iwp_insert_inner d k cp cg ct t1 x t2 p sib g unc (Q : rptr -> iProp Σ) :
  black_top unc ->
  ictx (Some g) k -∗ itree (cptr None k) (mk d cg (mk d cp sib p (mk d ct t1 x t2)) g unc) -∗
  (ictx (Some x) k -∗ itree (cptr None k) (mk d RB_BLACK (mk d cp sib p t1) x (mk d RB_RED t2 g unc)) -∗ Q (Some p)) -∗
  iwp (insert_half d (Some x) (Some p) (Some g)) Q.
Proof.
  iIntros (Hu) "K T Q". rw (itree_mk d (cptr None k)) rootp_mk. iDestruct "T" as "(G & T & U)". unfold insert_half.
  do_get "G". iApply iwp_bind. iApply (iwp_is_black with "U"). iIntros "U".
  replace (match unc with T RB_RED _ _ _ => false | _ => true end) with true by (by destruct unc as [|[]]). simpl.
  rw (itree_mk d (Some g)) rootp_mk. iDestruct "T" as "(P & T)". do_get "P". rw bool_decide_true //. iApply iwp_bind. iApply iwp_bind.
  iApply (iwp_rotate d (Fr d cg g unc :: k) cp sib p ct t1 x t2 with "[K G U] [P T]").
  { iApply ictx_cons. iFrame. }
  { rw /= (itree_mk d (Some g)) rootp_mk. iFrame. }
  iIntros "K T". rw /= ictx_cons (itree_mk d (Some g)). iDestruct "K" as "(G & U & K)". iDestruct "T" as "(X & T & T2)".
  iApply iwp_ret. do_set "X". do_set "G". iApply iwp_bind.
  iApply (iwp_rotate (opp d) k _ unc g _ t2 x (mk d cp sib p t1) with "K [-Q]").
  { rw !mk_opp !itree_mk !rootp_mk. iFrame. }
  iIntros "K T". iApply iwp_ret. iApply ("Q" with "K"). rw !mk_opp !itree_mk !rootp_mk. iFrame.
Qed.

(** What the loop leaves: a tree that is balanced up to the colour of the
    root. *)
Definition inserted (l : list nat) (t' : tree) : Prop := (exists c m, rb t' c m) /\ inorder t' = l.

Lemma iwp_insert_loop fuel k e l x r n (Q : unit -> iProp Σ) :
  let t := mk e RB_RED l x r in
  rb t RB_RED n -> ok k RB_BLACK n -> (length k <= fuel)%nat ->
  ictx (Some x) k -∗ itree (cptr None k) t -∗
  (∀ t', ⌜inserted (inorder (plug k t)) t'⌝ -∗ itree None t' -∗ rest_is (rootp t') -∗ Q tt) -∗
  iwp (insert_loop fuel (Some x)) Q.
Proof.
  revert fuel k e l x r n. induction fuel as [|fuel IH]; intros k e l x r n t Ht Hk Hf.
  all: iIntros "K T Q"; cbn [insert_loop]; iDestruct (itree_mk e with "T") as "(X & L & R)"; do_get "X";
    iApply iwp_bind; iApply (iwp_ctx_black with "K"); iIntros "K".
  all: iAssert (itree (cptr None k) t) with "[X L R]" as "T"; [iApply (itree_mk e); iFrame|].
  all: destruct k as [|[d' [] p sib] k]; simpl in Hf; try lia.
  all: try (iApply iwp_ret; iDestruct (ictx_plug _ t with "[K T]") as "[T R]"; [rw rootp_mk; by iFrame|];
    iApply ("Q" with "[] T R"); iPureIntro; split; [|done]).
  all: try by eexists _, _.
  all: try by (apply ok_B_inv in Hk as [[cb Hb] Hk]; eexists _; eapply plug_ok; eauto with kernel).
  apply ok_R_inv in Hk as (_ & Hsib & Hk). destruct (ok_red_inv _ _ Hk) as (d & g & unc & k' & ->).
  apply ok_B_inv in Hk as [[cu Hunc] Hk]. rename k' into k. simpl in Hf.
  rw !ictx_cons. iDestruct "K" as "(P & S & G & U & K)". iDestruct (itree_ne with "P U") as %Hne. simpl.
  do_get "P". do_get "G". rw side_of //. iApply iwp_bind.
  iAssert (itree (cptr None k) (mk d RB_BLACK (mk d' RB_RED t p sib) g unc)) with "[P S G U T]" as "T".
  { rw !itree_mk !rootp_mk. iFrame. }
  assert (exists t1 t2, t = mk d RB_RED t1 x t2) as (t1 & t2 & Et) by (unfold t; destruct d, e; simpl; eauto).
  rw Et. rw Et in Ht. clearbody t. clear Et e l r. apply rb_mk_R_inv in Ht as (_ & Ht1 & Ht2).
  destruct (decide (black_top unc)) as [Hu|Hu].
  - assert (cu = RB_BLACK) as -> by (by inversion Hunc; subst).
    assert (d' = d \/ d' = opp d) as [->| ->] by (destruct d, d'; auto).
    + iApply (iwp_insert_outer with "K T"); [done|]. iIntros "K T". rw itree_mk rootp_mk. iDestruct "T" as "(P & T & G)".
      iApply (IH (Fr d RB_BLACK p (mk d RB_RED sib g unc) :: k) d t1 x t2 n with "[K P G] T");
        [eauto with kernel|eauto with kernel|simpl; lia|iApply ictx_cons; iFrame|].
      iIntros (t' [H1 H2]). iApply "Q". iPureIntro. split; [done|]. rw H2. inorder_eq.
    + rw mk_opp. iApply (iwp_insert_inner with "K T"); [done|]. iIntros "K T". rw itree_mk rootp_mk. iDestruct "T" as "(P & T & G)".
      iApply (IH (Fr d RB_BLACK x (mk d RB_RED t2 g unc) :: k) d sib p t1 n with "[K P G] T");
        [eauto with kernel|eauto with kernel|simpl; lia|iApply ictx_cons; iFrame|].
      iIntros (t' [H1 H2]). iApply "Q". iPureIntro. split; [done|]. rw H2. inorder_eq.
  - destruct unc as [|[] u1 u u2]; try done. inversion Hunc; subst.
    iApply (iwp_insert_recolor with "T"). iIntros "T".
    iApply (IH k d _ g _ (S n) with "K T"); [simpl; eauto 10 with kernel|done|lia|].
    iIntros (t' [H1 H2]). iApply "Q". iPureIntro. split; [done|]. rw H2. inorder_eq.
Qed.

Lemma iwp_link_node k x n (Q : unit -> iProp Σ) :
  x ↦ n -∗ ictx None k -∗
  (ictx (Some x) k -∗ itree (cptr None k) (T RB_RED E x E) -∗ Q tt) -∗
  iwp (rb_link_node (Some x) (cptr None k) (link_of k)) Q.
Proof.
  iIntros "X K Q". unfold rb_link_node. do_set "X".
  iAssert (itree (cptr None k) (T RB_RED E x E)) with "[X]" as "T".
  { rw /itree /= cells_cons cells_nil. by iFrame. }
  destruct k as [|[d c p b] k]; simpl.
  - rw !ictx_nil. iApply (iwp_set_rest with "K"). iIntros "R". by iApply ("Q" with "R T").
  - iDestruct (ictx_cons with "K") as "(P & B & K)". do_set "P". iApply ("Q" with "[-T] T"). iApply ictx_cons. iFrame.
Qed.

Lemma iwp_insert k x n (Q : unit -> iProp Σ) :
  ok k RB_BLACK 0 ->
  x ↦ n -∗ ictx None k -∗
  (∀ t', ⌜red_black t' /\ inorder t' = before k ++ x :: after k⌝ -∗ itree None t' -∗ rest_is (rootp t') -∗ Q tt) -∗
  iwp (insert_at k x) Q.
Proof.
  iIntros (Hk) "X K Q". iApply iwp_bind. iApply (iwp_link_node with "X K"). iIntros "[K R] T".
  iApply iwp_bind. iApply (iwp_fuel (kcells None (Some x) k) with "K"). iIntros (fuel Hf) "K".
  pose proof (length_kcells None (Some x) k). iApply iwp_bind.
  iApply (iwp_insert_loop fuel k Left E x E 0 with "[K R] T"); [simpl; eauto with kernel|done|lia|iFrame|].
  iIntros (t' [(c & m & Ht) Ho]) "T R". rw inorder_plug /= in Ho. iApply iwp_bind. iApply (iwp_rest with "R"). iIntros "R".
  destruct t' as [|c' l p r]; [by destruct (before k)|].
  iDestruct (itree_mk Left with "T") as "(P & T)". do_set "P". iApply ("Q" $! (T RB_BLACK l p r) with "[] [P T] R").
  - iPureIntro. split; [|done]. exact (rb_blacken _ _ _ Ht).
  - iApply (itree_mk Left). iFrame.
Qed.
End insert.
