(* ===== verification/RbErase.v ===== *)
(** * Red-black trees: rebalancing after a removal *)
From S2P Require Import Prelude.
From S2P Require Import Heap.
From S2P Require Import HeapLogic.
From S2P Require Import RbTree.
From S2P Require Import RbSpec.
From S2P Require Import RbInsert.

(** A subtree that lacks one black node, perhaps with a red root that is to
    become black. *)
Definition damaged (t : tree) (n : nat) : Prop :=
  rb t RB_BLACK n \/ exists l p r cl cr, t = T RB_RED l p r /\ rb l cl n /\ rb r cr n.

Lemma damaged_blacken t n : damaged t n -> red_black (blacken t).
Proof. intros [H|(l & p & r & cl & cr & -> & Hl & Hr)]; [by apply rb_blacken in H|]. exists (S n). eauto with kernel. Qed.

Lemma rb_red t n : rb t RB_RED n -> exists l p r, t = T RB_RED l p r /\ rb l RB_BLACK n /\ rb r RB_BLACK n.
Proof. inversion 1; subst; eauto 10. Qed.

Lemma rb_black_top t c n : rb t c n -> black_top t -> c = RB_BLACK.
Proof. by inversion 1; subst. Qed.

Section erase.
Context `{!memGS rb_node rptr Σ}.
Implicit Types (t a b e sib : tree) (k : list hframe).

(** Afterwards the sibling is black; if the context has grown, the parent is
    red. *)
Lemma iwp_red_sibling d c p sib k t n (Q : rptr -> iProp Σ) :
  ok (Fr d c p sib :: k) RB_BLACK (S n) ->
  ictx (rootp t) (Fr d c p sib :: k) -∗ itree (Some p) t -∗
  (∀ c' b q e k', ⌜let f := Fr d c' p (mk d RB_BLACK b q e) in
     ok (f :: k') RB_BLACK (S n) /\ inorder (plug (f :: k') t) = inorder (plug (Fr d c p sib :: k) t) /\
     (c' = RB_RED \/ k' = k)⌝ -∗
     ictx (rootp t) (Fr d c' p (mk d RB_BLACK b q e) :: k') -∗ itree (Some p) t -∗ Q (Some q)) -∗
  iwp (red_sibling d (Some p) (rootp sib)) Q.
Proof.
  iIntros (Hk) "K T Q". unfold red_sibling. rw ictx_cons. iDestruct "K" as "(P & S & K)".
  assert (exists cs, rb sib cs (S n)) as [cs Hs].
  { destruct c; [apply ok_R_inv in Hk as (_ & H & _); eauto|by apply ok_B_inv in Hk as [H _]]. }
  destruct (tree_side d sib) as [->|(c' & b & q & e & ->)]; [by inversion Hs|].
  rw itree_mk rootp_mk. iDestruct "S" as "(N & B & C)". do_get "N". destruct c'.
  - rw bool_decide_true //. apply rb_mk_R_inv in Hs as (-> & Hb & He). destruct c.
    { apply ok_R_inv in Hk as (_ & H & _). by apply rb_mk_R_inv in H as [[=] _]. }
    apply ok_B_inv in Hk as [_ Hk]. do_set "N". do_set "P". iApply iwp_bind.
    iApply (iwp_rotate d k RB_RED t p RB_BLACK b q e with "K [P N T B C]").
    { rw !itree_mk !rootp_mk. iFrame. }
    iIntros "K N". rw !itree_mk !rootp_mk. iDestruct "N" as "(N & (P & T & B) & C)". do_get "P". iApply iwp_ret.
    assert (exists b1 y b2, b = mk d RB_BLACK b1 y b2) as (b1 & y & b2 & ->).
    { destruct (tree_side d b) as [->|(c' & b1 & y & b2 & ->)]; [by inversion Hb|]. destruct c'; [|eauto].
      by apply rb_mk_R_inv in Hb as [[=] _]. }
    rw rootp_mk. iApply ("Q" $! RB_RED b1 y b2 (Fr d RB_BLACK q e :: k) with "[] [-T] T").
    + iPureIntro. simpl. split; [eauto with kernel|]. split; [inorder_eq|by left].
    + rw !ictx_cons rootp_mk. iFrame.
  - rw bool_decide_false //. iApply iwp_ret. iApply ("Q" $! c b q e k with "[] [-T] T").
    + iPureIntro. auto.
    + rw !ictx_cons rootp_mk itree_mk. iFrame.
Qed.

(** Afterwards the outer nephew is red. *)
Lemma iwp_red_nephew d c p b q e k t n (Q : rptr -> iProp Σ) cb ce :
  rb b cb n -> rb e ce n -> ~ (black_top b /\ black_top e) ->
  ictx (rootp t) (Fr d c p (mk d RB_BLACK b q e) :: k) -∗ itree (Some p) t -∗
  (∀ b' q' e' cb', ⌜rb b' cb' n /\ rb e' RB_RED n /\
     inorder (mk d RB_BLACK b' q' e') = inorder (mk d RB_BLACK b q e)⌝ -∗
     ictx (rootp t) (Fr d c p (mk d RB_BLACK b' q' e') :: k) -∗ itree (Some p) t -∗ Q (Some q')) -∗
  iwp (red_nephew d (Some p) (Some q)) Q.
Proof.
  iIntros (Hb He Hred) "K T Q". unfold red_nephew. rw ictx_cons rootp_mk itree_mk. iDestruct "K" as "(P & (N & B & C) & K)".
  do_get "N". iApply iwp_bind. iApply (iwp_is_black with "C"). iIntros "C".
  destruct (decide (black_top e)) as [Ht|Ht].
  - replace (match e with T RB_RED _ _ _ => false | _ => true end) with true by (by destruct e as [|[]]).
    assert (exists b1 y b2, b = mk d RB_RED b1 y b2) as (b1 & y & b2 & ->).
    { destruct (tree_side d b) as [->|([] & b1 & y & b2 & ->)]; [by destruct Hred|eauto|]. destruct Hred. by destruct d. }
    apply rb_mk_R_inv in Hb as (-> & Hb1 & Hb2). assert (ce = RB_BLACK) as -> by (by eapply rb_black_top).
    iApply iwp_bind. rw rootp_mk /when /= itree_mk. iDestruct "B" as "(Y & B)". do_set "Y". do_set "N". iApply iwp_bind.
    iApply (iwp_rotate (opp d) (Fr (opp d) c p t :: k) RB_RED e q RB_BLACK b2 y b1 with "[P K T] [N Y B C]").
    { rw ictx_cons mknode_opp. iFrame. }
    { rw !mk_opp !itree_mk !rootp_mk /=. iFrame. }
    iIntros "K S". rw !mk_opp ictx_cons mknode_opp /=. iDestruct "K" as "(P & T & K)". do_get "P". iApply iwp_ret.
    iApply ("Q" $! b1 y (mk d RB_RED b2 q e) RB_BLACK with "[] [-T] T").
    + iPureIntro. split; [done|]. split; [eauto with kernel|inorder_eq].
    + rw ictx_cons rootp_mk. iFrame.
  - destruct e as [|[] e1 r e2]; try done. iApply iwp_ret. inversion He; subst.
    iApply ("Q" $! b q (T RB_RED e1 r e2) cb with "[] [-T] T"); [eauto with kernel|].
    rw ictx_cons rootp_mk itree_mk. iFrame.
Qed.

Lemma iwp_last_rotation d k c t p cq b q e (Q : unit -> iProp Σ) :
  ictx (Some p) k -∗ itree (cptr None k) (mk d c t p (mk d cq b q e)) -∗
  (ictx (Some q) k -∗ itree (cptr None k) (mk d c (mk d RB_BLACK t p b) q (blacken e)) -∗ Q tt) -∗
  iwp (last_rotation d (Some p) (Some q)) Q.
Proof.
  iIntros "K T Q". unfold last_rotation. rw !itree_mk !rootp_mk. iDestruct "T" as "(P & T & N & B & C)".
  do_get "P". do_set "N". do_set "P". do_get "N". iApply iwp_bind. iApply (iwp_blacken with "C"). iIntros "C".
  iApply (iwp_rotate d k _ t p _ b q (blacken e) with "K [-Q]").
  { rw !itree_mk !rootp_mk. replace (rootp (blacken e)) with (rootp e) by (by destruct e). iFrame. }
  iIntros "K T". iApply ("Q" with "K"). rw !itree_mk !rootp_mk. iFrame.
Qed.

Definition both_black (o : rb_node) : M rb_state bool :=
  bind (is_black (rb_left o)) (fun bl : bool => if bl then is_black (rb_right o) else ret false).

Lemma iwp_both_black d par c b e x y (Q : bool -> iProp Σ) :
  itree x b -∗ itree y e -∗
  (itree x b -∗ itree y e -∗ Q (bool_decide (black_top b /\ black_top e))) -∗
  iwp (both_black (mknode d par c (rootp b) (rootp e))) Q.
Proof.
  assert (forall t, (match t with T RB_RED _ _ _ => false | _ => true end) = bool_decide (black_top t)) as E.
  { intros [|[] l q r]; [by rw bool_decide_true|by rw bool_decide_false; [|intros []]|by rw bool_decide_true]. }
  iIntros "B C Q". unfold both_black. iApply iwp_bind. destruct d; simpl.
  - iApply (iwp_is_black with "B"). iIntros "B". rw E. destruct (decide (black_top b)) as [Hb|Hb].
    + rw (bool_decide_true _ Hb). iApply (iwp_is_black with "C"). iIntros "C". rw E.
      rw (bool_decide_ext (black_top e) (black_top b /\ black_top e)); [|tauto]. iApply ("Q" with "B C").
    + rw (bool_decide_false _ Hb). iApply iwp_ret. rw (bool_decide_false (black_top b /\ black_top e)); [|tauto]. iApply ("Q" with "B C").
  - iApply (iwp_is_black with "C"). iIntros "C". rw E. destruct (decide (black_top e)) as [Hb|Hb].
    + rw (bool_decide_true _ Hb). iApply (iwp_is_black with "B"). iIntros "B". rw E.
      rw (bool_decide_ext (black_top b) (black_top b /\ black_top e)); [|tauto]. iApply ("Q" with "B C").
    + rw (bool_decide_false _ Hb). iApply iwp_ret. rw (bool_decide_false (black_top b /\ black_top e)); [|tauto]. iApply ("Q" with "B C").
Qed.

(** The state after a round: the new focus, and whether the loop goes on. *)
Definition round_ok (l : list nat) k (go : bool) k0 t0 : Prop :=
  inorder (plug k0 t0) = l /\
  if go then exists m, damaged t0 m /\ ok k0 RB_BLACK (S m) /\ (~ black_top t0 \/ k0 = k)
  else red_black (plug k0 (blacken t0)).

Lemma iwp_erase_half d c p sib k t n (Q : rptr * rptr * bool -> iProp Σ) :
  rb t RB_BLACK n -> ok (Fr d c p sib :: k) RB_BLACK (S n) ->
  ictx (rootp t) (Fr d c p sib :: k) -∗ itree (Some p) t -∗
  (∀ k0 t0 par go, ⌜round_ok (inorder (plug (Fr d c p sib :: k) t)) k go k0 t0 /\ (go = true -> par = cptr None k0)⌝ -∗
     ictx (rootp t0) k0 -∗ itree (cptr None k0) t0 -∗ Q (rootp t0, par, go)) -∗
  iwp (erase_half d (rootp t) (Some p)) Q.
Proof.
  iIntros (Ht Hk) "K T Q". unfold erase_half. rw {1}ictx_cons. iDestruct "K" as "(P & S & K)". do_get "P". iApply iwp_bind.
  iApply (iwp_red_sibling with "[P S K] T"); [done|iApply ictx_cons; iFrame|].
  iIntros (c' b q e k' (Hk' & Ho & Hc)) "K T". clear Hk. rw -Ho. clear Ho.
  assert (exists cb ce, rb b cb n /\ rb e ce n) as (cb & ce & Hb & He).
  { assert (exists cs, rb (mk d RB_BLACK b q e) cs (S n)) as [cs H].
    { destruct c'; [apply ok_R_inv in Hk' as (_ & H & _); eauto|by apply ok_B_inv in Hk' as [H _]]. }
    apply rb_mk_B_inv in H as (_ & m & cb & ce & [= <-] & Hb & He). eauto. }
  rw {1}ictx_cons itree_mk rootp_mk. iDestruct "K" as "(P & (N & B & C) & K)". do_get "N".
  iApply iwp_bind. iApply (iwp_both_black with "B C"). iIntros "B C". case_bool_decide as Hbl.
  - destruct Hbl as [Hb1 He1]. assert (cb = RB_BLACK) as -> by (by eapply rb_black_top).
    assert (ce = RB_BLACK) as -> by (by eapply rb_black_top). do_set "N". do_get "P". iApply iwp_ret.
    iSpecialize ("Q" $! k' (mk d c' t p (mk d RB_RED b q e)) (cptr None k') true). rw rootp_mk.
    iApply ("Q" with "[] K [-]").
    + iPureIntro. split; [|done]. split; [inorder_eq|]. destruct c'.
      * exists n. apply ok_R_inv in Hk' as (_ & _ & Hk'%ok_black). split; [|split; [done|left; destruct d; intros []]].
        right. destruct d; simpl; eauto 10 with kernel.
      * exists (S n). apply ok_B_inv in Hk' as [_ Hk']. split; [left; eauto with kernel|]. split; [done|].
        right. by destruct Hc.
    + rw !itree_mk !rootp_mk. iFrame.
  - iApply iwp_bind. iApply (iwp_red_nephew d c' p b q e k' with "[P N B C K] T"); [done..| |].
    { rw ictx_cons itree_mk rootp_mk. iFrame. }
    clear Hbl. iIntros (b' q' e' cb' (Hb' & He' & Eo)) "K T". rw ictx_cons. iDestruct "K" as "(P & S & K)". iApply iwp_bind.
    iApply (iwp_last_rotation with "K [P S T]"); [rw (itree_mk d (cptr None k')); iFrame|]. iIntros "K T". iApply iwp_bind.
    set (t1 := mk d c' _ _ _). iDestruct (ictx_plug k' t1 with "[K T]") as "[T R]"; [unfold t1; rw rootp_mk; iFrame|].
    iApply (iwp_rest with "R"). iIntros "R". iApply iwp_ret.
    iApply ("Q" $! [] (plug k' t1) (Some p) false with "[] [R] T"); [|by rw ictx_nil].
    iPureIntro. split; [|done]. assert (exists m, rb (plug k' t1) RB_BLACK m) as [m Hm].
    { apply rb_red in He' as (e1 & y & e2 & -> & He1 & He2). simpl in *. unfold t1. destruct c'.
      - apply ok_R_inv in Hk' as (_ & _ & Hk'). eapply plug_ok; [|done]. eauto with kernel.
      - apply ok_B_inv in Hk' as [_ Hk']. eapply plug_ok; [|done]. eauto 10 with kernel. }
    split; [|by apply rb_blacken in Hm].
    simpl. rw !inorder_plug. f_equal. f_equal. unfold t1. clear -Eo. revert Eo.
    destruct d; simpl; rw ?inorder_blacken; intros Eo; [rw -app_assoc /= Eo //|rw -Eo -app_assoc //].
Qed.

(** The root is not the node below a context. *)
Lemma top_ne hole f k : exists q, top hole (f :: k) = Some q.
Proof. simpl. generalize (f_ptr f). induction k as [|f' k IH]; intros p; simpl; eauto. Qed.

Lemma ictx_root par t f k : itree par t -∗ ictx (rootp t) (f :: k) -∗ ⌜rootp t <> top (rootp t) (f :: k)⌝.
Proof.
  iIntros "T K". destruct t as [|c l x r].
  - destruct (top_ne None f k) as [q E]. iPureIntro. by rw /rootp E.
  - iDestruct (itree_mk Left with "T") as "(X & _)". destruct f as [d cf p b].
    iDestruct (ictx_cons with "K") as "(P & _ & K & _)". iDestruct (pointsto_ne with "X P") as %Hne.
    iDestruct (iseg_ne with "X K") as %H. iPureIntro. simpl. intros E. apply H; [congruence|done].
Qed.

Lemma is_black_top t : (match t with T RB_RED _ _ _ => false | _ => true end) = bool_decide (black_top t).
Proof. destruct t as [|[] l q r]; [by rw bool_decide_true|by rw bool_decide_false; [|intros []]|by rw bool_decide_true]. Qed.

Lemma iwp_erase_loop fuel k t n (Q : rptr -> iProp Σ) :
  damaged t n -> ok k RB_BLACK (S n) -> (~ black_top t \/ length k <= fuel)%nat ->
  ictx (rootp t) k -∗ itree (cptr None k) t -∗
  (∀ k0 t0, ⌜red_black (plug k0 (blacken t0)) /\ inorder (plug k0 t0) = inorder (plug k t)⌝ -∗
     ictx (rootp t0) k0 -∗ itree (cptr None k0) t0 -∗ Q (rootp t0)) -∗
  iwp (erase_loop fuel (rootp t) (cptr None k)) Q.
Proof.
  revert k t n. induction fuel as [|fuel IH]; intros k t n Ht Hk Hf.
  all: iIntros "K T Q"; cbn [erase_loop]; iApply iwp_bind; iApply (iwp_is_black with "T"); iIntros "T"; rw is_black_top;
    iApply iwp_bind; iDestruct "K" as "[K R]"; iApply (iwp_rest with "R"); iIntros "R";
    iAssert (ictx (rootp t) k) with "[$K $R]" as "K".
  all: destruct (decide (black_top t)) as [Hb|Hb]; [rw (bool_decide_true _ Hb)|rw (bool_decide_false _ Hb)].
  all: try (iApply iwp_ret; iApply ("Q" $! k t with "[] K T"); iPureIntro; split; [|done];
    destruct Ht as [Ht|(l & p & r & cl & cr & -> & Hl & Hr)]; [destruct Hb; by inversion Ht|eapply plug_ok; [|done]; simpl; eauto with kernel]).
  all: destruct k as [|[d c p sib] k];
    [rw bool_decide_true //; iApply iwp_ret; iApply ("Q" $! [] t with "[] K T"); iPureIntro; split; [by eapply damaged_blacken|done]|].
  all: destruct Hf as [|Hf]; [done|]; simpl in Hf; try lia.
  iDestruct (ictx_root with "T K") as %Hr. rw (bool_decide_false _ Hr). simpl.
  destruct Ht as [Ht|(l & ? & r & cl & cr & -> & _)]; [|done].
  rw {1}ictx_cons. iDestruct "K" as "(P & S & K)". do_get "P". iApply iwp_bind.
  iAssert ⌜rootp sib <> rootp t⌝%I as %Hne.
  { destruct sib as [|cs l q r].
    - destruct c; [apply ok_R_inv in Hk as (_ & H & _)|apply ok_B_inv in Hk as [[cb H] _]]; inversion H.
    - iDestruct (itree_mk Left with "S") as "(N & _)". iDestruct (itree_ne with "N T") as %H. by iPureIntro. }
  rw (bool_decide_ext _ (rootp t = rb_left (mknode d (cptr None k) c (rootp t) (rootp sib)))); [|done]. rw side_of //.
  iApply (iwp_erase_half with "[P S K] T"); [done..|iApply ictx_cons; iFrame|].
  iIntros (k0 t0 par go ((Ho & Hgo) & Hpar)) "K T". destruct go.
  - destruct Hgo as (m & Hd & Hk0 & Hor). rw (Hpar eq_refl). iApply (IH k0 t0 m with "K T"); [done..| |].
    + destruct Hor as [| -> ]; [by left|right; lia].
    + iIntros (k1 t1 [H1 H2]). iApply "Q". iPureIntro. by rw H2.
  - iApply iwp_ret. iApply ("Q" with "[] K T"). by iPureIntro.
Qed.

Lemma iwp_erase_color k t n (Q : unit -> iProp Σ) :
  damaged t n -> ok k RB_BLACK (S n) ->
  ictx (rootp t) k -∗ itree (cptr None k) t -∗
  (∀ t', ⌜red_black t' /\ inorder t' = inorder (plug k t)⌝ -∗ itree None t' -∗ rest_is (rootp t') -∗ Q tt) -∗
  iwp (__rb_erase_color (rootp t) (cptr None k)) Q.
Proof.
  iIntros (Ht Hk) "[K R] T Q". iApply iwp_bind. iApply (iwp_fuel with "K"). iIntros (fuel Hf) "K".
  pose proof (length_kcells None (rootp t) k). iApply iwp_bind.
  iApply (iwp_erase_loop fuel k t n with "[$K $R] T"); [done..|right; lia|].
  iIntros (k0 t0 [H1 H2]) "K T". iApply (iwp_blacken with "T"). iIntros "T".
  iDestruct (ictx_plug k0 (blacken t0) with "[K T]") as "[T R]".
  { replace (rootp (blacken t0)) with (rootp t0) by (by destruct t0). iFrame. }
  iApply ("Q" with "[] T R"). iPureIntro. split; [done|]. by rw -H2 !inorder_plug inorder_blacken.
Qed.
End erase.

(** ** Red-black trees: removal and replacement of a node, and navigation *)
(** ** Paths along one side *)
Definition straight (d : side) (k : list hframe) : Prop := Forall (fun f => f_side f = d) k.

Lemma straight_before k : straight Left k -> before k = [].
Proof. induction 1 as [|[d c p b] k Hd _ IH]; simpl in *; [done|]. by subst. Qed.
Lemma straight_after k : straight Right k -> after k = [].
Proof. induction 1 as [|[d c p b] k Hd _ IH]; simpl in *; [done|]. by subst. Qed.

(** Balance does not depend on addresses. *)
Lemma ok_address k1 d c p p' b k2 c' n : ok (k1 ++ Fr d c p b :: k2) c' n -> ok (k1 ++ Fr d c p' b :: k2) c' n.
Proof.
  revert c' n. induction k1 as [|[d1 c1 p1 b1] k1 IH]; intros c' n H; simpl in *; inversion H; subst; eauto with kernel.
Qed.

(** Balance around a subtree whose root, with one child, is taken out. *)
Lemma removed_ok d c p x c' m k :
  rb (mk d c E p x) c' m -> ok k c' m ->
  match c with RB_RED => red_black (plug k x) | RB_BLACK => exists n, damaged x n /\ ok k RB_BLACK (S n) end.
Proof.
  intros Hx Hk. destruct c.
  - apply rb_mk_R_inv in Hx as (-> & _ & Hx). by eapply plug_ok, ok_black.
  - apply rb_mk_B_inv in Hx as (-> & n & ca & cb & -> & _ & Hx). exists n. split; [|done]. destruct cb; [|by left].
    right. apply rb_red in Hx as (l & q & r & -> & Hl & Hr). by exists l, q, r, RB_BLACK, RB_BLACK.
Qed.

Section remove.
Context `{!memGS rb_node rptr Σ}.
Implicit Types (t a b l r : tree) (k : list hframe).

Lemma length_tcells par t : length (tcells par t) = length (inorder t).
Proof. revert par. induction t as [|c l IHl p r IHr]; intros; simpl; [done|]. rw !length_app IHl IHr /=. lia. Qed.

(** The last node on one side. *)
Lemma iwp_down d fuel par t (Q : rptr -> iProp Σ) :
  t <> E -> (length (inorder t) <= fuel)%nat ->
  itree par t -∗
  (∀ k c y x, ⌜t = plug k (mk d c E y x) /\ straight d k⌝ -∗ itree par t -∗ Q (Some y)) -∗
  iwp (down d fuel (rootp t)) Q.
Proof.
  revert par t Q. induction fuel as [|fuel IH]; intros par t Q Ht Hf.
  { destruct t as [|c l p r]; [done|]. simpl in Hf. rw length_app /= in Hf. lia. }
  iIntros "T Q". cbn [down]. destruct (tree_side d t) as [->|(c & a & p & b & ->)]; [done|].
  rw {1}itree_mk rootp_mk. iDestruct "T" as "(P & A & B)". do_get "P". destruct (decide (a = E)) as [->|Ha].
  - simpl. iApply iwp_ret. iApply ("Q" $! [] c p b); [iPureIntro; split; [done|constructor]|]. rw itree_mk. iFrame.
  - destruct (rootp a) as [q|] eqn:Eq; [|by destruct a]. simpl. rw -Eq. iApply (IH (Some p) a with "A"); [done| |].
    { destruct d; simpl in Hf; rw length_app /= in Hf; lia. }
    iIntros (k c' y x [Ea Hk]) "A". iApply ("Q" $! (k ++ [Fr d c p b]) c' y x).
    + iPureIntro. rw plug_app -Ea. split; [done|]. apply Forall_app. split; [done|]. by constructor.
    + rw itree_mk. iFrame.
Qed.

(** Taking out a node with at most one child. *)
Lemma iwp_erase_outer d k c p x (Q : rptr * rptr * rb_col -> iProp Σ) :
  ictx (Some p) k -∗ itree (cptr None k) (mk d c E p x) -∗
  (ictx (rootp x) k -∗ itree (cptr None k) x -∗ Q (rootp x, cptr None k, c)) -∗
  iwp (erase_outer (Some p) (rootp x)) Q.
Proof.
  iIntros "K T Q". rw itree_mk. iDestruct "T" as "(P & _ & X)". unfold erase_outer. do_get "P".
  iApply iwp_bind. iApply (iwp_set_parent with "X"). iIntros "X".
  iApply iwp_bind. iApply (iwp_relink with "P K"). iIntros "P K". iApply iwp_ret. iApply ("Q" with "K X").
Qed.

(** Taking out a node with two children: its successor [y] moves to its
    place. *)
Lemma iwp_erase_inner k c l p r (Q : rptr * rptr * rb_col -> iProp Σ) :
  l <> E -> r <> E ->
  ictx (Some p) k -∗ itree (cptr None k) (T c l p r) -∗
  (∀ k2 cy y x, ⌜r = plug k2 (T cy E y x) /\ straight Left k2⌝ -∗
     let k' := k2 ++ Fr Right c y l :: k in
     ictx (rootp x) k' -∗ itree (cptr None k') x -∗ Q (rootp x, cptr None k', cy)) -∗
  iwp (erase_inner (Some p)) Q.
Proof.
  iIntros (Hl Hr) "K T Q". unfold erase_inner. iDestruct (itree_mk Right with "T") as "(P & R & L)". do_get "P".
  iApply iwp_bind. iApply (iwp_fuel with "R"). iIntros (fuel Hf) "R". rw length_tcells in Hf. iApply iwp_bind.
  change (rb_right (mknode Right (cptr None k) c (rootp r) (rootp l))) with (rootp r).
  iApply (iwp_down with "R"); [done..|]. iIntros (k2 cy y x [Er Hk2]) "R". simpl in Er. rw Er itree_plug.
  iDestruct "R" as "[K2 Y]". iDestruct (itree_mk Left with "Y") as "(Y & _ & X)". do_get "Y".
  change (rb_right (mknode Left (cptr (Some p) k2) cy (rootp E) (rootp x))) with (rootp x).
  iApply iwp_bind. iApply (iwp_set_parent with "X"). iIntros "X". iApply iwp_bind.
  iDestruct (pointsto_ne with "P Y") as %Hpy.
  set (K := k2 ++ Fr Right c p l :: k).
  assert (cptr (Some p) k2 = cptr None K) as EK by (unfold K; by rw cptr_app).
  rw EK. iApply (iwp_relink with "Y [K2 P L K]").
  { unfold K. rw ictx_app ictx_cons. simpl. rw rootp_plug. iFrame. }
  iIntros "Y K". do_get "Y". unfold K. rw ictx_app ictx_cons. iDestruct "K" as "(K2 & P & L & K)". simpl.
  iAssert ⌜(if bool_decide (cptr None K = Some p) then Some y else cptr None K) = cptr (Some y) k2⌝%I as %Hpar.
  { rw -EK. destruct k2 as [|[d2 c2 p2 b2] k2]; [by rw /= bool_decide_true|].
    rw iseg_cons. iDestruct "K2" as "(P2 & _)". iDestruct (pointsto_ne with "P P2") as %Hne.
    rw /= bool_decide_false //. congruence. }
  fold K. rw Hpar -EK. iDestruct (itree_plug (Some p) k2 x with "[$K2 $X]") as "R". rw -rootp_plug.
  do_get "P". iApply iwp_bind. iApply (iwp_set with "Y"). iIntros "Y".
  change (upd rb_left _ _) with (mknode Right (cptr None k) c (rootp (plug k2 x)) (rootp l)).
  iApply iwp_bind. iApply (iwp_relink with "P K"). iIntros "P K". do_get "P". iApply iwp_bind.
  assert (forall v, set_parent (rootp l) v = set_parent_if (rootp l) v) as -> by (by destruct l).
  iApply (iwp_set_parent with "L"). iIntros "L". iApply iwp_bind. iApply (iwp_set_parent with "R"). iIntros "R".
  iApply iwp_ret. rw itree_plug. iDestruct "R" as "[K2 X]".
  iSpecialize ("Q" $! k2 cy y x with "[//]"). rw cptr_app /=. iApply ("Q" with "[Y L K K2] X").
  rw ictx_app ictx_cons /= rootp_plug. iFrame.
Qed.

Lemma iwp_rebalance k c x (Q : unit -> iProp Σ) :
  match c with RB_RED => red_black (plug k x) | RB_BLACK => exists n, damaged x n /\ ok k RB_BLACK (S n) end ->
  ictx (rootp x) k -∗ itree (cptr None k) x -∗
  (∀ t', ⌜red_black t' /\ inorder t' = inorder (plug k x)⌝ -∗ itree None t' -∗ rest_is (rootp t') -∗ Q tt) -∗
  iwp (when (bool_decide (c = RB_BLACK)) (__rb_erase_color (rootp x) (cptr None k))) Q.
Proof.
  iIntros (Hx) "K X Q". destruct c.
  - iApply iwp_ret. iDestruct (ictx_plug with "[$K $X]") as "[T R]". by iApply ("Q" with "[//] T R").
  - destruct Hx as (n & Hd & Hk). by iApply (iwp_erase_color with "K X").
Qed.

(** [rb_erase] takes the node out of the order and keeps the balance. *)
Lemma iwp_erase k c l p r (Q : unit -> iProp Σ) :
  red_black (plug k (T c l p r)) ->
  ictx (Some p) k -∗ itree (cptr None k) (T c l p r) -∗
  (∀ t', ⌜red_black t' /\ inorder t' = before k ++ (inorder l ++ inorder r) ++ after k⌝ -∗
     itree None t' -∗ rest_is (rootp t') -∗ Q tt) -∗
  iwp (rb_erase (Some p)) Q.
Proof.
  iIntros (Ht) "K T Q". unfold rb_erase. iDestruct (itree_mk Left with "T") as "(P & L & R)". do_get "P".
  change (rb_left (mknode Left _ c (rootp l) (rootp r))) with (rootp l).
  change (rb_right (mknode Left _ c (rootp l) (rootp r))) with (rootp r).
  iAssert (itree (cptr None k) (mk Left c l p r)) with "[P L R]" as "T"; [rw itree_mk; iFrame|]. iApply iwp_bind.
  pose proof (plug_rb _ _ Ht) as (c1 & n1 & Hrb & Hk). destruct (decide (l = E)) as [->|Hl]; [|destruct (decide (r = E)) as [->|Hr]].
  - simpl. iApply (iwp_erase_outer Left with "K T"). iIntros "K X". iApply (iwp_rebalance with "K X").
    { by apply (removed_ok Left c p r c1 n1 k). }
    iIntros (t' [H1 H2]). iApply "Q". iPureIntro. by rw H2 inorder_plug.
  - destruct (rootp l) eqn:El; [|by destruct l]. simpl. rw -El. change (T c l p E) with (mk Right c E p l).
    iApply (iwp_erase_outer Right with "K T"). iIntros "K X". iApply (iwp_rebalance with "K X").
    { by apply (removed_ok Right c p l c1 n1 k). }
    iIntros (t' [H1 H2]). iApply "Q". iPureIntro. by rw H2 inorder_plug app_nil_r.
  - destruct (rootp l) eqn:El; [|by destruct l]. destruct (rootp r) eqn:Er; [|by destruct r]. simpl.
    iApply (iwp_erase_inner with "K T"); [done..|]. iIntros (k2 cy y x [-> Hk2]) "K X". iApply (iwp_rebalance with "K X").
    { change (plug k (T c l p (plug k2 (T cy E y x)))) with (plug (Fr Right c p l :: k) (plug k2 (T cy E y x))) in Ht.
      rw -plug_app in Ht. destruct (plug_rb _ _ Ht) as (c2 & n2 & H1 & H2).
      apply (removed_ok Left cy y x c2 n2); [done|]. by eapply ok_address. }
    iIntros (t' [H1 H2]). iApply "Q". iPureIntro. split; [done|]. rw H2 plug_app /= !inorder_plug /= !inorder_plug.
    by rw (straight_before _ Hk2).
Qed.

(** ** Replacement *)
Lemma iwp_replace k c l p r q n (Q : unit -> iProp Σ) :
  ictx (Some p) k -∗ itree (cptr None k) (T c l p r) -∗ q ↦ n -∗
  (ictx (Some q) k -∗ itree (cptr None k) (T c l q r) -∗ Q tt) -∗
  iwp (rb_replace_node (Some p) (Some q)) Q.
Proof.
  iIntros "K T N Q". unfold rb_replace_node. iDestruct (itree_mk Left with "T") as "(P & L & R)". do_get "P".
  iApply iwp_bind. iApply (iwp_relink with "P K"). iIntros "P K".
  change (rb_left (mknode Left _ c (rootp l) (rootp r))) with (rootp l).
  change (rb_right (mknode Left _ c (rootp l) (rootp r))) with (rootp r).
  iApply iwp_bind. iApply (iwp_set_parent with "L"). iIntros "L". iApply iwp_bind. iApply (iwp_set_parent with "R"). iIntros "R".
  do_get "P". do_set "N". iApply ("Q" with "K"). iApply (itree_mk Left). iFrame.
Qed.

(** ** Navigation *)

(** The node that comes first from side [d]. *)
Definition extreme (d : side) (l : list nat) : rptr := match d with Left => head l | Right => last l end.

Lemma extreme_spine d k c y x : straight d k -> extreme d (inorder (plug k (mk d c E y x))) = Some y.
Proof.
  intros Hk. rw inorder_plug. destruct d; simpl.
  - by rw (straight_before _ Hk).
  - by rw (straight_after _ Hk) app_nil_r app_assoc last_snoc.
Qed.

Lemma iwp_end_of d t (Q : rptr -> iProp Σ) :
  itree None t -∗ rest_is (rootp t) -∗
  (itree None t -∗ rest_is (rootp t) -∗ Q (extreme d (inorder t))) -∗ iwp (end_of d) Q.
Proof.
  iIntros "T R Q". unfold end_of. iApply iwp_bind. iApply (iwp_rest with "R"). iIntros "R".
  destruct (decide (t = E)) as [->|Ht]; [iApply iwp_ret; destruct d; iApply ("Q" with "T R")|].
  destruct (rootp t) eqn:Er; [|by destruct t]. simpl. rw -Er. iApply iwp_bind. iApply (iwp_fuel with "T").
  iIntros (fuel Hf) "T". rw length_tcells in Hf. iApply (iwp_down with "T"); [done..|].
  iIntros (k c y x [-> Hk]) "T". rw -(extreme_spine d k c y x) //. iApply ("Q" with "T R").
Qed.

(** The node next to a hole on side [d]. *)
Definition beyond (d : side) k : list nat := match d with Left => before k | Right => after k end.

Lemma iwp_up d fuel k t x (Q : rptr -> iProp Σ) :
  rootp t = Some x -> (length k <= fuel)%nat ->
  ictx (Some x) k -∗ itree (cptr None k) t -∗
  (ictx (Some x) k -∗ itree (cptr None k) t -∗ Q (extreme (opp d) (beyond d k))) -∗
  iwp (up d fuel (Some x)) Q.
Proof.
  revert k t x Q. induction fuel as [|fuel IH]; intros k t x Q Et Hf.
  all: destruct t as [|c l x' r]; simplify_eq/=; iIntros "K T Q"; cbn [up];
    iDestruct (itree_mk Left with "T") as "(X & L)"; do_get "X"; destruct k as [|[d' c' p b] k]; simpl in Hf; try lia; simpl;
    try (iApply iwp_ret; destruct d; iApply ("Q" with "K"); iApply (itree_mk Left); by iFrame).
  rw {1}ictx_cons. iDestruct "K" as "(P & B & K)". do_get "P". iDestruct (itree_ne with "X B") as %Hne.
  iAssert (itree (Some p) (T c l x r)) with "[X L]" as "T"; [iApply (itree_mk Left); iFrame|].
  assert (d' = d \/ d' = opp d) as [->| ->] by (destruct d, d'; auto).
  - rw child_same bool_decide_true //. iApply (IH k (mk d c' (T c l x r) p b) p with "K [P B T]");
      [apply rootp_mk|lia|rw itree_mk; iFrame|].
    iIntros "K T". rw itree_mk. iDestruct "T" as "(P & T & B)".
    replace (extreme (opp d) (beyond d k)) with (extreme (opp d) (beyond d (Fr d c' p b :: k))) by (by destruct d).
    iApply ("Q" with "[P B K] T"). rw ictx_cons. iFrame.
  - rw mknode_opp child_same bool_decide_false //. iApply iwp_ret.
    assert (extreme (opp d) (beyond d (Fr (opp d) c' p b :: k)) = Some p) as -> by (destruct d; simpl; rw ?app_assoc ?last_snoc //).
    iApply ("Q" with "[P B K] T"). rw ictx_cons mknode_opp. iFrame.
Qed.

(** The neighbours of a node. *)
Lemma extreme_app d (xs ys : list nat) : xs <> [] ->
  extreme d (match d with Left => xs ++ ys | Right => ys ++ xs end) = extreme d xs.
Proof.
  intros Hx. destruct d; simpl; [by destruct xs|]. destruct (exists_last Hx) as (zs & x & ->). by rw app_assoc !last_snoc.
Qed.

Lemma iwp_step d k c b p a (Q : rptr -> iProp Σ) :
  let near := match d with Left => beyond d k ++ inorder b | Right => inorder b ++ beyond d k end in
  ictx (Some p) k -∗ itree (cptr None k) (mk d c b p a) -∗
  (ictx (Some p) k -∗ itree (cptr None k) (mk d c b p a) -∗ Q (extreme (opp d) near)) -∗
  iwp (step d (Some p)) Q.
Proof.
  iIntros (near) "K T Q". unfold step. rw {1}itree_mk. iDestruct "T" as "(P & B & A)". do_get "P".
  iDestruct "K" as "[K R]". iApply iwp_bind.
  iAssert (cells (kcells None (Some p) k ++ tcells (Some p) b)) with "[K B]" as "F"; [rw cells_app; iFrame|].
  iApply (iwp_fuel with "F"). iIntros (fuel Hf) "F". rw cells_app. iDestruct "F" as "[K B]".
  rw length_app length_tcells in Hf. pose proof (length_kcells None (Some p) k).
  destruct (decide (b = E)) as [->|Hb].
  - simpl. iApply (iwp_up d fuel k (mk d c E p a) with "[$K $R] [P A B]"); [apply rootp_mk|lia|rw itree_mk; iFrame|].
    replace near with (beyond d k) by (unfold near; destruct d; simpl; rw ?app_nil_r //). iApply "Q".
  - destruct (rootp b) eqn:Eb; [|by destruct b]. simpl. rw -Eb. iApply (iwp_down with "B"); [done|lia|].
    iIntros (k2 c' y x [E Hk]) "B".
    assert (extreme (opp d) near = Some y) as ->.
    { rw -(extreme_spine (opp d) k2 c' y x) // -E. unfold near.
      assert (inorder b <> []) by (destruct b as [|? l0 ? ?]; [done|]; simpl; by destruct (inorder l0)).
      destruct d; [by rw (extreme_app Right)|by rw (extreme_app Left)]. }
    iApply ("Q" with "[$K $R]"). rw itree_mk Eb. iFrame.
Qed.
End remove.
