(* ===== verification/RbTheorems.v ===== *)
(** * Red-black trees: theorems

    The plain statements about lib/rbtree.c, from the proofs in the
    separation logic. *)
From S2P Require Import Prelude.
From S2P Require Import Heap.
From S2P Require Import RbTree.
From S2P Require Import RbSpec.
From S2P Require Import HeapLogic.
From S2P Require Import RbInsert.
From S2P Require Import RbErase.

(** ** From the logic to memory *)
Lemma tcells_inorder par t : (tcells par t).*1 ≡ₚ inorder t.
Proof.
  revert par. induction t as [|c l IHl p r IHr]; intros par; cbn [tcells inorder]; [done|].
  by rw fmap_cons fmap_app IHl IHr Permutation_middle.
Qed.

Lemma rbtree_nodup s t : rbtree s t -> NoDup (inorder t).
Proof. intros [_ [H _]]. by rw -(tcells_inorder None t). Qed.

Lemma kept_perm l l' (s s' : rb_state) : l ≡ₚ l' -> kept l s s' -> kept l' s s'.
Proof. intros E H p n Hp. apply H. by rw E. Qed.

(** A balanced tree is low. *)
Lemma red_black_height t : red_black t -> (height t <= 2 * Nat.log2 (S (length (inorder t))))%nat.
Proof.
  intros [n H]. pose proof (rb_height _ _ _ H) as Hh. pose proof (rb_size _ _ _ H) as Hs.
  apply Nat.log2_le_mono in Hs. rw Nat.log2_pow2 in Hs; [|lia]. cbv beta iota in Hh. lia.
Qed.

Lemma split_unique {A} (p : A) l1 l2 k1 k2 :
  NoDup (l1 ++ p :: l2) -> l1 ++ p :: l2 = k1 ++ p :: k2 -> l1 = k1 /\ l2 = k2.
Proof.
  revert k1. induction l1 as [|x l1 IH]; intros [|y k1]; simpl; intros Hn E; simplify_eq/=; [done|..].
  - apply NoDup_cons in Hn as [Hn _]. destruct Hn. apply elem_of_app. right. by left.
  - apply NoDup_cons in Hn as [Hn _]. destruct Hn. apply elem_of_app. right. by left.
  - apply NoDup_cons in Hn as [_ Hn]. by destruct (IH k1 Hn ltac:(done)) as [-> ->].
Qed.

(** The place of a node of the order. *)
Lemma focus_split s t l1 p l2 :
  rbtree s t -> inorder t = l1 ++ p :: l2 ->
  exists k c l r, t = plug k (T c l p r) /\ l1 = before k ++ inorder l /\ l2 = inorder r ++ after k.
Proof.
  intros Ht%rbtree_nodup E. destruct (focus_node t p) as (k & c & l & r & Et).
  { rw E elem_of_app. right. by left. }
  exists k, c, l, r. split; [done|]. rw E in Ht. rw Et inorder_plug /= -app_assoc /= app_assoc in E.
  apply (split_unique p); [done|by rw E].
Qed.

Section final.
Context `{!memGS rb_node rptr Σ}.
Lemma final_tree s t : interp s -∗ itree None t -∗ rest_is (rootp t) -∗ ⌜rbtree s t⌝.
Proof.
  iIntros "I T R". iDestruct (cells_holds with "I T") as %H. iDestruct "I" as "[_ R']".
  iDestruct (ghost_var_agree with "R' R") as %E. by iPureIntro.
Qed.
End final.

(** Running a routine on a tree in memory, and on a tree and a spare node. *)
Lemma run_on_tree {A} (m : M rb_state A) s k t (Q : A -> rb_state -> Prop) :
  rbtree s (plug k t) ->
  (forall Σ `{!memGS rb_node rptr Σ}, ictx (rootp t) k -∗ itree (cptr None k) t -∗
     iwp m (fun a => ∀ s', interp s' -∗ ⌜kept (inorder (plug k t)) s s' -> Q a s'⌝)) ->
  exists a s', m s = Some (a, s') /\ Q a s'.
Proof.
  intros [Er Hh] Hm. apply wp_run, (adequacy m s _ Q Hh). iIntros (Σ rG) "T R". change (rest s) with (root s). rw Er.
  iCombine "T R" as "T". rw (ictx_plug k t). iDestruct "T" as "[K T]".
  iApply (iwp_wand with "[K T]"); [iApply (Hm with "K T")|]. iIntros (a) "H". iIntros (s') "I".
  iDestruct ("H" with "I") as %H. iPureIntro. intros Hk. apply H. by eapply kept_perm, Hk; apply tcells_inorder.
Qed.

Lemma run_with_node {A} (m : M rb_state A) s k t x n (Q : A -> rb_state -> Prop) :
  rbtree s (plug k t) -> heap s !! x = Some n -> x ∉ inorder (plug k t) ->
  (forall Σ `{!memGS rb_node rptr Σ}, x ↦ n -∗ ictx (rootp t) k -∗ itree (cptr None k) t -∗
     iwp m (fun a => ∀ s', interp s' -∗ ⌜kept (x :: inorder (plug k t)) s s' -> Q a s'⌝)) ->
  exists a s', m s = Some (a, s') /\ Q a s'.
Proof.
  intros [Er [Hn Hh]] Hx Hnew Hm.
  assert (holds (heap s) ((x, n) :: tcells None (plug k t))) as H1.
  { split; [rw fmap_cons; constructor; [by rw tcells_inorder|done]|]. intros p m' [[= -> ->]|Hin]%elem_of_cons; eauto. }
  apply wp_run, (adequacy m s _ Q H1). iIntros (Σ rG) "[X T] R". change (rest s) with (root s). rw Er.
  iCombine "T R" as "T". rw (ictx_plug k t). iDestruct "T" as "[K T]".
  iApply (iwp_wand with "[X K T]"); [iApply (Hm with "X K T")|]. iIntros (a) "H". iIntros (s') "I".
  iDestruct ("H" with "I") as %H. iPureIntro. intros Hk. apply H. eapply kept_perm, Hk. by rw fmap_cons tcells_inorder.
Qed.

(** ** Insertion and removal *)

(** C36 (functional): linking a new node at a leaf of a red-black tree in
    memory and calling [rb_insert_color] ends without an oops in a red-black
    tree with the node at that place of the order, of logarithmic height; no
    other memory changes. *)
Theorem rb_insert_correct s k x n :
  rbtree s (plug k E) -> red_black (plug k E) -> heap s !! x = Some n -> x ∉ inorder (plug k E) ->
  exists s' t', insert_at k x s = Some (tt, s') /\ rbtree s' t' /\ red_black t' /\
    inorder (plug k E) = before k ++ after k /\ inorder t' = before k ++ x :: after k /\
    (height t' <= 2 * Nat.log2 (S (length (inorder t'))))%nat /\ kept (x :: inorder (plug k E)) s s'.
Proof.
  intros Ht Hb Hx Hnew.
  assert (ok k RB_BLACK 0) as Hk.
  { destruct (plug_rb _ _ Hb) as (c & m & HE & Hk). by inversion HE; subst. }
  destruct (run_with_node (insert_at k x) s k E x n (fun _ s' => exists t', rbtree s' t' /\ red_black t' /\
    inorder t' = before k ++ x :: after k /\ kept (x :: inorder (plug k E)) s s') Ht Hx Hnew)
    as ([] & s' & E & t' & Ht' & Hb' & Ho & Hk').
  { iIntros (Σ rG) "X K _". iApply (iwp_insert with "X K"); [done|]. iIntros (t' [Hb' Ho]) "T R". iIntros (s') "I".
    iDestruct (final_tree with "I T R") as %Ht'. iPureIntro. eauto. }
  exists s', t'. split_and!; [done..|apply inorder_plug|done|by apply red_black_height|done].
Qed.

(** C37 (functional): [rb_erase] of a node of a red-black tree in memory ends
    without an oops in a red-black tree with that node taken out of the
    order, of logarithmic height; no memory outside the tree changes. *)
Theorem rb_erase_correct s t l1 p l2 :
  rbtree s t -> red_black t -> inorder t = l1 ++ p :: l2 ->
  exists s' t', rb_erase (Some p) s = Some (tt, s') /\ rbtree s' t' /\ red_black t' /\ inorder t' = l1 ++ l2 /\
    (height t' <= 2 * Nat.log2 (S (length (inorder t'))))%nat /\ kept (inorder t) s s'.
Proof.
  intros Ht Hb Ho. destruct (focus_split s t l1 p l2 Ht Ho) as (k & c & l & r & -> & -> & ->).
  destruct (run_on_tree (rb_erase (Some p)) s k (T c l p r) (fun _ s' => exists t', rbtree s' t' /\ red_black t' /\
    inorder t' = before k ++ (inorder l ++ inorder r) ++ after k /\ kept (inorder (plug k (T c l p r))) s s') Ht)
    as ([] & s' & E & t' & Ht' & Hb' & Ho' & Hk').
  { iIntros (Σ rG) "K T". iApply (iwp_erase with "K T"); [done|]. iIntros (t' [Hb' Ho']) "T R". iIntros (s') "I".
    iDestruct (final_tree with "I T R") as %Ht'. iPureIntro. eauto. }
  exists s', t'. split_and!; [done..|by rw Ho' -!app_assoc|by apply red_black_height|done].
Qed.

(** [rb_replace_node] puts a new node at the place of an
    old one: the order has the new node there, and the colours, and with them
    the balance, stay. *)
Theorem rb_replace_node_correct s t l1 p l2 q n :
  rbtree s t -> inorder t = l1 ++ p :: l2 -> heap s !! q = Some n -> q ∉ inorder t ->
  exists s' t', rb_replace_node (Some p) (Some q) s = Some (tt, s') /\ rbtree s' t' /\
    inorder t' = l1 ++ q :: l2 /\ (red_black t -> red_black t') /\ kept (q :: inorder t) s s'.
Proof.
  intros Ht Ho Hq Hnew. destruct (focus_split s t l1 p l2 Ht Ho) as (k & c & l & r & -> & -> & ->).
  destruct (run_with_node (rb_replace_node (Some p) (Some q)) s k (T c l p r) q n (fun _ s' =>
    rbtree s' (plug k (T c l q r)) /\ kept (q :: inorder (plug k (T c l p r))) s s') Ht Hq Hnew)
    as ([] & s' & E & Ht' & Hk').
  { iIntros (Σ rG) "N K T". iApply (iwp_replace with "K T N"). iIntros "K T". iIntros (s') "I".
    iDestruct (ictx_plug k (T c l q r) with "[$K $T]") as "[T R]". iDestruct (final_tree with "I T R") as %Ht'.
    iPureIntro. eauto. }
  exists s', (plug k (T c l q r)). split_and!; [done..|by rw inorder_plug /= -!app_assoc| |done].
  intros (c1 & n1 & Hrb & Hk)%plug_rb. apply (plug_ok k _ c1 n1); [|done]. inversion Hrb; subst; eauto with kernel.
Qed.

(** ** Navigation *)

(** A routine that only reads. *)
Definition reads {A} (m : M rb_state A) : Prop := forall s a s', m s = Some (a, s') -> s' = s.

Lemma reads_ret {A} (a : A) : reads (ret a).
Proof. by intros s b s' [= -> ->]. Qed.
Lemma reads_oops {A} : reads (oops (A := A)).
Proof. by intros s b s' [=]. Qed.
Lemma reads_gets {A} (f : rb_state -> A) : reads (gets f).
Proof. by intros s b s' [= <- <-]. Qed.
Lemma reads_bind {A B} (m : M rb_state A) (k : A -> M rb_state B) : reads m -> (forall a, reads (k a)) -> reads (bind m k).
Proof.
  intros Hm Hk s b s'. unfold bind. destruct (m s) as [[a s1]|] eqn:E1; [|done]. intros E2.
  rw (Hk a s1 b s' E2). by eapply Hm.
Qed.
Lemma reads_deref {A} (o : option A) : reads (deref o).
Proof. destruct o; [apply reads_ret|apply reads_oops]. Qed.
Lemma reads_if {A} (b : bool) (m m' : M rb_state A) : reads m -> reads m' -> reads (if b then m else m').
Proof. by destruct b. Qed.
Lemma reads_get p : reads (get p).
Proof. apply reads_bind; [apply reads_deref|intros a]. apply reads_bind; [apply reads_gets|intros]. apply reads_deref. Qed.
Lemma reads_objects : reads objects.
Proof. apply reads_gets. Qed.
Create HintDb reads.
#[local] Hint Resolve reads_ret reads_oops reads_gets reads_bind reads_deref reads_if reads_get reads_objects : reads.

Lemma reads_down d fuel p : reads (down d fuel p).
Proof. revert p. induction fuel as [|fuel IH]; intros p; cbn [down]; auto 10 with reads. Qed.
Lemma reads_up d fuel p : reads (up d fuel p).
Proof. revert p. induction fuel as [|fuel IH]; intros p; cbn [up]; auto 10 with reads. Qed.
#[local] Hint Resolve reads_down reads_up : reads.
Lemma reads_end_of d : reads (end_of d).
Proof. unfold end_of. auto 10 with reads. Qed.
Lemma reads_step d p : reads (step d p).
Proof. unfold step. auto 10 with reads. Qed.

Lemma end_of_run s t d : rbtree s t -> end_of d s = Some (extreme d (inorder t), s).
Proof.
  intros Ht. destruct (run_on_tree (end_of d) s [] t (fun a _ => a = extreme d (inorder t)) Ht) as (a & s' & E & ->).
  { iIntros (Σ rG) "K T". rw ictx_nil. iApply (iwp_end_of with "T K"). by iIntros "T R" (s') "I". }
  by destruct (reads_end_of _ _ _ _ E).
Qed.

Lemma step_run s t d l1 p l2 : rbtree s t -> inorder t = l1 ++ p :: l2 ->
  step d (Some p) s = Some (match d with Left => last l1 | Right => head l2 end, s).
Proof.
  intros Ht Ho. destruct (focus_split s t l1 p l2 Ht Ho) as (k & c & l & r & -> & -> & ->).
  destruct (run_on_tree (step d (Some p)) s k (T c l p r) (fun a _ => a =
    match d with Left => last (before k ++ inorder l) | Right => head (inorder r ++ after k) end) Ht) as (a & s' & E & ->).
  { iIntros (Σ rG) "K T". destruct d.
    - iApply (iwp_step Left k c l p r with "K T"). by iIntros "K T" (s') "I".
    - iApply (iwp_step Right k c r p l with "K T"). by iIntros "K T" (s') "I". }
  by destruct (reads_step _ _ _ _ _ E).
Qed.

(** C38 (functional): on a tree in memory [rb_first] and [rb_last] give the
    ends of the order and [rb_next] and [rb_prev] the neighbours of a node,
    NULL when there is none, and they change nothing. *)
Theorem rb_navigation_correct s t :
  rbtree s t ->
  rb_first s = Some (head (inorder t), s) /\ rb_last s = Some (last (inorder t), s) /\
  forall l1 p l2, inorder t = l1 ++ p :: l2 ->
    rb_next (Some p) s = Some (head l2, s) /\ rb_prev (Some p) s = Some (last l1, s).
Proof.
  intros Ht. split; [apply (end_of_run s t Left Ht)|]. split; [apply (end_of_run s t Right Ht)|].
  intros l1 p l2 E. split; [apply (step_run s t Right l1 p l2 Ht E)|apply (step_run s t Left l1 p l2 Ht E)].
Qed.

(** ** Witnesses *)
Definition spare : rb_node := {| rb_parent := None; rb_color := RB_RED; rb_right := None; rb_left := None |}.

(** The memory with tree [t] and a spare node. *)
Definition memory_of t (x : nat) : rb_state :=
  {| heap := <[x := spare]> (list_to_map (tcells None t)); rest := rootp t |}.

Ltac in_memory := split; [reflexivity|apply holds_intro; [by apply (bool_decide_unpack _)|repeat constructor]].

(** Inserting 3 after 1 and its red child 2: a rotation. *)
Definition demo_path : list hframe := [Fr Right RB_RED 2%nat E; Fr Right RB_BLACK 1%nat E].

Lemma rb_insert_correct_witness :
  exists s' t', insert_at demo_path 3 (memory_of (plug demo_path E) 3) = Some (tt, s') /\ rbtree s' t' /\
    red_black t' /\ inorder t' = [1; 2; 3]%nat.
Proof.
  destruct (rb_insert_correct (memory_of (plug demo_path E) 3) demo_path 3 spare) as (s' & t' & H1 & H2 & H3 & _ & H4 & _).
  - in_memory.
  - exists 1%nat. repeat econstructor.
  - reflexivity.
  - by apply (bool_decide_unpack _).
  - by exists s', t'.
Defined.

Definition demo_tree : tree := T RB_BLACK (T RB_BLACK E 1 E) 2 (T RB_BLACK E 3 (T RB_RED E 4 E)).

(** Removing the root, which has two children. *)
Lemma rb_erase_correct_witness :
  exists s' t', rb_erase (Some 2%nat) (memory_of demo_tree 5) = Some (tt, s') /\ rbtree s' t' /\ red_black t' /\
    inorder t' = [1; 3; 4]%nat.
Proof.
  destruct (rb_erase_correct (memory_of demo_tree 5) demo_tree [1%nat] 2 [3; 4]%nat) as (s' & t' & H1 & H2 & H3 & H4 & _).
  - in_memory.
  - exists 2%nat. repeat econstructor.
  - reflexivity.
  - by exists s', t'.
Defined.

Lemma rb_replace_node_correct_witness :
  exists s' t', rb_replace_node (Some 3%nat) (Some 5%nat) (memory_of demo_tree 5) = Some (tt, s') /\ rbtree s' t' /\
    inorder t' = [1; 2; 5; 4]%nat.
Proof.
  destruct (rb_replace_node_correct (memory_of demo_tree 5) demo_tree [1; 2]%nat 3 [4%nat] 5 spare) as (s' & t' & H1 & H2 & H3 & _).
  - in_memory.
  - reflexivity.
  - reflexivity.
  - by apply (bool_decide_unpack _).
  - by exists s', t'.
Defined.

Lemma rb_navigation_correct_witness :
  rb_first (memory_of demo_tree 5) = Some (Some 1%nat, memory_of demo_tree 5) /\
  rb_next (Some 2%nat) (memory_of demo_tree 5) = Some (Some 3%nat, memory_of demo_tree 5).
Proof.
  destruct (rb_navigation_correct (memory_of demo_tree 5) demo_tree) as (H1 & _ & H2).
  - in_memory.
  - split; [exact H1|]. apply (H2 [1%nat] 2%nat [3; 4]%nat). reflexivity.
Defined.
