(* ===== verification/Resource.v ===== *)
(** * kernel/resource.c: the resource tree

    I/O ports and memory ranges are resources: inclusive ranges of 32-bit
    addresses, with a list of children inside each.  The resource lock
    serialises the calls; names, /proc output and the boot parameter are left
    out.  [kmalloc] is its outcome, the address of memory that is the
    caller's or NULL.  Every loop takes the number of resources in memory as
    fuel. *)
From S2P Require Import Prelude.
From S2P Require Import Heap.

Record resource := {
  start : Z; end_ : Z; flags : Z;
  parent : rptr; sibling : rptr; child : rptr }.
#[export] Instance eta_resource : Eta resource := fun r =>
  {| start := start r; end_ := end_ r; flags := flags r;
     parent := parent r; sibling := sibling r; child := child r |}.

Definition res_state : Type := mem resource unit.
Definition IORESOURCE_BUSY : Z := 0x80000000.

(** A [struct resource **]: the address of a link. *)
Inductive place := child_of (r : rptr) | sibling_of (r : rptr).
Definition load (p : place) : M res_state rptr :=
  match p with
  | child_of r => x ← get r; ret (child x)
  | sibling_of r => x ← get r; ret (sibling x)
  end.
Definition store (p : place) (v : rptr) : M res_state unit :=
  match p with
  | child_of r => set r (fun x => x <| child := v |>)
  | sibling_of r => set r (fun x => x <| sibling := v |>)
  end.

(** ** Requests *)
Fixpoint request_loop (fuel : nat) (root new : rptr) (lo hi : Z) (p : place) : M res_state rptr :=
  tmp ← load p;
  let link :=
    set new (fun x => x <| sibling := tmp |>);;
    store p new;;
    set new (fun x => x <| parent := root |>);;
    ret None in
  match tmp with
  | None => link
  | Some _ =>
      t ← get tmp;
      if hi <? start t then link
      else if end_ t <? lo then
        match fuel with O => oops | S fuel => request_loop fuel root new lo hi (sibling_of tmp) end
      else ret tmp
  end.

(** NULL, or the resource in the way. *)
Definition __request_resource (root new : rptr) : M res_state rptr :=
  n ← get new;
  let lo := start n in
  let hi := end_ n in
  if hi <? lo then ret root else
  r ← get root;
  if lo <? start r then ret root else
  if hi >? end_ r then ret root else
  fuel ← objects;
  request_loop fuel root new lo hi (child_of root).

Definition request_resource (root new : rptr) : M res_state Z :=
  conflict ← __request_resource root new;
  ret (if is_null conflict then 0 else - EBUSY).

(** ** Releases *)
Fixpoint release_loop (fuel : nat) (old : rptr) (p : place) : M res_state Z :=
  tmp ← load p;
  if is_null tmp then ret (- EINVAL) else
  if bool_decide (tmp = old) then
    t ← get tmp;
    store p (sibling t);;
    set old (fun x => x <| parent := None |>);;
    ret 0
  else match fuel with O => oops | S fuel => release_loop fuel old (sibling_of tmp) end.

Definition __release_resource (old : rptr) : M res_state Z :=
  o ← get old;
  fuel ← objects;
  release_loop fuel old (child_of (parent o)).
Definition release_resource (old : rptr) : M res_state Z := __release_resource old.

(** ** Allocation *)
Section find.
Context (alignf : option (resource -> Z -> Z -> resource)).
Context (size min max align : Z).

(** One hole: the rounding of the loop body; whether the hole is large enough
    is read off the result. *)
Definition fit (lo hi : Z) (new : resource) : resource :=
  let lo := if lo <? min then min else lo in
  let hi := if hi >? max then max else hi in
  let lo := Z.land (u32 (lo + align - 1)) (u32 (Z.lnot (u32 (align - 1)))) in
  let new := new <| start := lo |> <| end_ := hi |> in
  match alignf with Some f => f new size align | None => new end.

Definition fits (new : resource) : bool :=
  (start new <? end_ new) && (u32 (end_ new - start new + 1) >=? size).

Fixpoint find_loop (fuel : nat) (root new this : rptr) : M res_state Z :=
  n ← get new;
  hi ← (match this with
        | Some _ => t ← get this; ret (u32 (start t - 1))
        | None => r ← get root; ret (end_ r)
        end);
  let n := fit (start n) hi n in
  set new (fun _ => n);;
  if fits n then set new (fun x => x <| end_ := u32 (start x + size - 1) |>);; ret 0 else
  match this with
  | None => ret (- EBUSY)
  | Some _ =>
      t ← get this;
      set new (fun x => x <| start := u32 (end_ t + 1) |>);;
      match fuel with O => oops | S fuel => find_loop fuel root new (sibling t) end
  end.

Definition find_resource (root new : rptr) : M res_state Z :=
  r ← get root;
  let this := child r in
  set new (fun x => x <| start := start r |>);;
  this ←
    (match this with
     | Some _ =>
         t ← get this;
         if start t =? 0 then set new (fun x => x <| start := u32 (end_ t + 1) |>);; ret (sibling t)
         else ret this
     | None => ret None
     end);
  fuel ← objects;
  find_loop fuel root new this.

Definition allocate_resource (root new : rptr) : M res_state Z :=
  err ← find_resource root new;
  if err >=? 0 then
    conflict ← __request_resource root new;
    ret (if is_null conflict then err else - EBUSY)
  else ret err.
End find.

(** ** Insertion above existing resources *)

(** The run of resources inside the new one, from [next] on: its last, or
    NULL when one of them sticks out. *)
Fixpoint covered (fuel : nat) (lo hi : Z) (next : rptr) : M res_state rptr :=
  n ← get next;
  if (start n <? lo) || (end_ n >? hi) then ret None else
  match sibling n with
  | None => ret next
  | Some _ =>
      s ← get (sibling n);
      if start s >? hi then ret next
      else match fuel with O => oops | S fuel => covered fuel lo hi (sibling n) end
  end.

Fixpoint reparent (fuel : nat) (new next : rptr) : M res_state unit :=
  match next with
  | None => ret tt
  | Some _ =>
      set next (fun x => x <| parent := new |>);;
      n ← get next;
      match fuel with O => oops | S fuel => reparent fuel new (sibling n) end
  end.

(** [while (next->sibling != first) next = next->sibling] *)
Fixpoint previous (fuel : nat) (first next : rptr) : M res_state rptr :=
  n ← get next;
  if bool_decide (sibling n = first) then ret next
  else match fuel with O => oops | S fuel => previous fuel first (sibling n) end.

Definition adopt (fuel : nat) (par new first last : rptr) : M res_state unit :=
  l ← get last;
  set new (fun x => x <| parent := par |> <| sibling := sibling l |> <| child := first |>);;
  set last (fun x => x <| sibling := None |>);;
  reparent fuel new first;;
  p ← get par;
  if bool_decide (child p = first) then set par (fun x => x <| child := new |>)
  else prev ← previous fuel first (child p); set prev (fun x => x <| sibling := new |>).

Fixpoint insert_loop (fuel : nat) (par new : rptr) : M res_state Z :=
  first ← __request_resource par new;
  if is_null first then ret 0 else
  if bool_decide (first = par) then ret (- EBUSY) else
  f ← get first;
  n ← get new;
  if (start f <=? start n) && (end_ f >=? end_ n) then
    match fuel with O => oops | S fuel => insert_loop fuel first new end
  else
    k ← objects;
    last ← covered k (start n) (end_ n) first;
    if is_null last then ret (- EBUSY) else
    adopt k par new first last;; ret 0.

Definition insert_resource (par new : rptr) : M res_state Z :=
  fuel ← objects; insert_loop fuel par new.

(** ** Adjustment *)
Fixpoint all_inside (fuel : nat) (lo hi : Z) (tmp : rptr) : M res_state bool :=
  match tmp with
  | None => ret true
  | Some _ =>
      t ← get tmp;
      if (start t <? lo) || (end_ t >? hi) then ret false
      else match fuel with O => oops | S fuel => all_inside fuel lo hi (sibling t) end
  end.

Definition adjust_resource (res : rptr) (lo size : Z) : M res_state Z :=
  r ← get res;
  let hi := u32 (lo + size - 1) in
  p ← get (parent r);
  if (lo <? start p) || (hi >? end_ p) then ret (- EBUSY) else
  fuel ← objects;
  inside ← all_inside fuel lo hi (child r);
  if negb inside then ret (- EBUSY) else
  next ← (match sibling r with None => ret false | Some _ => s ← get (sibling r); ret (start s <=? hi) end);
  if next : bool then ret (- EBUSY) else
  prev ←
    (if bool_decide (child p = res) then ret false
     else q ← previous fuel res (child p); x ← get q; ret (lo <=? end_ x));
  if prev : bool then ret (- EBUSY) else
  set res (fun x => x <| start := lo |> <| end_ := hi |>);;
  ret 0.

(** ** Regions *)
Fixpoint region_loop (fuel : nat) (par res : rptr) : M res_state rptr :=
  conflict ← __request_resource par res;
  if is_null conflict then ret res else
  if bool_decide (conflict = par) then ret None else
  c ← get conflict;
  if truth (Z.land (flags c) IORESOURCE_BUSY) then ret None
  else match fuel with O => oops | S fuel => region_loop fuel conflict res end.

Definition __request_region (kmalloc : rptr) (par : rptr) (lo n : Z) : M res_state rptr :=
  match kmalloc with
  | None => ret None
  | Some _ =>
      set kmalloc (fun _ => {| start := lo; end_ := u32 (lo + n - 1); flags := IORESOURCE_BUSY;
                               parent := None; sibling := None; child := None |});;
      fuel ← objects;
      region_loop fuel par kmalloc
  end.

Definition __check_region (kmalloc : rptr) (par : rptr) (lo n : Z) : M res_state Z :=
  res ← __request_region kmalloc par lo n;
  if is_null res then ret (- EBUSY) else
  release_resource res;;
  ret 0.

(** The result says whether a region was found and freed; without one the
    kernel prints a warning. *)
Fixpoint release_region_loop (fuel : nat) (lo hi : Z) (p : place) : M res_state bool :=
  res ← load p;
  if is_null res then ret false else
  r ← get res;
  let next := fun p => match fuel with O => oops | S fuel => release_region_loop fuel lo hi p end in
  if (start r <=? lo) && (end_ r >=? hi) then
    if negb (truth (Z.land (flags r) IORESOURCE_BUSY)) then next (child_of res)
    else if negb (start r =? lo) || negb (end_ r =? hi) then ret false
    else store p (sibling r);; ret true
  else next (sibling_of res).

Definition __release_region (par : rptr) (lo n : Z) : M res_state bool :=
  fuel ← objects;
  release_region_loop fuel lo (u32 (lo + n - 1)) (child_of par).
