(* ===== verification/ResourceSpec.v ===== *)
(** * Resource trees

    The tree the memory stands for: each resource with its children in order.
    In a well-formed tree the ranges are proper, and the children of a
    resource are inside its range, in ascending order and disjoint. *)
From S2P Require Import Prelude.
From S2P Require Import Heap.
From S2P Require Import Resource.

Record range := { r_lo : Z; r_hi : Z; r_flags : Z }.

#[warnings="-register-all"]
Inductive rtree := RT (p : nat) (d : range) (kids : list rtree).
Definition ptr (t : rtree) : nat := let 'RT p _ _ := t in p.
Definition data (t : rtree) : range := let 'RT _ d _ := t in d.
Definition kids (t : rtree) : list rtree := let 'RT _ _ k := t in k.
Abbreviation lo t := (r_lo (data t)).
Abbreviation hi t := (r_hi (data t)).

Section rtree_induction.
Context (P : rtree -> Prop) (H : forall p d ks, Forall P ks -> P (RT p d ks)).
Fixpoint rtree_ind' (t : rtree) : P t :=
  match t with
  | RT p d ks => H p d ks ((fix all l : Forall P l :=
      match l with [] => Forall_nil_2 P | t :: l => Forall_cons_2 P t l (rtree_ind' t) (all l) end) ks)
  end.
End rtree_induction.

(** [a] ends before [b] starts. *)
Definition before (a b : rtree) : Prop := hi a < lo b.

Definition disjoint (a b : rtree) : Prop := before a b \/ before b a.

(** The children [l] of a resource with range [d]. *)
Definition arranged (d : range) (l : list rtree) : Prop :=
  Forall (fun c => r_lo d <= lo c /\ hi c <= r_hi d) l /\ StronglySorted before l.

#[warnings="-register-all"]
Inductive wf : rtree -> Prop :=
| wf_RT p d ks : 0 <= r_lo d <= r_hi d -> r_hi d < 2 ^ 32 -> arranged d ks -> Forall wf ks -> wf (RT p d ks).

Lemma wf_range t : wf t -> 0 <= lo t <= hi t /\ hi t < 2 ^ 32.
Proof. destruct 1; done. Qed.
Lemma wf_kids t : wf t -> arranged (data t) (kids t) /\ Forall wf (kids t).
Proof. destruct 1; done. Qed.
Lemma wf_intro p d ks : 0 <= r_lo d <= r_hi d -> r_hi d < 2 ^ 32 -> arranged d ks -> Forall wf ks -> wf (RT p d ks).
Proof. apply wf_RT. Qed.

(** All resources of a tree. *)
Fixpoint members (t : rtree) : list (nat * range) :=
  let 'RT p d ks := t in (p, d) :: concat (map members ks).

(** ** Sorted lists *)
Lemma before_trans a b c : 0 <= lo b <= hi b -> before a b -> before b c -> before a c.
Proof. unfold before. lia. Qed.

(** A new child goes between those before it and those after it. *)
Lemma arranged_insert d l1 l2 n :
  arranged d (l1 ++ l2) -> Forall wf (l1 ++ l2) -> wf n -> r_lo d <= lo n -> hi n <= r_hi d ->
  Forall (fun c => before c n) l1 -> (forall c l, l2 = c :: l -> before n c) ->
  arranged d (l1 ++ n :: l2).
Proof.
  intros [Hr Hs] Hw Hn Hlo Hhi H1 H2. apply Forall_app in Hr as [Hr1 Hr2]. apply StronglySorted_app in Hs as (S12 & S1 & S2).
  apply Forall_app in Hw as [_ Hw2]. rewrite Forall_forall in H1.
  assert (Forall (before n) l2) as Hb.
  { destruct l2 as [|c l2]; [constructor|]. specialize (H2 c l2 eq_refl). constructor; [done|].
    apply StronglySorted_inv in S2 as [_ S2]. apply Forall_cons in Hw2 as [Hc _].
    eapply Forall_impl; [exact S2|]. intros b Hcb. eapply before_trans; [|exact H2|exact Hcb]. by apply wf_range. }
  rewrite Forall_forall in Hb. split.
  - apply Forall_app. split; [done|]. by constructor.
  - apply StronglySorted_app. split_and!; [|done|constructor; [done|by apply Forall_forall]].
    intros a b Ha [->|Hb']%elem_of_cons; [by apply H1|by apply S12].
Qed.

(** A child may be taken out. *)
Lemma arranged_remove d l1 c l2 : arranged d (l1 ++ c :: l2) -> arranged d (l1 ++ l2).
Proof.
  intros [Hr Hs]. apply Forall_app in Hr as [Hr1 Hr2]. apply Forall_cons in Hr2 as [_ Hr2].
  apply StronglySorted_app in Hs as (S12 & S1 & S2). apply StronglySorted_inv in S2 as [S2 _]. split; [by apply Forall_app|].
  apply StronglySorted_app. split_and!; [|done..]. intros a b Ha Hb. apply S12; [done|by right].
Qed.

(** ** Looking for a place among children *)
Definition inside (n : rtree) (d : range) : Prop := lo n <= hi n /\ r_lo d <= lo n /\ hi n <= r_hi d.

(** Between [la] and [lb] there is room for [n]. *)
Definition free_place (n : rtree) (la lb : list rtree) : Prop :=
  Forall (fun c => before c n) la /\ forall c l, lb = c :: l -> before n c.

(** The first child that is not before [n], after [la], is in the way. *)
Definition conflict (n : rtree) (la : list rtree) (c : rtree) : Prop :=
  Forall (fun c => before c n) la /\ ~ disjoint n c.

(** ** What the calls do *)

(** A request that goes down into the children that [down] allows: it is
    granted, and [n] is a new child of the resource where it ends, or it is
    refused. *)
Section descent.
Context (down : rtree -> Prop) (n : rtree).
Inductive granted : rtree -> rtree -> Prop :=
| granted_here p d la lb : inside n d -> free_place n la lb -> granted (RT p d (la ++ lb)) (RT p d (la ++ n :: lb))
| granted_down p d la c c' lb : inside n d -> conflict n la c -> down c -> granted c c' ->
    granted (RT p d (la ++ c :: lb)) (RT p d (la ++ c' :: lb)).
Inductive refused : rtree -> Prop :=
| refused_outside p d ks : ~ inside n d -> refused (RT p d ks)
| refused_conflict p d la c lb : inside n d -> conflict n la c -> ~ down c -> refused (RT p d (la ++ c :: lb))
| refused_down p d la c lb : inside n d -> conflict n la c -> down c -> refused c -> refused (RT p d (la ++ c :: lb)).
End descent.

Definition busy (c : rtree) : Prop := truth (Z.land (r_flags (data c)) IORESOURCE_BUSY) = true.
#[export] Instance busy_dec c : Decision (busy c).
Proof. apply _. Defined.

(** A member of the tree with the same place and range stays the same. *)
Lemma granted_same down n t t' : granted down n t t' -> ptr t' = ptr t /\ data t' = data t.
Proof. by destruct 1. Qed.

Lemma members_insert p d la n lb :
  members (RT p d (la ++ n :: lb)) ≡ₚ members n ++ members (RT p d (la ++ lb)).
Proof.
  simpl. rewrite !map_app, !concat_app. simpl. rewrite <- (Permutation_middle (members n)). f_equiv.
  apply Permutation_app_swap_app.
Qed.

Lemma members_replace p d la c c' lb m :
  members c' ≡ₚ m ++ members c -> members (RT p d (la ++ c' :: lb)) ≡ₚ m ++ members (RT p d (la ++ c :: lb)).
Proof. intros E. by rewrite !members_insert, E, <- app_assoc. Qed.

Lemma granted_members down n t t' : granted down n t t' -> members t' ≡ₚ members n ++ members t.
Proof. induction 1; [apply members_insert|by apply members_replace]. Qed.

(** Replacing a child by one with the same range. *)
Lemma arranged_replace d la c c' lb : data c' = data c -> arranged d (la ++ c :: lb) -> arranged d (la ++ c' :: lb).
Proof.
  intros E [Hr Hs]. apply Forall_app in Hr as [Hr1 Hr2]. apply Forall_cons in Hr2 as [Hc Hr2].
  apply StronglySorted_app in Hs as (S12 & S1 & S2). apply StronglySorted_inv in S2 as [S2 Sc].
  split; [apply Forall_app; split; [done|]; constructor; [by rewrite E|done]|].
  apply StronglySorted_app. split_and!; [|done|].
  - intros a b Ha [->|Hb]%elem_of_cons; [|apply S12; [done|by right]]. unfold before. rewrite E. apply S12; [done|by left].
  - constructor; [done|]. eapply Forall_impl; [exact Sc|]. unfold before. by rewrite E.
Qed.

Lemma wf_split p d la c lb : wf (RT p d (la ++ c :: lb)) -> wf c /\ Forall wf la /\ Forall wf lb.
Proof. intros [_ H]%wf_kids. simpl in H. by apply Forall_app in H as [H1 [H2 H3]%Forall_cons]. Qed.

Lemma wf_rekid p d ks ks' : wf (RT p d ks) -> arranged d ks' -> Forall wf ks' -> wf (RT p d ks').
Proof. intros [H1 H2]%wf_range Ha Hw. by constructor. Qed.

Lemma wf_replace p d la c c' lb :
  data c' = data c -> (wf c -> wf c') -> wf (RT p d (la ++ c :: lb)) -> wf (RT p d (la ++ c' :: lb)).
Proof.
  intros E Hc Hw. pose proof (wf_split _ _ _ _ _ Hw) as (Hwc & Hla & Hlb). pose proof (wf_kids _ Hw) as [Ha _].
  apply (wf_rekid _ _ _ _ Hw); [by eapply arranged_replace|]. apply Forall_app. split; [done|]. constructor; auto.
Qed.

Lemma wf_insert p d la n lb :
  wf n -> inside n d -> free_place n la lb -> wf (RT p d (la ++ lb)) -> wf (RT p d (la ++ n :: lb)).
Proof.
  intros Hn (_ & Hlo & Hhi) [Hla Hlb] Hw. pose proof (wf_kids _ Hw) as [Ha Hk]. cbn [data kids] in *.
  apply (wf_rekid _ _ _ _ Hw); [by apply arranged_insert|].
  apply Forall_app in Hk as [H1 H2]. apply Forall_app. split; [done|]. by constructor.
Qed.

Lemma granted_wf down n t t' : wf n -> granted down n t t' -> wf t -> wf t'.
Proof.
  intros Hn. induction 1 as [p d la lb Hi Hf|p d la c c' lb _ _ _ Hg IH]; [by apply wf_insert|].
  apply wf_replace; [by eapply granted_same|done].
Qed.

(** The resources of a tree, with what is below them. *)
Fixpoint subtrees (t : rtree) : list rtree := let 'RT _ _ ks := t in t :: concat (map subtrees ks).

Lemma subtrees_kid p d la c lb x : x ∈ subtrees c -> x ∈ subtrees (RT p d (la ++ c :: lb)).
Proof.
  intros H. simpl. right. rewrite map_app, concat_app. apply elem_of_app. right. simpl. apply elem_of_app. by left.
Qed.
Lemma subtrees_root t : t ∈ subtrees t.
Proof. destruct t. by left. Qed.

(** A refusal has a reason: the range is not proper or not inside the root,
    or it overlaps a resource of the tree into which the request may not
    go or into which it does not fit. *)
Lemma refused_reason down n t :
  refused down n t ->
  ~ inside n (data t) \/ exists c, c ∈ subtrees t /\ ~ disjoint n c /\ (~ down c \/ ~ inside n (data c)).
Proof.
  induction 1 as [p d ks H|p d la c lb H1 [_ H2] H3|p d la c lb H1 [_ H2] H3 H4 IH].
  - by left.
  - right. exists c. split; [apply subtrees_kid, subtrees_root|auto].
  - right. destruct IH as [IH|(x & Hx & IH)].
    + exists c. split; [apply subtrees_kid, subtrees_root|auto].
    + exists x. split; [by apply subtrees_kid|done].
Qed.

(** [n], with what is below it, taken out of a tree. *)
Inductive removed (n : rtree) : rtree -> rtree -> Prop :=
| removed_here p d la lb : removed n (RT p d (la ++ n :: lb)) (RT p d (la ++ lb))
| removed_down p d la c c' lb : removed n c c' -> removed n (RT p d (la ++ c :: lb)) (RT p d (la ++ c' :: lb)).

Lemma granted_removed down n t t' : granted down n t t' -> removed n t' t.
Proof. induction 1; by constructor. Qed.

Lemma removed_same n t t' : removed n t t' -> ptr t' = ptr t /\ data t' = data t.
Proof. by destruct 1. Qed.

Lemma removed_wf n t t' : removed n t t' -> wf t -> wf t'.
Proof.
  induction 1 as [p d la lb|p d la c c' lb Hr IH]; intros Hw; [|by eapply wf_replace; [eapply removed_same|..]].
  pose proof (wf_split _ _ _ _ _ Hw) as (_ & Hla & Hlb). pose proof (wf_kids _ Hw) as [Ha _].
  apply (wf_rekid _ _ _ _ Hw); [by eapply arranged_remove|by apply Forall_app].
Qed.

Lemma removed_members n t t' : removed n t t' -> members t ≡ₚ members n ++ members t'.
Proof. induction 1; [apply members_insert|by apply members_replace]. Qed.

(** ** Releasing a region *)
Section region.
Context (a b : Z).
Definition covers (c : rtree) : Prop := lo c <= a /\ b <= hi c.

(** The region found: the first resource that covers the range, below those
    that are not busy. *)
Inductive freed : rtree -> rtree -> Prop :=
| freed_here p d la c lb : Forall (fun c => ~ covers c) la -> busy c -> lo c = a -> hi c = b ->
    freed (RT p d (la ++ c :: lb)) (RT p d (la ++ lb))
| freed_down p d la c c' lb : Forall (fun c => ~ covers c) la -> covers c -> ~ busy c -> freed c c' ->
    freed (RT p d (la ++ c :: lb)) (RT p d (la ++ c' :: lb)).
Inductive missing : rtree -> Prop :=
| missing_none p d ks : Forall (fun c => ~ covers c) ks -> missing (RT p d ks)
| missing_other p d la c lb : Forall (fun c => ~ covers c) la -> covers c -> busy c -> (lo c, hi c) <> (a, b) ->
    missing (RT p d (la ++ c :: lb))
| missing_down p d la c lb : Forall (fun c => ~ covers c) la -> covers c -> ~ busy c -> missing c ->
    missing (RT p d (la ++ c :: lb)).

Lemma freed_removed t t' : freed t t' -> exists c, removed c t t' /\ busy c /\ lo c = a /\ hi c = b.
Proof.
  induction 1 as [p d la c lb _ Hb Ha Hh|p d la c c' lb _ _ _ _ (x & Hr & H)].
  - exists c. split; [constructor|done].
  - exists x. split; [by constructor|done].
Qed.
End region.

(** ** Inserting above existing resources *)
Section insert.
Context (n : rtree).
Definition contains (c : rtree) : Prop := lo c <= lo n /\ hi n <= hi c.
Definition within (c : rtree) : Prop := lo n <= lo c /\ hi c <= hi n.

#[export] Instance contains_dec c : Decision (contains c).
Proof. apply _. Defined.

(** The resource itself with new children. *)
Definition with_kids (run : list rtree) : rtree := RT (ptr n) (data n) run.

Inductive inserted : rtree -> rtree -> Prop :=
| inserted_here p d la lb : inside n d -> free_place n la lb -> inserted (RT p d (la ++ lb)) (RT p d (la ++ n :: lb))
| inserted_down p d la c c' lb : inside n d -> conflict n la c -> contains c -> inserted c c' ->
    inserted (RT p d (la ++ c :: lb)) (RT p d (la ++ c' :: lb))
| inserted_above p d la c run lb : inside n d -> conflict n la c -> ~ contains c -> Forall within (c :: run) ->
    (forall x l, lb = x :: l -> before n x) ->
    inserted (RT p d (la ++ (c :: run) ++ lb)) (RT p d (la ++ with_kids (c :: run) :: lb)).
Inductive unplaced : rtree -> Prop :=
| unplaced_outside p d ks : ~ inside n d -> unplaced (RT p d ks)
| unplaced_partial p d la c lb run x rest : inside n d -> conflict n la c -> ~ contains c ->
    c :: lb = run ++ x :: rest -> Forall within run -> ~ within x -> (run <> [] -> lo x <= hi n) ->
    unplaced (RT p d (la ++ c :: lb))
| unplaced_down p d la c lb : inside n d -> conflict n la c -> contains c -> unplaced c -> unplaced (RT p d (la ++ c :: lb)).
End insert.

Lemma inserted_same n t t' : inserted n t t' -> ptr t' = ptr t /\ data t' = data t.
Proof. by destruct 1. Qed.

Lemma arranged_sub d l1 l2 l3 : arranged d (l1 ++ l2 ++ l3) -> StronglySorted before l2.
Proof. intros [_ H]. apply StronglySorted_app in H as (_ & _ & H). by apply StronglySorted_app in H as (_ & H & _). Qed.

(** A run of children makes room for the resource above them. *)
Lemma arranged_above d la run lb n :
  arranged d (la ++ run ++ lb) -> Forall wf (la ++ run ++ lb) -> wf n -> inside n d ->
  Forall (fun c => before c n) la -> (forall x l, lb = x :: l -> before n x) ->
  arranged d (la ++ n :: lb).
Proof.
  intros Ha Hw Hn (_ & Hlo & Hhi) Hla Hlb.
  assert (arranged d (la ++ lb)) as Ha'.
  { destruct Ha as [Hr Hs]. apply Forall_app in Hr as [Hr1 [_ Hr2]%Forall_app]. apply StronglySorted_app in Hs as (S12 & S1 & S2).
    apply StronglySorted_app in S2 as (_ & _ & S2). split; [by apply Forall_app|]. apply StronglySorted_app.
    split_and!; [|done..]. intros a b Ha Hb. apply S12; [done|]. apply elem_of_app. by right. }
  apply arranged_insert; [done| |done..]. apply Forall_app in Hw as [H1 [_ H2]%Forall_app]. by apply Forall_app.
Qed.

Lemma inserted_wf n t t' : wf n -> kids n = [] -> inserted n t t' -> wf t -> wf t'.
Proof.
  intros Hn Hk. induction 1 as [p d la lb Hi Hf|p d la c c' lb _ _ _ Hg IH|p d la c run lb Hi [Hla _] _ Hwi Hlb]; intros Hw.
  - by apply wf_insert.
  - by eapply wf_replace; [eapply inserted_same|..].
  - pose proof (wf_kids _ Hw) as [Ha Hks]. cbn [data kids] in *.
    pose proof Hks as Hks'. apply Forall_app in Hks' as [H1 [H2 H3]%Forall_app].
    assert (wf (with_kids n (c :: run))) as Hn'.
    { destruct (wf_range _ Hn). constructor; [done..| |done]. split; [done|]. by eapply (arranged_sub d la). }
    apply (wf_rekid _ _ _ _ Hw); [by apply (arranged_above d la (c :: run) lb)|].
    apply Forall_app. split; [done|]. by constructor.
Qed.

Lemma inserted_members n t t' : kids n = [] -> inserted n t t' -> members t' ≡ₚ members n ++ members t.
Proof.
  intros Hk. induction 1 as [p d la lb _ _|p d la c c' lb _ _ _ _ IH|p d la c run lb _ _ _ _ _];
    [apply members_insert|by apply members_replace|].
  destruct n as [q e ks]. simpl in Hk. subst ks. simpl. rewrite !map_app, !concat_app. simpl.
  rewrite !map_app, !concat_app. simpl. rewrite <- !Permutation_middle, <- !app_assoc. constructor.
Qed.

(** ** Adjusting a resource between its neighbours *)
Definition adjustable (a b : Z) (d : range) (la : list rtree) (c : rtree) (lb : list rtree) : Prop :=
  (r_lo d <= a /\ b <= r_hi d) /\ Forall (fun x => a <= lo x /\ hi x <= b) (kids c) /\
  (forall x l, lb = x :: l -> b < lo x) /\ (forall x, last la = Some x -> hi x < a).
Definition resized (c : rtree) (a b : Z) : rtree :=
  RT (ptr c) {| r_lo := a; r_hi := b; r_flags := r_flags (data c) |} (kids c).

Lemma resized_wf a b p d la c lb :
  0 <= a <= b -> adjustable a b d la c lb -> wf (RT p d (la ++ c :: lb)) -> wf (RT p d (la ++ resized c a b :: lb)).
Proof.
  intros Hab ([Hd1 Hd2] & Hk & Hnext & Hprev) Hw. pose proof (wf_split _ _ _ _ _ Hw) as (Hc & Hla & Hlb).
  pose proof (wf_kids _ Hw) as [Ha Hks]. pose proof (wf_range _ Hw) as [_ Hlt]. cbn [data kids] in *.
  assert (wf (resized c a b)) as Hc'.
  { destruct (wf_kids _ Hc) as [[_ Hs] Hwk]. constructor; simpl; [lia|lia| |done]. by split. }
  apply (wf_rekid _ _ _ _ Hw).
  - apply arranged_insert; [by eapply arranged_remove|by apply Forall_app|done..| |done].
    destruct la as [|z la _] using rev_ind; [constructor|]. specialize (Hprev z ltac:(by rewrite last_snoc)).
    destruct Ha as [_ Hs]. apply StronglySorted_app in Hs as (_ & Hs & _). apply StronglySorted_app in Hs as (Hs & _ & _).
    apply Forall_app. split; [|by constructor]. apply Forall_forall. intros y Hy.
    specialize (Hs y z Hy ltac:(by left)). apply Forall_app in Hla as [_ [Hz _]%Forall_cons]. pose proof (wf_range _ Hz).
    unfold before in *. simpl. lia.
  - apply Forall_app. split; [done|]. by constructor.
Qed.
