(* ===== verification/ResourceCalls.v ===== *)
(** * Resource trees in memory *)
From S2P Require Import Prelude.
From S2P Require Import Heap.
From S2P Require Import HeapLogic.
From S2P Require Import Resource.
From S2P Require Import ResourceSpec.

Open Scope Z_scope.

(** One access to the object [H]. *)
Ltac do_get H := iApply iwp_bind; iApply (iwp_get with H); iIntros H.
Ltac do_set H := first [iApply iwp_bind; iApply (iwp_set with H)|iApply (iwp_set with H)]; iIntros H.

(** ** Trees as objects in memory *)
Definition mkres (d : range) (par sib ch : rptr) : resource :=
  {| start := r_lo d; end_ := r_hi d; flags := r_flags d; parent := par; sibling := sib; child := ch |}.
Global Arguments mkres : simpl never.

(** The first of a list of siblings, followed by [nxt]. *)
Definition headp (l : list rtree) (nxt : rptr) : rptr := match l with [] => nxt | t :: _ => Some (ptr t) end.

Fixpoint rcells (par sib : rptr) (t : rtree) : list (nat * resource) :=
  let 'RT p d ks := t in
  (p, mkres d par sib (headp ks None)) ::
  (fix chain l := match l with [] => [] | t :: l => rcells (Some p) (headp l None) t ++ chain l end) ks.

Fixpoint chain (par : rptr) (l : list rtree) (nxt : rptr) : list (nat * resource) :=
  match l with [] => [] | t :: l => rcells par (headp l nxt) t ++ chain par l nxt end.

Lemma rcells_RT par sib p d ks :
  rcells par sib (RT p d ks) = (p, mkres d par sib (headp ks None)) :: chain (Some p) ks None.
Proof. simpl. f_equal. induction ks as [|t ks IH]; simpl; [done|]. by rw IH. Qed.

Lemma chain_app par l1 l2 nxt : chain par (l1 ++ l2) nxt = chain par l1 (headp l2 nxt) ++ chain par l2 nxt.
Proof.
  induction l1 as [|t l1 IH]; simpl; [done|]. rw IH app_assoc. by destruct l1.
Qed.

Lemma headp_app l1 l2 nxt : headp (l1 ++ l2) nxt = headp l1 (headp l2 nxt).
Proof. by destruct l1. Qed.

(** The memory holds tree [t], below [par] and before [sib]. *)
Definition in_memory (s : res_state) (par sib : rptr) (t : rtree) : Prop := holds (heap s) (rcells par sib t).

Section heap.
Context `{!memGS resource unit Σ}.
Implicit Types (t : rtree) (l : list rtree).

Definition irt (par sib : rptr) t : iProp Σ := cells (rcells par sib t).
Definition ichain (par : rptr) l (nxt : rptr) : iProp Σ := cells (chain par l nxt).

(** A resource with its children [l], followed by [v]. *)
Definition spine (p : nat) (d : range) (par sib : rptr) l (v : rptr) : iProp Σ :=
  p ↦ mkres d par sib (headp l v) ∗ ichain (Some p) l v.

Lemma irt_spine par sib p d ks : irt par sib (RT p d ks) ⊣⊢ spine p d par sib ks None.
Proof. rw /irt rcells_RT. done. Qed.

Lemma ichain_nil par nxt : ichain par [] nxt ⊣⊢ emp.
Proof. done. Qed.
Lemma ichain_app par l1 l2 nxt : ichain par (l1 ++ l2) nxt ⊣⊢ ichain par l1 (headp l2 nxt) ∗ ichain par l2 nxt.
Proof. rw /ichain chain_app. apply big_sepL_app. Qed.
Lemma ichain_cons par t l nxt : ichain par (t :: l) nxt ⊣⊢ irt par (headp l nxt) t ∗ ichain par l nxt.
Proof. apply big_sepL_app. Qed.

Lemma spine_app p d par sib l1 l2 v :
  spine p d par sib (l1 ++ l2) v ⊣⊢ spine p d par sib l1 (headp l2 v) ∗ ichain (Some p) l2 v.
Proof. rw /spine ichain_app headp_app. iSplit; [iIntros "($ & $ & $)"|iIntros "(($ & $) & $)"]. Qed.

(** The node of a tree, with the way back. *)
Lemma irt_node par sib t :
  irt par sib t ⊣⊢ ptr t ↦ mkres (data t) par sib (headp (kids t) None) ∗ ichain (Some (ptr t)) (kids t) None.
Proof. destruct t as [p d ks]. apply irt_spine. Qed.

(** ** Links *)

(** The link after the children [l] of [p]. *)
Definition place_of (p : nat) l : place := match last l with None => child_of (Some p) | Some t => sibling_of (Some (ptr t)) end.

Lemma iwp_load p d par sib l v (Q : rptr -> iProp Σ) :
  spine p d par sib l v -∗ (spine p d par sib l v -∗ Q v) -∗ iwp (load (place_of p l)) Q.
Proof.
  iIntros "[P L] Q". unfold place_of. destruct l as [|t l _] using rev_ind; simpl.
  - iApply iwp_bind. iApply (iwp_get with "P"). iIntros "P". iApply iwp_ret. iApply "Q". iFrame.
  - rw last_snoc /=. rw ichain_app ichain_cons ichain_nil irt_node. iDestruct "L" as "(L & (T & K) & _)".
    iApply iwp_bind. iApply (iwp_get with "T"). iIntros "T". iApply iwp_ret. iApply "Q".
    rw /spine ichain_app ichain_cons ichain_nil irt_node. iFrame.
Qed.

Lemma iwp_store p d par sib l v w (Q : unit -> iProp Σ) :
  spine p d par sib l v -∗ (spine p d par sib l w -∗ Q tt) -∗ iwp (store (place_of p l) w) Q.
Proof.
  iIntros "[P L] Q". unfold place_of. destruct l as [|t l _] using rev_ind; simpl.
  - iApply (iwp_set with "P"). iIntros "P". iApply "Q". iFrame.
  - rw last_snoc /=. rw ichain_app ichain_cons ichain_nil irt_node. iDestruct "L" as "(L & (T & K) & _)".
    iApply (iwp_set with "T"). iIntros "T". iApply "Q".
    rw /spine ichain_app ichain_cons ichain_nil irt_node !headp_app. iFrame.
Qed.

(** ** Requests *)

Lemma iwp_link p d par sib l1 l2 n x y (Q : rptr -> iProp Σ) :
  spine p d par sib l1 (headp l2 None) -∗ ichain (Some p) l2 None -∗ irt x y n -∗
  (irt par sib (RT p d (l1 ++ n :: l2)) -∗ Q None) -∗
  iwp (bind (set (Some (ptr n)) (fun x => x <| sibling := headp l2 None |>)) (fun _ =>
       bind (store (place_of p l1) (Some (ptr n))) (fun _ =>
       bind (set (Some (ptr n)) (fun x => x <| parent := Some p |>)) (fun _ => ret None)))) Q.
Proof.
  iIntros "S L N Q". rw irt_node. iDestruct "N" as "[N K]". do_set "N". iApply iwp_bind.
  iApply (iwp_store with "S"). iIntros "S". do_set "N". iApply iwp_ret. iApply "Q".
  rw irt_spine spine_app ichain_cons irt_node. iFrame.
Qed.

Lemma iwp_request_loop fuel p d par sib l1 l2 n x y (Q : rptr -> iProp Σ) :
  (length l2 <= fuel)%nat ->
  spine p d par sib l1 (headp l2 None) -∗ ichain (Some p) l2 None -∗ irt x y n -∗
  ((∀ la lb, ⌜l2 = la ++ lb /\ free_place n la lb⌝ -∗ irt par sib (RT p d (l1 ++ la ++ n :: lb)) -∗ Q None) ∧
   (∀ la c lb, ⌜l2 = la ++ c :: lb /\ conflict n la c⌝ -∗ irt par sib (RT p d (l1 ++ l2)) -∗ irt x y n -∗ Q (Some (ptr c)))) -∗
  iwp (request_loop fuel (Some p) (Some (ptr n)) (lo n) (hi n) (place_of p l1)) Q.
Proof.
  revert l1 l2. induction fuel as [|fuel IH]; intros l1 l2 Hf; iIntros "S L N Q"; cbn [request_loop];
    iApply iwp_bind; iApply (iwp_load with "S"); iIntros "S"; destruct l2 as [|c l2]; simpl in Hf; try lia; simpl.
  1, 2: iDestruct "Q" as "[Q _]"; iApply (iwp_link _ _ _ _ l1 [] n with "S L N"); iIntros "T";
    iApply ("Q" $! [] [] with "[] T"); iPureIntro; split; [done|split; [constructor|done]].
  rw ichain_cons irt_node. iDestruct "L" as "[[C K] L]". do_get "C". simpl.
  iAssert (ichain (Some p) (c :: l2) None) with "[C K L]" as "L"; [rw ichain_cons irt_node; iFrame|].
  destruct (Z.ltb_spec (hi n) (lo c)) as [H1|H1]; [|destruct (Z.ltb_spec (hi c) (lo n)) as [H2|H2]].
  - iDestruct "Q" as "[Q _]". iApply (iwp_link _ _ _ _ l1 (c :: l2) n with "S L N"). iIntros "T".
    iApply ("Q" $! [] (c :: l2) with "[] T"). iPureIntro. split; [done|]. split; [constructor|]. by intros c' l [= <- <-].
  - rw ichain_cons. iDestruct "L" as "[C L]".
    replace (sibling_of (Some (ptr c))) with (place_of p (l1 ++ [c])) by (unfold place_of; by rw last_snoc).
    iApply (IH (l1 ++ [c]) l2 with "[S C] L N"); [lia|rw spine_app ichain_cons ichain_nil /=; by iFrame|].
    iSplit.
    + iDestruct "Q" as "[Q _]". iIntros (la lb (-> & Hla & Hlb)) "T". rw -app_assoc /=.
      iApply ("Q" $! (c :: la) lb with "[] T"). iPureIntro. split; [done|]. split; [by constructor|done].
    + iDestruct "Q" as "[_ Q]". iIntros (la c' lb (-> & Hc)) "T N". rw -app_assoc /=.
      iApply ("Q" $! (c :: la) c' lb with "[] T N"). iPureIntro. split; [done|]. destruct Hc. split; [by constructor|done].
  - iApply iwp_ret. iDestruct "Q" as "[_ Q]". iApply ("Q" $! [] c l2 with "[] [S L] N").
    + iPureIntro. split; [done|]. split; [constructor|]. unfold disjoint, before. lia.
    + rw irt_spine spine_app. iFrame.
Qed.

(** The number of objects is enough fuel for the children. *)
Lemma length_chain par l nxt : (length l <= length (chain par l nxt))%nat.
Proof.
  induction l as [|[p d ks] l IH]; [done|]. cbn [chain length]. rw length_app rcells_RT /=. lia.
Qed.

Lemma iwp___request_resource p d par sib ks n x y (Q : rptr -> iProp Σ) :
  irt par sib (RT p d ks) -∗ irt x y n -∗
  ((∀ la lb, ⌜inside n d /\ ks = la ++ lb /\ free_place n la lb⌝ -∗ irt par sib (RT p d (la ++ n :: lb)) -∗ Q None) ∧
   (∀ la c lb, ⌜inside n d /\ ks = la ++ c :: lb /\ conflict n la c⌝ -∗ irt par sib (RT p d ks) -∗ irt x y n -∗ Q (Some (ptr c))) ∧
   (⌜~ inside n d⌝ -∗ irt par sib (RT p d ks) -∗ irt x y n -∗ Q (Some p))) -∗
  iwp (__request_resource (Some p) (Some (ptr n))) Q.
Proof.
  iIntros "T N Q". unfold __request_resource. iEval (rw irt_node) in "N". iDestruct "N" as "[N K]". do_get "N". simpl.
  iAssert (irt x y n) with "[N K]" as "N"; [rw irt_node; iFrame|]. unfold inside.
  destruct (Z.ltb_spec (hi n) (lo n)).
  { iApply iwp_ret. iDestruct "Q" as "(_ & _ & Q)". iApply ("Q" with "[] T N"). iPureIntro. lia. }
  iEval (rw irt_spine) in "T". iDestruct "T" as "[P L]". do_get "P". simpl.
  iAssert (irt par sib (RT p d ks)) with "[P L]" as "T"; [rw irt_spine; iFrame|].
  destruct (Z.ltb_spec (lo n) (r_lo d)).
  { iApply iwp_ret. iDestruct "Q" as "(_ & _ & Q)". iApply ("Q" with "[] T N"). iPureIntro. lia. }
  rw Z.gtb_ltb. destruct (Z.ltb_spec (r_hi d) (hi n)).
  { iApply iwp_ret. iDestruct "Q" as "(_ & _ & Q)". iApply ("Q" with "[] T N"). iPureIntro. lia. }
  iEval (rw irt_spine) in "T". iDestruct "T" as "[P L]".
  iApply iwp_bind. iApply (iwp_fuel with "L"). iIntros (fuel Hf) "L". pose proof (length_chain (Some p) ks None).
  iApply (iwp_request_loop fuel p d par sib [] ks n with "[P] L N"); [lia|rw /spine ichain_nil; iFrame|].
  iSplit.
  - iDestruct "Q" as "[Q _]". iIntros (la lb (-> & H')) "T". iApply ("Q" with "[] T"). iPureIntro. split; [lia|done].
  - iDestruct "Q" as "(_ & Q & _)". iIntros (la c lb (-> & Hc)) "T N". iApply ("Q" with "[] T N").
    iPureIntro. split; [lia|done].
Qed.
End heap.

(** ** The calls on the resource tree, in the separation logic *)
Section calls.
Context `{!memGS resource unit Σ}.
Implicit Types (t n c : rtree) (l ks la lb : list rtree).

Lemma iwp_request_resource t par sib n x y (Q : Z -> iProp Σ) :
  irt par sib t -∗ irt x y n -∗
  ((∀ t', ⌜granted (fun _ => False) n t t'⌝ -∗ irt par sib t' -∗ Q 0) ∧
   (⌜refused (fun _ => False) n t⌝ -∗ irt par sib t -∗ irt x y n -∗ Q (- EBUSY))) -∗
  iwp (request_resource (Some (ptr t)) (Some (ptr n))) Q.
Proof.
  destruct t as [p d ks]. iIntros "T N Q". iApply iwp_bind. iApply (iwp___request_resource with "T N"). iSplit; [|iSplit].
  - iDestruct "Q" as "[Q _]". iIntros (la lb (Hi & -> & Hf)) "T". iApply iwp_ret. iApply ("Q" with "[] T").
    iPureIntro. by constructor.
  - iDestruct "Q" as "[_ Q]". iIntros (la c lb (Hi & -> & Hc)) "T N". iApply iwp_ret. iApply ("Q" with "[] T N").
    iPureIntro. apply refused_conflict; [done..|intros []].
  - iDestruct "Q" as "[_ Q]". iIntros (Hi) "T N". iApply iwp_ret. iApply ("Q" with "[] T N").
    iPureIntro. by apply refused_outside.
Qed.

(** A child, with the rest of the tree. *)
Lemma irt_kid par sib p d la c lb :
  irt par sib (RT p d (la ++ c :: lb)) ⊣⊢
    spine p d par sib la (Some (ptr c)) ∗ irt (Some p) (headp lb None) c ∗ ichain (Some p) lb None.
Proof. rw irt_spine spine_app ichain_cons. done. Qed.

(** Fuel for a descent. *)
Lemma cells_kid par sib p d la c lb par' sib' :
  (length (rcells par' sib' c) < length (rcells par sib (RT p d (la ++ c :: lb))))%nat.
Proof.
  rw rcells_RT chain_app /= !length_app. destruct c as [q e ks]. rw !rcells_RT /= . lia.
Qed.

Lemma iwp_not_root par sib p d la c lb :
  irt par sib (RT p d (la ++ c :: lb)) ⊢ ⌜ptr c <> p⌝.
Proof.
  rw irt_kid irt_node. iIntros "([P _] & [C _] & _)". by iDestruct (pointsto_ne with "C P") as %H.
Qed.

Lemma iwp_region_loop fuel t par sib n x y (Q : rptr -> iProp Σ) :
  (length (rcells par sib t) <= fuel)%nat ->
  irt par sib t -∗ irt x y n -∗
  ((∀ t', ⌜granted (fun c => ~ busy c) n t t'⌝ -∗ irt par sib t' -∗ Q (Some (ptr n))) ∧
   (⌜refused (fun c => ~ busy c) n t⌝ -∗ irt par sib t -∗ irt x y n -∗ Q None)) -∗
  iwp (region_loop fuel (Some (ptr t)) (Some (ptr n))) Q.
Proof.
  revert t par sib Q. induction fuel as [|fuel IH]; intros [p d ks] par sib Q Hf; [rw rcells_RT /= in Hf; lia|].
  iIntros "T N Q". cbn [region_loop]. iApply iwp_bind. iApply (iwp___request_resource with "T N"). iSplit; [|iSplit].
  - iDestruct "Q" as "[Q _]". iIntros (la lb (Hi & -> & Hp)) "T". iApply iwp_ret. iApply ("Q" with "[] T").
    iPureIntro. by constructor.
  - iIntros (la c lb (Hi & -> & Hc)) "T N". iDestruct (iwp_not_root with "T") as %Hne. simpl.
    rw bool_decide_false; [|congruence]. iEval (rw irt_kid) in "T". iDestruct "T" as "(S & C & L)".
    iEval (rw irt_node) in "C". iDestruct "C" as "[C K]". do_get "C". simpl.
    iAssert (irt (Some p) (headp lb None) c) with "[C K]" as "C"; [rw irt_node; iFrame|].
    destruct (decide (busy c)) as [Hb|Hb].
    + rw Hb. iApply iwp_ret. iDestruct "Q" as "[_ Q]". iApply ("Q" with "[] [S C L] N"); [|rw irt_kid; iFrame].
      iPureIntro. apply refused_conflict; [done..|]. tauto.
    + destruct (truth _) eqn:E; [done|]. pose proof (cells_kid par sib p d la c lb (Some p) (headp lb None)).
      iApply (IH c with "C N"); [lia|]. iSplit.
      * iDestruct "Q" as "[Q _]". iIntros (c' Hg) "C". pose proof (granted_same _ _ _ _ Hg) as [E1 E2].
        iApply ("Q" with "[] [S C L]"); [iPureIntro; by eapply granted_down|]. rw irt_kid E1. iFrame.
      * iDestruct "Q" as "[_ Q]". iIntros (Hr) "C N". iApply ("Q" with "[] [S C L] N"); [|rw irt_kid; iFrame].
        iPureIntro. by eapply refused_down.
  - iDestruct "Q" as "[_ Q]". iIntros (Hi) "T N". simpl. rw bool_decide_true //. iApply iwp_ret.
    iApply ("Q" with "[] T N"). iPureIntro. by apply refused_outside.
Qed.

(** [__request_region]: the region is granted at the lowest level at which no
    busy resource is in its way. *)
Definition region (x : nat) (lo n : Z) : rtree :=
  RT x {| r_lo := lo; r_hi := u32 (lo + n - 1); r_flags := IORESOURCE_BUSY |} [].

Lemma iwp___request_region t par sib x v (lo n : Z) (Q : rptr -> iProp Σ) :
  irt par sib t -∗ x ↦ v -∗
  ((∀ t', ⌜granted (fun c => ~ busy c) (region x lo n) t t'⌝ -∗ irt par sib t' -∗ Q (Some x)) ∧
   (⌜refused (fun c => ~ busy c) (region x lo n) t⌝ -∗ irt par sib t -∗ irt None None (region x lo n) -∗ Q None)) -∗
  iwp (__request_region (Some x) (Some (ptr t)) lo n) Q.
Proof.
  iIntros "T X Q". unfold __request_region. do_set "X". iApply iwp_bind. iApply (iwp_fuel with "T"). iIntros (fuel Hf) "T".
  iApply (iwp_region_loop fuel t par sib (region x lo n) None None with "T [X] Q"); [done|].
  rw irt_node /= ichain_nil. iFrame.
Qed.

(** ** Releases *)
Lemma iwp_release_loop fuel p d par sib l1 la n lb (Q : Z -> iProp Σ) :
  (length la <= fuel)%nat ->
  spine p d par sib l1 (headp (la ++ n :: lb) None) -∗ ichain (Some p) (la ++ n :: lb) None -∗
  (∀ y, irt par sib (RT p d (l1 ++ la ++ lb)) -∗ irt None y n -∗ Q 0) -∗
  iwp (release_loop fuel (Some (ptr n)) (place_of p l1)) Q.
Proof.
  revert l1 la. induction fuel as [|fuel IH]; intros l1 la Hf; iIntros "S L Q"; cbn [release_loop];
    iApply iwp_bind; iApply (iwp_load with "S"); iIntros "S"; destruct la as [|a la]; simpl in Hf; try lia; simpl.
  1, 2: rw bool_decide_true //; rw ichain_cons irt_node; iDestruct "L" as "[[N K] L]"; do_get "N"; iApply iwp_bind;
    iApply (iwp_store with "S"); iIntros "S"; do_set "N"; iApply iwp_ret; iApply ("Q" with "[S L] [N K]");
    [rw irt_spine spine_app; by iFrame|rw irt_node; by iFrame].
  iAssert ⌜ptr a <> ptr n⌝%I as %Hne.
  { rw ichain_cons ichain_app ichain_cons !irt_node. iDestruct "L" as "([A _] & _ & [N _] & _)".
    by iDestruct (pointsto_ne with "A N") as %?. }
  rw bool_decide_false; [|congruence]. rw ichain_cons. iDestruct "L" as "[A L]".
  replace (sibling_of (Some (ptr a))) with (place_of p (l1 ++ [a])) by (unfold place_of; by rw last_snoc).
  iApply (IH (l1 ++ [a]) la with "[S A] L"); [lia|rw spine_app ichain_cons ichain_nil /=; by iFrame|].
  iIntros (y) "T N". rw -app_assoc /=. iApply ("Q" with "T N").
Qed.

Lemma iwp_release_resource t t' n par sib (Q : Z -> iProp Σ) :
  removed n t t' ->
  irt par sib t -∗ (∀ y, irt par sib t' -∗ irt None y n -∗ Q 0) -∗
  iwp (release_resource (Some (ptr n))) Q.
Proof.
  intros Hr. revert par sib Q. induction Hr as [p d la lb|p d la c c' lb Hr IH]; intros par sib Q; iIntros "T Q".
  - unfold release_resource, __release_resource. rw irt_kid irt_node. iDestruct "T" as "(S & [N K] & L)". do_get "N". simpl.
    iAssert (irt par sib (RT p d (la ++ n :: lb))) with "[S N K L]" as "T"; [rw irt_kid irt_node; iFrame|].
    iEval (rw irt_spine) in "T". iDestruct "T" as "[P L]". iApply iwp_bind. iApply (iwp_fuel with "L"). iIntros (fuel Hf) "L".
    pose proof (length_chain (Some p) (la ++ n :: lb) None) as Hl. rw length_app /= in Hl.
    iApply (iwp_release_loop fuel p d par sib [] la n lb with "[P] L"); [lia|rw /spine ichain_nil; iFrame|].
    iIntros (y) "T N". iApply ("Q" with "T N").
  - pose proof (removed_same _ _ _ Hr) as [E1 E2]. rw !irt_kid. iDestruct "T" as "(S & C & L)".
    iApply (IH with "C"). iIntros (y) "C N". iApply ("Q" with "[S C L] N"). rw irt_kid E1. iFrame.
Qed.

(** A resource that names a parent but is not among its children is not
    released. *)
Lemma iwp_stray_loop fuel p d par sib l1 l2 x v (Q : Z -> iProp Σ) :
  (length l2 <= fuel)%nat ->
  spine p d par sib l1 (headp l2 None) -∗ ichain (Some p) l2 None -∗ x ↦ v -∗
  (irt par sib (RT p d (l1 ++ l2)) -∗ Q (- EINVAL)) -∗
  iwp (release_loop fuel (Some x) (place_of p l1)) Q.
Proof.
  revert l1 l2. induction fuel as [|fuel IH]; intros l1 l2 Hf; iIntros "S L X Q"; cbn [release_loop];
    iApply iwp_bind; iApply (iwp_load with "S"); iIntros "S"; destruct l2 as [|a l2]; simpl in Hf; try lia; simpl.
  1, 2: iApply iwp_ret; iApply "Q"; rw app_nil_r irt_spine; by iFrame.
  iAssert ⌜ptr a <> x⌝%I as %Hne.
  { rw ichain_cons !irt_node. iDestruct "L" as "([A _] & _)". by iDestruct (pointsto_ne with "A X") as %?. }
  rw bool_decide_false; [|congruence]. rw ichain_cons. iDestruct "L" as "[A L]".
  replace (sibling_of (Some (ptr a))) with (place_of p (l1 ++ [a])) by (unfold place_of; by rw last_snoc).
  iApply (IH (l1 ++ [a]) l2 with "[S A] L X"); [lia|rw spine_app ichain_cons ichain_nil /=; by iFrame|].
  iIntros "T". rw -app_assoc /=. iApply ("Q" with "T").
Qed.
Lemma iwp_release_stray t par sib x v (Q : Z -> iProp Σ) :
  parent v = Some (ptr t) ->
  irt par sib t -∗ x ↦ v -∗ (irt par sib t -∗ Q (- EINVAL)) -∗ iwp (release_resource (Some x)) Q.
Proof.
  intros Hp. destruct t as [p d ks]. iIntros "T X Q". unfold release_resource, __release_resource. do_get "X". rw Hp /=.
  iEval (rw irt_spine) in "T". iDestruct "T" as "[P L]". iApply iwp_bind. iApply (iwp_fuel with "L"). iIntros (fuel Hf) "L".
  pose proof (length_chain (Some p) ks None) as Hl.
  iApply (iwp_stray_loop fuel p d par sib [] ks x v with "[P] L X Q"); [lia|rw /spine ichain_nil; iFrame].
Qed.

(** Checking a region leaves the tree as it was. *)
Lemma iwp___check_region t par sib x v (lo n : Z) (Q : Z -> iProp Σ) :
  irt par sib t -∗ x ↦ v -∗
  (∀ r, ⌜(exists t', r = 0 /\ granted (fun c => ~ busy c) (region x lo n) t t') \/
         (r = - EBUSY /\ refused (fun c => ~ busy c) (region x lo n) t)⌝ -∗ irt par sib t -∗ Q r) -∗
  iwp (__check_region (Some x) (Some (ptr t)) lo n) Q.
Proof.
  iIntros "T X Q". iApply iwp_bind. iApply (iwp___request_region with "T X"). iSplit.
  - iIntros (t' Hg) "T". iApply iwp_bind. change (Some x) with (Some (ptr (region x lo n))).
    iApply (iwp_release_resource with "T"); [by eapply granted_removed|]. iIntros (y) "T _". iApply iwp_ret.
    iApply ("Q" with "[] T"). iPureIntro. left. eauto.
  - iIntros (Hr) "T _". iApply iwp_ret. iApply ("Q" with "[] T"). iPureIntro. by right.
Qed.
End calls.
