(* ===== verification/ResourceMore.v ===== *)
(** * Releasing regions, insertion above existing resources, adjustment *)
From S2P Require Import Prelude.
From S2P Require Import Heap.
From S2P Require Import HeapLogic.
From S2P Require Import Resource.
From S2P Require Import ResourceSpec.
From S2P Require Import ResourceCalls.
Open Scope Z_scope.

Section calls.
Context `{!memGS resource unit Σ}.
Implicit Types (t n c : rtree) (l ks la lb : list rtree).

(** ** Releasing a region *)
Lemma iwp_release_region_loop fuel p d par sib l1 l2 a b (Q : bool -> iProp Σ) :
  (length (chain (Some p) l2 None) <= fuel)%nat -> Forall (fun c => ~ covers a b c) l1 ->
  spine p d par sib l1 (headp l2 None) -∗ ichain (Some p) l2 None -∗
  ((∀ t', ⌜freed a b (RT p d (l1 ++ l2)) t'⌝ -∗ irt par sib t' -∗ Q true) ∧
   (⌜missing a b (RT p d (l1 ++ l2))⌝ -∗ irt par sib (RT p d (l1 ++ l2)) -∗ Q false)) -∗
  iwp (release_region_loop fuel a b (place_of p l1)) Q.
Proof.
  revert p d par sib l1 l2 Q. induction fuel as [|fuel IH]; intros p d par sib l1 l2 Q Hf Hl; iIntros "S L Q";
    cbn [release_region_loop]; iApply iwp_bind; iApply (iwp_load with "S"); iIntros "S"; destruct l2 as [|[q e ks] l2];
    cbn [chain] in Hf; rw ?rcells_RT /= in Hf; try lia; simpl.
  1, 2: iApply iwp_ret; iDestruct "Q" as "[_ Q]"; iApply ("Q" with "[]");
    [iPureIntro; rw app_nil_r; by constructor|rw app_nil_r irt_spine; by iFrame].
  rw length_app in Hf. iEval (rw ichain_cons irt_node) in "L". iDestruct "L" as "[[C K] L]". do_get "C". simpl.
  iAssert (irt (Some p) (headp l2 None) (RT q e ks)) with "[C K]" as "C"; [rw irt_node; iFrame|].
  rw Z.geb_leb. destruct (Z.leb_spec (r_lo e) a) as [H1|H1]; [destruct (Z.leb_spec b (r_hi e)) as [H2|H2]|]; simpl.
  1: destruct (truth (Z.land (r_flags e) IORESOURCE_BUSY)) eqn:Hb; simpl.
  - destruct (Z.eqb_spec (r_lo e) a) as [E1|E1]; [destruct (Z.eqb_spec (r_hi e) b) as [E2|E2]|]; simpl.
    + iApply iwp_bind. iApply (iwp_store with "S"). iIntros "S". iApply iwp_ret. iDestruct "Q" as "[Q _]".
      iApply ("Q" $! (RT p d (l1 ++ l2)) with "[]"); [iPureIntro; by apply freed_here|]. rw (irt_spine par sib p d) spine_app. iFrame.
    + iApply iwp_ret. iDestruct "Q" as "[_ Q]". iApply ("Q" with "[]"); [|rw irt_kid; iFrame].
      iPureIntro. apply missing_other; [done..|simpl; congruence].
    + iApply iwp_ret. iDestruct "Q" as "[_ Q]". iApply ("Q" with "[]"); [|rw irt_kid; iFrame].
      iPureIntro. apply missing_other; [done..|simpl; congruence].
  - iEval (rw irt_spine) in "C". iDestruct "C" as "[C K]". change (child_of (Some q)) with (place_of q []).
    iApply (IH q e (Some p) (headp l2 None) [] ks with "[C] K"); [lia|constructor|rw /spine ichain_nil; iFrame|]. simpl.
    iSplit.
    + iDestruct "Q" as "[Q _]". iIntros (c' Hc) "C".
      destruct (freed_removed _ _ _ _ Hc) as (x & [E1 E2]%removed_same & _). simpl in *.
      iApply ("Q" with "[]"); [iPureIntro; eapply freed_down; [done| |by rw /busy /= Hb|exact Hc]; done|].
      rw irt_kid E1. iFrame.
    + iDestruct "Q" as "[_ Q]". iIntros (Hc) "C". iApply ("Q" with "[]"); [|rw irt_kid; iFrame].
      iPureIntro. apply missing_down; [done..|by rw /busy /= Hb|done].
  - replace (sibling_of (Some q)) with (place_of p (l1 ++ [RT q e ks])) by (unfold place_of; by rw last_snoc).
    iApply (IH p d par sib (l1 ++ [RT q e ks]) l2 with "[S C] L"); [lia| |rw spine_app ichain_cons ichain_nil /=; by iFrame|].
    { apply Forall_app. split; [done|]. constructor; [|constructor]. unfold covers. simpl. lia. }
    rw -app_assoc /=. iApply "Q".
  - replace (sibling_of (Some q)) with (place_of p (l1 ++ [RT q e ks])) by (unfold place_of; by rw last_snoc).
    iApply (IH p d par sib (l1 ++ [RT q e ks]) l2 with "[S C] L"); [lia| |rw spine_app ichain_cons ichain_nil /=; by iFrame|].
    { apply Forall_app. split; [done|]. constructor; [|constructor]. unfold covers. simpl. lia. }
    rw -app_assoc /=. iApply "Q".
Qed.

Lemma iwp___release_region t par sib (a n : Z) (Q : bool -> iProp Σ) :
  let b := u32 (a + n - 1) in
  irt par sib t -∗
  ((∀ t', ⌜freed a b t t'⌝ -∗ irt par sib t' -∗ Q true) ∧ (⌜missing a b t⌝ -∗ irt par sib t -∗ Q false)) -∗
  iwp (__release_region (Some (ptr t)) a n) Q.
Proof.
  destruct t as [p d ks]. iIntros (b) "T Q". iEval (rw irt_spine) in "T". iDestruct "T" as "[P L]". iApply iwp_bind.
  iApply (iwp_fuel with "L"). iIntros (fuel Hf) "L". change (child_of (Some (ptr (RT p d ks)))) with (place_of p []).
  iApply (iwp_release_region_loop fuel p d par sib [] ks with "[P] L Q"); [done|constructor|rw /spine ichain_nil; iFrame].
Qed.

(** ** Insertion *)

(** The run of resources inside [n]. *)
Lemma iwp_covered fuel par n c l (Q : rptr -> iProp Σ) :
  (length l <= fuel)%nat ->
  ichain par (c :: l) None -∗
  ((∀ run z lb, ⌜c :: l = (run ++ [z]) ++ lb /\ Forall (within n) (run ++ [z]) /\ (forall x k, lb = x :: k -> before n x)⌝ -∗
      ichain par (c :: l) None -∗ Q (Some (ptr z))) ∧
   (∀ run x lb, ⌜c :: l = run ++ x :: lb /\ Forall (within n) run /\ ~ within n x /\ (run <> [] -> lo x <= hi n)⌝ -∗
      ichain par (c :: l) None -∗ Q None)) -∗
  iwp (covered fuel (lo n) (hi n) (Some (ptr c))) Q.
Proof.
  revert c l Q. induction fuel as [|fuel IH]; intros c l Q Hf; iIntros "L Q"; cbn [covered];
    iEval (rw ichain_cons irt_node) in "L"; iDestruct "L" as "[[C K] L]"; do_get "C"; simpl;
    iAssert (irt par (headp l None) c) with "[C K]" as "C"; [rw irt_node; iFrame| |rw irt_node; iFrame|].
  all: rw Z.gtb_ltb; destruct (Z.ltb_spec (lo c) (lo n)) as [H1|H1]; [|destruct (Z.ltb_spec (hi n) (hi c)) as [H2|H2]]; simpl.
  all: try (iApply iwp_ret; iDestruct "Q" as "[_ Q]"; iApply ("Q" $! [] c l with "[]"); [|rw ichain_cons; by iFrame];
    iPureIntro; split; [done|]; split; [constructor|]; split; [unfold within; lia|done]).
  all: destruct l as [|x l]; simpl in *; try lia.
  all: try (iApply iwp_ret; iDestruct "Q" as "[Q _]"; iApply ("Q" $! [] c [] with "[]"); [|rw ichain_cons; by iFrame];
    iPureIntro; split; [done|]; split; [constructor; [done|constructor]|done]).
  iEval (rw ichain_cons irt_node) in "L". iDestruct "L" as "[[X K] L]". do_get "X". simpl.
  iAssert (ichain par (x :: l) None) with "[X K L]" as "L"; [rw ichain_cons irt_node; iFrame|].
  rw Z.gtb_ltb. destruct (Z.ltb_spec (hi n) (lo x)) as [H3|H3].
  - iApply iwp_ret. iDestruct "Q" as "[Q _]". iApply ("Q" $! [] c (x :: l) with "[]"); [|rw (ichain_cons par c); by iFrame].
    iPureIntro. split; [done|]. split; [by constructor; [|constructor]|]. by intros y k [= <- <-].
  - iApply (IH x l with "L"); [lia|]. iSplit.
    + iDestruct "Q" as "[Q _]". iIntros (run z lb (El & Hr & Hlb)) "L". iApply ("Q" $! (c :: run) z lb with "[]").
      * iPureIntro. rw El. split; [done|]. split; [by constructor|done].
      * rw (ichain_cons par c). iFrame.
    + iDestruct "Q" as "[_ Q]". iIntros (run y lb (El & Hr & Hy & Hlo)) "L". iApply ("Q" $! (c :: run) y lb with "[]").
      * iPureIntro. rw El. split; [done|]. split; [by constructor|]. split; [done|]. intros _.
        destruct run; [simpl in El; by simplify_eq|by apply Hlo].
      * rw (ichain_cons par c). iFrame.
Qed.

(** The run goes below the new resource. *)
Lemma iwp_reparent fuel par l x (Q : unit -> iProp Σ) :
  (length l <= fuel)%nat ->
  ichain par l None -∗ (ichain x l None -∗ Q tt) -∗ iwp (reparent fuel x (headp l None)) Q.
Proof.
  revert l. induction fuel as [|fuel IH]; intros [|c l] Hf; simpl in Hf; try lia; iIntros "L Q"; cbn [reparent headp];
    try (iApply iwp_ret; by iApply "Q").
  rw !ichain_cons irt_node. iDestruct "L" as "[[C K] L]". do_set "C". do_get "C". simpl.
  iApply (IH l with "L"); [lia|]. iIntros "L". iApply "Q". rw irt_node. iFrame.
Qed.

(** The link that pointed to [f] is the one after [la]. *)
Lemma iwp_previous fuel p d par sib l1 la f v (Q : rptr -> iProp Σ) z :
  (length la <= fuel)%nat -> last la = Some z ->
  spine p d par sib l1 (headp la (Some f)) -∗ ichain (Some p) la (Some f) -∗ f ↦ v -∗
  (spine p d par sib l1 (headp la (Some f)) -∗ ichain (Some p) la (Some f) -∗ f ↦ v -∗ Q (Some (ptr z))) -∗
  iwp (previous fuel (Some f) (headp la (Some f))) Q.
Proof.
  revert l1 la. induction fuel as [|fuel IH]; intros l1 [|c la] Hf Hz; simpl in Hf; try lia; try done.
  iIntros "S L F Q"; cbn [previous headp]. iEval (rw ichain_cons irt_node) in "L". iDestruct "L" as "[[C K] L]".
  do_get "C". simpl. iAssert (irt (Some p) (headp la (Some f)) c) with "[C K]" as "C"; [rw irt_node; iFrame|].
  destruct la as [|c' la].
  - simpl. rw bool_decide_true //. iApply iwp_ret. simpl in Hz. injection Hz as <-. iApply ("Q" with "S [C L] F").
    rw ichain_cons. iFrame.
  - simpl. iAssert ⌜ptr c' <> f⌝%I as %Hne.
    { iEval (rw ichain_cons irt_node) in "L". iDestruct "L" as "[[C' _] _]". by iDestruct (pointsto_ne with "C' F") as %?. }
    rw bool_decide_false; [|congruence].
    iApply (IH (l1 ++ [c]) (c' :: la) with "[S C] L F"); [simpl in *; lia|done|rw spine_app ichain_cons ichain_nil /=; by iFrame|].
    iIntros "S L F". rw spine_app ichain_cons /=. iDestruct "S" as "[S [C _]]". iApply ("Q" with "S [C L] F").
    rw ichain_cons. iFrame.
Qed.

Lemma iwp_repoint fuel p d par sib la f v new (Q : unit -> iProp Σ) :
  (length la <= fuel)%nat ->
  spine p d par sib la (Some f) -∗ f ↦ v -∗ (spine p d par sib la new -∗ f ↦ v -∗ Q tt) -∗
  iwp (bind (get (Some p)) (fun q => if bool_decide (child q = Some f) then set (Some p) (fun x => x <| child := new |>)
       else bind (previous fuel (Some f) (child q)) (fun prev => set prev (fun x => x <| sibling := new |>)))) Q.
Proof.
  iIntros (Hf) "[P L] F Q". do_get "P". simpl. destruct (last la) as [z|] eqn:Ez.
  - destruct la as [|a la]; [done|]. simpl. iAssert ⌜ptr a <> f⌝%I as %Hne.
    { iEval (rw ichain_cons irt_node) in "L". iDestruct "L" as "[[A _] _]". by iDestruct (pointsto_ne with "A F") as %?. }
    rw bool_decide_false; [|congruence]. iApply iwp_bind.
    iApply (iwp_previous fuel p d par sib [] (a :: la) f v _ z with "[P] L F"); [done..|rw /spine ichain_nil; by iFrame|].
    iIntros "[P _] L F". change (set (Some (ptr z)) _) with (store (sibling_of (Some (ptr z))) new).
    replace (sibling_of (Some (ptr z))) with (place_of p (a :: la)) by (unfold place_of; by rw Ez).
    iApply (iwp_store with "[P L]"); [rw /spine; by iFrame|]. iIntros "S". iApply ("Q" with "S F").
  - apply last_None in Ez as ->. rw bool_decide_true //. do_set "P". iApply ("Q" with "[P L] F"). rw /spine. by iFrame.
Qed.

(** The run, up to [z], becomes the children of [n]. *)
Lemma iwp_adopt fuel p d par sib la r0 z lb n x y (Q : unit -> iProp Σ) :
  (length la <= fuel)%nat -> (length (r0 ++ [z]) <= fuel)%nat -> kids n = [] ->
  irt par sib (RT p d (la ++ (r0 ++ [z]) ++ lb)) -∗ irt x y n -∗
  (irt par sib (RT p d (la ++ with_kids n (r0 ++ [z]) :: lb)) -∗ Q tt) -∗
  iwp (adopt fuel (Some p) (Some (ptr n)) (headp (r0 ++ [z]) None) (Some (ptr z))) Q.
Proof.
  iIntros (Hla Hr Hk) "T N Q". unfold adopt. iEval (rw irt_spine spine_app ichain_app) in "T". iDestruct "T" as "(S & R & L)".
  iEval (rw ichain_app ichain_cons irt_node) in "R". iDestruct "R" as "(R & [Z K] & _)". do_get "Z". simpl.
  iEval (rw irt_node Hk) in "N". iDestruct "N" as "[N _]". do_set "N". do_set "Z". iApply iwp_bind.
  iAssert (ichain (Some p) (r0 ++ [z]) None) with "[R Z K]" as "R".
  { rw ichain_app ichain_cons ichain_nil irt_node. iFrame. }
  iApply (iwp_reparent with "R"); [done|]. iIntros "R".
  assert (exists c r, r0 ++ [z] = c :: r) as (c & r & E) by (destruct r0; simpl; eauto). rw E. simpl.
  iEval (rw ichain_cons irt_node) in "R". iDestruct "R" as "[[C K] R]".
  iApply (iwp_repoint with "S C"); [done|]. iIntros "S C". iApply "Q". rw irt_kid irt_node ichain_cons irt_node /=. iFrame.
Qed.

Lemma iwp_insert_resource_loop fuel t par sib n x y (Q : Z -> iProp Σ) :
  kids n = [] -> (length (rcells par sib t) <= fuel)%nat ->
  irt par sib t -∗ irt x y n -∗
  ((∀ t', ⌜inserted n t t'⌝ -∗ irt par sib t' -∗ Q 0) ∧
   (⌜unplaced n t⌝ -∗ irt par sib t -∗ irt x y n -∗ Q (- EBUSY))) -∗
  iwp (insert_loop fuel (Some (ptr t)) (Some (ptr n))) Q.
Proof.
  intros Hn. revert t par sib Q. induction fuel as [|fuel IH]; intros [p d ks] par sib Q Hf; [rw rcells_RT /= in Hf; lia|].
  iIntros "T N Q". cbn [insert_loop]. iApply iwp_bind. iApply (iwp___request_resource with "T N"). iSplit; [|iSplit].
  - iDestruct "Q" as "[Q _]". iIntros (la lb (Hi & -> & Hp)) "T". iApply iwp_ret. iApply ("Q" with "[] T").
    iPureIntro. by constructor.
  - iIntros (la c lb (Hi & -> & Hc)) "T N". iDestruct (iwp_not_root with "T") as %Hne. simpl.
    rw bool_decide_false; [|congruence]. iEval (rw irt_kid) in "T". iDestruct "T" as "(S & C & L)".
    iEval (rw irt_node) in "C". iDestruct "C" as "[C K]". do_get "C". simpl.
    iAssert (irt (Some p) (headp lb None) c) with "[C K]" as "C"; [rw irt_node; iFrame|].
    iEval (rw irt_node) in "N". iDestruct "N" as "[N K]". do_get "N". simpl.
    iAssert (irt x y n) with "[N K]" as "N"; [rw irt_node; iFrame|].
    destruct (decide (contains n c)) as [Hcc|Hcc].
    + rw Z.geb_leb (proj2 (Z.leb_le _ _) (proj1 Hcc)) (proj2 (Z.leb_le _ _) (proj2 Hcc)) /=.
      pose proof (cells_kid par sib p d la c lb (Some p) (headp lb None)). iApply (IH c with "C N"); [lia|]. iSplit.
      * iDestruct "Q" as "[Q _]". iIntros (c' Hg) "C". pose proof (inserted_same _ _ _ Hg) as [E1 E2].
        iApply ("Q" with "[] [S C L]"); [iPureIntro; by eapply inserted_down|]. rw irt_kid E1. iFrame.
      * iDestruct "Q" as "[_ Q]". iIntros (Hr) "C N". iApply ("Q" with "[] [S C L] N"); [|rw irt_kid; iFrame].
        iPureIntro. by eapply unplaced_down.
    + replace ((lo c <=? lo n) && (hi c >=? hi n)) with false
        by (symmetry; rw Z.geb_leb; apply andb_false_iff; rw !Z.leb_gt; unfold contains in Hcc; lia).
      iApply iwp_bind. iAssert (irt par sib (RT p d (la ++ c :: lb))) with "[S C L]" as "T"; [rw irt_kid; iFrame|].
      iApply (iwp_fuel with "T"). iIntros (k Hlen) "T". rw rcells_RT /= in Hlen.
      pose proof (length_chain (Some p) (la ++ c :: lb) None) as Hl. rw length_app /= in Hl.
      change (cells (rcells par sib (RT p d (la ++ c :: lb)))) with (irt par sib (RT p d (la ++ c :: lb))).
      iEval (rw irt_spine spine_app) in "T". iDestruct "T" as "[S L]". iApply iwp_bind.
      iApply (iwp_covered k (Some p) n c lb with "L"); [lia|]. iSplit.
      * iDestruct "Q" as "[Q _]". iIntros (r0 z lb' (E & Hwi & Hlb)) "L". iApply iwp_bind.
        assert (exists run, r0 ++ [z] = c :: run) as [run Er] by (destruct r0; simpl in *; simplify_eq; eauto).
        replace (Some (ptr c)) with (headp (r0 ++ [z]) None) by (by rw Er).
        iApply (iwp_adopt k p d par sib la r0 z lb' n with "[S L] N"); [lia| |done|rw irt_spine -E spine_app; iFrame|].
        { apply (f_equal length) in E. rw length_app /= in E. lia. }
        iIntros "T". iApply iwp_ret. iApply ("Q" with "[] T"). iPureIntro. rw E Er. rw Er in Hwi. by apply inserted_above.
      * iDestruct "Q" as "[_ Q]". iIntros (run z rest (E & Hwi & Hz & Hlo)) "L". iApply iwp_ret.
        iApply ("Q" with "[] [S L] N"); [|rw irt_spine spine_app; iFrame]. iPureIntro. by eapply unplaced_partial.
  - iDestruct "Q" as "[_ Q]". iIntros (Hi) "T N". simpl. rw bool_decide_true //. iApply iwp_ret.
    iApply ("Q" with "[] T N"). iPureIntro. by constructor.
Qed.

Lemma iwp_insert_resource t par sib n x y (Q : Z -> iProp Σ) :
  kids n = [] ->
  irt par sib t -∗ irt x y n -∗
  ((∀ t', ⌜inserted n t t'⌝ -∗ irt par sib t' -∗ Q 0) ∧
   (⌜unplaced n t⌝ -∗ irt par sib t -∗ irt x y n -∗ Q (- EBUSY))) -∗
  iwp (insert_resource (Some (ptr t)) (Some (ptr n))) Q.
Proof.
  iIntros (Hn) "T N Q". iApply iwp_bind. iApply (iwp_fuel with "T"). iIntros (fuel Hf) "T".
  by iApply (iwp_insert_resource_loop with "T N Q").
Qed.

(** ** Adjustment *)
Lemma iwp_all_inside fuel par l a b (Q : bool -> iProp Σ) :
  (length l <= fuel)%nat ->
  ichain par l None -∗ (∀ r : bool, ⌜r = true <-> Forall (fun c => a <= lo c /\ hi c <= b) l⌝ -∗ ichain par l None -∗ Q r) -∗
  iwp (all_inside fuel a b (headp l None)) Q.
Proof.
  revert l Q. induction fuel as [|fuel IH]; intros [|c l] Q Hf; simpl in Hf; try lia; iIntros "L Q"; cbn [all_inside headp];
    try (iApply iwp_ret; iApply ("Q" with "[] L"); iPureIntro; split; [constructor|done]).
  iEval (rw ichain_cons irt_node) in "L". iDestruct "L" as "[[C K] L]". do_get "C". simpl.
  iAssert (irt par (headp l None) c) with "[C K]" as "C"; [rw irt_node; iFrame|].
  rw Z.gtb_ltb. destruct (Z.ltb_spec (lo c) a) as [H1|H1]; [|destruct (Z.ltb_spec b (hi c)) as [H2|H2]]; simpl.
  - iApply iwp_ret. iApply ("Q" with "[]"); [|rw ichain_cons; iFrame]. iPureIntro. split; [done|].
    intros [H _]%Forall_cons. lia.
  - iApply iwp_ret. iApply ("Q" with "[]"); [|rw ichain_cons; iFrame]. iPureIntro. split; [done|].
    intros [H _]%Forall_cons. lia.
  - iApply (IH l with "L"); [lia|]. iIntros (r Hr) "L". iApply ("Q" with "[]"); [|rw ichain_cons; iFrame]. iPureIntro.
    rw Hr Forall_cons. intuition lia.
Qed.

(** The check against the left neighbour. *)
Lemma iwp_check_previous fuel p d par sib la f v a (Q : bool -> iProp Σ) :
  (length la <= fuel)%nat ->
  spine p d par sib la (Some f) -∗ f ↦ v -∗
  (∀ r : bool, ⌜r = true <-> exists z, last la = Some z /\ a <= hi z⌝ -∗ spine p d par sib la (Some f) -∗ f ↦ v -∗ Q r) -∗
  iwp (if bool_decide (child (mkres d par sib (headp la (Some f))) = Some f) then ret false
       else bind (previous fuel (Some f) (child (mkres d par sib (headp la (Some f))))) (fun q =>
            bind (get q) (fun x => ret (a <=? end_ x)))) Q.
Proof.
  iIntros (Hf) "[P L] F Q". simpl. destruct la as [|z la _] using rev_ind.
  - simpl. rw bool_decide_true //. iApply iwp_ret. iApply ("Q" with "[] [$P $L] F"). iPureIntro.
    split; [done|]. by intros (z & ? & _).
  - assert (exists x l, la ++ [z] = x :: l) as (x & l & E) by (destruct la; simpl; eauto).
    iAssert ⌜headp (la ++ [z]) (Some f) <> Some f⌝%I as %Hne.
    { rw E. iEval (rw ichain_cons irt_node) in "L". iDestruct "L" as "[[X _] _]".
      iDestruct (pointsto_ne with "X F") as %H. iPureIntro. simpl. congruence. }
    rw bool_decide_false //. iApply iwp_bind.
    iApply (iwp_previous fuel p d par sib [] (la ++ [z]) f v _ z with "[P] L F"); [done|by rw last_snoc|rw /spine ichain_nil; by iFrame|].
    iIntros "[P _] L F". iEval (rw ichain_app ichain_cons irt_node) in "L". iDestruct "L" as "(L & [Z K] & _)".
    do_get "Z". simpl. iApply iwp_ret. iApply ("Q" with "[] [P L Z K] F").
    + iPureIntro. rw last_snoc Z.leb_le. split; [eauto|by intros (? & [= <-] & ?)].
    + rw /spine ichain_app ichain_cons ichain_nil irt_node. iFrame.
Qed.

Lemma iwp_adjust_resource p d par sib la c lb a size (Q : Z -> iProp Σ) :
  let b := u32 (a + size - 1) in
  irt par sib (RT p d (la ++ c :: lb)) -∗
  ((⌜adjustable a b d la c lb⌝ -∗ irt par sib (RT p d (la ++ resized c a b :: lb)) -∗ Q 0) ∧
   (⌜~ adjustable a b d la c lb⌝ -∗ irt par sib (RT p d (la ++ c :: lb)) -∗ Q (- EBUSY))) -∗
  iwp (adjust_resource (Some (ptr c)) a size) Q.
Proof.
  iIntros (b) "T Q". unfold adjust_resource. fold b.
  iEval (rw irt_kid irt_node) in "T". iDestruct "T" as "([P L] & [C K] & R)". do_get "C". simpl. do_get "P". simpl.
  rw Z.gtb_ltb. destruct (decide (r_lo d <= a /\ b <= r_hi d)) as [Hd|Hd].
  2: { replace ((a <? r_lo d) || (r_hi d <? b)) with true by (symmetry; apply orb_true_iff; rw !Z.ltb_lt; lia).
       iApply iwp_ret. iDestruct "Q" as "[_ Q]". iApply ("Q" with "[]"); [by iIntros ([? _])|].
       rw irt_kid irt_node. iFrame. }
  replace ((a <? r_lo d) || (r_hi d <? b)) with false by (symmetry; apply orb_false_iff; rw !Z.ltb_ge; lia).
  iApply iwp_bind. iAssert (irt par sib (RT p d (la ++ c :: lb))) with "[P L C K R]" as "T"; [rw irt_kid irt_node; iFrame|].
  iApply (iwp_fuel with "T"). iIntros (k Hlen) "T".
  change (cells (rcells par sib (RT p d (la ++ c :: lb)))) with (irt par sib (RT p d (la ++ c :: lb))).
  assert (length (kids c) <= k /\ length la <= k)%nat as [Hk1 Hk2].
  { pose proof (cells_kid par sib p d la c lb None None) as H1. pose proof (length_chain (Some p) (la ++ c :: lb) None) as H2.
    rw length_app /= in H2. destruct c as [q e ks]. rw !rcells_RT /= in Hlen, H1.
    pose proof (length_chain (Some q) ks None). simpl. lia. }
  iEval (rw irt_kid irt_node) in "T". iDestruct "T" as "(S & [C K] & R)". iApply iwp_bind.
  iApply (iwp_all_inside with "K"); [done|]. iIntros (r1 Hr1) "K".
  destruct r1; simpl; last first.
  { iApply iwp_ret. iDestruct "Q" as "[_ Q]". iApply ("Q" with "[]"); [|rw irt_kid irt_node; iFrame].
    iPureIntro. intros (_ & H & _). by apply Hr1 in H. }
  iApply iwp_bind.
  iAssert (iwp (match headp lb None with None => ret false | Some _ => bind (get (headp lb None)) (fun s => ret (start s <=? b)) end)
    (fun r => ⌜r = true <-> exists x l, lb = x :: l /\ lo x <= b⌝ ∗ ichain (Some p) lb None))%I with "[R]" as "W".
  { destruct lb as [|x lb]; simpl; [iApply iwp_ret; iFrame; iPureIntro; split; [done|by intros (? & ? & ? & _)]|].
    iEval (rw ichain_cons irt_node) in "R". iDestruct "R" as "[[X Y] R]". do_get "X". iApply iwp_ret.
    iSplit; [|rw ichain_cons irt_node; iFrame]. iPureIntro. rw Z.leb_le. simpl. split; [eauto|by intros (? & ? & [= <- <-] & ?)]. }
  iApply (iwp_wand with "W"). iIntros (r2) "[%Hr2 R]". destruct r2.
  { iApply iwp_ret. iDestruct "Q" as "[_ Q]". iApply ("Q" with "[]"); [|rw irt_kid irt_node; iFrame].
    iPureIntro. intros (_ & _ & H & _). destruct (proj1 Hr2 eq_refl) as (x & l & E & Hx). specialize (H x l E). lia. }
  iApply iwp_bind. iApply (iwp_check_previous with "S C"); [done|]. iIntros (r3 Hr3) "S C". destruct r3.
  { iApply iwp_ret. iDestruct "Q" as "[_ Q]". iApply ("Q" with "[]"); [|rw irt_kid irt_node; iFrame].
    iPureIntro. intros (_ & _ & _ & H). destruct (proj1 Hr3 eq_refl) as (z & E & Hz). specialize (H z E). lia. }
  do_set "C". iApply iwp_ret. iDestruct "Q" as "[Q _]". iApply ("Q" with "[]"); [|rw irt_kid irt_node; iFrame].
  iPureIntro. split; [done|]. split; [by apply Hr1|]. split.
  - intros x l E. destruct (Z.lt_ge_cases b (lo x)); [done|]. enough (false = true) by done. apply Hr2. eauto.
  - intros x E. destruct (Z.lt_ge_cases (hi x) a); [done|]. enough (false = true) by done. apply Hr3. eauto.
Qed.
End calls.
