(* ===== verification/ResourceAlloc.v ===== *)
(** * Allocation of a free range: holes and alignment *)
From S2P Require Import Prelude.
From S2P Require Import Heap.
From S2P Require Import Resource.
From S2P Require Import ResourceSpec.

(** ** Rounding up *)
Definition round_up (x k : Z) : Z := 2 ^ k * ((x + 2 ^ k - 1) / 2 ^ k).

Lemma round_up_spec x k : 0 <= k -> (2 ^ k | round_up x k) /\ x <= round_up x k.
Proof.
  intros Hk. assert (0 < 2 ^ k) by (apply Z.pow_pos_nonneg; lia). split; [apply Z.divide_factor_l|].
  unfold round_up. pose proof (Z.mul_succ_div_gt (x + 2 ^ k - 1) (2 ^ k) ltac:(lia)). lia.
Qed.

Lemma round_up_least x k a : 0 <= k -> (2 ^ k | a) -> x <= a -> round_up x k <= a.
Proof.
  intros Hk [q ->] Hx. assert (0 < 2 ^ k) as Hp by (apply Z.pow_pos_nonneg; lia). unfold round_up.
  assert ((x + 2 ^ k - 1) / 2 ^ k <= q); [|nia].
  assert ((x + 2 ^ k - 1) / 2 ^ k < q + 1); [|lia]. apply Z.div_lt_upper_bound; nia.
Qed.

(** ** One hole *)
Section hole.
Context (size min max k : Z).
Context (Hsize : 2 <= size) (Hk : 0 <= k < 32) (Hmin : 0 <= min) (Hmax : 0 <= max < 2 ^ 32).

(** An aligned range of the wanted size at [a] in a hole. *)
Definition suits (a lo hi : Z) : Prop := (2 ^ k | a) /\ Z.max lo min <= a /\ a + size - 1 <= Z.min hi max.

Abbreviation fit' := (fit None size min max (2 ^ k)).

Lemma fit_bounds lo hi v :
  0 <= lo -> Z.max lo min + 2 ^ k <= 2 ^ 32 ->
  fit' lo hi v = v <| start := round_up (Z.max lo min) k |> <| end_ := Z.min hi max |>.
Proof using Hk Hmin.
  intros Hlo Hw. assert (0 < 2 ^ k) by (apply Z.pow_pos_nonneg; lia). unfold fit. rewrite Z.gtb_ltb.
  replace (if lo <? min then min else lo) with (Z.max lo min) by (destruct (Z.ltb_spec lo min); lia).
  replace (if max <? hi then max else hi) with (Z.min hi max) by (destruct (Z.ltb_spec max hi); lia).
  rewrite (u32_small (Z.max lo min + 2 ^ k - 1)), align_mask by lia. done.
Qed.

Lemma fits_spec lo hi v :
  0 <= lo -> Z.max lo min + 2 ^ k <= 2 ^ 32 -> hi < 2 ^ 32 - 1 ->
  fits size (fit' lo hi v) = true <-> suits (round_up (Z.max lo min) k) lo hi.
Proof using All.
  intros Hlo Hw Hhi. rewrite fit_bounds by done. unfold fits. simpl. rewrite andb_true_iff, Z.geb_le, Z.ltb_lt.
  destruct (round_up_spec (Z.max lo min) k ltac:(lia)) as [H1 H2]. set (a := round_up (Z.max lo min) k) in *. unfold suits.
  split.
  - intros [Hlt Hge]. rewrite u32_small in Hge by lia. split_and!; [done..|lia].
  - intros (_ & _ & Hle). split; [lia|]. rewrite u32_small by lia. lia.
Qed.

(** When the lowest candidate does not fit, none does. *)
Lemma suits_least a lo hi : suits a lo hi -> suits (round_up (Z.max lo min) k) lo hi /\ round_up (Z.max lo min) k <= a.
Proof using Hk.
  intros (H1 & H2 & H3). pose proof (round_up_least (Z.max lo min) k a ltac:(lia) H1 H2).
  destruct (round_up_spec (Z.max lo min) k ltac:(lia)). split; [|done]. split_and!; [done..|lia].
Qed.

(** ** All holes *)

(** The holes between the children [l], from [from] to [to]. *)
Fixpoint gaps (from : Z) (l : list rtree) (to : Z) : list (Z * Z) :=
  match l with [] => [(from, to)] | c :: l => (from, lo c - 1) :: gaps (hi c + 1) l to end.

Lemma gaps_above from l to g :
  Forall (fun c => from <= lo c) l -> Forall wf l -> StronglySorted before l -> g ∈ gaps from l to -> from <= g.1.
Proof using.
  revert from. induction l as [|c l IH]; intros from Hf Hw Hs; simpl; rewrite ?elem_of_cons; intros Hin.
  - rewrite elem_of_nil in Hin. destruct Hin as [->|[]]; simpl; lia.
  - destruct Hin as [->|Hin]; [simpl; lia|]. apply StronglySorted_inv in Hs as [Hs Hc].
    apply Forall_cons in Hf as [Hf _]. apply Forall_cons in Hw as [Hcw Hw]. pose proof (wf_range _ Hcw).
    apply IH in Hin; [lia| |done..]. eapply Forall_impl; [exact Hc|]. unfold before. intros. lia.
Qed.

(** A range is free exactly when it lies in a hole. *)
Lemma gaps_free a b from l to :
  a <= b -> Forall (fun c => from <= lo c /\ hi c <= to) l -> Forall wf l -> StronglySorted before l ->
  (exists g, g ∈ gaps from l to /\ g.1 <= a /\ b <= g.2) <->
  (from <= a /\ b <= to /\ Forall (fun c => b < lo c \/ hi c < a) l).
Proof using.
  intros Hab. revert from. induction l as [|c l IH]; intros from Hr Hw Hs; simpl.
  - split.
    + intros (g & [->|[]%elem_of_nil]%elem_of_cons & H1 & H2). simpl in *. split_and!; [done..|constructor].
    + intros (H1 & H2 & _). exists (from, to). split; [by left|done].
  - apply Forall_cons in Hr as [[Hc1 Hc2] Hr]. apply Forall_cons in Hw as [Hcw Hw]. apply StronglySorted_inv in Hs as [Hs Hb].
    pose proof (wf_range _ Hcw) as [Hcr _].
    assert (Forall (fun x => hi c + 1 <= lo x /\ hi x <= to) l) as Hr'.
    { rewrite Forall_forall in Hr, Hb |- *. intros x Hx. specialize (Hr x Hx). specialize (Hb x Hx). unfold before in Hb. lia. }
    specialize (IH (hi c + 1) Hr' Hw Hs). rewrite Forall_cons. split.
    + intros (g & [->|Hg]%elem_of_cons & H1 & H2); simpl in *.
      * split_and!; [lia..|left; lia|]. eapply Forall_impl; [exact Hr'|]. intros x [H3 _]. simpl. lia.
      * destruct (proj1 IH (ex_intro _ g (conj Hg (conj H1 H2)))) as (H3 & H4 & H5). split_and!; [lia|lia|right; lia|done].
    + intros (H1 & H2 & [H3|H3] & H4).
      * exists (from, lo c - 1). split; [by left|]. simpl. lia.
      * destruct (proj2 IH ltac:(split_and!; [lia|done|done])) as (g & Hg & H5). exists g. split; [by right|done].
Qed.
(** [a] is the lowest address that suits one of the holes. *)
Definition lowest (a from : Z) (l : list rtree) (to : Z) : Prop :=
  (exists g, g ∈ gaps from l to /\ suits a g.1 g.2) /\
  forall a' g, g ∈ gaps from l to -> suits a' g.1 g.2 -> a <= a'.
Definition none_suits (from : Z) (l : list rtree) (to : Z) : Prop :=
  forall a g, g ∈ gaps from l to -> ~ suits a g.1 g.2.

Lemma lowest_first from l to c :
  Forall (fun x => hi c + 1 <= lo x) l -> Forall wf l -> StronglySorted before l -> lo c <= hi c ->
  let a := round_up (Z.max from min) k in
  suits a from (lo c - 1) -> lowest a from (c :: l) to.
Proof using Hsize Hk.
  intros Hl Hw Hs Hc a Ha. split; [exists (from, lo c - 1); split; [by left|done]|].
  intros a' g [->|Hg]%elem_of_cons Ha'; simpl in Ha'; [by apply suits_least in Ha' as [_ ?]|].
  apply (gaps_above _ l to g Hl Hw Hs) in Hg. destruct Ha as (_ & _ & H1), Ha' as (_ & H2 & _). lia.
Qed.

Lemma lowest_last from to : suits (round_up (Z.max from min) k) from to -> lowest (round_up (Z.max from min) k) from [] to.
Proof using Hk.
  intros Ha. split; [exists (from, to); split; [by left|done]|].
  intros a' g [->|[]%elem_of_nil]%elem_of_cons Ha'. by apply suits_least in Ha' as [_ ?].
Qed.

Lemma none_last from to : (forall a, ~ suits a from to) -> none_suits from [] to.
Proof using. intros Hn a g [->|[]%elem_of_nil]%elem_of_cons. apply Hn. Qed.

Lemma lowest_skip a from l to c :
  (forall a, ~ suits a from (lo c - 1)) -> lowest a (hi c + 1) l to -> lowest a from (c :: l) to.
Proof using.
  intros Hn [(g & Hg & Hs) Hl]. split; [exists g; split; [by right|done]|].
  intros a' g' [->|Hg']%elem_of_cons Ha'; [by apply Hn in Ha'|eauto].
Qed.

Lemma none_skip from l to c :
  (forall a, ~ suits a from (lo c - 1)) -> none_suits (hi c + 1) l to -> none_suits from (c :: l) to.
Proof using. intros Hn Hl a g [->|Hg]%elem_of_cons; [apply Hn|by apply Hl]. Qed.

(** The children that remain, in order after [from]. *)
Definition remaining (from : Z) (l : list rtree) (to : Z) : Prop :=
  0 <= from <= to + 1 /\ Forall (fun c => 1 <= lo c /\ from <= lo c /\ hi c <= to) l /\ Forall wf l /\ StronglySorted before l.

Lemma remaining_cons from c l to :
  remaining from (c :: l) to -> (1 <= lo c /\ lo c <= hi c /\ hi c <= to) /\ Forall (fun x => hi c + 1 <= lo x) l /\ remaining (hi c + 1) l to.
Proof using.
  intros (Hf & Hr & Hw & Hs). apply Forall_cons in Hr as [Hc Hr]. apply Forall_cons in Hw as [Hcw Hw].
  apply StronglySorted_inv in Hs as [Hs Hb]. pose proof (wf_range _ Hcw) as [Hcr _].
  assert (Forall (fun x => hi c + 1 <= lo x) l) as Hl by (eapply Forall_impl; [exact Hb|]; unfold before; lia).
  split; [lia|]. split; [done|]. split; [lia|]. split; [|done].
  rewrite Forall_forall in Hr, Hl |- *. intros x Hx. specialize (Hr x Hx). specialize (Hl x Hx). simpl in *. lia.
Qed.


(** The children of a well-formed resource, unless the first starts at 0. *)
Lemma wf_remaining p d ks :
  wf (RT p d ks) -> match ks with c :: _ => lo c <> 0 | [] => True end -> remaining (r_lo d) ks (r_hi d).
Proof using.
  intros Hw H0. destruct (wf_range _ Hw) as [Hr _]. destruct (wf_kids _ Hw) as [[Ha Hs] Hks]. cbn [data kids] in *.
  split; [lia|]. split; [|done]. destruct ks as [|c l]; [constructor|].
  pose proof Hks as [Hc _]%Forall_cons. destruct (wf_range _ Hc) as [Hcr _].
  apply StronglySorted_inv in Hs as [_ Hb]. rewrite Forall_forall in Ha, Hb |- *. intros x Hx.
  pose proof (Ha x Hx). apply elem_of_cons in Hx as [->|Hx]; [lia|]. specialize (Hb x Hx). unfold before in Hb. lia.
Qed.

Lemma wf_remaining_0 p d c l : wf (RT p d (c :: l)) -> remaining (hi c + 1) l (r_hi d).
Proof using.
  intros Hw. destruct (wf_kids _ Hw) as [[Ha Hs] Hks]. cbn [data kids] in *.
  apply Forall_cons in Hks as [Hc Hks]. destruct (wf_range _ Hc) as [Hcr _].
  apply StronglySorted_inv in Hs as [Hs Hb]. apply Forall_cons in Ha as [Hca Ha]. split; [lia|]. split; [|done].
  rewrite Forall_forall in Ha, Hb |- *. intros x Hx. specialize (Ha x Hx). specialize (Hb x Hx). unfold before in Hb. simpl in *. lia.
Qed.

Lemma no_hole_0 from a : ~ suits a from (0 - 1).
Proof using Hsize Hmin Hmax. intros (_ & H1 & H2). lia. Qed.
End hole.
