(* ===== verification/ResourceTheorems.v ===== *)
(** * Resources: the search for a free range, and the theorems *)
From S2P Require Import Prelude.
From S2P Require Import Heap.
From S2P Require Import HeapLogic.
From S2P Require Import Resource.
From S2P Require Import ResourceSpec.
From S2P Require Import ResourceCalls.
From S2P Require Import ResourceMore.
From S2P Require Import ResourceAlloc.

Open Scope Z_scope.

Definition at_range (v : resource) (a b : Z) : resource := v <| start := a |> <| end_ := b |>.

Local Arguments fit : simpl never.
Local Arguments at_range : simpl never.

Section find.
Context (size min max k : Z).
Context (Hsize : 2 <= size) (Hk : 0 <= k < 32) (Hmin : 0 <= min) (Hmax : 0 <= max < 2 ^ 32) (Hmin' : min + 2 ^ k <= 2 ^ 32).

Context `{!memGS resource unit Σ}.

Abbreviation lowest' := (lowest size min max k).
Abbreviation none_suits' := (none_suits size min max k).

(** What one round leaves in the new resource. *)
Lemma fit_found from hi v :
  0 <= from <= 2 ^ 32 - 2 ^ k -> hi < 2 ^ 32 - 1 -> fits size (fit None size min max (2 ^ k) from hi v) = true ->
  let a := round_up (Z.max from min) k in
  suits size min max k a from hi /\
  (fit None size min max (2 ^ k) from hi v) <| end_ := u32 (start (fit None size min max (2 ^ k) from hi v) + size - 1) |>
  = at_range v a (a + size - 1).
Proof using All.
  intros Hf Hh Hfit a. apply fits_spec in Hfit; try lia. split; [done|]. rw fit_bounds; try lia.
  destruct Hfit as (_ & H1 & H2). fold a in H1, H2. destruct v. unfold at_range. cbn -[round_up]. fold a. rw u32_small //. lia.
Qed.

Lemma fit_none from hi v :
  0 <= from <= 2 ^ 32 - 2 ^ k -> hi < 2 ^ 32 - 1 -> fits size (fit None size min max (2 ^ k) from hi v) = false ->
  (forall a, ~ suits size min max k a from hi) /\
  exists a b, fit None size min max (2 ^ k) from hi v = at_range v a b.
Proof using All.
  intros Hf Hh Hfit. split; [|eexists _, _; apply fit_bounds; lia].
  intros a [Ha _]%suits_least; [|done]. apply fits_spec with (v := v) in Ha; [congruence|lia..].
Qed.

Lemma iwp_find_loop fuel p d par sib l1 l2 x v (Q : Z -> iProp Σ) :
  (length l2 <= fuel)%nat -> remaining (start v) l2 (r_hi d) -> r_hi d + 1 + 2 ^ k <= 2 ^ 32 ->
  spine p d par sib l1 (headp l2 None) -∗ ichain (Some p) l2 None -∗ x ↦ v -∗
  ((∀ a, ⌜lowest' a (start v) l2 (r_hi d)⌝ -∗ irt par sib (RT p d (l1 ++ l2)) -∗ x ↦ at_range v a (a + size - 1) -∗ Q 0) ∧
   (∀ a b, ⌜none_suits' (start v) l2 (r_hi d)⌝ -∗ irt par sib (RT p d (l1 ++ l2)) -∗ x ↦ at_range v a b -∗ Q (- EBUSY))) -∗
  iwp (find_loop None size min max (2 ^ k) fuel (Some p) (Some x) (headp l2 None)) Q.
Proof using All.
  assert (0 < 2 ^ k) as Hp by (apply Z.pow_pos_nonneg; lia).
  revert l1 l2 v. induction fuel as [|fuel IH]; intros l1 [|c l2] v Hf Hr Hw; simpl in Hf; try lia; iIntros "S L X Q"; cbn [find_loop headp].
  1, 2: destruct Hr as (Hfrom & _); do_get "X"; iDestruct "S" as "[P S]"; iApply iwp_bind; do_get "P"; iApply iwp_ret; simpl;
    do_set "X"; iAssert (irt par sib (RT p d (l1 ++ []))) with "[P S]" as "T"; [rw app_nil_r irt_spine /spine; by iFrame|]; destruct (fits size _) eqn:E.
  1, 3: apply fit_found in E as [Ha Ea]; [|lia..]; do_set "X"; rw Ea; iApply iwp_ret; iDestruct "Q" as "[Q _]";
    iApply ("Q" with "[] T X"); iPureIntro; by apply lowest_last.
  1, 2: apply fit_none in E as [Ha (a & b & Ea)]; [|lia..]; cbv beta; rw Ea; iApply iwp_ret; iDestruct "Q" as "[_ Q]";
    iApply ("Q" with "[] T X"); iPureIntro; by apply none_last.
  pose proof Hr as (Hfrom & _ & Hwf & _). destruct (remaining_cons _ _ _ _ Hr) as ((Hc1 & Hc2 & Hc3) & Hl & Hr').
  destruct Hr' as (Hr1 & Hr2 & Hr3 & Hr4).
  do_get "X". iEval (rw ichain_cons irt_node) in "L". iDestruct "L" as "[[C K] L]". iApply iwp_bind. do_get "C". iApply iwp_ret. simpl.
  do_set "X". rw (u32_small (lo c - 1)); [|lia]. destruct (fits size _) eqn:E.
  - apply fit_found in E as [Ha Ea]; [|lia..]. do_set "X". rw Ea. iApply iwp_ret. iDestruct "Q" as "[Q _]".
    iApply ("Q" with "[] [S L C K] X"); [iPureIntro; by apply lowest_first|]. rw irt_kid irt_node. iFrame.
  - apply fit_none in E as [Ha (a & b & Ea)]; [|lia..]. cbv beta. rw Ea. do_get "C". do_set "X". simpl.
    rw (u32_small (hi c + 1)); [|lia].
    iApply (IH (l1 ++ [c]) l2 _ with "[S C K] L X"); [lia|by split|done|rw spine_app ichain_cons ichain_nil irt_node /=; by iFrame|].
    rw -app_assoc /=. iSplit.
    + iDestruct "Q" as "[Q _]". iIntros (a' Ha') "T X". iApply ("Q" with "[] T X"). iPureIntro. by apply lowest_skip.
    + iDestruct "Q" as "[_ Q]". iIntros (a' b' Ha') "T X". iApply ("Q" with "[] T X"). iPureIntro. by apply none_skip.
Qed.

Lemma at_range_mkres n par sib a b :
  at_range (mkres (data n) par sib (headp (kids n) None)) a b =
  mkres (data (resized n a b)) par sib (headp (kids n) None).
Proof using. done. Qed.

Lemma irt_resized n par sib a b :
  irt par sib (resized n a b) ⊣⊢
    ptr n ↦ at_range (mkres (data n) par sib (headp (kids n) None)) a b ∗ ichain (Some (ptr n)) (kids n) None.
Proof using. by rw at_range_mkres /resized irt_node. Qed.

Lemma iwp_find_resource p d par sib ks n px sx (Q : Z -> iProp Σ) :
  wf (RT p d ks) -> r_hi d + 1 + 2 ^ k <= 2 ^ 32 ->
  irt par sib (RT p d ks) -∗ irt px sx n -∗
  ((∀ a, ⌜lowest' a (r_lo d) ks (r_hi d)⌝ -∗ irt par sib (RT p d ks) -∗ irt px sx (resized n a (a + size - 1)) -∗ Q 0) ∧
   (∀ a b, ⌜none_suits' (r_lo d) ks (r_hi d)⌝ -∗ irt par sib (RT p d ks) -∗ irt px sx (resized n a b) -∗ Q (- EBUSY))) -∗
  iwp (find_resource None size min max (2 ^ k) (Some p) (Some (ptr n))) Q.
Proof using All.
  iIntros (Hw Hend) "T N Q". iEval (rw irt_node) in "N". iDestruct "N" as "[N NK]".
  iAssert ((∀ a, ⌜lowest' a (r_lo d) ks (r_hi d)⌝ -∗ irt par sib (RT p d ks) -∗
      ptr n ↦ at_range (mkres (data n) px sx (headp (kids n) None)) a (a + size - 1) -∗ Q 0) ∧
    (∀ a b, ⌜none_suits' (r_lo d) ks (r_hi d)⌝ -∗ irt par sib (RT p d ks) -∗
      ptr n ↦ at_range (mkres (data n) px sx (headp (kids n) None)) a b -∗ Q (- EBUSY)))%I with "[Q NK]" as "Q".
  { iSplit.
    - iDestruct "Q" as "[Q _]". iIntros (a Ha) "T N". iApply ("Q" with "[//] T"). rw irt_resized. iFrame.
    - iDestruct "Q" as "[_ Q]". iIntros (a b Ha) "T N". iApply ("Q" with "[//] T"). rw irt_resized. iFrame. }
  generalize (mkres (data n) px sx (headp (kids n) None)) => v. generalize (ptr n) => x.
  unfold find_resource. iEval (rw irt_spine) in "T". iDestruct "T" as "[P L]". do_get "P". do_set "N". simpl.
  assert (forall l, (length l <= length (chain (Some p) l None))%nat) as Hlen by (intros; apply length_chain).
  destruct ks as [|c l]; cbn [headp].
  - iApply iwp_bind. iApply iwp_ret. iApply iwp_bind. iApply (iwp_fuel with "L"). iIntros (fuel Hf) "L".
    iApply (iwp_find_loop fuel p d par sib [] [] x with "[P] L N"); [simpl; lia|by apply (wf_remaining p)|done|rw /spine ichain_nil; by iFrame|].
    iApply "Q".
  - iEval (rw ichain_cons irt_node) in "L". iDestruct "L" as "[[C K] L]". iApply iwp_bind. do_get "C". simpl.
    destruct (Z.eqb_spec (lo c) 0) as [E0|E0].
    + do_set "N". iApply iwp_ret. iApply iwp_bind. iApply (iwp_fuel with "L"). iIntros (fuel Hf) "L".
      pose proof (wf_remaining_0 _ _ _ _ Hw) as Hrem. specialize (Hlen l). rw (u32_small (hi c + 1)); [|destruct Hrem; lia].
      iApply (iwp_find_loop fuel p d par sib [c] l x with "[P C K] L N"); [lia|done|done|rw /spine ichain_cons ichain_nil irt_node /=; by iFrame|].
      iSplit.
      * iDestruct "Q" as "[Q _]". iIntros (a Ha) "T N". iApply ("Q" with "[] T N"). iPureIntro. apply lowest_skip; [|done].
        rw E0. intros. by apply no_hole_0.
      * iDestruct "Q" as "[_ Q]". iIntros (a b Ha) "T N". iApply ("Q" with "[] T N"). iPureIntro. apply none_skip; [|done].
        rw E0. intros. by apply no_hole_0.
    + iApply iwp_ret. iApply iwp_bind. iAssert (ichain (Some p) (c :: l) None) with "[C K L]" as "L"; [rw ichain_cons irt_node; iFrame|].
      iApply (iwp_fuel with "L"). iIntros (fuel Hf) "L". specialize (Hlen (c :: l)).
      iApply (iwp_find_loop fuel p d par sib [] (c :: l) x with "[P] L N"); [lia|by apply (wf_remaining p)|done|rw /spine ichain_nil; by iFrame|].
      iApply "Q".
Qed.

(** The range found is free. *)
Lemma lowest_free p d ks n a :
  wf (RT p d ks) -> lowest' a (r_lo d) ks (r_hi d) ->
  inside (resized n a (a + size - 1)) d /\ Forall (disjoint (resized n a (a + size - 1))) ks.
Proof using All.
  intros Hw [(g & Hg & Ha) _]. destruct (wf_kids _ Hw) as [[Hr Hs] Hks]. cbn [data kids] in *.
  destruct Ha as (_ & H1 & H2).
  destruct (proj1 (gaps_free a (a + size - 1) (r_lo d) ks (r_hi d) ltac:(lia) Hr Hks Hs)) as (H3 & H4 & H5).
  { exists g. split; [done|lia]. }
  split; [split; simpl; lia|]. eapply Forall_impl; [exact H5|]. unfold disjoint, before. simpl. done.
Qed.

Lemma iwp_allocate_resource p d par sib ks n px sx (Q : Z -> iProp Σ) :
  wf (RT p d ks) -> r_hi d + 1 + 2 ^ k <= 2 ^ 32 ->
  irt par sib (RT p d ks) -∗ irt px sx n -∗
  ((∀ a t', ⌜lowest' a (r_lo d) ks (r_hi d) /\ granted (fun _ => False) (resized n a (a + size - 1)) (RT p d ks) t'⌝ -∗
      irt par sib t' -∗ Q 0) ∧
   (⌜none_suits' (r_lo d) ks (r_hi d)⌝ -∗ irt par sib (RT p d ks) -∗ Q (- EBUSY))) -∗
  iwp (allocate_resource None size min max (2 ^ k) (Some p) (Some (ptr n))) Q.
Proof using All.
  iIntros (Hw Hend) "T N Q". iApply iwp_bind. iApply (iwp_find_resource with "T N"); [done..|]. iSplit.
  - iIntros (a Ha) "T N". destruct (lowest_free p d ks n a Hw Ha) as [Hin Hfree]. simpl. iApply iwp_bind.
    change (ptr n) with (ptr (resized n a (a + size - 1))).
    iApply (iwp___request_resource with "T N"). iSplit; [|iSplit].
    + iDestruct "Q" as "[Q _]". iIntros (la lb (_ & -> & Hp)) "T". iApply iwp_ret. iApply ("Q" with "[] T").
      iPureIntro. split; [done|]. by constructor.
    + iIntros (la c lb (_ & -> & [_ Hc])) "_ _". destruct Hc. apply Forall_app in Hfree as [_ [Hc _]%Forall_cons]. done.
    + iIntros (Hn) "_ _". done.
  - iIntros (a b Ha) "T N". iApply iwp_ret. iDestruct "Q" as "[_ Q]". iApply ("Q" with "[//] T").
Qed.
End find.

(** ** The resource tree: theorems *)
(** ** The calls *)
Inductive rcall :=
| Request (n : rtree) | Insert (n : rtree) | Release (n : rtree) | ReleaseStray (x : nat) | Adjust (c : rtree) (a size : Z)
| Region (x : nat) (a len : Z) | Check (x : nat) (a len : Z) | FreeRegion (a len : Z).

Definition do_call (root : nat) (c : rcall) : M res_state Z :=
  match c with
  | Request n => request_resource (Some root) (Some (ptr n))
  | Insert n => insert_resource (Some root) (Some (ptr n))
  | Release n => release_resource (Some (ptr n))
  | ReleaseStray x => release_resource (Some x)
  | Adjust c a size => adjust_resource (Some (ptr c)) a size
  | Region x a len => bind (__request_region (Some x) (Some root) a len) (fun r => ret (of_bool (negb (is_null r))))
  | Check x a len => __check_region (Some x) (Some root) a len
  | FreeRegion a len => bind (__release_region (Some root) a len) (fun r => ret (of_bool r))
  end.

(** The memory a call brings: the new resource, a resource that names the root
    as its parent but is not in the tree, or what [kmalloc] returned. *)
Definition brings (c : rcall) (root : nat) (cs : list (nat * resource)) : Prop :=
  match c with
  | Request n | Insert n => exists par sib, cs = rcells par sib n
  | ReleaseStray x => exists v, cs = [(x, v)] /\ parent v = Some root
  | Region x _ _ | Check x _ _ => exists v, cs = [(x, v)]
  | _ => cs = []
  end.

(** What the caller owes: 32-bit addresses, children only where they are
    allowed, resources of the tree. *)
Definition allowed (c : rcall) (t : rtree) : Prop :=
  match c with
  | Request n => lo n <= hi n -> wf n
  | Insert n => (lo n <= hi n -> wf n) /\ kids n = []
  | Release n => exists t', removed n t t'
  | ReleaseStray _ => True
  | Adjust c a size => c ∈ kids t /\ 0 <= a <= u32 (a + size - 1)
  | Region _ a _ | Check _ a _ => 0 <= a
  | FreeRegion _ _ => True
  end.

Abbreviation nowhere := (fun _ : rtree => False).
Abbreviation not_busy := (fun c => ~ busy c).

(** The specification: result and new tree. *)
Definition outcome (c : rcall) (t : rtree) (r : Z) (t' : rtree) : Prop :=
  match c with
  | Request n => (r = 0 /\ granted nowhere n t t') \/ (r = - EBUSY /\ refused nowhere n t /\ t' = t)
  | Insert n => (r = 0 /\ inserted n t t') \/ (r = - EBUSY /\ unplaced n t /\ t' = t)
  | Release n => r = 0 /\ removed n t t'
  | ReleaseStray _ => r = - EINVAL /\ t' = t
  | Adjust c a size => exists la lb, kids t = la ++ c :: lb /\
      ((r = 0 /\ adjustable a (u32 (a + size - 1)) (data t) la c lb /\
        t' = RT (ptr t) (data t) (la ++ resized c a (u32 (a + size - 1)) :: lb)) \/
       (r = - EBUSY /\ ~ adjustable a (u32 (a + size - 1)) (data t) la c lb /\ t' = t))
  | Region x a len => (r = 1 /\ granted not_busy (region x a len) t t') \/ (r = 0 /\ refused not_busy (region x a len) t /\ t' = t)
  | Check x a len => t' = t /\ ((r = 0 /\ exists t'', granted not_busy (region x a len) t t'') \/
      (r = - EBUSY /\ refused not_busy (region x a len) t))
  | FreeRegion a len => (r = 1 /\ freed a (u32 (a + len - 1)) t t') \/ (r = 0 /\ missing a (u32 (a + len - 1)) t /\ t' = t)
  end.

Lemma region_wf x a len d : 0 <= a -> inside (region x a len) d -> wf (region x a len).
Proof.
  intros Ha (H & _). simpl in H. pose proof (u32_range (a + len - 1)). constructor; simpl; [lia|lia| |constructor].
  split; constructor.
Qed.

Lemma granted_inside down n t t' : granted down n t t' -> inside n (data t).
Proof. by destruct 1. Qed.
Lemma inserted_inside n t t' : inserted n t t' -> inside n (data t).
Proof. by destruct 1. Qed.

(** Every outcome keeps the tree well formed. *)
Lemma outcome_wf c t r t' : allowed c t -> outcome c t r t' -> wf t -> wf t'.
Proof.
  destruct c as [n|n|n|x|c a size|x a len|x a len|a len]; simpl; intros Hc.
  - intros [[_ Hg]|(_ & _ & ->)] Hw; [|done]. destruct (granted_inside _ _ _ _ Hg) as [Hi _].
    by eapply granted_wf; [apply Hc|done|].
  - intros [[_ Hg]|(_ & _ & ->)] Hw; [|done]. destruct (inserted_inside _ _ _ Hg) as [Hi _]. destruct Hc as [Hc Hk].
    by eapply inserted_wf; [apply Hc|done..|].
  - intros [_ Hr]. by eapply removed_wf.
  - by intros [_ ->].
  - intros (la & lb & E & [(_ & Ha & ->)|(_ & _ & ->)]) Hw; [|done]. destruct t as [p d ks]. simpl in *. subst ks.
    by apply resized_wf; [apply Hc|..].
  - intros [[_ Hg]|(_ & _ & ->)] Hw; [|done]. eapply granted_wf; [|exact Hg|done].
    by eapply region_wf, granted_inside.
  - by intros [-> _].
  - intros [[_ Hf]|(_ & _ & ->)] Hw; [|done]. destruct (freed_removed _ _ _ _ Hf) as (c & Hr & _). by eapply removed_wf.
Qed.

Section run.
Context `{!memGS resource unit Σ}.

Lemma iwp_call c t par sib cs (Q : Z -> iProp Σ) :
  brings c (ptr t) cs -> allowed c t ->
  irt par sib t -∗ cells cs -∗ (∀ r t', ⌜outcome c t r t'⌝ -∗ irt par sib t' -∗ Q r) -∗
  iwp (do_call (ptr t) c) Q.
Proof.
  intros Hb Hc. iIntros "T C Q". destruct c as [n|n|n|x|c a size|x a len|x a len|a len]; simpl in *.
  - destruct Hb as (px & sx & ->). iApply (iwp_request_resource with "T C"). iSplit.
    + iIntros (t' Hg) "T". iApply ("Q" with "[] T"). iPureIntro. by left.
    + iIntros (Hr) "T _". iApply ("Q" with "[] T"). iPureIntro. by right.
  - destruct Hb as (px & sx & ->), Hc as [_ Hk]. iApply (iwp_insert_resource with "T C"); [done|]. iSplit.
    + iIntros (t' Hg) "T". iApply ("Q" with "[] T"). iPureIntro. by left.
    + iIntros (Hr) "T _". iApply ("Q" with "[] T"). iPureIntro. by right.
  - destruct Hc as [t' Hr]. iApply (iwp_release_resource with "T"); [done|]. iIntros (y) "T _". by iApply ("Q" with "[] T").
  - destruct Hb as (v & -> & Hv). iDestruct "C" as "[X _]". iApply (iwp_release_stray with "T X"); [done|]. iIntros "T". by iApply ("Q" with "[] T").
  - destruct Hc as [(la & lb & E)%list_elem_of_split _]. destruct t as [p d ks]. simpl in E. subst ks.
    iApply (iwp_adjust_resource with "T"). iSplit.
    + iIntros (Ha) "T". iApply ("Q" with "[] T"). iPureIntro. exists la, lb. split; [done|by left].
    + iIntros (Ha) "T". iApply ("Q" with "[] T"). iPureIntro. exists la, lb. split; [done|by right].
  - destruct Hb as [v ->]. iDestruct "C" as "[X _]". iApply iwp_bind. iApply (iwp___request_region with "T X"). iSplit.
    + iIntros (t' Hg) "T". iApply iwp_ret. iApply ("Q" with "[] T"). iPureIntro. by left.
    + iIntros (Hr) "T _". iApply iwp_ret. iApply ("Q" with "[] T"). iPureIntro. by right.
  - destruct Hb as [v ->]. iDestruct "C" as "[X _]". iApply (iwp___check_region with "T X").
    iIntros (r Hr) "T". iApply ("Q" with "[] T"). iPureIntro. split; [done|]. naive_solver.
  - iApply iwp_bind. iApply (iwp___release_region with "T"). iSplit.
    + iIntros (t' Hf) "T". iApply iwp_ret. iApply ("Q" with "[] T"). iPureIntro. by left.
    + iIntros (Hm) "T". iApply iwp_ret. iApply ("Q" with "[] T"). iPureIntro. by right.
Qed.
End run.

(** C39 (refinement): on a well-formed resource tree in memory every call
    that its caller may make returns, with the result and the tree its
    specification gives: a request is granted exactly at a free place, or
    refused and nothing changes, and so on; a resource that names the root as
    its parent but is not among its children is refused with [-EINVAL]; the
    tree stays well formed, so that siblings never overlap, and no other memory
    changes.  Callers may not release a resource without a parent, whose parent
    pointer is dereferenced ([release_unlinked_oopses]), nor adjust one to an
    empty or wrapped range, which is stored as it is ([adjusted_to_nothing]);
    what they insert has no children, and their addresses are 32-bit ones. *)
Theorem resource_calls_refine s par sib t c cs :
  holds (heap s) (rcells par sib t ++ cs) -> brings c (ptr t) cs -> wf t -> allowed c t ->
  exists r s' t', do_call (ptr t) c s = Some (r, s') /\ outcome c t r t' /\ wf t' /\ in_memory s' par sib t' /\
    kept (rcells par sib t ++ cs).*1 s s'.
Proof.
  intros Hm Hb Hw Hc.
  enough (exists r s', do_call (ptr t) c s = Some (r, s') /\ exists t', outcome c t r t' /\ in_memory s' par sib t' /\
    kept (rcells par sib t ++ cs).*1 s s') as (r & s' & E & t' & Ho & Ht' & Hk).
  { exists r, s', t'. do 2 (split; [done|]); split; [by eapply outcome_wf|done]. }
  apply wp_run, (adequacy _ s _ _ Hm). iIntros (Σ mG) "L _". rw /cells big_sepL_app. iDestruct "L" as "[T C]".
  iApply (iwp_call c t par sib cs with "T C"); [done..|]. iIntros (r t' Ho) "T". iIntros (s') "I".
  iDestruct (cells_holds with "I T") as %Ht'. iPureIntro. eauto.
Qed.

(** ** Allocation *)

(** An aligned range of the wanted size at [a] between the bounds that is
    free in [t]. *)
Definition available (size min max k : Z) (t : rtree) (a : Z) : Prop :=
  (2 ^ k | a) /\ min <= a /\ a + size - 1 <= max /\ lo t <= a /\ a + size - 1 <= hi t /\
  Forall (fun c => a + size - 1 < lo c \/ hi c < a) (kids t).

Lemma available_suits size min max k t a :
  2 <= size -> wf t ->
  available size min max k t a <-> exists g, g ∈ gaps (lo t) (kids t) (hi t) /\ suits size min max k a g.1 g.2.
Proof.
  intros Hs Hw. destruct (wf_kids _ Hw) as [[Hr Hst] Hks]. unfold available, suits.
  pose proof (gaps_free a (a + size - 1) (lo t) (kids t) (hi t) ltac:(lia) Hr Hks Hst) as Hg. split.
  - intros (H1 & H2 & H3 & H4 & H5 & H6). destruct (proj2 Hg ltac:(done)) as (g & Hin & H7 & H8).
    exists g. split; [done|]. split; [done|]. lia.
  - intros (g & Hin & H1 & H2 & H3). destruct (proj1 Hg) as (H4 & H5 & H6); [exists g; split; [done|lia]|].
    split_and!; [done|lia|lia|done|done|done].
Qed.

(** C40 (functional): [allocate_resource] without an alignment callback, for
    at least two addresses and an alignment 2^k, gives the lowest aligned free
    range of the size between the bounds and enters it in the tree, or fails
    with [-EBUSY] when there is none, and then changes no resource of the tree.
    The minimum and the end of the root must be so far below 2^32 that rounding
    up to the alignment does not wrap, which excludes roots that reach the end
    of the address space, such as [iomem_resource]: there, and for a single
    address, the code does otherwise ([whole_space_refused],
    [one_address_refused], [allocated_below_minimum]). *)
Theorem allocate_resource_correct s par sib t n px sx size min max k :
  holds (heap s) (rcells par sib t ++ rcells px sx n) -> wf t -> kids n = [] ->
  2 <= size -> 0 <= k < 32 -> 0 <= min -> 0 <= max < 2 ^ 32 -> min + 2 ^ k <= 2 ^ 32 -> hi t + 1 + 2 ^ k <= 2 ^ 32 ->
  exists r s', allocate_resource None size min max (2 ^ k) (Some (ptr t)) (Some (ptr n)) s = Some (r, s') /\
    kept (rcells par sib t ++ rcells px sx n).*1 s s' /\
    ((r = 0 /\ exists a t', available size min max k t a /\ (forall a', available size min max k t a' -> a <= a') /\
        granted nowhere (resized n a (a + size - 1)) t t' /\ wf t' /\ in_memory s' par sib t') \/
     (r = - EBUSY /\ (forall a, ~ available size min max k t a) /\ in_memory s' par sib t)).
Proof.
  intros Hm Hw Hn Hsize Hk Hmin Hmax Hmin' Hend. destruct t as [p d ks].
  enough (wp (allocate_resource None size min max (2 ^ k) (Some p) (Some (ptr n))) (fun r s' =>
    kept (rcells par sib (RT p d ks) ++ rcells px sx n).*1 s s' /\
    ((r = 0 /\ exists a t', lowest size min max k a (r_lo d) ks (r_hi d) /\
        granted nowhere (resized n a (a + size - 1)) (RT p d ks) t' /\ in_memory s' par sib t') \/
     (r = - EBUSY /\ none_suits size min max k (r_lo d) ks (r_hi d) /\ in_memory s' par sib (RT p d ks)))) s) as H.
  { destruct (wp_run _ _ _ H) as (r & s' & E & Hk' & Ho). exists r, s'. split; [done|]. split; [done|].
    pose proof (fun a => available_suits size min max k (RT p d ks) a Hsize Hw) as Hav. simpl in Hav.
    destruct Ho as [(-> & a & t' & [Ha Hl] & Hg & Ht')|(-> & Hno & Ht')]; [left|right]; (split; [done|]).
    - exists a, t'. split; [by apply Hav|]. split; [intros a' (g & Hin & Hs)%Hav; eauto|]. split; [done|]. split; [|done].
      eapply granted_wf; [|done..]. apply granted_inside in Hg as (H1 & H2 & H3). pose proof (wf_range _ Hw).
      simpl in *.
      constructor; simpl; [lia|lia| |by rw Hn]. rw Hn. split; constructor.
    - split; [|done]. intros a (g & Hin & Hs)%Hav. by apply (Hno a g). }
  apply (adequacy _ s _ _ Hm). iIntros (Σ mG) "L _". rw /cells big_sepL_app. iDestruct "L" as "[T N]".
  iApply (iwp_allocate_resource with "T N"); [done..|]. iSplit.
  - iIntros (a t' [Ha Hg]) "T". iIntros (s') "I". iDestruct (cells_holds with "I T") as %Ht'. iPureIntro.
    intros Hk'. split; [done|]. left. eauto 10.
  - iIntros (Hno) "T". iIntros (s') "I". iDestruct (cells_holds with "I T") as %Ht'. iPureIntro. intros Hk'. split; [done|]. by right.
Qed.

(** ** Witnesses *)

(** 64K ports, of which 16 to 31 are busy. *)
Definition ports : rtree :=
  RT 1 {| r_lo := 0; r_hi := 65535; r_flags := 0 |} [RT 2 {| r_lo := 16; r_hi := 31; r_flags := IORESOURCE_BUSY |} []].
Definition new_range : rtree := RT 3 {| r_lo := 32; r_hi := 47; r_flags := 0 |} [].
Definition ports_memory : res_state :=
  Build_mem (list_to_map (rcells None None ports ++ rcells None None new_range)) tt.

Lemma ports_memory_holds : holds (heap ports_memory) (rcells None None ports ++ rcells None None new_range).
Proof. apply holds_intro; [by apply (bool_decide_unpack _)|]. repeat constructor. Qed.

Lemma ports_wf : wf ports.
Proof.
  repeat constructor; simpl; lia.
Qed.

Lemma resource_calls_refine_witness :
  exists r s' t', do_call 1 (Request new_range) ports_memory = Some (r, s') /\ outcome (Request new_range) ports r t' /\ wf t' /\
    in_memory s' None None t'.
Proof.
  destruct (resource_calls_refine ports_memory None None ports (Request new_range) (rcells None None new_range))
    as (r & s' & t' & H1 & H2 & H3 & H4 & _).
  - exact ports_memory_holds.
  - exists None, None. reflexivity.
  - exact ports_wf.
  - intros _. repeat constructor; simpl; lia.
  - exists r, s', t'. exact (conj H1 (conj H2 (conj H3 H4))).
Defined.

(** 32 ports, aligned to 16, from 8 on. *)
Lemma allocate_resource_correct_witness :
  exists r s', allocate_resource None 32 8 65535 (2 ^ 4) (Some 1%nat) (Some 3%nat) ports_memory = Some (r, s') /\
    ((r = 0 /\ exists a, available 32 8 65535 4 ports a) \/ r = - EBUSY).
Proof.
  destruct (allocate_resource_correct ports_memory None None ports new_range None None 32 8 65535 4) as (r & s' & E & _ & Ho).
  - exact ports_memory_holds.
  - exact ports_wf.
  - reflexivity.
  - lia.
  - lia.
  - lia.
  - lia.
  - lia.
  - simpl. lia.
  - exists r, s'. split; [exact E|]. destruct Ho as [(H1 & a & t' & H2 & _)|(H1 & _)]; [left; eauto|right; exact H1].
Defined.

(** ** Corner cases

    What the hypotheses of the theorems exclude, evaluated. *)
Definition result (r : option (Z * res_state)) : option Z := fst <$> r.
Definition resource_at (p : nat) (r : option (Z * res_state)) : option resource := r ≫= fun x => heap (snd x) !! p.
Definition memory_with (t : rtree) : res_state := Build_mem (list_to_map (rcells None None t ++ rcells None None new_range)) tt.

(** Nothing can be allocated from an empty 32-bit address space: its size
    wraps to 0. *)
Example whole_space_refused :
  result (allocate_resource None 4096 0 4294967295 4096 (Some 1%nat) (Some 3%nat)
    (memory_with (RT 1 {| r_lo := 0; r_hi := 4294967295; r_flags := 0 |} []))) = Some (- EBUSY).
Proof. vm_compute. reflexivity. Qed.

(** A hole of one address is not used. *)
Example one_address_refused :
  result (allocate_resource None 1 0 65535 1 (Some 1%nat) (Some 3%nat)
    (memory_with (RT 1 {| r_lo := 5; r_hi := 5; r_flags := 0 |} []))) = Some (- EBUSY).
Proof. vm_compute. reflexivity. Qed.

(** When the rounding wraps, the range is below the minimum. *)
Example allocated_below_minimum :
  (fun r => (start r, end_ r)) <$> resource_at 3 (allocate_resource None 16 4294967291 4294967295 16 (Some 1%nat) (Some 3%nat)
    (memory_with (RT 1 {| r_lo := 0; r_hi := 4294967295; r_flags := 0 |}
      [RT 2 {| r_lo := 4294967040; r_hi := 4294967290; r_flags := 0 |} []]))) = Some (0, 15).
Proof. vm_compute. reflexivity. Qed.

(** A resource can be adjusted to end before it starts. *)
Example adjusted_to_nothing :
  (fun r => (start r, end_ r)) <$> resource_at 2 (adjust_resource (Some 2%nat) 40 0 ports_memory) = Some (40, 39).
Proof. vm_compute. reflexivity. Qed.

(** Releasing a resource that is in no tree dereferences NULL. *)
Example release_unlinked_oopses : release_resource (Some 3%nat) ports_memory = None.
Proof. vm_compute. reflexivity. Qed.
