(* ===== verification/Buddy.v ===== *)
(** * mm/page_alloc.c: the buddy allocator of a zone

    A zone has an array of pages; a [struct page *] is its index in
    [zone_mem_map].  The lists of free blocks and of the per-CPU caches are
    lists of pages, the first page of a block for the block; a page is linked
    in by [list_add] and out by [list_del].  [None] is a [BUG()], an access
    outside an array, or [list_del] of a page that is on no list.  The
    configuration is the one of the target: an MMU, one CPU, no huge pages, no
    NUMA.  Every operation below runs under the zone's lock or with
    interrupts off. *)
From S2P Require Import Prelude.

Definition MAX_ORDER : nat := 11.

(** ** Data *)

(** [struct page]; the zone number in the upper bits of the flags is a field of
    its own. *)
Record page := {
  flags : Z;
  page_zone : Z;
  _count : Z;
  _mapcount : Z;
  mapping : Z;
  private : Z
}.
#[export] Instance eta_page : Eta page := fun p =>
  {| flags := flags p; page_zone := page_zone p; _count := _count p; _mapcount := _mapcount p;
     mapping := mapping p; private := private p |}.

Definition PG_locked : Z := 0.
Definition PG_error : Z := 1.
Definition PG_referenced : Z := 2.
Definition PG_uptodate : Z := 3.
Definition PG_dirty : Z := 4.
Definition PG_lru : Z := 5.
Definition PG_active : Z := 6.
Definition PG_slab : Z := 7.
Definition PG_checked : Z := 9.
Definition PG_arch_1 : Z := 10.
Definition PG_reserved : Z := 11.
Definition PG_private : Z := 12.
Definition PG_writeback : Z := 13.
Definition PG_swapcache : Z := 16.
Definition PG_mappedtodisk : Z := 17.
Definition PG_reclaim : Z := 18.

(** [1 << a | 1 << b | ...] *)
Definition bits (l : list Z) : Z := foldr (fun b m => Z.lor (Z.shiftl 1 b) m) 0 l.

Record free_area := { free_list : list Z; area_map : list bool }.
#[export] Instance eta_free_area : Eta free_area := fun a => {| free_list := free_list a; area_map := area_map a |}.

Record per_cpu_pages := { count : Z; low : Z; high : Z; batch : Z; plist : list Z }.
#[export] Instance eta_per_cpu_pages : Eta per_cpu_pages := fun p =>
  {| count := count p; low := low p; high := high p; batch := batch p; plist := plist p |}.

(** [struct zone] as far as the allocator uses it; [pcp] are the hot and the
    cold cache of the CPU, [pgalloc] and [pgfree] its counters; [bad_reports]
    counts the reports of [bad_page] in the kernel log. *)
Record zone := {
  free_pages : Z;
  all_unreclaimable : Z;
  pages_scanned : Z;
  zone_id : Z;
  zone_start_pfn : Z;
  spanned_pages : Z;
  free_areas : list free_area;
  pcp : list per_cpu_pages;
  mem_map : list page;
  pgalloc : Z;
  pgfree : Z;
  bad_reports : Z
}.
#[export] Instance eta_zone : Eta zone := fun z =>
  {| free_pages := free_pages z; all_unreclaimable := all_unreclaimable z; pages_scanned := pages_scanned z;
     zone_id := zone_id z; zone_start_pfn := zone_start_pfn z; spanned_pages := spanned_pages z;
     free_areas := free_areas z; pcp := pcp z; mem_map := mem_map z; pgalloc := pgalloc z; pgfree := pgfree z;
     bad_reports := bad_reports z |}.

(** ** Access *)
Definition get_page (p : Z) : M zone page :=
  o ← gets (fun z => if p <? 0 then None else mem_map z !! Z.to_nat p); deref o.
Definition set_page (p : Z) (f : page -> page) : M zone unit :=
  _ ← get_page p; modify (fun z => z <| mem_map := alter f (Z.to_nat p) (mem_map z) |>).
Definition get_area (k : nat) : M zone free_area :=
  o ← gets (fun z => free_areas z !! k); deref o.
Definition set_area (k : nat) (f : free_area -> free_area) : M zone unit :=
  _ ← get_area k; modify (fun z => z <| free_areas := alter f k (free_areas z) |>).
Definition get_pcp (c : nat) : M zone per_cpu_pages :=
  o ← gets (fun z => pcp z !! c); deref o.
Definition set_pcp (c : nat) (f : per_cpu_pages -> per_cpu_pages) : M zone unit :=
  _ ← get_pcp c; modify (fun z => z <| pcp := alter f c (pcp z) |>).

Definition BUG_ON (b : bool) : M zone unit := if b then oops else ret tt.

(** [list_add(&page->lru, &area->free_list)] *)
Definition list_add (p : Z) (k : nat) : M zone unit :=
  set_area k (fun a => a <| free_list := p :: free_list a |>).

(** [list_del(&page->lru)]: the page leaves the list it is on. *)
Definition list_del (p : Z) : M zone unit := fun z =>
  if existsb (fun a => bool_decide (p ∈ free_list a)) (free_areas z) || existsb (fun c => bool_decide (p ∈ plist c)) (pcp z)
  then Some (tt, z <| free_areas := (fun a => a <| free_list := filter (fun q => q <> p) (free_list a) |>) <$> free_areas z |>
                   <| pcp := (fun c => c <| plist := filter (fun q => q <> p) (plist c) |>) <$> pcp z |>)
  else None.

(** [__test_and_change_bit(nr, area->map)] *)
Definition __test_and_change_bit (nr : Z) (k : nat) : M zone bool :=
  a ← get_area k;
  b ← deref (area_map a !! Z.to_nat nr);
  set_area k (fun a => a <| area_map := <[Z.to_nat nr := negb b]> (area_map a) |>);;
  ret b.
Definition MARK_USED (index : Z) (order area : nat) : M zone unit :=
  _ ← __test_and_change_bit (Z.shiftr index (1 + Z.of_nat order)) area; ret tt.

(** ** Checks *)
Definition page_count (p : page) : Z := _count p + 1.
Definition page_mapped (p : page) : bool := 0 <=? _mapcount p.
Definition set_page_count (v : Z) (p : page) : page := p <| _count := v - 1 |>.

Definition bad_range (p : Z) : M zone bool :=
  z ← gets (fun z => z);
  let pfn := zone_start_pfn z + p in
  if zone_start_pfn z + spanned_pages z <=? pfn then ret true
  else if pfn <? zone_start_pfn z then ret true
  else pg ← get_page p; ret (negb (zone_id z =? page_zone pg)).

Definition bad_page (p : Z) : M zone unit :=
  modify (fun z => z <| bad_reports := bad_reports z + 1 |>);;
  set_page p (fun pg =>
    pg <| flags := Z.land (flags pg) (Z.lnot (bits [PG_private; PG_locked; PG_lru; PG_active; PG_dirty;
                                                    PG_swapcache; PG_writeback])) |>
       <| _count := -1 |> <| _mapcount := -1 |> <| mapping := 0 |>).

Definition free_pages_check (p : Z) : M zone unit :=
  pg ← get_page p;
  when (page_mapped pg || negb (mapping pg =? 0) || negb (page_count pg =? 0) ||
        truth (Z.land (flags pg) (bits [PG_lru; PG_private; PG_locked; PG_active; PG_reclaim; PG_slab;
                                        PG_swapcache; PG_writeback])))
    (bad_page p);;
  set_page p (fun pg => if Z.testbit (flags pg) PG_dirty then pg <| flags := Z.clearbit (flags pg) PG_dirty |> else pg).

Definition prep_new_page (p : Z) (order : nat) : M zone unit :=
  pg ← get_page p;
  when (truth (mapping pg) || page_mapped pg ||
        truth (Z.land (flags pg) (bits [PG_private; PG_locked; PG_lru; PG_active; PG_dirty; PG_reclaim;
                                        PG_swapcache; PG_writeback])))
    (bad_page p);;
  set_page p (fun pg =>
    pg <| flags := Z.land (flags pg) (Z.lnot (bits [PG_uptodate; PG_error; PG_referenced; PG_arch_1; PG_checked;
                                                    PG_mappedtodisk])) |>
       <| private := 0 |>);;
  set_page p (set_page_count 1).

(** ** Freeing *)

(** The loop of [__free_pages_bulk]: where the block ends up. *)
Fixpoint free_loop (fuel : nat) (page_idx index mask : Z) (area order : nat) : M zone (Z * nat) :=
  if Nat.ltb order (MAX_ORDER - 1) then
    match fuel with
    | O => oops
    | S fuel =>
        BUG_ON (Nat.leb MAX_ORDER area);;
        b ← __test_and_change_bit index area;
        if negb b then ret (page_idx, area) else
        let buddy1 := Z.lxor page_idx (Z.shiftl 1 (Z.of_nat order)) in
        let buddy2 := page_idx in
        bad1 ← bad_range buddy1; BUG_ON bad1;;
        bad2 ← bad_range buddy2; BUG_ON bad2;;
        list_del buddy1;;
        let mask := u32 (Z.shiftl mask 1) in
        free_loop fuel (Z.land page_idx mask) (Z.shiftr index 1) mask (S area) (S order)
    end
  else ret (page_idx, area).

Definition __free_pages_bulk (p : Z) (area order : nat) : M zone unit :=
  let mask := u32 (Z.shiftl (2 ^ 32 - 1) (Z.of_nat order)) in
  let page_idx := p in
  BUG_ON (truth (Z.land page_idx (u32 (Z.lnot mask))));;
  let index := Z.shiftr page_idx (1 + Z.of_nat order) in
  modify (fun z => z <| free_pages := u32 (free_pages z + Z.shiftl 1 (Z.of_nat order)) |>);;
  r ← free_loop MAX_ORDER page_idx index mask area order;
  list_add (fst r) (snd r).

(** The loop of [free_pages_bulk] over the per-CPU list [c], from its end. *)
Fixpoint free_bulk_loop (fuel : nat) (cnt : Z) (c : nat) (order : nat) (done : Z) : M zone Z :=
  l ← (p ← get_pcp c; ret (plist p));
  match last l with
  | None => ret done
  | Some p =>
      if cnt =? 0 then ret done else
      match fuel with
      | O => oops
      | S fuel =>
          list_del p;;
          __free_pages_bulk p order order;;
          free_bulk_loop fuel (cnt - 1) c order (done + 1)
      end
  end.

(** [zone->all_unreclaimable = 0; zone->pages_scanned = 0;] *)
Definition reclaim_reset : M zone unit :=
  modify (fun z => z <| all_unreclaimable := 0 |> <| pages_scanned := 0 |>).

Definition free_pages_bulk (cnt : Z) (c : nat) (order : nat) : M zone Z :=
  reclaim_reset;;
  n ← (p ← get_pcp c; ret (length (plist p)));
  free_bulk_loop n cnt c order 0.

(** [free_pages_bulk] on the list of one block [__free_pages_ok] makes. *)
Definition __free_pages_ok (p : Z) (order : nat) : M zone unit :=
  modify (fun z => z <| pgfree := u32 (pgfree z + Z.shiftl 1 (Z.of_nat order)) |>);;
  for_each (seqZ p (2 ^ Z.of_nat order)) free_pages_check;;
  reclaim_reset;;
  __free_pages_bulk p order order.

(** [get_page(page)->mapping & PAGE_MAPPING_ANON] *)
Definition PageAnon (pg : page) : bool := Z.testbit (mapping pg) 0.

Definition free_hot_cold_page (p : Z) (cold : nat) : M zone unit :=
  modify (fun z => z <| pgfree := u32 (pgfree z + 1) |>);;
  set_page p (fun pg => if PageAnon pg then pg <| mapping := 0 |> else pg);;
  free_pages_check p;;
  c ← get_pcp cold;
  when (high c <=? count c)
    (n ← free_pages_bulk (batch c) cold 0; set_pcp cold (fun c => c <| count := count c - n |>));;
  set_pcp cold (fun c => c <| plist := p :: plist c |> <| count := count c + 1 |>).
Definition free_hot_page (p : Z) : M zone unit := free_hot_cold_page p 0.
Definition free_cold_page (p : Z) : M zone unit := free_hot_cold_page p 1.

Definition __pagevec_free (pages : list Z) (cold : nat) : M zone unit :=
  for_each (rev pages) (fun p => free_hot_cold_page p cold).

(** Drop a reference; [true] when it was the last. *)
Definition put_page_testzero (p : Z) : M zone bool :=
  pg ← get_page p;
  BUG_ON (page_count pg =? 0);;
  set_page p (fun pg => pg <| _count := s32 (_count pg - 1) |>);;
  ret (s32 (_count pg - 1) <? 0).

Definition __free_pages (p : Z) (order : nat) : M zone unit :=
  pg ← get_page p;
  if Z.testbit (flags pg) PG_reserved then ret tt else
  b ← put_page_testzero p;
  when b (if Nat.eqb order 0 then free_hot_page p else __free_pages_ok p order).

(** ** Allocation *)

(** The loop of [expand], [high - low] rounds. *)
Fixpoint expand_loop (n : nat) (p index size : Z) (high area : nat) : M zone unit :=
  match n with
  | O => ret tt
  | S n =>
      let area := Nat.pred area in
      let high := Nat.pred high in
      let size := Z.shiftr size 1 in
      bad ← bad_range (p + size); BUG_ON bad;;
      list_add (p + size) area;;
      MARK_USED (u32 (index + size)) high area;;
      expand_loop n p index size high area
  end.
Definition expand (p index : Z) (low high area : nat) : M zone Z :=
  expand_loop (high - low) p index (Z.shiftl 1 (Z.of_nat high)) high area;; ret p.

(** The loop of [__rmqueue] over the orders from [current_order], [n] of them. *)
Fixpoint rmqueue_loop (n : nat) (order current_order : nat) : M zone (option Z) :=
  match n with
  | O => ret None
  | S n =>
      a ← get_area current_order;
      match free_list a with
      | [] => rmqueue_loop n order (S current_order)
      | p :: _ =>
          list_del p;;
          let index := u32 p in
          when (negb (Nat.eqb current_order (MAX_ORDER - 1))) (MARK_USED index current_order current_order);;
          modify (fun z => z <| free_pages := u32 (free_pages z - Z.shiftl 1 (Z.of_nat order)) |>);;
          q ← expand p index order current_order current_order;
          ret (Some q)
      end
  end.
Definition __rmqueue (order : nat) : M zone (option Z) := rmqueue_loop (MAX_ORDER - order) order order.

(** [rmqueue_bulk] into the per-CPU list [c]. *)
Fixpoint rmqueue_bulk_loop (n : nat) (order c : nat) (allocated : Z) : M zone Z :=
  match n with
  | O => ret allocated
  | S n =>
      r ← __rmqueue order;
      match r with
      | None => ret allocated
      | Some p =>
          set_pcp c (fun c => c <| plist := plist c ++ [p] |>);;
          rmqueue_bulk_loop n order c (allocated + 1)
      end
  end.
Definition rmqueue_bulk (order : nat) (cnt : Z) (c : nat) : M zone Z := rmqueue_bulk_loop (Z.to_nat cnt) order c 0.

(** The first page of the per-CPU list, when there is one. *)
Definition pcp_take (cold : nat) : M zone (option Z) :=
  c ← get_pcp cold;
  when (count c <=? low c)
    (n ← rmqueue_bulk 0 (batch c) cold; set_pcp cold (fun c => c <| count := count c + n |>));;
  c ← get_pcp cold;
  if truth (count c) then
    p ← deref (head (plist c));
    list_del p;;
    set_pcp cold (fun c => c <| count := count c - 1 |>);;
    ret (Some p)
  else ret None.

Definition __GFP_COLD : Z := 256.

Definition buffered_rmqueue (order : nat) (gfp_flags : Z) : M zone (option Z) :=
  let cold := if truth (Z.land gfp_flags __GFP_COLD) then 1%nat else 0%nat in
  r ← (if Nat.eqb order 0 then pcp_take cold else ret None);
  r ← match r with None => __rmqueue order | Some _ => ret r end;
  match r with
  | None => ret None
  | Some p =>
      bad ← bad_range p; BUG_ON bad;;
      modify (fun z => z <| pgalloc := u32 (pgalloc z + Z.shiftl 1 (Z.of_nat order)) |>);;
      prep_new_page p order;;
      ret (Some p)
  end.

(** [__drain_pages] on the zone. *)
Definition drain_pcp (c : nat) : M zone unit :=
  p ← get_pcp c;
  n ← free_pages_bulk (count p) c 0;
  set_pcp c (fun p => p <| count := count p - n |>).
Definition __drain_pages : M zone unit := for_each [0%nat; 1%nat] drain_pcp.

(** The size of the free region a page is the head of, or 0. *)
Fixpoint head_of_free (n : nat) (p : Z) : M zone Z :=
  match n with
  | O => ret 0
  | S n =>
      a ← get_area n;
      if bool_decide (p ∈ free_list a) then ret (Z.shiftl 1 (Z.of_nat n)) else head_of_free n p
  end.
Definition is_head_of_free_region (p : Z) : M zone Z := head_of_free MAX_ORDER p.

(** ** Set-up *)
Definition pages_to_bitmap_size (order : nat) (nr_pages : Z) : Z :=
  let bitmap_size := Z.shiftr (u32 (nr_pages - 1)) (Z.of_nat order + 4) in
  u32 (Z.land (bitmap_size + 1 + 4 - 1) (Z.lnot 3)).

Definition zone_init_free_lists (size : Z) : list free_area :=
  (fun order => {| free_list := [];
     area_map := if Nat.eqb order (MAX_ORDER - 1) then []
            else replicate (Z.to_nat (8 * pages_to_bitmap_size order size)) false |}) <$> seq 0 MAX_ORDER.

(** The caches [free_area_init_core] sets up. *)
Definition zone_batch (present_pages : Z) : Z :=
  let batch := present_pages / 1024 in
  let batch := if 256 * 1024 <? u32 (batch * PAGE_SIZE) then 256 * 1024 / PAGE_SIZE else batch in
  let batch := batch / 4 in
  if batch <? 1 then 1 else batch.
Definition zone_init_pcp (batch : Z) : list per_cpu_pages :=
  [{| count := 0; low := 2 * batch; high := 6 * batch; batch := 1 * batch; plist := [] |};
   {| count := 0; low := 0; high := 2 * batch; batch := 1 * batch; plist := [] |}].

(** A page as [memmap_init_zone] leaves it. *)
Definition init_page (zone : Z) : page :=
  {| flags := Z.shiftl 1 PG_reserved; page_zone := zone; _count := -1; _mapcount := -1; mapping := 0; private := 0 |}.
Definition memmap_init_zone (size zone : Z) : list page := replicate (Z.to_nat size) (init_page zone).

(** A zone as [free_area_init_core] leaves it. *)
Definition free_area_init_core (id start_pfn size present_pages : Z) : zone :=
  {| free_pages := 0; all_unreclaimable := 0; pages_scanned := 0; zone_id := id; zone_start_pfn := start_pfn;
     spanned_pages := size; free_areas := zone_init_free_lists size;
     pcp := zone_init_pcp (zone_batch present_pages); mem_map := memmap_init_zone size id; pgalloc := 0; pgfree := 0;
     bad_reports := 0 |}.

(** The body of [free_all_bootmem_core] (mm/bootmem.c) that gives a block of
    pages to the allocator: one page, or a word of the boot map at once. *)
Definition ClearPageReserved (p : Z) : M zone unit :=
  set_page p (fun pg => pg <| flags := Z.clearbit (flags pg) PG_reserved |>).
Definition free_boot_pages (p : Z) (order : nat) : M zone unit :=
  ClearPageReserved p;;
  set_page p (set_page_count 1);;
  for_each (seqZ (p + 1) (2 ^ Z.of_nat order - 1)) ClearPageReserved;;
  __free_pages p order.
