(* ===== verification/BuddySpec.v ===== *)
(** * The buddy allocator: blocks, free sets and the invariant

    The lists of a zone stand for a set of free pages: the union of their
    blocks.  The invariant says that the blocks are aligned and disjoint, that
    no two buddies are both listed, and that the bit of a pair of buddies is
    set exactly when one of them is.  It makes the lists canonical: every free
    aligned block lies in a listed one. *)
From S2P Require Import Prelude.
From S2P Require Import Buddy.

(** ** Blocks *)
Abbreviation pow k := (2 ^ Z.of_nat k).
Definition block (i : Z) (k : nat) : gset Z := list_to_set (seqZ i (pow k)).
Definition aligned (i : Z) (k : nat) : Prop := (pow k | i).

Lemma pow_pos k : 0 < pow k.
Proof. apply Z.pow_pos_nonneg; lia. Qed.
Lemma pow_S k : pow (S k) = 2 * pow k.
Proof. rewrite Nat2Z.inj_succ, Z.pow_succ_r; lia. Qed.
#[export] Hint Resolve pow_pos : kernel.

Lemma elem_of_block x i k : x ∈ block i k <-> i <= x < i + pow k.
Proof. unfold block. by rewrite elem_of_list_to_set, elem_of_seqZ. Qed.

Lemma block_head i k : i ∈ block i k.
Proof. apply elem_of_block. pose proof (pow_pos k). lia. Qed.

Lemma size_block i k : Z.of_nat (size (block i k)) = pow k.
Proof.
  unfold block. rewrite size_list_to_set by apply NoDup_seqZ. rewrite length_seqZ. pose proof (pow_pos k). lia.
Qed.

(** A page lies in one block of each size, given by its quotient. *)
Lemma aligned_start x i k : aligned i k -> x ∈ block i k -> i = pow k * (x / pow k).
Proof.
  intros [a ->] Hx%elem_of_block. pose proof (pow_pos k). rewrite Z.mul_comm. f_equal.
  apply (Z.div_unique x (pow k) a (x - a * pow k)); lia.
Qed.

Lemma aligned_le i k l : (k <= l)%nat -> aligned i l -> aligned i k.
Proof.
  intros Hkl. apply Z.divide_trans. exists (2 ^ (Z.of_nat l - Z.of_nat k)).
  rewrite <- Z.pow_add_r by lia. f_equal. lia.
Qed.

Lemma block_nested x i k j l :
  (k <= l)%nat -> aligned i k -> aligned j l -> x ∈ block i k -> x ∈ block j l -> block i k ⊆ block j l.
Proof.
  intros Hkl Hi Hj Hxi Hxj.
  assert (exists c, pow l = pow k * c) as [c Hc].
  { exists (2 ^ (Z.of_nat l - Z.of_nat k)). rewrite <- Z.pow_add_r by lia. f_equal. lia. }
  pose proof (aligned_le j k l Hkl Hj) as [b ->]. destruct Hi as [a ->].
  apply elem_of_block in Hxi, Hxj. pose proof (pow_pos k). rewrite Hc in *.
  assert (b <= a) by (apply Z.lt_succ_r, (Z.mul_lt_mono_pos_r (pow k)); lia).
  assert (a < b + c) by (apply (Z.mul_lt_mono_pos_r (pow k)); lia).
  intros y Hy%elem_of_block. apply elem_of_block. rewrite Hc. nia.
Qed.

Lemma block_same x i j k : aligned i k -> aligned j k -> x ∈ block i k -> x ∈ block j k -> i = j.
Proof. intros Hi Hj Hx Hy. by rewrite (aligned_start x i k), (aligned_start x j k). Qed.

(** ** Buddies *)
Definition parent (i : Z) (k : nat) : Z := pow (S k) * (i / pow (S k)).
Definition buddy (i : Z) (k : nat) : Z := Z.lxor i (pow k).

Lemma parent_aligned i k : aligned (parent i k) (S k).
Proof. exists (i / pow (S k)). unfold parent. lia. Qed.

Lemma lxor_low a b k : 0 <= k -> 0 <= b < 2 ^ k -> Z.lxor (2 ^ k * a) b = 2 ^ k * a + b.
Proof.
  intros Hk Hb. rewrite Z.mul_comm, <- Z.shiftl_mul_pow2 by done. symmetry. apply Z.add_nocarry_lxor.
  apply Z.bits_inj'. intros n Hn. rewrite Z.land_spec, Z.bits_0. destruct (Z.lt_ge_cases n k).
  - rewrite Z.shiftl_spec_low by lia. done.
  - rewrite <- (Z.mod_small b (2 ^ k)), Z.mod_pow2_bits_high by lia. apply andb_false_r.
Qed.

(** The two halves of a block are each other's buddies. *)
Lemma buddy_cases i k : aligned i k ->
  (i = parent i k /\ buddy i k = parent i k + pow k) \/ (i = parent i k + pow k /\ buddy i k = parent i k).
Proof.
  intros [a ->]. unfold parent, buddy. pose proof (pow_pos k) as Hp. rewrite pow_S.
  assert (a * pow k / (2 * pow k) = a / 2) as -> by (rewrite Z.div_mul_cancel_r; lia).
  assert (forall b, Z.lxor (2 * b * pow k) (pow k) = 2 * b * pow k + pow k) as Hx.
  { intros b. replace (2 * b * pow k) with (2 ^ Z.of_nat (S k) * b) by (rewrite pow_S; lia).
    apply lxor_low; [lia|rewrite pow_S; lia]. }
  destruct (Z.mod_pos_bound a 2 ltac:(lia)). pose proof (Z.div_mod a 2 ltac:(lia)).
  assert (a mod 2 = 0 \/ a mod 2 = 1) as [E|E] by lia.
  - left. split; [nia|]. replace (a * pow k) with (2 * (a / 2) * pow k) by nia. rewrite Hx. lia.
  - right. split; [nia|]. replace (a * pow k) with (2 * (a / 2) * pow k + pow k) by nia.
    rewrite <- Hx, Z.lxor_assoc, Z.lxor_nilpotent, Z.lxor_0_r. lia.
Qed.

Lemma aligned_half i k : aligned i (S k) -> aligned i k /\ aligned (i + pow k) k.
Proof.
  intros H. pose proof (aligned_le i k (S k) ltac:(lia) H) as Hi. split; [done|].
  apply Z.divide_add_r; [done|apply Z.divide_refl].
Qed.

Lemma buddy_aligned i k : aligned i k -> aligned (buddy i k) k.
Proof. intros Hi. destruct (aligned_half _ _ (parent_aligned i k)). destruct (buddy_cases i k Hi) as [[_ ->]|[_ ->]]; done. Qed.

Lemma buddy_ne i k : aligned i k -> buddy i k <> i.
Proof. intros Hi. pose proof (pow_pos k). destruct (buddy_cases i k Hi) as [[]|[]]; lia. Qed.

Lemma buddy_buddy i k : buddy (buddy i k) k = i.
Proof. unfold buddy. by rewrite Z.lxor_assoc, Z.lxor_nilpotent, Z.lxor_0_r. Qed.

Lemma block_parent i k : aligned i k -> block (parent i k) (S k) = block i k ∪ block (buddy i k) k.
Proof.
  intros Hi. apply set_eq. intros x. rewrite elem_of_union, !elem_of_block, pow_S. pose proof (pow_pos k).
  destruct (buddy_cases i k Hi) as [[]|[]]; lia.
Qed.

Lemma block_S i k : block i (S k) = block i k ∪ block (i + pow k) k.
Proof. apply set_eq. intros x. rewrite elem_of_union, !elem_of_block, pow_S. pose proof (pow_pos k). lia. Qed.

(** ** The invariant of the lists *)
Definition flist (A : list free_area) (k : nat) : list Z := default [] (free_list <$> A !! k).
Definition bit_of (A : list free_area) (k : nat) (j : Z) : option bool := A !! k ≫= fun a => area_map a !! Z.to_nat j.

(** One of the two blocks of the pair [j] of order [k] is listed. *)
Definition pair_listed (A : list free_area) (k : nat) (j : Z) : bool :=
  bool_decide (pow (S k) * j ∈ flist A k) || bool_decide (pow (S k) * j + pow k ∈ flist A k).

Record areas_inv (sp : Z) (A : list free_area) (F : gset Z) : Prop := {
  ai_len : length A = MAX_ORDER;
  ai_nodup k : NoDup (flist A k);
  ai_block k i : i ∈ flist A k -> aligned i k /\ 0 <= i /\ i + pow k <= sp;
  ai_disj k l i j x : i ∈ flist A k -> j ∈ flist A l -> x ∈ block i k -> x ∈ block j l -> k = l /\ i = j;
  ai_apart k i : (k < 10)%nat -> i ∈ flist A k -> buddy i k ∉ flist A k;
  ai_bit k j : (k < 10)%nat -> 0 <= j -> pow (S k) * j < sp -> bit_of A k j = Some (pair_listed A k j);
  ai_free x : x ∈ F <-> exists k i, i ∈ flist A k /\ x ∈ block i k
}.

Lemma flist_lt A k i : i ∈ flist A k -> (k < length A)%nat.
Proof. unfold flist. destruct (A !! k) eqn:E; [intros _; by eapply lookup_lt_Some|by intros ?%elem_of_nil]. Qed.

Section inv.
Context (sp : Z) (A : list free_area) (F : gset Z) (I : areas_inv sp A F).

Lemma listed_lt k i : i ∈ flist A k -> (k < MAX_ORDER)%nat.
Proof using I. rewrite <- (ai_len _ _ _ I). apply flist_lt. Qed.

Lemma listed_free k i : i ∈ flist A k -> block i k ⊆ F.
Proof using I. intros Hi x Hx. apply (ai_free _ _ _ I). eauto. Qed.

Lemma free_range x : x ∈ F -> 0 <= x < sp.
Proof using I.
  intros (k & i & Hi & Hx%elem_of_block)%(ai_free _ _ _ I). destruct (ai_block _ _ _ I k i Hi) as (_ & ? & ?). lia.
Qed.

(** Every free aligned block lies in a listed one. *)
Lemma free_block_listed n p :
  (n < MAX_ORDER)%nat -> aligned p n -> block p n ⊆ F ->
  exists l j, (n <= l)%nat /\ j ∈ flist A l /\ block p n ⊆ block j l.
Proof using I.
  revert p. induction n as [|n IH]; intros p Hn Hp HF.
  { destruct (proj1 (ai_free _ _ _ I p) (HF _ (block_head p 0))) as (l & j & Hj & Hx).
    exists l, j. split_and!; [lia|done|]. intros y Hy%elem_of_block. assert (y = p) as -> by (cbn in Hy; lia). done. }
  destruct (aligned_half p n Hp) as [H1 H2]. rewrite block_S in HF.
  assert (forall q, aligned q n -> block q n ⊆ F -> q ∈ block p (S n) ->
    (exists l j, (S n <= l)%nat /\ j ∈ flist A l /\ block p (S n) ⊆ block j l) \/ q ∈ flist A n) as Hhalf.
  { intros q Hq HqF Hqp. destruct (IH q ltac:(lia) Hq HqF) as (l & j & Hl & Hj & Hsub).
    destruct (ai_block _ _ _ I l j Hj) as [Hja _]. pose proof (Hsub _ (block_head q n)) as Hqj.
    destruct (decide (l = n)) as [->|Hne].
    - right. by rewrite (block_same q q j n Hq Hja (block_head q n) Hqj).
    - left. exists l, j. split_and!; [lia|done|]. by apply (block_nested q); [lia|..]. }
  destruct (Hhalf p) as [?|L1]; [done|set_solver|apply block_head|done|].
  destruct (Hhalf (p + pow n)) as [?|L2]; [done|set_solver| |done|].
  { apply elem_of_block. rewrite pow_S. pose proof (pow_pos n). lia. }
  exfalso. apply (ai_apart _ _ _ I n p ltac:(unfold MAX_ORDER in *; lia) L1).
  destruct (buddy_cases p n H1) as [[E ->]|[E _]]; [by rewrite <- E|].
  pose proof (aligned_start p p (S n) Hp (block_head _ _)). unfold parent in E. pose proof (pow_pos n). lia.
Qed.
End inv.

(** ** One list changes

    [toggled A A' k i L]: the list of order [k] is [L], and the bit of the pair
    of the block [i] is flipped, unless [k] is the last order. *)
Definition toggled (A A' : list free_area) (k : nat) (i : Z) (L : list Z) : Prop :=
  length A' = length A /\
  (forall l, flist A' l = if decide (l = k) then L else flist A l) /\
  (forall l j, (l < 10)%nat -> 0 <= j ->
     bit_of A' l j = if decide (l = k /\ j = i / pow (S k)) then negb <$> bit_of A l j else bit_of A l j).

Lemma pair_of j k i : aligned i k -> 0 <= j ->
  (i = pow (S k) * j \/ i = pow (S k) * j + pow k) <-> j = i / pow (S k).
Proof.
  intros Hi Hj. pose proof (pow_pos k). rewrite pow_S. split.
  - intros [->| ->]; [apply (Z.div_unique _ _ j 0)|apply (Z.div_unique _ _ j (pow k))]; lia.
  - intros ->. destruct (buddy_cases i k Hi) as [[E _]|[E _]]; unfold parent in E; rewrite pow_S in E; lia.
Qed.

(** The bits stay right when the block enters or leaves its list and its buddy
    is not there. *)
Lemma toggled_bits sp A A' F k i L :
  areas_inv sp A F -> toggled A A' k i L -> aligned i k -> ((k < 10)%nat -> buddy i k ∉ flist A k) ->
  (forall x, x <> i -> x ∈ L <-> x ∈ flist A k) -> (i ∈ L <-> i ∉ flist A k) ->
  forall l j, (l < 10)%nat -> 0 <= j -> pow (S l) * j < sp -> bit_of A' l j = Some (pair_listed A' l j).
Proof.
  intros I (_ & Hf & Hb) Hi Hbud HL HiL l j Hl Hj Hsp. rewrite Hb, (ai_bit _ _ _ I) by done. unfold pair_listed. rewrite !Hf.
  destruct (decide (l = k)) as [->|Hne]; [|by rewrite decide_False by naive_solver].
  specialize (Hbud Hl).
  pose proof (pow_pos k). pose proof (pair_of j k i Hi Hj) as Hpair.
  destruct (decide (k = k /\ j = i / pow (S k))) as [[_ E]|HE]; simpl.
  - f_equal.
    assert (forall b, b = buddy i k -> bool_decide (b ∈ L) = false /\ bool_decide (b ∈ flist A k) = false) as Hno.
    { intros b ->. split; apply bool_decide_false; [rewrite HL by (by apply buddy_ne)|]; done. }
    destruct (buddy_cases i k Hi) as [[E1 E2]|[E1 E2]]; unfold parent in *; rewrite <- E in E1, E2.
    + destruct (Hno _ (eq_sym E2)) as [-> ->]. rewrite !orb_false_r, <- E1, (bool_decide_ext _ _ HiL). by rewrite bool_decide_not.
    + destruct (Hno _ (eq_sym E2)) as [-> ->]. rewrite !orb_false_l, <- E1, (bool_decide_ext _ _ HiL). by rewrite bool_decide_not.
  - f_equal. f_equal; apply bool_decide_ext; symmetry; apply HL; naive_solver.
Qed.

Lemma insert_block_inv sp A A' F k i :
  areas_inv sp A F -> (k < MAX_ORDER)%nat -> toggled A A' k i (i :: flist A k) -> aligned i k -> 0 <= i -> i + pow k <= sp ->
  block i k ## F -> ((k < 10)%nat -> buddy i k ∉ flist A k) -> areas_inv sp A' (F ∪ block i k).
Proof.
  intros I Hk T Hi H0 Hsp Hd Hbud. pose proof T as (Hlen & Hf & _).
  assert (i ∉ flist A k) as Hni.
  { intros H. apply (Hd i); [apply block_head|]. apply (listed_free _ _ _ I k i H), block_head. }
  assert (forall l j x, j ∈ flist A l -> x ∈ block j l -> x ∉ block i k) as Hout.
  { intros l j x Hj Hx Hy. apply (Hd x); [done|]. by apply (listed_free _ _ _ I l j Hj). }
  assert (forall l j, j ∈ flist A' l -> (l = k /\ j = i) \/ j ∈ flist A l) as Hold.
  { intros l j. rewrite Hf. destruct (decide (l = k)) as [->|]; [|by right]. intros [->|?]%elem_of_cons; auto. }
  split.
  - by rewrite Hlen, (ai_len _ _ _ I).
  - intros l. rewrite Hf. destruct (decide (l = k)); [|apply I]. constructor; [done|apply I].
  - intros l j [[-> ->]|Hj]%Hold; [done|]. by apply I.
  - intros l n j h x Hj%Hold Hh%Hold Hx Hy. destruct Hj as [[-> ->]|Hj], Hh as [[-> ->]|Hh]; [done|..].
    + by destruct (Hout n h x).
    + by destruct (Hout l j x).
    + by eapply I.
  - intros l j Hl [[-> ->]|Hj]%Hold; rewrite Hf; destruct (decide _) as [E|E]; try done.
    + intros [?|?]%elem_of_cons; [by eapply buddy_ne|by apply Hbud].
    + subst l. specialize (Hbud Hl). intros [E|E]%elem_of_cons.
      * apply Hbud. rewrite <- E, buddy_buddy. done.
      * by apply (ai_apart _ _ _ I k j).
    + by apply I.
  - apply (toggled_bits sp A A' F k i (i :: flist A k)); [done..| |]; set_solver.
  - intros x. rewrite elem_of_union, (ai_free _ _ _ I). split.
    + intros [(l & j & Hj & Hx)|Hx].
      * exists l, j. split; [|done]. rewrite Hf. destruct (decide _) as [->|]; [by right|done].
      * exists k, i. split; [|done]. rewrite Hf, decide_True by done. by left.
    + intros (l & j & [[-> ->]|Hj]%Hold & Hx); [by right|]. left. eauto.
Qed.

Lemma remove_block_inv sp A A' F k i :
  areas_inv sp A F -> i ∈ flist A k -> toggled A A' k i (filter (fun q => q <> i) (flist A k)) ->
  areas_inv sp A' (F ∖ block i k).
Proof.
  intros I Hin T. pose proof T as (Hlen & Hf & _). destruct (ai_block _ _ _ I k i Hin) as (Hi & H0 & Hsp).
  assert (forall l j, j ∈ flist A' l <-> j ∈ flist A l /\ ~ (l = k /\ j = i)) as Hold.
  { intros l j. rewrite Hf. destruct (decide (l = k)) as [->|]; [rewrite list_elem_of_filter|]; naive_solver. }
  split.
  - by rewrite Hlen, (ai_len _ _ _ I).
  - intros l. rewrite Hf. destruct (decide (l = k)); [apply NoDup_filter|]; apply I.
  - intros l j [Hj _]%Hold. by apply I.
  - intros l n j h x [Hj _]%Hold [Hh _]%Hold. by apply I.
  - intros l j Hl [Hj _]%Hold [Hb _]%Hold. by apply (ai_apart _ _ _ I l j).
  - intros l j Hl Hj Hjs. destruct (decide (k < 10)%nat) as [Hk|Hk].
    + eapply (toggled_bits sp A A' F k i); [done|done|done|intros _; by apply (ai_apart _ _ _ I)| | |done..].
      * intros x Hx. rewrite list_elem_of_filter. naive_solver.
      * rewrite list_elem_of_filter. naive_solver.
    + destruct T as (_ & _ & Hb). rewrite Hb, (ai_bit _ _ _ I) by done. unfold pair_listed. rewrite !Hf.
      rewrite !decide_False by lia. done.
  - intros x. rewrite elem_of_difference, (ai_free _ _ _ I). split.
    + intros [(l & j & Hj & Hx) Hn]. exists l, j. split; [|done]. apply Hold. split; [done|]. by intros [-> ->].
    + intros (l & j & [Hj Hne]%Hold & Hx). split; [eauto|]. intros Hy. apply Hne. by apply (ai_disj _ _ _ I l k j i x).
Qed.
