(* ===== verification/BuddyOps.v ===== *)
(** * The buddy allocator: splitting and merging blocks

    [__free_pages_bulk] adds its block to the set of free pages the lists stand
    for, and [__rmqueue] takes an aligned block out of it, or finds that there
    is none. *)
From S2P Require Import Prelude.
From S2P Require Import Buddy.
From S2P Require Import BuddySpec.

(** What does not change: the pages of the zone are there and belong to it. *)
Record zone_ok (z : zone) : Prop := {
  zk_span : 0 < spanned_pages z < 2 ^ 31;
  zk_len : length (mem_map z) = Z.to_nat (spanned_pages z);
  zk_zone p : p ∈ mem_map z -> page_zone p = zone_id z
}.

(** The pages of the caches are not free in the lists. *)
Definition outside (z : zone) (F : gset Z) : Prop := forall c p, c ∈ pcp z -> p ∈ plist c -> p ∉ F.

Lemma zone_ok_same z z' : spanned_pages z' = spanned_pages z -> zone_id z' = zone_id z -> mem_map z' = mem_map z ->
  zone_ok z -> zone_ok z'.
Proof. intros E1 E2 E3 []. split; by rewrite ?E1, ?E2, ?E3. Qed.
Lemma zone_ok_areas z A : zone_ok z -> zone_ok (z <| free_areas := A |>).
Proof. by apply zone_ok_same. Qed.
Lemma outside_mono z F G : G ⊆ F -> outside z F -> outside z G.
Proof. intros H O c p Hc Hp Hg. by apply (O c p), H. Qed.

(** ** The primitive changes of the lists *)
Definition add_list (p : Z) (k : nat) (A : list free_area) : list free_area :=
  alter (fun a => a <| free_list := p :: free_list a |>) k A.
Definition del_list (p : Z) (A : list free_area) : list free_area :=
  (fun a => a <| free_list := filter (fun q => q <> p) (free_list a) |>) <$> A.
Definition flip_bit (nr : Z) (b : bool) (k : nat) (A : list free_area) : list free_area :=
  alter (fun a => a <| area_map := <[Z.to_nat nr := negb b]> (area_map a) |>) k A.

Lemma flist_add p k A l : (k < length A)%nat ->
  flist (add_list p k A) l = if decide (l = k) then p :: flist A k else flist A l.
Proof.
  intros Hk. unfold flist, add_list. destruct (decide (l = k)) as [->|Hne].
  - rewrite list_lookup_alter_eq. by destruct (lookup_lt_is_Some_2 A k Hk) as [a ->].
  - by rewrite list_lookup_alter_ne.
Qed.
Lemma bit_add p k A l j : bit_of (add_list p k A) l j = bit_of A l j.
Proof.
  unfold bit_of, add_list. destruct (decide (l = k)) as [->|Hne].
  - rewrite list_lookup_alter_eq. by destruct (A !! k).
  - by rewrite list_lookup_alter_ne.
Qed.
Lemma flist_del p A l : flist (del_list p A) l = filter (fun q => q <> p) (flist A l).
Proof. unfold flist, del_list. rewrite list_lookup_fmap. by destruct (A !! l). Qed.
Lemma bit_del p A l j : bit_of (del_list p A) l j = bit_of A l j.
Proof. unfold bit_of, del_list. rewrite list_lookup_fmap. by destruct (A !! l). Qed.
Lemma flist_flip nr b k A l : flist (flip_bit nr b k A) l = flist A l.
Proof.
  unfold flist, flip_bit. destruct (decide (l = k)) as [->|Hne].
  - rewrite list_lookup_alter_eq. by destruct (A !! k).
  - by rewrite list_lookup_alter_ne.
Qed.
Lemma bit_flip nr b k A l j : 0 <= nr -> 0 <= j -> bit_of A k nr = Some b ->
  bit_of (flip_bit nr b k A) l j = if decide (l = k /\ j = nr) then Some (negb b) else bit_of A l j.
Proof.
  intros Hn Hj Hb. unfold bit_of, flip_bit in *. destruct (decide (l = k)) as [->|Hne].
  - rewrite list_lookup_alter_eq. destruct (A !! k) as [a|]; [|done]. cbn in *.
    destruct (decide (k = k /\ j = nr)) as [[_ ->]|Hne].
    + apply list_lookup_insert_eq. by eapply lookup_lt_Some.
    + rewrite list_lookup_insert_ne; [done|]. intros E%Z2Nat.inj; [naive_solver|done..].
  - rewrite list_lookup_alter_ne by done. by rewrite decide_False by naive_solver.
Qed.
Lemma length_add p k A : length (add_list p k A) = length A.
Proof. apply length_alter. Qed.
Lemma length_del p A : length (del_list p A) = length A.
Proof. apply length_fmap. Qed.
Lemma length_flip nr b k A : length (flip_bit nr b k A) = length A.
Proof. apply length_alter. Qed.
Create Rewrite HintDb areas.
#[export] Hint Rewrite bit_add flist_del bit_del flist_flip length_add length_del length_flip : areas.

Lemma filter_absent (p : Z) (l : list Z) : p ∉ l -> filter (fun q => q <> p) l = l.
Proof.
  induction l as [|q l IH]; [done|]. intros [Hq Hl]%not_elem_of_cons. rewrite filter_cons_True by congruence.
  f_equal. by apply IH.
Qed.

(** A listed block is in no other list. *)
Lemma filter_other sp A F k l i :
  areas_inv sp A F -> i ∈ flist A k -> l <> k -> filter (fun q => q <> i) (flist A l) = flist A l.
Proof.
  intros I Hi Hl. apply filter_absent. intros Hj. apply Hl.
  by destruct (ai_disj _ _ _ I l k i i i Hj Hi (block_head _ _) (block_head _ _)).
Qed.

Lemma toggled_add A k i b :
  (k < length A)%nat -> 0 <= i -> bit_of A k (i / pow (S k)) = Some b ->
  toggled A (add_list i k (flip_bit (i / pow (S k)) b k A)) k i (i :: flist A k) /\
  toggled A (flip_bit (i / pow (S k)) b k (add_list i k A)) k i (i :: flist A k).
Proof.
  intros Hk Hi Hb. assert (0 <= i / pow (S k)) by (apply Z.div_pos; [done|apply pow_pos]).
  split; (split; [by autorewrite with areas|split]).
  - intros l. rewrite flist_add by (by autorewrite with areas). by autorewrite with areas.
  - intros l j Hl Hj. autorewrite with areas. rewrite bit_flip by done.
    destruct (decide _) as [[-> ->]|]; [by rewrite Hb|done].
  - intros l. autorewrite with areas. by rewrite flist_add.
  - intros l j Hl Hj. rewrite bit_flip by (by autorewrite with areas). autorewrite with areas.
    destruct (decide _) as [[-> ->]|]; [by rewrite Hb|done].
Qed.

Lemma toggled_add_top A i : (10 < length A)%nat -> toggled A (add_list i 10 A) 10 i (i :: flist A 10).
Proof.
  intros Hk. split; [by autorewrite with areas|split].
  - intros l. by rewrite flist_add.
  - intros l j Hl Hj. autorewrite with areas. by rewrite decide_False by lia.
Qed.

Lemma toggled_del sp A F k i b :
  areas_inv sp A F -> i ∈ flist A k -> bit_of A k (i / pow (S k)) = Some b ->
  toggled A (del_list i (flip_bit (i / pow (S k)) b k A)) k i (filter (fun q => q <> i) (flist A k)) /\
  toggled A (flip_bit (i / pow (S k)) b k (del_list i A)) k i (filter (fun q => q <> i) (flist A k)).
Proof.
  intros I Hi Hb. destruct (ai_block _ _ _ I k i Hi) as (_ & Hi0 & _).
  assert (0 <= i / pow (S k)) by (apply Z.div_pos; [done|apply pow_pos]).
  split; (split; [by autorewrite with areas|split]).
  1, 3: intros l; autorewrite with areas; destruct (decide _) as [->|]; [done|by eapply filter_other].
  all: intros l j Hl Hj; autorewrite with areas; rewrite bit_flip by (by autorewrite with areas);
    autorewrite with areas; (destruct (decide _) as [[-> ->]|]; [by rewrite Hb|done]).
Qed.

Lemma toggled_del_top sp A F i :
  areas_inv sp A F -> i ∈ flist A 10 -> toggled A (del_list i A) 10 i (filter (fun q => q <> i) (flist A 10)).
Proof.
  intros I Hi. split; [by autorewrite with areas|split].
  - intros l. autorewrite with areas. destruct (decide _) as [->|]; [done|by eapply filter_other].
  - intros l j Hl Hj. autorewrite with areas. by rewrite decide_False by lia.
Qed.

(** ** The primitives *)
Lemma wp_get_page p z Q : zone_ok z -> 0 <= p < spanned_pages z ->
  (forall pg, mem_map z !! Z.to_nat p = Some pg -> page_zone pg = zone_id z -> Q pg z) -> wp (get_page p) Q z.
Proof.
  intros Hz Hp HQ. unfold get_page. do 2 wp_step. rewrite (proj2 (Z.ltb_ge p 0)) by lia.
  destruct (lookup_lt_is_Some_2 (mem_map z) (Z.to_nat p)) as [pg Hpg]; [rewrite (zk_len _ Hz); lia|].
  eapply wp_deref; [done|]. apply HQ; [done|]. by eapply zk_zone, list_elem_of_lookup_2.
Qed.

Lemma wp_bad_range p z Q : zone_ok z -> 0 <= p < spanned_pages z -> Q false z -> wp (bad_range p) Q z.
Proof.
  intros Hz Hp HQ. unfold bad_range. do 2 wp_step. cbv zeta. rewrite (proj2 (Z.leb_gt _ _)) by lia.
  rewrite (proj2 (Z.ltb_ge _ _)) by lia. wp_step. apply wp_get_page; [done..|]. intros pg _ E. wp_step.
  by rewrite E, Z.eqb_refl.
Qed.

Lemma wp_list_add p k z (Q : unit -> zone -> Prop) : (k < length (free_areas z))%nat ->
  Q tt (z <| free_areas := add_list p k (free_areas z) |>) -> wp (list_add p k) Q z.
Proof.
  intros Hk HQ. unfold list_add, set_area, get_area. destruct (lookup_lt_is_Some_2 _ _ Hk) as [a Ha].
  do 3 wp_step. eapply wp_deref; [done|]. by wp_step.
Qed.

Lemma wp_list_del k p z (Q : unit -> zone -> Prop) :
  p ∈ flist (free_areas z) k -> (forall c, c ∈ pcp z -> p ∉ plist c) ->
  Q tt (z <| free_areas := del_list p (free_areas z) |>) -> wp (list_del p) Q z.
Proof.
  intros Hp O HQ. unfold wp, list_del.
  assert (existsb (fun a => bool_decide (p ∈ free_list a)) (free_areas z) = true) as ->.
  { apply existsb_exists. unfold flist in Hp. destruct (free_areas z !! k) as [a|] eqn:E; [|by apply elem_of_nil in Hp].
    exists a. split; [apply list_elem_of_In; by eapply list_elem_of_lookup_2|]. by apply bool_decide_true. }
  simpl. assert (((fun c => c <| plist := filter (fun q => q <> p) (plist c) |>) <$> pcp z) = pcp z) as Epcp.
  { rewrite <- (list_fmap_id (pcp z)) at 2. apply list_fmap_ext. intros i c Hc%list_elem_of_lookup_2.
    assert (filter (fun q => q <> p) (plist c) = plist c) as E by (by apply filter_absent, O).
    destruct c. cbn in *. by rewrite E. }
  destruct z. cbn in *. by rewrite Epcp.
Qed.

Lemma wp_test_and_change_bit nr k b z (Q : bool -> zone -> Prop) : bit_of (free_areas z) k nr = Some b ->
  Q b (z <| free_areas := flip_bit nr b k (free_areas z) |>) -> wp (__test_and_change_bit nr k) Q z.
Proof.
  intros Hb HQ. unfold bit_of in Hb. destruct (free_areas z !! k) as [a|] eqn:Ea; [|done]. cbn in Hb.
  unfold __test_and_change_bit, set_area, get_area. wp_steps. exact HQ.
Qed.

Lemma wp_BUG z (Q : unit -> zone -> Prop) : Q tt z -> wp (BUG_ON false) Q z.
Proof. done. Qed.

(** ** Masks *)
Definition mask_of (k : nat) : Z := u32 (Z.shiftl (2 ^ 32 - 1) (Z.of_nat k)).

Lemma mask_bits k n : (k < 32)%nat -> 0 <= n < 32 -> Z.testbit (mask_of k) n = (Z.of_nat k <=? n).
Proof.
  intros Hk Hn. unfold mask_of, u32. rewrite Z.mod_pow2_bits_low by lia. destruct (Z.leb_spec (Z.of_nat k) n).
  - rewrite Z.shiftl_spec by lia. change (2 ^ 32 - 1) with (Z.ones 32). apply Z.ones_spec_low. lia.
  - rewrite Z.shiftl_spec_low by lia. done.
Qed.
Lemma mask_of_range k : 0 <= mask_of k < 2 ^ 32.
Proof. apply u32_range. Qed.

Lemma mask_S k : u32 (Z.shiftl (mask_of k) 1) = mask_of (S k).
Proof.
  unfold mask_of, u32. apply Z.bits_inj'. intros n Hn. destruct (Z.lt_ge_cases n 32).
  - rewrite !Z.mod_pow2_bits_low, Z.shiftl_spec by lia. destruct (Z.lt_ge_cases (n - 1) 0).
    + rewrite Z.testbit_neg_r by lia. rewrite Z.shiftl_spec_low by lia. done.
    + rewrite Z.mod_pow2_bits_low, !Z.shiftl_spec by lia. f_equal. lia.
  - by rewrite !Z.mod_pow2_bits_high by lia.
Qed.

Lemma land_mask_of i k : (k < 32)%nat -> 0 <= i < 2 ^ 32 -> Z.land i (mask_of k) = pow k * (i / pow k).
Proof.
  intros Hk Hi. rewrite Z.mul_comm, <- Z.shiftr_div_pow2, <- Z.shiftl_mul_pow2 by lia. apply Z.bits_inj'. intros n Hn.
  rewrite Z.land_spec. destruct (Z.lt_ge_cases n 32).
  - rewrite mask_bits by lia. destruct (Z.leb_spec (Z.of_nat k) n).
    + rewrite Z.shiftl_spec, Z.shiftr_spec, andb_true_r by lia. f_equal. lia.
    + rewrite Z.shiftl_spec_low by lia. apply andb_false_r.
  - rewrite <- (Z.mod_small i (2 ^ 32)) by done. rewrite Z.mod_pow2_bits_high by lia. simpl.
    rewrite Z.shiftl_spec, Z.shiftr_spec by lia. rewrite <- (Z.mod_small i (2 ^ 32)) by done.
    by rewrite Z.mod_pow2_bits_high by lia.
Qed.

Lemma land_below i k : (k < 32)%nat -> 0 <= i < 2 ^ 32 -> aligned i k -> Z.land i (u32 (Z.lnot (mask_of k))) = 0.
Proof.
  intros Hk Hi Ha. pose proof (land_mask_of i k Hk Hi) as E. rewrite <- (aligned_start i i k Ha (block_head i k)) in E.
  apply Z.bits_inj'. intros n Hn. rewrite Z.land_spec, Z.bits_0. rewrite <- E, Z.land_spec. unfold u32.
  destruct (Z.lt_ge_cases n 32).
  - rewrite Z.mod_pow2_bits_low, Z.lnot_spec by lia. by destruct (Z.testbit i n), (Z.testbit (mask_of k) n).
  - rewrite Z.mod_pow2_bits_high by lia. apply andb_false_r.
Qed.

(** ** Freeing a block *)
Definition merges (z : zone) (F : gset Z) (i : Z) (k : nat) (z' : zone) : Prop :=
  exists A, z' = z <| free_areas := A |> /\ areas_inv (spanned_pages z) A (F ∪ block i k).

(** The pair of a block that is not free has its bit set when the buddy is
    listed. *)
Lemma pair_listed_buddy sp A F i k :
  areas_inv sp A F -> aligned i k -> block i k ## F ->
  pair_listed A k (i / pow (S k)) = bool_decide (buddy i k ∈ flist A k).
Proof.
  intros I Hi Hd.
  assert (i ∉ flist A k) as Hni by (intros H; apply (Hd i); [|apply (listed_free _ _ _ I k i H)]; apply block_head).
  unfold pair_listed. destruct (buddy_cases i k Hi) as [[E1 E2]|[E1 E2]]; rewrite E2; unfold parent in *;
    rewrite <- E1; by rewrite (bool_decide_false _ Hni), ?orb_false_r.
Qed.

Lemma buddy_pair i k : aligned i k -> buddy i k / pow (S k) = i / pow (S k).
Proof.
  intros Hi. pose proof (pow_pos k). pose proof (pow_S k). destruct (buddy_cases i k Hi) as [[_ ->]|[_ ->]]; unfold parent;
    symmetry; rewrite Z.mul_comm; [rewrite Z.div_add_l, (Z.div_small (pow k)) by lia; lia|by rewrite Z.div_mul by lia].
Qed.

Lemma parent_quot i k : parent i k / pow (S (S k)) = i / pow (S k) / 2.
Proof. unfold parent. rewrite (pow_S (S k)), Z.mul_comm, Z.div_mul_cancel_r by (pose proof (pow_pos (S k)); lia). done. Qed.

(** Where the loop stops. *)
Lemma merge_stop sp A F i k b :
  areas_inv sp A F -> (k < 10)%nat -> aligned i k -> 0 <= i -> i + pow k <= sp -> block i k ## F ->
  bit_of A k (i / pow (S k)) = Some b -> buddy i k ∉ flist A k ->
  areas_inv sp (add_list i k (flip_bit (i / pow (S k)) b k A)) (F ∪ block i k).
Proof.
  intros I Hk Hi H0 Hsp Hd Hb Hn. pose proof (ai_len _ _ _ I) as Hlen. unfold MAX_ORDER in Hlen.
  eapply insert_block_inv; [done|unfold MAX_ORDER; lia|apply toggled_add; [lia|done..]|done..].
Qed.

Lemma free_loop_spec fuel i k z F :
  areas_inv (spanned_pages z) (free_areas z) F -> zone_ok z -> outside z F ->
  (k <= 10)%nat -> (10 <= fuel + k)%nat -> aligned i k -> 0 <= i -> i + pow k <= spanned_pages z -> block i k ## F ->
  wp (free_loop fuel i (i / pow (S k)) (mask_of k) k k)
    (fun r => wp (list_add r.1 r.2) (fun _ => merges z F i k)) z.
Proof.
  revert i k z F. induction fuel as [|fuel IH]; intros i k z F I Hz O Hk Hfuel Hi H0 Hsp Hd;
    cbn [free_loop]; change (MAX_ORDER - 1)%nat with 10%nat; pose proof (ai_len _ _ _ I) as Hlen;
    (destruct (Nat.ltb_spec k 10) as [Hk10|Hk10]; [|assert (k = 10%nat) as -> by lia; wp_step; cbn [fst snd];
      (apply wp_list_add; [rewrite Hlen; unfold MAX_ORDER; lia|]); eexists; (split; [done|]);
      (eapply insert_block_inv; [done|by unfold MAX_ORDER; lia|apply toggled_add_top; rewrite Hlen; unfold MAX_ORDER; lia|done..|lia])]).
  { lia. }
  rewrite (proj2 (Nat.leb_gt _ _)) by (unfold MAX_ORDER; lia). wp_step. apply wp_BUG. wp_step.
  pose proof (pow_pos k) as Hp. pose proof (pow_S k) as HpS.
  assert (0 <= i / pow (S k)) as Hj by (apply Z.div_pos; [done|apply pow_pos]).
  assert (pow (S k) * (i / pow (S k)) <= i) as Hji by (apply Z.mul_div_le, pow_pos).
  assert (bit_of (free_areas z) k (i / pow (S k)) = Some (bool_decide (buddy i k ∈ flist (free_areas z) k))) as Hbit.
  { rewrite (ai_bit _ _ _ I) by (done || lia). by rewrite (pair_listed_buddy (spanned_pages z) _ F). }
  eapply wp_test_and_change_bit; [exact Hbit|]. set (b := bool_decide _) in *.
  destruct b eqn:Eb; cbn [negb]; subst b; [apply bool_decide_eq_true in Eb|apply bool_decide_eq_false in Eb]; cycle 1.
  { wp_step. cbn [fst snd]. apply wp_list_add; [cbn; autorewrite with areas; rewrite Hlen; unfold MAX_ORDER; lia|].
    eexists. split; [done|]. by apply merge_stop. }
  destruct (ai_block _ _ _ I k _ Eb) as (Hba & Hb0 & Hbsp).
  rewrite Z.shiftl_1_l. fold (buddy i k).
  set (z1 := z <| free_areas := _ |>). assert (zone_ok z1) as Hz1 by by apply zone_ok_areas.
  assert (buddy i k / pow (S k) = i / pow (S k)) as Epair by (by apply buddy_pair).
  wp_step. apply wp_bad_range; [done|cbn; lia|]. wp_step. apply wp_BUG.
  wp_step. apply wp_bad_range; [done|cbn; lia|]. wp_step. apply wp_BUG. wp_step.
  apply (wp_list_del k); [cbn; by autorewrite with areas| |].
  { intros c Hc Hpc. apply (O c _ Hc Hpc). apply (listed_free _ _ _ I k _ Eb), block_head. }
  assert (areas_inv (spanned_pages z) (free_areas (z1 <| free_areas := del_list (buddy i k) (free_areas z1) |>))
    (F ∖ block (buddy i k) k)) as I2.
  { eapply (remove_block_inv _ (free_areas z)); [done|done|]. cbn. rewrite <- Epair in *.
    by eapply (toggled_del _ _ F). }
  rewrite mask_S, land_mask_of by (lia || (pose proof (zk_span _ Hz); lia)). fold (parent i k).
  rewrite Z.shiftr_div_pow2 by lia. change (2 ^ 1) with 2. rewrite <- parent_quot.
  assert (F ∪ block i k = F ∖ block (buddy i k) k ∪ block (parent i k) (S k)) as EF.
  { rewrite block_parent by done. pose proof (listed_free _ _ _ I k _ Eb). apply set_eq. intros x.
    destruct (decide (x ∈ block (buddy i k) k)); set_solver. }
  assert (parent i k <= i /\ i < parent i k + pow (S k)) as [Hpi1 Hpi2].
  { unfold parent. pose proof (Z.mod_pos_bound i (pow (S k)) (pow_pos _)). pose proof (Z.div_mod i (pow (S k))). lia. }
  set (z2 := z1 <| free_areas := _ |>) in *.
  apply (wp_mono _ (fun r => wp (list_add r.1 r.2) (fun _ => merges z2 (F ∖ block (buddy i k) k) (parent i k) (S k))));
    [apply (IH (parent i k) (S k) z2 (F ∖ block (buddy i k) k) I2)|].
  - by apply zone_ok_areas.
  - apply (outside_mono z F); [set_solver|done].
  - lia.
  - lia.
  - apply parent_aligned.
  - unfold parent. apply Z.mul_nonneg_nonneg; [apply Z.lt_le_incl, pow_pos|done].
  - cbn. destruct (buddy_cases i k Hi) as [[]|[]]; lia.
  - rewrite block_parent by done. set_solver.
  - intros r s Hr. eapply wp_mono; [exact Hr|]. intros [] z' (A & -> & IA). exists A. split; [done|]. by rewrite EF.
Qed.

Lemma __free_pages_bulk_spec i k z F :
  areas_inv (spanned_pages z) (free_areas z) F -> zone_ok z -> outside z F -> (k < MAX_ORDER)%nat ->
  aligned i k -> 0 <= i -> i + pow k <= spanned_pages z -> block i k ## F ->
  wp (__free_pages_bulk i k k)
    (fun _ => merges (z <| free_pages := u32 (free_pages z + pow k) |>) F i k) z.
Proof.
  intros I Hz O Hk Hi H0 Hsp Hd. pose proof (zk_span _ Hz). pose proof (pow_pos k). unfold MAX_ORDER in Hk.
  unfold __free_pages_bulk. cbv zeta. fold (mask_of k). wp_step. rewrite land_below by (done || lia). apply wp_BUG.
  rewrite !Z.shiftl_1_l, Z.shiftr_div_pow2 by lia. replace (2 ^ (1 + Z.of_nat k)) with (pow (S k)) by (f_equal; lia).
  do 3 wp_step. apply (free_loop_spec MAX_ORDER i k _ F); try done; [by apply (zone_ok_same z)|unfold MAX_ORDER; lia..].
Qed.


(** ** Taking a block *)
Lemma expand_loop_spec n p k z F :
  areas_inv (spanned_pages z) (free_areas z) F -> zone_ok z -> (k + n < MAX_ORDER)%nat ->
  aligned p (k + n) -> 0 <= p -> p + pow (k + n) <= spanned_pages z -> block p (k + n) ## F ->
  wp (expand_loop n p p (pow (k + n)) (k + n) (k + n))
    (fun _ z' => exists A, z' = z <| free_areas := A |> /\
       areas_inv (spanned_pages z) A (F ∪ block p (k + n) ∖ block p k)) z.
Proof.
  revert z F. induction n as [|n IH]; intros z F I Hz Hn Hp H0 Hsp Hd; cbn [expand_loop].
  { wp_step. exists (free_areas z). split; [by destruct z|]. rewrite Nat.add_0_r, difference_diag_L, union_empty_r_L. done. }
  replace (k + S n)%nat with (S (k + n)) in * by lia. cbn [Nat.pred]. set (h := (k + n)%nat) in *.
  rewrite block_S in Hd. destruct (aligned_half p h Hp) as [Ha Ha2]. pose proof (pow_pos h) as Hph. pose proof (pow_S h) as HpS.
  rewrite Z.shiftr_div_pow2 by lia. replace (pow (S h) / 2 ^ 1) with (pow h) by (rewrite HpS; apply (Z.div_unique _ _ _ 0); lia).
  pose proof (zk_span _ Hz) as Hspan. pose proof (ai_len _ _ _ I) as Hlen. unfold MAX_ORDER in *.
  rewrite u32_small by lia. unfold MARK_USED. rewrite Z.shiftr_div_pow2 by lia. replace (2 ^ (1 + Z.of_nat h)) with (pow (S h)) by (f_equal; lia).
  wp_step. apply wp_bad_range; [done|lia|]. wp_step. apply wp_BUG. wp_step. apply wp_list_add; [lia|].
  assert (p = parent (p + pow h) h /\ buddy (p + pow h) h = p) as [Epar Ebud].
  { pose proof (aligned_start (p + pow h) p (S h) Hp) as E.
    rewrite elem_of_block in E. specialize (E ltac:(lia)). destruct (buddy_cases (p + pow h) h Ha2) as [[E1 E2]|[E1 E2]]; unfold parent in *; lia. }
  assert (p ∉ flist (free_areas z) h) as Hnp.
  { intros H. apply (Hd p); [apply elem_of_union_l, block_head|]. apply (listed_free _ _ _ I h p H), block_head. }
  set (j := (p + pow h) / pow (S h)). assert (0 <= j) as Hj by (apply Z.div_pos; [lia|apply pow_pos]).
  assert (pow (S h) * j = p) as Ej by (symmetry; exact Epar).
  assert (exists b, bit_of (free_areas z) h j = Some b) as [b Hb] by (rewrite (ai_bit _ _ _ I) by lia; eauto).
  wp_step. wp_step. eapply wp_test_and_change_bit; [cbn; autorewrite with areas; exact Hb|]. wp_step. cbn.
  set (z1 := z <| free_areas := _ |> <| free_areas := _ |>).
  assert (areas_inv (spanned_pages z1) (free_areas z1) (F ∪ block (p + pow h) h)) as I1.
  { eapply insert_block_inv; [exact I|unfold MAX_ORDER; lia|apply toggled_add; [lia|lia|exact Hb]|done|lia|cbn; lia|set_solver|].
    intros _. by rewrite Ebud. }
  eapply wp_mono; [apply (IH z1 _ I1); try done|].
  - by apply (zone_ok_same z).
  - lia.
  - cbn. lia.
  - intros x Hx [?|Hy]%elem_of_union; [set_solver|]. apply elem_of_block in Hx, Hy. lia.
  - intros [] z' (A & -> & IA). exists A. split; [done|]. cbn in IA.
    replace (F ∪ block p (S h) ∖ block p k) with (F ∪ block (p + pow h) h ∪ block p h ∖ block p k); [done|].
    assert (block p k ⊆ block p h) by (apply (block_nested p); [lia|by apply (aligned_le p k h); [lia|]|done|apply block_head..]).
    assert (block (p + pow h) h ## block p h) by (intros x Hx%elem_of_block Hy%elem_of_block; lia).
    rewrite block_S. set_solver.
Qed.

(** What [__rmqueue] does to the free set. *)
Definition takes (z : zone) (F : gset Z) (k : nat) (r : option Z) (z' : zone) : Prop :=
  match r with
  | Some p => aligned p k /\ block p k ⊆ F /\
      exists A, z' = z <| free_areas := A |> <| free_pages := u32 (free_pages z - pow k) |> /\
        areas_inv (spanned_pages z) A (F ∖ block p k)
  | None => z' = z /\ forall p, aligned p k -> ~ block p k ⊆ F
  end.

Lemma take_block_inv z F k i :
  areas_inv (spanned_pages z) (free_areas z) F -> outside z F -> i ∈ flist (free_areas z) k ->
  wp (list_del i;; when (negb (Nat.eqb k (MAX_ORDER - 1))) (MARK_USED i k k))
    (fun _ z' => exists A, z' = z <| free_areas := A |> /\ areas_inv (spanned_pages z) A (F ∖ block i k)) z.
Proof.
  intros I O Hi. pose proof (listed_lt _ _ _ I k i Hi) as Hk. destruct (ai_block _ _ _ I k i Hi) as (Ha & H0 & Hsp).
  wp_step. apply (wp_list_del k); [done| |].
  { intros c Hc Hpc. apply (O c _ Hc Hpc), (listed_free _ _ _ I k i Hi), block_head. }
  destruct (Nat.eqb_spec k (MAX_ORDER - 1)) as [->|Hne]; cbn [negb when].
  { wp_step. eexists. split; [done|]. eapply remove_block_inv; [done|done|]. by eapply toggled_del_top. }
  unfold MARK_USED. rewrite Z.shiftr_div_pow2 by lia. replace (2 ^ (1 + Z.of_nat k)) with (pow (S k)) by (f_equal; lia).
  pose proof (pow_pos k). pose proof (Z.mul_div_le i (pow (S k)) (pow_pos _)). unfold MAX_ORDER in *.
  assert (0 <= i / pow (S k)) by (apply Z.div_pos; [done|apply pow_pos]).
  assert (exists b, bit_of (free_areas z) k (i / pow (S k)) = Some b) as [b Hb] by (rewrite (ai_bit _ _ _ I) by lia; eauto).
  unfold when. wp_step. eapply wp_test_and_change_bit; [cbn; autorewrite with areas; exact Hb|]. wp_step.
  eexists. split; [done|]. eapply remove_block_inv; [done|done|]. by eapply toggled_del.
Qed.

Lemma wp_reassoc {S A B C} (m : M S A) (k : A -> M S B) (l : B -> M S C) Q s :
  wp (bind (bind m k) l) Q s -> wp (bind m (fun a => bind (k a) l)) Q s.
Proof. unfold wp, bind. by destruct (m s) as [[]|]. Qed.

Lemma rmqueue_loop_spec n k c z F :
  areas_inv (spanned_pages z) (free_areas z) F -> zone_ok z -> outside z F ->
  (k < MAX_ORDER)%nat -> (k <= c)%nat -> (c + n = MAX_ORDER)%nat -> (forall l, (k <= l < c)%nat -> flist (free_areas z) l = []) ->
  wp (rmqueue_loop n k c) (takes z F k) z.
Proof.
  revert c. induction n as [|n IH]; intros c I Hz O Hk Hkc Hcn Hempty; cbn [rmqueue_loop].
  { wp_step. split; [done|]. intros p Hp Hsub.
    destruct (free_block_listed _ _ _ I k p Hk Hp Hsub) as (l & j & Hl & Hj & _).
    pose proof (listed_lt _ _ _ I l j Hj). rewrite Hempty in Hj by lia. by apply elem_of_nil in Hj. }
  assert (c < length (free_areas z))%nat as [a Ha]%lookup_lt_is_Some_2 by (rewrite (ai_len _ _ _ I); lia).
  wp_step. unfold get_area. do 2 wp_step. eapply wp_deref; [done|].
  assert (flist (free_areas z) c = free_list a) as Ea by (unfold flist; by rewrite Ha).
  destruct (free_list a) as [|p l] eqn:El.
  { apply IH; [done..|lia|lia|]. intros l Hl. destruct (decide (l = c)) as [->|]; [done|]. apply Hempty. lia. }
  assert (p ∈ flist (free_areas z) c) as Hp by (rewrite Ea; by left). destruct (ai_block _ _ _ I c p Hp) as (Hal & H0 & Hsp).
  pose proof (zk_span _ Hz). pose proof (pow_pos c). cbv zeta. rewrite u32_small by lia.
  apply wp_reassoc. wp_step. eapply wp_mono; [by apply (take_block_inv z F)|]. intros [] z1 (A1 & -> & I1).
  do 3 wp_step. unfold expand. rewrite !Z.shiftl_1_l. wp_step.
  set (z2 := z <| free_areas := A1 |> <| free_pages := _ |>).
  assert (c = k + (c - k))%nat as Ec by lia.
  assert (wp (expand_loop (c - k) p p (pow c) c c) (fun _ z' => exists A, z' = z2 <| free_areas := A |> /\
    areas_inv (spanned_pages z2) A (F ∖ block p c ∪ block p c ∖ block p k)) z2) as Hexp.
  { pose proof (expand_loop_spec (c - k) p k z2 (F ∖ block p c)) as H'. rewrite <- Ec in H'.
    apply H'; [done|by apply (zone_ok_same z)|lia|done..|set_solver]. }
  eapply wp_mono; [exact Hexp|]. intros [] z3 (A & -> & IA). do 2 wp_step.
  assert (block p k ⊆ block p c) by (apply (block_nested p); [lia|by apply (aligned_le p k c)|done|apply block_head..]).
  pose proof (listed_free _ _ _ I c p Hp) as HpF.
  split_and!; [by apply (aligned_le p k c)|by etrans|]. exists A. split; [done|].
  replace (F ∖ block p k) with (F ∖ block p c ∪ block p c ∖ block p k); [done|].
  apply set_eq. intros x. destruct (decide (x ∈ block p c)); set_solver.
Qed.

Lemma __rmqueue_spec k z F :
  areas_inv (spanned_pages z) (free_areas z) F -> zone_ok z -> outside z F -> (k < MAX_ORDER)%nat ->
  wp (__rmqueue k) (takes z F k) z.
Proof. intros I Hz O Hk. apply rmqueue_loop_spec; [done..|lia|lia|intros l; lia]. Qed.
