(* ===== verification/BuddyZone.v ===== *)
(** * The buddy allocator: pages and per-CPU caches

    The caches hold single pages outside the lists.  [zone_inv z T]: the lists
    and the caches together stand for the set [T] of available pages, and the
    counters agree with them. *)
From S2P Require Import Prelude.
From S2P Require Import Buddy.
From S2P Require Import BuddySpec.
From S2P Require Import BuddyOps.

(** ** The caches *)
Definition caches (z : zone) : list Z := concat (plist <$> pcp z).
Definition other_caches (c : nat) (z : zone) : list Z := concat (plist <$> delete c (pcp z)).

Lemma delete_alter {A} (f : A -> A) c (l : list A) : delete c (alter f c l) = delete c l.
Proof. revert c. induction l as [|x l IH]; intros [|c]; simpl; [done..|]. f_equal. apply IH. Qed.

Lemma elem_of_delete_ne {A} (l : list A) i j x : l !! j = Some x -> j <> i -> x ∈ delete i l.
Proof.
  intros Hj Hne. destruct (decide (j < i)%nat).
  - apply (list_elem_of_lookup_2 _ j). by rewrite list_lookup_delete_lt.
  - destruct j as [|j]; [lia|]. apply (list_elem_of_lookup_2 _ j). rewrite list_lookup_delete_ge by lia. done.
Qed.

Lemma caches_split z c pc : pcp z !! c = Some pc -> caches z ≡ₚ plist pc ++ other_caches c z.
Proof.
  intros H. unfold caches, other_caches. rewrite (delete_Permutation _ _ _ H) at 1. by rewrite fmap_cons.
Qed.

Lemma elem_of_caches z p : p ∈ caches z <-> exists c pc, pcp z !! c = Some pc /\ p ∈ plist pc.
Proof.
  unfold caches. rewrite list_elem_of_In, in_concat. split.
  - intros (l & Hl%list_elem_of_In%list_elem_of_fmap & Hp%list_elem_of_In). destruct Hl as (pc & -> & [c Hc]%list_elem_of_lookup).
    eauto.
  - intros (c & pc & Hc & Hp). exists (plist pc). rewrite <- !list_elem_of_In. split; [|done].
    apply list_elem_of_fmap. exists pc. split; [done|]. by eapply list_elem_of_lookup_2.
Qed.

(** ** The invariant *)
Record base_inv (z : zone) (F : gset Z) : Prop := {
  bi_areas : areas_inv (spanned_pages z) (free_areas z) F;
  bi_ok : zone_ok z;
  bi_free : free_pages z = Z.of_nat (size F);
  bi_pcp : length (pcp z) = 2%nat;
  bi_nodup : NoDup (caches z);
  bi_cached p : p ∈ caches z -> (p ∉ F) /\ 0 <= p < spanned_pages z
}.

Definition counted (pc : per_cpu_pages) : Prop := count pc = Z.of_nat (length (plist pc)).

Definition zone_inv (z : zone) (T : gset Z) : Prop :=
  exists F, base_inv z F /\ Forall counted (pcp z) /\ T = F ∪ list_to_set (caches z).

Lemma base_outside z F : base_inv z F -> outside z F.
Proof.
  intros I c p [i Hi]%list_elem_of_lookup Hp. apply (bi_cached _ _ I). apply elem_of_caches. eauto.
Qed.

Lemma size_range (F : gset Z) n : (forall x, x ∈ F -> 0 <= x < n) -> 0 <= n -> Z.of_nat (size F) <= n.
Proof.
  intros HF Hn. assert (F ⊆ list_to_set (seqZ 0 n)) as Hsub.
  { intros x Hx%HF. apply elem_of_list_to_set, elem_of_seqZ. lia. }
  apply subseteq_size in Hsub. rewrite size_list_to_set, length_seqZ in Hsub by apply NoDup_seqZ. lia.
Qed.

(** ** Pages *)

(** Only pages of [S] have changed, and they stay in their zone. *)
Definition touched (S : gset Z) (m m' : list page) : Prop :=
  length m' = length m /\
  forall i pg', m' !! i = Some pg' -> exists pg, m !! i = Some pg /\ page_zone pg' = page_zone pg /\
    (Z.of_nat i ∉ S -> pg' = pg).

Lemma touched_refl S m : touched S m m.
Proof. split; [done|]. eauto. Qed.
Lemma touched_trans S m1 m2 m3 : touched S m1 m2 -> touched S m2 m3 -> touched S m1 m3.
Proof.
  intros [L1 H1] [L2 H2]. split; [congruence|]. intros i pg3 H3. destruct (H2 _ _ H3) as (pg2 & E2 & Z2 & S2).
  destruct (H1 _ _ E2) as (pg1 & E1 & Z1 & S1). exists pg1. split_and!; [done|congruence|]. intros Hi. rewrite S2, S1; done.
Qed.
Lemma touched_mono S S' m m' : S ⊆ S' -> touched S m m' -> touched S' m m'.
Proof.
  intros HS [L H]. split; [done|]. intros i pg' E. destruct (H _ _ E) as (pg & E1 & E2 & E3). exists pg.
  split_and!; [done..|]. intros Hi. apply E3. set_solver.
Qed.
Lemma touched_alter f p m : 0 <= p -> (forall pg, page_zone (f pg) = page_zone pg) ->
  touched {[p]} m (alter f (Z.to_nat p) m).
Proof.
  intros Hp Hf. split; [apply length_alter|]. intros i pg' H. destruct (decide (i = Z.to_nat p)) as [->|Hne].
  - rewrite list_lookup_alter_eq in H. destruct (m !! Z.to_nat p) as [pg|]; [|done]. injection H as <-.
    exists pg. split_and!; [done|apply Hf|]. intros []. apply elem_of_singleton. lia.
  - rewrite list_lookup_alter_ne in H by done. eauto.
Qed.

Lemma zone_ok_touched S z z' :
  spanned_pages z' = spanned_pages z -> zone_id z' = zone_id z -> touched S (mem_map z) (mem_map z') -> zone_ok z -> zone_ok z'.
Proof.
  intros E1 E2 [L H] [K1 K2 K3]. split; [by rewrite E1|by rewrite L, E1|].
  intros pg' [i Hi]%list_elem_of_lookup. destruct (H _ _ Hi) as (pg & E & -> & _). rewrite E2. by eapply K3, list_elem_of_lookup_2.
Qed.

(** The fields the lists, the caches and the counters do not touch. *)
Definition frame (S : gset Z) (z z' : zone) : Prop :=
  spanned_pages z' = spanned_pages z /\ zone_id z' = zone_id z /\ touched S (mem_map z) (mem_map z').

Lemma zframe_refl S z : frame S z z.
Proof. split_and!; [done..|apply touched_refl]. Qed.
Lemma frame_trans S z1 z2 z3 : frame S z1 z2 -> frame S z2 z3 -> frame S z1 z3.
Proof. intros (?&?&?) (?&?&?). split_and!; [congruence..|by eapply touched_trans]. Qed.
Lemma frame_mono S S' z z' : S ⊆ S' -> frame S z z' -> frame S' z z'.
Proof. intros ? (?&?&?). split_and!; [done..|by eapply touched_mono]. Qed.

(** Operations on pages keep the lists, the caches and the counters. *)
Definition same_lists (z z' : zone) : Prop :=
  free_areas z' = free_areas z /\ pcp z' = pcp z /\ free_pages z' = free_pages z.

Lemma base_inv_same S z z' F : frame S z z' -> same_lists z z' -> base_inv z F -> base_inv z' F.
Proof.
  intros (E1 & E2 & T) (E3 & E4 & E5) []. split; unfold caches in *; rewrite ?E1, ?E3, ?E4, ?E5; try done.
  by eapply zone_ok_touched.
Qed.

(** [pages S z m]: [m] runs from [z] and changes pages of [S] only. *)
Definition on_pages {A} (S : gset Z) (z : zone) (m : M zone A) : Prop :=
  wp m (fun _ z' => frame S z z' /\ same_lists z z') z.

Lemma on_pages_bind {A B} S z (m : M zone A) (k : A -> M zone B) :
  zone_ok z -> on_pages S z m -> (forall a z', zone_ok z' -> spanned_pages z' = spanned_pages z -> on_pages S z' (k a)) ->
  on_pages S z (bind m k).
Proof.
  intros Hz Hm Hk. apply wp_bind. eapply wp_mono; [exact Hm|]. intros a z1 [F1 (L1 & L2 & L3)].
  pose proof F1 as (E1 & E2 & T1).
  eapply wp_mono; [apply Hk; [by eapply zone_ok_touched|done]|]. intros b z2 [F2 (M1 & M2 & M3)].
  split; [by eapply frame_trans|]. split_and!; congruence.
Qed.
Lemma on_pages_ret {A} S z (a : A) : on_pages S z (ret a).
Proof. apply wp_ret. split; [apply zframe_refl|by split_and!]. Qed.
Lemma on_pages_when S z b m : on_pages S z m -> on_pages S z (when b m).
Proof. destruct b; [done|]. intros _. apply on_pages_ret. Qed.
Lemma on_pages_get S z p : zone_ok z -> 0 <= p < spanned_pages z -> on_pages S z (get_page p).
Proof. intros Hz Hp. apply wp_get_page; [done..|]. intros pg _ _. split; [apply zframe_refl|by split_and!]. Qed.

Lemma wp_set_page p f z (Q : unit -> zone -> Prop) : zone_ok z -> 0 <= p < spanned_pages z ->
  Q tt (z <| mem_map := alter f (Z.to_nat p) (mem_map z) |>) -> wp (set_page p f) Q z.
Proof. intros Hz Hp HQ. unfold set_page. wp_step. apply wp_get_page; [done..|]. intros pg _ _. by wp_step. Qed.
Lemma on_pages_set (S : gset Z) z p f : zone_ok z -> 0 <= p < spanned_pages z -> p ∈ S ->
  (forall pg, page_zone (f pg) = page_zone pg) -> on_pages S z (set_page p f).
Proof.
  intros Hz Hp HS Hf. apply wp_set_page; [done..|]. split; [|by split_and!]. split_and!; [done..|].
  apply (touched_mono {[p]}); [set_solver|]. apply touched_alter; [lia|done].
Qed.

Ltac pages := repeat lazymatch goal with
  | |- on_pages _ _ (bind _ _) => apply on_pages_bind; [done| |intros ? ? ? ?]
  | |- on_pages _ _ (ret _) => apply on_pages_ret
  | |- on_pages _ _ (when _ _) => apply on_pages_when
  | |- on_pages _ _ (get_page _) => apply on_pages_get; [done|lia]
  | |- on_pages _ _ (set_page _ _) =>
      apply on_pages_set; [done|lia|set_solver|by intros ?; cbn; unfold set_page_count; repeat case_match]
  end.

Lemma bad_page_pages S z p : zone_ok z -> 0 <= p < spanned_pages z -> p ∈ S -> on_pages S z (bad_page p).
Proof.
  intros. unfold bad_page. apply on_pages_bind; [done| |intros ? ? ? ?; pages].
  apply wp_modify. split; [split_and!; [done..|apply touched_refl]|by split_and!].
Qed.

Lemma free_pages_check_pages S z p : zone_ok z -> 0 <= p < spanned_pages z -> p ∈ S -> on_pages S z (free_pages_check p).
Proof. intros. unfold free_pages_check. pages. apply bad_page_pages; [done|lia|done]. Qed.

(** After an operation on pages the rest runs from a state of the same shape. *)
Lemma wp_pages {A B} S z (m : M zone A) (k : A -> M zone B) Q :
  zone_ok z -> on_pages S z m ->
  (forall a z', zone_ok z' -> frame S z z' -> same_lists z z' -> wp (k a) Q z') -> wp (bind m k) Q z.
Proof.
  intros Hz Hm Hk. apply wp_bind. eapply wp_mono; [exact Hm|]. intros a z1 [F1 L1]. apply Hk; [|done..].
  destruct F1 as (?&?&?). by eapply zone_ok_touched.
Qed.

Lemma same_lists_trans z1 z2 z3 : same_lists z1 z2 -> same_lists z2 z3 -> same_lists z1 z3.
Proof. intros (?&?&?) (?&?&?). split_and!; congruence. Qed.

Lemma lookup_page z p : zone_ok z -> 0 <= p < spanned_pages z -> is_Some (mem_map z !! Z.to_nat p).
Proof. intros Hz Hp. apply lookup_lt_is_Some_2. rewrite (zk_len _ Hz). lia. Qed.

Lemma prep_new_page_spec z p k : zone_ok z -> 0 <= p < spanned_pages z ->
  wp (prep_new_page p k) (fun _ z' => frame {[p]} z z' /\ same_lists z z' /\
    exists pg, mem_map z' !! Z.to_nat p = Some pg /\ _count pg = 0) z.
Proof.
  intros Hz Hp. unfold prep_new_page.
  apply (wp_pages {[p]}); [done|pages|]. intros pg z1 Hz1 F1 L1.
  apply (wp_pages {[p]}); [done|pages; apply bad_page_pages; [done|by destruct F1 as (->&_&_)|set_solver]|]. intros [] z2 Hz2 F2 L2.
  pose proof F1 as (E1&_&_). pose proof F2 as (E2&_&_).
  apply (wp_pages {[p]}); [done|pages|]. intros [] z3 Hz3 F3 L3. pose proof F3 as (E3&_&_).
  apply wp_set_page; [done|lia|]. destruct (lookup_page z3 p Hz3 ltac:(lia)) as [pg3 Hpg3]. split_and!.
  - eapply frame_trans; [|eapply frame_trans; [exact F2|eapply frame_trans; [exact F3|]]]; [done|].
    split_and!; [done..|]. apply touched_alter; [lia|done].
  - eapply same_lists_trans; [exact L1|]. eapply same_lists_trans; [exact L2|]. eapply same_lists_trans; [exact L3|]. by split_and!.
  - cbn. rewrite list_lookup_alter_eq, Hpg3. by eexists.
Qed.

(** ** The caches and the lists exchange pages *)
Definition with_plist (c : nat) (l : list Z) (z : zone) : zone :=
  z <| pcp := alter (fun pc => pc <| plist := l |>) c (pcp z) |>.

Lemma caches_with z c pc l : pcp z !! c = Some pc -> caches (with_plist c l z) ≡ₚ l ++ other_caches c z.
Proof.
  intros Hc. rewrite (caches_split _ c (pc <| plist := l |>)).
  - unfold other_caches, with_plist. cbn. by rewrite delete_alter.
  - unfold with_plist. cbn. by rewrite list_lookup_alter_eq, Hc.
Qed.

Lemma wp_get_pcp c pc z (Q : per_cpu_pages -> zone -> Prop) : pcp z !! c = Some pc -> Q pc z -> wp (get_pcp c) Q z.
Proof. intros Hc HQ. unfold get_pcp. do 2 wp_step. by eapply wp_deref. Qed.
Lemma wp_set_pcp c pc f z (Q : unit -> zone -> Prop) : pcp z !! c = Some pc ->
  Q tt (z <| pcp := alter f c (pcp z) |>) -> wp (set_pcp c f) Q z.
Proof. intros Hc HQ. unfold set_pcp. wp_step. eapply wp_get_pcp; [done|]. by wp_step. Qed.

(** [list_del] of a cached page. *)
Lemma wp_uncache c pc p z F (Q : unit -> zone -> Prop) :
  base_inv z F -> pcp z !! c = Some pc -> p ∈ plist pc ->
  Q tt (with_plist c (filter (fun q => q <> p) (plist pc)) z) -> wp (list_del p) Q z.
Proof.
  intros I Hc Hp HQ. unfold wp, list_del.
  assert (existsb (fun c => bool_decide (p ∈ plist c)) (pcp z) = true) as ->.
  { apply existsb_exists. exists pc. split; [apply list_elem_of_In; by eapply list_elem_of_lookup_2|]. by apply bool_decide_true. }
  rewrite orb_true_r.
  assert (p ∉ F) as HpF by (apply (bi_cached _ _ I), elem_of_caches; eauto).
  assert (((fun a => a <| free_list := filter (fun q => q <> p) (free_list a) |>) <$> free_areas z) = free_areas z) as ->.
  { rewrite <- (list_fmap_id (free_areas z)) at 2. apply list_fmap_ext. intros k a Ha.
    assert (filter (fun q => q <> p) (free_list a) = free_list a) as E.
    { apply filter_absent. intros Hin. apply HpF. apply (listed_free _ _ _ (bi_areas _ _ I) k p); [|apply block_head].
      unfold flist. by rewrite Ha. }
    destruct a. cbn in *. by rewrite E. }
  assert (((fun c => c <| plist := filter (fun q => q <> p) (plist c) |>) <$> pcp z) =
    alter (fun pc' => pc' <| plist := filter (fun q => q <> p) (plist pc) |>) c (pcp z)) as ->.
  { apply list_eq. intros i. rewrite list_lookup_fmap. destruct (decide (i = c)) as [->|Hne].
    - by rewrite list_lookup_alter_eq, Hc.
    - rewrite list_lookup_alter_ne by done. destruct (pcp z !! i) as [pi|] eqn:Ei; [|done]. cbn. f_equal.
      assert (p ∉ plist pi) as Hpi.
      { intros Hpi. pose proof (bi_nodup _ _ I) as Hnd. rewrite (caches_split z c pc Hc) in Hnd.
        apply NoDup_app in Hnd as (_ & Hdis & _). apply (Hdis p Hp). unfold other_caches.
        apply list_elem_of_In, in_concat. exists (plist pi). rewrite <- !list_elem_of_In. split; [|done].
        apply list_elem_of_fmap. exists pi. split; [done|]. by eapply elem_of_delete_ne. }
      destruct pi. cbn in *. by rewrite filter_absent. }
  destruct z. exact HQ.
Qed.

(** A page leaves a cache, and then the lists take it. *)
Lemma base_uncache z F c pc l :
  base_inv z F -> pcp z !! c = Some pc -> NoDup l -> l ⊆ plist pc -> base_inv (with_plist c l z) F.
Proof.
  intros [] Hc Hl Hsub. rewrite (caches_split z c pc Hc) in bi_nodup0. apply NoDup_app in bi_nodup0 as (_ & Hdis & Hoth).
  split; try done; [by apply (zone_ok_same z)|unfold with_plist; cbn; by rewrite length_alter|..].
  - rewrite caches_with by done. apply NoDup_app. split_and!; [done| |done]. intros x Hx. apply Hdis. by apply Hsub.
  - intros p. rewrite (caches_with z c pc l Hc). intros Hp. apply bi_cached0.
    rewrite (caches_split z c pc Hc). set_solver.
Qed.

Lemma free_block z F i k :
  base_inv z F -> (k < MAX_ORDER)%nat -> aligned i k -> 0 <= i -> i + pow k <= spanned_pages z -> block i k ## F ->
  (forall p, p ∈ caches z -> p ∉ block i k) ->
  wp (__free_pages_bulk i k k) (fun _ z' => base_inv z' (F ∪ block i k) /\ frame ∅ z z' /\ pcp z' = pcp z) z.
Proof.
  intros I Hk Ha H0 Hsp Hd Hc. pose proof (bi_ok _ _ I) as Hz. pose proof (zk_span _ Hz).
  eapply wp_mono; [apply (__free_pages_bulk_spec i k z F); [apply I|done|by apply base_outside|done..]|].
  intros [] z' (A & -> & IA). assert (Z.of_nat (size (F ∪ block i k)) <= spanned_pages z) as Hsize.
  { apply size_range; [|lia]. apply (free_range _ _ _ IA). }
  split_and!; [|split_and!; [done..|apply touched_refl]|done]. split; [done|by apply (zone_ok_same z)| |apply I..|].
  - cbn. rewrite (bi_free _ _ I). rewrite size_union in Hsize |- * by (symmetry; done).
    rewrite Nat2Z.inj_add, size_block in Hsize |- *. apply u32_small. pose proof (pow_pos k). lia.
  - cbn. intros p Hp. destruct (bi_cached _ _ I p Hp). split; [|done]. intros [?|?]%elem_of_union; [done|]. by eapply Hc.
Qed.

Lemma take_block z F k :
  base_inv z F -> (k < MAX_ORDER)%nat ->
  wp (__rmqueue k) (fun r z' => frame ∅ z z' /\ pcp z' = pcp z /\
    match r with
    | Some p => aligned p k /\ block p k ⊆ F /\ base_inv z' (F ∖ block p k)
    | None => z' = z /\ forall p, aligned p k -> ~ block p k ⊆ F
    end) z.
Proof.
  intros I Hk. pose proof (bi_ok _ _ I) as Hz. pose proof (zk_span _ Hz).
  eapply wp_mono; [apply (__rmqueue_spec k z F); [apply I|done|by apply base_outside|done]|].
  intros [p|] z'; cbn; [|intros [-> Hno]; split_and!; [apply zframe_refl|done..]].
  intros (Ha & Hsub & A & -> & IA). split_and!; [split_and!; [done..|apply touched_refl]|done..|].
  assert (Z.of_nat (size F) <= spanned_pages z) by (apply size_range; [apply (free_range _ _ _ (bi_areas _ _ I))|lia]).
  split; [done|by apply (zone_ok_same z)| |apply I..|].
  - cbn. rewrite (bi_free _ _ I). rewrite size_difference by done. pose proof (subseteq_size _ _ Hsub).
    rewrite Nat2Z.inj_sub, size_block by done. apply u32_small. pose proof (pow_pos k). pose proof (size_block p k). lia.
  - cbn. intros q Hq. destruct (bi_cached _ _ I q Hq). split; [set_solver|done].
Qed.

(** The last page of a cache. *)
Lemma filter_snoc l (p : Z) : NoDup (l ++ [p]) -> filter (fun q => q <> p) (l ++ [p]) = l.
Proof.
  intros (_ & Hd & _)%NoDup_app. rewrite filter_app, filter_cons_False, app_nil_r by auto.
  apply filter_absent. intros Hp. apply (Hd p Hp). by left.
Qed.

Lemma cached_nodup z F c pc : base_inv z F -> pcp z !! c = Some pc -> NoDup (plist pc).
Proof. intros I Hc. pose proof (bi_nodup _ _ I) as H. rewrite (caches_split z c pc Hc) in H. by apply NoDup_app in H as (H & _). Qed.

Lemma with_plist_same c pc z : pcp z !! c = Some pc -> with_plist c (plist pc) z = z.
Proof.
  intros Hc. assert (alter (fun pc' => pc' <| plist := plist pc |>) c (pcp z) = pcp z) as E.
  { apply list_eq. intros i. destruct (decide (i = c)) as [->|Hne]; [|by rewrite list_lookup_alter_ne].
    rewrite list_lookup_alter_eq, Hc. by destruct pc. }
  unfold with_plist. destruct z. cbn in *. by rewrite E.
Qed.

Lemma with_plist_lookup c pc l z : pcp z !! c = Some pc -> pcp (with_plist c l z) !! c = Some (pc <| plist := l |>).
Proof. intros Hc. unfold with_plist. cbn. by rewrite list_lookup_alter_eq, Hc. Qed.

Lemma with_plist_twice c l l' z : pcp (with_plist c l (with_plist c l' z)) = pcp (with_plist c l z).
Proof.
  apply list_eq. intros i. unfold with_plist. cbn. destruct (decide (i = c)) as [->|Hne].
  - rewrite !list_lookup_alter_eq. by destruct (pcp z !! c).
  - by rewrite !list_lookup_alter_ne.
Qed.

(** Pages move from the end of cache [c] into the lists. *)
Definition spilled (c : nat) (pc : per_cpu_pages) (z : zone) (F : gset Z) (n : Z) (z' : zone) : Prop :=
  exists l l', plist pc = l ++ l' /\ pcp z' = pcp (with_plist c l z) /\ base_inv z' (F ∪ list_to_set l') /\
    frame ∅ z z' /\ n = Z.of_nat (length l').

Lemma spilled_none c pc z F : base_inv z F -> pcp z !! c = Some pc -> spilled c pc z F 0 z.
Proof.
  intros I Hc. exists (plist pc), []. rewrite app_nil_r, with_plist_same by done. cbn. rewrite union_empty_r_L.
  split_and!; [done..|apply zframe_refl|done].
Qed.

Lemma free_bulk_loop_spec fuel cnt c pc z F dn :
  base_inv z F -> pcp z !! c = Some pc -> (length (plist pc) <= fuel)%nat ->
  wp (free_bulk_loop fuel cnt c 0 dn) (fun n => spilled c pc z F (n - dn)) z.
Proof.
  revert cnt pc z F dn. induction fuel as [|fuel IH]; intros cnt pc z F dn I Hc Hlen; cbn [free_bulk_loop];
    wp_step; wp_step; (eapply wp_get_pcp; [exact Hc|]); wp_step;
    (destruct (last (plist pc)) as [p|] eqn:El; [|wp_step; rewrite Z.sub_diag; by apply spilled_none]);
    (destruct (cnt =? 0); [wp_step; rewrite Z.sub_diag; by apply spilled_none|]);
    apply last_Some in El as [l El].
  { rewrite El, length_app in Hlen. simpl in Hlen. lia. }
  pose proof (cached_nodup z F c pc I Hc) as Hnd. rewrite El in Hnd. pose proof Hnd as (Hndl & Hnp & _)%NoDup_app.
  wp_step. eapply (wp_uncache c pc p z F); [done..|rewrite El; set_solver|]. rewrite El, filter_snoc by done.
  set (z1 := with_plist c l z). assert (base_inv z1 F) as I1 by
    (apply (base_uncache z F c pc); [done..|]; intros x Hx; rewrite El; apply elem_of_app; by left).
  destruct (bi_cached _ _ I p) as [HpF Hrange]; [apply elem_of_caches; exists c, pc; rewrite El; set_solver|].
  wp_step. eapply wp_mono; [apply (free_block z1 F p 0); [done|unfold MAX_ORDER; lia|by exists p; lia|lia|cbn; lia|..]|].
  { intros x Hx%elem_of_block. cbn in Hx. by assert (x = p) as -> by lia. }
  { intros q Hq Hb%elem_of_block. cbn in Hb. assert (q = p) as -> by lia. unfold z1 in Hq. rewrite (caches_with _ _ pc) in Hq by done.
    pose proof (bi_nodup _ _ I) as Hall. rewrite (caches_split z c pc Hc), El in Hall. apply NoDup_app in Hall as (_ & Hd & _).
    apply elem_of_app in Hq as [Hq|Hq]; [apply (Hnp p Hq); by left|]. apply (Hd p); [set_solver|done]. }
  intros [] z2 (I2 & F2 & E2). assert (pcp z2 !! c = Some (pc <| plist := l |>)) as Hc2 by (rewrite E2; by apply with_plist_lookup).
  eapply wp_mono; [apply (IH _ _ _ _ _ I2 Hc2)|].
  { cbn. rewrite El, length_app in Hlen. simpl in Hlen. lia. }
  intros n z3 (m & m' & Em & E3 & I3 & F3 & En). cbn in Em. exists m, (m' ++ [p]). split_and!.
  - by rewrite El, Em, app_assoc.
  - rewrite E3. unfold with_plist at 1. cbn. rewrite E2. apply (with_plist_twice c m l z).
  - replace (F ∪ list_to_set (m' ++ [p])) with (F ∪ block p 0 ∪ list_to_set m' : gset Z); [done|].
    rewrite list_to_set_app_L. unfold block. cbn. set_solver.
  - eapply frame_trans; [|exact F3]. eapply frame_trans; [|exact F2]. split_and!; [done..|apply touched_refl].
  - rewrite length_app. simpl. lia.
Qed.

Lemma free_pages_bulk_spec cnt c pc z F :
  base_inv z F -> pcp z !! c = Some pc -> wp (free_pages_bulk cnt c 0) (spilled c pc z F) z.
Proof.
  intros I Hc. unfold free_pages_bulk, reclaim_reset. do 4 wp_step. eapply wp_get_pcp; [exact Hc|]. wp_step.
  set (z1 := z <| all_unreclaimable := _ |> <| pages_scanned := _ |>).
  assert (base_inv z1 F) as I1 by (eapply (base_inv_same ∅ z); [split_and!; [done..|apply touched_refl]|by split_and!|done]).
  eapply wp_mono; [by apply (free_bulk_loop_spec _ cnt c pc z1 F 0)|]. intros n z' H. cbv beta in H.
  rewrite Z.sub_0_r in H. exact H.
Qed.

(** [rmqueue_bulk] moves single pages from the lists to the end of a cache. *)
Lemma rmqueue_bulk_loop_spec n c pc z F a :
  base_inv z F -> pcp z !! c = Some pc ->
  wp (rmqueue_bulk_loop n 0 c a) (fun r z' => exists l,
    list_to_set l ⊆ F /\ pcp z' = pcp (with_plist c (plist pc ++ l) z) /\ base_inv z' (F ∖ list_to_set l) /\
    frame ∅ z z' /\ r = a + Z.of_nat (length l)) z.
Proof.
  revert pc z F a. induction n as [|n IH]; intros pc z F a I Hc; cbn [rmqueue_bulk_loop].
  all: assert (forall r, r = a -> exists l, list_to_set l ⊆ F /\ pcp z = pcp (with_plist c (plist pc ++ l) z) /\
    base_inv z (F ∖ list_to_set l) /\ frame ∅ z z /\ r = a + Z.of_nat (length l)) as Hstop by
    (intros r ->; exists []; rewrite app_nil_r, with_plist_same by done; cbn; rewrite difference_empty_L;
     split_and!; [set_solver|done..|apply zframe_refl|lia]).
  { wp_step. by apply Hstop. }
  wp_step. eapply wp_mono; [apply (take_block z F 0 I); unfold MAX_ORDER; lia|].
  intros [p|] z1 (F1 & E1 & H); [|destruct H as [-> _]; wp_step; by apply Hstop].
  destruct H as (_ & Hsub & I1). assert (block p 0 = {[p]}) as Eb by (unfold block; cbn; set_solver). rewrite Eb in *.
  assert (p ∈ F) as HpF by set_solver. pose proof (free_range _ _ _ (bi_areas _ _ I) p HpF) as Hrange.
  wp_step. eapply (wp_set_pcp c pc); [by rewrite E1|].
  set (z2 := z1 <| pcp := _ |>).
  assert (z2 = with_plist c (plist pc ++ [p]) z1) as Ez2.
  { unfold z2, with_plist.
    assert (alter (fun c => c <| plist := plist c ++ [p] |>) c (pcp z1) =
            alter (fun c => c <| plist := plist pc ++ [p] |>) c (pcp z1)) as ->; [|done].
    apply list_eq. intros i. destruct (decide (i = c)) as [->|]; [|by rewrite !list_lookup_alter_ne].
    by rewrite !list_lookup_alter_eq, E1, Hc. }
  assert (pcp z2 !! c = Some (pc <| plist := plist pc ++ [p] |>)) as Hc2.
  { rewrite Ez2. apply with_plist_lookup. by rewrite E1. }
  assert (caches z1 = caches z) as Ecz by (unfold caches; by rewrite E1).
  assert (pcp z1 !! c = Some pc) as Hc1 by (by rewrite E1).
  assert (p ∉ caches z) as Hnc by (intros Hp; by destruct (bi_cached _ _ I p Hp)).
  assert (base_inv z2 (F ∖ {[p]})) as I2.
  { rewrite Ez2. destruct I1. split; try done; [by apply (zone_ok_same z1)|unfold with_plist; cbn; by rewrite length_alter|..].
    - rewrite (caches_with z1 c pc) by done. rewrite <- app_assoc, (Permutation_app_comm [p]), app_assoc, <- (caches_split z1 c pc) by done.
      apply NoDup_app. split_and!; [done| |apply NoDup_singleton]. intros x Hx ->%list_elem_of_singleton. by rewrite Ecz in Hx.
    - intros q. rewrite (caches_with z1 c pc) by done. rewrite <- app_assoc, (Permutation_app_comm [p]), app_assoc, <- (caches_split z1 c pc) by done.
      intros [Hq| ->%list_elem_of_singleton]%elem_of_app; [by apply bi_cached0|]. destruct F1 as (Es&_&_). cbn. rewrite Es. set_solver. }
  eapply wp_mono; [apply (IH _ _ _ _ I2 Hc2)|]. intros r z3 (l & Hl & E3 & I3 & F3 & Er). exists (p :: l). split_and!.
  - cbn. set_solver.
  - rewrite E3, Ez2. cbn [plist]. rewrite with_plist_twice. unfold with_plist. cbn. by rewrite E1, <- app_assoc.
  - cbn. by rewrite <- difference_difference_l_L.
  - eapply frame_trans; [exact F1|]. eapply frame_trans; [|exact F3]. split_and!; [done..|apply touched_refl].
  - simpl. lia.
Qed.
