(* ===== verification/BuddyAlloc.v ===== *)
(** * The page allocator of a zone as a set of pages

    The calls of the zone on its set of available pages: freeing adds a block,
    allocation takes one away, draining the caches changes nothing. *)
From S2P Require Import Prelude.
From S2P Require Import Buddy.
From S2P Require Import BuddySpec.
From S2P Require Import BuddyOps.
From S2P Require Import BuddyZone.

Abbreviation cached z := (list_to_set (caches z) : gset Z).

(** Changes of a cache that keep its pages. *)
Lemma caches_recount z c f :
  (forall pc, plist (f pc) = plist pc) -> caches (z <| pcp := alter f c (pcp z) |>) = caches z.
Proof.
  intros Hf. unfold caches. cbn. f_equal. apply list_eq. intros i. rewrite !list_lookup_fmap. destruct (decide (i = c)) as [->|].
  - rewrite list_lookup_alter_eq. destruct (pcp z !! c) as [pc|]; [|done]. cbn. by rewrite Hf.
  - by rewrite list_lookup_alter_ne.
Qed.
Lemma base_recount z F c f :
  (forall pc, plist (f pc) = plist pc) -> base_inv z F -> base_inv (z <| pcp := alter f c (pcp z) |>) F.
Proof.
  intros Hf I. pose proof (caches_recount z c f Hf) as E. destruct I. split; rewrite ?E; try done; [by apply (zone_ok_same z)|cbn; by rewrite length_alter].
Qed.

Lemma frame_pcp S z l : frame S z (z <| pcp := l |>).
Proof. split_and!; [done..|apply touched_refl]. Qed.

Lemma pcp_lookup z F c : base_inv z F -> (c < 2)%nat -> exists pc, pcp z !! c = Some pc.
Proof. intros I Hc. apply lookup_lt_is_Some_2. by rewrite (bi_pcp _ _ I). Qed.

Lemma zone_inv_same S z z' T : frame S z z' -> same_lists z z' -> zone_inv z T -> zone_inv z' T.
Proof.
  intros Hf L (F & I & C & ->). exists F. pose proof L as (_ & E & _). unfold caches. rewrite E. split_and!; [|done..].
  by eapply base_inv_same.
Qed.

Lemma zone_inv_ok z T : zone_inv z T -> zone_ok z.
Proof. intros (F & I & _). apply I. Qed.

Lemma zone_inv_range z T : zone_inv z T -> forall x, x ∈ T -> 0 <= x < spanned_pages z.
Proof.
  intros (F & I & _ & ->) x [Hx|Hx%elem_of_list_to_set]%elem_of_union.
  - by apply (free_range _ _ _ (bi_areas _ _ I)).
  - by destruct (bi_cached _ _ I x Hx).
Qed.

(** What a cache gives up, the lists take. *)
Lemma spill_counts c pc z F T n z' :
  base_inv z F -> Forall counted (pcp z) -> T = F ∪ cached z -> pcp z !! c = Some pc -> spilled c pc z F n z' ->
  zone_inv (z' <| pcp := alter (fun pc => pc <| count := count pc - n |>) c (pcp z') |>) T.
Proof.
  intros I C -> Hc (l & l' & El & Ep & I' & Hf & ->).
  assert (caches z' = caches (with_plist c l z)) as Ec by (unfold caches; by rewrite Ep).
  exists (F ∪ list_to_set l'). split_and!.
  - by apply base_recount.
  - cbn. rewrite Ep. unfold with_plist. cbn. apply Forall_forall. intros x [i Hi]%list_elem_of_lookup.
    destruct (decide (i = c)) as [->|].
    + rewrite !list_lookup_alter_eq, Hc in Hi. injection Hi as <-. unfold counted. cbn.
      apply (Forall_lookup_1 _ _ _ _ C) in Hc. unfold counted in Hc. rewrite El, length_app in Hc. lia.
    + rewrite !list_lookup_alter_ne in Hi by done. by eapply Forall_lookup_1.
  - rewrite caches_recount by done.
    rewrite Ec, (caches_split z c pc Hc), (caches_with z c pc l Hc), El. rewrite !list_to_set_app_L. set_solver.
Qed.

(** ** Freeing *)

(** A free page enters a cache. *)
Lemma cache_page z T c pc p :
  zone_inv z T -> pcp z !! c = Some pc -> p ∉ T -> 0 <= p < spanned_pages z ->
  zone_inv (z <| pcp := alter (fun pc => pc <| plist := p :: plist pc |> <| count := count pc + 1 |>) c (pcp z) |>) (T ∪ {[p]}).
Proof.
  intros (F & I & C & ->) Hc HpT Hp. set (g := fun pc => pc <| plist := p :: plist pc |> <| count := count pc + 1 |>).
  assert (caches (z <| pcp := alter g c (pcp z) |>) ≡ₚ p :: caches z) as Ec.
  { rewrite (caches_split _ c (g pc)); [|cbn; by rewrite list_lookup_alter_eq, Hc].
    unfold other_caches. cbn. rewrite delete_alter. by rewrite (caches_split z c pc Hc). }
  exists F. split_and!.
  - destruct I as [I1 I2 I3 I4 I5 I6]. split; try done; [by apply (zone_ok_same z)|cbn; by rewrite length_alter|..].
    + rewrite Ec. constructor; [set_solver|done].
    + intros q. rewrite Ec. intros [->|Hq]%elem_of_cons; [set_solver|by apply I6].
  - cbn. apply Forall_alter; [done|]. intros x _ Hx. unfold counted in *. cbn. lia.
  - rewrite Ec. cbn. set_solver.
Qed.

Lemma free_hot_cold_page_spec p c z T :
  zone_inv z T -> (c < 2)%nat -> p ∉ T -> 0 <= p < spanned_pages z ->
  wp (free_hot_cold_page p c) (fun _ z' => zone_inv z' (T ∪ {[p]}) /\ frame {[p]} z z') z.
Proof.
  intros H Hc HpT Hp. unfold free_hot_cold_page. do 2 wp_step. set (z0 := z <| pgfree := _ |>).
  assert (frame {[p]} z z0 /\ same_lists z z0) as [F0 L0] by (split; [split_and!; [done..|apply touched_refl]|by split_and!]).
  apply (zone_inv_same _ _ _ _ F0 L0) in H. pose proof (zone_inv_ok _ _ H) as Hz0.
  assert (spanned_pages z0 = spanned_pages z) as E0 by done.
  apply (wp_pages {[p]}); [done|pages|]. intros [] z1 Hz1 F1 L1. apply (zone_inv_same _ _ _ _ F1 L1) in H.
  assert (spanned_pages z1 = spanned_pages z) as Es by (destruct F1 as (->&_&_); done).
  apply (wp_pages {[p]}); [done|apply free_pages_check_pages; [done|lia|set_solver]|].
  intros [] z2 Hz2 F2 L2. apply (zone_inv_same _ _ _ _ F2 L2) in H.
  assert (spanned_pages z2 = spanned_pages z) as Es2 by (destruct F2 as (->&_&_); done).
  assert (frame {[p]} z z2) as Hf by (eapply frame_trans; [exact F0|]; by eapply frame_trans).
  pose proof H as (F & I & C & HT). destruct (pcp_lookup z2 F c I Hc) as [pc Hpc].
  wp_step. eapply wp_get_pcp; [exact Hpc|]. wp_step.
  assert (forall z3, zone_inv z3 T -> frame {[p]} z z3 ->
    wp (set_pcp c (fun c => c <| plist := p :: plist c |> <| count := count c + 1 |>))
      (fun _ z' => zone_inv z' (T ∪ {[p]}) /\ frame {[p]} z z') z3) as Hlast.
  { intros z3 H3 F3. pose proof H3 as (F' & I' & _). destruct (pcp_lookup z3 F' c I' Hc) as [pc3 Hpc3].
    eapply wp_set_pcp; [exact Hpc3|]. split; [|eapply frame_trans; [exact F3|apply frame_pcp]].
    apply (cache_page z3 T c pc3); [done..|]. by destruct F3 as (->&_&_). }
  unfold when. destruct (high pc <=? count pc); [|by apply Hlast].
  wp_step. eapply wp_mono; [by apply (free_pages_bulk_spec _ c pc z2 F)|]. intros n z3 Hsp.
  pose proof (spill_counts c pc z2 F T n z3 I C HT Hpc Hsp) as H3.
  destruct Hsp as (l & l' & _ & Ep & _ & F3 & _).
  assert (exists pc3, pcp z3 !! c = Some pc3) as [pc3 Hpc3].
  { rewrite Ep. rewrite (with_plist_lookup c pc) by done. eauto. }
  eapply wp_set_pcp; [exact Hpc3|]. apply Hlast; [done|].
  eapply frame_trans; [exact Hf|]. eapply frame_trans; [|apply frame_pcp]. by apply (frame_mono ∅); [set_solver|].
Qed.

Lemma for_each_pages S z l f :
  zone_ok z -> (forall p, p ∈ l -> 0 <= p < spanned_pages z) ->
  (forall p z', zone_ok z' -> p ∈ l -> 0 <= p < spanned_pages z' -> on_pages S z' (f p)) -> on_pages S z (for_each l f).
Proof.
  revert z. induction l as [|p l IH]; intros z Hz Hl Hf; cbn [for_each]; [apply on_pages_ret|].
  apply on_pages_bind; [done|apply Hf; [done|by left|apply Hl; by left]|]. intros [] z' Hz' E. apply IH; [done|..].
  - intros q Hq. rewrite E. apply Hl. by right.
  - intros q z'' ? ?. apply Hf; [done|by right].
Qed.

Lemma __free_pages_ok_spec p k z T :
  zone_inv z T -> (k < MAX_ORDER)%nat -> aligned p k -> 0 <= p -> p + pow k <= spanned_pages z -> block p k ## T ->
  wp (__free_pages_ok p k) (fun _ z' => zone_inv z' (T ∪ block p k) /\ frame (block p k) z z') z.
Proof.
  intros H Hk Ha H0 Hsp Hd. unfold __free_pages_ok. do 2 wp_step. set (z0 := z <| pgfree := _ |>).
  assert (frame (block p k) z z0 /\ same_lists z z0) as [F0 L0] by (split; [split_and!; [done..|apply touched_refl]|by split_and!]).
  apply (zone_inv_same _ _ _ _ F0 L0) in H. pose proof (zone_inv_ok _ _ H) as Hz0.
  apply (wp_pages (block p k)); [done| |].
  { apply for_each_pages; [done|intros q Hq%elem_of_seqZ; cbn; lia|]. intros q z' Hz' Hq%elem_of_seqZ Hr.
    apply free_pages_check_pages; [done..|]. by apply elem_of_block. }
  intros [] z1 Hz1 F1 L1. apply (zone_inv_same _ _ _ _ F1 L1) in H. unfold reclaim_reset. do 2 wp_step.
  set (z2 := z1 <| all_unreclaimable := _ |> <| pages_scanned := _ |>).
  assert (frame (block p k) z1 z2 /\ same_lists z1 z2) as [F2 L2] by (split; [split_and!; [done..|apply touched_refl]|by split_and!]).
  apply (zone_inv_same _ _ _ _ F2 L2) in H. destruct H as (F & I & C & ->).
  assert (spanned_pages z2 = spanned_pages z) as Es by (destruct F1 as (E&_&_); exact E).
  eapply wp_mono; [apply (free_block z2 F p k); [done..|lia|set_solver|]|].
  { intros q Hq Hb. apply (Hd q Hb). apply elem_of_union_r. by apply elem_of_list_to_set. }
  intros [] z3 (I3 & F3 & E3). split.
  - exists (F ∪ block p k). split_and!; [done|by rewrite E3|]. unfold caches. rewrite E3. set_solver.
  - eapply frame_trans; [exact F0|]. eapply frame_trans; [exact F1|]. eapply frame_trans; [exact F2|].
    by apply (frame_mono ∅); [set_solver|].
Qed.

Lemma drain_pcp_spec c z T : zone_inv z T -> (c < 2)%nat -> wp (drain_pcp c) (fun _ z' => zone_inv z' T /\ frame ∅ z z') z.
Proof.
  intros (F & I & C & HT) Hc. destruct (pcp_lookup z F c I Hc) as [pc Hpc]. unfold drain_pcp.
  wp_step. eapply wp_get_pcp; [exact Hpc|]. wp_step. eapply wp_mono; [by apply (free_pages_bulk_spec _ c pc z F)|].
  intros n z1 Hsp. pose proof (spill_counts c pc z F T n z1 I C HT Hpc Hsp) as H1.
  destruct Hsp as (l & l' & _ & Ep & _ & F1 & _).
  assert (exists pc1, pcp z1 !! c = Some pc1) as [pc1 Hpc1] by (rewrite Ep, (with_plist_lookup c pc) by done; eauto).
  eapply wp_set_pcp; [exact Hpc1|]. split; [done|]. eapply frame_trans; [exact F1|apply frame_pcp].
Qed.

Lemma __drain_pages_spec z T : zone_inv z T -> wp __drain_pages (fun _ z' => zone_inv z' T /\ frame ∅ z z') z.
Proof.
  intros H. unfold __drain_pages. cbn [for_each]. wp_step. eapply wp_mono; [apply (drain_pcp_spec 0 z T H); lia|].
  intros [] z1 [H1 F1]. wp_step. eapply wp_mono; [apply (drain_pcp_spec 1 z1 T H1); lia|]. intros [] z2 [H2 F2]. wp_step.
  split; [done|by eapply frame_trans].
Qed.

(** ** Allocation *)
Lemma refill_spec c pc z T :
  zone_inv z T -> pcp z !! c = Some pc ->
  wp (n ← rmqueue_bulk 0 (batch pc) c; set_pcp c (fun c => c <| count := count c + n |>))
    (fun _ z' => zone_inv z' T /\ frame ∅ z z') z.
Proof.
  intros (F & I & C & ->) Hc. wp_step. eapply wp_mono; [by apply (rmqueue_bulk_loop_spec _ c pc z F 0)|].
  intros n z1 (l & Hl & Ep & I1 & F1 & En). rewrite Z.add_0_l in En. subst n.
  assert (pcp z1 !! c = Some (pc <| plist := plist pc ++ l |>)) as Hc1 by (rewrite Ep; by apply with_plist_lookup).
  eapply wp_set_pcp; [exact Hc1|]. split; [|eapply frame_trans; [exact F1|apply frame_pcp]].
  exists (F ∖ list_to_set l). split_and!.
  - by apply base_recount.
  - cbn. rewrite Ep. unfold with_plist. cbn. apply Forall_forall. intros x [i Hi]%list_elem_of_lookup.
    destruct (decide (i = c)) as [->|].
    + rewrite !list_lookup_alter_eq, Hc in Hi. injection Hi as <-. unfold counted. cbn.
      apply (Forall_lookup_1 _ _ _ _ C) in Hc. unfold counted in Hc. rewrite length_app. lia.
    + rewrite !list_lookup_alter_ne in Hi by done. by eapply Forall_lookup_1.
  - rewrite caches_recount by done. 
    assert (caches z1 = caches (with_plist c (plist pc ++ l) z)) as -> by (unfold caches; by rewrite Ep).
    rewrite (caches_with z c pc) by done. rewrite (caches_split z c pc Hc), !list_to_set_app_L.
    apply set_eq. intros x. destruct (decide (x ∈ (list_to_set l : gset Z))); set_solver.
Qed.

Lemma uncache_page z T c pc p l :
  zone_inv z T -> pcp z !! c = Some pc -> plist pc = p :: l ->
  p ∈ T /\ zone_inv ((with_plist c l z) <| pcp := alter (fun pc => pc <| count := count pc - 1 |>) c (pcp (with_plist c l z)) |>) (T ∖ {[p]}).
Proof.
  intros (F & I & C & ->) Hc El. pose proof (caches_split z c pc Hc) as Es. rewrite El, <- app_comm_cons in Es.
  pose proof (bi_nodup _ _ I) as Hnd. rewrite Es in Hnd. apply NoDup_cons in Hnd as [Hnp Hnd].
  destruct (bi_cached _ _ I p) as [HpF _]; [rewrite Es; by left|]. split.
  { apply elem_of_union_r, elem_of_list_to_set. rewrite Es. by left. }
  exists F. split_and!.
  - apply (base_recount (with_plist c l z)); [done|]. apply (base_uncache z F c pc); [done..| |rewrite El; set_solver].
    by apply NoDup_app in Hnd as (? & _).
  - unfold with_plist. cbn. apply Forall_forall. intros x [i Hi]%list_elem_of_lookup. destruct (decide (i = c)) as [->|].
    + rewrite !list_lookup_alter_eq, Hc in Hi. injection Hi as <-. unfold counted. cbn.
      apply (Forall_lookup_1 _ _ _ _ C) in Hc. unfold counted in Hc. rewrite El in Hc. simpl in Hc. lia.
    + rewrite !list_lookup_alter_ne in Hi by done. by eapply Forall_lookup_1.
  - rewrite (caches_recount (with_plist c l z)), (caches_with z c pc) by done. rewrite Es. cbn.
    apply set_eq. intros x. destruct (decide (x = p)) as [->|]; [|set_solver].
    rewrite elem_of_union, elem_of_difference, elem_of_list_to_set. set_solver.
Qed.

Lemma pcp_take_spec c z T :
  zone_inv z T -> (c < 2)%nat ->
  wp (pcp_take c) (fun r z' => frame ∅ z z' /\
    match r with Some p => p ∈ T /\ zone_inv z' (T ∖ {[p]}) | None => zone_inv z' T end) z.
Proof.
  intros H Hc. pose proof H as (F & I & _). destruct (pcp_lookup z F c I Hc) as [pc Hpc]. unfold pcp_take.
  wp_step. eapply wp_get_pcp; [exact Hpc|]. wp_step.
  apply (wp_mono _ (fun _ z' => zone_inv z' T /\ frame ∅ z z')).
  { unfold when. destruct (count pc <=? low pc); [by apply refill_spec|]. wp_step. split; [done|apply zframe_refl]. }
  intros [] z1 [H1 F1]. pose proof H1 as (G & I1 & C1 & _). destruct (pcp_lookup z1 G c I1 Hc) as [pc1 Hpc1].
  wp_step. eapply wp_get_pcp; [exact Hpc1|]. unfold truth. destruct (Z.eqb_spec (count pc1) 0) as [E|E]; cbn [negb]; [by wp_step|].
  apply (Forall_lookup_1 _ _ _ _ C1) in Hpc1 as Hcnt. unfold counted in Hcnt.
  destruct (plist pc1) as [|p l] eqn:El; [simpl in Hcnt; lia|]. wp_step. apply wp_ret. wp_step.
  eapply (wp_uncache c pc1 p z1 G); [done..|rewrite El; by left|].
  pose proof (cached_nodup z1 G c pc1 I1 Hpc1) as Hnd. rewrite El in Hnd |- *. apply NoDup_cons in Hnd as [Hnp _].
  rewrite filter_cons_False, filter_absent by auto.
  destruct (uncache_page z1 T c pc1 p l H1 Hpc1 El) as [HpT H2].
  wp_step. eapply wp_set_pcp; [by apply with_plist_lookup|]. wp_step. split; [|done].
  eapply frame_trans; [exact F1|]. apply (frame_trans _ _ (with_plist c l z1)); apply frame_pcp.
Qed.

(** The result of [__rmqueue] on the available pages. *)
Definition allocated (k : nat) (T : gset Z) (r : option Z) (z' : zone) : Prop :=
  match r with
  | Some p => aligned p k /\ block p k ⊆ T /\ zone_inv z' (T ∖ block p k)
  | None => zone_inv z' T /\ forall p, aligned p k -> block p k ⊆ T -> exists q, q ∈ block p k /\ q ∈ caches z'
  end.

Lemma __rmqueue_zone k z T :
  zone_inv z T -> (k < MAX_ORDER)%nat -> wp (__rmqueue k) (fun r z' => frame ∅ z z' /\ allocated k T r z') z.
Proof.
  intros (F & I & C & ->) Hk. eapply wp_mono; [by apply (take_block z F k)|].
  intros [p|] z' (F1 & E1 & H); (split; [done|]); cbn.
  - destruct H as (Ha & Hsub & I1). split_and!; [done|set_solver|]. exists (F ∖ block p k). unfold caches. rewrite E1.
    split_and!; [done..|]. fold (caches z). apply set_eq. intros x. rewrite elem_of_difference, !elem_of_union, elem_of_difference.
    assert (x ∈ cached z -> x ∉ block p k) by (intros Hx%elem_of_list_to_set; pose proof (bi_cached _ _ I x Hx); set_solver).
    set_solver.
  - destruct H as [-> Hno]. split; [by exists F|]. intros p Ha Hsub.
    destruct (decide (Exists (fun q => q ∈ caches z) (seqZ p (pow k)))) as [Hex|Hnex].
    + apply Exists_exists in Hex as (q & Hq%elem_of_seqZ & Hqc). exists q. split; [by apply elem_of_block|done].
    + exfalso. apply (Hno p Ha). intros x Hx. specialize (Hsub x Hx). apply elem_of_union in Hsub as [?|Hc%elem_of_list_to_set]; [done|].
      exfalso. apply Hnex. apply Exists_exists. exists x. split; [|done]. apply elem_of_seqZ. by apply elem_of_block.
Qed.

Lemma block_0 p : block p 0 = {[p]}.
Proof. unfold block. cbn. set_solver. Qed.
Lemma aligned_0 p : aligned p 0.
Proof. exists p. cbn. lia. Qed.

Lemma buffered_rmqueue_spec k gfp z T :
  zone_inv z T -> (k < MAX_ORDER)%nat ->
  wp (buffered_rmqueue k gfp) (fun r z' => allocated k T r z' /\
    match r with
    | Some p => frame {[p]} z z' /\ exists pg, mem_map z' !! Z.to_nat p = Some pg /\ _count pg = 0
    | None => frame ∅ z z'
    end) z.
Proof.
  intros H Hk. unfold buffered_rmqueue. set (cold := if truth _ then _ else _).
  assert (cold < 2)%nat as Hcold by (unfold cold; case_match; lia). wp_step.
  apply (wp_mono _ (fun r z' => frame ∅ z z' /\ match r with Some p => k = 0%nat /\ p ∈ T /\ zone_inv z' (T ∖ {[p]}) | None => zone_inv z' T end)).
  { destruct (Nat.eqb_spec k 0); [|wp_step; split; [apply zframe_refl|done]].
    eapply wp_mono; [by apply pcp_take_spec|]. intros [p|] z' [F1 H1]; naive_solver. }
  intros r z1 [F1 H1]. wp_step.
  apply (wp_mono _ (fun r z' => frame ∅ z z' /\ allocated k T r z')).
  { destruct r as [p|].
    - wp_step. split; [done|]. destruct H1 as (-> & HpT & H1). cbn. rewrite block_0. split_and!; [apply aligned_0|set_solver|done].
    - eapply wp_mono; [by apply __rmqueue_zone|]. intros r z' [F2 H2]. split; [by eapply frame_trans|done]. }
  clear r H1 F1 z1. intros [p|] z1 [F1 H1]; [|wp_step; done]. destruct H1 as (Ha & Hsub & H1).
  pose proof (zone_inv_ok _ _ H1) as Hz1.
  assert (0 <= p < spanned_pages z) as Hp by apply (zone_inv_range z T H), Hsub, block_head.
  assert (spanned_pages z1 = spanned_pages z) as Es by (by destruct F1 as (->&_&_)).
  wp_step. apply wp_bad_range; [done|lia|]. wp_step. apply wp_BUG. do 3 wp_step. set (z2 := z1 <| pgalloc := _ |>).
  assert (frame ∅ z1 z2 /\ same_lists z1 z2) as [F2 L2] by (split; [split_and!; [done..|apply touched_refl]|by split_and!]).
  eapply wp_mono; [apply (prep_new_page_spec z2 p k); [by apply (zone_ok_same z1)|cbn; lia]|].
  intros [] z3 (F3 & L3 & Hcnt). wp_step. split.
  - cbn. split_and!; [done..|]. eapply zone_inv_same; [exact F3|exact L3|]. by apply (zone_inv_same _ _ _ _ F2 L2).
  - split; [|done]. apply (frame_mono ∅ {[p]}) in F1; [|set_solver]. apply (frame_mono ∅ {[p]}) in F2; [|set_solver].
    eapply frame_trans; [exact F1|]. eapply frame_trans; [exact F2|exact F3].
Qed.

(** ** Which calls report a bad page

    What the code does to the lists leaves the pages alone, and reports
    nothing. *)
Definition quiet {A} (m : M zone A) : Prop :=
  forall z a z', m z = Some (a, z') -> mem_map z' = mem_map z /\ bad_reports z' = bad_reports z.

Lemma bind_inv {A B} (m : M zone A) (k : A -> M zone B) z b z' :
  bind m k z = Some (b, z') -> exists a z1, m z = Some (a, z1) /\ k a z1 = Some (b, z').
Proof. unfold bind. destruct (m z) as [[a z1]|]; [eauto|done]. Qed.

Lemma quiet_bind {A B} (m : M zone A) (k : A -> M zone B) :
  quiet m -> (forall a, quiet (k a)) -> quiet (bind m k).
Proof.
  intros Hm Hk z b z' (a & z1 & E1 & E2)%bind_inv. destruct (Hm _ _ _ E1), (Hk _ _ _ _ E2). split; congruence.
Qed.
Lemma quiet_ret {A} (a : A) : quiet (ret a).
Proof. by intros z b z' [= _ <-]. Qed.
Lemma quiet_oops {A} : quiet (oops : M zone A).
Proof. by intros z b z'. Qed.
Lemma quiet_gets {A} (f : zone -> A) : quiet (gets f).
Proof. by intros z b z' [= _ <-]. Qed.
Lemma quiet_modify f :
  (forall z, mem_map (f z) = mem_map z /\ bad_reports (f z) = bad_reports z) -> quiet (modify f).
Proof. intros H z b z' [= _ <-]. apply H. Qed.
Lemma quiet_deref {A} (o : option A) : quiet (deref o).
Proof. destruct o; [apply quiet_ret|apply quiet_oops]. Qed.
Lemma quiet_when b m : quiet m -> quiet (when b m).
Proof. intros H. destruct b; [done|apply quiet_ret]. Qed.
Lemma quiet_list_del p : quiet (list_del p).
Proof. intros z b z'. unfold list_del. destruct (_ || _); [|done]. by intros [= _ <-]. Qed.

Create HintDb quiet.
#[export] Hint Resolve quiet_ret quiet_oops quiet_gets quiet_deref quiet_list_del : quiet.
Ltac quiet_step :=
  lazymatch goal with
  | |- quiet (bind _ _) => apply quiet_bind; [|intros ?]
  | |- quiet (when _ _) => apply quiet_when
  | |- quiet (modify _) => apply quiet_modify; done
  | |- quiet (if ?b then _ else _) => destruct b
  | |- quiet (match ?x with _ => _ end) => destruct x
  | |- quiet _ => solve [auto with quiet]
  end.
Ltac quiet := repeat quiet_step.

Lemma quiet_get_page p : quiet (get_page p).
Proof. unfold get_page. quiet. Qed.
Lemma quiet_get_area k : quiet (get_area k).
Proof. unfold get_area. quiet. Qed.
Lemma quiet_set_area k f : quiet (set_area k f).
Proof. unfold set_area, get_area. quiet. Qed.
Lemma quiet_get_pcp k : quiet (get_pcp k).
Proof. unfold get_pcp. quiet. Qed.
Lemma quiet_set_pcp k f : quiet (set_pcp k f).
Proof. unfold set_pcp, get_pcp. quiet. Qed.
Lemma quiet_BUG_ON b : quiet (BUG_ON b).
Proof. unfold BUG_ON. quiet. Qed.
#[export] Hint Resolve quiet_get_page quiet_get_area quiet_set_area quiet_get_pcp quiet_set_pcp quiet_BUG_ON : quiet.
Lemma quiet_list_add p k : quiet (list_add p k).
Proof. unfold list_add. quiet. Qed.
Lemma quiet_test_and_change n k : quiet (__test_and_change_bit n k).
Proof. unfold __test_and_change_bit. quiet. Qed.
#[export] Hint Resolve quiet_list_add quiet_test_and_change : quiet.
Lemma quiet_MARK_USED i o a : quiet (MARK_USED i o a).
Proof. unfold MARK_USED. quiet. Qed.
Lemma quiet_bad_range p : quiet (bad_range p).
Proof. unfold bad_range. cbv zeta. quiet. Qed.
#[export] Hint Resolve quiet_MARK_USED quiet_bad_range : quiet.
Lemma quiet_free_loop fuel i j m a o : quiet (free_loop fuel i j m a o).
Proof. revert i j m a o. induction fuel; intros; cbn [free_loop]; cbv zeta; quiet. Qed.
#[export] Hint Resolve quiet_free_loop : quiet.
Lemma quiet___free_pages_bulk p a o : quiet (__free_pages_bulk p a o).
Proof. unfold __free_pages_bulk. cbv zeta. quiet. Qed.
#[export] Hint Resolve quiet___free_pages_bulk : quiet.
Lemma quiet_free_bulk_loop fuel n c o d : quiet (free_bulk_loop fuel n c o d).
Proof. revert n d. induction fuel; intros; cbn [free_bulk_loop]; quiet. Qed.
#[export] Hint Resolve quiet_free_bulk_loop : quiet.
Lemma quiet_reclaim_reset : quiet reclaim_reset.
Proof. unfold reclaim_reset. quiet. Qed.
#[export] Hint Resolve quiet_reclaim_reset : quiet.
Lemma quiet_free_pages_bulk n c o : quiet (free_pages_bulk n c o).
Proof. unfold free_pages_bulk. quiet. Qed.
#[export] Hint Resolve quiet_free_pages_bulk : quiet.
Lemma quiet_expand_loop n p i s h a : quiet (expand_loop n p i s h a).
Proof. revert i s h a. induction n; intros; cbn [expand_loop]; cbv zeta; quiet. Qed.
#[export] Hint Resolve quiet_expand_loop : quiet.
Lemma quiet_rmqueue_loop n o c : quiet (rmqueue_loop n o c).
Proof. revert c. induction n; intros; cbn [rmqueue_loop]; unfold expand; cbv zeta; quiet. Qed.
#[export] Hint Resolve quiet_rmqueue_loop : quiet.
Lemma quiet___rmqueue o : quiet (__rmqueue o).
Proof. unfold __rmqueue. quiet. Qed.
#[export] Hint Resolve quiet___rmqueue : quiet.
Lemma quiet_rmqueue_bulk_loop n o c a : quiet (rmqueue_bulk_loop n o c a).
Proof. revert a. induction n; intros; cbn [rmqueue_bulk_loop]; quiet. Qed.
#[export] Hint Resolve quiet_rmqueue_bulk_loop : quiet.
Lemma quiet_pcp_take c : quiet (pcp_take c).
Proof. unfold pcp_take, rmqueue_bulk. quiet. Qed.
Lemma quiet_drain_pages : quiet __drain_pages.
Proof. unfold __drain_pages, drain_pcp. cbn [for_each]. quiet. Qed.
#[export] Hint Resolve quiet_pcp_take quiet_drain_pages : quiet.

(** A page nobody uses: unmapped, without references and with none of the
    flags that a page has in use. *)
Record unused (pg : page) : Prop := {
  un_mapcount : _mapcount pg < 0;
  un_mapping : mapping pg = 0;
  un_count : _count pg = -1;
  un_flags : Z.land (flags pg) (bits [PG_lru; PG_private; PG_locked; PG_active; PG_reclaim; PG_slab;
                                      PG_swapcache; PG_writeback]) = 0 }.

(** A free page: unused, and clean. *)
Definition ready (pg : page) : Prop := unused pg /\ Z.testbit (flags pg) PG_dirty = false.

Lemma land_clearbit f b m : 0 <= b -> Z.land f m = 0 -> Z.land (Z.clearbit f b) m = 0.
Proof.
  intros Hb H. apply Z.bits_inj'. intros n Hn. apply (f_equal (fun x => Z.testbit x n)) in H.
  rewrite Z.land_spec, Z.bits_0 in *. rewrite Z.clearbit_eqb by done. destruct (Z.testbit f n); [|done].
  simpl in *. by rewrite H, andb_false_r.
Qed.

Lemma unused_clean pg : unused pg -> ready (if Z.testbit (flags pg) PG_dirty then pg <| flags := Z.clearbit (flags pg) PG_dirty |> else pg).
Proof.
  intros [H1 H2 H3 H4]. destruct (Z.testbit (flags pg) PG_dirty) eqn:E; [|by split; [split|]]. split; [split; try done|].
  - apply (land_clearbit (flags pg) PG_dirty); [done|exact H4].
  - exact (Z.clearbit_eq (flags pg) PG_dirty).
Qed.

Lemma ready_flags f :
  Z.land f (bits [PG_lru; PG_private; PG_locked; PG_active; PG_reclaim; PG_slab; PG_swapcache; PG_writeback]) = 0 ->
  Z.testbit f PG_dirty = false ->
  Z.land f (bits [PG_private; PG_locked; PG_lru; PG_active; PG_dirty; PG_reclaim; PG_swapcache; PG_writeback]) = 0.
Proof.
  intros H Hd. set (m1 := bits _) in H. set (m2 := bits _).
  assert (m2 = Z.lor (Z.land m1 m2) (Z.shiftl 1 PG_dirty)) as -> by reflexivity.
  rewrite Z.land_lor_distr_r, Z.land_assoc, H. change (Z.lor (Z.land 0 m2) (Z.land f (Z.shiftl 1 PG_dirty)) = 0).
  rewrite Z.land_0_l, Z.lor_0_l. apply Z.bits_inj'. intros n Hn. rewrite Z.land_spec, Z.bits_0, Z.shiftl_1_l.
  rewrite Z.pow2_bits_eqb by done. destruct (Z.eqb_spec PG_dirty n) as [<-|]; [by rewrite Hd|apply andb_false_r].
Qed.

Lemma get_page_run p z pg z' :
  get_page p z = Some (pg, z') -> z' = z /\ 0 <= p /\ mem_map z !! Z.to_nat p = Some pg.
Proof.
  intros (o & z1 & [= <- <-] & E)%bind_inv. destruct (Z.ltb_spec p 0); [done|].
  destruct (mem_map z !! Z.to_nat p) as [x|] eqn:Ex; [|done]. injection E as -> <-. done.
Qed.
Lemma set_page_run p f z u z' :
  set_page p f z = Some (u, z') -> 0 <= p /\ z' = z <| mem_map := alter f (Z.to_nat p) (mem_map z) |>.
Proof. intros (pg & z1 & (-> & ? & _)%get_page_run & [= _ <-])%bind_inv. done. Qed.

(** No report, and the pages of [S] are free afterwards, the others as before. *)
Definition tidies (S : gset Z) (z z' : zone) : Prop :=
  bad_reports z' = bad_reports z /\
  (forall x, 0 <= x -> x ∉ S -> mem_map z' !! Z.to_nat x = mem_map z !! Z.to_nat x) /\
  (forall x pg, 0 <= x -> x ∈ S -> mem_map z' !! Z.to_nat x = Some pg -> ready pg).

Lemma tidies_quiet S z z1 z' :
  mem_map z1 = mem_map z' -> bad_reports z1 = bad_reports z' -> tidies S z z1 -> tidies S z z'.
Proof. intros E1 E2 (H1 & H2 & H3). split_and!; [congruence|by rewrite <- E1..]. Qed.

Lemma tidies_quiet_l S z0 z z' :
  mem_map z0 = mem_map z -> bad_reports z0 = bad_reports z -> tidies S z z' -> tidies S z0 z'.
Proof. intros E1 E2 (H1 & H2 & H3). split_and!; [congruence|by rewrite E1|done]. Qed.

Lemma free_pages_check_run p z u z' pg :
  free_pages_check p z = Some (u, z') -> mem_map z !! Z.to_nat p = Some pg -> unused pg -> tidies {[p]} z z'.
Proof.
  intros (pg' & z1 & (-> & H0 & Hpg)%get_page_run & (u1 & z2 & E1 & (_ & ->)%set_page_run)%bind_inv)%bind_inv Hp U.
  rewrite Hp in Hpg. injection Hpg as <-. destruct U as [U1 U2 U3 U4] eqn:EU. clear EU.
  assert (z2 = z) as ->.
  { unfold page_mapped, page_count in E1. rewrite U2, U3, U4 in E1. destruct (Z.leb_spec 0 (_mapcount pg)); [lia|].
    by injection E1 as _ <-. }
  split_and!; [done|..].
  - intros x Hx N. cbn. rewrite list_lookup_alter_ne; [done|]. intros E. apply N. apply elem_of_singleton. lia.
  - intros x pg' Hx ->%elem_of_singleton. cbn. rewrite list_lookup_alter_eq, Hp. intros [= <-]. by apply unused_clean.
Qed.

Lemma tidies_checks z0 z l u z' (S : gset Z) :
  for_each l free_pages_check z = Some (u, z') -> NoDup l ->
  (forall q pg, q ∈ l -> mem_map z !! Z.to_nat q = Some pg -> unused pg) ->
  tidies S z0 z -> (forall q, q ∈ l -> 0 <= q /\ is_Some (mem_map z !! Z.to_nat q)) -> tidies (S ∪ list_to_set l) z0 z'.
Proof.
  revert z S. induction l as [|q l IH]; intros z S E Nd Hu Ht Hr; cbn [for_each] in E.
  - injection E as _ <-. cbn. by rewrite union_empty_r_L.
  - apply bind_inv in E as (u1 & z1 & E1 & E2). apply NoDup_cons in Nd as [Nq Nd].
    destruct (Hr q) as [H0 [pg Hpg]]; [by left|].
    destruct (free_pages_check_run _ _ _ _ _ E1 Hpg) as (B1 & O1 & R1); [by apply (Hu q); [left|]|].
    assert (forall x, x ∈ l -> 0 <= x -> mem_map z1 !! Z.to_nat x = mem_map z !! Z.to_nat x) as Same.
    { intros x Hx H0x. apply O1; [done|]. intros ->%elem_of_singleton. done. }
    cbn [list_to_set]. rewrite union_assoc_L. apply (IH z1); [done..| | |].
    + intros x px Hx. rewrite Same; [apply Hu; by right|done|]. by apply Hr; right.
    + destruct Ht as (B0 & O0 & R0). split_and!; [congruence|..].
      * intros x Hx N. rewrite O1 by (done || set_solver). apply O0; [done|set_solver].
      * intros x px Hx HS Hpx. destruct (decide (x = q)) as [->|N]; [by apply (R1 q); [|set_solver|]|].
        apply (R0 x); [done|set_solver|]. by rewrite <- O1 by (done || set_solver).
    + intros x Hx. destruct (Hr x) as [? ?]; [by right|]. split; [done|]. by rewrite Same.
Qed.
