(* ===== verification/BuddyTheorems.v ===== *)
(** * The page allocator: theorems

    The allocator of a zone in use: an [event] is a call of its clients, which
    free only what they hold, or of the boot code, which gives it the pages it
    does not need any more. *)
From S2P Require Import Prelude.
From S2P Require Import Buddy.
From S2P Require Import BuddySpec.
From S2P Require Import BuddyOps.
From S2P Require Import BuddyZone.
From S2P Require Import BuddyAlloc.

(** ** The system *)

(** The blocks held by clients, by their first page, and the pages of the boot
    code. *)
Record sys := { zn : zone; held : gmap Z nat; boot : gset Z }.

Inductive event :=
| Alloc (order : nat) (gfp : Z)
| Free (p : Z) (order : nat)
| Hold (p : Z)
| Touch (q : Z) (f : page -> page)
| Drain
| Boot (p : Z) (order : nat).

Definition do_event (e : event) : M zone (option Z) :=
  match e with
  | Alloc order gfp => buffered_rmqueue order gfp
  | Free p order => _ ← __free_pages p order; ret None
  | Hold p => _ ← set_page p (fun pg => pg <| _count := s32 (_count pg + 1) |>); ret None
  | Touch q f => _ ← set_page q f; ret None
  | Drain => _ ← __drain_pages; ret None
  | Boot p order => _ ← free_boot_pages p order; ret None
  end.

Definition in_held (s : sys) (x : Z) : Prop := exists p k, held s !! p = Some k /\ x ∈ block p k.

(** What the callers owe. *)
Definition enabled (s : sys) (e : event) : Prop :=
  match e with
  | Alloc order _ => (order < MAX_ORDER)%nat
  | Free p order => held s !! p = Some order
  | Hold p => is_Some (held s !! p) /\ forall pg, mem_map (zn s) !! Z.to_nat p = Some pg -> _count pg < 2 ^ 31 - 1
  | Touch q f => in_held s q /\ forall pg, page_zone (f pg) = page_zone pg /\ _count (f pg) = _count pg
  | Drain => True
  | Boot p order => (order < MAX_ORDER)%nat /\ aligned p order /\ block p order ⊆ boot s
  end.

(** The last reference to a page that is not reserved goes. *)
Definition released (z : zone) (p : Z) : bool :=
  match mem_map z !! Z.to_nat p with
  | Some pg => negb (Z.testbit (flags pg) PG_reserved) && (_count pg =? 0)
  | None => false
  end.

Definition after (s : sys) (e : event) (r : option Z) (z' : zone) : sys :=
  match e with
  | Alloc order _ => {| zn := z'; held := match r with Some p => <[p := order]> (held s) | None => held s end; boot := boot s |}
  | Free p _ => {| zn := z'; held := if released (zn s) p then delete p (held s) else held s; boot := boot s |}
  | Boot p order => {| zn := z'; held := held s; boot := boot s ∖ block p order |}
  | _ => {| zn := z'; held := held s; boot := boot s |}
  end.

Inductive exec (s0 : sys) : list event -> sys -> Prop :=
| exec_nil : exec s0 [] s0
| exec_snoc es s e r z' : exec s0 es s -> enabled s e -> do_event e (zn s) = Some (r, z') -> exec s0 (es ++ [e]) (after s e r z').

(** A zone as it is set up: all pages belong to the boot code. *)
Definition boot_sys (id start_pfn size present : Z) : sys :=
  {| zn := free_area_init_core id start_pfn size present; held := ∅; boot := list_to_set (seqZ 0 size) |}.

(** ** The invariant *)
Section invariant.
Context (n : Z).

Record sys_inv (s : sys) (T : gset Z) : Prop := {
  si_size : spanned_pages (zn s) = n;
  si_zone : zone_inv (zn s) T;
  si_held p k : held s !! p = Some k -> (k < MAX_ORDER)%nat /\ aligned p k /\ 0 <= p /\ p + pow k <= spanned_pages (zn s);
  si_count p k : held s !! p = Some k -> exists pg, mem_map (zn s) !! Z.to_nat p = Some pg /\ 0 <= _count pg < 2 ^ 31;
  si_used p k : held s !! p = Some k -> block p k ## T ∪ boot s;
  si_apart p k q l : held s !! p = Some k -> held s !! q = Some l -> p <> q -> block p k ## block q l;
  si_boot x : x ∈ boot s -> (x ∉ T) /\ 0 <= x < spanned_pages (zn s);
  si_all x : 0 <= x < spanned_pages (zn s) -> x ∈ T \/ x ∈ boot s \/ in_held s x
}.

(** Pages no event touches keep their count. *)
Lemma frame_count S z z' i pg : frame S z z' -> zone_ok z -> 0 <= i < spanned_pages z -> i ∉ S ->
  mem_map z !! Z.to_nat i = Some pg -> mem_map z' !! Z.to_nat i = Some pg.
Proof.
  intros (_ & _ & L & H) Hz Hi HS E. destruct (lookup_lt_is_Some_2 (mem_map z') (Z.to_nat i)) as [pg' E'].
  { rewrite L. by eapply lookup_lt_Some. }
  destruct (H _ _ E') as (pg0 & E0 & _ & Hsame). rewrite Z2Nat.id in Hsame by lia. rewrite E in E0. injection E0 as <-.
  by rewrite (Hsame HS) in E'.
Qed.

Lemma put_page_testzero_spec p z pg :
  zone_ok z -> 0 <= p < spanned_pages z -> mem_map z !! Z.to_nat p = Some pg -> 0 <= _count pg < 2 ^ 31 ->
  wp (put_page_testzero p) (fun b z' => b = (_count pg =? 0) /\
    z' = z <| mem_map := alter (fun pg => pg <| _count := s32 (_count pg - 1) |>) (Z.to_nat p) (mem_map z) |>) z.
Proof.
  intros Hz Hp Hpg Hc. unfold put_page_testzero. wp_step. apply wp_get_page; [done..|]. intros pg' E _. rewrite Hpg in E.
  injection E as <-. wp_step. unfold page_count. rewrite (proj2 (Z.eqb_neq _ _)) by lia. apply wp_BUG. wp_step.
  apply wp_set_page; [done..|]. wp_step. rewrite s32_small by lia. split; [|done].
  destruct (Z.ltb_spec (_count pg - 1) 0), (Z.eqb_spec (_count pg) 0); lia || done.
Qed.

Definition freed (z : zone) (T : gset Z) (p : Z) (k : nat) (pg : page) (z' : zone) : Prop :=
  frame (block p k) z z' /\
  if released z p then zone_inv z' (T ∪ block p k)
  else zone_inv z' T /\ exists pg', mem_map z' !! Z.to_nat p = Some pg' /\ 0 <= _count pg' < 2 ^ 31.

Lemma __free_pages_spec p k z T pg :
  zone_inv z T -> (k < MAX_ORDER)%nat -> aligned p k -> 0 <= p -> p + pow k <= spanned_pages z -> block p k ## T ->
  mem_map z !! Z.to_nat p = Some pg -> 0 <= _count pg < 2 ^ 31 ->
  wp (__free_pages p k) (fun _ => freed z T p k pg) z.
Proof.
  intros H Hk Ha H0 Hsp Hd Hpg Hc. pose proof (pow_pos k). pose proof (zone_inv_ok _ _ H) as Hz.
  unfold __free_pages, freed, released. rewrite Hpg. wp_step. apply wp_get_page; [done|lia|]. intros pg' E _. rewrite Hpg in E.
  injection E as <-. destruct (Z.testbit (flags pg) PG_reserved); cbn [negb andb].
  { wp_step. split_and!; [apply zframe_refl|done|eauto]. }
  wp_step. eapply wp_mono; [apply (put_page_testzero_spec p z pg); [done|lia|done..]|]. intros b z1 [-> ->].
  set (z1 := z <| mem_map := _ |>).
  assert (frame (block p k) z z1) as F1.
  { split_and!; [done..|]. apply (touched_mono {[p]}); [pose proof (block_head p k); set_solver|]. by apply touched_alter. }
  assert (same_lists z z1) as L1 by by split_and!. pose proof (zone_inv_same _ _ _ _ F1 L1 H) as Hinv1.
  unfold when. destruct (Z.eqb_spec (_count pg) 0) as [E|E].
  - destruct (Nat.eqb_spec k 0) as [->|Hk0].
    + eapply wp_mono; [apply (free_hot_cold_page_spec p 0 z1 T); [done|lia| |cbn in *; lia]|].
      { intros HpT. apply (Hd p); [apply block_head|done]. }
      intros [] z2 [H2 F2]. rewrite block_0 in *. split; [by eapply frame_trans|done].
    + eapply wp_mono; [by apply (__free_pages_ok_spec p k z1 T)|]. intros [] z2 [H2 F2]. split; [by eapply frame_trans|done].
  - wp_step. split_and!; [done..|]. cbn. rewrite list_lookup_alter_eq, Hpg. eexists. split; [done|]. cbn. rewrite s32_small; lia.
Qed.

(** ** Every event keeps the invariant *)
Definition counts_ok (z : zone) (h : gmap Z nat) : Prop :=
  forall p k, h !! p = Some k -> exists pg, mem_map z !! Z.to_nat p = Some pg /\ 0 <= _count pg < 2 ^ 31.

Lemma held_range s T p k : sys_inv s T -> held s !! p = Some k -> 0 <= p < spanned_pages (zn s).
Proof. intros I Hp. destruct (si_held _ _ I p k Hp) as (_ & _ & ? & ?). pose proof (pow_pos k). lia. Qed.

Lemma counts_frame s T S z' h :
  sys_inv s T -> frame S (zn s) z' -> (forall p k, h !! p = Some k -> held s !! p = Some k) ->
  (forall p k, h !! p = Some k -> p ∈ S -> exists pg, mem_map z' !! Z.to_nat p = Some pg /\ 0 <= _count pg < 2 ^ 31) ->
  counts_ok z' h.
Proof.
  intros I Hf Hh HS p k Hp. destruct (decide (p ∈ S)) as [Hin|Hout]; [by eapply HS|].
  destruct (si_count _ _ I p k (Hh _ _ Hp)) as (pg & E & Hc). exists pg. split; [|done].
  eapply frame_count; [exact Hf|by eapply zone_inv_ok, si_zone|by eapply held_range, Hh|done|done].
Qed.

Lemma keep_inv s T z' :
  sys_inv s T -> spanned_pages z' = spanned_pages (zn s) -> zone_inv z' T -> counts_ok z' (held s) ->
  sys_inv {| zn := z'; held := held s; boot := boot s |} T.
Proof using. intros [] E Hz Hc. split; cbn; rewrite ?E; done. Qed.

Lemma block_singleton (q : Z) p k : q ∈ block p k -> ({[q]} : gset Z) ⊆ block p k.
Proof. set_solver. Qed.

(** The result of an allocation is a block of its own; a failure means that
    every block has a page in use or in a cache. *)
Definition result_ok (s : sys) (e : event) (r : option Z) (z' : zone) : Prop :=
  match e, r with
  | Alloc k _, Some p => aligned p k /\ 0 <= p /\ p + pow k <= spanned_pages (zn s) /\
      block p k ## boot s /\ forall q l, held s !! q = Some l -> block p k ## block q l
  | Alloc k _, None => forall p, aligned p k -> 0 <= p -> p + pow k <= spanned_pages (zn s) ->
      exists x, x ∈ block p k /\ (x ∈ boot s \/ in_held s x \/ x ∈ caches z')
  | _, _ => True
  end.

Lemma alloc_event s T k gfp :
  sys_inv s T -> (k < MAX_ORDER)%nat ->
  wp (buffered_rmqueue k gfp) (fun r z' => (exists T', sys_inv (after s (Alloc k gfp) r z') T') /\ result_ok s (Alloc k gfp) r z') (zn s).
Proof.
  intros I Hk. eapply wp_mono; [apply (buffered_rmqueue_spec k gfp (zn s) T (si_zone _ _ I) Hk)|].
  intros [p|] z' [HA HF]; cbn in HA |- *.
  - destruct HA as (Ha & Hsub & HT), HF as [HF (pg & Hpg & Hcnt)]. pose proof HF as (Es & _ & _).
    pose proof (zone_inv_range _ _ (si_zone _ _ I)) as Hrange.
    assert (0 <= p /\ p + pow k <= spanned_pages (zn s)) as [H0 Hsp].
    { pose proof (pow_pos k). pose proof (Hrange p (Hsub _ (block_head p k))).
      assert (p + pow k - 1 ∈ block p k) as Hlast by (apply elem_of_block; lia). specialize (Hrange _ (Hsub _ Hlast)). lia. }
    assert (forall q l, held s !! q = Some l -> block p k ## block q l) as Hdis.
    { intros q l Hq x Hx Hy. apply (si_used _ _ I q l Hq x); set_solver. }
    split; [|split_and!; [done..| |done]]; cycle 1.
    { intros x Hx Hb. destruct (si_boot _ _ I x Hb). set_solver. }
    exists (T ∖ block p k). split; cbn; rewrite ?Es; [apply I|done|..].
    + intros q l [[<- <-]|[_ Hq]]%lookup_insert_Some; [done|by apply I].
    + intros q l [[<- <-]|[Hne Hq]]%lookup_insert_Some; [exists pg; rewrite Hcnt; split; [done|lia]|].
      apply (counts_frame s T {[p]} z' (delete p (held s)) I HF) with l; [by intros ? ? [? ?]%lookup_delete_Some| |by rewrite lookup_delete_ne].
      by intros q' l' [? _]%lookup_delete_Some ->%elem_of_singleton.
    + intros q l [[<- <-]|[_ Hq]]%lookup_insert_Some.
      * intros x Hx [?|Hb]%elem_of_union; [set_solver|]. destruct (si_boot _ _ I x Hb). set_solver.
      * pose proof (si_used _ _ I q l Hq). set_solver.
    + intros q l q' l' [[<- <-]|[_ Hq]]%lookup_insert_Some [[<- <-]|[_ Hq']]%lookup_insert_Some Hne;
        [done|by apply Hdis|symmetry; by apply Hdis|by apply (si_apart _ _ I q l q' l')].
    + intros x Hx. destruct (si_boot _ _ I x Hx). set_solver.
    + intros x Hx. destruct (decide (x ∈ block p k)) as [Hb|Hb].
      { right. right. exists p, k. cbn. split; [by rewrite lookup_insert_eq|done]. }
      destruct (si_all _ _ I x Hx) as [?|[?|(q & l & Hq & Hxq)]]; [left; set_solver|by right; left|].
      right. right. exists q, l. split; [|done]. cbn. rewrite lookup_insert_ne; [done|]. intros <-.
      apply (Hdis p l Hq p); apply block_head.
  - destruct HA as [HT Hno]. pose proof HF as (Es & _ & _). split.
    + exists T. apply keep_inv; [done..|]. apply (counts_frame s T ∅); [done..|set_solver].
    + intros p Ha H0 Hsp.
      destruct (decide (Exists (fun x => x ∉ T) (seqZ p (pow k)))) as [Hex|Hnex].
      * apply Exists_exists in Hex as (x & Hx%elem_of_seqZ & HxT). exists x. split; [by apply elem_of_block|].
        destruct (si_all _ _ I x ltac:(lia)) as [?|[?|?]]; [done|by left|by right; left].
      * destruct (Hno p Ha) as (q & Hq & Hqc); [|exists q; auto].
        intros x Hx. apply dec_stable. intros HxT. apply Hnex, Exists_exists. exists x. split; [|done].
        by apply elem_of_seqZ, elem_of_block.
Qed.

Lemma free_event s T p k :
  sys_inv s T -> held s !! p = Some k ->
  wp (__free_pages p k) (fun _ z' => exists T', sys_inv (after s (Free p k) None z') T') (zn s).
Proof.
  intros I Hp. destruct (si_held _ _ I p k Hp) as (Hk & Ha & H0 & Hsp). destruct (si_count _ _ I p k Hp) as (pg & Hpg & Hc).
  pose proof (si_used _ _ I p k Hp) as Hd.
  eapply wp_mono; [apply (__free_pages_spec p k (zn s) T pg (si_zone _ _ I)); [done..|set_solver|done|done]|].
  intros [] z' [HF HT]. cbn. pose proof HF as (Es & _ & _).
  assert (forall q l, held s !! q = Some l -> q ∈ block p k -> q = p) as Honly.
  { intros q l Hq Hqp. apply dec_stable. intros Hne. by apply (si_apart _ _ I q l p k Hq Hp Hne q); [apply block_head|]. }
  destruct (released (zn s) p).
  - exists (T ∪ block p k). split; cbn; rewrite ?Es; [apply I|done|..].
    + intros q l [_ Hq]%lookup_delete_Some. by apply I.
    + apply (counts_frame s T (block p k)); [done..|by intros ? ? [? ?]%lookup_delete_Some|].
      intros q l [Hne Hq]%lookup_delete_Some Hqp. by destruct (Hne (eq_sym (Honly q l Hq Hqp))).
    + intros q l [Hne Hq]%lookup_delete_Some. pose proof (si_used _ _ I q l Hq).
      pose proof (si_apart _ _ I q l p k Hq Hp (not_eq_sym Hne)). set_solver.
    + intros q l q' l' [_ Hq]%lookup_delete_Some [_ Hq']%lookup_delete_Some. by apply I.
    + intros x Hx. destruct (si_boot _ _ I x Hx). set_solver.
    + intros x Hx. destruct (decide (x ∈ block p k)); [left; set_solver|].
      destruct (si_all _ _ I x Hx) as [?|[?|(q & l & Hq & Hxq)]]; [left; set_solver|by right; left|].
      right. right. exists q, l. cbn. split; [|done]. rewrite lookup_delete_ne; [done|]. intros <-. congruence.
  - destruct HT as [HT Hcnt]. exists T. apply keep_inv; [done..|]. apply (counts_frame s T (block p k)); [done..|].
    intros q l Hq Hqp. by rewrite (Honly q l Hq Hqp).
Qed.

Lemma touch_event s T q f :
  sys_inv s T -> in_held s q -> (forall pg, page_zone (f pg) = page_zone pg) ->
  (forall p k pg, held s !! p = Some k -> p = q -> mem_map (zn s) !! Z.to_nat p = Some pg -> 0 <= _count pg < 2 ^ 31 -> 0 <= _count (f pg) < 2 ^ 31) ->
  wp (set_page q f) (fun _ z' => exists T', sys_inv {| zn := z'; held := held s; boot := boot s |} T') (zn s).
Proof.
  intros I (p & k & Hp & Hq%elem_of_block) Hz Hc. destruct (si_held _ _ I p k Hp) as (_ & _ & ? & ?).
  pose proof (zone_inv_ok _ _ (si_zone _ _ I)) as Hok. apply wp_set_page; [done|lia|].
  set (z' := (zn s) <| mem_map := _ |>).
  assert (frame {[q]} (zn s) z') as HF by (split_and!; [done..|apply touched_alter; [lia|done]]).
  exists T. apply keep_inv; [done|done|eapply zone_inv_same; [exact HF|by split_and!|apply I]|].
  apply (counts_frame s T {[q]}); [done..|]. intros p' k' Hp' ->%elem_of_singleton.
  destruct (si_count _ _ I q k' Hp') as (pg & Hpg & Hcnt). exists (f pg). cbn. rewrite list_lookup_alter_eq, Hpg.
  split; [done|]. by eapply Hc.
Qed.

Lemma boot_event s T p k :
  sys_inv s T -> (k < MAX_ORDER)%nat -> aligned p k -> block p k ⊆ boot s ->
  wp (free_boot_pages p k) (fun _ z' => exists T', sys_inv (after s (Boot p k) None z') T') (zn s).
Proof.
  intros I Hk Ha Hb. pose proof (pow_pos k) as Hpow.
  assert (forall x, x ∈ block p k -> 0 <= x < spanned_pages (zn s)) as Hr by (intros x Hx; by apply (si_boot _ _ I x), Hb).
  pose proof (Hr p (block_head p k)) as Hrp.
  assert (p + pow k <= spanned_pages (zn s)) as Hsp.
  { assert (p + pow k - 1 ∈ block p k) as Hl by (apply elem_of_block; lia). specialize (Hr _ Hl). lia. }
  assert (block p k ## T) as Hd by (intros x Hx HxT; by destruct (si_boot _ _ I x (Hb x Hx))).
  pose proof (si_zone _ _ I) as Hzi. pose proof (zone_inv_ok _ _ Hzi) as Hz. unfold free_boot_pages.
  destruct (lookup_page (zn s) p Hz Hrp) as [pg0 Hpg0].
  wp_step. apply wp_set_page; [done..|]. set (z1 := (zn s) <| mem_map := _ |>).
  assert (frame (block p k) (zn s) z1) as F1.
  { split_and!; [done..|]. eapply touched_mono; [apply block_singleton, block_head|]. apply touched_alter; [lia|done]. }
  assert (zone_ok z1) as Hz1 by (by eapply zone_ok_touched; [..|apply F1|]).
  assert (same_lists (zn s) z1) as L1 by by split_and!.
  wp_step. apply wp_set_page; [done|cbn; lia|]. set (z2 := z1 <| mem_map := _ |>).
  assert (frame {[p]} z1 z2) as F2 by (split_and!; [done..|apply touched_alter; [lia|done]]).
  assert (zone_ok z2) as Hz2 by (by eapply zone_ok_touched; [..|apply F2|]).
  assert (exists pg, mem_map z2 !! Z.to_nat p = Some pg /\ _count pg = 0 /\ Z.testbit (flags pg) PG_reserved = false)
    as (pg2 & Hpg2 & Hc2 & Hr2).
  { eexists. cbn. rewrite !list_lookup_alter_eq, Hpg0. split; [done|]. split; [done|].
    exact (Z.clearbit_eq (flags pg0) PG_reserved). }
  assert (spanned_pages z2 = spanned_pages (zn s)) as E2 by done.
  wp_step. apply (wp_mono _ (fun _ z' => frame (block p k ∖ {[p]}) z2 z' /\ same_lists z2 z')).
  { apply for_each_pages; [done|intros q Hq%elem_of_seqZ; lia|]. intros q z' Hz' Hq%elem_of_seqZ Hq'.
    unfold ClearPageReserved. apply on_pages_set; [done|done| |done]. apply elem_of_difference. rewrite elem_of_block.
    split; [lia|]. rewrite elem_of_singleton. lia. }
  intros [] z3 [F3 L3]. pose proof F3 as (E3 & _ & _).
  assert (mem_map z3 !! Z.to_nat p = Some pg2) as Hpg3 by (eapply frame_count; [exact F3|done|lia|set_solver|done]).
  assert (zone_inv z3 T) as Hzi3.
  { eapply zone_inv_same; [exact F3|done|]. eapply zone_inv_same; [exact F2|by split_and!|]. by eapply zone_inv_same. }
  assert (frame (block p k) (zn s) z3) as HF.
  { eapply frame_trans; [exact F1|]. eapply frame_trans; [eapply frame_mono; [|exact F2]|eapply frame_mono; [|exact F3]].
    - apply block_singleton, block_head.
    - set_solver. }
  assert (released z3 p = true) as Hrel.
  { unfold released. by rewrite Hpg3, Hc2, Hr2. }
  eapply wp_mono; [apply (__free_pages_spec p k z3 T pg2); [done..|lia|lia|done|done|lia]|].
  intros [] z4 [F4 HT]. rewrite Hrel in HT. pose proof F4 as (E4 & _ & _).
  assert (frame (block p k) (zn s) z4) as HF4 by (by eapply frame_trans).
  exists (T ∪ block p k). split; cbn; rewrite ?E4, ?E3, ?E2; [apply I|done|apply I|..].
  - apply (counts_frame s T (block p k)); [done..|]. intros q l Hq Hqp.
    destruct (si_used _ _ I q l Hq q); [apply block_head|set_solver].
  - intros q l Hq. pose proof (si_used _ _ I q l Hq). set_solver.
  - apply I.
  - intros x [Hx ?]%elem_of_difference. destruct (si_boot _ _ I x Hx). set_solver.
  - intros x Hx. destruct (decide (x ∈ block p k)); [left; set_solver|].
    destruct (si_all _ _ I x Hx) as [?|[?|?]]; [left; set_solver|right; left; set_solver|by right; right].
Qed.

Lemma zone_event_inv s T e :
  sys_inv s T -> enabled s e ->
  wp (do_event e) (fun r z' => (exists T', sys_inv (after s e r z') T') /\ result_ok s e r z') (zn s).
Proof.
  intros I He. destruct e as [k gfp|p k|p|q f| |p k]; cbn [do_event enabled] in *.
  - by apply (alloc_event s T).
  - wp_step. eapply wp_mono; [by apply (free_event s T)|]. intros [] z' H. by wp_step.
  - destruct He as [[k Hp] Hmax]. wp_step. eapply wp_mono; [apply (touch_event s T p); [done| |done|]|].
    + exists p, k. split; [done|apply block_head].
    + cbn. intros p' k' pg _ -> Hpg Hc. specialize (Hmax pg Hpg). rewrite s32_small; lia.
    + intros [] z' H. by wp_step.
  - destruct He as [Hq Hf]. wp_step. eapply wp_mono; [apply (touch_event s T q); [done|done|apply Hf|]|].
    + intros p k pg _ _ _ Hc. destruct (Hf pg) as [_ ->]. done.
    + intros [] z' H. by wp_step.
  - wp_step. eapply wp_mono; [apply (__drain_pages_spec (zn s) T), I|]. intros [] z' [HT HF]. wp_step. split; [|done].
    exists T. apply keep_inv; [done|by destruct HF|done|]. apply (counts_frame s T ∅); [done..|set_solver].
  - destruct He as (Hk & Ha & Hb). wp_step. eapply wp_mono; [by apply (boot_event s T)|]. intros [] z' H. by wp_step.
Qed.

End invariant.

(** ** Pages that are fit to be freed

    [free_pages_check] reports a page that is mapped, locked, on the list of the
    reclaim code and so on.  Callers owe it that the pages of a block are not,
    when the last reference to it goes. *)
Definition fit (s : sys) (e : event) : Prop :=
  match e with
  | Free p order => released (zn s) p = true -> forall q pg, q ∈ block p order -> mem_map (zn s) !! Z.to_nat q = Some pg ->
      _mapcount pg < 0 /\ (mapping pg = 0 \/ order = 0%nat /\ PageAnon pg = true) /\
      Z.land (flags pg) (bits [PG_lru; PG_private; PG_locked; PG_active; PG_reclaim; PG_slab; PG_swapcache; PG_writeback]) = 0
  | _ => True
  end.

(** A history in which all callers do. *)
Inductive careful (s0 : sys) : list event -> sys -> Prop :=
| careful_nil : careful s0 [] s0
| careful_snoc es s e r z' : careful s0 es s -> enabled s e -> fit s e -> do_event e (zn s) = Some (r, z') ->
    careful s0 (es ++ [e]) (after s e r z').

Lemma careful_exec s0 es s : careful s0 es s -> exec s0 es s.
Proof. induction 1; [constructor|by eapply exec_snoc]. Qed.

Record tidy (s : sys) : Prop := {
  td_quiet : bad_reports (zn s) = 0;
  td_free x pg : 0 <= x -> mem_map (zn s) !! Z.to_nat x = Some pg -> (x ∉ boot s) -> ~ in_held s x -> ready pg;
  td_boot x pg : x ∈ boot s -> mem_map (zn s) !! Z.to_nat x = Some pg -> unused pg;
  td_tail p k q pg : held s !! p = Some k -> q ∈ block p k -> q <> p -> mem_map (zn s) !! Z.to_nat q = Some pg -> _count pg = -1
}.

Lemma alter_other {A} (f : A -> A) p x (m : list A) :
  0 <= p -> 0 <= x -> x <> p -> alter f (Z.to_nat p) m !! Z.to_nat x = m !! Z.to_nat x.
Proof. intros H0 Hx N. apply list_lookup_alter_ne. lia. Qed.

Lemma prep_new_page_run p k z u z' pg :
  prep_new_page p k z = Some (u, z') -> mem_map z !! Z.to_nat p = Some pg -> ready pg ->
  bad_reports z' = bad_reports z /\ forall x, 0 <= x -> x <> p -> mem_map z' !! Z.to_nat x = mem_map z !! Z.to_nat x.
Proof.
  intros (pg' & z1 & (-> & H0 & Hpg)%get_page_run & (u1 & z2 & E1 & (u2 & z3 & (_ & E2)%set_page_run & (_ & ->)%set_page_run)%bind_inv)%bind_inv)%bind_inv Hp [U Hd].
  rewrite Hp in Hpg. injection Hpg as <-. destruct U as [U1 U2 U3 U4]. apply (ready_flags _ U4) in Hd.
  assert (z2 = z) as ->.
  { unfold page_mapped in E1. rewrite U2, Hd in E1. destruct (Z.leb_spec 0 (_mapcount pg)); [lia|]. by injection E1 as _ <-. }
  subst z3. split; [done|]. intros x Hx N. cbn. by rewrite !alter_other.
Qed.

Lemma buffered_rmqueue_run k gfp z r z' :
  buffered_rmqueue k gfp z = Some (r, z') ->
  (forall p, r = Some p -> exists pg, mem_map z !! Z.to_nat p = Some pg /\ ready pg) ->
  bad_reports z' = bad_reports z /\
  forall x, 0 <= x -> Some x <> r -> mem_map z' !! Z.to_nat x = mem_map z !! Z.to_nat x.
Proof.
  unfold buffered_rmqueue. set (c := if truth _ then _ else _). intros (r1 & z1 & E1 & (r2 & z2 & E2 & E)%bind_inv)%bind_inv Hr.
  assert (mem_map z2 = mem_map z /\ bad_reports z2 = bad_reports z) as [M2 B2].
  { assert (mem_map z1 = mem_map z /\ bad_reports z1 = bad_reports z) as [<- <-].
    { eapply (_ : quiet _), E1. Unshelve. quiet. }
    eapply (_ : quiet _), E2. Unshelve. quiet. }
  destruct r2 as [p|]; [|injection E as <- <-; split; [done|]; intros; by rewrite M2].
  apply bind_inv in E as (b & z3 & E3 & (u4 & z4 & E4 & (u5 & z5 & [= _ <-] & (u6 & z6 & E6 & [= <- <-])%bind_inv)%bind_inv)%bind_inv).
  destruct (quiet_bad_range p _ _ _ E3) as [M3 B3]. destruct (quiet_BUG_ON b _ _ _ E4) as [M4 B4].
  destruct (Hr p eq_refl) as (pg & Hpg & Rd).
  destruct (prep_new_page_run _ _ _ _ _ pg E6) as [B6 M6]; [cbn; congruence|done|]. cbn in B6, M6. split; [congruence|].
  intros x Hx N. rewrite M6, M4, M3, M2 by congruence. done.
Qed.

Lemma put_page_testzero_run p z b z' pg :
  put_page_testzero p z = Some (b, z') -> mem_map z !! Z.to_nat p = Some pg ->
  b = (s32 (_count pg - 1) <? 0) /\ 0 <= p /\
  z' = z <| mem_map := alter (fun pg => pg <| _count := s32 (_count pg - 1) |>) (Z.to_nat p) (mem_map z) |>.
Proof.
  intros (pg' & z1 & (-> & H0 & Hpg)%get_page_run & (u1 & z2 & E1 & (u2 & z3 & (_ & ->)%set_page_run & [= <- <-])%bind_inv)%bind_inv)%bind_inv Hp.
  rewrite Hp in Hpg. injection Hpg as <-. unfold BUG_ON in E1. destruct (_ =? 0); [done|]. by injection E1 as _ <-.
Qed.

Lemma free_hot_page_run p z u z' pg :
  free_hot_page p z = Some (u, z') -> mem_map z !! Z.to_nat p = Some pg -> 0 <= p ->
  unused (if PageAnon pg then pg <| mapping := 0 |> else pg) -> tidies {[p]} z z'.
Proof.
  unfold free_hot_page, free_hot_cold_page. intros (u0 & z0 & [= _ <-] & (u1 & z1 & (_ & ->)%set_page_run & (u2 & z2 & E2 & E)%bind_inv)%bind_inv)%bind_inv Hp H0 U.
  set (z1 := _ <| mem_map := _ |>) in E2.
  assert (tidies {[p]} z1 z2) as (B & O & R).
  { eapply free_pages_check_run; [exact E2| |exact U]. cbn. by rewrite list_lookup_alter_eq, Hp. }
  assert (mem_map z' = mem_map z2 /\ bad_reports z' = bad_reports z2) as [M' B'].
  { eapply (_ : quiet _), E. Unshelve. quiet. }
  split_and!; [rewrite B', B; done| |by rewrite M'].
  intros x Hx N. rewrite M', O by done. cbn. rewrite alter_other; [done..|]. set_solver.
Qed.

Lemma block_list p k : list_to_set (seqZ p (2 ^ Z.of_nat k)) = block p k.
Proof. apply set_eq. intros x. rewrite elem_of_list_to_set, elem_of_seqZ, elem_of_block. done. Qed.

Lemma free_pages_ok_run p k z u z' :
  __free_pages_ok p k z = Some (u, z') ->
  (forall q, q ∈ block p k -> 0 <= q /\ exists pg, mem_map z !! Z.to_nat q = Some pg /\ unused pg) -> tidies (block p k) z z'.
Proof.
  unfold __free_pages_ok. intros (u0 & z0 & [= _ <-] & (u1 & z1 & E1 & E)%bind_inv)%bind_inv Hu.
  assert (mem_map z' = mem_map z1 /\ bad_reports z' = bad_reports z1) as [M' B'].
  { eapply (_ : quiet _), E. Unshelve. quiet. }
  apply (tidies_quiet _ _ z1); [done..|]. rewrite <- block_list, <- (union_empty_l_L (list_to_set _)).
  assert (forall q, q ∈ seqZ p (2 ^ Z.of_nat k) -> q ∈ block p k) as Sub.
  { intros q. by rewrite <- block_list, elem_of_list_to_set. }
  eapply tidies_checks; [exact E1|apply NoDup_seqZ|..].
  - intros q pg Hq%Sub Hpg. destruct (Hu q Hq) as (_ & pg' & Hpg' & U). cbn in Hpg. congruence.
  - split_and!; [done|done|set_solver].
  - intros q Hq%Sub. destruct (Hu q Hq) as (H0 & pg & Hpg & _). split; [done|]. by exists pg.
Qed.

(** What freeing does to the pages. *)
Definition frees (s : zone) (p : Z) (k : nat) (z' : zone) : Prop :=
  if released s p then tidies (block p k) s z'
  else bad_reports z' = bad_reports s /\ forall x, 0 <= x -> x <> p -> mem_map z' !! Z.to_nat x = mem_map s !! Z.to_nat x.

Lemma free_pages_run p k z u z' pg :
  __free_pages p k z = Some (u, z') -> mem_map z !! Z.to_nat p = Some pg -> 0 <= _count pg < 2 ^ 31 ->
  (forall q, q ∈ block p k -> 0 <= q /\ is_Some (mem_map z !! Z.to_nat q)) ->
  (released z p = true -> forall q pg, q ∈ block p k -> mem_map z !! Z.to_nat q = Some pg ->
     _mapcount pg < 0 /\ (mapping pg = 0 \/ k = 0%nat /\ PageAnon pg = true) /\
     Z.land (flags pg) (bits [PG_lru; PG_private; PG_locked; PG_active; PG_reclaim; PG_slab; PG_swapcache; PG_writeback]) = 0 /\
     (q <> p -> _count pg = -1)) ->
  frees z p k z'.
Proof.
  unfold __free_pages, frees, released. intros E Hp Hc Hr Hf. rewrite Hp in Hf |- *.
  apply bind_inv in E as (pg' & z1 & (-> & H0 & Hpg)%get_page_run & E). rewrite Hp in Hpg. injection Hpg as <-.
  destruct (Z.testbit (flags pg) PG_reserved); cbn [negb andb] in *; [by injection E as _ <-|].
  apply bind_inv in E as (b & z1 & E1 & E). destruct (put_page_testzero_run _ _ _ _ _ E1 Hp) as (-> & _ & ->).
  set (z1 := z <| mem_map := _ |>) in E.
  assert (forall x, 0 <= x -> x <> p -> mem_map z1 !! Z.to_nat x = mem_map z !! Z.to_nat x) as O1.
  { intros x Hx N. cbn. by rewrite alter_other. }
  rewrite s32_small in E by lia. destruct (Z.eqb_spec (_count pg) 0) as [Ec|Nc].
  2: { destruct (Z.ltb_spec (_count pg - 1) 0); [lia|]. by injection E as _ <-. }
  destruct (Z.ltb_spec (_count pg - 1) 0); [|lia]. specialize (Hf eq_refl). cbn [when] in E.
  set (pg1 := pg <| _count := s32 (_count pg - 1) |>).
  assert (mem_map z1 !! Z.to_nat p = Some pg1) as Hp1 by (cbn; by rewrite list_lookup_alter_eq, Hp).
  assert (_count pg1 = -1) as Ec1 by (cbn; by rewrite Ec).
  assert (forall z', tidies (block p k) z1 z' -> tidies (block p k) z z') as Back.
  { intros z2 (B & O & R). split_and!; [done| |done]. intros x Hx N. rewrite O by done. apply O1; [done|]. intros ->. apply N, block_head. }
  destruct (Hf p pg (block_head p k) Hp) as (F1 & F2 & F3 & _).
  destruct (Nat.eqb_spec k 0) as [->|Nk].
  - apply Back. rewrite block_0. eapply (free_hot_page_run p z1 _ _ pg1); [exact E|done|done|].
    assert (PageAnon pg1 = PageAnon pg) as -> by done.
    destruct F2 as [F2|[_ ->]]; [|by split]. destruct (PageAnon pg); by split.
  - apply Back. eapply free_pages_ok_run; [exact E|]. intros q Hq. destruct (Hr q Hq) as [H0q [pq Hpq]]. split; [done|].
    destruct (decide (q = p)) as [->|N].
    + exists pg1. split; [done|]. destruct F2 as [F2|[? _]]; [by split|done].
    + exists pq. rewrite O1 by done. split; [done|]. destruct (Hf q pq Hq Hpq) as (G1 & [G2|[? _]] & G3 & G4); [|done].
      split; auto.
Qed.

Section tidy.
Context (n : Z).

(** A page of the zone is in memory. *)
Lemma zone_page s T x : sys_inv n s T -> 0 <= x < spanned_pages (zn s) -> is_Some (mem_map (zn s) !! Z.to_nat x).
Proof. intros I Hx. apply lookup_page; [|done]. by eapply zone_inv_ok, si_zone. Qed.

Lemma held_block s T p k q : sys_inv n s T -> held s !! p = Some k -> q ∈ block p k -> 0 <= q < spanned_pages (zn s).
Proof. intros I Hp Hq%elem_of_block. destruct (si_held _ _ _ I p k Hp) as (_ & _ & ? & ?). lia. Qed.

Lemma held_nonneg s T p k q : sys_inv n s T -> held s !! p = Some k -> q ∈ block p k -> 0 <= q.
Proof. intros I Hp Hq. pose proof (held_block s T p k q I Hp Hq). lia. Qed.

Lemma tidy_alloc s T k gfp r z' :
  sys_inv n s T -> tidy s -> buffered_rmqueue k gfp (zn s) = Some (r, z') -> result_ok s (Alloc k gfp) r z' ->
  tidy (after s (Alloc k gfp) r z').
Proof.
  intros I Td E Ro.
  assert (forall p q, r = Some p -> q ∈ block p k -> exists pg, mem_map (zn s) !! Z.to_nat q = Some pg /\ ready pg /\
    (q ∉ boot s) /\ 0 <= q /\ ~ in_held s q) as Blk.
  { intros p q -> Hq. destruct Ro as (_ & H0 & Hsp & Hb & Hd). pose proof Hq as Hr%elem_of_block.
    destruct (zone_page s T q I ltac:(lia)) as [pg Hpg]. exists pg.
    assert (q ∉ boot s) by set_solver. assert (~ in_held s q) by (intros (p' & k' & Hp' & Hx); by apply (Hd p' k' Hp' q)).
    split_and!; try done; [|lia]. by apply (td_free _ Td q); [lia|..]. }
  destruct (buffered_rmqueue_run _ _ _ _ _ E) as [B O].
  { intros p ->. destruct (Blk p p eq_refl (block_head p k)) as (pg & ? & ? & _). eauto. }
  split; cbn.
  - rewrite B. apply Td.
  - intros x pg Hx Hpg Nb Nh. apply (td_free _ Td x pg Hx); [|done|].
    + rewrite <- O; [done..|]. intros <-. apply Nh. exists x, k. cbn. rewrite lookup_insert_eq. split; [done|apply block_head].
    + intros (p' & k' & Hp' & Hxp). apply Nh. exists p', k'. split; [|done]. cbn. destruct r as [p|]; [|done].
      rewrite lookup_insert_ne; [done|]. intros <-. destruct (Blk p p eq_refl (block_head p k)) as (_ & _ & _ & _ & _ & Nh').
      apply Nh'. exists p, k'. split; [done|apply block_head].
  - intros x pg Hx Hpg. apply (td_boot _ Td x); [done|]. rewrite <- O; [done| |].
    + destruct (si_boot _ _ _ I x Hx). lia.
    + intros <-. destruct (Blk x x eq_refl (block_head x k)) as (_ & _ & _ & ? & _). done.
  - intros p l q pg Hp Hq Nq Hpg.
    assert (p = p /\ (exists p0, r = Some p0 /\ p = p0 /\ l = k) \/ held s !! p = Some l) as [(_ & p0 & -> & -> & ->)|Hp'].
    { destruct r as [p0|]; [|by right]. apply lookup_insert_Some in Hp as [[<- <-]|[_ ?]]; [left; eauto|by right]. }
    + destruct (Blk p0 q eq_refl Hq) as (pg' & Hpg' & [[] _] & _ & H0q & _). rewrite O in Hpg by (done || congruence). congruence.
    + apply (td_tail _ Td p l q pg Hp' Hq Nq). rewrite <- O; [done|by eapply held_nonneg|].
      intros <-. destruct (Blk q q eq_refl (block_head q k)) as (_ & _ & _ & _ & _ & Nh). apply Nh. exists p, l. done.
Qed.

(** Only the first page of a held block changes. *)
Lemma tidy_touch s T p k q f z' :
  sys_inv n s T -> tidy s -> held s !! p = Some k -> q ∈ block p k -> (q <> p -> forall pg, _count (f pg) = _count pg) ->
  bad_reports z' = bad_reports (zn s) ->
  (forall x, 0 <= x -> x <> q -> mem_map z' !! Z.to_nat x = mem_map (zn s) !! Z.to_nat x) ->
  mem_map z' !! Z.to_nat q = f <$> mem_map (zn s) !! Z.to_nat q ->
  tidy {| zn := z'; held := held s; boot := boot s |}.
Proof.
  intros I Td Hp Hq Hf B O E. assert (in_held s q) as Hh by (by exists p, k).
  assert (0 <= q) as H0 by (by eapply held_nonneg).
  split; cbn.
  - rewrite B. apply Td.
  - intros x pg Hx Hpg Nb Nh. apply (td_free _ Td x pg Hx); [|done..]. rewrite <- O; [done..|]. by intros ->.
  - intros x pg Hx Hpg. destruct (si_boot _ _ _ I x Hx) as [_ ?]. apply (td_boot _ Td x pg Hx). rewrite <- O; [done|lia|].
    intros ->. apply (si_used _ _ _ I p k Hp q Hq). set_solver.
  - intros p' k' q' pg Hp' Hq' N' Hpg. destruct (decide (q' = q)) as [->|Nq].
    + assert (p' = p) as ->.
      { apply dec_stable. intros Np. by apply (si_apart _ _ _ I p' k' p k Hp' Hp Np q). }
      assert (k' = k) as -> by congruence. rewrite E in Hpg. destruct (mem_map (zn s) !! Z.to_nat q) as [pg0|] eqn:E0; [|done].
      injection Hpg as <-. rewrite Hf by done. by apply (td_tail _ Td p k q pg0).
    + apply (td_tail _ Td p' k' q' pg); [done..|]. rewrite <- O; [done|by eapply held_nonneg|done].
Qed.

Lemma tidy_free s T p k u z' :
  sys_inv n s T -> tidy s -> held s !! p = Some k -> fit s (Free p k) -> __free_pages p k (zn s) = Some (u, z') ->
  tidy (after s (Free p k) None z').
Proof.
  intros I Td Hp Hf E. destruct (si_count _ _ _ I p k Hp) as (pg & Hpg & Hc).
  assert (forall q, q ∈ block p k -> 0 <= q /\ is_Some (mem_map (zn s) !! Z.to_nat q)) as Hr.
  { intros q Hq. pose proof (held_block s T p k q I Hp Hq). split; [lia|]. by eapply zone_page. }
  pose proof (free_pages_run p k (zn s) u z' pg E Hpg Hc Hr) as F.
  unfold frees in F. cbn [after fit] in *. destruct (released (zn s) p) eqn:Rl.
  - destruct F as (B & O & R).
    { intros _ q pq Hq Hpq. destruct (Hf eq_refl q pq Hq Hpq) as (? & ? & ?). split_and!; try done.
      intros N. by apply (td_tail _ Td p k q pq). }
    assert (forall x, 0 <= x -> x ∉ block p k -> forall q l, held s !! q = Some l -> x ∈ block q l -> q <> p) as Ne.
    { intros x _ Nx q l Hq Hx ->. congruence. }
    split; cbn.
    + rewrite B. apply Td.
    + intros x px Hx Hpx Nb Nh. destruct (decide (x ∈ block p k)) as [Hb|Hb]; [by apply (R x)|].
      apply (td_free _ Td x px Hx); [by rewrite <- O|done|]. intros (q & l & Hq & Hxq). apply Nh. exists q, l.
      split; [|done]. cbn. rewrite lookup_delete_ne; [done|]. intros <-. congruence.
    + intros x px Hx Hpx. destruct (si_boot _ _ _ I x Hx) as [_ ?]. apply (td_boot _ Td x px Hx). rewrite <- O; [done|lia|].
      intros Hb. apply (si_used _ _ _ I p k Hp x Hb). set_solver.
    + intros q l y py [Nq Hq]%lookup_delete_Some Hy Ny Hpy. apply (td_tail _ Td q l y py); [done..|].
      rewrite <- O; [done|by eapply held_nonneg|]. intros Hb. by apply (si_apart _ _ _ I q l p k Hq Hp (not_eq_sym Nq) y).
  - destruct F as [B O]; [done|].
    destruct (mem_map z' !! Z.to_nat p) as [pg'|] eqn:E'.
    + apply (tidy_touch s T p k p (fun _ => pg')); [done..|apply block_head|done|done|done|]. by rewrite E', Hpg.
    + split; cbn.
      * rewrite B. apply Td.
      * intros x px Hx Hpx. destruct (decide (x = p)) as [->|N]; [congruence|]. rewrite O in Hpx by done. by apply Td.
      * intros x px Hx Hpx. destruct (si_boot _ _ _ I x Hx) as [_ ?]. apply (td_boot _ Td x px Hx). rewrite <- O; [done|lia|congruence].
      * intros q l y py Hq Hy Ny Hpy. apply (td_tail _ Td q l y py); [done..|]. rewrite <- O; [done|by eapply held_nonneg|congruence].
Qed.

(** Giving up the pages of the boot code. *)
Lemma clear_reserved_run l z u z' :
  for_each l ClearPageReserved z = Some (u, z') -> NoDup l ->
  bad_reports z' = bad_reports z /\
  forall x, 0 <= x -> mem_map z' !! Z.to_nat x =
    if decide (x ∈ l) then (fun pg => pg <| flags := Z.clearbit (flags pg) PG_reserved |>) <$> mem_map z !! Z.to_nat x
    else mem_map z !! Z.to_nat x.
Proof.
  revert z. induction l as [|q l IH]; intros z E Nd; cbn [for_each] in E.
  { injection E as _ <-. split; [done|]. intros x Hx. rewrite decide_False; [done|set_solver]. }
  apply bind_inv in E as (u1 & z1 & E1 & E2). apply NoDup_cons in Nd as [Nq Nd].
  unfold ClearPageReserved in E1. apply set_page_run in E1 as [H0 ->].
  destruct (IH _ E2 Nd) as [B O]. split; [done|]. intros x Hx. rewrite O by done. cbn.
  destruct (decide (x = q)) as [->|N].
  - rewrite decide_False by done. rewrite decide_True by set_solver. apply list_lookup_alter_eq.
  - rewrite alter_other by done. destruct (decide (x ∈ l)); [rewrite decide_True by set_solver|rewrite decide_False by set_solver]; done.
Qed.

Lemma unused_clear pg : unused pg -> unused (pg <| flags := Z.clearbit (flags pg) PG_reserved |>).
Proof. intros [H1 H2 H3 H4]. split; try done. apply (land_clearbit (flags pg) PG_reserved); [done|exact H4]. Qed.

Lemma free_boot_pages_run p k z u z' :
  free_boot_pages p k z = Some (u, z') ->
  (forall q, q ∈ block p k -> 0 <= q /\ exists pg, mem_map z !! Z.to_nat q = Some pg /\ unused pg) -> tidies (block p k) z z'.
Proof.
  unfold free_boot_pages. intros E Hu. destruct (Hu p (block_head p k)) as (H0 & pg & Hpg & Up). pose proof (pow_pos k).
  apply bind_inv in E as (u1 & z1 & E1 & (u2 & z2 & (_ & ->)%set_page_run & (u3 & z3 & E3 & E)%bind_inv)%bind_inv).
  unfold ClearPageReserved in E1. apply set_page_run in E1 as [_ ->].
  destruct (clear_reserved_run _ _ _ _ E3) as [B3 O3]; [apply NoDup_seqZ|]. cbn in B3.
  set (pg3 := set_page_count 1 (pg <| flags := Z.clearbit (flags pg) PG_reserved |>)).
  assert (mem_map z3 !! Z.to_nat p = Some pg3) as Hp3.
  { rewrite O3 by done. rewrite decide_False by (rewrite elem_of_seqZ; lia). cbn. by rewrite !list_lookup_alter_eq, Hpg. }
  assert (forall x, 0 <= x -> x ∉ block p k -> mem_map z3 !! Z.to_nat x = mem_map z !! Z.to_nat x) as Out.
  { intros x Hx N. rewrite elem_of_block in N. rewrite O3 by done. rewrite decide_False by (rewrite elem_of_seqZ; lia).
    cbn. rewrite !alter_other by lia. done. }
  assert (forall q pq, q ∈ block p k -> q <> p -> mem_map z !! Z.to_nat q = Some pq ->
    mem_map z3 !! Z.to_nat q = Some (pq <| flags := Z.clearbit (flags pq) PG_reserved |>)) as In.
  { intros q pq Hq%elem_of_block N Hpq. rewrite O3 by lia. rewrite decide_True by (rewrite elem_of_seqZ; lia).
    cbn. rewrite !alter_other by lia. by rewrite Hpq. }
  assert (released z3 p = true) as Rl.
  { unfold released. rewrite Hp3. cbn [flags _count set_page_count].
    assert (Z.testbit (flags pg3) PG_reserved = false) as -> by exact (Z.clearbit_eq (flags pg) PG_reserved). done. }
  pose proof (free_pages_run p k z3 u z' pg3 E Hp3 ltac:(cbn; lia)) as F. unfold frees in F. rewrite Rl in F.
  destruct F as (B & O & R).
  - intros q Hq. destruct (Hu q Hq) as (H0q & pq & Hpq & _). split; [done|]. destruct (decide (q = p)) as [->|N]; [by eexists|].
    rewrite (In q pq Hq N Hpq). eauto.
  - intros _ q px Hq Hpx. destruct (Hu q Hq) as (H0q & pq & Hpq & Uq). apply unused_clear in Uq. destruct (decide (q = p)) as [->|N].
    + rewrite Hp3 in Hpx. injection Hpx as <-. rewrite Hpg in Hpq. injection Hpq as <-. destruct Uq. split_and!; try done. by left.
    + rewrite (In q pq Hq N Hpq) in Hpx. injection Hpx as <-. destruct Uq. split_and!; try done. by left.
  - split_and!; [congruence| |done]. intros x Hx N. rewrite O by done. by apply Out.
Qed.

Lemma tidy_boot s T p k u z' :
  sys_inv n s T -> tidy s -> block p k ⊆ boot s -> free_boot_pages p k (zn s) = Some (u, z') ->
  tidy (after s (Boot p k) None z').
Proof.
  intros I Td Hb E. destruct (free_boot_pages_run p k (zn s) u z' E) as (B & O & R).
  { intros q Hq%Hb. destruct (si_boot _ _ _ I q Hq) as [_ Hr]. split; [lia|]. destruct (zone_page s T q I Hr) as [pg Hpg].
    exists pg. split; [done|]. by apply (td_boot _ Td q). }
  split; cbn.
  - rewrite B. apply Td.
  - intros x px Hx Hpx Nb Nh. destruct (decide (x ∈ block p k)); [by apply (R x)|].
    apply (td_free _ Td x px Hx); [by rewrite <- O|set_solver|done].
  - intros x px [Hx Nx]%elem_of_difference Hpx. destruct (si_boot _ _ _ I x Hx) as [_ ?]. apply (td_boot _ Td x px Hx).
    by rewrite <- O by (done || lia).
  - intros q l y py Hq Hy Ny Hpy. apply (td_tail _ Td q l y py); [done..|]. rewrite <- O; [done|by eapply held_nonneg|].
    intros Hx%Hb. apply (si_used _ _ _ I q l Hq y Hy). set_solver.
Qed.

Lemma tidy_event s T e r z' :
  sys_inv n s T -> tidy s -> enabled s e -> fit s e -> do_event e (zn s) = Some (r, z') -> result_ok s e r z' ->
  tidy (after s e r z').
Proof.
  intros I Td En Ft E Ro. destruct e as [k gfp|p k|p|q f| |p k]; cbn [do_event enabled] in *.
  - by eapply tidy_alloc.
  - apply bind_inv in E as (u & z1 & E & [= <- <-]). by eapply tidy_free.
  - apply bind_inv in E as (u & z1 & (H0 & ->)%set_page_run & [= <- <-]). destruct En as [[k Hp] _].
    apply (tidy_touch s T p k p (fun pg => pg <| _count := s32 (_count pg + 1) |>)); [done..|apply block_head|done|done| |].
    + intros x Hx N. cbn. by rewrite alter_other.
    + cbn. apply list_lookup_alter_eq.
  - apply bind_inv in E as (u & z1 & (H0 & ->)%set_page_run & [= <- <-]). destruct En as [(p & k & Hp & Hq) Hf].
    apply (tidy_touch s T p k q f); [done..|intros _ pg; apply Hf|done| |].
    + intros x Hx N. cbn. by rewrite alter_other.
    + cbn. apply list_lookup_alter_eq.
  - apply bind_inv in E as (u & z1 & E & [= <- <-]). destruct (quiet_drain_pages _ _ _ E) as [M B].
    destruct Td as [Q F Bt Ta]. split; cbn; [by rewrite B|rewrite M..]; done.
  - apply bind_inv in E as (u & z1 & E & [= <- <-]). eapply tidy_boot; [done..|apply En|done].
Qed.
End tidy.

(** ** The zone that has been set up *)
Lemma land_lnot_3 x : Z.land x (Z.lnot 3) = 4 * (x / 4).
Proof.
  rewrite <- Z.ldiff_land. change 3 with (Z.ones 2). rewrite Z.ldiff_ones_r, Z.shiftl_mul_pow2, Z.shiftr_div_pow2 by lia.
  change (2 ^ 2) with 4. lia.
Qed.

(** The map of an order has a bit for every pair of the zone. *)
Lemma bitmap_size_bound k size : 0 < size < 2 ^ 31 -> (k < 10)%nat ->
  (size - 1) / pow (S k) < 8 * pages_to_bitmap_size k size.
Proof.
  intros Hs Hk. unfold pages_to_bitmap_size. rewrite (u32_small (size - 1)) by lia. rewrite land_lnot_3, Z.shiftr_div_pow2 by lia.
  replace (2 ^ (Z.of_nat k + 4)) with (pow (S k) * 8).
  2: { rewrite pow_S, Z.pow_add_r by lia. change (2 ^ 4) with 16. lia. }
  pose proof (pow_pos (S k)) as Hp. rewrite <- Z.div_div by lia.
  assert (0 <= (size - 1) / pow (S k) < 2 ^ 31).
  { split; [apply Z.div_pos; lia|]. apply Z.div_lt_upper_bound; [done|]. nia. }
  rewrite u32_small; Z.to_euclidean_division_equations; lia.
Qed.

Lemma init_bit size k j : 0 < size < 2 ^ 31 -> (k < 10)%nat -> 0 <= j -> pow (S k) * j < size ->
  bit_of (zone_init_free_lists size) k j = Some false.
Proof.
  intros Hs Hk Hj Hjs. unfold bit_of, zone_init_free_lists. rewrite list_lookup_fmap, lookup_seq_lt by (unfold MAX_ORDER; lia).
  cbn [fmap option_fmap option_map mbind option_bind area_map]. rewrite Nat.add_0_l, (proj2 (Nat.eqb_neq _ _)) by (unfold MAX_ORDER; lia).
  apply lookup_replicate. split; [done|]. pose proof (bitmap_size_bound k size Hs Hk). pose proof (pow_pos (S k)) as Hp.
  assert (j <= (size - 1) / pow (S k)) by (apply Z.div_le_lower_bound; lia). lia.
Qed.

Lemma init_flist size k : flist (zone_init_free_lists size) k = [].
Proof.
  unfold flist, zone_init_free_lists. rewrite list_lookup_fmap. destruct (seq 0 MAX_ORDER !! k); done.
Qed.

Lemma init_areas size : 0 < size < 2 ^ 31 -> areas_inv size (zone_init_free_lists size) ∅.
Proof.
  intros Hs. split.
  - done.
  - intros k. rewrite init_flist. by apply NoDup_nil.
  - intros k i H. rewrite init_flist in H. by apply elem_of_nil in H.
  - intros k l i j x H. rewrite init_flist in H. by apply elem_of_nil in H.
  - intros k i _ H. rewrite init_flist in H. by apply elem_of_nil in H.
  - intros k j Hk Hj Hjs. rewrite init_bit by done. unfold pair_listed. by rewrite init_flist.
  - intros x. split; [set_solver|]. intros (k & i & H & _). rewrite init_flist in H. by apply elem_of_nil in H.
Qed.

Lemma init_base id start_pfn size present : 0 < size < 2 ^ 31 -> base_inv (free_area_init_core id start_pfn size present) ∅.
Proof.
  intros Hs. split; [by apply init_areas|split; [done|apply length_replicate|]|done|done|by apply NoDup_nil|by intros ? ?%elem_of_nil].
  intros pg Hpg. change (pg ∈ replicate (Z.to_nat size) (init_page id)) in Hpg. by apply elem_of_replicate in Hpg as [-> _].
Qed.

Lemma zone_init_inv id start_pfn size present : 0 < size < 2 ^ 31 -> sys_inv size (boot_sys id start_pfn size present) ∅.
Proof.
  intros Hs. assert (forall p k, held (boot_sys id start_pfn size present) !! p = Some k -> False) as Hnone.
  { intros p k H. change ((∅ : gmap Z nat) !! p = Some k) in H. by rewrite lookup_empty in H. }
  split; [done| |by intros p k H; destruct (Hnone p k H)..|by intros p k q l H; destruct (Hnone p k H)| |].
  - exists ∅. split_and!; [by apply init_base|by repeat constructor|done].
  - intros x Hx%elem_of_list_to_set%elem_of_seqZ. split; [set_solver|cbn; lia].
  - intros x Hx. right. left. apply elem_of_list_to_set, elem_of_seqZ. cbn in Hx. lia.
Qed.

Lemma zone_exec_inv n s0 T0 es s : exec s0 es s -> sys_inv n s0 T0 -> exists T, sys_inv n s T.
Proof.
  induction 1 as [|es s e r z' Hex IH He Hrun]; intros I0; [eauto|]. destruct (IH I0) as [T I].
  pose proof (zone_event_inv _ s T e I He) as H. unfold wp in H. rewrite Hrun in H. apply H.
Qed.

Lemma after_zone s e r z' : zn (after s e r z') = z'.
Proof. by destruct e. Qed.

Lemma boot_tidy id start_pfn size present : 0 < size < 2 ^ 31 -> tidy (boot_sys id start_pfn size present).
Proof.
  intros Hs.
  assert (forall x pg, 0 <= x -> mem_map (zn (boot_sys id start_pfn size present)) !! Z.to_nat x = Some pg ->
    x ∈ boot (boot_sys id start_pfn size present) /\ pg = init_page id) as H.
  { intros x pg Hx Hpg. apply lookup_replicate in Hpg as [-> Hlt]. split; [|done].
    apply elem_of_list_to_set, elem_of_seqZ. lia. }
  split.
  - done.
  - intros x pg Hx Hpg Nb. by destruct (H x pg Hx Hpg).
  - intros x pg Hx Hpg. apply elem_of_list_to_set, elem_of_seqZ in Hx as Hr. destruct (H x pg ltac:(lia) Hpg) as [_ ->].
    split; done.
  - intros p k q pg Hp. change ((∅ : gmap Z nat) !! p = Some k) in Hp. by rewrite lookup_empty in Hp.
Qed.

Lemma careful_tidy n s0 T0 es s : careful s0 es s -> sys_inv n s0 T0 -> tidy s0 -> tidy s.
Proof.
  induction 1 as [|es s e r z' Hc IH He Hf Hrun]; intros I0 Td0; [done|]. specialize (IH I0 Td0).
  destruct (zone_exec_inv _ _ _ _ _ (careful_exec _ _ _ Hc) I0) as [T I].
  pose proof (zone_event_inv _ s T e I He) as H. unfold wp in H. rewrite Hrun in H. destruct H as [_ Ro].
  by eapply tidy_event.
Qed.

(** ** Properties *)

(** C9: the allocator of a zone in use.  From the zone as it is set up, after
    any history of allocations, frees, references, changes of held pages,
    drains and gifts of boot pages, every such call returns: no [BUG] is hit,
    no list or map is accessed out of bounds.  A block it hands out is aligned,
    lies in the zone and is disjoint from every block still held and from the
    pages of the boot code; when it refuses, every aligned block of the order in
    the zone has a page that is held, belongs to the boot code or is in a
    per-CPU cache (so that a free block of single pages in the caches can be
    refused).  When in addition every block was fit to be freed when its last
    reference went (no page of it mapped, or with a mapping or one of the flags
    of a page in use), no page is ever reported as bad. *)
Theorem page_allocator_safe id start_pfn size present es s e :
  0 < size < 2 ^ 31 -> exec (boot_sys id start_pfn size present) es s -> enabled s e ->
  exists r z', do_event e (zn s) = Some (r, z') /\ result_ok s e r z' /\
    (careful (boot_sys id start_pfn size present) es s -> fit s e -> bad_reports z' = 0).
Proof.
  intros Hs Hex He. pose proof (zone_init_inv id start_pfn size present Hs) as I0.
  destruct (zone_exec_inv _ _ _ _ _ Hex I0) as [T I].
  destruct (wp_run _ _ _ (zone_event_inv _ s T e I He)) as (r & z' & Hrun & _ & Hr). exists r, z'. split_and!; [done..|].
  intros Hc Hf. pose proof (careful_tidy _ _ _ _ _ Hc I0 (boot_tidy id start_pfn size present Hs)) as Td.
  pose proof (td_quiet _ (tidy_event _ s T e r z' I Td He Hf Hrun Hr)) as Q. by rewrite after_zone in Q.
Qed.

(** ** Counting pages *)
Definition blk (b : Z * nat) : gset Z := block b.1 b.2.
Definition total (l : list (Z * nat)) : Z := foldr (fun b n => pow b.2 + n) 0 l.

Lemma size_blocks l :
  (forall i j a b, l !! i = Some a -> l !! j = Some b -> i <> j -> blk a ## blk b) ->
  Z.of_nat (size (⋃ (blk <$> l))) = total l.
Proof.
  induction l as [|a l IH]; intros Hd; [done|]. cbn. rewrite size_union.
  - rewrite Nat2Z.inj_add, IH; [unfold blk; by rewrite size_block|].
    intros i j b c Hi Hj Hne. apply (Hd (S i) (S j)); [done..|lia].
  - apply elem_of_disjoint. intros x Hx (y & (b & -> & [i Hi]%list_elem_of_lookup)%list_elem_of_fmap & Hxy)%elem_of_union_list.
    by apply (Hd 0%nat (S i) a b eq_refl Hi ltac:(lia) x).
Qed.

Definition held_pages (s : sys) : gset Z := ⋃ (blk <$> map_to_list (held s)).

Lemma elem_of_held s x : x ∈ held_pages s <-> in_held s x.
Proof.
  unfold held_pages, in_held. rewrite elem_of_union_list. split.
  - intros (y & ([p k] & -> & Hp%elem_of_map_to_list)%list_elem_of_fmap & Hx). eauto.
  - intros (p & k & Hp & Hx). exists (blk (p, k)). split; [|done]. apply list_elem_of_fmap. exists (p, k).
    split; [done|]. by apply elem_of_map_to_list.
Qed.

Lemma size_held n s T : sys_inv n s T -> Z.of_nat (size (held_pages s)) = total (map_to_list (held s)).
Proof.
  intros I. apply size_blocks. intros i j [p k] [q l] Hi Hj Hne.
  pose proof (list_elem_of_lookup_2 _ _ _ Hi) as Hp%elem_of_map_to_list.
  pose proof (list_elem_of_lookup_2 _ _ _ Hj) as Hq%elem_of_map_to_list.
  apply (si_apart _ _ _ I p k q l Hp Hq). intros <-. apply Hne. rewrite Hp in Hq. injection Hq as <-.
  by apply (NoDup_lookup (map_to_list (held s)) i j (p, k)); [apply NoDup_map_to_list|..].
Qed.

Lemma size_zone z T : zone_inv z T -> Z.of_nat (size T) = free_pages z + Z.of_nat (length (caches z)).
Proof.
  intros (F & I & _ & ->). rewrite size_union.
  - rewrite Nat2Z.inj_add, (bi_free _ _ I), size_list_to_set by apply I. done.
  - apply elem_of_disjoint. intros x Hx Hc%elem_of_list_to_set. by destruct (bi_cached _ _ I x Hc).
Qed.

(** C13: no page is lost and none is counted twice.  After any history the
    free counter, the pages of the caches, the blocks held and the pages of
    the boot code add up to the zone, and the caches know their lengths. *)
Theorem page_accounting id start_pfn size present es s :
  0 < size < 2 ^ 31 -> exec (boot_sys id start_pfn size present) es s ->
  free_pages (zn s) + Z.of_nat (length (caches (zn s))) + total (map_to_list (held s)) +
    Z.of_nat (base.size (boot s)) = size /\
  Forall (fun c => count c = Z.of_nat (length (plist c))) (pcp (zn s)).
Proof.
  intros Hs Hex. destruct (zone_exec_inv _ _ _ _ _ Hex (zone_init_inv id start_pfn size present Hs)) as [T I].
  pose proof (si_zone _ _ _ I) as HT. split; [|by destruct HT as (_ & _ & ? & _)].
  rewrite <- (si_size _ _ _ I).
  rewrite <- (size_zone _ T HT), <- (size_held size s T I), <- !Nat2Z.inj_add.
  rewrite <- size_union, <- size_union.
  - assert (T ∪ held_pages s ∪ boot s = list_to_set (seqZ 0 (spanned_pages (zn s)))) as ->.
    { apply set_eq. intros x. rewrite !elem_of_union, elem_of_held, elem_of_list_to_set, elem_of_seqZ. split.
      - intros [[Hx|(p & k & Hp & Hx%elem_of_block)]|Hx].
        + by apply (zone_inv_range _ _ HT) in Hx.
        + destruct (si_held _ _ _ I p k Hp) as (_ & _ & ? & ?). lia.
        + by destruct (si_boot _ _ _ I x Hx).
      - intros Hx. destruct (si_all _ _ _ I x Hx) as [?|[?|?]]; auto. }
    rewrite size_list_to_set, length_seqZ by apply NoDup_seqZ. pose proof (zk_span _ (zone_inv_ok _ _ HT)). lia.
  - apply elem_of_disjoint. intros x [HxT|(p & k & Hp & Hx)%elem_of_held]%elem_of_union Hb.
    + by destruct (si_boot _ _ _ I x Hb).
    + apply (si_used _ _ _ I p k Hp x Hx). by apply elem_of_union_r.
  - apply elem_of_disjoint. intros x HxT (p & k & Hp & Hx)%elem_of_held.
    apply (si_used _ _ _ I p k Hp x Hx). by apply elem_of_union_l.
Qed.

(** C11: the buddy system itself.  On lists that stand for a set [F] of free
    pages, [__rmqueue] returns an aligned block of [F] and takes exactly it
    away, or NULL when no aligned block of the order is free, however the free
    pages came to be; [__free_pages_bulk] of a block that is not free adds
    exactly it, merging it with its buddies; and both keep the lists
    canonical: aligned, disjoint, no two buddies apart, with exact bit maps and
    an exact counter. *)
Theorem buddy_implements_set z F :
  base_inv z F ->
  (forall k, (k < MAX_ORDER)%nat -> exists r z', __rmqueue k z = Some (r, z') /\
     match r with
     | Some p => aligned p k /\ block p k ⊆ F /\ base_inv z' (F ∖ block p k)
     | None => z' = z /\ forall p, aligned p k -> ~ block p k ⊆ F
     end) /\
  (forall i k, (k < MAX_ORDER)%nat -> aligned i k -> 0 <= i -> i + pow k <= spanned_pages z ->
     block i k ## F ∪ list_to_set (caches z) ->
     exists z', __free_pages_bulk i k k z = Some (tt, z') /\ base_inv z' (F ∪ block i k)).
Proof.
  intros I. split.
  - intros k Hk. destruct (wp_run _ _ _ (take_block z F k I Hk)) as (r & z' & Hrun & _ & _ & H). eauto.
  - intros i k Hk Ha H0 Hsp Hd.
    destruct (wp_run _ _ _ (free_block z F i k I Hk Ha H0 Hsp ltac:(set_solver) ltac:(set_solver))) as ([] & z' & Hrun & H & _). eauto.
Qed.

(** ** A zone of sixteen pages *)
Definition step_sys (s : sys) (e : event) : sys :=
  match do_event e (zn s) with Some (r, z') => after s e r z' | None => s end.

Lemma careful_step s0 es s e :
  careful s0 es s -> enabled s e -> fit s e -> is_Some (do_event e (zn s)) -> careful s0 (es ++ [e]) (step_sys s e).
Proof. intros Hex He Hf [[r z'] Hrun]. unfold step_sys. rewrite Hrun. by eapply careful_snoc. Qed.

Definition sample_zone : sys := boot_sys 1 1024 16 16.
Definition sample_zone_events : list event := [Boot 0 3; Boot 8 3; Alloc 2 0; Alloc 0 0; Free 4 0].
Definition sample_zone_used : sys := foldl step_sys sample_zone sample_zone_events.

Lemma sample_zone_careful : careful sample_zone sample_zone_events sample_zone_used.
Proof.
  assert (forall p, p = 0 \/ p = 8 -> aligned p 3) as Hal by (intros p [->| ->]; [by exists 0|by exists 1]).
  apply (careful_step sample_zone [Boot 0 3; Boot 8 3; Alloc 2 0; Alloc 0 0]); [|by vm_compute| |by vm_compute; eauto].
  2: { intros _ q pg Hq Hpg. apply elem_of_block in Hq. change (pow 0) with 1 in Hq. assert (q = 4) as -> by lia.
       vm_compute in Hpg. injection Hpg as <-. split; [reflexivity|split; [left; reflexivity|reflexivity]]. }
  apply (careful_step sample_zone [Boot 0 3; Boot 8 3; Alloc 2 0]); [|unfold enabled, MAX_ORDER; lia|done|by vm_compute; eauto].
  apply (careful_step sample_zone [Boot 0 3; Boot 8 3]); [|unfold enabled, MAX_ORDER; lia|done|by vm_compute; eauto].
  apply (careful_step sample_zone [Boot 0 3]); [| |done|by vm_compute; eauto].
  - apply (careful_step sample_zone []); [constructor| |done|by vm_compute; eauto].
    split_and!; [unfold MAX_ORDER; lia|by apply Hal; left|]. intros x Hx%elem_of_block. cbn in Hx.
    apply elem_of_list_to_set, elem_of_seqZ. lia.
  - split_and!; [unfold MAX_ORDER; lia|by apply Hal; right|]. intros x Hx%elem_of_block. cbn in Hx.
    change (x ∈ (list_to_set (seqZ 0 16) : gset Z) ∖ block 0 3). rewrite elem_of_difference, elem_of_block.
    rewrite elem_of_list_to_set, elem_of_seqZ. cbn. lia.
Qed.

Lemma page_allocator_safe_witness :
  enabled sample_zone_used (Free 0 2) /\
  exists r z', do_event (Free 0 2) (zn sample_zone_used) = Some (r, z') /\ bad_reports z' = 0.
Proof.
  assert (enabled sample_zone_used (Free 0 2)) as He by (by vm_compute). split; [exact He|].
  destruct (page_allocator_safe 1 1024 16 16 sample_zone_events sample_zone_used (Free 0 2) ltac:(lia)
    (careful_exec _ _ _ sample_zone_careful) He) as (r & z' & Hrun & _ & Hq).
  exists r, z'. split; [exact Hrun|]. apply Hq; [exact sample_zone_careful|].
  intros _ q pg Hq' Hpg. apply elem_of_block in Hq'. change (pow 2) with 4 in Hq'.
  assert (q = 0 \/ q = 1 \/ q = 2 \/ q = 3) as Hc by lia.
  destruct Hc as [-> | [-> | [-> | ->]]]; vm_compute in Hpg; injection Hpg as <-; (split; [reflexivity|split; [left; reflexivity|reflexivity]]).
Defined.

Lemma page_accounting_witness :
  free_pages (zn sample_zone_used) = 11 /\ length (caches (zn sample_zone_used)) = 1%nat /\
  free_pages (zn sample_zone_used) + Z.of_nat (length (caches (zn sample_zone_used))) +
    total (map_to_list (held sample_zone_used)) + Z.of_nat (size (boot sample_zone_used)) = 16.
Proof.
  split; [by vm_compute|]. split; [by vm_compute|].
  apply (page_accounting 1 1024 16 16 sample_zone_events); [lia|exact (careful_exec _ _ _ sample_zone_careful)].
Defined.

Lemma buddy_implements_set_witness :
  base_inv (free_area_init_core 1 1024 16 16) ∅ /\
  exists z', __free_pages_bulk 8 3 3 (free_area_init_core 1 1024 16 16) = Some (tt, z') /\ base_inv z' (∅ ∪ block 8 3).
Proof.
  assert (base_inv (free_area_init_core 1 1024 16 16) ∅) as I by (by apply init_base). split; [exact I|].
  apply (buddy_implements_set _ ∅ I); [unfold MAX_ORDER; lia|by exists 1|lia|cbn; lia|cbn; set_solver].
Defined.
