(* ===== verification/RwSem.v ===== *)
(** * lib/rwsem-spinlock.c: reader/writer semaphores

    One semaphore and any number of tasks that use it.  The routines are
    programs of atomic steps: a task is at a [pc], and [tstep] is what it does
    there.  Everything but the waiter's [task] field and the state of a task is
    accessed under [wait_lock], so a step is the code up to the next access to
    one of these, or to the lock itself.  A [struct rwsem_waiter] is on the
    stack of the task that waits: it exists ([waiters]) from the moment the
    task sets it up until the call returns, and any access outside this time
    is an oops, as is a wake-up of a task whose last reference is gone. *)
From stdpp Require Import functions.
From S2P Require Import Prelude.

Definition RWSEM_WAITING_FOR_READ : Z := 1.
Definition RWSEM_WAITING_FOR_WRITE : Z := 2.

Inductive mode := Rd | Wr.
Definition waiting_for (m : mode) : Z :=
  match m with Rd => RWSEM_WAITING_FOR_READ | Wr => RWSEM_WAITING_FOR_WRITE end.

(** [struct rwsem_waiter], its place in the list apart. *)
Record rwsem_waiter := { task : option nat; flags : Z }.
#[export] Instance eta_rwsem_waiter : Eta rwsem_waiter := fun w => {| task := task w; flags := flags w |}.

Inductive call := DownRead | DownReadTry | DownWrite | DownWriteTry | UpRead | UpWrite | Downgrade.

(** What follows [wake_up_process]: nothing more to wake, or the loop over the
    readers, with [next] and [woken]. *)
Inductive kont := KDone | KRead (next : option nat) (woken : Z).

(** Where a task is: outside the semaphore, holding it, or inside a call. *)
Inductive pc :=
| Idle
| Dead                                      (* the task has exited *)
| Holds (m : mode)
| Lock (c : call)                           (* spin_lock(&sem->wait_lock) *)
| Crit (c : call)                           (* the first access under the lock *)
| WakeReaders (waiter : option nat) (woken : Z) (back : pc)
| Notify (tsk : nat) (k : kont) (back : pc) (* waiter->task is NULL; wake_up_process(tsk) *)
| Unlock (back : pc)                        (* spin_unlock *)
| Check (m : mode)                          (* if (!waiter.task) break; *)
| Sched (m : mode)                          (* schedule(); *)
| SetState (m : mode)                       (* set_task_state(tsk, TASK_UNINTERRUPTIBLE); *)
| Leave (m : mode).                         (* tsk->state = TASK_RUNNING; *)

Record rwsem := {
  activity : Z;
  wait_lock : option nat;                   (** the task that has the spinlock *)
  wait_list : list nat;                     (** waiters, by the task they are on the stack of *)
  waiters : nat -> option rwsem_waiter;
  running : nat -> bool;                    (** TASK_RUNNING, or TASK_UNINTERRUPTIBLE *)
  usage : nat -> Z;                         (** references to the task *)
  pcs : nat -> pc
}.
#[export] Instance eta_rwsem : Eta rwsem := fun s =>
  {| activity := activity s; wait_lock := wait_lock s; wait_list := wait_list s; waiters := waiters s;
     running := running s; usage := usage s; pcs := pcs s |}.

(** ** Primitives *)
Definition goto (t : nat) (p : pc) : M rwsem unit := modify (fun s => s <| pcs := <[t := p]> (pcs s) |>).
Definition set_activity (f : Z -> Z) : M rwsem unit := modify (fun s => s <| activity := s32 (f (activity s)) |>).
Definition get_waiter (w : option nat) : M rwsem rwsem_waiter :=
  w ← deref w; o ← gets (fun s => waiters s w); deref o.
Definition list_empty : M rwsem bool := gets (fun s => match wait_list s with [] => true | _ => false end).
(** [list_entry(sem->wait_list.next)] and [waiter->list.next]; the head of the
    list is not a waiter. *)
Definition first_waiter : M rwsem (option nat) := gets (fun s => head (wait_list s)).
Fixpoint next_in (w : nat) (l : list nat) : option nat :=
  match l with
  | [] => None
  | x :: l => if Nat.eqb x w then head l else next_in w l
  end.
Definition list_del (w : nat) : M rwsem unit := fun s =>
  if bool_decide (w ∈ wait_list s) then Some (tt, s <| wait_list := filter (fun x => x <> w) (wait_list s) |>) else None.

Definition set_task_state (t : nat) (run : bool) : M rwsem unit := modify (fun s => s <| running := <[t := run]> (running s) |>).
Definition task_ref (t : nat) (d : Z) : M rwsem unit := modify (fun s => s <| usage := <[t := usage s t + d]> (usage s) |>).
Definition get_task_struct (t : nat) : M rwsem unit := task_ref t 1.
(** A task is there as long as it has a reference. *)
Definition task_there (t : nat) : M rwsem unit := u ← gets (fun s => usage s t); if 0 <? u then ret tt else oops.
Definition put_task_struct (t : nat) : M rwsem unit := task_there t;; task_ref t (-1).
Definition wake_up_process (t : nat) : M rwsem unit := task_there t;; set_task_state t true.

(** ** Wake-ups *)

(** [list_del(&waiter->list); tsk = waiter->task; mb(); waiter->task = NULL;] *)
Definition grant (w : nat) : M rwsem nat :=
  list_del w;;
  r ← get_waiter (Some w);
  tsk ← deref (task r);
  modify (fun s => s <| waiters := <[w := Some (r <| task := None |>)]> (waiters s) |>);;
  ret tsk.

Definition __rwsem_wake_one_writer (t : nat) (back : pc) : M rwsem unit :=
  set_activity (fun _ => -1);;
  w ← first_waiter; w ← deref w;
  tsk ← grant w;
  goto t (Notify tsk KDone back).

(** One round of the loop over the readers; its end. *)
Definition wake_readers_done (t : nat) (woken : Z) (back : pc) : M rwsem unit :=
  set_activity (fun a => a + woken);; goto t (Unlock back).
Definition wake_readers (t : nat) (waiter : option nat) (woken : Z) (back : pc) : M rwsem unit :=
  w ← deref waiter;
  r ← get_waiter waiter;
  if truth (Z.land (flags r) RWSEM_WAITING_FOR_READ) then
    next ← gets (fun s => next_in w (wait_list s));
    tsk ← grant w;
    goto t (Notify tsk (KRead next woken) back)
  else wake_readers_done t woken back.

Definition __rwsem_do_wake (t : nat) (wakewrite : bool) (back : pc) : M rwsem unit :=
  waiter ← first_waiter;
  r ← get_waiter waiter;
  if negb wakewrite then
    if truth (Z.land (flags r) RWSEM_WAITING_FOR_WRITE) then goto t (Unlock back)
    else goto t (WakeReaders waiter 0 back)
  else if truth (Z.land (flags r) RWSEM_WAITING_FOR_WRITE) then
    set_activity (fun _ => -1);;
    w ← deref waiter;
    tsk ← grant w;
    goto t (Notify tsk KDone back)
  else goto t (WakeReaders waiter 0 back).

(** After [waiter->task = NULL]: wake the task, drop the reference, go on. *)
Definition notify (t tsk : nat) (k : kont) (back : pc) : M rwsem unit :=
  wake_up_process tsk;;
  put_task_struct tsk;;
  match k with
  | KDone => goto t (Unlock back)
  | KRead next woken =>
      e ← list_empty;
      if (e : bool) then wake_readers_done t (woken + 1) back else goto t (WakeReaders next (woken + 1) back)
  end.

(** ** The calls, under the lock *)

(** The waiter of [down_read] and [down_write], queued. *)
Definition enqueue (t : nat) (m : mode) : M rwsem unit :=
  set_task_state t false;;
  modify (fun s => s <| waiters := <[t := Some {| task := Some t; flags := waiting_for m |}]> (waiters s) |>);;
  get_task_struct t;;
  modify (fun s => s <| wait_list := wait_list s ++ [t] |>);;
  goto t (Unlock (Check m)).

Definition read_granted : M rwsem bool :=
  a ← gets activity; e ← list_empty; ret ((0 <=? a) && e).
Definition write_granted : M rwsem bool :=
  a ← gets activity; e ← list_empty; ret ((a =? 0) && e).

Definition __down_read (t : nat) : M rwsem unit :=
  b ← read_granted;
  if (b : bool) then set_activity (fun a => a + 1);; goto t (Unlock (Holds Rd)) else enqueue t Rd.
Definition __down_read_trylock (t : nat) : M rwsem unit :=
  b ← read_granted;
  if (b : bool) then set_activity (fun a => a + 1);; goto t (Unlock (Holds Rd)) else goto t (Unlock Idle).
Definition __down_write (t : nat) : M rwsem unit :=
  b ← write_granted;
  if (b : bool) then set_activity (fun _ => -1);; goto t (Unlock (Holds Wr)) else enqueue t Wr.
Definition __down_write_trylock (t : nat) : M rwsem unit :=
  b ← write_granted;
  if (b : bool) then set_activity (fun _ => -1);; goto t (Unlock (Holds Wr)) else goto t (Unlock Idle).
Definition __up_read (t : nat) : M rwsem unit :=
  set_activity (fun a => a - 1);;
  a ← gets activity; e ← list_empty;
  if (a =? 0) && negb e then __rwsem_wake_one_writer t Idle else goto t (Unlock Idle).
Definition __up_write (t : nat) : M rwsem unit :=
  set_activity (fun _ => 0);;
  e ← list_empty;
  if negb e then __rwsem_do_wake t true Idle else goto t (Unlock Idle).
Definition __downgrade_write (t : nat) : M rwsem unit :=
  set_activity (fun _ => 1);;
  e ← list_empty;
  if negb e then __rwsem_do_wake t false (Holds Rd) else goto t (Unlock (Holds Rd)).

Definition critical (t : nat) (c : call) : M rwsem unit :=
  match c with
  | DownRead => __down_read t
  | DownReadTry => __down_read_trylock t
  | DownWrite => __down_write t
  | DownWriteTry => __down_write_trylock t
  | UpRead => __up_read t
  | UpWrite => __up_write t
  | Downgrade => __downgrade_write t
  end.

(** ** The steps of a task *)

(** A step a task has to wait for: the spinlock, or to be runnable. *)
Definition can_step (s : rwsem) (t : nat) : bool :=
  match pcs s t with
  | Idle | Dead | Holds _ => false
  | Lock _ => match wait_lock s with None => true | Some _ => false end
  | Sched _ => running s t
  | _ => true
  end.

Definition tstep (t : nat) : M rwsem unit :=
  p ← gets (fun s => pcs s t);
  match p with
  | Idle | Dead | Holds _ => ret tt
  | Lock c => modify (fun s => s <| wait_lock := Some t |>);; goto t (Crit c)
  | Crit c => critical t c
  | WakeReaders waiter woken back => wake_readers t waiter woken back
  | Notify tsk k back => notify t tsk k back
  | Unlock back => modify (fun s => s <| wait_lock := None |>);; goto t back
  | Check m => r ← get_waiter (Some t); goto t (match task r with None => Leave m | Some _ => Sched m end)
  | Sched m => goto t (SetState m)
  | SetState m => set_task_state t false;; goto t (Check m)
  | Leave m => set_task_state t true;; modify (fun s => s <| waiters := <[t := None]> (waiters s) |>);; goto t (Holds m)
  end.

(** The calls a task may make: to take the semaphore when it does not have it,
    to give back what it holds. *)
Definition may_call (p : pc) (c : call) : bool :=
  match p, c with
  | Idle, (DownRead | DownReadTry | DownWrite | DownWriteTry) => true
  | Holds Rd, UpRead => true
  | Holds Wr, (UpWrite | Downgrade) => true
  | _, _ => false
  end.

(** [exit]: the task drops the reference to itself. *)
Definition do_exit (t : nat) : M rwsem unit := put_task_struct t;; goto t Dead.

Definition init_rwsem : rwsem :=
  {| activity := 0; wait_lock := None; wait_list := []; waiters := fun _ => None; running := fun _ => true;
     usage := fun _ => 1; pcs := fun _ => Idle |}.
