(* ===== verification/RwSemProof.v ===== *)
(** * Reader/writer semaphores: specification and simulation relation

    The abstract semaphore is the set of readers, the writer, and a queue of
    tasks with what they wait for; every call is one step of it.  The code
    takes that step when it enters its critical section, and then hands the
    semaphore over task by task; [sem_inv] relates the two at every point in
    between. *)
From stdpp Require Import functions.
From S2P Require Import Prelude.
From S2P Require Import RwSem.

(** ** The abstract semaphore *)
Record abs := { rd : gset nat; wr : option nat; queue : list (nat * mode) }.

#[export] Instance mode_eq_dec : EqDecision mode.
Proof. solve_decision. Defined.

(** The number of tasks is limited (include/linux/threads.h). *)
Definition PID_MAX_LIMIT : Z := 4 * 1024 * 1024.

(** The readers at the front of the queue, and the rest. *)
Fixpoint readers (q : list (nat * mode)) : list nat :=
  match q with (t, Rd) :: q => t :: readers q | _ => [] end.
Fixpoint behind (q : list (nat * mode)) : list (nat * mode) :=
  match q with (_, Rd) :: q => behind q | _ => q end.

(** The semaphore has no writer: who is next? *)
Definition hand_over (r : gset nat) (q : list (nat * mode)) : abs :=
  match q with
  | (w, Wr) :: q' => if decide (r = ∅) then {| rd := ∅; wr := Some w; queue := q' |} else {| rd := r; wr := None; queue := q |}
  | _ => {| rd := r ∪ list_to_set (readers q); wr := None; queue := behind q |}
  end.

Definition may_read (A : abs) : bool := bool_decide (wr A = None /\ queue A = []).
Definition may_write (A : abs) : bool := bool_decide (wr A = None /\ rd A = ∅ /\ queue A = []).
Definition waits (A : abs) (t : nat) (m : mode) : abs := {| rd := rd A; wr := wr A; queue := queue A ++ [(t, m)] |}.

Definition acall (t : nat) (c : call) (A : abs) : abs :=
  match c with
  | DownRead => if may_read A then {| rd := {[t]} ∪ rd A; wr := None; queue := [] |} else waits A t Rd
  | DownReadTry => if may_read A then {| rd := {[t]} ∪ rd A; wr := None; queue := [] |} else A
  | DownWrite => if may_write A then {| rd := ∅; wr := Some t; queue := [] |} else waits A t Wr
  | DownWriteTry => if may_write A then {| rd := ∅; wr := Some t; queue := [] |} else A
  | UpRead => if decide (rd A ∖ {[t]} = ∅) then hand_over ∅ (queue A) else {| rd := rd A ∖ {[t]}; wr := None; queue := queue A |}
  | UpWrite => hand_over ∅ (queue A)
  | Downgrade => hand_over {[t]} (queue A)
  end.

(** Whether a task has the semaphore. *)
Definition has (A : abs) (t : nat) (m : mode) : Prop :=
  match m with Rd => t ∈ rd A | Wr => wr A = Some t end.
Definition free (A : abs) (t : nat) : Prop := (forall m, ~ has A t m) /\ (forall m, (t, m) ∉ queue A).

Record abs_ok (A : abs) : Prop := {
  ao_excl t : wr A = Some t -> rd A = ∅;
  ao_busy : rd A = ∅ -> wr A = None -> queue A = [];
  ao_readers t q : rd A <> ∅ -> queue A <> (t, Rd) :: q;
  ao_nodup : NoDup (queue A).*1;
  ao_queued t m m' : (t, m) ∈ queue A -> ~ has A t m';
  ao_tasks t : t ∈ rd A \/ t ∈ (queue A).*1 -> Z.of_nat t < PID_MAX_LIMIT
}.

Lemma readers_behind q : ((fun t => (t, Rd)) <$> readers q) ++ behind q = q.
Proof. induction q as [|[t []] q IH]; simpl; [done|by f_equal|done]. Qed.

Lemma behind_head q t q' : behind q <> (t, Rd) :: q'.
Proof. induction q as [|[u []] q IH]; simpl; [done|apply IH|done]. Qed.

(** ** The relation *)

(** A task at [p] whose waiter is [w] and which is in the list or not. *)
Definition waiting (A : abs) (t : nat) (w : option rwsem_waiter) (inl : Prop) (m : mode) : Prop :=
  (w = Some {| task := None; flags := waiting_for m |} /\ has A t m /\ ~ inl) \/
  (w = Some {| task := Some t; flags := waiting_for m |} /\ inl /\ ((t, m) ∈ queue A \/ (m = Rd /\ t ∈ rd A))).

Definition needs (c : call) : option mode :=
  match c with UpRead => Some Rd | UpWrite | Downgrade => Some Wr | _ => None end.

Definition holding (A : abs) (t : nat) (w : option rwsem_waiter) (inl : Prop) (o : option mode) : Prop :=
  w = None /\ ~ inl /\ match o with None => free A t | Some m => has A t m end.

Fixpoint pc_ok (A : abs) (t : nat) (w : option rwsem_waiter) (inl : Prop) (p : pc) : Prop :=
  match p with
  | Idle | Dead => holding A t w inl None
  | Holds m => holding A t w inl (Some m)
  | Lock c | Crit c => holding A t w inl (needs c)
  | WakeReaders _ _ back | Notify _ _ back | Unlock back => pc_ok A t w inl back
  | Check m | Sched m | SetState m => waiting A t w inl m
  | Leave m => w = Some {| task := None; flags := waiting_for m |} /\ has A t m /\ ~ inl
  end.

(** Where a call goes on after the lock is released. *)
Definition settled (p : pc) : bool := match p with Idle | Holds _ => true | _ => false end.
Definition back_ok (p : pc) : bool :=
  match p with
  | WakeReaders _ _ b | Notify _ _ b => settled b
  | Unlock b => settled b || match b with Check _ => true | _ => false end
  | _ => true
  end.

Definition locked_pc (p : pc) : bool :=
  match p with Crit _ | WakeReaders _ _ _ | Notify _ _ _ | Unlock _ => true | _ => false end.

(** The number [activity] stands for. *)
Definition act (A : abs) : Z := match wr A with Some _ => -1 | None => Z.of_nat (size (rd A)) end.

(** The readers still to be woken are [rem]; the task with the lock is at [p]. *)
Definition lock_ok (A : abs) (s : rwsem) (rem : list nat) (p : option pc) : Prop :=
  match p with
  | Some (WakeReaders w woken _) =>
      wr A = None /\ rd A <> ∅ /\ w = head (wait_list s) /\ wait_list s <> [] /\ 0 <= woken /\ 0 <= activity s /\
      activity s + woken + Z.of_nat (length rem) = Z.of_nat (size (rd A))
  | Some (Notify tsk KDone _) => rem = [] /\ wr A = Some tsk /\ activity s = -1
  | Some (Notify tsk (KRead next woken) _) =>
      wr A = None /\ tsk ∈ rd A /\ next = head (wait_list s) /\ 0 <= woken /\ 0 <= activity s /\
      activity s + woken + 1 + Z.of_nat (length rem) = Z.of_nat (size (rd A))
  | _ => rem = [] /\ activity s = act A
  end.

Definition lock_pc (s : rwsem) : option pc := (fun u => pcs s u) <$> wait_lock s.
Definition notified (s : rwsem) (t : nat) : bool :=
  match lock_pc s with Some (Notify tsk _ _) => Nat.eqb tsk t | _ => false end.

Record sem_inv (s : rwsem) (A : abs) : Prop := {
  sv_abs : abs_ok A;
  sv_list : exists rem, wait_list s = rem ++ (queue A).*1 /\ NoDup rem /\ (forall t, t ∈ rem -> t ∈ rd A) /\
    lock_ok A s rem (lock_pc s);
  sv_pc t : pc_ok A t (waiters s t) (t ∈ wait_list s) (pcs s t);
  sv_back t : back_ok (pcs s t) = true;
  sv_lock t : locked_pc (pcs s t) = true <-> wait_lock s = Some t;
  sv_wake t m : pcs s t = Sched m -> running s t = false -> task <$> waiters s t = Some None -> notified s t = true;
  sv_usage t : usage s t = (match pcs s t with Dead => 0 | _ => 1 end) + of_bool (bool_decide (t ∈ wait_list s)) +
    of_bool (notified s t)
}.

Arguments notified : simpl never.
Arguments lock_pc : simpl never.

(** ** Reader/writer semaphores: every step keeps the relation *)
(** ** The abstract semaphore stays well formed *)
Lemma elem_of_readers t q : t ∈ readers q -> (t, Rd) ∈ q.
Proof. rewrite <- (readers_behind q) at 2. intros H. apply elem_of_app. left. apply list_elem_of_fmap. eauto. Qed.
Lemma elem_of_behind t m q : (t, m) ∈ behind q -> (t, m) ∈ q.
Proof. rewrite <- (readers_behind q) at 2. intros H. apply elem_of_app. by right. Qed.
Lemma elem_of_split t m q : (t, m) ∈ q -> (m = Rd /\ t ∈ readers q) \/ (t, m) ∈ behind q.
Proof.
  rewrite <- (readers_behind q) at 1. intros [(u & [= -> ->] & H)%list_elem_of_fmap|H]%elem_of_app; auto.
Qed.
Lemma queue_split q : q.*1 = readers q ++ (behind q).*1.
Proof.
  rewrite <- (readers_behind q) at 1. rewrite fmap_app. f_equal. rewrite <- list_fmap_compose. apply list_fmap_id.
Qed.

Lemma queue_fun (q : list (nat * mode)) t m m' : NoDup q.*1 -> (t, m) ∈ q -> (t, m') ∈ q -> m = m'.
Proof.
  induction q as [|[u n] q IH]; [by intros _ ?%elem_of_nil|]. cbn. intros [Hn Hd]%NoDup_cons.
  assert (forall m, (u, m) ∉ q) as Hu by (intros k Hk; apply Hn, list_elem_of_fmap; by exists (u, k)).
  rewrite !elem_of_cons. intros [E1|H1] [E2|H2]; simplify_eq; [done|by destruct (Hu m')|by destruct (Hu m)|by apply IH].
Qed.

(** The queue after the semaphore is given up, in a state without holders. *)
Lemma in_queue t m (q : list (nat * mode)) : (t, m) ∈ q -> t ∈ q.*1.
Proof. intros H. apply list_elem_of_fmap. by exists (t, m). Qed.

Lemma hand_over_ok r q :
  NoDup q.*1 -> (forall t m, (t, m) ∈ q -> t ∉ r) -> (forall t, t ∈ r \/ t ∈ q.*1 -> Z.of_nat t < PID_MAX_LIMIT) ->
  abs_ok (hand_over r q).
Proof.
  intros Hnd Hr Hpid. destruct q as [|[w []] q]; simpl.
  - rewrite union_empty_r_L. split; simpl; try done; set_solver.
  - cbn in Hnd, Hpid. apply NoDup_cons in Hnd as [Hw Hnd]. rewrite queue_split in Hnd, Hw, Hpid.
    pose proof Hnd as (_ & Hd & Hb)%NoDup_app. split; simpl.
    + done.
    + set_solver.
    + intros t q' _. apply behind_head.
    + done.
    + intros t m [] Ht; cbn; [|done]. pose proof (in_queue _ _ _ Ht) as Htq.
      assert (t ∉ r) by (apply (Hr t m); right; by apply elem_of_behind). set_solver.
    + intros t Ht. apply Hpid. set_solver.
  - cbn in Hnd, Hpid. apply NoDup_cons in Hnd as [Hw Hnd]. destruct (decide (r = ∅)) as [->|Hne]; split; simpl; try done.
    + intros t m [] Ht; cbn; [set_solver|]. intros [= ->]. by apply Hw, (in_queue t m).
    + intros t [?|?]; [set_solver|]. apply Hpid. set_solver.
    + by apply NoDup_cons.
    + intros t m [] Ht; cbn; [by eapply Hr|done].
Qed.

Lemma waits_ok A t m :
  abs_ok A -> free A t -> Z.of_nat t < PID_MAX_LIMIT -> (m = Rd -> may_read A = false) -> (m = Wr -> may_write A = false) ->
  abs_ok (waits A t m).
Proof.
  intros [Oex Obu Ord Ond Oqu Ota] [Hh Hq] Hpid Hr Hw. split; simpl; try done.
  - intros E1 E2. exfalso. pose proof (Obu E1 E2) as E3.
    destruct m; [specialize (Hr eq_refl); apply bool_decide_eq_false in Hr|specialize (Hw eq_refl); apply bool_decide_eq_false in Hw]; naive_solver.
  - intros u q Hne. destruct (queue A) as [|x q'] eqn:E; simpl; [|intros [= -> _]; by eapply Ord].
    intros [= -> -> <-]. specialize (Hr eq_refl). apply bool_decide_eq_false in Hr. apply Hr. split; [|done].
    destruct (wr A) as [v|] eqn:Ew; [|done]. by destruct (Hne (Oex v eq_refl)).
  - rewrite fmap_app. apply NoDup_app. split_and!; [done| |apply NoDup_singleton]. cbn.
    intros u Hu ->%list_elem_of_singleton. apply list_elem_of_fmap in Hu as ([v k] & -> & Hv). by apply (Hq k).
  - intros u k k' [Hu|[= -> ->]%list_elem_of_singleton]%elem_of_app; [by eapply Oqu|apply Hh].
  - intros u. rewrite fmap_app. cbn. intros [?|[?| ->%list_elem_of_singleton]%elem_of_app]; [apply Ota; by left|apply Ota; by right|done].
Qed.

(** What a call asks of the abstract state. *)
Definition ready (A : abs) (t : nat) (c : call) : Prop :=
  match needs c with None => free A t | Some m => has A t m end.

Lemma has_excl A t u m : abs_ok A -> has A t Wr -> has A u m -> u = t.
Proof. intros I Ht. destruct m; cbn in *; [|congruence]. rewrite (ao_excl _ I t Ht). set_solver. Qed.

Lemma acall_ok t c A : abs_ok A -> Z.of_nat t < PID_MAX_LIMIT -> ready A t c -> abs_ok (acall t c A).
Proof.
  intros I Hpid Hready. unfold ready in Hready.
  assert (forall u, u ∈ rd A \/ u ∈ (queue A).*1 -> Z.of_nat u < PID_MAX_LIMIT) as Htasks by apply I.
  assert (may_read A = true -> abs_ok {| rd := {[t]} ∪ rd A; wr := None; queue := [] |}) as Hread.
  { intros _. split; simpl; try done; try set_solver. apply NoDup_nil_2. }
  assert (abs_ok {| rd := ∅; wr := Some t; queue := [] |}) as Hwrite.
  { split; simpl; try done; try set_solver. apply NoDup_nil_2. }
  destruct c; cbn in *.
  - destruct (may_read A) eqn:E; [by apply Hread|]. by apply waits_ok.
  - destruct (may_read A) eqn:E; [by apply Hread|done].
  - destruct (may_write A) eqn:E; [done|]. by apply waits_ok.
  - by destruct (may_write A).
  - destruct (decide (rd A ∖ {[t]} = ∅)) as [E|E].
    + apply hand_over_ok; [apply I|set_solver|]. intros u [?|?]; [set_solver|auto].
    + split; simpl; try done.
      * intros u q _. apply I. intros E'. apply E. rewrite E'. set_solver.
      * apply I.
      * intros u m [] Hu; cbn; [|done]. intros [Hrd _]%elem_of_difference. by apply (ao_queued _ I u m Rd Hu).
      * intros u [[? _]%elem_of_difference|?]; auto.
  - apply hand_over_ok; [apply I|set_solver|]. intros u [?|?]; [set_solver|auto].
  - apply hand_over_ok; [apply I| |].
    + intros u m Hu ->%elem_of_singleton. by apply (ao_queued _ I t m Wr Hu).
    + intros u [->%elem_of_singleton|?]; auto.
Qed.

(** A call of [t] takes nothing from the others. *)
Lemma hand_over_queued r q u m : (u, m) ∈ q -> (u, m) ∈ queue (hand_over r q) \/ has (hand_over r q) u m.
Proof.
  destruct q as [|[w []] q]; cbn; [by intros ?%elem_of_nil| |].
  - intros [[= -> ->]|Hu]%elem_of_cons; [right; cbn; set_solver|].
    apply elem_of_split in Hu as [[-> Hu]|Hu]; [right; cbn; set_solver|by left].
  - destruct (decide (r = ∅)); cbn; [|by left]. intros [[= -> ->]|Hu]%elem_of_cons; [by right|by left].
Qed.
Lemma hand_over_subset r q u m : (u, m) ∈ queue (hand_over r q) -> (u, m) ∈ q.
Proof.
  destruct q as [|[w []] q]; cbn; [done| |].
  - intros H. right. by apply elem_of_behind.
  - destruct (decide (r = ∅)); cbn; [|done]. intros H. by right.
Qed.
Lemma hand_over_has r q u m : has (hand_over r q) u m -> u ∈ r /\ m = Rd \/ (u, m) ∈ q.
Proof.
  destruct q as [|[w []] q], m; cbn; try done.
  - set_solver.
  - intros [H|[H|H]%elem_of_union]%elem_of_union; [by auto|apply elem_of_singleton in H as ->; right; left|].
    right; right. apply elem_of_readers. set_solver.
  - destruct (decide (r = ∅)); cbn; set_solver.
  - destruct (decide (r = ∅)); cbn; [|done]. intros [= ->]. right. left.
Qed.
Lemma hand_over_keeps r q u : u ∈ r -> u ∈ rd (hand_over r q).
Proof. destruct q as [|[w []] q]; cbn; [set_solver|set_solver|]. destruct (decide (r = ∅)); set_solver. Qed.

Record others (A A' : abs) (u : nat) : Prop := {
  ot_has m : has A u m -> has A' u m;
  ot_free : free A u -> free A' u;
  ot_queue m : (u, m) ∈ queue A -> (u, m) ∈ queue A' \/ has A' u m
}.

Lemma others_refl A u : others A A u.
Proof. split; auto. Qed.

Lemma others_hand_over A r u :
  (forall m, has A u m -> m = Rd /\ u ∈ r) -> (u ∈ r -> has A u Rd) -> others A (hand_over r (queue A)) u.
Proof.
  intros Hr Hr'. split.
  - intros m [-> H]%Hr. by apply hand_over_keeps.
  - intros [Hh Hq]. split; intros m Hm.
    + apply hand_over_has in Hm as [[H _]|H]; [by apply (Hh Rd), Hr'|by apply (Hq m)].
    + by apply hand_over_subset, Hq in Hm.
  - intros m. apply hand_over_queued.
Qed.

Lemma acall_others t c A u : abs_ok A -> ready A t c -> u <> t -> others A (acall t c A) u.
Proof.
  intros I Hready Hne. unfold ready in Hready.
  assert (forall m, others A (waits A t m) u) as Hwait.
  { intros m. split; [by intros []|intros [Hh Hq]|].
    - split; [by intros []; apply (Hh Rd) || apply (Hh Wr)|]. intros k. cbn. rewrite elem_of_app, list_elem_of_singleton.
      intros [?|?]; [by apply (Hq k)|congruence].
    - intros k Hk. left. apply elem_of_app. by left. }
  assert (may_read A = true -> others A {| rd := {[t]} ∪ rd A; wr := None; queue := [] |} u) as Hread.
  { intros [E1 E2]%bool_decide_eq_true. split; [|intros [Hh Hq]; split|rewrite E2; by intros m ?%elem_of_nil].
    - intros []; cbn; [set_solver|congruence].
    - intros []; cbn; [|done]. specialize (Hh Rd). cbn in Hh. set_solver.
    - intros m. apply not_elem_of_nil. }
  assert (may_write A = true -> others A {| rd := ∅; wr := Some t; queue := [] |} u) as Hwrite.
  { intros (E1 & E2 & E3)%bool_decide_eq_true. split; [|intros [Hh Hq]; split|rewrite E3; by intros m ?%elem_of_nil].
    - intros []; cbn; [set_solver|congruence].
    - intros []; cbn; [set_solver|congruence].
    - intros m. apply not_elem_of_nil. }
  destruct c; cbn in *.
  - destruct (may_read A) eqn:E; auto.
  - destruct (may_read A) eqn:E; [auto|apply others_refl].
  - destruct (may_write A) eqn:E; auto.
  - destruct (may_write A) eqn:E; [auto|apply others_refl].
  - assert (wr A = None) as Hw.
    { destruct (wr A) as [v|] eqn:Ew; [|done]. pose proof (ao_excl _ I v Ew). set_solver. }
    destruct (decide (rd A ∖ {[t]} = ∅)) as [E|E].
    + apply others_hand_over; [|set_solver]. intros []; cbn; [set_solver|congruence].
    + split; [|intros [Hh Hq]; split|by left].
      * intros []; cbn; [set_solver|congruence].
      * intros []; cbn; [|done]. specialize (Hh Rd). cbn in Hh. set_solver.
      * done.
  - apply others_hand_over; [|set_solver]. intros m Hm. by destruct Hne; eapply has_excl.
  - apply others_hand_over; [|set_solver]. intros m Hm. by destruct Hne; eapply has_excl.
Qed.

(** ** Reader/writer semaphores: the steps of a task keep the relation *)
(** ** What a task knows *)
Lemma waiting_for_inj m m' : waiting_for m = waiting_for m' -> m = m'.
Proof. by destruct m, m'. Qed.

(** A task in the list has its waiter set up. *)
Lemma pc_waiting A u w (inl : Prop) p :
  pc_ok A u w inl p -> inl ->
  exists m, w = Some {| task := Some u; flags := waiting_for m |} /\ ((u, m) ∈ queue A \/ m = Rd /\ u ∈ rd A).
Proof.
  intros H Hin. induction p; cbn in H; unfold holding, waiting in H; try tauto.
  all: destruct H as [?|(? & _ & ?)]; [tauto|eauto].
Qed.

Lemma pc_granted A A' u m (inl inl' : Prop) p :
  pc_ok A u (Some {| task := Some u; flags := waiting_for m |}) inl p -> has A' u m -> ~ inl' ->
  pc_ok A' u (Some {| task := None; flags := waiting_for m |}) inl' p.
Proof.
  intros H Hh Hin. induction p; cbn in *; unfold holding, waiting in *; try tauto.
  all: try (by destruct H).
  all: destruct H as [(E & _)|(E & _)]; [done|]; injection E as E; apply waiting_for_inj in E as ->; auto.
Qed.

(** What a task knows survives a call of another. *)
Section Others.
Context (A A' : abs) (u : nat) (w : option rwsem_waiter) (inl inl' : Prop).
Context (Hot : others A A' u) (Hin : inl <-> inl') (Hrd : forall m, (u, m) ∈ queue A -> has A' u m -> m = Rd).

Lemma holding_others o : holding A u w inl o -> holding A' u w inl' o.
Proof using Hot Hin.
  intros (E & Hl & Ho). split_and!; [done|tauto|]. destruct o; [by apply Hot|by apply Hot].
Qed.

Lemma waiting_others m : waiting A u w inl m -> waiting A' u w inl' m.
Proof using Hot Hin Hrd.
  intros [(E & Hh & Hl)|(E & Hl & Hq)]; [left|right]; (split_and!; [done| |]); try tauto; [by apply Hot|].
  destruct Hq as [Hq|[-> Hq]].
  - destruct (ot_queue _ _ _ Hot _ Hq) as [?|Hh]; [by left|]. right. pose proof (Hrd _ Hq Hh) as ->. by split.
  - right. split; [done|]. by apply (ot_has _ _ _ Hot Rd).
Qed.

Lemma pc_others p : pc_ok A u w inl p -> pc_ok A' u w inl' p.
Proof using Hot Hin Hrd.
  induction p; cbn; auto using holding_others, waiting_others.
  intros (E & Hh & Hl). split_and!; [done|by apply Hot|tauto].
Qed.
End Others.

(** ** Steps outside the lock *)
Lemma unlocked_pc s A t : sem_inv s A -> locked_pc (pcs s t) = false -> wait_lock s <> Some t.
Proof. intros I Hp Hl%(sv_lock _ _ I). congruence. Qed.

Lemma lock_pc_other s s' t :
  wait_lock s <> Some t -> wait_lock s' = wait_lock s -> (forall u, u <> t -> pcs s' u = pcs s u) -> lock_pc s' = lock_pc s.
Proof.
  intros Hl E Hp. unfold lock_pc. rewrite E. destruct (wait_lock s) as [v|]; [|done]. cbn. f_equal. apply Hp. congruence.
Qed.

(** A step of [t] that touches neither the lock nor what it protects. *)
Record quiet_step (t : nat) (s s' : rwsem) : Prop := {
  qs_activity : activity s' = activity s;
  qs_lock : wait_lock s' = wait_lock s;
  qs_list : wait_list s' = wait_list s;
  qs_waiters u : u <> t -> waiters s' u = waiters s u;
  qs_running u : u <> t -> running s' u = running s u;
  qs_usage u : u <> t -> usage s' u = usage s u;
  qs_pcs u : u <> t -> pcs s' u = pcs s u
}.

Definition self_ref (p : pc) : Z := match p with Dead => 0 | _ => 1 end.

Lemma quiet_inv t s s' A :
  sem_inv s A -> quiet_step t s s' -> locked_pc (pcs s t) = false -> locked_pc (pcs s' t) = false ->
  back_ok (pcs s' t) = true -> pc_ok A t (waiters s' t) (t ∈ wait_list s) (pcs s' t) ->
  (forall m, pcs s' t = Sched m -> running s' t = false -> task <$> waiters s' t = Some None -> notified s t = true) ->
  usage s' t - self_ref (pcs s' t) = usage s t - self_ref (pcs s t) -> sem_inv s' A.
Proof.
  intros I [Qa Ql Qw Qwt Qr Qu Qp] Hp Hp' Hb Hpc Hwake Hus.
  pose proof (unlocked_pc _ _ _ I Hp) as Hl. pose proof (lock_pc_other _ _ _ Hl Ql Qp) as El.
  assert (forall u, notified s' u = notified s u) as Hn by (intros u; unfold notified; by rewrite El).
  split.
  - apply I.
  - destruct (sv_list _ _ I) as (rem & E1 & E2 & E3 & E4). exists rem. rewrite Qw, El. split_and!; [done..|].
    unfold lock_ok in *. by rewrite Qa, Qw.
  - intros u. rewrite Qw. destruct (decide (u = t)) as [->|Hne]; [done|]. rewrite Qwt, Qp by done. apply I.
  - intros u. destruct (decide (u = t)) as [->|Hne]; [done|]. rewrite Qp by done. apply (sv_back _ _ I).
  - intros u. rewrite Ql. destruct (decide (u = t)) as [->|Hne]; [rewrite Hp'; naive_solver|]. rewrite Qp by done. apply I.
  - intros u m. rewrite Hn. destruct (decide (u = t)) as [->|Hne]; [apply Hwake|]. rewrite Qp, Qr, Qwt by done. apply I.
  - intros u. rewrite Hn, Qw. pose proof (sv_usage _ _ I u) as Hu. destruct (decide (u = t)) as [->|Hne].
    + unfold self_ref in Hus. lia.
    + rewrite Qp, Qu by done. done.
Qed.

Ltac quiet_solve :=
  split; cbn; try done; let u := fresh in let Hu := fresh in intros u Hu; by rewrite ?fn_lookup_insert_ne by done.

Lemma call_inv t c s A :
  sem_inv s A -> may_call (pcs s t) c = true -> wp (goto t (Lock c)) (fun _ s' => sem_inv s' A) s.
Proof.
  intros I Hc. apply wp_modify. pose proof (sv_pc _ _ I t) as Hpc.
  assert (locked_pc (pcs s t) = false /\ self_ref (pcs s t) = 1 /\ holding A t (waiters s t) (t ∈ wait_list s) (needs c)) as (Hl & Hsr & Hh).
  { destruct (pcs s t) as [| |[]|?|?|???|???|?|?|?|?|?], c; by cbn in *. }
  eapply (quiet_inv t s); [done|quiet_solve|done|..]; cbn; rewrite ?fn_lookup_insert; try done. cbn. lia.
Qed.

Lemma exit_inv t s A :
  sem_inv s A -> pcs s t = Idle -> wp (do_exit t) (fun _ s' => sem_inv s' A) s.
Proof.
  intros I Ep. pose proof (sv_pc _ _ I t) as Hpc. rewrite Ep in Hpc.
  pose proof (sv_usage _ _ I t) as Hu. rewrite Ep in Hu.
  assert ((0 <? usage s t) = true) as Hpos by (destruct (bool_decide _), (notified s t); cbn in Hu; lia).
  unfold do_exit, put_task_struct, task_there, task_ref, goto. wp_steps; [|done].
  eapply (quiet_inv t s); [done|quiet_solve|by rewrite Ep|..]; cbn; rewrite ?fn_lookup_insert; try done. rewrite Ep. cbn. lia.
Qed.

Lemma wakeup_inv t s A : sem_inv s A -> wp (set_task_state t true) (fun _ s' => sem_inv s' A) s.
Proof.
  intros I. apply wp_modify. destruct I as [I1 I2 I3 I4 I5 I6 I7]. split; cbn; try done.
  intros u m Hu. destruct (decide (u = t)) as [->|Hne]; [by rewrite fn_lookup_insert|]. rewrite fn_lookup_insert_ne by done.
  by apply (I6 u m).
Qed.

(** The loop of a task that waits. *)
Lemma check_inv t m s A : sem_inv s A -> pcs s t = Check m -> wp (tstep t) (fun _ s' => sem_inv s' A) s.
Proof.
  intros I Ep. pose proof (sv_pc _ _ I t) as Hpc. rewrite Ep in Hpc. cbn in Hpc.
  unfold tstep, get_waiter, goto. do 2 wp_step. rewrite Ep.
  destruct Hpc as [(E & Hh & Hl)|(E & Hl & Hq)]; wp_steps; cbn.
  - eapply (quiet_inv t s); [done|quiet_solve|by rewrite Ep|..]; cbn; rewrite ?fn_lookup_insert; try done.
    by rewrite Ep.
  - eapply (quiet_inv t s); [done|quiet_solve|by rewrite Ep|..]; cbn; rewrite ?fn_lookup_insert; try done.
    + right. done.
    + rewrite E. done.
    + by rewrite Ep.
Qed.

Lemma sched_inv t m s A : sem_inv s A -> pcs s t = Sched m -> wp (tstep t) (fun _ s' => sem_inv s' A) s.
Proof.
  intros I Ep. pose proof (sv_pc _ _ I t) as Hpc. rewrite Ep in Hpc. cbn in Hpc.
  unfold tstep, goto. do 2 wp_step. rewrite Ep. wp_steps.
  eapply (quiet_inv t s); [done|quiet_solve|by rewrite Ep|..]; cbn; rewrite ?fn_lookup_insert; try done. by rewrite Ep.
Qed.

Lemma set_state_inv t m s A : sem_inv s A -> pcs s t = SetState m -> wp (tstep t) (fun _ s' => sem_inv s' A) s.
Proof.
  intros I Ep. pose proof (sv_pc _ _ I t) as Hpc. rewrite Ep in Hpc. cbn in Hpc.
  unfold tstep, goto, set_task_state. do 2 wp_step. rewrite Ep. wp_steps.
  eapply (quiet_inv t s); [done|quiet_solve|by rewrite Ep|..]; cbn; rewrite ?fn_lookup_insert; try done. by rewrite Ep.
Qed.

Lemma leave_inv t m s A : sem_inv s A -> pcs s t = Leave m -> wp (tstep t) (fun _ s' => sem_inv s' A) s.
Proof.
  intros I Ep. pose proof (sv_pc _ _ I t) as Hpc. rewrite Ep in Hpc. destruct Hpc as (E & Hh & Hl).
  unfold tstep, goto, set_task_state. do 2 wp_step. rewrite Ep. wp_steps.
  eapply (quiet_inv t s); [done|quiet_solve|by rewrite Ep|..]; cbn; rewrite ?fn_lookup_insert; try done. by rewrite Ep.
Qed.

(** ** Reader/writer semaphores: the steps under the lock keep the relation *)
(** A step of the task that has the lock, gets it or releases it, and leaves
    the list and the waiters alone. *)
Record held_step (t : nat) (s s' : rwsem) : Prop := {
  hs_list : wait_list s' = wait_list s;
  hs_waiters : waiters s' = waiters s;
  hs_pcs u : u <> t -> pcs s' u = pcs s u;
  hs_had : wait_lock s = None \/ wait_lock s = Some t;
  hs_has : wait_lock s' = if locked_pc (pcs s' t) then Some t else None;
  hs_back : back_ok (pcs s' t) = true;
  hs_alive : self_ref (pcs s' t) = self_ref (pcs s t);
  hs_awake m : pcs s' t <> Sched m;
  hs_running u : running s' u = false -> running s u = false;
  hs_notified u : notified s u = true -> running s' u = true \/ notified s' u = true;
  hs_usage u : usage s' u - of_bool (notified s' u) = usage s u - of_bool (notified s u)
}.

Definition undisturbed (A A' : abs) (t : nat) : Prop :=
  forall u, u <> t -> others A A' u /\ (forall m, (u, m) ∈ queue A -> has A' u m -> m = Rd).

Lemma undisturbed_refl A t : abs_ok A -> undisturbed A A t.
Proof. intros I u _. split; [apply others_refl|]. intros m Hq Hh. by destruct (ao_queued _ I _ _ m Hq). Qed.

Definition list_ok (s : rwsem) (A : abs) : Prop :=
  exists rem, wait_list s = rem ++ (queue A).*1 /\ NoDup rem /\ (forall t, t ∈ rem -> t ∈ rd A) /\ lock_ok A s rem (lock_pc s).

Lemma held_inv t s s' A A' :
  sem_inv s A -> held_step t s s' -> abs_ok A' -> undisturbed A A' t -> list_ok s' A' ->
  pc_ok A' t (waiters s t) (t ∈ wait_list s) (pcs s' t) -> sem_inv s' A'.
Proof.
  intros I [Hl Hw Hp Hh Hh' Hb Ha Haw Hr Hn Hu] IA Hund Hlist Hpc. split; [done|done|..].
  - intros u. rewrite Hl, Hw. destruct (decide (u = t)) as [->|Hne]; [done|]. rewrite Hp by done.
    destruct (Hund u Hne) as [Ho Hm]. eapply pc_others; [done|done|done|apply I].
  - intros u. destruct (decide (u = t)) as [->|Hne]; [done|]. rewrite Hp by done. apply I.
  - intros u. rewrite Hh'. destruct (decide (u = t)) as [->|Hne]; [by destruct (locked_pc (pcs s' t))|].
    rewrite Hp by done. rewrite (sv_lock _ _ I u). destruct Hh as [->| ->], (locked_pc _); naive_solver.
  - intros u m Hs Hrun Ht. destruct (decide (u = t)) as [->|Hne]; [by destruct (Haw m)|]. rewrite Hp in Hs by done.
    rewrite Hw in Ht. pose proof (sv_wake _ _ I u m Hs (Hr u Hrun) Ht) as Hnu. destruct (Hn u Hnu); congruence.
  - intros u. specialize (Hu u). rewrite Hl. pose proof (sv_usage _ _ I u) as Hus.
    destruct (decide (u = t)) as [->|Hne]; [unfold self_ref in Ha; lia|]. rewrite Hp by done. lia.
Qed.

(** Only the task with the lock notifies. *)
Lemma notified_pc s t u :
  wait_lock s = Some t -> notified s u = match pcs s t with Notify tsk _ _ => Nat.eqb tsk u | _ => false end.
Proof. intros E. unfold notified, lock_pc. by rewrite E. Qed.
Lemma notified_none s u : wait_lock s = None -> notified s u = false.
Proof. intros E. unfold notified, lock_pc. by rewrite E. Qed.
Lemma lock_pc_held s t : wait_lock s = Some t -> lock_pc s = Some (pcs s t).
Proof. intros E. unfold lock_pc. by rewrite E. Qed.

Lemma locked_held s A t : sem_inv s A -> locked_pc (pcs s t) = true -> wait_lock s = Some t.
Proof. intros I. apply I. Qed.

Lemma lock_inv t c s A :
  sem_inv s A -> pcs s t = Lock c -> wait_lock s = None -> wp (tstep t) (fun _ s' => sem_inv s' A) s.
Proof.
  intros I Ep El. pose proof (sv_pc _ _ I t) as Hpc. rewrite Ep in Hpc.
  unfold tstep, goto. do 2 wp_step. rewrite Ep. wp_steps. eapply (held_inv t s); [done| |apply I|apply undisturbed_refl, I|..].
  - split; cbn; rewrite ?fn_lookup_insert; try done; [|by left|by rewrite Ep|..].
    + intros u Hu. by rewrite fn_lookup_insert_ne by done.
    + intros u. by rewrite notified_none.
    + intros u. rewrite (notified_none s) by done. erewrite notified_pc by done. cbn. by rewrite fn_lookup_insert.
  - destruct (sv_list _ _ I) as (rem & E1 & E2 & E3 & E4). exists rem. split_and!; [done..|].
    erewrite lock_pc_held by done. unfold lock_pc in E4. rewrite El in E4. cbn in *. by rewrite fn_lookup_insert.
  - cbn. by rewrite fn_lookup_insert.
Qed.

Lemma unlock_inv t b s A : sem_inv s A -> pcs s t = Unlock b -> wp (tstep t) (fun _ s' => sem_inv s' A) s.
Proof.
  intros I Ep. pose proof (sv_pc _ _ I t) as Hpc. rewrite Ep in Hpc. pose proof (sv_back _ _ I t) as Hb. rewrite Ep in Hb.
  pose proof (locked_held _ _ t I ltac:(by rewrite Ep)) as El.
  unfold tstep, goto. do 2 wp_step. rewrite Ep. wp_steps. eapply (held_inv t s); [done| |apply I|apply undisturbed_refl, I|..].
  - split; cbn; rewrite ?fn_lookup_insert, ?Ep; try done; [|by right|by destruct b|by destruct b|by destruct b|by destruct b|..].
    + intros u Hu. by rewrite fn_lookup_insert_ne by done.
    + intros u. rewrite (notified_pc s t) by done. by rewrite Ep.
    + intros u. rewrite (notified_pc s t), notified_none by done. by rewrite Ep.
  - destruct (sv_list _ _ I) as (rem & E1 & E2 & E3 & E4). exists rem. split_and!; [done..|].
    erewrite lock_pc_held in E4 by done. by rewrite Ep in E4.
  - cbn. by rewrite fn_lookup_insert.
Qed.

(** ** Notifying a task *)

(** There are fewer readers than tasks, so that [activity] does not overflow. *)
Lemma size_below (r : gset nat) n : (forall t, t ∈ r -> Z.of_nat t < n) -> Z.of_nat (size r) <= Z.max 0 n.
Proof.
  intros H. assert (r ⊆ set_seq 0 (Z.to_nat n)) as Hs.
  { intros t Ht. apply elem_of_set_seq. specialize (H t Ht). lia. }
  pose proof (subseteq_size _ _ Hs) as Hz. rewrite size_set_seq in Hz. lia.
Qed.
Lemma readers_bound A : abs_ok A -> Z.of_nat (size (rd A)) <= PID_MAX_LIMIT.
Proof. intros I. pose proof (size_below (rd A) PID_MAX_LIMIT) as H. unfold PID_MAX_LIMIT in *. rewrite Z.max_r in H by lia. apply H. intros t Ht. apply I. by left. Qed.
Lemma s32_act A x : abs_ok A -> -1 <= x <= Z.of_nat (size (rd A)) -> s32 x = x.
Proof. intros I Hx. pose proof (readers_bound _ I) as H. apply s32_small. unfold PID_MAX_LIMIT in H. lia. Qed.

Lemma wp_task_there t Q (s : rwsem) : 0 < usage s t -> Q tt s -> wp (task_there t) Q s.
Proof. intros H HQ. unfold task_there. wp_steps; [done|lia]. Qed.

(** The state after [wake_up_process] and [put_task_struct]. *)
Definition woken_state (s : rwsem) (tsk : nat) : rwsem :=
  s <| running := <[tsk := true]> (running s) |> <| usage := <[tsk := usage s tsk + -1]> (usage s) |>.

Lemma notify_held t tsk k back p s a :
  wait_lock s = Some t -> pcs s t = Notify tsk k back -> locked_pc p = true -> back_ok p = true ->
  (match p with Notify _ _ _ => False | _ => True end) ->
  held_step t s ((woken_state s tsk) <| activity := a |> <| pcs := <[t := p]> (pcs s) |>).
Proof.
  intros El Ep Hp Hb Hn. split; cbn; rewrite ?fn_lookup_insert, ?Ep; try done; try (by destruct p).
  - intros u Hu. by rewrite fn_lookup_insert_ne by done.
  - by right.
  - intros u. destruct (decide (u = tsk)) as [->|Hu]; [by rewrite fn_lookup_insert|by rewrite fn_lookup_insert_ne by done].
  - intros u. rewrite (notified_pc s t), Ep by done. intros ->%Nat.eqb_eq. left. by rewrite fn_lookup_insert.
  - intros u. erewrite (notified_pc s t), (notified_pc _ t) by done. cbn. rewrite fn_lookup_insert, Ep.
    destruct (decide (u = tsk)) as [->|Hu].
    + rewrite fn_lookup_insert, Nat.eqb_refl. destruct p; cbn; try done; lia.
    + rewrite fn_lookup_insert_ne, (proj2 (Nat.eqb_neq tsk u)) by done. by destruct p.
Qed.

Lemma notified_usage t tsk k back s A :
  sem_inv s A -> pcs s t = Notify tsk k back -> 0 < usage s tsk.
Proof.
  intros I Ep. pose proof (locked_held _ _ t I ltac:(by rewrite Ep)) as El.
  rewrite (sv_usage _ _ I tsk), (notified_pc _ t), Ep, Nat.eqb_refl by done.
  destruct (pcs s tsk), (bool_decide _); cbn; lia.
Qed.

Lemma notify_inv t tsk k back s A :
  sem_inv s A -> pcs s t = Notify tsk k back -> wp (tstep t) (fun _ s' => sem_inv s' A) s.
Proof.
  intros I Ep. pose proof (sv_pc _ _ I t) as Hpc. pose proof (sv_back _ _ I t) as Hb. rewrite Ep in Hpc, Hb. cbn in Hpc, Hb.
  pose proof (locked_held _ _ t I ltac:(by rewrite Ep)) as El. pose proof (notified_usage _ _ _ _ _ _ I Ep) as Hu.
  unfold tstep. do 2 wp_step. rewrite Ep. unfold notify, wake_up_process, put_task_struct, set_task_state, task_ref.
  do 2 wp_step. apply wp_task_there; [done|]. do 3 wp_step. apply wp_task_there; [done|]. wp_step. cbv beta.
  destruct (sv_list _ _ I) as (rem & E1 & E2 & E3 & E4). rewrite (lock_pc_held _ _ El), Ep in E4. cbn in E4.
  destruct k as [|next woken].
  - destruct E4 as (-> & Hw & Ha). unfold goto. wp_step.
    eapply (held_inv t s _ A); [done|by apply (notify_held t tsk KDone back (Unlock back) s (activity s)); cbn; rewrite ?Hb|apply I|apply undisturbed_refl, I|..].
    + exists []. split_and!; [done..|]. erewrite lock_pc_held by done. cbn. rewrite fn_lookup_insert. cbn. unfold act. by rewrite Hw.
    + cbn. by rewrite fn_lookup_insert.
  - destruct E4 as (Hw & Hr & Hnx & Hwo & Ha & Hsum). unfold list_empty. wp_step. wp_step. cbn.
    assert (rd A <> ∅) as Hne by set_solver.
    destruct (wait_list s) as [|x l] eqn:Ewl.
    + assert (rem = []) as -> by (by destruct rem). cbn in Hsum. assert (queue A = []) as Eq by (by destruct (queue A)).
      unfold wake_readers_done, set_activity, goto. wp_steps. cbn.
      assert (s32 (activity s + (woken + 1)) = Z.of_nat (size (rd A))) as ->.
      { rewrite (s32_act A); [lia|apply I|lia]. }
      eapply (held_inv t s _ A); [done|by apply (notify_held t tsk (KRead next woken) back (Unlock back) s _); cbn; rewrite ?Hb|apply I|apply undisturbed_refl, I|..].
      * exists []. cbn. rewrite Eq. split_and!; [done|apply NoDup_nil_2|set_solver|]. erewrite lock_pc_held by done. cbn. rewrite fn_lookup_insert. cbn. unfold act. by rewrite Hw.
      * cbn. by rewrite fn_lookup_insert, Ewl.
    + unfold goto. wp_step.
      eapply (held_inv t s _ A); [done|by apply (notify_held t tsk (KRead next woken) back (WakeReaders next (woken + 1) back) s (activity s)); cbn; rewrite ?Hb|apply I|apply undisturbed_refl, I|..].
      * exists rem. cbn. split_and!; [by rewrite Ewl|done|done|]. erewrite lock_pc_held by done. cbn. rewrite fn_lookup_insert. cbn. rewrite Ewl.
        split_and!; try done; lia.
      * cbn. by rewrite fn_lookup_insert, Ewl.
Qed.
