(* ===== verification/RwSemCritical.v ===== *)
(** * Reader/writer semaphores: handing the semaphore over keeps the relation *)
From stdpp Require Import functions.
From S2P Require Import Prelude.
From S2P Require Import RwSem.
From S2P Require Import RwSemProof.

Definition granted (m : mode) : rwsem_waiter := {| task := None; flags := waiting_for m |}.

Lemma filter_first (w : nat) l : NoDup (w :: l) -> filter (fun x => x <> w) (w :: l) = l.
Proof.
  intros [Hn _]%NoDup_cons. rewrite filter_cons_False by (intros H; by apply H).
  induction l as [|x l IH]; [done|]. rewrite filter_cons_True by set_solver. f_equal. apply IH. set_solver.
Qed.

Lemma wp_grant w l m Q s :
  wait_list s = w :: l -> NoDup (w :: l) -> waiters s w = Some {| task := Some w; flags := waiting_for m |} ->
  Q w (s <| wait_list := l |> <| waiters := <[w := Some (granted m)]> (waiters s) |>) -> wp (grant w) Q s.
Proof.
  intros El Hnd Ew HQ. unfold grant, get_waiter, list_del. wp_step. unfold wp at 1. rewrite bool_decide_eq_true_2 by (rewrite El; left).
  rewrite El, filter_first by done. wp_steps. apply HQ.
Qed.

(** The first waiter, of [w], has been granted the semaphore in [A']. *)
Lemma grant_inv t s s' A A' w l m k back :
  sem_inv s A -> wait_lock s = Some t -> (match pcs s t with Notify _ _ _ => False | _ => True end) ->
  wait_list s = w :: l -> waiters s w = Some {| task := Some w; flags := waiting_for m |} -> w <> t -> has A' w m ->
  wait_lock s' = Some t -> wait_list s' = l -> waiters s' = <[w := Some (granted m)]> (waiters s) ->
  running s' = running s -> usage s' = usage s -> pcs s' = <[t := Notify w k back]> (pcs s) -> settled back = true ->
  abs_ok A' -> (forall u, u <> t -> u <> w -> others A A' u /\ (forall m, (u, m) ∈ queue A -> has A' u m -> m = Rd)) ->
  NoDup (w :: l) -> list_ok s' A' -> pc_ok A' t (waiters s t) (t ∈ wait_list s) back -> sem_inv s' A'.
Proof.
  intros I El Hnn Ewl Ew Hwt Hh El' Ewl' Ew' Er Eu Ep Hb IA Hund Hnd Hlist Hpc.
  assert (forall u, notified s u = false) as Hn by (intros u; rewrite (notified_pc _ t) by done; by destruct (pcs s t)).
  assert (forall u, notified s' u = Nat.eqb w u) as Hn' by (intros u; rewrite (notified_pc _ t), Ep, fn_lookup_insert by done; done).
  assert (forall u, u <> w -> u ∈ wait_list s <-> u ∈ wait_list s') as Hin.
  { intros u Hu. rewrite Ewl, Ewl', elem_of_cons. naive_solver. }
  assert (w ∉ wait_list s') as Hout by (rewrite Ewl'; by apply NoDup_cons in Hnd as [? _]).
  pose proof (sv_lock _ _ I t) as Hlt.
  split; [done|done|..].
  - intros u. rewrite Ew', Ep. destruct (decide (u = t)) as [->|Ht].
    { rewrite fn_lookup_insert, fn_lookup_insert_ne by done. cbn.
      eapply (pc_others A' A'); [apply others_refl|by apply Hin|by apply (undisturbed_refl A' w)|done]. }
    rewrite (fn_lookup_insert_ne _ t) by done. destruct (decide (u = w)) as [->|Hw].
    + rewrite fn_lookup_insert. eapply pc_granted; [|done|done]. rewrite <- Ew. apply I.
    + rewrite fn_lookup_insert_ne by done. destruct (Hund u Ht Hw) as [Ho Hm]. eapply pc_others; [done|by apply Hin|done|apply I].
  - intros u. rewrite Ep. destruct (decide (u = t)) as [->|Ht]; [by rewrite fn_lookup_insert|]. rewrite fn_lookup_insert_ne by done. apply I.
  - intros u. rewrite Ep, El', <- El. destruct (decide (u = t)) as [->|Ht]; [by rewrite fn_lookup_insert|].
    rewrite fn_lookup_insert_ne by done. apply I.
  - intros u n. rewrite Ep, Er, Hn', Ew'. destruct (decide (u = t)) as [->|Ht]; [by rewrite fn_lookup_insert|].
    rewrite (fn_lookup_insert_ne _ t) by done. destruct (decide (u = w)) as [->|Hw]; [by rewrite Nat.eqb_refl|].
    rewrite fn_lookup_insert_ne by done. intros H1 H2 H3. pose proof (sv_wake _ _ I u n H1 H2 H3) as H4. by rewrite Hn in H4.
  - intros u. rewrite Eu, Hn', Ep, (sv_usage _ _ I u), Hn. destruct (decide (u = w)) as [->|Hw].
    + rewrite fn_lookup_insert_ne, Nat.eqb_refl, (bool_decide_eq_false_2 _ Hout), bool_decide_eq_true_2 by (rewrite ?Ewl; done || left). cbn. lia.
    + rewrite (proj2 (Nat.eqb_neq w u)), (bool_decide_ext _ _ (Hin u Hw)) by done.
      destruct (decide (u = t)) as [->|Ht]; [|by rewrite fn_lookup_insert_ne by done].
      rewrite fn_lookup_insert. pose proof (proj2 Hlt El) as Hlp. by destruct (pcs s t).
Qed.

(** ** The waiters in the list *)
Lemma in_wait_list s A u m : sem_inv s A -> (u, m) ∈ queue A -> u ∈ wait_list s.
Proof. intros I Hq. destruct (sv_list _ _ I) as (rem & -> & _). apply elem_of_app. right. by eapply in_queue. Qed.

Lemma queued_waiter s A u m :
  sem_inv s A -> (u, m) ∈ queue A -> waiters s u = Some {| task := Some u; flags := waiting_for m |}.
Proof.
  intros I Hq. pose proof (in_wait_list _ _ _ _ I Hq) as Hin.
  destruct (pc_waiting _ _ _ _ _ (sv_pc _ _ I u) Hin) as (m' & E & [Hq'|[-> Hr]]).
  - by rewrite (queue_fun _ _ _ _ (ao_nodup _ (sv_abs _ _ I)) Hq Hq').
  - by destruct (ao_queued _ (sv_abs _ _ I) _ _ Rd Hq).
Qed.

Lemma reader_waiter s A u :
  sem_inv s A -> u ∈ wait_list s -> u ∈ rd A -> waiters s u = Some {| task := Some u; flags := waiting_for Rd |}.
Proof.
  intros I Hin Hr. destruct (pc_waiting _ _ _ _ _ (sv_pc _ _ I u) Hin) as (m' & E & [Hq'|[-> _]]); [|done].
  by destruct (ao_queued _ (sv_abs _ _ I) _ _ Rd Hq').
Qed.

Lemma wait_list_nodup s A : sem_inv s A -> NoDup (wait_list s).
Proof.
  intros I. destruct (sv_list _ _ I) as (rem & -> & H1 & H2 & _). apply NoDup_app. split_and!; [done| |apply I].
  intros u Hu%H2 ([v m] & -> & Hq)%list_elem_of_fmap. by apply (ao_queued _ (sv_abs _ _ I) _ _ Rd Hq).
Qed.

Lemma settled_out A t w (inl : Prop) b : settled b = true -> pc_ok A t w inl b -> ~ inl.
Proof. destruct b; try done; intros _ (_ & H & _); done. Qed.

Lemma truth_read m : truth (Z.land (waiting_for m) RWSEM_WAITING_FOR_READ) = bool_decide (m = Rd).
Proof. by destruct m. Qed.
Lemma truth_write m : truth (Z.land (waiting_for m) RWSEM_WAITING_FOR_WRITE) = bool_decide (m = Wr).
Proof. by destruct m. Qed.

Lemma undisturbed_same A t w : abs_ok A -> forall u, u <> t -> u <> w -> others A A u /\ (forall m, (u, m) ∈ queue A -> has A u m -> m = Rd).
Proof. intros I u Hu _. by apply (undisturbed_refl A t). Qed.

Lemma next_first w l : next_in w (w :: l) = head l.
Proof. cbn. by rewrite Nat.eqb_refl. Qed.

(** Leaving the loop over the readers: a state [s] with the lock held by [t],
    which goes on to unlock. *)
Lemma to_unlock_held t p b a s :
  wait_lock s = Some t -> pcs s t = p -> (match p with Notify _ _ _ | Dead => False | _ => True end) -> settled b = true ->
  held_step t s (s <| activity := a |> <| pcs := <[t := Unlock b]> (pcs s) |>).
Proof.
  intros El Ep Hp Hb. split; cbn; rewrite ?fn_lookup_insert, ?Ep, ?Hb; try done.
  - intros u Hu. by rewrite fn_lookup_insert_ne by done.
  - by right.
  - cbn. by rewrite Hb.
  - by destruct p.
  - intros u. rewrite (notified_pc s t), Ep by done. by destruct p.
  - intros u. erewrite (notified_pc s t), (notified_pc _ t) by done. cbn. rewrite fn_lookup_insert, Ep. by destruct p.
Qed.

Lemma wake_readers_inv t waiter woken back s A :
  sem_inv s A -> pcs s t = WakeReaders waiter woken back -> wp (tstep t) (fun _ s' => sem_inv s' A) s.
Proof.
  intros I Ep. pose proof (sv_pc _ _ I t) as Hpc. pose proof (sv_back _ _ I t) as Hb. rewrite Ep in Hpc, Hb. cbn in Hpc, Hb.
  pose proof (locked_held _ _ t I ltac:(by rewrite Ep)) as El. pose proof (settled_out _ _ _ _ _ Hb Hpc) as Hout.
  pose proof (wait_list_nodup _ _ I) as Hnd.
  destruct (sv_list _ _ I) as (rem & E1 & E2 & E3 & E4). rewrite (lock_pc_held _ _ El), Ep in E4.
  destruct E4 as (Hw & Hr & Hwa & Hne & Hwo & Ha & Hsum).
  unfold tstep. do 2 wp_step. rewrite Ep. unfold wake_readers, get_waiter.
  destruct (wait_list s) as [|w l] eqn:Ewl; [done|]. cbn in Hwa. subst waiter. clear Hne.
  destruct rem as [|x rem].
  - destruct (queue A) as [|[v m] q] eqn:Eq; [done|]. cbn in E1. injection E1 as -> ->.
    destruct m; [by destruct (ao_readers _ (sv_abs _ _ I) v q Hr)|].
    pose proof (queued_waiter _ _ v Wr I ltac:(rewrite Eq; left)) as Ew.
    unfold wake_readers_done, set_activity, goto. wp_steps; [done|]. cbn.
    assert (s32 (activity s + woken) = act A) as ->.
    { unfold act. rewrite Hw, (s32_act A); [cbn in Hsum; lia|apply I|cbn in Hsum; lia]. }
    eapply (held_inv t s _ A); [done|by eapply to_unlock_held|apply I|apply undisturbed_refl, I|..]; cbn.
    + exists []. cbn. rewrite Eq, Ewl. split_and!; [done..|]. erewrite lock_pc_held by done. cbn. by rewrite fn_lookup_insert.
    + by rewrite fn_lookup_insert, Ewl.
  - cbn in E1. injection E1 as -> ->.
    assert (x ∈ rd A) as Hx by (apply E3; left).
    pose proof (reader_waiter _ _ x I ltac:(rewrite Ewl; left) Hx) as Ew.
    wp_steps; [|done]. rewrite Ewl, next_first. eapply (wp_grant x _ Rd); [done|done|done|]. unfold goto. wp_step.
    eapply (grant_inv t s _ A A x _ Rd); try done; cbn.
    + by rewrite Ep.
    + intros ->. apply Hout. left.
    + apply I.
    + by apply undisturbed_same, I.
    + exists rem. cbn. split_and!; [done|by apply NoDup_cons in E2 as [_ ?]|intros u Hu; apply E3; by right|].
      erewrite lock_pc_held by done. cbn. rewrite fn_lookup_insert. cbn. cbn in Hsum. split_and!; try done. lia.
    + by rewrite Ewl.
Qed.

(** ** The calls *)
Section Critical.
Context (t : nat) (c : call) (s : rwsem) (A : abs).
Context (I : sem_inv s A) (Ep : pcs s t = Crit c) (Hpid : Z.of_nat t < PID_MAX_LIMIT).

Lemma crit_ready : ready A t c.
Proof using I Ep. pose proof (sv_pc _ _ I t) as Hpc. rewrite Ep in Hpc. by destruct Hpc as (_ & _ & ?). Qed.
Lemma crit_out : waiters s t = None /\ t ∉ wait_list s.
Proof using I Ep. pose proof (sv_pc _ _ I t) as Hpc. rewrite Ep in Hpc. by destruct Hpc as (? & ? & _). Qed.
Lemma crit_lock : wait_lock s = Some t.
Proof using I Ep. apply (locked_held _ _ _ I). by rewrite Ep. Qed.
Lemma crit_list : wait_list s = (queue A).*1 /\ activity s = act A.
Proof using I Ep.
  destruct (sv_list _ _ I) as (rem & E1 & E2 & E3 & E4). rewrite (lock_pc_held _ _ crit_lock), Ep in E4. cbn in E4.
  by destruct E4 as [-> ?].
Qed.
Lemma crit_ok : abs_ok (acall t c A).
Proof using I Ep Hpid. apply acall_ok; [apply I|done|apply crit_ready]. Qed.
Lemma crit_undisturbed : (forall u, u <> t -> wr (acall t c A) <> Some u) -> undisturbed A (acall t c A) t.
Proof using I Ep.
  intros H u Hu. split; [apply acall_others; [apply I|apply crit_ready|done]|].
  intros [] _ Hh; [done|]. by destruct (H u Hu).
Qed.

Lemma settled_pc A' b : settled b = true -> holding A' t None (t ∈ wait_list s) (match b with Holds m => Some m | _ => None end) ->
  pc_ok A' t (waiters s t) (t ∈ wait_list s) b.
Proof using I Ep. destruct crit_out as [-> _]. by destruct b. Qed.

(** The call hands nothing over: it goes on to unlock. *)
Lemma crit_unlock a b :
  queue (acall t c A) = queue A -> undisturbed A (acall t c A) t -> a = act (acall t c A) ->
  settled b = true -> (match b with Holds m => has (acall t c A) t m | _ => free (acall t c A) t end) ->
  sem_inv (s <| activity := a |> <| pcs := <[t := Unlock b]> (pcs s) |>) (acall t c A).
Proof using I Ep Hpid.
  intros Hq Hw -> Hb Hpc. destruct crit_list as [E1 E2], crit_out as [Ew Hin]. pose proof crit_lock as El.
  eapply (held_inv t s _ A); [done|by apply (to_unlock_held t (Crit c))|apply crit_ok|done|..]; cbn.
  - exists []. cbn. rewrite E1, Hq. split_and!; [done|apply NoDup_nil_2|by intros ? ?%elem_of_nil|].
    erewrite lock_pc_held by done. cbn. by rewrite fn_lookup_insert.
  - rewrite fn_lookup_insert, Ew. by destruct b.
Qed.

(** It wakes the readers at the front of the queue. *)
Lemma crit_wake_readers a b u q r :
  queue A = (u, Rd) :: q -> acall t c A = hand_over r (queue A) -> a = Z.of_nat (size r) -> (forall u, u ∈ r -> u ∉ (queue A).*1) ->
  settled b = true -> (match b with Holds m => has (acall t c A) t m | _ => free (acall t c A) t end) ->
  sem_inv (s <| activity := a |> <| pcs := <[t := WakeReaders (Some u) 0 b]> (pcs s) |>) (acall t c A).
Proof using I Ep Hpid.
  intros Hq HA -> Hr Hb Hpc. destruct crit_list as [E1 E2], crit_out as [Ew Hin]. pose proof crit_lock as El.
  pose proof (ao_nodup _ (sv_abs _ _ I)) as Hnd. rewrite queue_split in Hnd. apply NoDup_app in Hnd as (Hn1 & _ & _).
  assert (rd (acall t c A) = r ∪ list_to_set (readers (queue A))) as Hrd by (by rewrite HA, Hq).
  assert (wr (acall t c A) = None) as Hwr by (by rewrite HA, Hq).
  assert (queue (acall t c A) = behind (queue A)) as Hqu by (by rewrite HA, Hq).
  eapply (held_inv t s _ A); [done| |apply crit_ok|apply crit_undisturbed; by rewrite Hwr|..]; cbn.
  - split; cbn; rewrite ?fn_lookup_insert, ?Ep; try done.
    + intros v Hv. by rewrite fn_lookup_insert_ne by done.
    + by right.
    + intros v. rewrite (notified_pc s t), Ep by done. done.
    + intros v. erewrite (notified_pc s t), (notified_pc _ t) by done. cbn. by rewrite fn_lookup_insert, Ep.
  - exists (readers (queue A)). cbn. rewrite E1, Hqu, Hrd. split_and!; [apply queue_split|done|set_solver|].
    erewrite lock_pc_held by done. cbn. rewrite fn_lookup_insert. cbn. rewrite Hwr, Hrd, E1.
    rewrite size_union, size_list_to_set by (done || (intros v Hv; rewrite elem_of_list_to_set; intros Hv'%elem_of_readers%in_queue; by apply (Hr v))).
    split_and!; try done; try lia; rewrite Hq; cbn; done || set_solver.
  - rewrite fn_lookup_insert, Ew. by destruct b.
Qed.

(** It gives the semaphore to the writer at the front of the queue. *)
Lemma crit_wake_writer b w q :
  queue A = (w, Wr) :: q -> acall t c A = {| rd := ∅; wr := Some w; queue := q |} -> free (acall t c A) t ->
  b = Idle ->
  sem_inv (s <| activity := -1 |> <| wait_list := q.*1 |> <| waiters := <[w := Some (granted Wr)]> (waiters s) |>
    <| pcs := <[t := Notify w KDone b]> (pcs s) |>) (acall t c A).
Proof using I Ep Hpid.
  intros Hq HA Hf ->. destruct crit_list as [E1 E2], crit_out as [Ew Hin]. rewrite Hq in E1. cbn in E1.
  pose proof (wait_list_nodup _ _ I) as Hnd. rewrite E1 in Hnd.
  pose proof (queued_waiter _ _ w Wr I ltac:(rewrite Hq; left)) as Eww.
  eapply (grant_inv t s _ A (acall t c A) w _ Wr KDone Idle); try done; cbn.
  - apply crit_lock.
  - by rewrite Ep.
  - intros ->. apply Hin. rewrite E1. left.
  - by rewrite HA.
  - apply crit_lock.
  - apply crit_ok.
  - intros u Hu Huw. split; [apply acall_others; [apply I|apply crit_ready|done]|]. intros []; [done|]. rewrite HA. cbn. congruence.
  - exists []. cbn. rewrite HA. cbn. split_and!; [done|apply NoDup_nil_2|set_solver|]. erewrite lock_pc_held by apply crit_lock. cbn.
    by rewrite fn_lookup_insert.
Qed.

(** It queues the task. *)
Lemma crit_enqueue m : acall t c A = waits A t m -> wp (enqueue t m) (fun _ s' => sem_inv s' (acall t c A)) s.
Proof using I Ep Hpid.
  intros HA. destruct crit_list as [E1 E2], crit_out as [Ew Hin]. pose proof crit_lock as El.
  assert (undisturbed A (acall t c A) t) as Hund.
  { intros u Hu. split; [apply acall_others; [apply I|apply crit_ready|done]|].
    intros k Hq Hh. rewrite HA in Hh. destruct (ao_queued _ (sv_abs _ _ I) _ _ k Hq). by destruct k. }
  unfold enqueue, set_task_state, get_task_struct, task_ref, goto. wp_steps. cbn.
  assert (forall u, notified s u = false) as Hn by (intros u; rewrite (notified_pc _ t), Ep by done; done).
  match goal with |- sem_inv ?S _ => assert (forall u, notified S u = false) as Hn'
    by (intros u; erewrite (notified_pc _ t) by done; cbn; by rewrite fn_lookup_insert) end.
  split; cbn.
  - apply crit_ok.
  - exists []. rewrite HA. cbn. rewrite E1, fmap_app. split_and!; [done|apply NoDup_nil_2|by intros ? ?%elem_of_nil|].
    erewrite lock_pc_held by done. cbn. rewrite fn_lookup_insert. cbn. by rewrite E2.
  - intros u. destruct (decide (u = t)) as [->|Hu].
    + rewrite !fn_lookup_insert. cbn. right. split_and!; [done|set_solver|left; rewrite HA; cbn; set_solver].
    + rewrite !fn_lookup_insert_ne by done. destruct (Hund u Hu) as [Ho Hm]. eapply pc_others; [done| |done|apply I]. set_solver.
  - intros u. destruct (decide (u = t)) as [->|Hu]; [by rewrite fn_lookup_insert|]. rewrite fn_lookup_insert_ne by done. apply I.
  - intros u. destruct (decide (u = t)) as [->|Hu]; [by rewrite fn_lookup_insert, El|]. rewrite fn_lookup_insert_ne by done. apply I.
  - intros u n. rewrite Hn'. destruct (decide (u = t)) as [->|Hu]; [by rewrite fn_lookup_insert|].
    rewrite !fn_lookup_insert_ne by done. intros H1 H2 H3. pose proof (sv_wake _ _ I u n H1 H2 H3) as H4. by rewrite Hn in H4.
  - intros u. rewrite Hn'. pose proof (sv_usage _ _ I u) as Hus. rewrite Hn in Hus. destruct (decide (u = t)) as [->|Hu].
    + rewrite !fn_lookup_insert. rewrite Hus, Ep, bool_decide_eq_false_2, bool_decide_eq_true_2 by (done || set_solver). cbn. lia.
    + rewrite !fn_lookup_insert_ne by done. rewrite Hus. do 2 f_equal. f_equal. apply bool_decide_ext. set_solver.
Qed.
End Critical.

Lemma bool_decide_ext_bool (P : Prop) `{Decision P} b : (P <-> b = true) -> bool_decide P = b.
Proof. intros HP. destruct b; [apply bool_decide_eq_true_2|apply bool_decide_eq_false_2]; naive_solver. Qed.

Lemma act_read A : ((0 <=? act A) && (match (queue A).*1 with [] => true | _ => false end)) = may_read A.
Proof.
  unfold may_read, act. apply eq_sym, bool_decide_ext_bool. destruct (wr A), (queue A); cbn -[Z.leb Z.eqb Z.of_nat size]; rewrite ?andb_true_r, ?andb_false_r.
  all: split; [intros [H1 H2]; try discriminate H1; try discriminate H2|intros H; try discriminate H; done].
  apply Z.leb_le, Nat2Z.is_nonneg.
Qed.
Lemma act_write A : ((act A =? 0) && (match (queue A).*1 with [] => true | _ => false end)) = may_write A.
Proof.
  unfold may_write, act. apply eq_sym, bool_decide_ext_bool. destruct (wr A), (queue A); cbn -[Z.leb Z.eqb Z.of_nat size]; rewrite ?andb_true_r, ?andb_false_r.
  all: try (split; [intros (H1 & _ & H2); try discriminate H1; discriminate H2|]; intros H; discriminate H).
  rewrite Z.eqb_eq, <- (leibniz_equiv_iff (rd A)), <- size_empty_iff. split; [lia|]. intros H. split_and!; [done|lia|done].
Qed.

#[local] Arguments acall : simpl never.
Section Calls.
Context (t : nat) (s : rwsem) (A : abs) (I : sem_inv s A) (Hpid : Z.of_nat t < PID_MAX_LIMIT).
Let sim (c : call) : M rwsem unit -> Prop := fun k => wp k (fun _ s' => sem_inv s' (acall t c A)) s.

Lemma wp_read_granted c Q : pcs s t = Crit c -> Q (may_read A) s -> wp read_granted Q s.
Proof using I.
  intros Ep HQ. destruct (crit_list t c s A I Ep) as [E1 E2]. unfold read_granted, list_empty. wp_steps. by rewrite E1, E2, act_read.
Qed.
Lemma wp_write_granted c Q : pcs s t = Crit c -> Q (may_write A) s -> wp write_granted Q s.
Proof using I.
  intros Ep HQ. destruct (crit_list t c s A I Ep) as [E1 E2]. unfold write_granted, list_empty. wp_steps. by rewrite E1, E2, act_write.
Qed.

Lemma free_not_reader : free A t -> t ∉ rd A.
Proof using. intros [Hh _]. apply (Hh Rd). Qed.

Lemma take_read c :
  pcs s t = Crit c -> free A t -> may_read A = true -> acall t c A = {| rd := {[t]} ∪ rd A; wr := None; queue := [] |} ->
  sim c (set_activity (fun a => a + 1);; goto t (Unlock (Holds Rd))).
Proof using I Hpid.
  intros Ep Hf [Hw Hq]%bool_decide_eq_true HA. destruct (crit_list t c s A I Ep) as [E1 E2].
  unfold sim, set_activity, goto. wp_steps. cbn. eapply crit_unlock; try done; [by rewrite HA| | |rewrite HA; cbn; set_solver].
  { apply (crit_undisturbed t c s A); [done|done|]. by rewrite HA. }
  rewrite HA.     rewrite E2. unfold act at 2. cbn. rewrite size_union, size_singleton by (pose proof (free_not_reader Hf); set_solver).
  unfold act. rewrite Hw. pose proof (readers_bound A (sv_abs _ _ I)) as Hb. unfold PID_MAX_LIMIT in Hb. rewrite s32_small; lia.
Qed.
Lemma take_write c :
  pcs s t = Crit c -> may_write A = true -> acall t c A = {| rd := ∅; wr := Some t; queue := [] |} ->
  sim c (set_activity (fun _ => -1);; goto t (Unlock (Holds Wr))).
Proof using I Hpid.
  intros Ep (Hw & _ & Hq)%bool_decide_eq_true HA.
  unfold sim, set_activity, goto. wp_steps. cbn. eapply crit_unlock; try done; [by rewrite HA| |by rewrite HA|by rewrite HA].
  apply (crit_undisturbed t c s A); [done|done|]. rewrite HA. cbn. congruence.
Qed.
Lemma not_taken c : pcs s t = Crit c -> free A t -> acall t c A = A -> sim c (goto t (Unlock Idle)).
Proof using I Hpid.
  intros Ep Hf HA. destruct (crit_list t c s A I Ep) as [E1 E2].
  unfold sim, goto. wp_steps. pose proof (crit_unlock t c s A I Ep Hpid (activity s) Idle) as H. cbn in H. apply H; try done; rewrite HA; try done.
  apply undisturbed_refl, I.
Qed.

Lemma down_read_sim : pcs s t = Crit DownRead -> sim DownRead (__down_read t).
Proof using I Hpid.
  intros Ep. pose proof (crit_ready t _ s A I Ep) as Hr. unfold sim, __down_read. wp_step. eapply wp_read_granted; [done|]. cbv beta.
  destruct (may_read A) eqn:E; [by apply take_read; rewrite ?E; unfold acall; rewrite ?E|].
  apply crit_enqueue; [done|done|done|]. unfold acall. by rewrite E.
Qed.
Lemma down_read_trylock_sim : pcs s t = Crit DownReadTry -> sim DownReadTry (__down_read_trylock t).
Proof using I Hpid.
  intros Ep. pose proof (crit_ready t _ s A I Ep) as Hr. unfold sim, __down_read_trylock. wp_step. eapply wp_read_granted; [done|]. cbv beta.
  destruct (may_read A) eqn:E; [by apply take_read; rewrite ?E; unfold acall; rewrite ?E|].
  apply not_taken; [done|done|]. unfold acall. by rewrite E.
Qed.
Lemma down_write_sim : pcs s t = Crit DownWrite -> sim DownWrite (__down_write t).
Proof using I Hpid.
  intros Ep. pose proof (crit_ready t _ s A I Ep) as Hr. unfold sim, __down_write. wp_step. eapply wp_write_granted; [done|]. cbv beta.
  destruct (may_write A) eqn:E; [by apply take_write; rewrite ?E; unfold acall; rewrite ?E|].
  apply crit_enqueue; [done|done|done|]. unfold acall. by rewrite E.
Qed.
Lemma down_write_trylock_sim : pcs s t = Crit DownWriteTry -> sim DownWriteTry (__down_write_trylock t).
Proof using I Hpid.
  intros Ep. pose proof (crit_ready t _ s A I Ep) as Hr. unfold sim, __down_write_trylock. wp_step. eapply wp_write_granted; [done|]. cbv beta.
  destruct (may_write A) eqn:E; [by apply take_write; rewrite ?E; unfold acall; rewrite ?E|].
  apply not_taken; [done|done|]. unfold acall. by rewrite E.
Qed.

Lemma not_queued m : has A t m -> t ∉ (queue A).*1.
Proof using I. intros Hh ([u k] & E & Hq)%list_elem_of_fmap. cbn in E. apply (ao_queued _ (sv_abs _ _ I) u k m Hq). by rewrite <- E. Qed.

(** What is given up is gone. *)
Lemma released r m : has A t m -> t ∉ r -> free (hand_over r (queue A)) t.
Proof using I.
  intros Hh Hr. pose proof (not_queued m Hh) as Hq. split.
  - intros k [[? _]|?%in_queue]%hand_over_has; done.
  - intros k ?%hand_over_subset%in_queue. done.
Qed.

Lemma up_read_sim : pcs s t = Crit UpRead -> sim UpRead (__up_read t).
Proof using I Hpid.
  intros Ep. pose proof (crit_ready t _ s A I Ep) as Hr. cbn in Hr. destruct (crit_list t _ s A I Ep) as [E1 E2].
  assert (wr A = None) as Hw.
  { destruct (wr A) as [v|] eqn:Ew; [|done]. pose proof (ao_excl _ (sv_abs _ _ I) v Ew) as E. rewrite E in Hr. set_solver. }
  assert (s32 (activity s - 1) = Z.of_nat (size (rd A ∖ {[t]}))) as Ha.
  { assert (size (rd A) <> 0%nat) by (rewrite size_empty_iff; set_solver).
    rewrite E2. unfold act. rewrite Hw, (s32_act A _ (sv_abs _ _ I)) by lia.
    rewrite size_difference, size_singleton by set_solver. lia. }
  unfold sim, __up_read, set_activity, list_empty. wp_steps; cbn in *; rewrite Ha, E1 in *.
  - apply andb_true_iff in E as [Ez Eq].
    assert (rd A ∖ {[t]} = ∅) as Er by (apply leibniz_equiv, size_empty_iff; lia).
    destruct (queue A) as [|[w []] q] eqn:Eqq; [done|by destruct (ao_readers _ (sv_abs _ _ I) w q ltac:(set_solver))|].
    pose proof (queued_waiter _ _ w Wr I ltac:(rewrite Eqq; left)) as Eww. pose proof (wait_list_nodup _ _ I) as Hnd.
    unfold __rwsem_wake_one_writer, set_activity, first_waiter. wp_steps. eapply (wp_deref _ w); [cbn; by rewrite E1|]. wp_step.
    eapply (wp_grant w q.*1 Wr); [done|by rewrite E1 in Hnd|done|]. unfold goto. wp_step.
    assert (acall t UpRead A = {| rd := ∅; wr := Some w; queue := q |}) as HA.
    { unfold acall. by rewrite Er, Eqq. }
    apply (crit_wake_writer t UpRead s A I Ep Hpid Idle w q); [done|done| |done].
    unfold acall. rewrite Er. apply (released ∅ Rd); [done|set_solver].
  - assert (acall t UpRead A = {| rd := rd A ∖ {[t]}; wr := None; queue := queue A |}) as HA.
    { unfold acall. destruct (decide (rd A ∖ {[t]} = ∅)) as [Er|Er]; [|done]. rewrite Er in E |- *. rewrite size_empty in E. cbn in E.
      by destruct (queue A). }
    apply (crit_unlock t UpRead s A I Ep Hpid _ Idle); try done; [by rewrite HA| |by rewrite HA|].
    + apply (crit_undisturbed t _ s A); [done|done|]. by rewrite HA.
    + rewrite HA. pose proof (not_queued Rd Hr) as Hq. split; [intros []; cbn; [set_solver|done]|]. by intros m ?%in_queue.
Qed.

Lemma do_wake_sim c r b ww a :
  pcs s t = Crit c -> acall t c A = hand_over r (queue A) -> settled b = true -> a = Z.of_nat (size r) -> (ww = true <-> r = ∅) -> (ww = true -> b = Idle) -> queue A <> [] ->
  (forall u, u ∈ r -> u ∉ (queue A).*1) -> (match b with Holds m => has (acall t c A) t m | _ => free (acall t c A) t end) ->
  wp (__rwsem_do_wake t ww b) (fun _ s' => sem_inv s' (acall t c A)) (s <| activity := a |>).
Proof using I Hpid.
  intros Ep HA Hb -> Hww Hbi Hne Hr Hpc. destruct (crit_list t _ s A I Ep) as [E1 E2]. pose proof (wait_list_nodup _ _ I) as Hnd.
  destruct (queue A) as [|[w m] q] eqn:Eq; [done|]. pose proof (queued_waiter _ _ w m I ltac:(rewrite Eq; left)) as Ew.
  unfold __rwsem_do_wake, first_waiter, get_waiter. wp_step. wp_step. cbn. rewrite E1. cbn. do 2 wp_step. eapply wp_deref; [done|]. wp_steps.
  - destruct m; [done|]. destruct ww; [done|]. cbn in HA. destruct (decide (r = ∅)) as [Er|Er]; [by destruct Hww as [_ Hww]; discriminate Hww|].
    unfold goto. wp_step. apply (crit_unlock t c s A I Ep Hpid _ b); try done; [by rewrite HA| |by rewrite HA].
    apply (crit_undisturbed t c s A); [done|done|]. by rewrite HA.
  - destruct m; [|done]. unfold goto. wp_step. apply (crit_wake_readers t c s A I Ep Hpid _ b w q r); try done; by rewrite Eq.
  - destruct m; [done|]. destruct ww; [|done]. rewrite (proj1 Hww eq_refl) in HA. rewrite (Hbi eq_refl) in Hpc |- *.
    unfold set_activity, goto. wp_steps. eapply (wp_grant w q.*1 Wr); [done|by rewrite E1 in Hnd|done|]. wp_step.
    by apply (crit_wake_writer t c s A I Ep Hpid Idle w q).
  - destruct m; [|done]. unfold goto. wp_step. apply (crit_wake_readers t c s A I Ep Hpid _ b w q r); try done; by rewrite Eq.
Qed.

Lemma up_write_sim : pcs s t = Crit UpWrite -> sim UpWrite (__up_write t).
Proof using I Hpid.
  intros Ep. pose proof (crit_ready t _ s A I Ep) as Hr. cbn in Hr. destruct (crit_list t _ s A I Ep) as [E1 E2].
  assert (free (acall t UpWrite A) t) as Hf by (apply (released ∅ Wr); [done|set_solver]).
  unfold sim, __up_write, set_activity, list_empty. wp_steps; cbn in E; rewrite E1 in E.
  - apply (do_wake_sim UpWrite ∅); try done. by intros Eq; rewrite Eq in E.
  - unfold goto. wp_step. destruct (queue A) as [|x q] eqn:Eq; [|done].
    assert (acall t UpWrite A = {| rd := ∅; wr := None; queue := [] |}) as HA by (unfold acall; by rewrite Eq).
    apply (crit_unlock t UpWrite s A I Ep Hpid 0 Idle); try done; [by rewrite HA| |by rewrite HA].
    apply (crit_undisturbed t _ s A); [done|done|]. by rewrite HA.
Qed.
Lemma downgrade_sim : pcs s t = Crit Downgrade -> sim Downgrade (__downgrade_write t).
Proof using I Hpid.
  intros Ep. pose proof (crit_ready t _ s A I Ep) as Hr. cbn in Hr. destruct (crit_list t _ s A I Ep) as [E1 E2].
  assert (has (acall t Downgrade A) t Rd) as Hf by (apply hand_over_keeps; set_solver).
  unfold sim, __downgrade_write, set_activity, list_empty. wp_steps; cbn in E; rewrite E1 in E.
  - apply (do_wake_sim Downgrade {[t]}); try done.
    + by rewrite size_singleton.
    + by intros Eq; rewrite Eq in E.
    + intros u Hu. apply elem_of_singleton in Hu. rewrite Hu. by apply (not_queued Wr).
  - unfold goto. wp_step. destruct (queue A) as [|x q] eqn:Eq; [|done].
    assert (acall t Downgrade A = {| rd := {[t]}; wr := None; queue := [] |}) as HA.
    { unfold acall. rewrite Eq. cbn. by rewrite union_empty_r_L. }
    apply (crit_unlock t Downgrade s A I Ep Hpid 1 (Holds Rd)); try done; [by rewrite HA| |rewrite HA; unfold act; cbn].
    + apply (crit_undisturbed t _ s A); [done|done|]. by rewrite HA.
    + by rewrite size_singleton.
Qed.

Lemma critical_inv c : pcs s t = Crit c -> wp (tstep t) (fun _ s' => sem_inv s' (acall t c A)) s.
Proof using I Hpid.
  intros Ep. unfold tstep. do 2 wp_step. rewrite Ep. destruct c; cbn [critical].
  - by apply down_read_sim.
  - by apply down_read_trylock_sim.
  - by apply down_write_sim.
  - by apply down_write_trylock_sim.
  - by apply up_read_sim.
  - by apply up_write_sim.
  - by apply downgrade_sim.
Qed.
End Calls.

(** ** Reader/writer semaphores: executions

    Any interleaving of the steps of any number of tasks, of the calls they
    make, of wake-ups from elsewhere and of exits; the work left under the
    lock. *)
Inductive event :=
| Step (t : nat)               (** [t] takes its next step *)
| Call (t : nat) (c : call)    (** [t] calls a routine of the semaphore *)
| Wakeup (t : nat)             (** someone else wakes [t] *)
| Exit (t : nat).              (** [t] exits *)

Definition event_task (e : event) : nat := match e with Step t | Call t _ | Wakeup t | Exit t => t end.

Definition enabled (s : rwsem) (e : event) : bool :=
  (Z.of_nat (event_task e) <? PID_MAX_LIMIT) &&
  match e with
  | Step t => can_step s t
  | Call t c => may_call (pcs s t) c
  | Wakeup _ => true
  | Exit t => match pcs s t with Idle => true | _ => false end
  end.

Definition perform (e : event) : M rwsem unit :=
  match e with
  | Step t => tstep t
  | Call t c => goto t (Lock c)
  | Wakeup t => set_task_state t true
  | Exit t => do_exit t
  end.

(** The abstract semaphore takes its step when a call enters its critical section. *)
Definition abstract_step (s : rwsem) (e : event) (A : abs) : abs :=
  match e with
  | Step t => match pcs s t with Crit c => acall t c A | _ => A end
  | _ => A
  end.

(** A run: events that are not possible are left out. *)
Fixpoint run (es : list event) (s : rwsem) (A : abs) : option (rwsem * abs) :=
  match es with
  | [] => Some (s, A)
  | e :: es =>
      if enabled s e then
        match perform e s with
        | Some (_, s') => run es s' (abstract_step s e A)
        | None => None
        end
      else run es s A
  end.

Definition init_abs : abs := {| rd := ∅; wr := None; queue := [] |}.

(** ** What a step leaves alone *)
Definition lock_work (s : rwsem) (t : nat) : nat :=
  match pcs s t with
  | Crit _ => 2 * length (wait_list s) + 4
  | Notify _ _ _ => 2 * length (wait_list s) + 3
  | WakeReaders _ _ _ => 2 * length (wait_list s) + 2
  | Unlock _ => 1
  | _ => 0
  end.


Lemma list_del_shorter w s b s' :
  list_del w s = Some (b, s') -> (length (wait_list s') < length (wait_list s))%nat /\ pcs s' = pcs s /\ s' = s <| wait_list := wait_list s' |>.
Proof.
  unfold list_del. case_bool_decide as Hw; [|done]. intros [= _ <-]. cbn. split_and!; [|done|done].
  apply length_filter_lt with w; [done|]. by intros H.
Qed.

Lemma grant_shorter w s tsk s' :
  grant w s = Some (tsk, s') -> (length (wait_list s') < length (wait_list s))%nat /\ pcs s' = pcs s.
Proof.
  unfold grant, bind at 1. destruct (list_del w s) as [[b s1]|] eqn:E; [|done]. apply list_del_shorter in E as (E1 & E2 & E3).
  unfold get_waiter, bind, gets, deref, ret, modify. destruct (waiters s1 w) as [r|]; [|done].
  destruct (task r) as [x|]; [|done]. by intros [= _ <-].
Qed.

(** Inverts a step that returned. *)
Ltac returned :=
  repeat match goal with
  | H : None = Some _ |- _ => discriminate H
  | H : Some _ = Some _ |- _ => injection H as H; subst
  | H : (tt, _) = (tt, _) |- _ => injection H as H; subst
  | H : context [grant ?w ?s] |- _ =>
      let E := fresh "E" in destruct (grant w s) as [[? ?]|] eqn:E; [apply grant_shorter in E as [? ?]; cbn in *|]
  | H : match ?x with _ => _ end = Some _ |- _ => let E := fresh "E" in destruct x eqn:E
  | H : match ?x with _ => _ end _ = Some _ |- _ => let E := fresh "E" in destruct x eqn:E
  end.

Ltac step_unfold H :=
  unfold tstep, critical, __down_read, __down_read_trylock, __down_write, __down_write_trylock, __up_read, __up_write, __downgrade_write,
    enqueue, read_granted, write_granted, __rwsem_do_wake, __rwsem_wake_one_writer, notify, wake_readers, wake_readers_done,
    wake_up_process, put_task_struct, task_there, task_ref, get_task_struct, set_task_state, get_waiter, first_waiter, list_empty, set_activity, goto,
    bind, gets, modify, deref, oops, ret in H.

Lemma step_work t s s' :
  tstep t s = Some (tt, s') -> locked_pc (pcs s t) = true -> back_ok (pcs s t) = true -> (lock_work s' t < lock_work s t)%nat.
Proof.
  intros H Hl Hb. unfold lock_work. step_unfold H. destruct (pcs s t) as [| | | |c| | |b| | | | ] eqn:Ep; try discriminate Hl.
  1: destruct c.
  all: cbn in H; returned; cbn in *; rewrite ?fn_lookup_insert; try lia.
  destruct b; try discriminate Hb; lia.
Qed.

Lemma step_pcs t s s' u : tstep t s = Some (tt, s') -> u <> t -> pcs s' u = pcs s u.
Proof.
  intros H Hu. step_unfold H. destruct (pcs s t) as [| | | |c| | |b| | | | ] eqn:Ep.
  5: destruct c.
  all: cbn in H; returned; cbn in *; rewrite ?fn_lookup_insert_ne by done; congruence.
Qed.

(** ** Every event keeps the relation *)
Record reached (s : rwsem) (A : abs) : Prop := {
  re_inv : sem_inv s A;
  re_tasks t : pcs s t <> Idle -> Z.of_nat t < PID_MAX_LIMIT
}.

Lemma step_inv t s A :
  sem_inv s A -> Z.of_nat t < PID_MAX_LIMIT -> can_step s t = true ->
  wp (tstep t) (fun _ s' => sem_inv s' (abstract_step s (Step t) A)) s.
Proof.
  intros I Hpid Hc. unfold can_step in Hc. unfold abstract_step. destruct (pcs s t) eqn:Ep; try discriminate Hc.
  - eapply lock_inv; [done|done|]. by destruct (wait_lock s).
  - by apply critical_inv.
  - by eapply wake_readers_inv.
  - by eapply notify_inv.
  - by eapply unlock_inv.
  - by eapply check_inv.
  - by eapply sched_inv.
  - by eapply set_state_inv.
  - by eapply leave_inv.
Qed.

Lemma event_reached e s A :
  reached s A -> enabled s e = true -> wp (perform e) (fun _ s' => reached s' (abstract_step s e A)) s.
Proof.
  intros [I Ht] [Hpid%Z.ltb_lt He]%andb_true_iff.
  assert (wp (perform e) (fun _ s' => sem_inv s' (abstract_step s e A)) s) as H.
  { destruct e; cbn [perform event_task] in *.
    - by apply step_inv.
    - by apply call_inv.
    - apply wakeup_inv, I.
    - apply exit_inv; [done|]. by destruct (pcs s t). }
  destruct (wp_run _ _ _ H) as ([] & s' & E & HQ). eapply wp_of_run; [exact E|]. split; [done|].
  intros u Hu. destruct (decide (u = event_task e)) as [->|Hne]; [done|]. apply Ht. intros Eu. apply Hu. rewrite <- Eu.
  clear -E Hne. destruct e; cbn [perform event_task] in *.
  - by eapply step_pcs.
  - injection E as <-. cbn. by rewrite fn_lookup_insert_ne by done.
  - by injection E as <-.
  - step_unfold E. unfold do_exit in E. step_unfold E. returned. cbn. by rewrite fn_lookup_insert_ne by done.
Qed.

Lemma run_reached es s A : reached s A -> exists s' A', run es s A = Some (s', A') /\ reached s' A'.
Proof.
  revert s A. induction es as [|e es IH]; intros s A R; cbn; [eauto|].
  destruct (enabled s e) eqn:He; [|by apply IH].
  destruct (wp_run _ _ _ (event_reached e s A R He)) as ([] & s' & -> & R'). by apply IH.
Qed.

Lemma init_reached : reached init_rwsem init_abs.
Proof.
  split; [|by intros t []]. split; cbn; try done; try set_solver.
  - split; cbn; try done; try set_solver. apply NoDup_nil_2.
  - exists []. split_and!; [done|apply NoDup_nil_2|set_solver|done].
  - intros t. split_and!; [done|apply not_elem_of_nil|]. split; [by intros []|intros m; apply not_elem_of_nil].
Qed.
