(* ===== verification/RwSemTheorems.v ===== *)
(** * Reader/writer semaphores: theorems *)
From stdpp Require Import functions.
From S2P Require Import Prelude.
From S2P Require Import RwSem.
From S2P Require Import RwSemProof.
From S2P Require Import RwSemCritical.

(** ** Agreement of the code with the abstract semaphore *)

(** What a task has, or is about to have or to give up. *)
Fixpoint owns (p : pc) : option mode :=
  match p with
  | Idle | Dead => None
  | Holds m | Leave m => Some m
  | Lock c | Crit c => needs c
  | WakeReaders _ _ b | Notify _ _ b | Unlock b => owns b
  | Check m | Sched m | SetState m => Some m
  end.

Record agrees (s : rwsem) (A : abs) : Prop := {
  ag_holds t m : pcs s t = Holds m -> has A t m;
  ag_owner t m : has A t m -> owns (pcs s t) = Some m;
  ag_idle t : pcs s t = Idle -> free A t;
  ag_exclusive t u m : pcs s t = Holds Wr -> pcs s u = Holds m -> u = t;
  ag_settled : wait_lock s = None -> activity s = act A /\ wait_list s = (queue A).*1;
  ag_busy : wait_lock s = None -> wait_list s <> [] -> exists t m, has A t m
}.

Lemma pc_owner A t w inl p m : abs_ok A -> pc_ok A t w inl p -> has A t m -> owns p = Some m.
Proof.
  intros I Hp Hh. assert (forall m', has A t m' -> m' = m) as Hm.
  { intros m' Hm'. destruct m, m'; try done; cbn in *; pose proof (ao_excl _ I t) as E; exfalso; rewrite E in *; set_solver. }
  induction p; cbn in *; unfold holding, waiting in *; auto.
  6-8: destruct Hp as [(_ & Hp & _)|(_ & _ & [Hq|[-> Hr]])]; [f_equal; by apply Hm|by destruct (ao_queued _ I _ _ m Hq)|f_equal; by apply (Hm Rd)].
  4-5: destruct (needs c) as [n|]; [f_equal; apply Hm, Hp|].
  3, 6: f_equal; apply Hm, Hp.
  all: destruct Hp as (_ & _ & [Hf _]); by destruct (Hf m).
Qed.

Lemma sem_settled s A : sem_inv s A -> wait_lock s = None -> activity s = act A /\ wait_list s = (queue A).*1.
Proof.
  intros I El. destruct (sv_list _ _ I) as (rem & E1 & _ & _ & E4). unfold lock_pc in E4. rewrite El in E4.
  by destruct E4 as [-> ?].
Qed.

Lemma reached_agrees s A : sem_inv s A -> agrees s A.
Proof.
  intros I. assert (forall t m, pcs s t = Holds m -> has A t m) as Hh.
  { intros t m E. pose proof (sv_pc _ _ I t) as Hp. rewrite E in Hp. apply Hp. }
  split; [done|..].
  - intros t m. by eapply pc_owner; apply I.
  - intros t E. pose proof (sv_pc _ _ I t) as Hp. rewrite E in Hp. apply Hp.
  - intros t u m Ht Hu. by eapply has_excl; [apply I|apply Hh|eapply Hh].
  - by apply sem_settled.
  - intros El Hne. apply (sem_settled _ _ I) in El as [_ El].
    destruct (wr A) as [w|] eqn:Ew; [by exists w, Wr|].
    destruct (decide (rd A = ∅)) as [Er|Er]; [by rewrite El, (ao_busy _ (sv_abs _ _ I) Er Ew) in Hne|].
    apply set_choose_L in Er as [t Ht]. by exists t, Rd.
Qed.

(** ** First come, first served *)

(** A step of [t] from [A] to [A']: [gone] leave the front of the queue with
    what they waited for, [t] may join at the end, and nobody else gets
    anything; [t] itself passes the queue only when it is empty. *)
Record fifo (t : nat) (A A' : abs) (gone new : list (nat * mode)) : Prop := {
  fi_queue : queue A ++ new = gone ++ queue A';
  fi_gone u m : (u, m) ∈ gone -> has A' u m;
  fi_new u m : (u, m) ∈ new -> u = t;
  fi_has u m : has A' u m -> has A u m \/ (u, m) ∈ gone \/ (u = t /\ queue A = []) \/ (u = t /\ m = Rd /\ has A u Wr)
}.

Lemma fifo_refl t A : fifo t A A [] [].
Proof. split; [by rewrite app_nil_r|by intros ?? ?%elem_of_nil|by intros ?? ?%elem_of_nil|auto]. Qed.

Lemma hand_over_split r q :
  exists gone, q = gone ++ queue (hand_over r q) /\ (forall u m, (u, m) ∈ gone -> has (hand_over r q) u m) /\
  (forall u m, has (hand_over r q) u m -> (u ∈ r /\ m = Rd) \/ (u, m) ∈ gone).
Proof.
  destruct q as [|[w []] q].
  - exists []. split_and!; [done|by intros ?? ?%elem_of_nil|]. intros u []; cbn; [|done]. rewrite union_empty_r_L. auto.
  - exists ((fun t => (t, Rd)) <$> readers ((w, Rd) :: q)). split_and!.
    + symmetry. apply (readers_behind ((w, Rd) :: q)).
    + intros u m (v & [= -> ->] & Hv)%list_elem_of_fmap. cbn [has hand_over rd]. set_solver.
    + intros u [] Hu; [|done]. cbn [has hand_over rd] in Hu. apply elem_of_union in Hu as [Hu|Hu%elem_of_list_to_set]; [auto|].
      right. apply list_elem_of_fmap. eauto.
  - cbn. destruct (decide (r = ∅)) as [->|Hr].
    + exists [(w, Wr)]. split_and!; [done|by intros u m [= -> ->]%list_elem_of_singleton|]. intros u []; cbn; [set_solver|].
      intros [= ->]. right. by apply list_elem_of_singleton.
    + exists []. split_and!; [done|by intros ?? ?%elem_of_nil|]. intros u []; cbn; [auto|done].
Qed.

Lemma acall_fifo t c A : abs_ok A -> ready A t c -> exists gone new, fifo t A (acall t c A) gone new.
Proof.
  intros I Hready. assert (forall m, fifo t A (waits A t m) [] [(t, m)]) as Hwait.
  { intros m. split; [done|by intros ?? ?%elem_of_nil|by intros u k [= -> ->]%list_elem_of_singleton|intros u []; auto]. }
  assert (forall r, (forall u, u ∈ r -> u ∈ rd A \/ u = t /\ has A t Wr) -> exists gone, fifo t A (hand_over r (queue A)) gone []) as Hhand.
  { intros r Hr. destruct (hand_over_split r (queue A)) as (gone & E1 & E2 & E3). exists gone.
    split; [by rewrite app_nil_r|done|by intros ?? ?%elem_of_nil|]. intros u m [[Hu ->]|Hu]%E3; [|auto].
    destruct (Hr u Hu) as [?|[-> ?]]; [by left|]. right; right; right. done. }
  destruct c; cbn in Hready |- *.
  - destruct (may_read A) eqn:E; [|by eexists _, _]. apply bool_decide_eq_true in E as [E1 E2]. exists [], []. split; cbn; [by rewrite E2|by intros ?? ?%elem_of_nil..|].
    intros u []; cbn; [|done]. rewrite elem_of_union, elem_of_singleton. naive_solver.
  - destruct (may_read A) eqn:E; [|eexists _, _; apply fifo_refl]. apply bool_decide_eq_true in E as [E1 E2]. exists [], []. split; cbn; [by rewrite E2|by intros ?? ?%elem_of_nil..|].
    intros u []; cbn; [|done]. rewrite elem_of_union, elem_of_singleton. naive_solver.
  - destruct (may_write A) eqn:E; [|by eexists _, _]. apply bool_decide_eq_true in E as (E1 & E2 & E3). exists [], []. split; cbn; [by rewrite E3|by intros ?? ?%elem_of_nil..|].
    intros u []; cbn; [set_solver|]. naive_solver.
  - destruct (may_write A) eqn:E; [|eexists _, _; apply fifo_refl]. apply bool_decide_eq_true in E as (E1 & E2 & E3). exists [], []. split; cbn; [by rewrite E3|by intros ?? ?%elem_of_nil..|].
    intros u []; cbn; [set_solver|]. naive_solver.
  - destruct (decide (rd A ∖ {[t]} = ∅)) as [E|E].
    + destruct (Hhand ∅) as [gone Hg]; [set_solver|]. by exists gone, [].
    + exists [], []. split; cbn; [by rewrite app_nil_r|by intros ?? ?%elem_of_nil..|]. intros u []; cbn; [set_solver|done].
  - destruct (Hhand ∅) as [gone Hg]; [set_solver|]. by exists gone, [].
  - destruct (Hhand {[t]}) as [gone Hg]; [|by exists gone, []]. intros u ->%elem_of_singleton. auto.
Qed.

Lemma event_fifo s A e : sem_inv s A -> exists gone new, fifo (event_task e) A (abstract_step s e A) gone new.
Proof.
  intros I. destruct e; cbn; try (eexists _, _; apply fifo_refl).
  destruct (pcs s t) as [| | | |c| | | | | | | ] eqn:Ep; try (eexists _, _; apply fifo_refl).
  apply acall_fifo; [apply I|]. by eapply crit_ready.
Qed.

(** C10.  In every interleaving of any number of tasks no step touches a waiter
    that is gone, a task that is gone or an empty list, and the code implements
    the abstract semaphore: a task that has returned from [down_*] has it and
    one that is outside does not, a writer is alone, with the lock free
    [activity] and the list are those of the abstract state, tasks are served
    first come first served, and the semaphore never lies idle while tasks
    wait. *)
Theorem rwsem_refines (es : list event) :
  exists s A, run es init_rwsem init_abs = Some (s, A) /\ agrees s A /\
  forall e, exists gone new, fifo (event_task e) A (abstract_step s e A) gone new.
Proof.
  destruct (run_reached es _ _ init_reached) as (s & A & E & [I _]). exists s, A.
  split_and!; [done|by apply reached_agrees|intros e; by apply event_fifo].
Qed.

(** ** No wake-up is lost *)

(** A task in the loop at the end of [down_*], and the steps it needs from there. *)
Definition waits_for (p : pc) : option mode := match p with Check m | Sched m | SetState m | Leave m => Some m | _ => None end.
Definition loop_work (p : pc) : nat := match p with Leave _ => 1 | Check _ => 2 | SetState _ => 3 | Sched _ => 4 | _ => 0 end.

Lemma run_step s A t es :
  reached s A -> can_step s t = true -> Z.of_nat t < PID_MAX_LIMIT ->
  exists s', tstep t s = Some (tt, s') /\ reached s' (abstract_step s (Step t) A) /\
    run (Step t :: es) s A = run es s' (abstract_step s (Step t) A).
Proof.
  intros R Hc Hpid. assert (enabled s (Step t) = true) as He by (apply andb_true_iff; split; [by apply Z.ltb_lt|done]).
  destruct (wp_run _ _ _ (event_reached (Step t) s A R He)) as ([] & s' & E & R'). exists s'.
  split_and!; [done|done|]. cbn [run]. by rewrite He, E.
Qed.

Lemma lock_released s s' A A' t :
  sem_inv s A -> sem_inv s' A' -> wait_lock s = Some t -> tstep t s = Some (tt, s') -> locked_pc (pcs s' t) = false -> wait_lock s' = None.
Proof.
  intros I I' El E Hl. destruct (wait_lock s') as [w|] eqn:Ew; [|done]. apply (sv_lock _ _ I') in Ew.
  destruct (decide (w = t)) as [->|Hne]; [congruence|]. rewrite (step_pcs _ _ _ _ E Hne) in Ew. apply (sv_lock _ _ I) in Ew. congruence.
Qed.

(** The task with the lock releases it in at most [lock_work] steps. *)
Lemma lock_drained n s A v u m :
  reached s A -> wait_lock s = Some v -> (lock_work s v <= n)%nat -> has A u m -> v <> u ->
  exists k s' A', (k <= n)%nat /\ run (replicate k (Step v)) s A = Some (s', A') /\ reached s' A' /\ wait_lock s' = None /\
    pcs s' u = pcs s u /\ has A' u m.
Proof.
  revert s A. induction n as [|n IH]; intros s A R El Hn Hh Hne; pose proof (re_inv _ _ R) as I.
  all: pose proof (proj2 (sv_lock _ _ I v) El) as Hl; pose proof (sv_back _ _ I v) as Hb.
  { exfalso. unfold lock_work in Hn. destruct (pcs s v); try discriminate Hl; lia. }
  assert (can_step s v = true) as Hc by (unfold can_step; by destruct (pcs s v)).
  assert (Z.of_nat v < PID_MAX_LIMIT) as Hpid by (apply (re_tasks _ _ R); intros E; by rewrite E in Hl).
  destruct (run_step s A v [] R Hc Hpid) as (s' & E & R' & _). pose proof (step_work _ _ _ E Hl Hb) as Hw.
  set (A' := abstract_step s (Step v) A) in *.
  assert (has A' u m) as Hh'.
  { unfold A', abstract_step. destruct (pcs s v) eqn:Ep; try done. apply acall_others; [apply I|by eapply crit_ready|by apply not_eq_sym|done]. }
  assert (pcs s' u = pcs s u) as Hpu by (by eapply step_pcs).
  assert (forall es, run (Step v :: es) s A = run es s' A') as Hrun.
  { intros es. destruct (run_step s A v es R Hc Hpid) as (s'' & E'' & _ & ->). rewrite E in E''. by injection E'' as <-. }
  destruct (locked_pc (pcs s' v)) eqn:Hl'.
  - destruct (IH s' A' R') as (k & s2 & A2 & Hk & Hr & R2 & El2 & Hp2 & Hh2); [by apply (sv_lock _ _ (re_inv _ _ R'))|lia|done|done|].
    exists (S k), s2, A2. cbn [replicate]. rewrite Hrun. split_and!; [lia|done|done|done|congruence|done].
  - exists 1%nat, s', A'. cbn [replicate]. rewrite Hrun. split_and!; [lia|done|done| |done|done].
    by eapply lock_released; [apply R|apply R'|..].
Qed.

Lemma granted_waiter s A u m p :
  sem_inv s A -> wait_lock s = None -> has A u m -> pcs s u = p -> waits_for p = Some m -> waiters s u = Some (granted m).
Proof.
  intros I El Hh Ep Hp. pose proof (sv_pc _ _ I u) as Hpc. rewrite Ep in Hpc. apply (sem_settled _ _ I) in El as [_ El].
  destruct p; cbn in Hp; try discriminate Hp; injection Hp as ->; cbn in Hpc.
  4: apply Hpc.
  all: destruct Hpc as [(E & _)|(_ & Hin & _)]; [done|]; rewrite El in Hin; apply list_elem_of_fmap in Hin as ([w k] & -> & Hq).
  all: by destruct (ao_queued _ (sv_abs _ _ I) _ _ m Hq).
Qed.

Lemma loop_step s u m :
  waiters s u = Some (granted m) -> waits_for (pcs s u) = Some m ->
  wp (tstep u) (fun _ s' => wait_lock s' = wait_lock s /\ (loop_work (pcs s' u) < loop_work (pcs s u))%nat /\
    (waits_for (pcs s' u) = Some m \/ pcs s' u = Holds m)) s.
Proof.
  intros Ew Hp. unfold tstep. do 2 wp_step. destruct (pcs s u) eqn:Ep; try discriminate Hp; injection Hp as ->.
  all: unfold get_waiter, goto, set_task_state; wp_steps; cbn; rewrite ?fn_lookup_insert; cbn; auto.
Qed.

Lemma loop_left n s A u m :
  reached s A -> wait_lock s = None -> has A u m -> waits_for (pcs s u) = Some m -> (loop_work (pcs s u) <= n)%nat ->
  exists k s', (k <= n)%nat /\ run (replicate k (Step u)) s A = Some (s', A) /\ pcs s' u = Holds m.
Proof.
  revert s. induction n as [|n IH]; intros s R El Hh Hw Hn; pose proof (re_inv _ _ R) as I.
  { by destruct (pcs s u); cbn in *; try discriminate Hw; lia. }
  pose proof (granted_waiter _ _ _ _ _ I El Hh eq_refl Hw) as Eg.
  assert (can_step s u = true) as Hc.
  { unfold can_step. destruct (pcs s u) as [| | | | | | | | |k| | ] eqn:Ep; try discriminate Hw; try done.
    destruct (running s u) eqn:Er; [done|]. rewrite <- (notified_none s u El). apply (sv_wake _ _ I u k); [done|done|]. by rewrite Eg. }
  assert (Z.of_nat u < PID_MAX_LIMIT) as Hpid by (apply (re_tasks _ _ R); intros E; by rewrite E in Hw).
  destruct (wp_run _ _ _ (loop_step s u m Eg Hw)) as ([] & s' & E & El' & Hlw & Hend).
  assert (abstract_step s (Step u) A = A) as EA by (cbn; by destruct (pcs s u)).
  assert (reached s' A /\ forall es, run (Step u :: es) s A = run es s' A) as [R' Hrun].
  { split; [|intros es]; destruct (run_step s A u [] R Hc Hpid) as (s2 & E2 & R2 & _); [rewrite EA in R2; congruence|].
    destruct (run_step s A u es R Hc Hpid) as (s3 & E3 & _ & ->). rewrite EA. congruence. }
  destruct Hend as [Hw'|Hd].
  - destruct (IH s' R') as (k & s2 & Hk & Hr & Hp2); [congruence|done|done|lia|].
    exists (S k), s2. cbn [replicate]. rewrite Hrun. split_and!; [lia|done|done].
  - exists 1%nat, s'. cbn [replicate]. rewrite Hrun. split_and!; [lia|done|done].
Qed.

Lemma run_app es es' s A : run (es ++ es') s A = match run es s A with Some (s', A') => run es' s' A' | None => None end.
Proof.
  revert s A. induction es as [|e es IH]; intros s A; cbn; [done|]. destruct (enabled s e); [|apply IH].
  destruct (perform e s) as [[] |]; [apply IH|done].
Qed.

(** C12.  No wake-up is lost: whenever a task that waits has been given the
    semaphore, it returns from its call after at most [2 n + 4] more steps of
    the task inside the critical section ([n] tasks in the list) and four of its
    own, whatever happened before, spurious wake-ups included. *)
Theorem rwsem_wakes (es : list event) (s : rwsem) (A : abs) (u : nat) (m : mode)
  (Hrun : run es init_rwsem init_abs = Some (s, A)) (Hhas : has A u m) (Hwaits : waits_for (pcs s u) = Some m) :
  exists v i j s' A', (i <= 2 * length (wait_list s) + 4)%nat /\ (j <= 4)%nat /\ (wait_lock s = Some v \/ i = 0%nat) /\
    run (replicate i (Step v) ++ replicate j (Step u)) s A = Some (s', A') /\ pcs s' u = Holds m.
Proof.
  destruct (run_reached es _ _ init_reached) as (s0 & A0 & E & R). rewrite Hrun in E. injection E as <- <-.
  assert (forall p, waits_for p = Some m -> (loop_work p <= 4)%nat) as H4 by (intros []; cbn; lia || discriminate).
  destruct (wait_lock s) as [v|] eqn:El.
  - assert (v <> u) as Hne.
    { intros ->. apply (sv_lock _ _ (re_inv _ _ R)) in El. by destruct (pcs s u). }
    destruct (lock_drained (2 * length (wait_list s) + 4) s A v u m R El) as (i & s1 & A1 & Hi & Hr1 & R1 & El1 & Hp1 & Hh1); [|done|done|].
    { unfold lock_work. destruct (pcs s v); lia. }
    rewrite <- Hp1 in Hwaits. destruct (loop_left 4 s1 A1 u m R1 El1 Hh1 Hwaits (H4 _ Hwaits)) as (j & s2 & Hj & Hr2 & Hp2).
    exists v, i, j, s2, A1. rewrite run_app, Hr1. auto.
  - destruct (loop_left 4 s A u m R El Hhas Hwaits (H4 _ Hwaits)) as (j & s2 & Hj & Hr2 & Hp2).
    exists 0%nat, 0%nat, j, s2, A. split_and!; [lia|done|by right|done|done].
Qed.

(** Task 2 sleeps in [down_read] while task 1 writes; task 1 releases the
    semaphore and has just taken task 2 off the list. *)
Definition handover : list event :=
  [Call 1 DownWrite; Step 1; Step 1; Step 1; Call 2 DownRead; Step 2; Step 2; Step 2; Step 2;
   Call 1 UpWrite; Step 1; Step 1; Step 1].

Lemma rwsem_wakes_witness :
  match run handover init_rwsem init_abs with
  | Some (s, A) => running s 2 = false /\ pcs s 1 = Notify 2 (KRead None 0) Idle /\
      exists v i j s' A', (i <= 2 * length (wait_list s) + 4)%nat /\ (j <= 4)%nat /\ (wait_lock s = Some v \/ i = 0%nat) /\
        run (replicate i (Step v) ++ replicate j (Step 2)) s A = Some (s', A') /\ pcs s' 2 = Holds Rd
  | None => False
  end.
Proof.
  destruct (run handover init_rwsem init_abs) as [[s A]|] eqn:E.
  - assert (forall (P : rwsem * abs -> bool), match run handover init_rwsem init_abs with Some x => P x | None => false end = true -> P (s, A) = true) as Hrun.
    { intros P. by rewrite E. }
    split_and!.
    + vm_compute in E. by injection E as <- _.
    + vm_compute in E. by injection E as <- _.
    + apply (rwsem_wakes handover s A 2 Rd E).
      * pose proof (Hrun (fun '(_, B) => bool_decide (2%nat ∈ rd B))) as H. by apply bool_decide_eq_true in H; [|vm_compute].
      * vm_compute in E. by injection E as <- _.
  - by vm_compute in E.
Defined.
