(* ===== verification/LibVsprintf.v ===== *)
(** * lib/ctype.c and lib/vsprintf.c: characters and formatted text

    First the character classes of lib/ctype.c and include/linux/ctype.h, then
    the conversion of numbers and the formatted output of lib/vsprintf.c.

    A character is its code, 0 to 255; string literals are written as lists of
    codes with [bytes]. *)
From Stdlib Require Import Ascii.
From Stdlib Require Import String.
From S2P Require Import Prelude.

Definition chr (a : Ascii.ascii) : Z := Z.of_nat (Ascii.nat_of_ascii a).
Arguments chr _%_char.
Fixpoint bytes (s : String.string) : list Z :=
  match s with String.EmptyString => [] | String.String a s => chr a :: bytes s end.
Arguments bytes _%_string.

Definition _U : Z := 1.
Definition _L : Z := 2.
Definition _D : Z := 4.
Definition _C : Z := 8.
Definition _P : Z := 16.
Definition _S : Z := 32.
Definition _X : Z := 64.
Definition _SP : Z := 128.

(** The table, by its runs of equal entries. *)
Definition _ctype : list Z :=
  replicate 9 _C ++ replicate 5 (Z.lor _C _S) ++ replicate 18 _C ++ [Z.lor _S _SP] ++ replicate 15 _P ++
  replicate 10 _D ++ replicate 7 _P ++ replicate 6 (Z.lor _U _X) ++ replicate 20 _U ++ replicate 6 _P ++
  replicate 6 (Z.lor _L _X) ++ replicate 20 _L ++ replicate 4 _P ++ [_C] ++
  replicate 32 0 ++ [Z.lor _S _SP] ++ replicate 31 _P ++
  replicate 23 _U ++ [_P] ++ replicate 7 _U ++ replicate 24 _L ++ [_P] ++ replicate 8 _L.

Definition __ismask (x : Z) : Z := default 0 (_ctype !! Z.to_nat (u8 x)).
Definition isdigit (c : Z) : bool := truth (Z.land (__ismask c) _D).
Definition islower (c : Z) : bool := truth (Z.land (__ismask c) _L).
Definition isspace (c : Z) : bool := truth (Z.land (__ismask c) _S).
Definition isupper (c : Z) : bool := truth (Z.land (__ismask c) _U).
Definition isxdigit (c : Z) : bool := truth (Z.land (__ismask c) (Z.lor _D _X)).
Definition toupper (c : Z) : Z := if islower c then u8 (c - (chr "a" - chr "A")) else c.
Definition tolower (c : Z) : Z := if isupper c then u8 (c - (chr "A" - chr "a")) else c.

(** ** lib/vsprintf.c: numbers in text, formatted output and input

    Memory is a finite map from addresses to bytes, and an access outside it is
    an oops.  A string that is only read and whose address does not matter (a
    format, the text of a number) is the list of its characters up to the
    terminating NUL: the pointer into it is the rest of the list, and the
    character at the end is 0.

    [str] is an address that wraps at 32 bits.  The [int] counters of the field
    ([size], [precision], [field_width], [len], [i]) wrap at 32 bits wherever the
    code computes them, so a width or a precision of more digits than an [int]
    holds is the number it wraps to. *)
Definition u64 (x : Z) : Z := x mod 2 ^ 64.
Definition s64 (x : Z) : Z := let y := u64 x in if y <? 2 ^ 63 then y else y - 2 ^ 64.
Definition s16 (x : Z) : Z := let y := u16 x in if y <? 2 ^ 15 then y else y - 2 ^ 16.
Definition s8 (x : Z) : Z := let y := u8 x in if y <? 2 ^ 7 then y else y - 2 ^ 8.

(** ** Numbers from text *)
Definition cur (cp : list Z) : Z := hd 0 cp.
Definition adv (cp : list Z) : list Z := tail cp.

Definition digit_value (c : Z) : Z := if isdigit c then c - chr "0" else toupper c - chr "A" + 10.
(** The start of a number: the base, 0 for the one the text says, and the text after a prefix. *)
Definition number_base (cp : list Z) (base : Z) : Z * list Z :=
  if base =? 0 then
    if cur cp =? chr "0" then
      let cp := adv cp in
      if (toupper (cur cp) =? chr "X") && isxdigit (cur (adv cp)) then (16, adv cp) else (8, cp)
    else (10, cp)
  else if base =? 16 then
    if (cur cp =? chr "0") && (toupper (cur (adv cp)) =? chr "X") then (16, adv (adv cp)) else (16, cp)
  else (base, cp).
(** The loop over the digits, for results of a width given by [wrap]. *)
Fixpoint strtou_loop (wrap : Z -> Z) (base : Z) (cp : list Z) (result : Z) : Z * list Z :=
  match cp with
  | c :: cp' =>
      if isxdigit c && (digit_value c <? base) then strtou_loop wrap base cp' (wrap (result * base + digit_value c))
      else (result, cp)
  | [] => (result, [])
  end.
(** The value, and the text after it ([*endp]). *)
Definition simple_strtoul (cp : list Z) (base : Z) : Z * list Z :=
  let '(base, cp) := number_base cp base in strtou_loop u32 base cp 0.
Definition simple_strtol (cp : list Z) (base : Z) : Z * list Z :=
  if cur cp =? chr "-" then let '(r, e) := simple_strtoul (adv cp) base in (s32 (- r), e)
  else let '(r, e) := simple_strtoul cp base in (s32 r, e).
Definition simple_strtoull (cp : list Z) (base : Z) : Z * list Z :=
  let '(base, cp) := number_base cp base in strtou_loop u64 base cp 0.
Definition simple_strtoll (cp : list Z) (base : Z) : Z * list Z :=
  if cur cp =? chr "-" then let '(r, e) := simple_strtoull (adv cp) base in (s64 (- r), e)
  else let '(r, e) := simple_strtoull cp base in (s64 r, e).

Fixpoint skip_atoi (s : list Z) (i : Z) : Z * list Z :=
  match s with
  | c :: s' => if isdigit c then skip_atoi s' (s32 (i * 10 + c - chr "0")) else (i, s)
  | [] => (i, [])
  end.

(** ** Memory *)
Abbreviation memory := (gmap Z Z).
Definition load (p : Z) : M memory Z := o ← gets (fun m : memory => m !! p); deref o.
Definition store (p v : Z) : M memory unit := fun m => if decide (is_Some (m !! p)) then Some (tt, <[p := v]> m) else None.

(** The arguments of a call: words (integers of up to 32 bits, pointers) and
    [long long]s. *)
Inductive varg := VWord (w : Z) | VLong (w : Z).
Definition va_word (args : list varg) : M memory (Z * list varg) :=
  match args with VWord w :: args => ret (u32 w, args) | _ => oops end.
Definition va_long (args : list varg) : M memory (Z * list varg) :=
  match args with VLong w :: args => ret (u64 w, args) | _ => oops end.

(** [if (str <= end) *str = c; ++str;] and [n] times that. *)
Definition put (end_ : Z) (c str : Z) : M memory Z := when (str <=? end_) (store str c);; ret (u32 (str + 1)).
Fixpoint pad (end_ : Z) (c : Z) (n : nat) (str : Z) : M memory Z :=
  match n with O => ret str | S n => str ← put end_ c str; pad end_ c n str end.
Fixpoint puts (end_ : Z) (l : list Z) (str : Z) : M memory Z :=
  match l with [] => ret str | c :: l => str ← put end_ c str; puts end_ l str end.

(** ** Numbers to text *)
Definition ZEROPAD : Z := 1.
Definition SIGN : Z := 2.
Definition PLUS : Z := 4.
Definition SPACE : Z := 8.
Definition LEFT : Z := 16.
Definition SPECIAL : Z := 32.
Definition LARGE : Z := 64.
Definition has (type flag : Z) : bool := truth (Z.land type flag).

Definition small_digits : list Z := bytes "0123456789abcdefghijklmnopqrstuvwxyz".
Definition large_digits : list Z := bytes "0123456789ABCDEFGHIJKLMNOPQRSTUVWXYZ".

(** [while (num != 0) tmp[i++] = digits[do_div(num, base)];] *)
Fixpoint digit_loop (fuel : nat) (digits : list Z) (base num : Z) : list Z :=
  if num =? 0 then [] else
  match fuel with
  | O => []
  | S fuel => (digits !!! Z.to_nat (num mod base)) :: digit_loop fuel digits base (num / base)
  end.

(** The counter after [while (size-- > 0)]. *)
Definition ran_out (size : Z) : Z := if 0 <? size then -1 else s32 (size - 1).

Definition number (str end_ num base size precision type : Z) : M memory Z :=
  let digits := if has type LARGE then large_digits else small_digits in
  let type := if has type LEFT then Z.land type (Z.lnot ZEROPAD) else type in
  if (base <? 2) || (36 <? base) then ret 0 else
  let c := if has type ZEROPAD then chr "0" else chr " " in
  let '(sign, num, size) :=
    if has type SIGN then
      if s64 num <? 0 then (chr "-", u64 (- s64 num), s32 (size - 1))
      else if has type PLUS then (chr "+", num, s32 (size - 1))
      else if has type SPACE then (chr " ", num, s32 (size - 1))
      else (0, num, size)
    else (0, num, size) in
  let size := if has type SPECIAL then (if base =? 16 then s32 (size - 2) else if base =? 8 then s32 (size - 1) else size) else size in
  let tmp := if num =? 0 then [chr "0"] else digit_loop 64 digits base num in
  let i := Z.of_nat (length tmp) in
  let precision := if precision <? i then i else precision in
  let size := s32 (size - precision) in
  r ← (if has type (ZEROPAD + LEFT) then ret (str, size) else
       str ← pad end_ (chr " ") (Z.to_nat size) str; ret (str, ran_out size));
  let '(str, size) := r : Z * Z in
  str ← (if truth sign then put end_ sign str else ret str);
  str ← (if has type SPECIAL then
           if base =? 8 then put end_ (chr "0") str
           else if base =? 16 then str ← put end_ (chr "0") str; put end_ (digits !!! 33%nat) str
           else ret str
         else ret str);
  r ← (if has type LEFT then ret (str, size) else
       str ← pad end_ c (Z.to_nat size) str; ret (str, ran_out size));
  let '(str, size) := r : Z * Z in
  str ← pad end_ (chr "0") (Z.to_nat (precision - i)) str;
  str ← puts end_ (rev tmp) str;
  pad end_ (chr " ") (Z.to_nat size) str.

(** ** Formatted output *)

(** lib/string.c.  A string lies inside memory, so the number of its bytes
    bounds the loop. *)
Fixpoint strnlen_loop (fuel : nat) (count sc : Z) (n : Z) : M memory Z :=
  if count =? 0 then ret n else
  match fuel with
  | O => oops
  | S fuel => c ← load sc; if c =? 0 then ret n else strnlen_loop fuel (count - 1) (u32 (sc + 1)) (n + 1)
  end.
Definition strnlen (s count : Z) : M memory Z :=
  fuel ← gets (fun m : memory => S (size m)); strnlen_loop fuel count s 0.

(** [for (i = 0; i < len; ++i) { if (str <= end) *str = *s; ++str; ++s; }] *)
Fixpoint copy (end_ : Z) (n : nat) (s str : Z) : M memory Z :=
  match n with
  | O => ret str
  | S n =>
      when (str <=? end_) (c ← load s; store str c);;
      copy end_ n (u32 (s + 1)) (u32 (str + 1))
  end.

(** [n] bytes at [p], in the byte order of the machine. *)
Fixpoint le_bytes (n : nat) (v : Z) : list Z :=
  match n with O => [] | S n => u8 v :: le_bytes n (Z.shiftr v 8) end.
Fixpoint store_bytes (p : Z) (l : list Z) : M memory unit :=
  match l with [] => ret tt | c :: l => store p c;; store_bytes (u32 (p + 1)) l end.
Definition word_bytes (little : bool) (n : nat) (v : Z) : list Z :=
  if little then le_bytes n v else rev (le_bytes n v).

(** What follows a [%]: flags, width, precision and length. *)
Fixpoint get_flags (fmt : list Z) (flags : Z) : Z * list Z :=
  match fmt with
  | c :: fmt' =>
      if c =? chr "-" then get_flags fmt' (Z.lor flags LEFT)
      else if c =? chr "+" then get_flags fmt' (Z.lor flags PLUS)
      else if c =? chr " " then get_flags fmt' (Z.lor flags SPACE)
      else if c =? chr "#" then get_flags fmt' (Z.lor flags SPECIAL)
      else if c =? chr "0" then get_flags fmt' (Z.lor flags ZEROPAD)
      else (flags, fmt)
  | [] => (flags, [])
  end.
Definition get_width (fmt : list Z) (flags : Z) (args : list varg) : M memory (Z * Z * list Z * list varg) :=
  if isdigit (cur fmt) then let '(w, fmt) := skip_atoi fmt 0 in ret (w, flags, fmt, args)
  else if cur fmt =? chr "*" then
    a ← va_word args;
    let w := s32 a.1 in
    ret (if w <? 0 then (s32 (- w), Z.lor flags LEFT, adv fmt, a.2) else (w, flags, adv fmt, a.2))
  else ret (-1, flags, fmt, args).
Definition get_precision (fmt : list Z) (args : list varg) : M memory (Z * list Z * list varg) :=
  if cur fmt =? chr "." then
    let fmt := adv fmt in
    r ← (if isdigit (cur fmt) then let '(p, fmt) := skip_atoi fmt 0 in ret (p, fmt, args)
         else if cur fmt =? chr "*" then a ← va_word args; ret (s32 a.1, adv fmt, a.2)
         else ret (-1, fmt, args));
    let '(p, fmt, args) := r : Z * list Z * list varg in
    ret (Z.max p 0, fmt, args)
  else ret (-1, fmt, args).
Definition get_qualifier (fmt : list Z) : Z * list Z :=
  let q := cur fmt in
  if bool_decide (q ∈ bytes "hlLZz") then
    let fmt := adv fmt in
    if (q =? chr "l") && (cur fmt =? chr "l") then (chr "L", adv fmt) else (q, fmt)
  else (-1, fmt).

Section Vsprintf.
(** Where the compiler puts the literal ["<NULL>"], and the byte order. *)
Context (null_string : Z) (little : bool).

(** [while (--field_width > 0)] runs [field_width - 1] times, and
    [while (len < field_width--)] runs [field_width - len] times; the counters
    they leave. *)
Definition pre_ran_out (field_width : Z) : Z := if 0 <? s32 (field_width - 1) then 0 else s32 (field_width - 1).
Definition len_ran_out (len field_width : Z) : Z := if len <? field_width then s32 (len - 1) else s32 (field_width - 1).

Definition put_char (end_ str flags field_width : Z) (args : list varg) : M memory (Z * list varg) :=
  r ← (if has flags LEFT then ret (str, field_width) else
       str ← pad end_ (chr " ") (Z.to_nat (s32 (field_width - 1))) str; ret (str, pre_ran_out field_width));
  let '(str, field_width) := r : Z * Z in
  a ← va_word args;
  str ← put end_ (u8 a.1) str;
  str ← pad end_ (chr " ") (Z.to_nat (s32 (field_width - 1))) str;
  ret (str, a.2).

Definition put_string (end_ str flags field_width precision : Z) (args : list varg) : M memory (Z * list varg) :=
  a ← va_word args;
  let s := if a.1 <? PAGE_SIZE then null_string else a.1 in
  n ← strnlen s (u32 precision);
  let len := s32 n in
  r ← (if has flags LEFT then ret (str, field_width) else
       str ← pad end_ (chr " ") (Z.to_nat (field_width - len)) str; ret (str, len_ran_out len field_width));
  let '(str, field_width) := r : Z * Z in
  str ← copy end_ (Z.to_nat len) s str;
  str ← pad end_ (chr " ") (Z.to_nat (field_width - len)) str;
  ret (str, a.2).

Definition put_pointer (end_ str flags field_width precision : Z) (args : list varg) : M memory (Z * list varg) :=
  let '(field_width, flags) := if field_width =? -1 then (8, Z.lor flags ZEROPAD) else (field_width, flags) in
  a ← va_word args;
  str ← number str end_ a.1 16 field_width precision flags;
  ret (str, a.2).

(** The number of an integer conversion. *)
Definition get_number (qualifier flags : Z) (args : list varg) : M memory (Z * list varg) :=
  if qualifier =? chr "L" then va_long args else
  a ← va_word args;
  let signed := has flags SIGN in
  let num :=
    if qualifier =? chr "l" then if signed then u64 (s32 a.1) else a.1
    else if (qualifier =? chr "Z") || (qualifier =? chr "z") then a.1
    else if qualifier =? chr "h" then if signed then u64 (s16 (u16 a.1)) else u16 a.1
    else if signed then u64 (s32 a.1) else a.1 in
  ret (num, a.2).
Definition put_number (end_ str base flags field_width precision qualifier : Z) (args : list varg) : M memory (Z * list varg) :=
  a ← get_number qualifier flags args;
  str ← number str end_ a.1 base field_width precision flags;
  ret (str, a.2).

(** One conversion; [fmt] starts with its character. *)
Definition conversion (buf end_ str flags field_width precision qualifier : Z) (fmt : list Z) (args : list varg) :
    M memory (Z * list varg) :=
  let c := cur fmt in
  let int base flags := put_number end_ str base flags field_width precision qualifier args in
  if c =? chr "c" then put_char end_ str flags field_width args
  else if c =? chr "s" then put_string end_ str flags field_width precision args
  else if c =? chr "p" then put_pointer end_ str flags field_width precision args
  else if c =? chr "n" then
    a ← va_word args;
    store_bytes a.1 (word_bytes little 4 (u32 (str - buf)));;
    ret (str, a.2)
  else if c =? chr "%" then str ← put end_ (chr "%") str; ret (str, args)
  else if c =? chr "o" then int 8 flags
  else if c =? chr "X" then int 16 (Z.lor flags LARGE)
  else if c =? chr "x" then int 16 flags
  else if (c =? chr "d") || (c =? chr "i") then int 10 (Z.lor flags SIGN)
  else if c =? chr "u" then int 10 flags
  else
    str ← put end_ (chr "%") str;
    str ← (if truth c then put end_ c str else ret str);
    ret (str, args).

Definition directive (buf end_ str : Z) (fmt : list Z) (args : list varg) : M memory (Z * list Z * list varg) :=
  let '(flags, fmt) := get_flags fmt 0 in
  w ← get_width fmt flags args;
  let '(field_width, flags, fmt, args) := w : Z * Z * list Z * list varg in
  p ← get_precision fmt args;
  let '(precision, fmt, args) := p : Z * list Z * list varg in
  let '(qualifier, fmt) := get_qualifier fmt in
  r ← conversion buf end_ str flags field_width precision qualifier fmt args;
  ret (r.1, adv fmt, r.2).

Fixpoint format_loop (fuel : nat) (buf end_ str : Z) (fmt : list Z) (args : list varg) : M memory Z :=
  match fmt with
  | [] => ret str
  | c :: fmt' =>
      match fuel with
      | O => oops
      | S fuel =>
          if negb (c =? chr "%") then str ← put end_ c str; format_loop fuel buf end_ str fmt' args
          else
            r ← directive buf end_ str fmt' args;
            let '(str, fmt, args) := r : Z * list Z * list varg in
            format_loop fuel buf end_ str fmt args
      end
  end.

Definition vsnprintf (buf size : Z) (fmt : list Z) (args : list varg) : M memory Z :=
  if s32 size <? 0 then ret 0 else
  let end_ := u32 (buf + size - 1) in
  let '(end_, size) := if end_ <? u32 (buf - 1) then (2 ^ 32 - 1, u32 (2 ^ 32 - 1 - buf + 1)) else (end_, size) in
  str ← format_loop (length fmt) buf end_ buf fmt args;
  (if str <=? end_ then store str 0 else when (0 <? size) (store end_ 0));;
  ret (s32 (str - buf)).
Definition vscnprintf (buf size : Z) (fmt : list Z) (args : list varg) : M memory Z :=
  i ← vsnprintf buf size fmt args;
  ret (if size <=? u32 i then s32 (size - 1) else i).
Definition snprintf (buf size : Z) (fmt : list Z) (args : list varg) : M memory Z := vsnprintf buf size fmt args.
Definition scnprintf (buf size : Z) (fmt : list Z) (args : list varg) : M memory Z :=
  i ← vsnprintf buf size fmt args;
  ret (if size <=? u32 i then s32 (size - 1) else i).
Definition vsprintf (buf : Z) (fmt : list Z) (args : list varg) : M memory Z := vsnprintf buf (2 ^ 31 - 1) fmt args.
Definition sprintf (buf : Z) (fmt : list Z) (args : list varg) : M memory Z := vsprintf buf fmt args.
End Vsprintf.
