(* ===== verification/LibSscanf.v ===== *)
(** * lib/vsprintf.c: formatted input

    The text lies in memory at the address [str], and the results go to the
    same memory through the pointers among the arguments: a result that is
    stored into the text is read back by what follows.  Between two stores the
    rest of the text is read as the string it then is, up to its NUL, which
    must be inside memory.  The format is the list of its characters. *)
From Stdlib Require Import Ascii String.
From S2P Require Import Prelude.
From S2P Require Import LibVsprintf.

Fixpoint skip_spaces (l : list Z) : list Z := match l with c :: l' => if isspace c then skip_spaces l' else l | [] => [] end.
Fixpoint skip_word (l : list Z) : list Z := match l with c :: l' => if isspace c then l else skip_word l' | [] => [] end.

(** The string at an address.  It lies inside memory, so the number of bytes
    there bounds the loop. *)
Fixpoint string_loop (fuel : nat) (str : Z) : M memory (list Z) :=
  match fuel with
  | O => oops
  | S fuel => c ← load str; if c =? 0 then ret [] else text ← string_loop fuel (u32 (str + 1)); ret (c :: text)
  end.
Definition string_at (str : Z) : M memory (list Z) := fuel ← gets (fun m : memory => S (size m)); string_loop fuel str.
(** The address of the rest of a text. *)
Definition advanced (str : Z) (text rest : list Z) : Z := u32 (str + Z.of_nat (length text - length rest)).

(** A round of the loop ends it with a result, or leaves the address in the
    text, format, arguments and the number of conversions. *)
Inductive scanned := Stop (num : Z) | Next (str : Z) (fmt : list Z) (args : list varg) (num : Z).

Section Sscanf.
Context (little : bool).

(** [do *s++ = *str++; while (--field_width > 0 && *str);] *)
Fixpoint scan_chars (fuel : nat) (field_width s str : Z) : M memory Z :=
  c ← load str;
  store s c;;
  let str := u32 (str + 1) in
  let field_width := s32 (field_width - 1) in
  if 0 <? field_width then
    c ← load str;
    if truth c then match fuel with O => oops | S fuel => scan_chars fuel field_width (u32 (s + 1)) str end else ret str
  else ret str.
(** [while ( *str && !isspace( *str) && field_width--) *s++ = *str++;] *)
Fixpoint scan_word (fuel : nat) (field_width s str : Z) : M memory (Z * Z) :=
  c ← load str;
  if truth c && negb (isspace c) && truth field_width then
    match fuel with
    | O => oops
    | S fuel => store s c;; scan_word fuel (s32 (field_width - 1)) (u32 (s + 1)) (u32 (str + 1))
    end
  else ret (s, str).

Definition scan_qualifier (fmt : list Z) : Z * list Z :=
  let q := cur fmt in
  if bool_decide (q ∈ bytes "hlLZz") then
    let fmt := adv fmt in
    if q =? cur fmt then
      if q =? chr "h" then (chr "H", adv fmt) else if q =? chr "l" then (chr "L", adv fmt) else (q, fmt)
    else (q, fmt)
  else (-1, fmt).

(** The digit an integer must start with. *)
Definition bad_digit (digit base : Z) : bool :=
  negb (truth digit) || ((base =? 16) && negb (isxdigit digit)) || ((base =? 10) && negb (isdigit digit)) ||
  ((base =? 8) && (negb (isdigit digit) || (chr "7" <? digit))) || ((base =? 0) && negb (isdigit digit)).

(** The width of the result in bytes, and its value. *)
Definition scan_value (qualifier : Z) (is_sign : bool) (str : list Z) (base : Z) : nat * Z * list Z :=
  if qualifier =? chr "H" then let '(v, next) := (if is_sign then simple_strtol str base else simple_strtoul str base) in (1%nat, v, next)
  else if qualifier =? chr "h" then let '(v, next) := (if is_sign then simple_strtol str base else simple_strtoul str base) in (2%nat, v, next)
  else if qualifier =? chr "L" then let '(v, next) := (if is_sign then simple_strtoll str base else simple_strtoull str base) in (8%nat, v, next)
  else if (qualifier =? chr "Z") || (qualifier =? chr "z") then let '(v, next) := simple_strtoul str base in (4%nat, v, next)
  else let '(v, next) := (if is_sign then simple_strtol str base else simple_strtoul str base) in (4%nat, v, next).

Definition scan_int (qualifier : Z) (is_sign : bool) (base str : Z) (fmt : list Z) (args : list varg) (num : Z) : M memory scanned :=
  text ← string_at str;
  let digits := skip_spaces text in
  let digit := if is_sign && (cur digits =? chr "-") then cur (adv digits) else cur digits in
  if bad_digit digit base then ret (Stop num) else
  let '(n, v, next) := scan_value qualifier is_sign digits base in
  a ← va_word args;
  store_bytes a.1 (word_bytes little n v);;
  ret (Next (advanced str text next) fmt a.2 (num + 1)).

Definition scan_conversion (buf qualifier field_width str : Z) (fmt : list Z) (args : list varg) (num : Z) : M memory scanned :=
  let c := cur fmt in
  let fmt := adv fmt in
  if c =? chr "c" then
    a ← va_word args;
    fuel ← gets (fun m : memory => size m);
    str ← scan_chars fuel (if field_width =? -1 then 1 else field_width) a.1 str;
    ret (Next str fmt a.2 (num + 1))
  else if c =? chr "s" then
    a ← va_word args;
    text ← string_at str;
    fuel ← gets (fun m : memory => size m);
    r ← scan_word fuel (if field_width =? -1 then 2 ^ 31 - 1 else field_width) a.1 (advanced str text (skip_spaces text));
    store r.1 0;;
    ret (Next r.2 fmt a.2 (num + 1))
  else if c =? chr "n" then
    a ← va_word args;
    store_bytes a.1 (word_bytes little 4 (u32 (str - buf)));;
    ret (Next str fmt a.2 num)
  else if c =? chr "o" then scan_int qualifier false 8 str fmt args num
  else if (c =? chr "x") || (c =? chr "X") then scan_int qualifier false 16 str fmt args num
  else if c =? chr "i" then scan_int qualifier true 0 str fmt args num
  else if c =? chr "d" then scan_int qualifier true 10 str fmt args num
  else if c =? chr "u" then scan_int qualifier false 10 str fmt args num
  else if c =? chr "%" then
    d ← load str;
    ret (if d =? chr "%" then Next (u32 (str + 1)) fmt args num else Stop num)
  else ret (Stop num).

(** What follows a [%] in the format. *)
Definition scan_directive (buf str : Z) (fmt : list Z) (args : list varg) (num : Z) : M memory scanned :=
  text ← string_at str;
  if cur fmt =? chr "*" then ret (Next (advanced str text (skip_word text)) (skip_word fmt) args num) else
  let '(field_width, fmt) := if isdigit (cur fmt) then skip_atoi fmt 0 else (-1, fmt) in
  let '(qualifier, fmt) := scan_qualifier fmt in
  if negb (truth (cur fmt)) || negb (truth (cur text)) then ret (Stop num)
  else scan_conversion buf qualifier field_width str fmt args num.

(** One round: blanks in the format match any blanks, other characters themselves. *)
Definition scan_round (buf str : Z) (fmt : list Z) (args : list varg) (num : Z) : M memory scanned :=
  text ← string_at str;
  let '(rest, fmt) := if isspace (cur fmt) then (skip_spaces text, skip_spaces fmt) else (text, fmt) in
  let str := advanced str text rest in
  if negb (cur fmt =? chr "%") && truth (cur fmt) then
    ret (if cur fmt =? cur rest then Next (u32 (str + 1)) (adv fmt) args num else Stop num)
  else if negb (truth (cur fmt)) then ret (Stop num)
  else scan_directive buf str (adv fmt) args num.

Fixpoint scan_loop (fuel : nat) (buf str : Z) (fmt : list Z) (args : list varg) (num : Z) : M memory Z :=
  if truth (cur fmt) then
    c ← load str;
    if truth c then
      match fuel with
      | O => oops
      | S fuel =>
          r ← scan_round buf str fmt args num;
          match r with Stop num => ret num | Next str fmt args num => scan_loop fuel buf str fmt args num end
      end
    else ret num
  else ret num.

Definition vsscanf (buf : Z) (fmt : list Z) (args : list varg) : M memory Z := scan_loop (length fmt) buf buf fmt args 0.
Definition sscanf (buf : Z) (fmt : list Z) (args : list varg) : M memory Z := vsscanf buf fmt args.
End Sscanf.
