(* ===== verification/VsprintfProof.v ===== *)
(** * Formatted output: specification

    A format is a list of literal characters and directives; [show] writes it
    down and [render] says what it stands for, with every field built in one
    piece.  Nothing here mentions pointers, ends of buffers or loops. *)
From Stdlib Require Import Ascii.
From Stdlib Require Import String.
From S2P Require Import Prelude.
From S2P Require Import LibVsprintf.

(** ** Numerals *)

(** The digits of a number, the last one first, and a numeral as one writes it. *)
Fixpoint digits_lsf (fuel : nat) (base n : Z) : list Z :=
  if n =? 0 then [] else
  match fuel with O => [] | S fuel => n mod base :: digits_lsf fuel base (n / base) end.
Definition to_digits (base n : Z) : list Z := if n =? 0 then [0] else rev (digits_lsf 64 base n).
Definition digit_char (large : bool) (d : Z) : Z :=
  if d <? 10 then chr "0" + d else (if large then chr "A" else chr "a") + (d - 10).
Definition numeral (large : bool) (base n : Z) : list Z := digit_char large <$> to_digits base n.

(** The value of a list of digits, and what makes it a numeral. *)
Definition value (base : Z) (ds : list Z) : Z := foldl (fun v d => v * base + d) 0 ds.
Record is_numeral (base n : Z) (ds : list Z) : Prop := {
  in_value : value base ds = n;
  in_digits : Forall (fun d => 0 <= d < base) ds;
  in_first : ds <> [] /\ (hd 0 ds = 0 -> ds = [0])
}.

(** ** Formats *)
Inductive flag := FMinus | FPlus | FSpace | FHash | FZero.
Inductive wspec := NoWidth | Width (n : Z) | StarWidth.
Inductive pspec := NoPrec | Prec (n : Z) | DotPrec | StarPrec.
Inductive qual := QNone | Qh | Ql | Qll | QL | QZ | Qz.
Inductive conv := Cchar | Cstr | Cptr | Cpercent | Coct | Chex (large : bool) | Cdec | Cint | Cuns | Cother (c : Z).
Record dirspec := { d_flags : list flag; d_width : wspec; d_prec : pspec; d_qual : qual; d_conv : conv }.
Inductive item := Lit (c : Z) | Dir (d : dirspec).

Definition show_flag (f : flag) : Z :=
  match f with FMinus => chr "-" | FPlus => chr "+" | FSpace => chr " " | FHash => chr "#" | FZero => chr "0" end.
Definition show_width (w : wspec) : list Z :=
  match w with NoWidth => [] | Width n => numeral false 10 n | StarWidth => bytes "*" end.
Definition show_prec (p : pspec) : list Z :=
  match p with NoPrec => [] | Prec n => chr "." :: numeral false 10 n | DotPrec => bytes "." | StarPrec => bytes ".*" end.
Definition show_qual (q : qual) : list Z :=
  match q with
  | QNone => [] | Qh => bytes "h" | Ql => bytes "l" | Qll => bytes "ll" | QL => bytes "L" | QZ => bytes "Z" | Qz => bytes "z"
  end.
Definition show_conv (c : conv) : Z :=
  match c with
  | Cchar => chr "c" | Cstr => chr "s" | Cptr => chr "p" | Cpercent => chr "%" | Coct => chr "o"
  | Chex large => if large then chr "X" else chr "x" | Cdec => chr "d" | Cint => chr "i" | Cuns => chr "u" | Cother c => c
  end.
Definition show_dir (d : dirspec) : list Z :=
  (show_flag <$> d_flags d) ++ show_width (d_width d) ++ show_prec (d_prec d) ++ show_qual (d_qual d) ++ [show_conv (d_conv d)].
Definition show_item (i : item) : list Z := match i with Lit c => [c] | Dir d => chr "%" :: show_dir d end.
Definition show (items : list item) : list Z := concat (show_item <$> items).

(** Widths and precisions are [int]s, widths do not start with the flag 0; an unknown conversion is no other part of a directive. *)
Definition special : list Z := bytes "-+ #0123456789*.hlLZzcspn%oXxdiu".
Definition item_ok (i : item) : Prop :=
  match i with
  | Lit c => c <> chr "%"
  | Dir d =>
      (match d_width d with Width n => 0 < n < 2 ^ 31 | _ => True end) /\
      (match d_prec d with Prec n => 0 <= n < 2 ^ 31 | _ => True end) /\
      (match d_conv d with Cother c => 0 < c < 256 /\ c ∉ special | _ => True end)
  end.

(** ** What a directive stands for *)
Definition flagged (f : flag) (fs : list flag) : bool := existsb (fun g => match f, g with
  | FMinus, FMinus | FPlus, FPlus | FSpace, FSpace | FHash, FHash | FZero, FZero => true | _, _ => false end) fs.

Definition fill (c : Z) (width : Z) (s : list Z) : list Z := replicate (Z.to_nat (width - Z.of_nat (length s))) c.
Definition justify (left : bool) (width : Z) (s : list Z) : list Z :=
  if left then s ++ fill (chr " ") width s else fill (chr " ") width s ++ s.

(** An integer: sign, prefix, digits to the precision, all in a field padded
    with blanks on one side or with zeros after the prefix. *)
Record numfmt := { nf_left : bool; nf_plus : bool; nf_space : bool; nf_hash : bool; nf_zero : bool }.
Definition format_number (f : numfmt) (signed large : bool) (base width precision v : Z) : list Z :=
  let sign := if signed then
      if v <? 0 then bytes "-" else if nf_plus f then bytes "+" else if nf_space f then bytes " " else []
    else [] in
  let prefix := if nf_hash f then
      if base =? 8 then bytes "0" else if base =? 16 then (if large then bytes "0X" else bytes "0x") else []
    else [] in
  let ds := numeral large base (Z.abs v) in
  let digits := fill (chr "0") precision ds ++ ds in
  let body := sign ++ prefix ++ digits in
  if nf_left f then justify true width body
  else if nf_zero f then sign ++ prefix ++ fill (chr "0") width body ++ digits
  else justify false width body.

(** A string in memory, up to its NUL or [count] characters. *)
Fixpoint read_string (fuel : nat) (m : memory) (count p : Z) : option (list Z) :=
  if count =? 0 then Some [] else
  match fuel, m !! p with
  | S fuel, Some c =>
      if c =? 0 then Some [] else
      match read_string fuel m (count - 1) (u32 (p + 1)) with Some s => Some (c :: s) | None => None end
  | _, _ => None
  end.

Section Render.
(** The address of ["<NULL>"], and memory apart from the buffer. *)
Context (null_string : Z) (ro : memory).

Definition word (args : list varg) : option (Z * list varg) := match args with VWord w :: args => Some (u32 w, args) | _ => None end.

(** The integer an argument stands for. *)
Definition int_arg (q : qual) (signed : bool) (args : list varg) : option (Z * list varg) :=
  match q, args with
  | (Qll | QL), VLong w :: args => Some (if signed then s64 w else u64 w, args)
  | (QZ | Qz), VWord w :: args => Some (u32 w, args)
  | Qh, VWord w :: args => Some (if signed then s16 w else u16 w, args)
  | (QNone | Ql), VWord w :: args => Some (if signed then s32 w else u32 w, args)
  | _, _ => None
  end.

Definition get_fmt (fs : list flag) (star_left : bool) : numfmt :=
  {| nf_left := star_left || flagged FMinus fs; nf_plus := flagged FPlus fs; nf_space := flagged FSpace fs;
     nf_hash := flagged FHash fs; nf_zero := flagged FZero fs |}.

(** The width, whether it asks for the left, and the precision.  A width of
    -2^31, which has no negation among the [int]s, stands for nothing. *)
Definition width_arg (w : wspec) (args : list varg) : option (Z * bool * list varg) :=
  match w with
  | NoWidth => Some (-1, false, args)
  | Width n => Some (n, false, args)
  | StarWidth =>
      match args with
      | VWord v :: args => if s32 v =? - 2 ^ 31 then None else Some (Z.abs (s32 v), s32 v <? 0, args)
      | _ => None
      end
  end.
Definition prec_arg (p : pspec) (args : list varg) : option (Z * list varg) :=
  match p with
  | NoPrec => Some (-1, args)
  | Prec n => Some (n, args)
  | DotPrec => Some (0, args)
  | StarPrec => match args with VWord v :: args => Some (Z.max (s32 v) 0, args) | _ => None end
  end.

Definition render_int (f : numfmt) (width prec : Z) (q : qual) (signed large : bool) (base : Z) (args : list varg) :
    option (list Z * list varg) :=
  match int_arg q signed args with
  | Some (v, args) => Some (format_number f signed large base width prec v, args)
  | None => None
  end.

Definition render_conv (f : numfmt) (width prec : Z) (q : qual) (c : conv) (args : list varg) : option (list Z * list varg) :=
  match c with
  | Cchar => match word args with Some (w, args) => Some (justify (nf_left f) width [u8 w], args) | None => None end
  | Cstr =>
      match word args with
      | Some (p, args) =>
          match read_string (S (size ro)) ro (u32 prec) (if p <? PAGE_SIZE then null_string else p) with
          | Some s => Some (justify (nf_left f) width s, args)
          | None => None
          end
      | None => None
      end
  | Cptr =>
      match word args with
      | Some (p, args) =>
          let '(width, f) := if width =? -1 then (8, {| nf_left := nf_left f; nf_plus := nf_plus f; nf_space := nf_space f;
            nf_hash := nf_hash f; nf_zero := true |}) else (width, f) in
          Some (format_number f false false 16 width prec p, args)
      | None => None
      end
  | Cpercent => Some (bytes "%", args)
  | Coct => render_int f width prec q false false 8 args
  | Chex large => render_int f width prec q false large 16 args
  | Cdec | Cint => render_int f width prec q true false 10 args
  | Cuns => render_int f width prec q false false 10 args
  | Cother c => Some ([chr "%"; c], args)
  end.

Definition render_item (i : item) (args : list varg) : option (list Z * list varg) :=
  match i with
  | Lit c => Some ([c], args)
  | Dir d =>
      match width_arg (d_width d) args with
      | Some (width, leftw, args) =>
          match prec_arg (d_prec d) args with
          | Some (prec, args) => render_conv (get_fmt (d_flags d) leftw) width prec (d_qual d) (d_conv d) args
          | None => None
          end
      | None => None
      end
  end.
Fixpoint render (items : list item) (args : list varg) : option (list Z) :=
  match items with
  | [] => Some []
  | i :: items =>
      match render_item i args with
      | Some (s, args) => match render items args with Some t => Some (s ++ t) | None => None end
      | None => None
      end
  end.
End Render.

(** ** Bytes in memory *)
Fixpoint write (p : Z) (l : list Z) (m : memory) : memory :=
  match l with [] => m | c :: l => write (p + 1) l (<[p := c]> m) end.

(** ** Formatted output: the code writes what the format stands for *)
(** ** Numerals *)
(** More digits never make a number smaller. *)
Lemma horner_grows base ds v : 1 <= base -> Forall (fun d => 0 <= d) ds -> 0 <= v -> v <= foldl (fun v d => v * base + d) v ds.
Proof.
  intros Hb Hd. revert v. induction Hd as [|d ds Hd _ IH]; intros v Hv; cbn; [lia|]. specialize (IH (v * base + d) ltac:(nia)). nia.
Qed.
Lemma digits_lsf_value fuel base n :
  2 <= base -> 0 <= n < base ^ Z.of_nat fuel ->
  value base (rev (digits_lsf fuel base n)) = n /\ Forall (fun d => 0 <= d < base) (digits_lsf fuel base n).
Proof.
  intros Hb. unfold value. revert n. induction fuel as [|fuel IH]; intros n Hn; simpl.
  - assert (n = 0) as -> by (simpl in Hn; lia). done.
  - destruct (Z.eqb_spec n 0) as [->|Hz]; [done|].
    assert (0 <= n / base < base ^ Z.of_nat fuel) as Hq.
    { rewrite Nat2Z.inj_succ, Z.pow_succ_r in Hn by lia. split; [apply Z.div_pos; lia|apply Z.div_lt_upper_bound; lia]. }
    destruct (IH _ Hq) as [IHv IHd]. simpl. rewrite foldl_app. simpl. rewrite IHv. split.
    + pose proof (Z.div_mod n base). lia.
    + constructor; [apply Z.mod_pos_bound; lia|done].
Qed.

Lemma digits_lsf_last fuel base n :
  2 <= base -> 0 < n < base ^ Z.of_nat fuel -> exists ds d, digits_lsf fuel base n = ds ++ [d] /\ d <> 0.
Proof.
  intros Hb. revert n. induction fuel as [|fuel IH]; intros n Hn; simpl; [simpl in Hn; lia|].
  destruct (Z.eqb_spec n 0) as [->|_]; [lia|]. destruct (decide (n < base)) as [Hs|Hs].
  - rewrite Z.div_small by lia. rewrite Z.mod_small by lia. exists [], n. destruct fuel; simpl; split; (done || lia).
  - assert (0 < n / base < base ^ Z.of_nat fuel) as Hq.
    { rewrite Nat2Z.inj_succ, Z.pow_succ_r in Hn by lia. split; [apply Z.div_str_pos; lia|apply Z.div_lt_upper_bound; lia]. }
    destruct (IH _ Hq) as (ds & d & -> & Hd). by exists (n mod base :: ds), d.
Qed.

Lemma pow_64 base : 2 <= base -> 2 ^ 64 <= base ^ Z.of_nat 64.
Proof. intros Hb. apply Z.pow_le_mono_l. lia. Qed.

Lemma to_digits_numeral base n : 2 <= base -> 0 <= n < 2 ^ 64 -> is_numeral base n (to_digits base n).
Proof.
  intros Hb Hn. pose proof (pow_64 base Hb) as Hp. unfold to_digits. destruct (Z.eqb_spec n 0) as [->|Hz].
  - split; [done|repeat constructor; lia|done].
  - destruct (digits_lsf_value 64 base n Hb ltac:(lia)) as [Hv Hd].
    destruct (digits_lsf_last 64 base n Hb ltac:(lia)) as (ds & d & E & Hd0). split; [done|by apply Forall_rev|].
    rewrite E, rev_app_distr. simpl. split; [done|]. intros ->. done.
Qed.

Lemma length_digits k base n : (length (digits_lsf k base n) <= k)%nat.
Proof. revert n. induction k as [|k IH]; intros n; simpl; [by destruct (n =? 0)|]. destruct (n =? 0); simpl; [lia|]. specialize (IH (n / base)). lia. Qed.

(** The table of digits has the characters of the digits. *)
Lemma digit_table (large : bool) d : 0 <= d < 36 ->
  (if large then large_digits else small_digits) !!! Z.to_nat d = digit_char large d.
Proof.
  intros Hd. assert (forallb (fun d => (((if large then large_digits else small_digits) !!! Z.to_nat d) =? digit_char large d))
    (Z.of_nat <$> seq 0 36) = true) as H by (by destruct large).
  rewrite forallb_forall in H. apply Z.eqb_eq, H. apply in_map_iff. exists (Z.to_nat d). split; [lia|]. apply in_seq. lia.
Qed.

Lemma digit_loop_digits (large : bool) base n fuel :
  2 <= base <= 36 -> digit_loop fuel (if large then large_digits else small_digits) base n = digit_char large <$> digits_lsf fuel base n.
Proof.
  intros Hb. revert n. induction fuel as [|fuel IH]; intros n; simpl; destruct (n =? 0); try done.
  rewrite IH. simpl. f_equal. apply digit_table. pose proof (Z.mod_pos_bound n base). lia.
Qed.

(** What the code collects in [tmp], reversed. *)
Lemma tmp_numeral (large : bool) base n :
  2 <= base <= 36 ->
  rev (if n =? 0 then [chr "0"] else digit_loop 64 (if large then large_digits else small_digits) base n) = numeral large base n.
Proof.
  intros Hb. unfold numeral, to_digits. destruct (n =? 0); [done|]. rewrite digit_loop_digits by done.
  apply eq_sym, (map_rev (digit_char large)).
Qed.

(** ** Memory *)
Lemma write_app p l l' m : write p (l ++ l') m = write (p + Z.of_nat (length l)) l' (write p l m).
Proof.
  revert p m. induction l as [|c l IH]; intros p m; simpl; [by rewrite Z.add_0_r|].
  rewrite IH. f_equal. lia.
Qed.
Lemma write_lookup_out p l m a : a < p \/ p + Z.of_nat (length l) <= a -> write p l m !! a = m !! a.
Proof.
  revert p m. induction l as [|c l IH]; intros p m Ha; simpl in *; [done|].
  rewrite IH by lia. by rewrite lookup_insert_ne by lia.
Qed.
Lemma write_lookup_in p l m (i : nat) : (i < length l)%nat -> write p l m !! (p + Z.of_nat i) = l !! i.
Proof.
  revert p m i. induction l as [|c l IH]; intros p m i Hi; simpl in *; [lia|]. destruct i as [|i].
  - rewrite write_lookup_out by lia. rewrite Z.add_0_r. by rewrite lookup_insert_eq.
  - replace (p + Z.of_nat (S i)) with (p + 1 + Z.of_nat i) by lia. apply IH. lia.
Qed.
Lemma write_is_Some p l m a : is_Some (m !! a) -> is_Some (write p l m !! a).
Proof.
  revert p m. induction l as [|c l IH]; intros p m Ha; simpl; [done|]. apply IH.
  destruct (decide (a = p)) as [->|Hne]; [rewrite lookup_insert_eq; eauto|by rewrite lookup_insert_ne by done].
Qed.


Lemma store_run p v (m : memory) : is_Some (m !! p) -> store p v m = Some (tt, <[p := v]> m).
Proof. intros H. unfold store. by rewrite decide_True. Qed.

(** ** Flags *)
Lemma truth_lor a b : truth (Z.lor a b) = truth a || truth b.
Proof.
  unfold truth. destruct (Z.eqb_spec (Z.lor a b) 0) as [E|E].
  - apply Z.lor_eq_0_iff in E as [-> ->]. done.
  - destruct (Z.eqb_spec a 0) as [->|]; [|done]. destruct (Z.eqb_spec b 0) as [->|]; done.
Qed.
Lemma has_lor_r t a b : has t (Z.lor a b) = has t a || has t b.
Proof. unfold has. by rewrite Z.land_lor_distr_r, truth_lor. Qed.
Lemma has_lor_l t a b : has (Z.lor t a) b = has t b || truth (Z.land a b).
Proof. unfold has. by rewrite Z.land_lor_distr_l, truth_lor. Qed.
Lemma has_clear t b : has (Z.land t (Z.lnot ZEROPAD)) b = truth (Z.land t (Z.land (Z.lnot ZEROPAD) b)).
Proof. unfold has. by rewrite Z.land_assoc. Qed.

(** The flags [type] gives to [number]. *)
Record flags_of (type : Z) (f : numfmt) (signed large : bool) : Prop := {
  fo_left : has type LEFT = nf_left f;
  fo_plus : has type PLUS = nf_plus f;
  fo_space : has type SPACE = nf_space f;
  fo_hash : has type SPECIAL = nf_hash f;
  fo_zero : has type ZEROPAD = nf_zero f;
  fo_sign : has type SIGN = signed;
  fo_large : has type LARGE = large
}.

(** The integer an argument stands for, and the word the code has. *)
Definition num_ok (signed : bool) (v : Z) : Prop := if signed then - 2 ^ 63 <= v < 2 ^ 63 else 0 <= v < 2 ^ 64.

Lemma s64_u64 v : - 2 ^ 63 <= v < 2 ^ 63 -> s64 (u64 v) = v.
Proof.
  intros Hv. unfold s64, u64. rewrite Z.mod_mod by lia. cbv zeta. destruct (decide (0 <= v)).
  - rewrite Z.mod_small by lia. destruct (Z.ltb_spec v (2 ^ 63)); lia.
  - assert (v mod 2 ^ 64 = v + 2 ^ 64) as -> by (symmetry; apply (Z.mod_unique _ _ (-1)); lia).
    destruct (Z.ltb_spec (v + 2 ^ 64) (2 ^ 63)); lia.
Qed.
Lemma u64_small v : 0 <= v < 2 ^ 64 -> u64 v = v.
Proof. intros. apply Z.mod_small. lia. Qed.

(** A width or a precision, or -1 for none. *)
Definition is_width (w : Z) : Prop := -1 <= w < 2 ^ 31.

Definition sign_of (f : numfmt) (signed : bool) (v : Z) : list Z :=
  if signed then
    if v <? 0 then bytes "-" else if nf_plus f then bytes "+" else if nf_space f then bytes " " else []
  else [].

(** What a number needs without padding of the field. *)
Definition number_body (f : numfmt) (signed large : bool) (base precision v : Z) : list Z :=
  sign_of f signed v ++
  (if nf_hash f then if base =? 8 then bytes "0" else if base =? 16 then (if large then bytes "0X" else bytes "0x") else [] else []) ++
  fill (chr "0") precision (numeral large base (Z.abs v)) ++ numeral large base (Z.abs v).
Lemma number_room f signed large base width precision v :
  (length (number_body f signed large base precision v) <= length (format_number f signed large base width precision v))%nat.
Proof.
  unfold number_body, format_number, justify. fold (sign_of f signed v). destruct (nf_left f), (nf_zero f); rewrite !length_app; lia.
Qed.

(** The sign and the number of [number]. *)
Lemma sign_spec (f : numfmt) (signed : bool) v size :
  num_ok signed v -> is_width size ->
  (if signed then
     if s64 (u64 v) <? 0 then (chr "-", u64 (- s64 (u64 v)), s32 (size - 1))
     else if nf_plus f then (chr "+", u64 v, s32 (size - 1))
     else if nf_space f then (chr " ", u64 v, s32 (size - 1))
     else (0, u64 v, size)
   else (0, u64 v, size)) =
  (hd 0 (sign_of f signed v), Z.abs v, size - Z.of_nat (length (sign_of f signed v))).
Proof.
  intros Hv Hw. unfold is_width in Hw. unfold sign_of. destruct signed; cbn in Hv; [|rewrite u64_small by lia; cbn; repeat f_equal; lia].
  rewrite s64_u64, s32_small by (done || lia). destruct (Z.ltb_spec v 0).
  - rewrite u64_small by lia. cbn. repeat f_equal. lia.
  - rewrite u64_small by lia. replace (Z.abs v) with v by lia. destruct (nf_plus f), (nf_space f); cbn; repeat f_equal; lia.
Qed.

(** ** Output

    The state of a call after the characters [o]: [str] has moved past them,
    and memory has those that fit. *)
Section Output.
Context (buf end_ : Z) (m0 ro : memory).
Context (Hbuf : 0 < buf) (Hend : buf - 1 <= end_ < 2 ^ 32) (Hmem : forall a, buf <= a <= end_ -> is_Some (m0 !! a)).
Context (Hro : ro ⊆ m0) (Hout : forall a, buf <= a <= end_ -> ro !! a = None).

Definition cap : nat := Z.to_nat (end_ + 1 - buf).
Definition image (o : list Z) : memory := write buf (take cap o) m0.
Definition at_ (o : list Z) : Z := buf + Z.of_nat (length o).
Definition room (o : list Z) : Prop := buf + Z.of_nat (length o) < 2 ^ 32 /\ Z.of_nat (length o) < 2 ^ 31 - 2.

Definition emits (k : Z -> M memory Z) (l : list Z) : Prop :=
  forall o, room (o ++ l) -> k (at_ o) (image o) = Some (at_ (o ++ l), image (o ++ l)).

Lemma image_put o c : at_ o <= end_ -> image (o ++ [c]) = <[at_ o := c]> (image o).
Proof.
  unfold image, at_, cap. intros H. rewrite !take_ge by (rewrite ?length_app; simpl; lia).
  by rewrite write_app.
Qed.
Lemma image_full o c : end_ < at_ o -> image (o ++ [c]) = image o.
Proof. unfold image, at_, cap. intros H. by rewrite take_app_le by lia. Qed.

Lemma emits_put c : emits (put end_ c) [c].
Proof.
  intros o Hr. unfold room in Hr. rewrite length_app in Hr. simpl in Hr.
  assert (u32 (at_ o + 1) = at_ (o ++ [c])) as Ha.
  { unfold at_. rewrite length_app. simpl. rewrite u32_small; lia. }
  unfold put. destruct (Z.leb_spec (at_ o) end_) as [H|H].
  - erewrite bind_run; [|apply store_run]; [unfold ret; by rewrite Ha, image_put|].
    apply write_is_Some, Hmem. unfold at_ in *. lia.
  - erewrite bind_run; [|done]. unfold ret. by rewrite Ha, image_full.
Qed.

Lemma emits_nil : emits ret [].
Proof. intros o _. by rewrite app_nil_r. Qed.
Lemma room_prefix o l l' : room (o ++ l ++ l') -> room (o ++ l).
Proof. unfold room. rewrite !length_app. lia. Qed.
Lemma emits_bind k k' l l' : emits k l -> emits k' l' -> emits (fun str => bind (k str) k') (l ++ l').
Proof.
  intros H H' o Hr. erewrite bind_run; [|apply H; by eapply room_prefix]. rewrite H' by (by rewrite <- app_assoc). by rewrite app_assoc.
Qed.
Lemma emits_pad c n : emits (pad end_ c n) (replicate n c).
Proof. induction n as [|n IH]; [apply emits_nil|]. apply (emits_bind (put end_ c) _ [c]); [apply emits_put|done]. Qed.
Lemma emits_puts l : emits (puts end_ l) l.
Proof. induction l as [|c l IH]; [apply emits_nil|]. apply (emits_bind (put end_ c) _ [c]); [apply emits_put|done]. Qed.
Lemma emits_if (b : bool) k k' l l' : (b = true -> emits k l) -> (b = false -> emits k' l') ->
  emits (fun str => if b then k str else k' str) (if b then l else l').
Proof. destruct b; auto. Qed.

(** A field that is padded here or later; [n] blanks leave the counter [aft]. *)
Lemma emits_field (b : bool) c (n : nat) size aft (k : Z -> Z -> M memory Z) l l' :
  (b = true -> emits (fun str => k str size) l) -> (b = false -> emits (fun str => k str aft) l') ->
  emits (fun str => bind (if b then ret (str, size) else bind (pad end_ c n str) (fun str => ret (str, aft)))
    (fun r => let '(str, size) := r : Z * Z in k str size)) (if b then l else replicate n c ++ l').
Proof.
  destruct b; intros H H'; [by apply H|].
  intros o Hr. rewrite (bind_run _ _ _ (at_ (o ++ replicate n c), aft) (image (o ++ replicate n c))).
  - rewrite (app_assoc o) in *. by apply (H' eq_refl).
  - erewrite bind_run; [done|]. apply emits_pad. by eapply room_prefix.
Qed.
Lemma ran_out_none size : - 2 ^ 31 + 1 < size < 2 ^ 31 -> Z.to_nat (ran_out size) = 0%nat /\ Z.to_nat (ran_out (ran_out size)) = 0%nat.
Proof.
  intros H. unfold ran_out. destruct (Z.ltb_spec 0 size); [done|]. rewrite (s32_small (size - 1)) by lia.
  replace (0 <? size - 1) with false by lia. rewrite s32_small by lia. lia.
Qed.
(** Only texts whose length leaves room in an [int] count. *)
Lemma emits_short k l : (Z.of_nat (length l) < 2 ^ 31 - 2 -> emits k l) -> emits k l.
Proof. intros H o Hr. apply H; [|done]. destruct Hr as [_ Hr]. rewrite length_app in Hr. lia. Qed.

Lemma emits_number f (signed large : bool) base width prec v type :
  base = 8 \/ base = 10 \/ base = 16 -> flags_of type f signed large -> num_ok signed v -> is_width width -> is_width prec ->
  emits (fun str => number str end_ (u64 v) base width prec type) (format_number f signed large base width prec v).
Proof.
  intros Hb [Fl Fp Fs Fh Fz Fsi Fla] Hv Hwd Hpr. apply emits_short. intros Hshort.
  pose proof (number_room f signed large base width prec v) as Hroom. unfold number, format_number. rewrite Fla.
  set (type' := if has type LEFT then _ else type).
  assert (has type' LEFT = nf_left f /\ has type' PLUS = nf_plus f /\ has type' SPACE = nf_space f /\ has type' SPECIAL = nf_hash f /\
    has type' SIGN = signed /\ has type' ZEROPAD = nf_zero f && negb (nf_left f)) as (-> & -> & -> & -> & -> & Hz).
  { unfold type'. rewrite Fl. destruct (nf_left f) eqn:El; rewrite ?has_clear, ?andb_true_r, ?andb_false_r.
    - split_and!; [exact Fl|exact Fp|exact Fs|exact Fh|exact Fsi|]. by rewrite Z.land_0_r.
    - done. }
  change (ZEROPAD + LEFT) with (Z.lor ZEROPAD LEFT). rewrite has_lor_r, Hz.
  assert (has type' LEFT = nf_left f) as ->. { unfold type'. rewrite Fl. destruct (nf_left f) eqn:El; [|done]. by rewrite has_clear. }
  clear type' Hz Fl Fp Fs Fh Fz Fsi Fla.
  assert ((base <? 2) || (36 <? base) = false) as -> by lia.
  rewrite (sign_spec f signed v width Hv Hwd). cbv beta iota zeta.
  set (tmp := if Z.abs v =? 0 then _ else _).
  assert (rev tmp = numeral large base (Z.abs v)) as Htmp by (apply tmp_numeral; lia).
  assert (length tmp = length (numeral large base (Z.abs v))) as Hlen by (by rewrite <- Htmp, length_rev).
  rewrite Htmp, Hlen. fold (sign_of f signed v). set (ds := numeral large base (Z.abs v)) in *. set (sign := sign_of f signed v).
  set (prefix := if nf_hash f then _ else []). set (n := Z.of_nat (length ds)).
  set (size := s32 (_ - (if prec <? n then n else prec))).
  change (number_body f signed large base prec v) with (sign ++ prefix ++ fill (chr "0") prec ds ++ ds) in Hroom.
  assert (size = width - Z.of_nat (length (sign ++ prefix ++ fill (chr "0") prec ds ++ ds))) as Hsize.
  { assert (Z.of_nat (length (sign ++ prefix ++ fill (chr "0") prec ds ++ ds)) < 2 ^ 31 - 2) as Hl by lia. revert Hl. clear Hroom Hshort. unfold is_width in *.
    unfold size, prefix, fill. rewrite !length_app, length_replicate. fold n.
    destruct (nf_hash f), (Z.ltb_spec prec n); destruct Hb as [-> |[-> | ->]], large; cbn -[Z.to_nat Z.of_nat length s32 Z.pow]; simpl length; intros Hl;
      rewrite ?(s32_small (_ - 2)), ?(s32_small (_ - 1)) by lia; rewrite s32_small; lia. }
  destruct (ran_out_none size) as [Hran1 Hran2]; [unfold is_width in *; lia|].
  assert (Z.to_nat ((if prec <? n then n else prec) - n) = Z.to_nat (prec - n)) as -> by (destruct (Z.ltb_spec prec n); lia).
  set (c := if nf_zero f && negb (nf_left f) then chr "0" else chr " ").
  set (zeros := replicate (Z.to_nat (prec - n)) (chr "0")).
  set (tail := fun sz => if nf_left f then zeros ++ ds ++ replicate (Z.to_nat sz) (chr " ")
      else replicate (Z.to_nat sz) c ++ zeros ++ ds ++ replicate (Z.to_nat (ran_out sz)) (chr " ")).
  assert (forall sz, emits (fun str =>
      bind (if truth (hd 0 sign) then put end_ (hd 0 sign) str else ret str) (fun str =>
      bind (if nf_hash f then
              if base =? 8 then put end_ (chr "0") str
              else if base =? 16 then bind (put end_ (chr "0") str) (put end_ ((if large then large_digits else small_digits) !!! 33%nat))
              else ret str
            else ret str) (fun str =>
      bind (if nf_left f then ret (str, sz) else bind (pad end_ c (Z.to_nat sz) str) (fun str => ret (str, ran_out sz))) (fun r =>
      let '(str, size) := r : Z * Z in
      bind (pad end_ (chr "0") (Z.to_nat (prec - n)) str) (fun str =>
      bind (puts end_ ds str) (pad end_ (chr " ") (Z.to_nat size)))))))
    (sign ++ prefix ++ tail sz)) as Htail.
  { intros sz. apply (emits_bind (fun str => if truth (hd 0 sign) then put end_ (hd 0 sign) str else ret str)).
    { unfold sign, sign_of. destruct signed, (v <? 0), (nf_plus f), (nf_space f); cbn -[put]; try apply emits_nil; apply emits_put. }
    apply emits_bind.
    { unfold prefix. destruct (nf_hash f); [|apply emits_nil]. destruct (base =? 8); [apply emits_put|].
      destruct (base =? 16); [|apply emits_nil]. destruct large; apply (emits_bind (put end_ _) (put end_ _) [_] [_]); apply emits_put. }
    apply (emits_field (nf_left f) c _ sz _ (fun str size => bind (pad end_ (chr "0") (Z.to_nat (prec - n)) str) (fun str =>
      bind (puts end_ ds str) (pad end_ (chr " ") (Z.to_nat size))))); intros _;
      (apply emits_bind; [apply emits_pad|]; apply emits_bind; [apply emits_puts|apply emits_pad]). }
  match goal with |- emits ?k ?l => replace l with (if nf_zero f && negb (nf_left f) || nf_left f then sign ++ prefix ++ tail size else
    replicate (Z.to_nat size) (chr " ") ++ sign ++ prefix ++ tail (ran_out size)) end.
  { apply emits_field; intros _; apply Htail. }
  unfold tail. rewrite Hran2, Hran1. cbn [replicate app]. rewrite !app_nil_r.
  fold sign prefix. unfold justify, fill. unfold fill in Hsize. fold n in Hsize |- *. fold zeros in Hsize |- *. rewrite <- Hsize. unfold c.
  destruct (nf_left f), (nf_zero f); cbn [andb orb negb]; rewrite ?app_assoc; done.
Qed.

(** Strings are outside the buffer. *)
Lemma ro_image o : ro ⊆ image o.
Proof.
  apply map_subseteq_spec. intros a c Ha. unfold image. rewrite write_lookup_out.
  - by eapply map_subseteq_spec in Ha.
  - unfold cap. rewrite length_take. destruct (decide (buf <= a <= end_)) as [Hin|]; [by rewrite Hout in Ha|lia].
Qed.

Lemma strnlen_read fuel fuel' (m : memory) count p s n :
  read_string fuel ro count p = Some s -> ro ⊆ m -> (fuel <= fuel')%nat ->
  strnlen_loop fuel' count p n m = Some (n + Z.of_nat (length s), m).
Proof.
  revert fuel' count p s n. induction fuel as [|fuel IH]; intros fuel' count p s n Hs Hm Hf; cbn in Hs.
  - destruct (Z.eqb_spec count 0) as [->|]; [|done]. injection Hs as <-. destruct fuel'; cbn; by rewrite Z.add_0_r.
  - destruct fuel' as [|fuel']; [lia|]. cbn. destruct (count =? 0) eqn:Ec; [injection Hs as <-; cbn; by rewrite Z.add_0_r|].
    destruct (ro !! p) as [c|] eqn:Ep; [|done]. erewrite bind_run; [|unfold load; erewrite bind_run; [|done]; by rewrite (proj1 (map_subseteq_spec _ _) Hm _ _ Ep)].
    destruct (c =? 0); [injection Hs as <-; cbn; by rewrite Z.add_0_r|].
    destruct (read_string fuel ro (count - 1) (u32 (p + 1))) as [s'|] eqn:Es; [|done]. injection Hs as <-.
    rewrite (IH fuel' _ _ s') by (done || lia). do 2 f_equal. cbn [length]. lia.
Qed.
Lemma strnlen_run o count p s :
  read_string (S (size ro)) ro count p = Some s -> strnlen p count (image o) = Some (Z.of_nat (length s), image o).
Proof.
  intros Hs. unfold strnlen. erewrite bind_run; [|done].
  pose proof (map_subseteq_size _ _ (ro_image o)). by rewrite (strnlen_read _ _ _ _ _ _ 0 Hs (ro_image o)) by lia.
Qed.

Lemma emits_copy fuel count p s : read_string fuel ro count p = Some s -> emits (copy end_ (length s) p) s.
Proof.
  revert count p s. induction fuel as [|fuel IH]; intros count p s Hs; cbn in Hs.
  - destruct (count =? 0); [injection Hs as <-; apply emits_nil|done].
  - destruct (count =? 0); [injection Hs as <-; apply emits_nil|]. destruct (ro !! p) as [c|] eqn:Ep; [|done].
    destruct (c =? 0); [injection Hs as <-; apply emits_nil|].
    destruct (read_string fuel ro (count - 1) (u32 (p + 1))) as [s'|] eqn:Es; [|done]. injection Hs as <-.
    intros o Hr. cbn [length copy]. change (c :: s') with ([c] ++ s') in Hr |- *. rewrite <- (emits_bind (put end_ c) _ [c] s' (emits_put c) (IH _ _ _ Es) o Hr).
    pose proof (proj1 (map_subseteq_spec _ _) (ro_image o) _ _ Ep) as Hp.
    unfold put. destruct (at_ o <=? end_); cbn [when]; [|done]. unfold load, gets, deref, ret, bind. rewrite Hp.
    by destruct (store (at_ o) c (image o)) as [[]|].
Qed.

Definition emits2 {B} (k : Z -> M memory (Z * B)) (l : list Z) (b : B) : Prop :=
  forall o, room (o ++ l) -> k (at_ o) (image o) = Some ((at_ (o ++ l), b), image (o ++ l)).

Lemma emits2_of {B} k (b : B) l : emits k l -> emits2 (fun str => bind (k str) (fun str => ret (str, b))) l b.
Proof. intros H o Hr. by erewrite bind_run; [|by apply H]. Qed.

(** A field with the text in one piece: [n] blanks before it leave the counter
    [aft], and [rest] of the counter are put after it. *)
Lemma emits_justify (leftw : bool) (n : nat) fw aft (rest : Z -> nat) width s k :
  emits k s -> n = Z.to_nat (width - Z.of_nat (length s)) -> rest fw = n -> rest aft = 0%nat ->
  emits (fun str =>
    bind (if leftw then ret (str, fw) else bind (pad end_ (chr " ") n str) (fun str => ret (str, aft))) (fun r =>
    let '(str, fw) := r : Z * Z in bind (k str) (pad end_ (chr " ") (rest fw)))) (justify leftw width s).
Proof.
  intros H -> Hl Hr. replace (justify leftw width s) with (if leftw then s ++ replicate (rest fw) (chr " ") else
    replicate (Z.to_nat (width - Z.of_nat (length s))) (chr " ") ++ s ++ replicate (rest aft) (chr " ")).
  - apply (emits_field leftw (chr " ") _ fw aft (fun str fw => bind (k str) (pad end_ (chr " ") (rest fw)))); intros _; (apply emits_bind; [done|apply emits_pad]).
  - unfold justify, fill. rewrite Hl, Hr, app_nil_r. done.
Qed.

Lemma put_char_emits flags f width w args :
  has flags LEFT = nf_left f -> is_width width ->
  emits2 (fun str => put_char end_ str flags width (VWord w :: args)) (justify (nf_left f) width [u8 (u32 w)]) args.
Proof.
  intros Hf Hw o Hr. unfold is_width in Hw. pose proof (emits_justify (nf_left f) (Z.to_nat (s32 (width - 1))) width (pre_ran_out width)
    (fun fw => Z.to_nat (s32 (fw - 1))) width _ _ (emits_put (u8 (u32 w)))) as H. specialize (H ltac:(rewrite s32_small by lia; done) eq_refl).
  specialize (H ltac:(unfold pre_ran_out; rewrite (s32_small (width - 1)) by lia; destruct (Z.ltb_spec 0 (width - 1)); rewrite s32_small; lia) o Hr).
  unfold put_char. rewrite Hf. unfold bind in H |- *. destruct (if nf_left f then _ else _) as [[[str fw] m]|]; [|done]. cbn.
  destruct (put end_ (u8 (u32 w)) str m) as [[str' m']|]; [|done]. by rewrite H.
Qed.

Lemma put_string_emits null flags f width prec w args s :
  has flags LEFT = nf_left f -> is_width width ->
  read_string (S (size ro)) ro (u32 prec) (if u32 w <? PAGE_SIZE then null else u32 w) = Some s ->
  emits2 (fun str => put_string null end_ str flags width prec (VWord w :: args)) (justify (nf_left f) width s) args.
Proof.
  intros Hf Hw Hs o Hr. unfold is_width in Hw. assert (Z.of_nat (length s) < 2 ^ 31) as Hl.
  { destruct Hr as [_ Hr]. rewrite length_app in Hr. unfold justify in Hr. destruct (nf_left f); rewrite length_app in Hr; lia. }
  set (len := Z.of_nat (length s)) in *. pose proof (emits_justify (nf_left f) (Z.to_nat (width - len)) width (len_ran_out len width)
    (fun fw => Z.to_nat (fw - len)) width s _ (emits_copy _ _ _ _ Hs) eq_refl eq_refl) as H.
  specialize (H ltac:(unfold len_ran_out; destruct (Z.ltb_spec len width); rewrite s32_small; lia) o Hr).
  unfold put_string. erewrite bind_run; [|done]. cbn [fst snd].
  erewrite bind_run; [|by apply strnlen_run]. fold len. rewrite (s32_small len) by lia. unfold len at 3. rewrite Hf, Nat2Z.id.
  unfold bind in H |- *. destruct (if nf_left f then _ else _) as [[[str fw] m]|]; [|done].
  destruct (copy end_ _ _ str m) as [[str' m']|]; [|done]. by rewrite H.
Qed.
End Output.
