(* ===== verification/VsprintfTheorems.v ===== *)
(** * Formatted output: reading a format *)
From Stdlib Require Import Ascii.
From Stdlib Require Import String.
From S2P Require Import Prelude.
From S2P Require Import LibVsprintf.
From S2P Require Import VsprintfProof.

(** ** Characters *)
Lemma all_chars (P : Z -> bool) : forallb P (Z.of_nat <$> seq 0 256) = true -> forall c, 0 <= c < 256 -> P c = true.
Proof.
  rewrite forallb_forall. intros H c Hc. apply H. apply in_map_iff. exists (Z.to_nat c). split; [lia|]. apply in_seq. lia.
Qed.
Lemma isdigit_range c : 0 <= c < 256 -> isdigit c = (chr "0" <=? c) && (c <=? chr "9").
Proof. intros Hc. apply eqb_prop. revert c Hc. apply all_chars. by vm_compute. Qed.
Lemma isxdigit_range c : 0 <= c < 256 ->
  isxdigit c = (chr "0" <=? c) && (c <=? chr "9") || (chr "A" <=? c) && (c <=? chr "F") || (chr "a" <=? c) && (c <=? chr "f").
Proof. intros Hc. apply eqb_prop. revert c Hc. apply all_chars. by vm_compute. Qed.

(** The characters of digits. *)
Lemma digit_char_facts large d : 0 <= d < 16 ->
  0 < digit_char large d < 256 /\ isxdigit (digit_char large d) = true /\ isdigit (digit_char large d) = (d <? 10) /\
  digit_value (digit_char large d) = d /\ isspace (digit_char large d) = false.
Proof.
  intros Hd. assert (forallb (fun d => let c := digit_char large d in
    (0 <? c) && (c <? 256) && isxdigit c && eqb (isdigit c) (d <? 10) && (digit_value c =? d) && negb (isspace c)) (Z.of_nat <$> seq 0 16) = true) as H
    by (by destruct large; vm_compute).
  rewrite forallb_forall in H. specialize (H d). cbv zeta in H. rewrite !andb_true_iff in H.
  destruct H as (((((H1 & H2) & H3) & H4%eqb_prop) & H5) & H6); [apply in_map_iff; exists (Z.to_nat d); split; [lia|apply in_seq; lia]|].
  split_and!; try done; try lia. by destruct (isspace _).
Qed.

(** ** Flags *)
Definition flag_bit (f : flag) : Z := match f with FMinus => LEFT | FPlus => PLUS | FSpace => SPACE | FHash => SPECIAL | FZero => ZEROPAD end.
Definition flags_mask (fs : list flag) (t : Z) : Z := foldl (fun t f => Z.lor t (flag_bit f)) t fs.

Lemma get_flags_show fs rest t :
  cur rest ∉ bytes "-+ #0" -> get_flags ((show_flag <$> fs) ++ rest) t = (flags_mask fs t, rest).
Proof.
  intros Hr. revert t. induction fs as [|f fs IH]; intros t.
  - destruct rest as [|c rest]; [done|]. cbn in Hr |- *. rewrite !not_elem_of_cons in Hr. destruct Hr as (H1 & H2 & H3 & H4 & H5 & _).
    apply Z.eqb_neq in H1, H2, H3, H4, H5. unfold chr in *. cbn in *. by rewrite H1, H2, H3, H4, H5.
  - destruct f; apply IH.
Qed.

Lemma has_mask fs t f : has (flags_mask fs t) (flag_bit f) = has t (flag_bit f) || flagged f fs.
Proof.
  unfold flags_mask, flagged. revert t. induction fs as [|g fs IH]; intros t; cbn [foldl existsb]; [by rewrite orb_false_r|].
  rewrite IH, has_lor_l, <- orb_assoc. f_equal. f_equal. by destruct f, g.
Qed.
Lemma has_mask_other fs t b : (forall f, truth (Z.land (flag_bit f) b) = false) -> has (flags_mask fs t) b = has t b.
Proof.
  intros Hb. unfold flags_mask. revert t. induction fs as [|g fs IH]; intros t; cbn [foldl]; [done|].
  by rewrite IH, has_lor_l, Hb, orb_false_r.
Qed.

(** ** Widths and precisions *)
Lemma cur_app (a b : list Z) : a <> [] -> cur (a ++ b) = cur a.
Proof. by destruct a. Qed.

Lemma skip_atoi_digits ds rest i :
  Forall (fun d => 0 <= d < 10) ds -> isdigit (cur rest) = false -> 0 <= i -> foldl (fun v d => v * 10 + d) i ds < 2 ^ 31 ->
  skip_atoi ((digit_char false <$> ds) ++ rest) i = (foldl (fun v d => v * 10 + d) i ds, rest).
Proof.
  intros Hds Hr. revert i. induction Hds as [|d ds Hd Hds IH]; intros i Hi Hb.
  - destruct rest as [|c rest]; [done|]. cbn in Hr |- *. by rewrite Hr.
  - cbn [fmap list_fmap app skip_atoi foldl]. destruct (digit_char_facts false d ltac:(lia)) as (_ & _ & H3 & _ & _).
    rewrite H3. replace (d <? 10) with true by lia. cbn [foldl] in Hb. rewrite <- IH by (done || lia). f_equal. unfold digit_char. replace (d <? 10) with true by lia.
    pose proof (horner_grows 10 ds (i * 10 + d) ltac:(lia) (Forall_impl _ _ _ Hds (fun d H => proj1 H)) ltac:(lia)).
    replace (i * 10 + (chr "0" + d) - chr "0") with (i * 10 + d) by lia. rewrite s32_small; lia.
Qed.

Lemma numeral_digits n : 0 <= n < 2 ^ 64 -> exists ds, numeral false 10 n = digit_char false <$> ds /\ ds <> [] /\
  Forall (fun d => 0 <= d < 10) ds /\ value 10 ds = n /\ (0 < n -> hd 0 ds <> 0).
Proof.
  intros Hn. destruct (to_digits_numeral 10 n ltac:(lia) Hn) as [Hv Hd [Hne Hf]]. exists (to_digits 10 n).
  split_and!; try done. intros Hp E. rewrite (Hf E) in Hv. cbn in Hv. lia.
Qed.

Lemma cur_numeral ds rest : ds <> [] -> Forall (fun d => 0 <= d < 10) ds -> cur ((digit_char false <$> ds) ++ rest) = digit_char false (hd 0 ds) /\
  0 <= hd 0 ds < 10.
Proof. intros Hne Hd. destruct Hd; [done|]. done. Qed.

(** A conversion character is no other part of a directive. *)
Definition plain (c : Z) : Prop := 0 < c < 256 /\ c ∉ bytes "-+ #0123456789*.hlLZz".

Lemma plain_digit c : plain c -> isdigit c = false.
Proof.
  intros [Hc Hn]. destruct (isdigit c) eqn:E; [|done]. destruct Hn.
  pose proof (all_chars (fun c => implb (isdigit c) (bool_decide (c ∈ bytes "-+ #0123456789*.hlLZz"))) ltac:(by vm_compute) c ltac:(lia)) as H.
  cbv beta in H. rewrite E in H. by apply bool_decide_eq_true_1 in H.
Qed.
Lemma plain_neq c b : plain c -> b ∈ bytes "-+ #0123456789*.hlLZz" -> (c =? b) = false.
Proof. intros [_ Hn] Hb. apply Z.eqb_neq. congruence. Qed.
Lemma conv_plain c : (match c with Cother c => 0 < c < 256 /\ c ∉ special | _ => True end) -> plain (show_conv c).
Proof.
  destruct c; cbn [show_conv]; try (intros _; by apply (bool_decide_unpack _)).
  - intros _. destruct large; by apply (bool_decide_unpack _).
  - intros [Hc Hs]. split; [done|]. intros H. apply Hs. unfold special.
    assert (forall b, b ∈ bytes "-+ #0123456789*.hlLZz" -> b ∈ bytes "-+ #0123456789*.hlLZzcspn%oXxdiu") as Hsub by (intros b Hb; cbn in *; set_solver).
    by apply Hsub.
Qed.

(** What may follow a width: a precision, a qualifier or a conversion. *)
Definition after_width (p : pspec) (q : qual) (c : Z) (rest : list Z) : list Z := show_prec p ++ show_qual q ++ c :: rest.
Definition after_prec (q : qual) (c : Z) (rest : list Z) : list Z := show_qual q ++ c :: rest.

Lemma cur_after_prec q c rest : plain c -> let a := cur (after_prec q c rest) in isdigit a = false /\ a <> chr "*" /\ a <> chr "." /\ a ∉ bytes "-+ #0".
Proof.
  intros Hc. destruct q; cbv zeta; cbn [after_prec show_qual bytes app cur hd]; try (by apply (bool_decide_unpack _)).
  split; [by apply plain_digit|]. destruct Hc as [_ Hc]. cbn in Hc |- *. set_solver.
Qed.
Lemma cur_after_width p q c rest : plain c -> let a := cur (after_width p q c rest) in isdigit a = false /\ a <> chr "*" /\ a ∉ bytes "-+ #0".
Proof.
  intros Hc. destruct p; cbv zeta; cbn [after_width show_prec bytes app cur hd]; try (by apply (bool_decide_unpack _)).
  destruct (cur_after_prec q c rest Hc) as (H1 & H2 & _ & H3). done.
Qed.

Lemma get_width_show w flags args rest m width leftw args' :
  (match w with Width n => 0 < n < 2 ^ 31 | _ => True end) -> isdigit (cur rest) = false -> cur rest <> chr "*" ->
  width_arg w args = Some (width, leftw, args') ->
  get_width (show_width w ++ rest) flags args m = Some ((width, if leftw then Z.lor flags LEFT else flags, rest, args'), m).
Proof.
  intros Hw H1 H2 E. destruct w as [|n|]; cbn [width_arg show_width] in *.
  - injection E as <- <- <-. unfold get_width. cbn [app]. apply Z.eqb_neq in H2. by rewrite H1, H2.
  - injection E as <- <- <-. destruct (numeral_digits n ltac:(lia)) as (ds & -> & Hne & Hd & Hv & _).
    unfold get_width. destruct (cur_numeral ds rest Hne Hd) as [-> Hh].
    destruct (digit_char_facts false (hd 0 ds) ltac:(lia)) as (_ & _ & -> & _). replace (hd 0 ds <? 10) with true by lia.
    unfold value in Hv. rewrite skip_atoi_digits by (done || lia). by rewrite Hv.
  - destruct args as [|[v|] args]; try done. destruct (Z.eqb_spec (s32 v) (- 2 ^ 31)) as [|Hmin]; [done|]. injection E as <- <- <-.
    unfold get_width. cbn. unfold ret, bind. cbn. rewrite s32_u32. pose proof (s32_range v).
    destruct (Z.ltb_spec (s32 v) 0); [by rewrite Z.abs_neq, (s32_small (- s32 v)) by lia|by rewrite Z.abs_eq by lia].
Qed.

Lemma get_precision_show p args q c rest m prec args' :
  (match p with Prec n => 0 <= n < 2 ^ 31 | _ => True end) -> plain c -> prec_arg p args = Some (prec, args') ->
  get_precision (after_width p q c rest) args m = Some ((prec, after_prec q c rest, args'), m).
Proof.
  intros Hp Hc E. destruct (cur_after_prec q c rest Hc) as (H1 & H2 & H3 & _). unfold after_width.
  destruct p as [|n| |]; cbn [prec_arg show_prec] in *.
  - injection E as <- <-. unfold get_precision. cbn [app]. fold (after_prec q c rest). apply Z.eqb_neq in H3. by rewrite H3.
  - injection E as <- <-. destruct (numeral_digits n ltac:(lia)) as (ds & -> & Hne & Hd & Hv & _). fold (after_prec q c rest).
    unfold get_precision. cbn [app cur hd adv tail]. rewrite Z.eqb_refl. destruct (cur_numeral ds (after_prec q c rest) Hne Hd) as [-> Hh].
    destruct (digit_char_facts false (hd 0 ds) ltac:(lia)) as (_ & _ & -> & _). replace (hd 0 ds <? 10) with true by lia.
    unfold value in Hv. rewrite skip_atoi_digits by (done || lia). rewrite Hv. unfold bind, ret. by rewrite Z.max_l by lia.
  - injection E as <- <-. fold (after_prec q c rest). unfold get_precision. cbn [bytes app cur hd adv tail]. rewrite Z.eqb_refl.
    change (hd 0 (after_prec q c rest)) with (cur (after_prec q c rest)). apply Z.eqb_neq in H2. by rewrite H1, H2.
  - destruct args as [|[v|] args]; try done. injection E as <- <-. unfold get_precision, bind, ret. cbn. by rewrite s32_u32.
Qed.

Lemma width_arg_range w args width leftw args' :
  (match w with Width n => 0 < n < 2 ^ 31 | _ => True end) -> width_arg w args = Some (width, leftw, args') -> is_width width.
Proof.
  unfold is_width. intros Hw E. destruct w as [|n|]; cbn in E; [by simplify_eq|simplify_eq; lia|]. destruct args as [|[v|] args]; try done.
  destruct (Z.eqb_spec (s32 v) (- 2 ^ 31)); [done|]. pose proof (s32_range v). simplify_eq. lia.
Qed.
Lemma prec_arg_range p args prec args' :
  (match p with Prec n => 0 <= n < 2 ^ 31 | _ => True end) -> prec_arg p args = Some (prec, args') -> is_width prec.
Proof.
  unfold is_width. intros Hp E. destruct p as [|n| |]; cbn in E; [by simplify_eq|simplify_eq; lia|by simplify_eq|]. destruct args as [|[v|] args]; try done.
  pose proof (s32_range v). simplify_eq. lia.
Qed.

Definition qual_char (q : qual) : Z :=
  match q with QNone => -1 | Qh => chr "h" | Ql => chr "l" | Qll | QL => chr "L" | QZ => chr "Z" | Qz => chr "z" end.
Lemma get_qualifier_show q c rest : plain c -> get_qualifier (after_prec q c rest) = (qual_char q, c :: rest).
Proof.
  intros Hc. destruct q; try done.
  - unfold get_qualifier. cbn [after_prec show_qual app cur hd]. rewrite bool_decide_eq_false_2; [done|].
    destruct Hc as [_ Hc]. cbn in Hc |- *. set_solver.
  - unfold get_qualifier. cbn [after_prec show_qual app cur hd adv tail bytes]. rewrite (plain_neq c (chr "l") Hc) by (by apply (bool_decide_unpack _)).
    by rewrite andb_false_r.
Qed.

(** ** Formatted output: theorems *)
(** ** Arguments *)
Lemma s16_range x : - 2 ^ 15 <= s16 x < 2 ^ 15.
Proof. unfold s16. pose proof (u16_range x). destruct (Z.ltb_spec (u16 x) (2 ^ 15)); lia. Qed.
Lemma s64_range x : - 2 ^ 63 <= s64 x < 2 ^ 63.
Proof. unfold s64, u64. pose proof (Z.mod_pos_bound x (2 ^ 64)). destruct (Z.ltb_spec (x mod 2 ^ 64) (2 ^ 63)); lia. Qed.
Lemma u16_u32 x : u16 (u32 x) = u16 x.
Proof. unfold u16, u32. apply Z.mod_mod_divide. by exists (2 ^ 16). Qed.
Lemma u64_s64 x : u64 (s64 x) = u64 x.
Proof.
  unfold s64, u64. destruct (Z.ltb_spec (x mod 2 ^ 64) (2 ^ 63)); [by rewrite Z.mod_mod by lia|].
  rewrite Zminus_mod, Z_mod_same_full, Z.sub_0_r, !Z.mod_mod by lia. done.
Qed.
Lemma u64_u64 x : u64 (u64 x) = u64 x.
Proof. unfold u64. by rewrite Z.mod_mod by lia. Qed.

Lemma get_number_run q (signed : bool) flags args v args' (m : memory) :
  has flags SIGN = signed -> int_arg q signed args = Some (v, args') ->
  get_number (qual_char q) flags args m = Some ((u64 v, args'), m) /\ num_ok signed v.
Proof.
  intros Hs E. destruct q, args as [|[w|w] args]; try discriminate E; injection E as <- <-; unfold get_number;
    cbn -[u64 s64 u32 s32 s16 u16]; rewrite Hs; unfold ret, bind; cbn -[u64 s64 u32 s32 s16 u16].
  all: pose proof (u32_range w); pose proof (s32_range w); pose proof (s16_range w); pose proof (u16_range w); pose proof (s64_range w).
  all: rewrite ?s32_u32, ?u16_u32; destruct signed; rewrite ?u64_s64, ?u64_u64, ?(u64_small (u32 w)), ?(u64_small (u16 w)) by lia; unfold num_ok.
  all: try (split; [done|lia]).
  - split; [|lia]. do 4 f_equal. unfold s16. by rewrite !(u16_small (u16 w)) by lia.
  - split; [done|]. unfold u64. apply Z.mod_pos_bound. lia.
  - split; [done|]. unfold u64. apply Z.mod_pos_bound. lia.
Qed.

Section Conversion.
Context (null : Z) (little : bool) (buf end_ : Z) (m0 ro : memory).
Context (Hbuf : 0 < buf) (Hend : buf - 1 <= end_ < 2 ^ 32) (Hmem : forall a, buf <= a <= end_ -> is_Some (m0 !! a)).
Context (Hro : ro ⊆ m0) (Hout : forall a, buf <= a <= end_ -> ro !! a = None).
Let emits2 {B} := @emits2 buf end_ m0 B.

Lemma put_number_emits f flags (signed large : bool) base width prec q args l args' :
  base = 8 \/ base = 10 \/ base = 16 -> flags_of flags f signed large -> is_width width -> is_width prec ->
  render_int f width prec q signed large base args = Some (l, args') ->
  emits2 (fun str => put_number end_ str base flags width prec (qual_char q) args) l args'.
Proof.
  intros Hb Hf Hw Hp E. unfold render_int in E. destruct (int_arg q signed args) as [[v a']|] eqn:Ea; [|done]. injection E as <- <-.
  intros o Hr. destruct (get_number_run q signed flags args v a' (image buf end_ m0 o) (fo_sign _ _ _ _ Hf) Ea) as [Eg Hv].
  unfold put_number. erewrite bind_run; [|exact Eg]. cbn [fst snd].
  erewrite bind_run; [|by apply (emits_number buf end_ m0 Hbuf Hend Hmem f signed large)]. done.
Qed.

Lemma other_neq c b : c ∉ special -> b ∈ special -> (c =? b) = false.
Proof. intros Hc Hb. apply Z.eqb_neq. congruence. Qed.

Lemma flags_of_lor flags f b signed large :
  flags_of flags f false false -> b = SIGN /\ signed = true /\ large = false \/ b = LARGE /\ signed = false /\ large = true ->
  flags_of (Z.lor flags b) f signed large.
Proof.
  intros [F1 F2 F3 F4 F5 F6 F7] Hb. destruct Hb as [(-> & -> & ->)|(-> & -> & ->)]; split; rewrite has_lor_l, ?F1, ?F2, ?F3, ?F4, ?F5, ?F6, ?F7; try done; apply orb_false_r.
Qed.
Lemma flags_of_zero flags f : flags_of flags f false false ->
  flags_of (Z.lor flags ZEROPAD) {| nf_left := nf_left f; nf_plus := nf_plus f; nf_space := nf_space f; nf_hash := nf_hash f; nf_zero := true |} false false.
Proof. intros [F1 F2 F3 F4 F5 F6 F7]. split; cbn; rewrite has_lor_l, ?F1, ?F2, ?F3, ?F4, ?F5, ?F6, ?F7; try apply orb_false_r. apply orb_true_r. Qed.

Lemma conversion_emits f flags width prec q c args rest l args' :
  flags_of flags f false false -> (match c with Cother c => 0 < c < 256 /\ c ∉ special | _ => True end) -> is_width width -> is_width prec ->
  render_conv null ro f width prec q c args = Some (l, args') ->
  emits2 (fun str => conversion null little buf end_ str flags width prec (qual_char q) (show_conv c :: rest) args) l args'.
Proof.
  intros Hf Hc Hwd Hpr E. destruct c as [| | | | |large| | | |c]; cbn [render_conv] in E.
  - destruct args as [|[w|] args]; try discriminate E. injection E as <- <-. by apply put_char_emits; try apply Hf.
  - destruct args as [|[w|] args]; try discriminate E. cbn [word] in E.
    destruct (read_string _ _ _ _) as [s|] eqn:Es; [|done]. injection E as <- <-. by apply (put_string_emits _ _ _ ro); try apply Hf.
  - destruct args as [|[w|] args]; try discriminate E. cbn [word] in E. pose proof (u32_range w) as Hw.
    intros o Hr. change (conversion null little buf end_ ?s flags width prec (qual_char q) (show_conv Cptr :: rest) (VWord w :: args)) with (put_pointer end_ s flags width prec (VWord w :: args)).
    unfold put_pointer. destruct (width =? -1); injection E as <- <-; cbv beta iota.
    + erewrite bind_run; [|done]. cbn [fst snd]. rewrite <- (u64_small (u32 w)) at 1 by lia.
      erewrite bind_run; [|apply (emits_number buf end_ m0 Hbuf Hend Hmem); [lia|by apply flags_of_zero|unfold num_ok; lia|by split|done|done]]. done.
    + erewrite bind_run; [|done]. cbn [fst snd]. rewrite <- (u64_small (u32 w)) at 1 by lia.
      erewrite bind_run; [|apply (emits_number buf end_ m0 Hbuf Hend Hmem); [lia|done|unfold num_ok; lia|done|done|done]]. done.
  - injection E as <- <-. apply emits2_of, emits_put; done.
  - apply (put_number_emits f flags false false 8); [lia|done|done|done|done].
  - destruct large.
    + apply (put_number_emits f _ false true 16); [lia|apply flags_of_lor; [done|by right]|done|done|done].
    + apply (put_number_emits f flags false false 16); [lia|done|done|done|done].
  - apply (put_number_emits f _ true false 10); [lia|apply flags_of_lor; [done|by left]|done|done|done].
  - apply (put_number_emits f _ true false 10); [lia|apply flags_of_lor; [done|by left]|done|done|done].
  - apply (put_number_emits f flags false false 10); [lia|done|done|done|done].
  - injection E as <- <-. destruct Hc as [Hc Hs]. cbn [show_conv]. unfold conversion. cbn [cur hd].
    rewrite !(other_neq c) by (done || by apply (bool_decide_unpack _)).
    assert (truth c = true) as -> by (unfold truth; lia). cbn [orb].
    intros o Hr. pose proof (emits_bind buf end_ m0 (put end_ (chr "%")) (put end_ c) [chr "%"] [c]
      (emits_put buf end_ m0 Hbuf Hend Hmem _) (emits_put buf end_ m0 Hbuf Hend Hmem _) o Hr) as H.
    unfold bind in H |- *. destruct (put end_ (chr "%") _ _) as [[str m]|]; [|done]. by rewrite H.
Qed.

Lemma mask_flags_of fs (leftw : bool) :
  flags_of (if leftw then Z.lor (flags_mask fs 0) LEFT else flags_mask fs 0) (get_fmt fs leftw) false false.
Proof.
  assert (forall f, has (flags_mask fs 0) (flag_bit f) = flagged f fs) as H by (intros f; by rewrite has_mask).
  pose proof (H FMinus) as H1. pose proof (H FPlus) as H2. pose proof (H FSpace) as H3. pose proof (H FHash) as H4. pose proof (H FZero) as H5.
  assert (has (flags_mask fs 0) SIGN = false) as H6 by (rewrite has_mask_other; [done|by intros []]).
  assert (has (flags_mask fs 0) LARGE = false) as H7 by (rewrite has_mask_other; [done|by intros []]).
  cbn [flag_bit] in *. destruct leftw; split; cbn; rewrite ?has_lor_l, ?H1, ?H2, ?H3, ?H4, ?H5, ?H6, ?H7; try done; try apply orb_false_r.
  apply orb_true_r.
Qed.

Lemma cur_after_flags w p q c rest :
  plain c -> (match w with Width n => 0 < n < 2 ^ 31 | _ => True end) -> cur (show_width w ++ after_width p q c rest) ∉ bytes "-+ #0".
Proof.
  intros Hc Hw. destruct w as [|n|]; cbn [show_width].
  - apply cur_after_width, Hc.
  - destruct (numeral_digits n ltac:(lia)) as (ds & -> & Hne & Hd & _ & Hf). destruct (cur_numeral ds (after_width p q c rest) Hne Hd) as [-> Hh].
    specialize (Hf ltac:(lia)). unfold digit_char. replace (hd 0 ds <? 10) with true by lia.
    change (bytes "-+ #0") with [45; 43; 32; 35; 48]. change (chr "0") with 48. rewrite !elem_of_cons, elem_of_nil. lia.
  - by apply (bool_decide_unpack _).
Qed.

Lemma directive_emits d args rest l args' o :
  item_ok (Dir d) -> render_item null ro (Dir d) args = Some (l, args') -> room buf (o ++ l) ->
  directive null little buf end_ (at_ buf o) (show_dir d ++ rest) args (image buf end_ m0 o) =
  Some ((at_ buf (o ++ l), rest, args'), image buf end_ m0 (o ++ l)).
Proof.
  intros (Hw & Hp & Hc) E Hr. cbn [render_item] in E.
  destruct (width_arg (d_width d) args) as [[[width leftw] args1]|] eqn:Ew; [|done].
  destruct (prec_arg (d_prec d) args1) as [[prec args2]|] eqn:Epr; [|done].
  pose proof (conv_plain _ Hc) as Hpl. set (c := show_conv (d_conv d)) in *.
  unfold show_dir. rewrite <- !app_assoc. fold c. change ([c] ++ rest) with (c :: rest).
  fold (after_prec (d_qual d) c rest). fold (after_width (d_prec d) (d_qual d) c rest).
  unfold directive. rewrite get_flags_show by (by apply cur_after_flags).
  destruct (cur_after_width (d_prec d) (d_qual d) c rest Hpl) as (H1 & H2 & _).
  erewrite bind_run; [|by eapply get_width_show]. cbv beta iota.
  erewrite bind_run; [|by eapply get_precision_show]. cbv beta iota. rewrite get_qualifier_show by done.
  erewrite bind_run; [|eapply conversion_emits; [apply mask_flags_of|done|by eapply width_arg_range|by eapply prec_arg_range|done|done]]. done.
Qed.

Lemma format_loop_emits items fuel args out o :
  Forall item_ok items -> render null ro items args = Some out -> (length (show items) <= fuel)%nat -> room buf (o ++ out) ->
  format_loop null little fuel buf end_ (at_ buf o) (show items) args (image buf end_ m0 o) =
  Some (at_ buf (o ++ out), image buf end_ m0 (o ++ out)).
Proof.
  intros Hok. revert fuel args out o. induction Hok as [|i items Hi Hok IH]; intros fuel args out o E Hf Hr; cbn [render] in E.
  - injection E as <-. cbn. rewrite app_nil_r. by destruct fuel.
  - destruct (render_item null ro i args) as [[l args1]|] eqn:Ei; [|done].
    destruct (render null ro items args1) as [out'|] eqn:Er; [|done]. injection E as <-.
    change (show (i :: items)) with (show_item i ++ show items) in *. rewrite length_app in Hf.
    pose proof (room_prefix buf _ _ _ Hr) as Hr1.
    destruct i as [c|d]; cbn [show_item app length] in *.
    + injection Ei as <- <-. destruct fuel as [|fuel]; [lia|]. cbn [format_loop item_ok] in *.
      rewrite (proj2 (Z.eqb_neq _ _) Hi). cbn [negb]. erewrite bind_run; [|by apply emits_put].
      rewrite (IH fuel args out') by (done || lia || (by rewrite <- app_assoc)). by rewrite <- app_assoc.
    + destruct fuel as [|fuel]; [lia|]. cbn [format_loop]. rewrite Z.eqb_refl. cbn [negb].
      erewrite bind_run; [|by apply directive_emits]. cbv beta iota.
      rewrite (IH fuel args1 out') by (done || lia || (by rewrite <- app_assoc)). by rewrite <- app_assoc.
Qed.
End Conversion.

(** ** What a call leaves in memory *)
Definition printed (size : Z) (out : list Z) : list Z := if size =? 0 then [] else take (Z.to_nat (size - 1)) out ++ [0].

Lemma terminated buf size m0 out (m := image buf (buf + size - 1) m0 out) :
  0 < buf -> 0 <= size -> (forall a, buf <= a < buf + size -> is_Some (m0 !! a)) ->
  (if at_ buf out <=? buf + size - 1 then store (at_ buf out) 0 else when (0 <? size) (store (buf + size - 1) 0)) m =
  Some (tt, write buf (printed size out) m0).
Proof.
  intros Hb Hs Hm. unfold m, image, at_, printed, cap. replace (buf + size - 1 + 1 - buf) with size by lia.
  destruct (Z.leb_spec (buf + Z.of_nat (length out)) (buf + size - 1)) as [H|H].
  - destruct (Z.eqb_spec size 0); [lia|]. rewrite store_run by (apply write_is_Some, Hm; lia).
    rewrite !take_ge by lia. by rewrite write_app.
  - destruct (Z.eqb_spec size 0) as [->|Hz]; [by rewrite take_0|]. replace (0 <? size) with true by lia. cbn [when].
    rewrite store_run by (apply write_is_Some, Hm; lia). do 2 f_equal. rewrite write_app.
    replace (Z.to_nat size) with (S (Z.to_nat (size - 1))) by lia.
    destruct (lookup_lt_is_Some_2 out (Z.to_nat (size - 1)) ltac:(lia)) as [c Hc].
    rewrite (take_S_r _ _ c) by done. rewrite write_app, length_take. cbn [write].
    replace (buf + Z.of_nat (Nat.min (Z.to_nat (size - 1)) (length out))) with (buf + size - 1) by lia. by rewrite insert_insert_eq.
Qed.

Lemma vsnprintf_run null little buf size items args (m ro : memory) out :
  0 < buf -> 0 <= size < 2 ^ 31 -> buf + size <= 2 ^ 32 -> (forall a, buf <= a < buf + size -> is_Some (m !! a)) ->
  ro ⊆ m -> (forall a, buf <= a < buf + size -> ro !! a = None) ->
  Forall item_ok items -> render null ro items args = Some out ->
  Z.of_nat (length out) < 2 ^ 31 - 2 -> buf + Z.of_nat (length out) < 2 ^ 32 ->
  vsnprintf null little buf size (show items) args m = Some (Z.of_nat (length out), write buf (printed size out) m).
Proof.
  intros Hb Hs Hbs Hm Hro Hdis Hok E Hl Hroom. unfold vsnprintf. rewrite s32_small by lia.
  replace (size <? 0) with false by lia. rewrite (u32_small (buf + size - 1)), (u32_small (buf - 1)) by lia.
  replace (buf + size - 1 <? buf - 1) with false by lia.
  assert (buf = at_ buf []) as Ha by (unfold at_; cbn; lia). assert (m = image buf (buf + size - 1) m []) as Hi by (unfold image; by rewrite take_nil).
  rewrite Ha at 3. rewrite Hi at 1.
  erewrite bind_run; [|eapply (format_loop_emits _ _ _ _ m ro); try done; [lia|intros; apply Hm; lia|intros; apply Hdis; lia]].
  cbn [app]. erewrite bind_run; [|apply terminated; [done|lia|done]].
  unfold ret. do 2 f_equal. unfold at_. replace (buf + Z.of_nat (length out) - buf) with (Z.of_nat (length out)) by lia. rewrite s32_small; lia.
Qed.

Lemma scn_result size len : 0 < size < 2 ^ 31 -> 0 <= len < 2 ^ 31 ->
  (if size <=? u32 len then s32 (size - 1) else len) = Z.min len (size - 1).
Proof. intros Hs Hl. rewrite u32_small by lia. destruct (Z.leb_spec size len); [rewrite s32_small|]; lia. Qed.

(** C22.  The formatting functions write what the format stands for: with [ro]
    the memory outside the buffer, the text the specification gives for the
    format and the arguments is put into the buffer as far as it fits, always
    terminated, no other byte of memory changes, and the result of [vsnprintf]
    is the length of the whole text; [vscnprintf] and [scnprintf] leave the same
    memory and return, for a buffer that is not empty, the number of characters
    put into it.  This holds for every format built of characters and directives
    other than [%n], with all flags and lengths and with widths and precisions
    that fit an [int], also from arguments (a width argument of -2^31, which has
    no negation, excepted), for strings that lie outside the buffer, and for
    texts of fewer than 2^31 - 2 characters that end below the top of the
    address space. *)
Theorem vsnprintf_formats null little buf size items args (m ro : memory) out :
  0 < buf -> 0 <= size < 2 ^ 31 -> buf + size <= 2 ^ 32 -> (forall a, buf <= a < buf + size -> is_Some (m !! a)) ->
  ro ⊆ m -> (forall a, buf <= a < buf + size -> ro !! a = None) ->
  Forall item_ok items -> render null ro items args = Some out ->
  Z.of_nat (length out) < 2 ^ 31 - 2 -> buf + Z.of_nat (length out) < 2 ^ 32 ->
  let after := write buf (printed size out) m in
  vsnprintf null little buf size (show items) args m = Some (Z.of_nat (length out), after) /\
  (0 < size ->
   vscnprintf null little buf size (show items) args m = Some (Z.min (Z.of_nat (length out)) (size - 1), after) /\
   scnprintf null little buf size (show items) args m = Some (Z.min (Z.of_nat (length out)) (size - 1), after)).
Proof.
  intros Hb Hs Hbs Hm Hro Hdis Hok E Hl Hroom after.
  assert (vsnprintf null little buf size (show items) args m = Some (Z.of_nat (length out), after)) as H by by apply (vsnprintf_run _ _ _ _ _ _ _ ro).
  split; [done|]. intros Hpos. unfold vscnprintf, scnprintf. erewrite bind_run by exact H. unfold ret. by rewrite scn_result by lia.
Qed.

Definition print_mem : memory :=
  write 5000 (replicate 12 7) (write 9000 (bytes "<NULL>" ++ [0]) ∅).
Definition print_items : list item :=
  [Lit (chr "x"); Dir {| d_flags := [FMinus; FPlus]; d_width := StarWidth; d_prec := NoPrec; d_qual := Ql; d_conv := Cdec |};
   Dir {| d_flags := []; d_width := NoWidth; d_prec := NoPrec; d_qual := QNone; d_conv := Cstr |}].

(** [snprintf(buf, 12, "x%-+*ld%s", 6, -42L, NULL)] *)
Lemma vsnprintf_formats_witness :
  show print_items = bytes "x%-+*ld%s" /\
  vsnprintf 9000 true 5000 12 (bytes "x%-+*ld%s") [VWord 6; VWord (-42); VWord 0] print_mem =
    Some (13, write 5000 (bytes "x-42   <NUL" ++ [0]) print_mem) /\
  scnprintf 9000 true 5000 12 (bytes "x%-+*ld%s") [VWord 6; VWord (-42); VWord 0] print_mem =
    Some (11, write 5000 (bytes "x-42   <NUL" ++ [0]) print_mem).
Proof.
  split; [reflexivity|]. change (bytes "x%-+*ld%s") with (show print_items).
  destruct (vsnprintf_formats 9000 true 5000 12 print_items [VWord 6; VWord (-42); VWord 0] print_mem (write 9000 (bytes "<NULL>" ++ [0]) ∅)
    (bytes "x-42   <NULL>")) as [H1 H2]; [lia|lia|lia| | | | |by vm_compute|by vm_compute|by vm_compute|by split; [exact H1|apply H2; lia]].
  - intros a Ha. unfold print_mem. replace a with (5000 + Z.of_nat (Z.to_nat (a - 5000))) by lia.
    rewrite write_lookup_in by (rewrite length_replicate; lia). rewrite lookup_replicate_2 by lia. eauto.
  - apply map_subseteq_spec. intros a c Ha. unfold print_mem. destruct (decide (5000 <= a < 5012)) as [Hin|Hin].
    + by rewrite write_lookup_out in Ha by (cbn; lia).
    + by rewrite write_lookup_out by (rewrite length_replicate; lia).
  - intros a Ha. by rewrite write_lookup_out by (cbn; lia).
  - repeat constructor; cbn; lia || done.
Defined.

(** A null buffer of size 0, as one uses to ask for the length of the text, is
    written to: the end [buf - 1] is the highest address. *)
Lemma null_buffer_oopses null little (m : memory) : m !! 0 = None -> vsnprintf null little 0 0 (bytes "x") [] m = None.
Proof.
  intros H. assert (store 0 (chr "x") m = None) as Hs by (unfold store; by rewrite decide_False by (rewrite H; by intros [])).
  unfold vsnprintf. change (s32 0 <? 0) with false. change (u32 (0 + 0 - 1) <? u32 (0 - 1)) with false. cbv beta iota zeta.
  unfold bind. cbn [format_loop length bytes]. change (negb _) with true. unfold put, bind.
  change (0 <=? u32 (0 + 0 - 1)) with true. cbv beta iota. unfold when. by rewrite Hs.
Qed.

(** With a size of 0 [scnprintf] and [vscnprintf] return -1. *)
Lemma scnprintf_nothing null little buf items args (m ro : memory) out :
  0 < buf < 2 ^ 32 -> ro ⊆ m -> Forall item_ok items -> render null ro items args = Some out ->
  Z.of_nat (length out) < 2 ^ 31 - 2 -> buf + Z.of_nat (length out) < 2 ^ 32 ->
  scnprintf null little buf 0 (show items) args m = Some (-1, m).
Proof.
  intros Hb Hro Hok E Hl Hr. unfold scnprintf.
  erewrite bind_run; [|apply (vsnprintf_run null little buf 0 items args m ro out); try done; try lia; intros; lia].
  unfold ret. cbn [printed Z.eqb write]. rewrite u32_small by lia. by replace (0 <=? Z.of_nat (length out)) with true by lia.
Qed.

(** A precision too large for an [int] wraps to a negative number and counts as
    0: [snprintf(buf, 12, "%.3000000000s", NULL)] writes an empty string. *)
Lemma wrapped_precision :
  vsnprintf 9000 true 5000 12 (bytes "%.3000000000s") [VWord 0] print_mem = Some (0, write 5000 [0] print_mem).
Proof. by vm_compute. Qed.
