(* ===== verification/SscanfProof.v ===== *)
(** * Formatted input reads back what formatted output writes *)
From Stdlib Require Import Ascii String.
From S2P Require Import Prelude.
From S2P Require Import LibVsprintf.
From S2P Require Import LibSscanf.
From S2P Require Import VsprintfProof.
From S2P Require Import VsprintfTheorems.

(** ** Numbers *)

(** A character that ends a number. *)
Definition separator (c : Z) : Prop :=
  0 < c < 256 /\ isxdigit c = false /\ isspace c = false /\ c <> chr "%" /\ toupper c <> chr "X".

Lemma strtou_digits (wrap : Z -> Z) bound large base ds rest v :
  (forall x, 0 <= x < bound -> wrap x = x) -> 2 <= base <= 16 -> Forall (fun d => 0 <= d < base) ds -> 0 <= v ->
  foldl (fun v d => v * base + d) v ds < bound -> isxdigit (cur rest) = false ->
  strtou_loop wrap base ((digit_char large <$> ds) ++ rest) v = (foldl (fun v d => v * base + d) v ds, rest).
Proof.
  intros Hw Hb Hd. revert v. induction Hd as [|d ds Hd Hds IH]; intros v Hv Hbd Hr; cbn [fmap list_fmap app foldl].
  - destruct rest as [|c rest]; [done|]. cbn in Hr |- *. by rewrite Hr.
  - cbn [strtou_loop]. destruct (digit_char_facts large d ltac:(lia)) as (_ & -> & _ & -> & _).
    replace (d <? base) with true by lia. cbn [andb foldl] in *.
    assert (v * base + d < bound) as Hlt.
    { pose proof (horner_grows base ds (v * base + d) ltac:(lia) (Forall_impl _ _ _ Hds (fun d H => proj1 H)) ltac:(nia)). lia. }
    rewrite Hw by nia. apply IH; [nia|done|done].
Qed.

(** A numeral has no prefix. *)
Lemma number_base_numeral large base n rest :
  base = 8 \/ base = 10 \/ base = 16 -> 0 <= n < 2 ^ 64 -> toupper (cur rest) <> chr "X" ->
  number_base (numeral large base n ++ rest) base = (base, numeral large base n ++ rest).
Proof.
  intros Hb Hn Hr. unfold number_base. destruct Hb as [-> |[-> | ->]]; cbn [Z.eqb Pos.eqb]; try done.
  destruct (to_digits_numeral 16 n ltac:(lia) Hn) as [Hv Hd [Hne Hf]]. unfold numeral.
  destruct (to_digits 16 n) as [|d ds] eqn:E; [done|]. cbn [fmap list_fmap app cur hd adv tail].
  apply Forall_cons in Hd as [Hd _]. destruct (decide (d = 0)) as [->|Hd0].
  - injection (Hf eq_refl) as ->. cbn [fmap list_fmap app]. change (toupper (hd 0 rest)) with (toupper (cur rest)).
    apply Z.eqb_neq in Hr. by rewrite Hr, andb_false_r.
  - destruct (Z.eqb_spec (digit_char large d) (chr "0")) as [Ed|]; [|done]. exfalso.
    unfold digit_char in Ed. change (chr "0") with 48 in Ed. change (chr "A") with 65 in Ed. change (chr "a") with 97 in Ed.
    destruct (Z.ltb_spec d 10), large; lia.
Qed.

Lemma sep_cur c rest : separator c -> isxdigit (cur (c :: rest)) = false /\ toupper (cur (c :: rest)) <> chr "X".
Proof. by intros (_ & ? & _ & _ & ?). Qed.

Lemma strtou_numeral (wrap : Z -> Z) bound large base n rest :
  (forall x, 0 <= x < bound -> wrap x = x) -> bound <= 2 ^ 64 -> base = 8 \/ base = 10 \/ base = 16 -> 0 <= n < bound ->
  isxdigit (cur rest) = false -> strtou_loop wrap base (numeral large base n ++ rest) 0 = (n, rest).
Proof.
  intros Hw Hbd Hb Hn Hr. destruct (to_digits_numeral base n ltac:(lia) ltac:(lia)) as [Hv Hd _]. unfold numeral.
  unfold value in Hv. rewrite (strtou_digits wrap bound) by (done || lia || (rewrite Hv; lia)). by rewrite Hv.
Qed.

Lemma simple_strtoul_numeral large base n c rest :
  base = 8 \/ base = 10 \/ base = 16 -> 0 <= n < 2 ^ 32 -> separator c ->
  simple_strtoul (numeral large base n ++ c :: rest) base = (n, c :: rest).
Proof.
  intros Hb Hn Hc. destruct (sep_cur c rest Hc) as [H1 H2]. unfold simple_strtoul. rewrite number_base_numeral by (done || lia).
  apply (strtou_numeral u32 (2 ^ 32)); try done. apply u32_small.
Qed.
Lemma simple_strtoull_numeral large base n c rest :
  base = 8 \/ base = 10 \/ base = 16 -> 0 <= n < 2 ^ 64 -> separator c ->
  simple_strtoull (numeral large base n ++ c :: rest) base = (n, c :: rest).
Proof.
  intros Hb Hn Hc. destruct (sep_cur c rest Hc) as [H1 H2]. unfold simple_strtoull. rewrite number_base_numeral by (done || lia).
  apply (strtou_numeral u64 (2 ^ 64)); try done. apply u64_small.
Qed.

(** The first character of a numeral is a digit. *)
Lemma cur_numeral_digit large base n rest :
  base = 8 \/ base = 10 \/ base = 16 -> 0 <= n < 2 ^ 64 ->
  exists d, cur (numeral large base n ++ rest) = digit_char large d /\ 0 <= d < base.
Proof.
  intros Hb Hn. destruct (to_digits_numeral base n ltac:(lia) Hn) as [_ Hd [Hne _]]. unfold numeral.
  destruct Hd as [|d ds Hd _]; [done|]. by exists d.
Qed.
Lemma digit_not_minus large d : 0 <= d < 16 -> (digit_char large d =? chr "-") = false.
Proof.
  intros Hd. apply Z.eqb_neq. unfold digit_char. change (chr "0") with 48. change (chr "A") with 65. change (chr "a") with 97. change (chr "-") with 45.
  destruct (d <? 10), large; lia.
Qed.

(** A signed number as printed. *)
Definition signed_text (v : Z) : list Z := (if v <? 0 then [chr "-"] else []) ++ numeral false 10 (Z.abs v).

Lemma simple_strtol_text v c rest :
  - 2 ^ 31 <= v < 2 ^ 31 -> separator c -> simple_strtol (signed_text v ++ c :: rest) 10 = (v, c :: rest).
Proof.
  intros Hv Hc. unfold simple_strtol, signed_text. destruct (Z.ltb_spec v 0).
  - cbn [app cur hd adv tail]. rewrite Z.eqb_refl, simple_strtoul_numeral by (done || lia). rewrite Z.abs_neq, Z.opp_involutive, s32_small; lia || done.
  - cbn [app]. destruct (cur_numeral_digit false 10 (Z.abs v) (c :: rest)) as (d & -> & Hd); [lia|lia|].
    rewrite digit_not_minus, simple_strtoul_numeral by (done || lia). rewrite Z.abs_eq, s32_small; lia || done.
Qed.
Lemma simple_strtoll_text v c rest :
  - 2 ^ 63 <= v < 2 ^ 63 -> separator c -> simple_strtoll (signed_text v ++ c :: rest) 10 = (v, c :: rest).
Proof.
  intros Hv Hc. unfold simple_strtoll, signed_text. assert (s64 v = v) as Es.
  { rewrite <- (s64_u64 v) at 2 by done. unfold s64. by rewrite u64_u64. }
  destruct (Z.ltb_spec v 0).
  - cbn [app cur hd adv tail]. rewrite Z.eqb_refl, simple_strtoull_numeral by (done || lia). by rewrite Z.abs_neq, Z.opp_involutive, Es by lia.
  - cbn [app]. destruct (cur_numeral_digit false 10 (Z.abs v) (c :: rest)) as (d & -> & Hd); [lia|lia|].
    rewrite digit_not_minus, simple_strtoull_numeral by (done || lia). by rewrite Z.abs_eq, Es by lia.
Qed.

(** ** Bytes *)
Lemma le_bytes_eq n v w : v mod 2 ^ (8 * Z.of_nat n) = w mod 2 ^ (8 * Z.of_nat n) -> le_bytes n v = le_bytes n w.
Proof.
  revert v w. induction n as [|n IH]; intros v w E; [done|]. cbn [le_bytes].
  assert (exists k, v = w + k * 256 * 2 ^ (8 * Z.of_nat n)) as [k ->].
  { replace (8 * Z.of_nat (S n)) with (8 + 8 * Z.of_nat n) in E by lia. rewrite Z.pow_add_r in E by lia.
    set (b := 2 ^ 8 * 2 ^ (8 * Z.of_nat n)) in E. assert (0 < b) as Hb by (apply Z.mul_pos_pos; apply Z.pow_pos_nonneg; lia).
    exists (v / b - w / b). pose proof (Z.div_mod v b). pose proof (Z.div_mod w b). unfold b in *. change (2 ^ 8) with 256 in *. nia. }
  f_equal.
  - unfold u8. change (2 ^ 8) with 256. replace (k * 256 * 2 ^ (8 * Z.of_nat n)) with (k * 2 ^ (8 * Z.of_nat n) * 256) by lia. by rewrite Z_mod_plus_full.
  - apply IH. rewrite !Z.shiftr_div_pow2 by lia. change (2 ^ 8) with 256.
    replace (k * 256 * 2 ^ (8 * Z.of_nat n)) with (k * 2 ^ (8 * Z.of_nat n) * 256) by lia. rewrite Z.div_add by lia. by rewrite Z_mod_plus_full.
Qed.
Lemma length_le_bytes n v : length (le_bytes n v) = n.
Proof. revert v. induction n as [|n IH]; intros v; cbn; [done|by rewrite IH]. Qed.
Lemma length_word_bytes little n v : length (word_bytes little n v) = n.
Proof. unfold word_bytes. destruct little; rewrite ?length_rev; apply length_le_bytes. Qed.
Lemma word_bytes_eq little n v w : v mod 2 ^ (8 * Z.of_nat n) = w mod 2 ^ (8 * Z.of_nat n) -> word_bytes little n v = word_bytes little n w.
Proof. intros E. unfold word_bytes. by rewrite (le_bytes_eq n v w E). Qed.

Definition mapped (m : memory) (p : Z) (n : nat) : Prop := forall a, p <= a < p + Z.of_nat n -> is_Some (m !! a).
Lemma store_bytes_run p l m : 0 <= p -> p + Z.of_nat (length l) <= 2 ^ 32 -> mapped m p (length l) -> store_bytes p l m = Some (tt, write p l m).
Proof.
  revert p m. induction l as [|c l IH]; intros p m Hp Hl Hm; [done|]. cbn [store_bytes write length] in *.
  erewrite bind_run; [|apply store_run, Hm; lia]. destruct l as [|c' l]; [done|]. cbn [length] in *.
  rewrite u32_small by lia. apply IH; [lia|cbn [length]; lia|]. intros a Ha. cbn [length] in Ha.
  rewrite lookup_insert_ne by lia. apply Hm. lia.
Qed.

(** ** Fields of a format *)
Record field := { fd_qual : qual; fd_conv : conv; fd_sep : Z }.
Definition int_conv (c : conv) : option (bool * bool * Z) :=
  match c with
  | Coct => Some (false, false, 8) | Chex large => Some (false, large, 16)
  | Cdec => Some (true, false, 10) | Cuns => Some (false, false, 10) | _ => None
  end.
Definition qual_size (q : qual) : nat := match q with Qh => 2 | Qll | QL => 8 | _ => 4 end.

(** A field, the argument printed and where to scan it to. *)
Record job := { jb_field : field; jb_arg : varg; jb_ptr : Z }.
Definition arg_word (a : varg) : Z := match a with VWord w | VLong w => w end.
Definition job_items (j : job) : list item :=
  [Dir {| d_flags := []; d_width := NoWidth; d_prec := NoPrec; d_qual := fd_qual (jb_field j); d_conv := fd_conv (jb_field j) |};
   Lit (fd_sep (jb_field j))].
Definition job_bytes (little : bool) (j : job) : list Z := word_bytes little (qual_size (fd_qual (jb_field j))) (arg_word (jb_arg j)).

Record job_ok (m : memory) (j : job) : Prop := {
  jo_conv : is_Some (int_conv (fd_conv (jb_field j)));
  jo_sep : separator (fd_sep (jb_field j));
  jo_arg : match fd_qual (jb_field j), jb_arg j with (Qll | QL), VLong _ => True | (QNone | Qh | Ql | QZ | Qz), VWord _ => True | _, _ => False end;
  jo_ptr : 0 <= jb_ptr j < 2 ^ 32;
  jo_end : jb_ptr j + Z.of_nat (qual_size (fd_qual (jb_field j))) <= 2 ^ 32;
  jo_mapped : mapped m (jb_ptr j) (qual_size (fd_qual (jb_field j)))
}.

(** The number of a job and its text. *)
Definition job_value (j : job) (signed : bool) : Z :=
  match int_arg (fd_qual (jb_field j)) signed [jb_arg j] with Some (v, _) => v | None => 0 end.
Definition number_text (signed large : bool) (base v : Z) : list Z :=
  (if signed && (v <? 0) then [chr "-"] else []) ++ numeral large base (Z.abs v).
Definition job_text (j : job) : list Z :=
  match int_conv (fd_conv (jb_field j)) with
  | Some (signed, large, base) => number_text signed large base (job_value j signed)
  | None => []
  end ++ [fd_sep (jb_field j)].

Lemma plain_number signed large base v :
  format_number (get_fmt [] false) signed large base (-1) (-1) v = number_text signed large base v.
Proof.
  unfold format_number, number_text, justify, fill. cbn [nf_left nf_plus nf_space nf_hash nf_zero get_fmt flagged existsb orb].
  assert (forall l : list Z, Z.to_nat (-1 - Z.of_nat (length l)) = 0%nat) as H by (intros; lia). rewrite !H. cbn [replicate app].
  by destruct signed, (v <? 0).
Qed.

Lemma int_arg_app q signed a args v r : int_arg q signed [a] = Some (v, r) -> int_arg q signed (a :: args) = Some (v, args).
Proof. destruct q, a; cbn; intros E; simplify_eq; done. Qed.

Lemma job_int_arg m j signed : job_ok m j -> exists v r, int_arg (fd_qual (jb_field j)) signed [jb_arg j] = Some (v, r) /\ job_value j signed = v.
Proof.
  intros J. pose proof (jo_arg _ _ J) as Ha. unfold job_value. destruct (fd_qual (jb_field j)), (jb_arg j); try done; cbn; eauto.
Qed.

Lemma job_rendered null ro m j args items : job_ok m j ->
  render null ro (job_items j ++ items) (jb_arg j :: args) =
  match render null ro items args with Some t => Some (job_text j ++ t) | None => None end.
Proof.
  intros J.
  destruct (jo_conv _ _ J) as [[[signed large] base] Ec]. destruct (job_int_arg m j signed J) as (v & r & Ea & Ev).
  apply (int_arg_app _ _ _ args) in Ea.
  assert (render_item null ro (Dir {| d_flags := []; d_width := NoWidth; d_prec := NoPrec; d_qual := fd_qual (jb_field j); d_conv := fd_conv (jb_field j) |})
    (jb_arg j :: args) = Some (number_text signed large base v, args)) as Ei.
  { cbn [render_item width_arg prec_arg d_width d_prec d_flags d_qual d_conv]. rewrite <- plain_number.
    destruct (fd_conv (jb_field j)); cbn in Ec; try discriminate Ec; injection Ec as <- <- <-; cbn [render_conv]; unfold render_int; by rewrite Ea. }
  unfold job_items. cbn [app render]. rewrite Ei. cbn [render_item].
  unfold job_text. rewrite Ec, Ev. destruct (render null ro items args); [|done]. by rewrite <- !app_assoc.
Qed.

(** ** Scanning a field *)
Lemma scan_qualifier_show q c rest : plain c -> scan_qualifier (after_prec q c rest) = (qual_char q, c :: rest).
Proof.
  intros Hc. assert (forall b, b ∈ bytes "hlLZz" -> (b =? c) = false) as Hn.
  { intros b Hb. rewrite Z.eqb_sym. apply plain_neq; [done|]. cbn in Hb |- *. set_solver. }
  destruct q; unfold scan_qualifier; cbn [after_prec show_qual app cur hd adv tail bytes].
  - rewrite bool_decide_eq_false_2; [done|]. intros H. specialize (Hn c H). by rewrite Z.eqb_refl in Hn.
  - by rewrite Hn by (by apply (bool_decide_unpack _)).
  - by rewrite Hn by (by apply (bool_decide_unpack _)).
  - done.
  - by rewrite Hn by (by apply (bool_decide_unpack _)).
  - by rewrite Hn by (by apply (bool_decide_unpack _)).
  - by rewrite Hn by (by apply (bool_decide_unpack _)).
Qed.

(** The text of a number starts with a digit or a minus sign and a digit. *)
Lemma number_text_start (signed large : bool) base v rest :
  base = 8 \/ base = 10 \/ base = 16 -> num_ok signed v ->
  let str := number_text signed large base v ++ rest in
  skip_spaces str = str /\ truth (cur str) = true /\
  bad_digit (if signed && (cur str =? chr "-") then cur (adv str) else cur str) base = false.
Proof.
  intros Hb Hv str. assert (0 <= Z.abs v < 2 ^ 64) as Ha by (destruct signed; cbn in Hv; lia).
  destruct (cur_numeral_digit large base (Z.abs v) rest Hb Ha) as (d & Hc & Hd).
  destruct (digit_char_facts large d ltac:(lia)) as (F1 & F2 & F3 & _ & F5).
  assert (bad_digit (digit_char large d) base = false) as Hbad.
  { assert (d < 10 -> digit_char large d = chr "0" + d) as Hs by (intros; unfold digit_char; by replace (d <? 10) with true by lia).
    unfold bad_digit, truth. rewrite F2, F3. change (chr "7") with 55. change (chr "0") with 48 in Hs.
    destruct Hb as [-> |[-> | ->]]; cbn [Z.eqb Pos.eqb negb andb orb]; rewrite ?orb_false_r, ?andb_false_r; destruct (Z.ltb_spec d 10); lia. }
  unfold str, number_text in *. destruct (signed && (v <? 0)) eqn:Es.
  - apply andb_true_iff in Es as [-> Es]. cbn [app cur hd adv tail andb]. rewrite Z.eqb_refl. split_and!; [done|done|].
    change (hd 0 (numeral large base (Z.abs v) ++ rest)) with (cur (numeral large base (Z.abs v) ++ rest)). by rewrite Hc.
  - cbn [app]. destruct (numeral large base (Z.abs v) ++ rest) as [|c l] eqn:E; cbn [cur hd] in *; [lia|]. subst c. cbn [skip_spaces].
    rewrite F5, digit_not_minus, andb_false_r by lia. split_and!; [done|unfold truth; lia|done].
Qed.

Lemma scan_value_job m j (signed large : bool) base rest :
  job_ok m j -> int_conv (fd_conv (jb_field j)) = Some (signed, large, base) ->
  scan_value (qual_char (fd_qual (jb_field j))) signed (number_text signed large base (job_value j signed) ++ fd_sep (jb_field j) :: rest) base =
  (qual_size (fd_qual (jb_field j)), job_value j signed, fd_sep (jb_field j) :: rest).
Proof.
  intros J Ec. pose proof (jo_sep _ _ J) as Hsep. pose proof (jo_arg _ _ J) as Ha. unfold job_value.
  assert (base = 8 \/ base = 10 \/ base = 16) as Hb by (destruct (fd_conv (jb_field j)); cbn in Ec; simplify_eq; lia).
  assert (signed = true -> large = false /\ base = 10) as Hs by (destruct (fd_conv (jb_field j)); cbn in Ec; by simplify_eq).
  assert (forall v, 0 <= v -> number_text signed large base v = numeral large base v) as Hpos.
  { intros v Hv. unfold number_text. replace (v <? 0) with false by lia. by rewrite andb_false_r, Z.abs_eq. }
  assert (forall v, signed = true -> number_text signed large base v = signed_text v) as Hneg.
  { intros v E. destruct (Hs E) as [-> ->]. by rewrite E. }
  destruct (fd_qual (jb_field j)), (jb_arg j) as [w|w]; try done; cbn -[number_text u32 s32 s16 u16 s64 u64];
    pose proof (u32_range w); pose proof (s32_range w); pose proof (u16_range w); pose proof (s16_range w); pose proof (s64_range w).
  all: assert (0 <= u64 w < 2 ^ 64) by (apply Z.mod_pos_bound; lia).
  all: unfold scan_value; cbn [qual_char Z.eqb Pos.eqb orb].
  all: destruct signed.
  all: cbn -[number_text u32 s32 s16 u16 s64 u64 simple_strtol simple_strtoul simple_strtoll simple_strtoull].
  all: try (destruct (Hs eq_refl) as [-> ->]; rewrite Hneg by done; rewrite ?simple_strtol_text, ?simple_strtoll_text by (done || lia); done).
  all: rewrite Hpos by lia; rewrite ?simple_strtoul_numeral, ?simple_strtoull_numeral by (done || lia); done.
Qed.

Lemma job_num_ok m j (signed : bool) : job_ok m j -> num_ok signed (job_value j signed).
Proof.
  intros J. destruct (job_int_arg m j signed J) as (v & r & E & ->).
  assert (has (if signed then SIGN else 0) SIGN = signed) as Hs by (by destruct signed).
  apply (get_number_run _ _ _ _ _ _ ∅ Hs E).
Qed.

Lemma int_conv_plain c x : int_conv c = Some x -> plain (show_conv c).
Proof. intros E. apply conv_plain. by destruct c. Qed.

Lemma scan_conversion_int little buf q fw str c rest args num signed large base :
  int_conv c = Some (signed, large, base) ->
  scan_conversion little buf q fw str (show_conv c :: rest) args num = scan_int little q signed base str rest args num.
Proof. destruct c; cbn; intros E; simplify_eq; try done. by destruct large. Qed.

(** The value is, in the bytes stored, the argument. *)
Lemma job_stored little m j (signed : bool) :
  job_ok m j -> word_bytes little (qual_size (fd_qual (jb_field j))) (job_value j signed) = job_bytes little j.
Proof.
  intros J. pose proof (jo_arg _ _ J) as Ha. unfold job_bytes, job_value. apply word_bytes_eq.
  destruct (fd_qual (jb_field j)), (jb_arg j) as [w|w]; try done; cbn [int_arg qual_size arg_word]; destruct signed.
  all: change (8 * Z.of_nat 4) with 32; change (8 * Z.of_nat 2) with 16; change (8 * Z.of_nat 8) with 64.
  all: try apply u32_s32; try apply (u64_s64 w); try (unfold u32, u64, u16; by rewrite Z.mod_mod by lia).
  unfold s16, u16. destruct (Z.ltb_spec (w mod 2 ^ 16) (2 ^ 15)); [by rewrite Z.mod_mod by lia|].
  rewrite Zminus_mod, Z_mod_same_full, Z.sub_0_r, !Z.mod_mod by lia. done.
Qed.

(** ** Texts in memory *)
Definition text_at (m : memory) (p : Z) (l : list Z) : Prop := forall i c, (l ++ [0]) !! i = Some c -> m !! (p + Z.of_nat i) = Some c.

Lemma text_at_write p l m : text_at (write p (l ++ [0]) m) p l.
Proof. intros i c H. rewrite write_lookup_in by by eapply lookup_lt_Some. done. Qed.
Lemma text_at_app m p l l' : text_at m p (l ++ l') -> text_at m (p + Z.of_nat (length l)) l'.
Proof.
  intros H i c E. replace (p + Z.of_nat (length l) + Z.of_nat i) with (p + Z.of_nat (length l + i)) by lia. apply H.
  rewrite <- app_assoc, lookup_app_r by lia. by replace (length l + i - length l)%nat with i by lia.
Qed.
(** A write elsewhere leaves a text as it is. *)
Definition apart (p : Z) (n : nat) (q : Z) (k : nat) : Prop := q + Z.of_nat k <= p \/ p + Z.of_nat n <= q.
Lemma text_at_apart m p l q b : text_at m p l -> apart p (S (length l)) q (length b) -> text_at (write q b m) p l.
Proof.
  intros H Ha i c E. pose proof (lookup_lt_Some _ _ _ E) as Hi. rewrite length_app in Hi. cbn in Hi.
  unfold apart in Ha. rewrite write_lookup_out by lia. by apply H.
Qed.
Lemma text_at_load m p l : text_at m p l -> load p m = Some (cur l, m).
Proof.
  intros H. unfold load. erewrite bind_run by done. replace (m !! p) with (Some (cur l)); [done|]. symmetry.
  rewrite <- (Z.add_0_r p). apply (H O). by destruct l.
Qed.
Lemma text_at_size m p l : text_at m p l -> (length l < size m)%nat.
Proof.
  intros H. rewrite <- (size_dom (D := gset Z) m). enough (size (list_to_set (seqZ p (Z.of_nat (S (length l)))) : gset Z) <= size (dom m))%nat as Hs.
  { rewrite size_list_to_set, length_seqZ in Hs by apply NoDup_seqZ. lia. }
  apply subseteq_size. intros a Ha%elem_of_list_to_set%elem_of_seqZ. apply elem_of_dom.
  destruct (lookup_lt_is_Some_2 (l ++ [0]) (Z.to_nat (a - p))) as [c Hc]; [rewrite length_app; cbn; lia|].
  exists c. replace a with (p + Z.of_nat (Z.to_nat (a - p))) by lia. by apply H.
Qed.

Lemma string_loop_run m l : forall p fuel, text_at m p l -> Forall (fun c => c <> 0) l -> 0 <= p -> p + Z.of_nat (length l) < 2 ^ 32 ->
  (length l < fuel)%nat -> string_loop fuel p m = Some (l, m).
Proof.
  induction l as [|c l IH]; intros p fuel H Hn Hp Hl Hf; (destruct fuel as [|fuel]; [lia|]); cbn [string_loop];
    (erewrite bind_run by by eapply text_at_load); cbn [cur hd length] in *; [done|].
  apply Forall_cons in Hn as [Hc Hn]. rewrite (proj2 (Z.eqb_neq _ _) Hc), (u32_small (p + 1)) by lia.
  erewrite bind_run; [done|]. apply IH; [|done|lia|lia|lia]. apply (text_at_app m p [c] l H).
Qed.
Lemma string_at_run m p l : text_at m p l -> Forall (fun c => c <> 0) l -> 0 <= p -> p + Z.of_nat (length l) < 2 ^ 32 -> string_at p m = Some (l, m).
Proof.
  intros H Hn Hp Hl. unfold string_at. erewrite bind_run by done. apply string_loop_run; try done. pose proof (text_at_size m p l H). lia.
Qed.
Lemma advanced_app p l l' : 0 <= p -> p + Z.of_nat (length (l ++ l')) < 2 ^ 32 -> advanced p (l ++ l') l' = p + Z.of_nat (length l).
Proof. rewrite length_app. intros H H'. unfold advanced. rewrite length_app, u32_small by lia. lia. Qed.
Lemma advanced_self p l : 0 <= p < 2 ^ 32 -> advanced p l l = p.
Proof. intros H. unfold advanced. rewrite Nat.sub_diag, u32_small; lia. Qed.

Lemma number_text_nonzero (signed large : bool) base v :
  base = 8 \/ base = 10 \/ base = 16 -> num_ok signed v -> Forall (fun c => c <> 0) (number_text signed large base v).
Proof.
  intros Hb Hv. assert (0 <= Z.abs v < 2 ^ 64) as Ha by (destruct signed; cbn in Hv; lia). unfold number_text, numeral.
  destruct (to_digits_numeral base (Z.abs v) ltac:(lia) Ha) as [_ Hd _]. apply Forall_app. split; [by destruct (signed && (v <? 0)); repeat constructor|].
  apply Forall_fmap. eapply Forall_impl; [exact Hd|]. intros d Hd'. cbn beta in Hd'.
  destruct (digit_char_facts large d ltac:(lia)) as (Hc & _). unfold compose. lia.
Qed.
Lemma job_text_nonzero m j : job_ok m j -> Forall (fun c => c <> 0) (job_text j).
Proof.
  intros J. destruct (jo_conv _ _ J) as [[[signed large] base] Ec]. unfold job_text. rewrite Ec. apply Forall_app. split.
  - apply number_text_nonzero; [destruct (fd_conv (jb_field j)); cbn in Ec; simplify_eq; lia|by eapply job_num_ok].
  - repeat constructor. destruct (jo_sep _ _ J) as [? _]. lia.
Qed.

(** A round of the loop on a conversion. *)
Lemma scan_number little buf m j p (rest fmt : list Z) args num signed large base
    (text := number_text signed large base (job_value j signed)) (sep := fd_sep (jb_field j)) :
  job_ok m j -> int_conv (fd_conv (jb_field j)) = Some (signed, large, base) -> text_at m p (text ++ sep :: rest) ->
  Forall (fun c => c <> 0) (text ++ sep :: rest) -> 0 <= p -> p + Z.of_nat (length (text ++ sep :: rest)) < 2 ^ 32 ->
  scan_round little buf p (chr "%" :: after_prec (fd_qual (jb_field j)) (show_conv (fd_conv (jb_field j))) fmt) (VWord (jb_ptr j) :: args) num m =
  Some (Next (p + Z.of_nat (length text)) fmt args (num + 1), write (jb_ptr j) (job_bytes little j) m).
Proof.
  intros J Ec Ht Hn Hp Hl. pose proof (int_conv_plain _ _ Ec) as Hpl.
  assert (base = 8 \/ base = 10 \/ base = 16) as Hb by (destruct (fd_conv (jb_field j)); cbn in Ec; simplify_eq; lia).
  destruct (number_text_start signed large base (job_value j signed) (sep :: rest) Hb (job_num_ok m j signed J)) as (S1 & S2 & S3). fold text in S1, S2, S3.
  set (c := show_conv (fd_conv (jb_field j))) in *. set (q := fd_qual (jb_field j)) in *.
  pose proof (string_at_run m p _ Ht Hn Hp Hl) as Es. destruct (cur_after_prec q c fmt Hpl) as (A1 & A2%Z.eqb_neq & _).
  unfold scan_round. erewrite bind_run by exact Es. set (F := after_prec q c fmt) in *. change (isspace (cur (chr "%" :: F))) with false. cbv beta iota zeta.
  rewrite advanced_self by lia. change (cur (chr "%" :: F)) with (chr "%"). change (adv (chr "%" :: F)) with F. rewrite Z.eqb_refl. cbn [negb andb].
  change (truth (chr "%")) with true. cbn [negb]. unfold scan_directive. erewrite bind_run by exact Es. unfold F in *. rewrite A2, A1, scan_qualifier_show by done.
  rewrite S2. cbn [cur hd]. assert (truth c = true) as -> by (destruct Hpl; unfold truth; lia). cbn [negb orb].
  cbv beta iota. unfold c. rewrite (scan_conversion_int _ _ _ _ _ _ _ _ _ signed large base) by done. unfold scan_int. erewrite bind_run by exact Es.
  rewrite S1. cbv zeta. rewrite S3. unfold q, text, sep. rewrite (scan_value_job m j signed large base rest J Ec). erewrite bind_run; [|done]. cbn [fst snd].
  rewrite (u32_small (jb_ptr j)) by (pose proof (jo_ptr _ _ J); lia). rewrite (job_stored little m j signed J).
  erewrite bind_run; [|apply store_bytes_run; unfold job_bytes; rewrite ?length_word_bytes; apply J]. by rewrite advanced_app.
Qed.

Lemma scan_job little fuel buf m j p rest fmt args num :
  job_ok m j -> (2 <= fuel)%nat -> text_at m p (job_text j ++ rest) -> Forall (fun c => c <> 0) rest -> 0 <= p ->
  p + Z.of_nat (length (job_text j ++ rest)) < 2 ^ 32 ->
  apart p (S (length (job_text j ++ rest))) (jb_ptr j) (qual_size (fd_qual (jb_field j))) ->
  scan_loop little fuel buf p (show (job_items j) ++ fmt) (VWord (jb_ptr j) :: args) num m =
  scan_loop little (fuel - 2) buf (p + Z.of_nat (length (job_text j))) fmt args (num + 1) (write (jb_ptr j) (job_bytes little j) m).
Proof.
  intros J Hf Ht Hn Hp Hl Ha. destruct fuel as [|[|fuel]]; [lia..|]. replace (S (S fuel) - 2)%nat with fuel by lia.
  pose proof (Forall_app_2 _ _ _ (job_text_nonzero m j J) Hn) as Hall. destruct (jo_conv _ _ J) as [[[signed large] base] Ec].
  unfold job_text in *. rewrite Ec in *. set (text := number_text signed large base (job_value j signed)) in *. set (sep := fd_sep (jb_field j)) in *.
  rewrite (length_app text [sep]). rewrite <- app_assoc in *. cbn [app length] in *.
  assert (show (job_items j) ++ fmt = chr "%" :: after_prec (fd_qual (jb_field j)) (show_conv (fd_conv (jb_field j))) (sep :: fmt)) as ->.
  { unfold show, job_items, after_prec, sep. cbn -[show_qual chr]. rewrite ?app_nil_r, <- ?app_assoc. cbn -[show_qual chr]. by rewrite <- ?app_assoc. }
  pose proof (scan_number little buf m j p rest (sep :: fmt) args num signed large base J Ec Ht Hall Hp Hl) as Hround. fold text in Hround.
  set (m1 := write (jb_ptr j) (job_bytes little j) m) in *.
  assert (text_at m1 (p + Z.of_nat (length text)) (sep :: rest)) as Ht1.
  { apply text_at_app. apply text_at_apart; [done|]. unfold job_bytes. by rewrite length_word_bytes. }
  assert (truth (cur (text ++ sep :: rest)) = true) as Hc.
  { destruct (text ++ sep :: rest) as [|c l] eqn:E; [by destruct text|]. apply Forall_cons in Hall as [Hc _]. cbn. unfold truth. lia. }
  cbn [scan_loop]. change (truth (cur (chr "%" :: _))) with true. cbv beta iota. erewrite bind_run by by eapply text_at_load. rewrite Hc.
  erewrite bind_run by exact Hround. cbv beta iota. destruct (jo_sep _ _ J) as (Hs0 & _ & Hs1 & Hs2%Z.eqb_neq & _). fold sep in Hs0, Hs1, Hs2.
  assert (truth sep = true) as Hts by (unfold truth; lia). cbn [scan_loop cur hd]. rewrite Hts. erewrite bind_run by by eapply text_at_load. cbn [cur hd]. rewrite Hts.
  rewrite length_app in Hl. cbn [length] in Hl. apply Forall_app in Hall as [_ Hall].
  erewrite bind_run; [|unfold scan_round; erewrite bind_run by (apply string_at_run; [exact Ht1|done|lia|cbn [length]; lia])].
  2:{ cbn [cur hd]. rewrite Hs1. cbv beta iota zeta. rewrite advanced_self by lia. cbn [cur hd adv tail]. rewrite Hs2, Hts, Z.eqb_refl. cbn [negb andb]. done. }
  cbv beta iota. rewrite u32_small by lia. f_equal. lia.
Qed.

Lemma job_ok_write m p l j : job_ok m j -> job_ok (write p l m) j.
Proof. intros [J1 J2 J3 J4 J5 J6]. split; try done. intros a Ha. by apply write_is_Some, J6. Qed.

Definition jobs_items (jobs : list job) : list item := concat (job_items <$> jobs).
Definition jobs_text (jobs : list job) : list Z := concat (job_text <$> jobs).
Definition scanned_into (little : bool) (jobs : list job) (m : memory) : memory :=
  foldl (fun m j => write (jb_ptr j) (job_bytes little j) m) m jobs.

Lemma show_app l l' : show (l ++ l') = show l ++ show l'.
Proof. unfold show. by rewrite fmap_app, concat_app. Qed.

Definition outside (p : Z) (n : nat) (j : job) : Prop := apart p n (jb_ptr j) (qual_size (fd_qual (jb_field j))).

Lemma jobs_text_nonzero m jobs : Forall (job_ok m) jobs -> Forall (fun c => c <> 0) (jobs_text jobs).
Proof. intros H. apply Forall_concat, Forall_fmap. eapply Forall_impl; [exact H|]. intros j J. by eapply job_text_nonzero. Qed.

Lemma scan_jobs little buf jobs : forall fuel p m num,
  Forall (job_ok m) jobs -> (length (show (jobs_items jobs)) <= fuel)%nat -> text_at m p (jobs_text jobs) -> 0 <= p ->
  p + Z.of_nat (length (jobs_text jobs)) < 2 ^ 32 -> Forall (outside p (S (length (jobs_text jobs)))) jobs ->
  scan_loop little fuel buf p (show (jobs_items jobs)) ((fun j => VWord (jb_ptr j)) <$> jobs) num m =
  Some (num + Z.of_nat (length jobs), scanned_into little jobs m).
Proof.
  induction jobs as [|j jobs IH]; intros fuel p m num Hok Hf Ht Hp Hl Ha.
  - cbn. rewrite Z.add_0_r. by destruct fuel.
  - apply Forall_cons in Hok as [J Hok], Ha as [Hj Ha]. pose proof (jobs_text_nonzero m jobs Hok) as Hn.
    change (jobs_items (j :: jobs)) with (job_items j ++ jobs_items jobs) in *. change (jobs_text (j :: jobs)) with (job_text j ++ jobs_text jobs) in *.
    rewrite show_app in *. cbn [fmap list_fmap].
    assert (2 <= length (show (job_items j)))%nat as H2. { unfold show, job_items, show_dir. cbn -[show_qual]. rewrite !length_app. cbn. lia. }
    rewrite length_app in Hf. rewrite (scan_job little fuel buf m j p (jobs_text jobs)) by (done || lia). rewrite !length_app in *.
    rewrite IH; [|eapply Forall_impl; [exact Hok|]; intros; by apply job_ok_write|lia| |lia|lia|eapply Forall_impl; [exact Ha|]; unfold outside, apart; intros i Hi; cbn beta in *; lia].
    + do 2 f_equal. cbn [length]. lia.
    + apply text_at_app, text_at_apart; [done|]. unfold job_bytes. by rewrite length_word_bytes, length_app.
Qed.

Lemma jobs_rendered null ro m jobs : Forall (job_ok m) jobs -> render null ro (jobs_items jobs) (jb_arg <$> jobs) = Some (jobs_text jobs).
Proof.
  intros Hok. induction Hok as [|j jobs J Hok IH]; [done|]. unfold jobs_items, jobs_text in *. cbn [fmap list_fmap concat].
  rewrite (job_rendered null ro m) by done. by rewrite IH.
Qed.
Lemma jobs_items_ok m jobs : Forall (job_ok m) jobs -> Forall item_ok (jobs_items jobs).
Proof.
  intros Hok. induction Hok as [|j jobs J Hok IH]; [constructor|]. unfold jobs_items in *. cbn [fmap list_fmap concat]. apply Forall_app. split; [|done].
  repeat constructor; cbn; [destruct (jo_conv _ _ J) as [x E]; by destruct (fd_conv (jb_field j))|apply (jo_sep _ _ J)].
Qed.

(** C23.  What [snprintf] writes [sscanf] reads back with the same format: for
    any sequence of integer conversions, [%d], [%u], [%o], [%x] or [%X] of any
    length without flags, width or precision, each followed by a separator (a
    character that is no hexadecimal digit, blank, [x], [X] or [%]), and a buffer that holds the
    whole text, scanning the buffer stores in the pointed-to variables exactly
    the bytes of the arguments, one after the other, and counts them all.  The
    variables must lie outside the text, since each is stored while the rest is
    still to be read. *)
Theorem scanf_inverts_printf null little buf size jobs (m : memory) :
  0 < buf -> size < 2 ^ 31 - 2 -> buf + size <= 2 ^ 32 -> mapped m buf (Z.to_nat size) -> Forall (job_ok m) jobs ->
  Z.of_nat (length (jobs_text jobs)) < size -> Forall (outside buf (S (length (jobs_text jobs)))) jobs ->
  let fmt := show (jobs_items jobs) in
  let m' := write buf (jobs_text jobs ++ [0]) m in
  snprintf null little buf size fmt (jb_arg <$> jobs) m = Some (Z.of_nat (length (jobs_text jobs)), m') /\
  sscanf little buf fmt ((fun j => VWord (jb_ptr j)) <$> jobs) m' = Some (Z.of_nat (length jobs), scanned_into little jobs m').
Proof.
  intros Hb Hs Hbs Hm Hok Hl Hout fmt m'. split.
  - unfold snprintf, fmt. rewrite (vsnprintf_run null little buf size _ _ m ∅ (jobs_text jobs)); try done; try lia.
    + unfold printed. replace (size =? 0) with false by lia. by rewrite take_ge by lia.
    + intros a Ha. apply Hm. lia.
    + apply map_empty_subseteq.
    + by eapply jobs_items_ok.
    + by eapply jobs_rendered.
  - unfold sscanf, vsscanf, fmt. rewrite scan_jobs; [done| |done|apply text_at_write|lia|lia|done]. eapply Forall_impl; [exact Hok|]. intros. by apply job_ok_write.
Qed.

(** "%d:%hx,%llo;" with -5, 0xbeef and 2^63. *)
Definition demo_jobs : list job :=
  [{| jb_field := {| fd_qual := QNone; fd_conv := Cdec; fd_sep := chr ":" |}; jb_arg := VWord (-5); jb_ptr := 9000 |};
   {| jb_field := {| fd_qual := Qh; fd_conv := Chex false; fd_sep := chr "," |}; jb_arg := VWord 48879; jb_ptr := 9004 |};
   {| jb_field := {| fd_qual := Qll; fd_conv := Coct; fd_sep := chr ";" |}; jb_arg := VLong (2 ^ 63); jb_ptr := 9006 |}].
Definition scan_mem : memory := write 5000 (replicate 40 7) (write 9000 (replicate 14 7) ∅).

Lemma scan_mem_mapped p n : (5000 <= p /\ p + Z.of_nat n <= 5040) \/ (9000 <= p /\ p + Z.of_nat n <= 9014) -> mapped scan_mem p n.
Proof.
  intros H a Ha. unfold scan_mem. destruct H as [H|H].
  - replace a with (5000 + Z.of_nat (Z.to_nat (a - 5000))) by lia. rewrite write_lookup_in by (rewrite length_replicate; lia).
    rewrite lookup_replicate_2 by lia. eauto.
  - apply write_is_Some. replace a with (9000 + Z.of_nat (Z.to_nat (a - 9000))) by lia. rewrite write_lookup_in by (rewrite length_replicate; lia).
    rewrite lookup_replicate_2 by lia. eauto.
Qed.

Lemma scanf_inverts_printf_witness :
  show (jobs_items demo_jobs) = bytes "%d:%hx,%llo;" /\ jobs_text demo_jobs = bytes "-5:beef,1000000000000000000000;" /\
  exists m', sscanf true 5000 (bytes "%d:%hx,%llo;") [VWord 9000; VWord 9004; VWord 9006] m' = Some (3, scanned_into true demo_jobs m').
Proof.
  split; [reflexivity|]. split; [reflexivity|]. exists (write 5000 (jobs_text demo_jobs ++ [0]) scan_mem).
  destruct (scanf_inverts_printf 9000 true 5000 40 demo_jobs scan_mem) as [_ H]; [lia|lia|lia|apply scan_mem_mapped; lia| |reflexivity| |exact H].
  - repeat constructor; cbn; try (apply scan_mem_mapped; cbn; lia); try reflexivity; try lia; try (eexists; reflexivity).
    all: vm_compute; congruence.
  - repeat (apply Forall_cons; split; [vm_compute; right; congruence|]). apply Forall_nil. exact I.
Defined.

(** A variable inside the text is read back: with the first of "1:22:" stored
    over the text itself, the second conversion finds no number. *)
Lemma stored_into_text :
  let m := write 5000 (bytes "1:22:" ++ [0]) (write 9000 (replicate 4 7) ∅) in
  option_map fst (sscanf true 5000 (bytes "%d:%d:") [VWord 9000; VWord 9000] m) = Some 2 /\
  option_map fst (sscanf true 5000 (bytes "%d:%d:") [VWord 5000; VWord 9000] m) = Some 1.
Proof. split; by vm_compute. Qed.
