(* ===== verification/RadixTree.v ===== *)
(** * lib/radix-tree.c: maps from indices to items

    A tree of nodes of 64 slots; the slots of the lowest level hold the items.
    The state is the tree the routines are called for, the node objects in
    memory, the slab cache they come from and the per-CPU pool of preloaded
    nodes.  NULL is 0.  A node that goes back to the cache keeps its contents,
    and the constructor of the cache runs only for objects that are new: a
    routine that frees a node must leave it as it was constructed. *)
From S2P Require Import Prelude.

Definition RADIX_TREE_MAP_SHIFT : Z := 6.
Definition RADIX_TREE_TAGS : Z := 2.
Definition RADIX_TREE_MAP_SIZE : Z := Z.shiftl 1 RADIX_TREE_MAP_SHIFT.
Definition RADIX_TREE_MAP_MASK : Z := RADIX_TREE_MAP_SIZE - 1.
Definition RADIX_TREE_TAG_LONGS : Z := (RADIX_TREE_MAP_SIZE + 32 - 1) / 32.
Definition RADIX_TREE_INDEX_BITS : Z := 32.
Definition RADIX_TREE_MAX_PATH : Z := RADIX_TREE_INDEX_BITS / RADIX_TREE_MAP_SHIFT + 2.
Definition __GFP_WAIT : Z := 16.

Record radix_tree_node := { count : Z; slots : list Z; tags : list (list Z) }.
#[export] Instance eta_radix_tree_node : Eta radix_tree_node := fun n => Build_radix_tree_node (count n) (slots n) (tags n).
Record radix_tree_root := { height : Z; gfp_mask : Z; rnode : Z }.
#[export] Instance eta_radix_tree_root : Eta radix_tree_root := fun r => Build_radix_tree_root (height r) (gfp_mask r) (rnode r).
(** The free objects of the cache and the preloaded nodes, the next to be
    taken first ([nr] is the length of the second list); the outcomes of the
    allocations to come, which succeed when none is given. *)
Record rt := { root : radix_tree_root; nodes : gmap Z radix_tree_node; cache : list Z; preloads : list Z; outcomes : list bool }.
#[export] Instance eta_rt : Eta rt := fun s => Build_rt (root s) (nodes s) (cache s) (preloads s) (outcomes s).

Definition INIT_RADIX_TREE (mask : Z) : M rt unit :=
  modify (fun s => s <| root := {| height := 0; gfp_mask := mask; rnode := 0 |} |>).

(** ** Memory *)
Definition BUG_ON (b : bool) : M rt unit := when b oops.
Definition node_at (a : Z) : M rt radix_tree_node := o ← gets (fun s => nodes s !! a); deref o.
Definition set_node (a : Z) (f : radix_tree_node -> radix_tree_node) : M rt unit :=
  n ← node_at a; modify (fun s => s <| nodes := <[a := f n]> (nodes s) |>).

(** A [struct radix_tree_node **]: the root pointer, or a slot of a node. *)
Inductive slot_ptr := RootSlot | NodeSlot (node offset : Z).
Definition read (slot : slot_ptr) : M rt Z :=
  match slot with
  | RootSlot => gets (fun s => rnode (root s))
  | NodeSlot a i => n ← node_at a; deref (slots n !! Z.to_nat i)
  end.
Definition write (slot : slot_ptr) (p : Z) : M rt unit :=
  match slot with
  | RootSlot => modify (fun s => s <| root := (root s) <| rnode := p |> |>)
  | NodeSlot a i => set_node a (fun n => n <| slots := <[Z.to_nat i := p]> (slots n) |>)
  end.

(** ** The slab cache and the pool *)
Definition radix_tree_node_ctor : radix_tree_node := {| count := 0; slots := replicate 64 0; tags := replicate 2 (replicate 2 0) |}.
(** An address above all others, for an object of a new slab. *)
Definition new_object (m : gmap Z radix_tree_node) : Z := foldr Z.max 0 (map_to_list m).*1 + 1.
Definition kmem_cache_alloc : M rt Z :=
  o ← gets outcomes;
  modify (fun s => s <| outcomes := tail o |>);;
  match o with
  | false :: _ => ret 0
  | _ =>
      free ← gets cache;
      match free with
      | p :: free => modify (fun s => s <| cache := free |>);; ret p
      | [] =>
          p ← gets (fun s => new_object (nodes s));
          modify (fun s => s <| nodes := <[p := radix_tree_node_ctor]> (nodes s) |>);;
          ret p
      end
  end.
Definition kmem_cache_free (p : Z) : M rt unit := modify (fun s => s <| cache := p :: cache s |>).

Definition radix_tree_node_alloc : M rt Z :=
  p ← kmem_cache_alloc;
  mask ← gets (fun s => gfp_mask (root s));
  if (p =? 0) && negb (truth (Z.land mask __GFP_WAIT)) then
    pool ← gets preloads;
    match pool with
    | q :: pool => modify (fun s => s <| preloads := pool |>);; ret q
    | [] => ret p
    end
  else ret p.
Definition radix_tree_node_free (node : Z) : M rt unit := kmem_cache_free node.

Definition pool_full : M rt bool := gets (fun s => negb (Z.of_nat (length (preloads s)) <? RADIX_TREE_MAX_PATH)).
Fixpoint preload_loop (fuel : nat) : M rt Z :=
  full ← pool_full;
  if full then ret 0 else
  match fuel with
  | O => oops
  | S fuel =>
      node ← kmem_cache_alloc;
      if node =? 0 then ret (- ENOMEM) else
      full ← pool_full;
      (if full then kmem_cache_free node else modify (fun s => s <| preloads := node :: preloads s |>));;
      preload_loop fuel
  end.
Definition radix_tree_preload : M rt Z := preload_loop (Z.to_nat RADIX_TREE_MAX_PATH).

(** ** Tags: include/asm-mips/bitops.h on the words of a node *)
Definition test_bit (nr : Z) (addr : list Z) : bool :=
  truth (Z.land 1 (Z.shiftr (addr !!! Z.to_nat (Z.shiftr nr 5)) (Z.land nr 31))).
Definition __set_bit (nr : Z) (addr : list Z) : list Z :=
  alter (fun w => Z.lor w (u32 (Z.shiftl 1 (Z.land nr 31)))) (Z.to_nat (Z.shiftr nr 5)) addr.
Definition __clear_bit (nr : Z) (addr : list Z) : list Z :=
  alter (fun w => Z.land w (u32 (Z.lnot (Z.shiftl 1 (Z.land nr 31))))) (Z.to_nat (Z.shiftr nr 5)) addr.

Definition with_tags (tag : Z) (f : list Z -> list Z) (n : radix_tree_node) : radix_tree_node :=
  n <| tags := alter f (Z.to_nat tag) (tags n) |>.
Definition tag_get (node tag offset : Z) : M rt bool :=
  n ← node_at node; words ← deref (tags n !! Z.to_nat tag); ret (test_bit offset words).
Definition tag_set (node tag offset : Z) : M rt unit :=
  b ← tag_get node tag offset; when (negb b) (set_node node (with_tags tag (__set_bit offset))).
Definition tag_clear (node tag offset : Z) : M rt unit := set_node node (with_tags tag (__clear_bit offset)).
(** [for (idx = 0; idx < RADIX_TREE_TAG_LONGS; idx++) if (node->tags[tag][idx]) ...] *)
Definition any_tag (node tag : Z) : M rt bool :=
  n ← node_at node; words ← deref (tags n !! Z.to_nat tag); ret (existsb truth (take (Z.to_nat RADIX_TREE_TAG_LONGS) words)).

(** ** Heights *)
Definition __maxindex (height : Z) : Z :=
  let tmp := u32 (height * RADIX_TREE_MAP_SHIFT) in
  let index := Z.shiftr (Z.shiftr (2 ^ 32 - 1) (Z.land (RADIX_TREE_INDEX_BITS - tmp - 1) 31)) 1 in
  if RADIX_TREE_INDEX_BITS <=? tmp then 2 ^ 32 - 1 else index.
(** As [radix_tree_init_maxindex] fills it. *)
Definition height_to_maxindex : list Z := (fun i => __maxindex (Z.of_nat i)) <$> seq 0 (Z.to_nat RADIX_TREE_MAX_PATH).
Definition radix_tree_maxindex (height : Z) : M rt Z := deref (height_to_maxindex !! Z.to_nat height).

Fixpoint extend_height (fuel : nat) (height index : Z) : M rt Z :=
  m ← radix_tree_maxindex height;
  if m <? index then match fuel with O => oops | S fuel => extend_height fuel (u32 (height + 1)) index end
  else ret height.
(** [tags] says for each tag whether it is set in the old top node. *)
Fixpoint push_loop (fuel : nat) (to : Z) (tags : list bool) : M rt Z :=
  match fuel with
  | O => oops
  | S fuel =>
      node ← radix_tree_node_alloc;
      if node =? 0 then ret (- ENOMEM) else
      top ← gets (fun s => rnode (root s));
      write (NodeSlot node 0) top;;
      for_each [0; 1] (fun tag => when (tags !!! Z.to_nat tag) (tag_set node tag 0));;
      set_node node (fun n => n <| count := 1 |>);;
      modify (fun s => s <| root := (root s) <| rnode := node |> <| height := u32 (height (root s) + 1) |> |>);;
      h ← gets (fun s => height (root s));
      if h <? to then push_loop fuel to tags else ret 0
  end.
Definition radix_tree_extend (index : Z) : M rt Z :=
  r ← gets root;
  to ← extend_height (Z.to_nat RADIX_TREE_MAX_PATH) (u32 (height r + 1)) index;
  if rnode r =? 0 then modify (fun s => s <| root := (root s) <| height := to |> |>);; ret 0
  else
    t0 ← any_tag (rnode r) 0;
    t1 ← any_tag (rnode r) 1;
    push_loop (Z.to_nat RADIX_TREE_MAX_PATH) to [t0; t1].

(** ** Insertion and lookup *)
Definition offset_of (index shift : Z) : Z := Z.land (Z.shiftr index shift) RADIX_TREE_MAP_MASK.
Definition first_shift (height : Z) : Z := u32 ((height - 1) * RADIX_TREE_MAP_SHIFT).
Definition next_shift (shift : Z) : Z := u32 (shift - RADIX_TREE_MAP_SHIFT).
Definition inc_count (n : radix_tree_node) : radix_tree_node := n <| count := u32 (count n + 1) |>.

(** [if ( *slot == NULL) ...]: a child node is added; [false] for -ENOMEM. *)
Definition add_child (node : Z) (slot : slot_ptr) : M rt bool :=
  p ← read slot;
  if p =? 0 then
    tmp ← radix_tree_node_alloc;
    if tmp =? 0 then ret false
    else write slot tmp;; when (truth node) (set_node node inc_count);; ret true
  else ret true.
(** The way down; an error, or the last node, slot and offset. *)
Fixpoint insert_loop (height : nat) (shift index node : Z) (slot : slot_ptr) (offset : Z) : M rt (Z + Z * slot_ptr * Z) :=
  match height with
  | O => ret (inr (node, slot, offset))
  | S height =>
      ok ← add_child node slot;
      if negb ok then ret (inl (- ENOMEM)) else
      let offset := offset_of index shift in
      node ← read slot;
      insert_loop height (next_shift shift) index node (NodeSlot node offset) offset
  end.
Definition insert_item (node : Z) (slot : slot_ptr) (offset item : Z) : M rt Z :=
  p ← read slot;
  if truth p then ret (- EEXIST) else
  when (truth node)
    (set_node node inc_count;;
     b0 ← tag_get node 0 offset; BUG_ON b0;;
     b1 ← tag_get node 1 offset; BUG_ON b1);;
  write slot item;;
  ret 0.
Definition radix_tree_insert (index item : Z) : M rt Z :=
  r ← gets root;
  m ← radix_tree_maxindex (height r);
  error ← (if ((index =? 0) && (rnode r =? 0)) || (m <? index) then radix_tree_extend index else ret 0);
  if truth error then ret error else
  h ← gets (fun s => height (root s));
  e ← insert_loop (Z.to_nat h) (first_shift h) index 0 RootSlot 0;
  match e with
  | inl error => ret error
  | inr (node, slot, offset) => insert_item node slot offset item
  end.

Fixpoint lookup_loop (height : nat) (shift index : Z) (slot : slot_ptr) : M rt Z :=
  p ← read slot;
  match height with
  | O => ret p
  | S height =>
      if p =? 0 then ret 0
      else lookup_loop height (next_shift shift) index (NodeSlot p (offset_of index shift))
  end.
Definition radix_tree_lookup (index : Z) : M rt Z :=
  h ← gets (fun s => height (root s));
  m ← radix_tree_maxindex h;
  if m <? index then ret 0 else lookup_loop (Z.to_nat h) (first_shift h) index RootSlot.

(** ** Tags on items *)
Fixpoint tag_set_loop (height : nat) (shift index tag : Z) (slot : slot_ptr) : M rt Z :=
  match height with
  | O => read slot
  | S height =>
      let offset := offset_of index shift in
      node ← read slot;
      tag_set node tag offset;;
      p ← read (NodeSlot node offset);
      BUG_ON (p =? 0);;
      tag_set_loop height (next_shift shift) index tag (NodeSlot node offset)
  end.
Definition radix_tree_tag_set (index tag : Z) : M rt Z :=
  h ← gets (fun s => height (root s));
  m ← radix_tree_maxindex h;
  if m <? index then ret 0 else tag_set_loop (Z.to_nat h) (first_shift h) index tag RootSlot.

(** The array [path], the entry [pathp] points to first. *)
Record radix_tree_path := { p_node : Z; p_slot : slot_ptr; p_offset : Z }.
Definition first_path : radix_tree_path := {| p_node := 0; p_slot := RootSlot; p_offset := 0 |}.
(** The path to the slot of an index; [None] when a node is missing. *)
Fixpoint path_loop (height : nat) (shift index : Z) (pathp : radix_tree_path) (path : list radix_tree_path) :
    M rt (option (radix_tree_path * list radix_tree_path)) :=
  match height with
  | O => ret (Some (pathp, path))
  | S height =>
      node ← read (p_slot pathp);
      if node =? 0 then ret None else
      let offset := offset_of index shift in
      path_loop height (next_shift shift) index {| p_node := node; p_slot := NodeSlot node offset; p_offset := offset |} (pathp :: path)
  end.
Definition path_to (index : Z) : M rt (option (radix_tree_path * list radix_tree_path)) :=
  h ← gets (fun s => height (root s));
  m ← radix_tree_maxindex h;
  if m <? index then ret None else path_loop (Z.to_nat h) (first_shift h) index first_path [].

Fixpoint tag_clear_loop (tag : Z) (pathp : radix_tree_path) (path : list radix_tree_path) : M rt unit :=
  tag_clear (p_node pathp) tag (p_offset pathp);;
  more ← any_tag (p_node pathp) tag;
  if more then ret tt else
  match path with
  | [] => oops
  | pathp :: path => if truth (p_node pathp) then tag_clear_loop tag pathp path else ret tt
  end.
Definition radix_tree_tag_clear (index tag : Z) : M rt Z :=
  p ← path_to index;
  match p with
  | None => ret 0
  | Some (pathp, path) =>
      item ← read (p_slot pathp);
      if item =? 0 then ret 0 else
      tag_clear_loop tag pathp path;;
      ret item
  end.

Definition radix_tree_tagged (tag : Z) : M rt Z :=
  p ← gets (fun s => rnode (root s));
  if p =? 0 then ret 0 else b ← any_tag p tag; ret (of_bool b).

(** ** Removal *)

(** One tag of one node: whether the node still has it. *)
Definition delete_tag (pathp : radix_tree_path) (tag : Z) (kept : bool) : M rt bool :=
  when (negb kept) (tag_clear (p_node pathp) tag (p_offset pathp));;
  any_tag (p_node pathp) tag.
(** [kept0] and [kept1] are the array [tags]. *)
Fixpoint delete_tags (pathp : radix_tree_path) (path : list radix_tree_path) (kept0 kept1 : bool) : M rt unit :=
  m0 ← delete_tag pathp 0 kept0;
  m1 ← delete_tag pathp 1 kept1;
  let nr_cleared_tags := RADIX_TREE_TAGS - of_bool m0 - of_bool m1 in
  match path with
  | [] => oops
  | pathp :: path =>
      if truth (p_node pathp) && truth nr_cleared_tags then delete_tags pathp path (kept0 || m0) (kept1 || m1) else ret tt
  end.
(** [while (pathp[0].node && --pathp[0].node->count == 0)] *)
Fixpoint delete_nodes (pathp : radix_tree_path) (path : list radix_tree_path) : M rt unit :=
  if p_node pathp =? 0 then ret tt else
  set_node (p_node pathp) (fun n => n <| count := u32 (count n - 1) |>);;
  n ← node_at (p_node pathp);
  if truth (count n) then ret tt else
  match path with
  | [] => oops
  | pathp' :: path =>
      p ← read (p_slot pathp');
      BUG_ON (p =? 0);;
      write (p_slot pathp') 0;;
      radix_tree_node_free (p_node pathp);;
      delete_nodes pathp' path
  end.
Definition radix_tree_delete (index : Z) : M rt Z :=
  p ← path_to index;
  match p with
  | None => ret 0
  | Some (pathp, path) =>
      item ← read (p_slot pathp);
      if item =? 0 then ret 0 else
      delete_tags pathp path false false;;
      write (p_slot pathp) 0;;
      delete_nodes pathp path;;
      top ← gets (fun s => rnode (root s));
      when (top =? 0) (modify (fun s => s <| root := (root s) <| height := 0 |> |>));;
      ret item
  end.

(** ** Gang lookups

    [__lookup] and [__lookup_tag] are one loop over the slots that are
    [present]: those with an item or child, or those with the tag. *)
Definition slot_of (node i : Z) : M rt Z := read (NodeSlot node i).
Definition has_slot (node i : Z) : M rt bool := p ← slot_of node i; ret (truth p).
Definition has_tag (tag node i : Z) : M rt bool :=
  b ← tag_get node tag i;
  when b (p ← slot_of node i; BUG_ON (p =? 0));;
  ret b.

Section Gang.
Context (present : Z -> Z -> M rt bool).

(** The first slot from [i] on, and the index that goes with it; [None] at
    the end of the node or of the indices. *)
Fixpoint skip_loop (n : nat) (node i shift index : Z) : M rt (option Z * Z) :=
  match n with
  | O => ret (None, index)
  | S n =>
      b ← present node i;
      if b then ret (Some i, index) else
      let index := u32 (Z.land index (u32 (Z.lnot (u32 (Z.shiftl 1 shift) - 1))) + u32 (Z.shiftl 1 shift)) in
      if index =? 0 then ret (None, index) else skip_loop n node (i + 1) shift index
  end.
(** The items of a lowest node. *)
Fixpoint grab_loop (n : nat) (node j index max_items : Z) (results : list Z) : M rt (list Z * Z) :=
  match n with
  | O => ret (results, index)
  | S n =>
      let index := u32 (index + 1) in
      b ← present node j;
      if b then
        p ← slot_of node j;
        let results := results ++ [p] in
        if Z.of_nat (length results) =? max_items then ret (results, index)
        else grab_loop n node (j + 1) index max_items results
      else grab_loop n node (j + 1) index max_items results
  end.
(** The items found, and [*next_index]. *)
Fixpoint gang_walk (height : nat) (shift index max_items node : Z) : M rt (list Z * Z) :=
  match height with
  | O => ret ([], index)
  | S height =>
      let i := offset_of index shift in
      r ← skip_loop (Z.to_nat (RADIX_TREE_MAP_SIZE - i)) node i shift index;
      match r with
      | (None, index) => ret ([], index)
      | (Some i, index) =>
          match height with
          | O =>
              let j := Z.land index RADIX_TREE_MAP_MASK in
              grab_loop (Z.to_nat (RADIX_TREE_MAP_SIZE - j)) node j index max_items []
          | S _ =>
              child ← slot_of node i;
              gang_walk height (next_shift shift) index max_items child
          end
      end
  end.
Definition lookup_from (index max_items : Z) : M rt (list Z * Z) :=
  r ← gets root;
  gang_walk (Z.to_nat (height r)) (first_shift (height r)) index max_items (rnode r).
Fixpoint gang_loop (fuel : nat) (max_index cur_index max_items : Z) (results : list Z) : M rt (list Z) :=
  let n := Z.of_nat (length results) in
  if (n <? max_items) && (cur_index <=? max_index) then
    match fuel with
    | O => oops
    | S fuel =>
        r ← lookup_from cur_index (max_items - n);
        let '(found, next_index) := r : list Z * Z in
        if next_index =? 0 then ret (results ++ found)
        else gang_loop fuel max_index next_index max_items (results ++ found)
    end
  else ret results.
(** Every round passes a node, so the number of nodes bounds the loop. *)
Definition gang_lookup (first_index max_items : Z) : M rt (list Z) :=
  h ← gets (fun s => height (root s));
  max_index ← radix_tree_maxindex h;
  fuel ← gets (fun s => S (size (nodes s)));
  gang_loop fuel max_index first_index max_items [].
End Gang.

Definition __lookup : Z -> Z -> M rt (list Z * Z) := lookup_from has_slot.
Definition __lookup_tag (tag : Z) : Z -> Z -> M rt (list Z * Z) := lookup_from (has_tag tag).
(** The results; their number is the value returned. *)
Definition radix_tree_gang_lookup (first_index max_items : Z) : M rt (list Z) := gang_lookup has_slot first_index max_items.
Definition radix_tree_gang_lookup_tag (first_index max_items tag : Z) : M rt (list Z) := gang_lookup (has_tag tag) first_index max_items.
