(* ===== verification/RadixSpec.v ===== *)
(** * The radix tree in memory: positions, the invariant, local changes

    A cell is a place in the tree: at level 0 the place of an index, at level
    [l] that of a node for the indices with a common prefix.  The invariant
    relates memory to the map [N] from cells to their contents, with the items
    at level 0, and to the predicate [G] of the cells that are tagged.  All
    cells of an index lie on its path, and every change of a routine is a change
    of one node on a path, so each has a lemma here. *)
From S2P Require Import Prelude.
From S2P Require Import RadixTree.

(** ** Positions *)
Abbreviation cells := (gmap (nat * Z) Z).
Definition pre (l : nat) (i : Z) : Z := Z.shiftr i (6 * Z.of_nat l).
Definition off (l : nat) (i : Z) : Z := pre l i mod 64.
Definition at_ (N : cells) (l : nat) (p : Z) : Z := default 0 (N !! (l, p)).

Lemma pre_0 i : pre 0 i = i.
Proof. apply Z.shiftr_0_r. Qed.
Lemma pre_S l i : pre (S l) i = pre l i / 64.
Proof.
  unfold pre. replace (6 * Z.of_nat (S l)) with (6 * Z.of_nat l + 6) by lia.
  rewrite <- Z.shiftr_shiftr by lia. by rewrite (Z.shiftr_div_pow2 _ 6).
Qed.
Lemma pre_split l i : pre l i = 64 * pre (S l) i + off l i.
Proof. rewrite pre_S. unfold off. rewrite <- Z.div_mod by lia. done. Qed.
Lemma pre_add k l i : pre k (pre l i) = pre (k + l) i.
Proof. unfold pre. rewrite Z.shiftr_shiftr by lia. f_equal. lia. Qed.
Lemma pre_nonneg l i : 0 <= i -> 0 <= pre l i.
Proof. intros. by apply Z.shiftr_nonneg. Qed.
Lemma pre_zero l : pre l 0 = 0.
Proof. apply Z.shiftr_0_l. Qed.
Lemma pre_le l i : 0 <= i -> Z.shiftl (pre l i) (6 * Z.of_nat l) <= i.
Proof. intros. unfold pre. rewrite Z.shiftl_mul_pow2, Z.shiftr_div_pow2 by lia. rewrite Z.mul_comm. apply Z.mul_div_le, Z.pow_pos_nonneg; lia. Qed.
Lemma off_range l i : 0 <= off l i < 64.
Proof. apply Z.mod_pos_bound. lia. Qed.
Lemma child_div p k : 0 <= k < 64 -> (64 * p + k) / 64 = p.
Proof. intros. rewrite Z.mul_comm, Z.div_add_l by lia. rewrite Z.div_small by lia. lia. Qed.
Lemma child_inj p k p' k' : 0 <= k < 64 -> 0 <= k' < 64 -> 64 * p + k = 64 * p' + k' -> p = p' /\ k = k'.
Proof. lia. Qed.

Lemma offset_of_off l index : offset_of index (6 * Z.of_nat l) = off l index.
Proof. unfold offset_of, off, pre, RADIX_TREE_MAP_MASK. change (RADIX_TREE_MAP_SIZE - 1) with (Z.ones 6). by rewrite Z.land_ones. Qed.
Lemma first_shift_S l : (l < 6)%nat -> first_shift (Z.of_nat (S l)) = 6 * Z.of_nat l.
Proof. intros. unfold first_shift, RADIX_TREE_MAP_SHIFT. rewrite u32_small; lia. Qed.
Lemma next_shift_S l : (l < 6)%nat -> next_shift (6 * Z.of_nat (S l)) = 6 * Z.of_nat l.
Proof. intros. unfold next_shift, RADIX_TREE_MAP_SHIFT. rewrite u32_small; lia. Qed.

Lemma maxindex_le h i : (h <= 6)%nat -> 0 <= i < 2 ^ 32 ->
  exists m, height_to_maxindex !! h = Some m /\ (m < i <-> pre h i <> 0).
Proof.
  intros Hh Hi. unfold pre. rewrite Z.shiftr_div_pow2 by lia.
  exists (nth h [0; 63; 4095; 262143; 16777215; 1073741823; 4294967295] 0).
  do 7 (destruct h as [|h]; [split; [reflexivity|]; cbn [nth];
    match goal with |- context [2 ^ ?e] => let x := eval vm_compute in (2 ^ e) in change (2 ^ e) with x end; Z.to_euclidean_division_equations; lia|]). lia.
Qed.

(** ** Tag words *)
Definition words_ok (w : list Z) : Prop := exists a b, w = [a; b] /\ 0 <= a < 2 ^ 32 /\ 0 <= b < 2 ^ 32.

Lemma test_bit_spec a b i : 0 <= i < 64 -> test_bit i [a; b] = if i <? 32 then Z.testbit a i else Z.testbit b (i - 32).
Proof.
  intros Hi. unfold test_bit. change 31 with (Z.ones 5). rewrite Z.land_ones, (Z.shiftr_div_pow2 i 5) by lia. change (2 ^ 5) with 32.
  assert (forall x k, 0 <= k -> truth (Z.land 1 (Z.shiftr x k)) = Z.testbit x k) as Hb.
  { intros x k Hk. change 1 with (Z.ones 1). rewrite Z.land_comm, Z.land_ones by lia.
    unfold truth. rewrite <- (Z.add_0_l k) at 2. rewrite <- Z.shiftr_spec by lia. rewrite Z.bit0_odd, Zodd_mod.
    change (2 ^ 1) with 2. pose proof (Z.mod_pos_bound (Z.shiftr x k) 2). destruct (Z.eqb_spec (Z.shiftr x k mod 2) 0) as [->|]; [done|].
    symmetry. apply Z.eqb_eq. lia. }
  rewrite Hb by (apply Z.mod_pos_bound; lia). destruct (Z.ltb_spec i 32).
  - rewrite Z.div_small, Z.mod_small by lia. done.
  - replace (i / 32) with 1 by (Z.to_euclidean_division_equations; lia). replace (i mod 32) with (i - 32) by (Z.to_euclidean_division_equations; lia). done.
Qed.

(** The word and the bit of a tag. *)
Lemma bit_place i : 0 <= i < 64 -> Z.land i 31 = i mod 32 /\ Z.shiftr i 5 = if i <? 32 then 0 else 1.
Proof.
  intros Hi. change 31 with (Z.ones 5). rewrite Z.land_ones, Z.shiftr_div_pow2 by lia. split; [done|].
  destruct (Z.ltb_spec i 32); Z.to_euclidean_division_equations; lia.
Qed.
Lemma bit_mask k : 0 <= k < 32 -> u32 (Z.shiftl 1 k) = 2 ^ k.
Proof. intros. rewrite Z.shiftl_1_l. apply u32_small. split; [lia|]. apply Z.pow_lt_mono_r; lia. Qed.
Lemma testbit_pow2 k j : 0 <= k -> Z.testbit (2 ^ k) j = (k =? j).
Proof. intros. destruct (Z.eqb_spec k j) as [->|]; [by apply Z.pow2_bits_true|by apply Z.pow2_bits_false]. Qed.
Lemma lor_bound a k : 0 <= a < 2 ^ 32 -> 0 <= k < 32 -> 0 <= Z.lor a (2 ^ k) < 2 ^ 32.
Proof.
  intros Ha Hk. assert (0 <= Z.lor a (2 ^ k)) by (apply Z.lor_nonneg; lia). split; [done|].
  destruct (decide (Z.lor a (2 ^ k) = 0)) as [->|]; [lia|]. apply Z.log2_lt_pow2; [lia|]. rewrite Z.log2_lor by lia.
  rewrite Z.log2_pow2 by lia. destruct (decide (a = 0)) as [->|]; [cbn; lia|]. apply Z.max_lub_lt; [|lia]. apply Z.log2_lt_pow2; lia.
Qed.
Lemma land_bound a b : 0 <= a < 2 ^ 32 -> 0 <= Z.land a b < 2 ^ 32.
Proof.
  intros Ha. rewrite <- (Z.mod_small a (2 ^ 32)), <- Z.land_ones, (Z.land_comm a), <- Z.land_assoc, Z.land_comm, Z.land_ones by lia.
  apply Z.mod_pos_bound. lia.
Qed.
Lemma clear_mask k j : 0 <= k < 32 -> 0 <= j < 32 -> Z.testbit (u32 (Z.lnot (Z.shiftl 1 k))) j = negb (k =? j).
Proof. intros. unfold u32. rewrite Z.mod_pow2_bits_low, Z.lnot_spec, Z.shiftl_1_l, testbit_pow2 by lia. done. Qed.

Lemma alter_word (f : Z -> Z) (b : bool) x y : alter f (Z.to_nat (if b then 0 else 1)) [x; y] = if b then [f x; y] else [x; f y].
Proof. by destruct b. Qed.

Lemma words_set w i : words_ok w -> 0 <= i < 64 -> words_ok (__set_bit i w).
Proof.
  intros (a & b & -> & Ha & Hb) Hi. unfold __set_bit. destruct (bit_place i Hi) as [-> ->]. pose proof (Z.mod_pos_bound i 32).
  rewrite bit_mask, alter_word by lia. destruct (Z.ltb_spec i 32); [eexists _, b|eexists a, _]; (split; [done|]); split; try done; apply lor_bound; lia.
Qed.
Lemma words_clear w i : words_ok w -> 0 <= i < 64 -> words_ok (__clear_bit i w).
Proof.
  intros (a & b & -> & Ha & Hb) Hi. unfold __clear_bit. destruct (bit_place i Hi) as [-> ->].
  rewrite alter_word. destruct (Z.ltb_spec i 32); [eexists _, b|eexists a, _]; (split; [done|]); split; try done; by apply land_bound.
Qed.
Lemma test_set w i j : words_ok w -> 0 <= i < 64 -> 0 <= j < 64 -> test_bit j (__set_bit i w) = (i =? j) || test_bit j w.
Proof.
  intros (a & b & -> & Ha & Hb) Hi Hj. unfold __set_bit. destruct (bit_place i Hi) as [-> ->]. pose proof (Z.mod_pos_bound i 32).
  rewrite bit_mask, alter_word by lia. destruct (Z.ltb_spec i 32) as [H1|H1]; rewrite !test_bit_spec by done.
  - rewrite Z.mod_small by lia. destruct (Z.ltb_spec j 32); [rewrite Z.lor_spec, testbit_pow2 by lia; by rewrite orb_comm|].
    by replace (i =? j) with false by lia.
  - replace (i mod 32) with (i - 32) by (Z.to_euclidean_division_equations; lia).
    destruct (Z.ltb_spec j 32); [by replace (i =? j) with false by lia|].
    rewrite Z.lor_spec, testbit_pow2 by lia. rewrite orb_comm. f_equal. lia.
Qed.
Lemma test_clear w i j : words_ok w -> 0 <= i < 64 -> 0 <= j < 64 -> test_bit j (__clear_bit i w) = negb (i =? j) && test_bit j w.
Proof.
  intros (a & b & -> & Ha & Hb) Hi Hj. unfold __clear_bit. destruct (bit_place i Hi) as [-> ->]. pose proof (Z.mod_pos_bound i 32).
  rewrite alter_word. destruct (Z.ltb_spec i 32) as [H1|H1]; rewrite !test_bit_spec by done.
  - rewrite Z.mod_small by lia. destruct (Z.ltb_spec j 32); [rewrite Z.land_spec, clear_mask by lia; by rewrite andb_comm|].
    by replace (i =? j) with false by lia.
  - replace (i mod 32) with (i - 32) by (Z.to_euclidean_division_equations; lia).
    destruct (Z.ltb_spec j 32); [by replace (i =? j) with false by lia|].
    rewrite Z.land_spec, clear_mask by lia. rewrite andb_comm. do 2 f_equal. lia.
Qed.
Lemma word_bit a : 0 <= a < 2 ^ 32 -> truth a = true -> exists k, 0 <= k < 32 /\ Z.testbit a k = true.
Proof.
  unfold truth. intros Ha Ht. exists (Z.log2 a). rewrite Z.bit_log2 by lia. split; [|done].
  split; [apply Z.log2_nonneg|apply Z.log2_lt_pow2; lia].
Qed.
Lemma any_bit w : words_ok w -> existsb truth (take (Z.to_nat RADIX_TREE_TAG_LONGS) w) = true <-> exists i, 0 <= i < 64 /\ test_bit i w = true.
Proof.
  intros (a & b & -> & Ha & Hb). change (existsb truth _) with (truth a || (truth b || false)). rewrite orb_false_r, orb_true_iff. split.
  - intros [H|H]; apply word_bit in H as (k & Hk & H); try done; [exists k|exists (k + 32)]; (split; [lia|]); rewrite test_bit_spec by lia.
    + by replace (k <? 32) with true by lia.
    + replace (k + 32 <? 32) with false by lia. by replace (k + 32 - 32) with k by lia.
  - intros (i & Hi & H). rewrite test_bit_spec in H by done. unfold truth. destruct (Z.ltb_spec i 32); [left|right].
    + destruct (Z.eqb_spec a 0) as [->|]; [by rewrite Z.bits_0 in H|done].
    + destruct (Z.eqb_spec b 0) as [->|]; [by rewrite Z.bits_0 in H|done].
Qed.
Lemma words_none w : words_ok w -> (forall i, 0 <= i < 64 -> test_bit i w = true -> False) -> w = [0; 0].
Proof.
  intros (a & b & -> & Ha & Hb) H. destruct (truth a) eqn:Ea, (truth b) eqn:Eb; unfold truth in *.
  all: try (apply word_bit in Ea as (k & Hk & Hb'); [|done]; exfalso; apply (H k); [lia|]; rewrite test_bit_spec by lia; by replace (k <? 32) with true by lia).
  - apply word_bit in Eb as (k & Hk & Hb'); [|done]. exfalso. apply (H (k + 32)); [lia|]. rewrite test_bit_spec by lia.
    replace (k + 32 <? 32) with false by lia. by replace (k + 32 - 32) with k by lia.
  - by replace a with 0 by lia; replace b with 0 by lia.
Qed.

(** ** Occupied slots *)
Definition some_ (v : Z) : Z := of_bool (truth v).
Fixpoint occupied (l : list Z) : Z := match l with [] => 0 | v :: l => some_ v + occupied l end.

Lemma some_range v : 0 <= some_ v <= 1.
Proof. unfold some_. destruct (truth v); cbn; lia. Qed.
Lemma occupied_range l : 0 <= occupied l <= Z.of_nat (length l).
Proof. induction l as [|v l IH]; cbn [occupied length]; [lia|]. pose proof (some_range v). lia. Qed.
Lemma occupied_insert l k u v : l !! k = Some u -> occupied (<[k := v]> l) = occupied l - some_ u + some_ v.
Proof.
  revert k. induction l as [|x l IH]; intros [|k] E; try done.
  - injection E as ->. cbn. lia.
  - change (<[S k := v]> (x :: l)) with (x :: <[k := v]> l). cbn [occupied]. rewrite (IH k E). lia.
Qed.
Lemma occupied_zero l : occupied l = 0 <-> Forall (fun v => v = 0) l.
Proof.
  induction l as [|v l IH]; cbn; [by split; [constructor|]|]. rewrite Forall_cons. pose proof (some_range v). pose proof (occupied_range l).
  assert (v = 0 <-> some_ v = 0) as -> by (unfold some_, truth; destruct (Z.eqb_spec v 0); cbn; lia).
  rewrite <- IH. lia.
Qed.

(** ** The invariant *)
Definition tagp := Z -> nat -> Z -> Prop.
(** [more] is what the count of the node has too much. *)
Record node_ok (N : cells) (G : tagp) (l : nat) (p : Z) (more : Z) (n : radix_tree_node) : Prop := {
  nk_length : length (slots n) = 64%nat;
  nk_slots k : 0 <= k < 64 -> slots n !! Z.to_nat k = Some (at_ N l (64 * p + k));
  nk_count : count n = occupied (slots n) + more;
  nk_two : length (tags n) = 2%nat;
  nk_tags t : t = 0 \/ t = 1 -> exists w, tags n !! Z.to_nat t = Some w /\ words_ok w /\
    forall k, 0 <= k < 64 -> test_bit k w = true <-> G t l (64 * p + k);
}.
(** The node whose count is one too large while a slot of it is cleared. *)
Definition late (D : option (nat * Z)) (l : nat) (p : Z) : Z := of_bool (bool_decide (D = Some (l, p))).

Record wf (s : rt) (h : nat) (N : cells) (G : tagp) (D : option (nat * Z)) : Prop := {
  wf_height : height (root s) = Z.of_nat h;
  wf_six : (h <= 6)%nat;
  wf_empty : h = O -> N = ∅;
  wf_root : rnode (root s) = at_ N h 0;
  wf_cell l p a : N !! (l, p) = Some a -> 0 < a /\ (l <= h)%nat /\ 0 <= p /\ Z.shiftl p (6 * Z.of_nat l) < 2 ^ 32;
  wf_top p a : N !! (h, p) = Some a -> p = 0;
  wf_parent l p a : N !! (l, p) = Some a -> (l < h)%nat -> is_Some (N !! (S l, p / 64));
  wf_node l p a : N !! (S l, p) = Some a -> exists n, nodes s !! a = Some n /\ node_ok N G l p (late D (S l) p) n;
  wf_inj l p l' p' a : N !! (S l, p) = Some a -> N !! (S l', p') = Some a -> l = l' /\ p = p';
  wf_free a : a ∈ cache s ++ preloads s -> 0 < a /\ nodes s !! a = Some radix_tree_node_ctor /\ forall l p, N !! (S l, p) <> Some a;
  wf_distinct : NoDup (cache s ++ preloads s);
  wf_addr a : is_Some (nodes s !! a) -> 0 < a;
}.

Lemma wf_equiv_tags s h N G G' D : (forall t l p, t = 0 \/ t = 1 -> (l < h)%nat -> G t l p <-> G' t l p) -> wf s h N G D -> wf s h N G' D.
Proof.
  intros E W. destruct W. split; try done. intros l p a Ha. destruct (wf_node0 l p a Ha) as (n & Hn & [H1 H2 H3 H4 H5]).
  assert (S l <= h)%nat by apply (wf_cell0 _ _ _ Ha). exists n. split; [done|]. split; try done.
  intros t Ht. destruct (H5 t Ht) as (w & Hw & Hok & Hb). exists w. split_and!; try done. intros k Hk. rewrite Hb by done. apply E; [done|lia].
Qed.
Lemma wf_equiv s h N G G' D : (forall t l p, (l < h)%nat -> G t l p <-> G' t l p) -> wf s h N G D -> wf s h N G' D.
Proof. intros E. apply wf_equiv_tags. intros t l p _. apply E. Qed.

(** Cells above an occupied one are occupied. *)
Lemma wf_above s h N G D l p a k : wf s h N G D -> N !! (l, p) = Some a -> (k + l <= h)%nat -> is_Some (N !! ((k + l)%nat, pre k p)).
Proof.
  intros W Ha. induction k as [|k IH]; intros Hk; [rewrite pre_0; eauto|].
  destruct IH as [b Hb]; [lia|]. rewrite pre_S. change (S k + l)%nat with (S (k + l)). eapply wf_parent; [done..|lia].
Qed.
Lemma wf_below_top s h N G D l p a : wf s h N G D -> N !! (l, p) = Some a -> pre (h - l) p = 0 /\ is_Some (N !! (h, 0)).
Proof.
  intros W Ha. destruct (wf_cell _ _ _ _ _ W _ _ _ Ha) as (_ & Hl & _). destruct (wf_above _ _ _ _ _ _ _ _ (h - l) W Ha) as [b Hb]; [lia|].
  replace (h - l + l)%nat with h in Hb by lia. pose proof (wf_top _ _ _ _ _ W _ _ Hb) as E. rewrite E in Hb. eauto.
Qed.
Lemma wf_null s h N G D : wf s h N G D -> rnode (root s) = 0 -> N = ∅.
Proof.
  intros W E. apply map_eq. intros [l p]. rewrite lookup_empty. destruct (N !! (l, p)) as [a|] eqn:Ha; [|done].
  destruct (wf_below_top _ _ _ _ _ _ _ _ W Ha) as [_ [b Hb]]. rewrite (wf_root _ _ _ _ _ W) in E. unfold at_ in E. rewrite Hb in E. cbn in E.
  destruct (wf_cell _ _ _ _ _ W _ _ _ Hb). lia.
Qed.
Lemma wf_no_child s h N G D l p k : wf s h N G D -> (l < h)%nat -> N !! (S l, p) = None -> 0 <= k < 64 -> N !! (l, 64 * p + k) = None.
Proof.
  intros W Hl E Hk. destruct (N !! (l, 64 * p + k)) as [a|] eqn:Ha; [|done]. destruct (wf_parent _ _ _ _ _ W _ _ _ Ha Hl) as [b Hb].
  rewrite child_div in Hb by done. congruence.
Qed.
Lemma at_some N l p a : N !! (l, p) = Some a -> at_ N l p = a.
Proof. unfold at_. by intros ->. Qed.
Lemma at_zero s h N G D l p : wf s h N G D -> at_ N l p = 0 <-> N !! (l, p) = None.
Proof.
  intros W. unfold at_. destruct (N !! (l, p)) as [a|] eqn:Ha; [|done]. cbn. destruct (wf_cell _ _ _ _ _ W _ _ _ Ha). split; [lia|done].
Qed.
Lemma at_pos s h N G D l p : wf s h N G D -> at_ N l p <> 0 -> N !! (l, p) = Some (at_ N l p).
Proof. unfold at_. by destruct (N !! (l, p)). Qed.

(** ** Slots on the path of an index *)
Definition slot_at (h : nat) (N : cells) (i : Z) (l : nat) (node : Z) (slot : slot_ptr) : Prop :=
  (l = h /\ node = 0 /\ slot = RootSlot) \/
  ((l < h)%nat /\ N !! (S l, pre (S l) i) = Some node /\ slot = NodeSlot node (off l i)).

Lemma node_run s h N G D l p a : wf s h N G D -> N !! (S l, p) = Some a ->
  exists n, node_at a s = Some (n, s) /\ nodes s !! a = Some n /\ node_ok N G l p (late D (S l) p) n.
Proof.
  intros W Ha. destruct (wf_node _ _ _ _ _ W _ _ _ Ha) as (n & Hn & Hok). exists n. split; [|done].
  unfold node_at, bind, gets, deref, ret. by rewrite Hn.
Qed.
Lemma child_run s h N G D l p a k : wf s h N G D -> N !! (S l, p) = Some a -> 0 <= k < 64 ->
  read (NodeSlot a k) s = Some (at_ N l (64 * p + k), s).
Proof.
  intros W Ha Hk. destruct (node_run _ _ _ _ _ _ _ _ W Ha) as (n & Hr & _ & Hok). cbn. unfold bind. rewrite Hr.
  by rewrite (nk_slots _ _ _ _ _ _ Hok k Hk).
Qed.
Lemma read_run s h N G D i l node slot : wf s h N G D -> 0 <= i -> pre h i = 0 -> slot_at h N i l node slot ->
  read slot s = Some (at_ N l (pre l i), s).
Proof.
  intros W Hi Hp [(-> & -> & ->)|(Hl & Ha & ->)].
  - cbn. unfold gets. rewrite Hp. by rewrite (wf_root _ _ _ _ _ W).
  - rewrite (child_run _ _ _ _ _ l (pre (S l) i) node (off l i) W Ha) by apply off_range. by rewrite <- pre_split.
Qed.

(** ** Changes of one node *)
Lemma late_none l p : late None l p = 0.
Proof. done. Qed.

Lemma wf_retag s h N G G' D l p a n t f :
  wf s h N G D -> N !! (S l, p) = Some a -> nodes s !! a = Some n -> t = 0 \/ t = 1 ->
  (forall w, words_ok w -> words_ok (f w)) ->
  (forall w, words_ok w -> forall k, 0 <= k < 64 -> (test_bit k w = true <-> G t l (64 * p + k)) -> (test_bit k (f w) = true <-> G' t l (64 * p + k))) ->
  (forall t' l' p', ~ (t' = t /\ l' = l /\ p' / 64 = p) -> G t' l' p' <-> G' t' l' p') ->
  wf (s <| nodes := <[a := with_tags t f n]> (nodes s) |>) h N G' D.
Proof.
  intros W Ha Hn Ht Hok Hbit Hfr. destruct W. split; cbn; try done.
  - intros l' p' b Hb. destruct (wf_node0 _ _ _ Hb) as (m & Hm & Hk). destruct (decide (b = a)) as [->|Hne].
    + destruct (wf_inj0 _ _ _ _ _ Ha Hb) as [<- <-]. rewrite lookup_insert_eq. eexists. split; [done|].
      replace m with n in * by congruence. destruct Hk as [H1 H2 H3 H4 H5]. split; cbn; try done; [by rewrite length_alter|].
      intros t' Ht'. destruct (decide (t' = t)) as [->|Htt].
      * destruct (H5 t Ht) as (w & Hw & Hwo & Hb'). exists (f w). rewrite list_lookup_alter_eq, Hw. split; [done|]. split; [by apply Hok|].
        intros k Hk. apply (Hbit w); auto.
      * destruct (H5 t' Ht') as (w & Hw & Hwo & Hb'). exists w. rewrite list_lookup_alter_ne by lia. split_and!; try done.
        intros k Hk. rewrite Hb' by done. apply Hfr. tauto.
    + rewrite lookup_insert_ne by done. exists m. split; [done|]. destruct Hk as [H1 H2 H3 H4 H5]. split; try done.
      intros t' Ht'. destruct (H5 t' Ht') as (w & Hw & Hwo & Hb'). exists w. split_and!; try done.
      intros k Hk. rewrite Hb' by done. apply Hfr. intros (-> & -> & E). rewrite child_div in E by done. congruence.
  - intros b Hb. destruct (wf_free0 b Hb) as (H1 & H2 & H3). split_and!; try done. rewrite lookup_insert_ne; [done|]. intros ->. by apply (H3 l p).
  - intros b. destruct (decide (b = a)) as [->|]; [intros _; apply wf_addr0; eauto|rewrite lookup_insert_ne by done; apply wf_addr0].
Qed.

Definition tag_add (G : tagp) (t : Z) (l : nat) (q : Z) : tagp := fun t' l' p => G t' l' p \/ (t' = t /\ l' = l /\ p = q).
Definition tag_del (G : tagp) (t : Z) (l : nat) (q : Z) : tagp := fun t' l' p => G t' l' p /\ ~ (t' = t /\ l' = l /\ p = q).

Lemma tag_get_run s h N G D l p a t k : wf s h N G D -> N !! (S l, p) = Some a -> t = 0 \/ t = 1 -> 0 <= k < 64 ->
  exists b : bool, tag_get a t k s = Some (b, s) /\ (b = true <-> G t l (64 * p + k)).
Proof.
  intros W Ha Ht Hk. destruct (node_run _ _ _ _ _ _ _ _ W Ha) as (n & Hr & _ & Hok).
  destruct (nk_tags _ _ _ _ _ _ Hok t Ht) as (w & Hw & _ & Hb). exists (test_bit k w). unfold tag_get, bind. rewrite Hr, Hw. by split; [|apply Hb].
Qed.
Lemma any_tag_run s h N G D l p a t : wf s h N G D -> N !! (S l, p) = Some a -> t = 0 \/ t = 1 ->
  exists b : bool, any_tag a t s = Some (b, s) /\ (b = true <-> exists k, 0 <= k < 64 /\ G t l (64 * p + k)).
Proof.
  intros W Ha Ht. destruct (node_run _ _ _ _ _ _ _ _ W Ha) as (n & Hr & _ & Hok).
  destruct (nk_tags _ _ _ _ _ _ Hok t Ht) as (w & Hw & Hwo & Hb). eexists. unfold any_tag, bind. rewrite Hr, Hw. split; [done|].
  rewrite any_bit by done. by split; intros (k & Hk & H); exists k; (split; [done|]); apply Hb.
Qed.
Lemma set_node_run a n f s : nodes s !! a = Some n -> set_node a f s = Some (tt, s <| nodes := <[a := f n]> (nodes s) |>).
Proof. intros E. unfold set_node, node_at, bind, gets, deref, modify. by rewrite E. Qed.
Lemma tag_set_run s h N G D l p a t k : wf s h N G D -> N !! (S l, p) = Some a -> t = 0 \/ t = 1 -> 0 <= k < 64 ->
  exists s', tag_set a t k s = Some (tt, s') /\ wf s' h N (tag_add G t l (64 * p + k)) D.
Proof.
  intros W Ha Ht Hk. destruct (tag_get_run _ _ _ _ _ _ _ _ _ _ W Ha Ht Hk) as (b & Hb & Eb). unfold tag_set. erewrite bind_run by exact Hb.
  destruct b; cbn [negb when].
  - eexists. split; [done|]. eapply wf_equiv; [|exact W]. intros t' l' p' _. unfold tag_add. split; [by left|].
    intros [H|(-> & -> & ->)]; [done|by apply Eb].
  - destruct (node_run _ _ _ _ _ _ _ _ W Ha) as (n & Hr & Hn & Hok). rewrite (set_node_run _ n) by done. eexists. split; [done|].
    eapply wf_retag; try done; [by intros; apply words_set| |].
    + intros w Hw j Hj E. rewrite test_set by done. unfold tag_add. rewrite orb_true_iff, E, Z.eqb_eq. split.
      * intros [->|H]; tauto.
      * intros [H|(_ & _ & H)]; [by right|left; lia].
    + intros t' l' p' H. unfold tag_add. split; [by left|]. intros [?|(-> & -> & ->)]; [done|]. destruct H. by rewrite child_div.
Qed.
Lemma tag_clear_run s h N G D l p a t k : wf s h N G D -> N !! (S l, p) = Some a -> t = 0 \/ t = 1 -> 0 <= k < 64 ->
  exists s', tag_clear a t k s = Some (tt, s') /\ wf s' h N (tag_del G t l (64 * p + k)) D.
Proof.
  intros W Ha Ht Hk. destruct (node_run _ _ _ _ _ _ _ _ W Ha) as (n & Hr & Hn & Hok). unfold tag_clear. rewrite (set_node_run _ n) by done.
  eexists. split; [done|]. eapply wf_retag; try done; [by intros; apply words_clear| |].
  - intros w Hw j Hj E. rewrite test_clear by done. unfold tag_del. rewrite andb_true_iff, negb_true_iff, E, Z.eqb_neq. split.
    + intros [H1 H2]. split; [done|]. intros (_ & _ & H). lia.
    + intros [H1 H2]. split; [|done]. intros ->. by apply H2.
  - intros t' l' p' H. unfold tag_del. split; [|tauto]. intros ?. split; [done|]. intros (-> & -> & ->). apply H. by rewrite child_div.
Qed.

(** ** Adding and removing cells *)
Lemma at_insert N l q v l' p : at_ (<[(l, q) := v]> N) l' p = if bool_decide (l' = l /\ p = q) then v else at_ N l' p.
Proof.
  unfold at_. case_bool_decide as H; [destruct H as [-> ->]; by rewrite lookup_insert_eq|].
  rewrite lookup_insert_ne; [done|]. intros [= -> ->]. tauto.
Qed.
Lemma at_delete N l q l' p : at_ (delete (l, q) N) l' p = if bool_decide (l' = l /\ p = q) then 0 else at_ N l' p.
Proof.
  unfold at_. case_bool_decide as H; [destruct H as [-> ->]; by rewrite lookup_delete_eq|].
  rewrite lookup_delete_ne; [done|]. intros [= -> ->]. tauto.
Qed.

(** A node is as it was when another cell changes ... *)
Lemma node_ok_frame N N' G l p more n :
  (forall k, 0 <= k < 64 -> at_ N' l (64 * p + k) = at_ N l (64 * p + k)) -> node_ok N G l p more n -> node_ok N' G l p more n.
Proof. intros E [H1 H2 H3 H4 H5]. split; try done. intros k Hk. by rewrite E, H2. Qed.
(** ... and a slot of it is written when the cell is its child. *)
Lemma node_ok_slot N N' G l p n q v more more' c :
  q / 64 = p -> at_ N' l q = v -> (forall q', q' <> q -> at_ N' l q' = at_ N l q') ->
  c = count n + some_ v - some_ (at_ N l q) - more + more' ->
  node_ok N G l p more n -> node_ok N' G l p more' (n <| slots := <[Z.to_nat (q mod 64) := v]> (slots n) |> <| count := c |>).
Proof.
  intros <- Ev Efr Ec [H1 H2 H3 H4 H5]. pose proof (Z.mod_pos_bound q 64). pose proof (Z.div_mod q 64) as Eq.
  split; cbn; try done; [by rewrite length_insert| |].
  - intros k Hk. destruct (decide (k = q mod 64)) as [->|Hne].
    + rewrite list_lookup_insert_eq by (rewrite H1; lia). rewrite <- Z.div_mod by lia. by rewrite Ev.
    + rewrite list_lookup_insert_ne by lia. rewrite H2 by done. by rewrite Efr by lia.
  - rewrite (occupied_insert _ _ (at_ N l q)); [lia|]. rewrite H2 by lia. by rewrite <- Z.div_mod by lia.
Qed.
Lemma ctor_ok N G l p : (forall k, 0 <= k < 64 -> at_ N l (64 * p + k) = 0) -> (forall t k, 0 <= k < 64 -> ~ G t l (64 * p + k)) ->
  node_ok N G l p 0 radix_tree_node_ctor.
Proof.
  intros Hz Hg. split; try done.
  - intros k Hk. rewrite Hz by done. unfold slots, radix_tree_node_ctor. apply lookup_replicate_2. lia.
  - intros t Ht. exists [0; 0]. split; [by destruct Ht as [-> | ->]|]. split; [eexists _, _; split; [done|lia]|].
    intros k Hk. rewrite test_bit_spec by done. rewrite !Z.bits_0. split; [by destruct (k <? 32)|]. intros H. by apply Hg in H.
Qed.
Lemma ctor_is N G l p n : node_ok N G l p 0 n -> (forall k, 0 <= k < 64 -> at_ N l (64 * p + k) = 0) ->
  (forall t k, 0 <= k < 64 -> ~ G t l (64 * p + k)) -> n = radix_tree_node_ctor.
Proof.
  intros [H1 H2 H3 H4 H5] Hz Hg. destruct n as [c sl tg]. cbn in *. unfold radix_tree_node_ctor.
  assert (sl = replicate 64 0) as ->.
  { apply list_eq. intros j. destruct (decide (j < 64)%nat) as [Hj|Hj].
    - rewrite lookup_replicate_2 by done. specialize (H2 (Z.of_nat j)). rewrite Nat2Z.id, Hz in H2 by lia. apply H2. lia.
    - rewrite !lookup_ge_None_2; [done|rewrite length_replicate; lia|lia]. }
  f_equal; [done|]. destruct tg as [|t0 [|t1 [|]]]; try done. cbn.
  destruct (H5 0 ltac:(tauto)) as (w & [= <-] & Hw & Hb). destruct (H5 1 ltac:(tauto)) as (w' & [= <-] & Hw' & Hb').
  rewrite (words_none t0), (words_none t1); [done|done| |done|]; intros k Hk E; [apply (Hg 1 k Hk), Hb'|apply (Hg 0 k Hk), Hb]; done.
Qed.

Definition not_in (N : cells) (a : Z) : Prop := forall l p, N !! (S l, p) <> Some a.

(** A cell [(l, q)] is given the content [v]; [s'] is the memory after it. *)
Section Add.
Context (s s' : rt) (h : nat) (N : cells) (G : tagp) (l : nat) (q v : Z).
Context (W : wf s h N G None) (Hq : N !! (l, q) = None) (Hv : 0 < v) (Hq0 : 0 <= q) (Hqb : Z.shiftl q (6 * Z.of_nat l) < 2 ^ 32).
Context (Hl : (l <= h)%nat) (Hh : (0 < h)%nat) (Htop : l = h -> q = 0) (Hpar : (l < h)%nat -> is_Some (N !! (S l, q / 64))).
(** A new node is fresh, and nothing below it is tagged. *)
Context (Hnew : forall l', l = S l' -> nodes s !! v = Some radix_tree_node_ctor /\ (v ∉ (cache s ++ preloads s)) /\ not_in N v /\
  forall t k, 0 <= k < 64 -> ~ G t l' (64 * q + k)).
Context (Eh : height (root s') = height (root s)) (Er : rnode (root s') = at_ (<[(l, q) := v]> N) h 0).
Context (Ec : cache s' = cache s) (Ep : preloads s' = preloads s).
Context (Hfr : forall b, ((l < h)%nat -> N !! (S l, q / 64) <> Some b) -> nodes s' !! b = nodes s !! b).
Context (Hup : forall a n, (l < h)%nat -> N !! (S l, q / 64) = Some a -> nodes s !! a = Some n ->
  nodes s' !! a = Some ((n <| slots := <[Z.to_nat (q mod 64) := v]> (slots n) |>) <| count := count n + 1 |>)).

Lemma add_nodes l' p' b : N !! (S l', p') = Some b -> exists n, nodes s' !! b = Some n /\ node_ok (<[(l, q) := v]> N) G l' p' 0 n.
Proof.
  intros Hb. destruct (wf_node _ _ _ _ _ W _ _ _ Hb) as (n & Hn & Hok). rewrite late_none in Hok.
  destruct (decide (l' = l /\ p' = q / 64)) as [[-> ->]|Hne].
  - assert (l < h)%nat by (destruct (wf_cell _ _ _ _ _ W _ _ _ Hb); lia). eexists. split; [by apply Hup|].
    eapply (node_ok_slot N _ G l (q / 64) n q v 0 0); try done.
    + rewrite at_insert. by rewrite bool_decide_true.
    + intros q' Hne. rewrite at_insert. rewrite bool_decide_false by tauto. done.
    + rewrite (proj2 (at_zero _ _ _ _ _ l q W) Hq). unfold some_, truth. replace (v =? 0) with false by lia. cbn. lia.
  - exists n. split.
    + rewrite Hfr; [done|]. intros Hlh Ha. destruct (wf_inj _ _ _ _ _ W _ _ _ _ _ Ha Hb) as [<- <-]. tauto.
    + eapply node_ok_frame; [|done]. intros k Hk. rewrite at_insert, bool_decide_false; [done|].
      intros [-> E]. apply Hne. split; [done|]. rewrite <- E. by rewrite child_div.
Qed.
Lemma add_new_node l' a : l = S l' -> a = v -> exists n, nodes s' !! a = Some n /\ node_ok (<[(l, q) := v]> N) G l' q 0 n.
Proof.
  intros E ->. destruct (Hnew l' E) as (H1 & H2 & H3 & H4). exists radix_tree_node_ctor. split.
  - rewrite Hfr; [done|]. intros Hlh Hb. by apply (H3 _ _ Hb).
  - apply ctor_ok; [|intros; by apply H4]. intros k Hk. rewrite at_insert, bool_decide_false by (intros [? _]; lia).
    apply (at_zero _ _ _ _ _ _ _ W). eapply wf_no_child; [done|lia|by rewrite <- E|done].
Qed.
Lemma add_dom b : is_Some (nodes s' !! b) -> is_Some (nodes s !! b).
Proof.
  intros Hb. destruct (decide ((l < h)%nat /\ N !! (S l, q / 64) = Some b)) as [[Hlh Ha]|Hne].
  - destruct (wf_node _ _ _ _ _ W _ _ _ Ha) as (n & Hn & _). eauto.
  - rewrite Hfr in Hb; [done|]. intros Hlh Ha. tauto.
Qed.
Lemma add_lookup l' p' a : <[(l, q) := v]> N !! (l', p') = Some a -> (l' = l /\ p' = q /\ a = v) \/ N !! (l', p') = Some a.
Proof. intros [[[= -> ->] ->]|[_ H]]%lookup_insert_Some; [by left|by right]. Qed.
Lemma add_fresh l' p' : l = S l' -> N !! (S p'.1, p'.2) = Some v -> False.
Proof. intros E H. destruct (Hnew l' E) as (_ & _ & H3 & _). by apply H3 in H. Qed.

Lemma wf_add : wf s' h (<[(l, q) := v]> N) G None.
Proof.
  split; try (rewrite ?Eh, ?Ec, ?Ep; apply W).
  - lia.
  - done.
  - intros l' p' a [(-> & -> & ->)|H]%add_lookup; [done|by apply W].
  - intros p' a [(<- & -> & ->)|H]%add_lookup; [by apply Htop|by eapply wf_top].
  - intros l' p' a Ha Hl'. destruct (decide ((S l', p' / 64) = (l, q))) as [->|Hne]; [rewrite lookup_insert_eq; eauto|].
    rewrite lookup_insert_ne by done. apply add_lookup in Ha as [(-> & -> & ->)|H]; [by apply Hpar|by eapply wf_parent].
  - intros l' p' a [(E & -> & ->)|H]%add_lookup; [by eapply add_new_node|by apply add_nodes].
  - intros l1 p1 l2 p2 a [(E & -> & ->)|H]%add_lookup [(E' & -> & Ea)|H']%add_lookup.
    + split; [congruence|done].
    + by destruct (add_fresh l1 (l2, p2)).
    + subst a. by destruct (add_fresh l2 (l1, p1)).
    + by eapply wf_inj.
  - intros b. rewrite Ec, Ep. intros Hb. destruct (wf_free _ _ _ _ _ W b Hb) as (H1 & H2 & H3). split_and!; [done| |].
    + rewrite Hfr; [done|]. intros _ Ha. by apply H3 in Ha.
    + intros l' p' [(E & -> & ->)|H]%add_lookup; [|by apply H3 in H]. destruct (Hnew l' (eq_sym E)) as (_ & H & _). done.
  - intros b Hb. eapply wf_addr; [exact W|by apply add_dom].
Qed.
End Add.

(** The cell [(l, q)] is emptied and its node, which has nothing below it,
    freed; the count of the node above is not yet right. *)
Section Remove.
Context (s s' : rt) (h : nat) (N : cells) (G : tagp) (l : nat) (q v : Z).
Context (W : wf s h N G None) (Hq : N !! (l, q) = Some v).
Context (Hnone : forall l', l = S l' -> forall k, 0 <= k < 64 -> N !! (l', 64 * q + k) = None /\ forall t, ~ G t l' (64 * q + k)).
Context (Eh : height (root s') = height (root s)) (Er : rnode (root s') = at_ (delete (l, q) N) h 0).
Context (Ec : cache s' = (if l is O then [] else [v]) ++ cache s) (Ep : preloads s' = preloads s).
Context (Hfr : forall b, ((l < h)%nat -> N !! (S l, q / 64) <> Some b) -> nodes s' !! b = nodes s !! b).
Context (Hup : forall a n, (l < h)%nat -> N !! (S l, q / 64) = Some a -> nodes s !! a = Some n ->
  nodes s' !! a = Some (n <| slots := <[Z.to_nat (q mod 64) := 0]> (slots n) |>)).
Let D : option (nat * Z) := if bool_decide (l < h)%nat then Some (S l, q / 64) else None.

Lemma remove_lookup l' p' a : delete (l, q) N !! (l', p') = Some a -> (l', p') <> (l, q) /\ N !! (l', p') = Some a.
Proof. intros [H1 H2]%lookup_delete_Some. by split; [apply not_eq_sym|]. Qed.
Lemma remove_late l' p' : (l' < h)%nat -> late D (S l') p' = of_bool (bool_decide (l' = l /\ p' = q / 64)).
Proof.
  intros Hl. unfold late, D. f_equal. apply bool_decide_ext. case_bool_decide as H.
  - split; [by intros [= -> ->]|by intros [-> ->]].
  - split; [done|]. intros [-> _]. lia.
Qed.
Lemma remove_nodes l' p' b : delete (l, q) N !! (S l', p') = Some b ->
  exists n, nodes s' !! b = Some n /\ node_ok (delete (l, q) N) G l' p' (late D (S l') p') n.
Proof.
  intros [Hd Hb]%remove_lookup. destruct (wf_node _ _ _ _ _ W _ _ _ Hb) as (n & Hn & Hok). rewrite late_none in Hok.
  assert (l' < h)%nat as Hl by (destruct (wf_cell _ _ _ _ _ W _ _ _ Hb); lia). rewrite remove_late by done. case_bool_decide as H.
  - destruct H as [-> ->]. eexists. split; [by apply Hup|].
    replace (n <| slots := _ |>) with ((n <| slots := <[Z.to_nat (q mod 64) := 0]> (slots n) |>) <| count := count n |>) by by destruct n.
    eapply (node_ok_slot N _ G l (q / 64) n q 0 0 1); try done.
    + rewrite at_delete. by rewrite bool_decide_true.
    + intros q' Hne. rewrite at_delete. rewrite bool_decide_false by tauto. done.
    + rewrite (at_some _ _ _ _ Hq). destruct (wf_cell _ _ _ _ _ W _ _ _ Hq). unfold some_, truth. replace (v =? 0) with false by lia. cbn. lia.
  - exists n. split.
    + rewrite Hfr; [done|]. intros Hlh Ha. destruct (wf_inj _ _ _ _ _ W _ _ _ _ _ Ha Hb) as [<- <-]. tauto.
    + eapply node_ok_frame; [|done]. intros k Hk. rewrite at_delete, bool_decide_false; [done|].
      intros [-> E]. apply H. split; [done|]. rewrite <- E. by rewrite child_div.
Qed.
Lemma remove_dom b : is_Some (nodes s' !! b) -> is_Some (nodes s !! b).
Proof.
  intros Hb. destruct (decide ((l < h)%nat /\ N !! (S l, q / 64) = Some b)) as [[Hlh Ha]|Hne].
  - destruct (wf_node _ _ _ _ _ W _ _ _ Ha) as (n & Hn & _). eauto.
  - rewrite Hfr in Hb; [done|]. intros Hlh Ha. tauto.
Qed.
Lemma remove_freed l' : l = S l' -> nodes s' !! v = Some radix_tree_node_ctor.
Proof.
  intros E. rewrite E in Hq. destruct (wf_node _ _ _ _ _ W _ _ _ Hq) as (n & Hn & Hok). rewrite Hfr.
  - rewrite Hn. f_equal. eapply ctor_is; [exact Hok| |]; intros; [|by apply Hnone]. apply (at_zero _ _ _ _ _ _ _ W). by apply Hnone.
  - intros Hlh Ha. destruct (wf_inj _ _ _ _ _ W _ _ _ _ _ Ha Hq). lia.
Qed.
Lemma remove_free_old b : b ∈ cache s ++ preloads s -> 0 < b /\ nodes s' !! b = Some radix_tree_node_ctor /\ not_in (delete (l, q) N) b.
Proof.
  intros Hb. destruct (wf_free _ _ _ _ _ W b Hb) as (H1 & H2 & H3). split_and!; [done| |].
  - rewrite Hfr; [done|]. intros _ Ha. by apply H3 in Ha.
  - intros l' p' [_ H]%remove_lookup. by apply H3 in H.
Qed.
Lemma remove_free_new l' : l = S l' -> (v ∉ (cache s ++ preloads s)) /\ 0 < v /\ not_in (delete (l, q) N) v.
Proof.
  intros E. destruct (wf_cell _ _ _ _ _ W _ _ _ Hq) as (Hv & _). rewrite E in *. split_and!; [|done|].
  - intros Hb. destruct (wf_free _ _ _ _ _ W _ Hb) as (_ & _ & H). by apply (H _ _ Hq).
  - intros l2 p2 [Hne H]%lookup_delete_Some. destruct (wf_inj _ _ _ _ _ W _ _ _ _ _ Hq H) as [<- <-]. done.
Qed.

Lemma remove_cache : cache s' = cache s \/ exists l', l = S l' /\ cache s' = v :: cache s.
Proof. rewrite Ec. clear. destruct l; eauto. Qed.

Lemma wf_remove : wf s' h (delete (l, q) N) G D.
Proof.
  split; try (rewrite ?Eh; apply W).
  - intros E. apply (wf_empty _ _ _ _ _ W) in E. by rewrite E in Hq.
  - done.
  - intros l' p' a [_ H]%remove_lookup. by apply W.
  - intros p' a [_ H]%remove_lookup. by eapply wf_top.
  - intros l' p' a [Hne H]%remove_lookup Hl'. rewrite lookup_delete_ne; [by eapply wf_parent|].
    intros [= E1 E2]. destruct (Hnone l' E1 (p' mod 64)) as [E _]; [apply Z.mod_pos_bound; lia|].
    rewrite E2, <- Z.div_mod in E by lia. congruence.
  - apply remove_nodes.
  - intros l1 p1 l2 p2 a [_ H]%remove_lookup [_ H']%remove_lookup. by eapply wf_inj.
  - intros b. rewrite Ep. destruct remove_cache as [->|(l' & El & ->)]; [by apply remove_free_old|]. cbn.
    intros [-> | Hb]%elem_of_cons; [|by apply remove_free_old].
    destruct (remove_free_new l' El) as (_ & H1 & H2). split_and!; [done|by eapply remove_freed|done].
  - rewrite Ep. destruct remove_cache as [->|(l' & El & ->)]; [apply W|]. cbn. apply NoDup_cons. split; [|apply W]. by eapply remove_free_new.
  - intros b Hb. eapply wf_addr; [exact W|by apply remove_dom].
Qed.
End Remove.

(** The count of the node above is made right. *)
Lemma wf_decrement s h N G l p a n : wf s h N G (Some (S l, p)) -> N !! (S l, p) = Some a -> nodes s !! a = Some n ->
  wf (s <| nodes := <[a := n <| count := u32 (count n - 1) |>]> (nodes s) |>) h N G None /\ u32 (count n - 1) = occupied (slots n) /\
  node_ok N G l p 1 n.
Proof.
  intros W Ha Hn. destruct (wf_node _ _ _ _ _ W _ _ _ Ha) as (n' & Hn' & Hok). replace n' with n in * by congruence.
  unfold late in Hok. rewrite bool_decide_true in Hok by done. cbn in Hok. pose proof (occupied_range (slots n)) as Hr.
  assert (u32 (count n - 1) = occupied (slots n)) as E.
  { rewrite (nk_count _ _ _ _ _ _ Hok). rewrite u32_small; rewrite (nk_length _ _ _ _ _ _ Hok) in Hr; lia. }
  split; [|done]. rewrite E. destruct W. split; cbn; try done.
  - intros l' p' b Hb. destruct (decide (b = a)) as [->|Hne].
    + destruct (wf_inj0 _ _ _ _ _ Ha Hb) as [<- <-]. rewrite lookup_insert_eq. eexists. split; [done|]. destruct Hok as [H1 H2 H3 H4 H5].
      split; cbn; try done. rewrite late_none. lia.
    + rewrite lookup_insert_ne by done. destruct (wf_node0 _ _ _ Hb) as (m & Hm & Hok'). exists m. split; [done|].
      unfold late in *. rewrite bool_decide_false in Hok'; [done|]. intros [= -> ->]. congruence.
  - intros b Hb. destruct (wf_free0 b Hb) as (H1 & H2 & H3). split_and!; try done. rewrite lookup_insert_ne; [done|]. intros ->. by apply (H3 l p).
  - intros b. destruct (decide (b = a)) as [->|]; [intros _; apply wf_addr0; eauto|rewrite lookup_insert_ne by done; apply wf_addr0].
Qed.
