(* ===== verification/RadixProof.v ===== *)
(** * The radix tree: insertion, lookup, tags and removal keep the invariant
    and do to the items and tags what they should *)
From S2P Require Import Prelude.
From S2P Require Import RadixTree.
From S2P Require Import RadixSpec.

(** ** What the tree stands for *)
Record rmap := { items : gmap Z Z; tagged : Z -> gset Z }.
(** A cell is tagged when an item below it is. *)
Definition tg (T : Z -> gset Z) : tagp := fun t l p => exists i, i ∈ T t /\ p = pre l i.

Record rep (s : rt) (A : rmap) (h : nat) (N : cells) : Prop := {
  rep_wf : wf s h N (tg (tagged A)) None;
  rep_items i : items A !! i = N !! (0%nat, i);
  rep_tags t : tagged A t ⊆ dom (items A);
}.

Lemma wf_frame s s' h N G D : root s' = root s -> nodes s' = nodes s -> cache s' = cache s -> preloads s' = preloads s -> wf s h N G D -> wf s' h N G D.
Proof. intros E1 E2 E3 E4 W. destruct W. split; rewrite ?E1, ?E2, ?E3, ?E4; done. Qed.

Lemma absent_untagged s A h N l p k t : rep s A h N -> (S l <= h)%nat -> N !! (S l, p) = None -> 0 <= k < 64 -> ~ tg (tagged A) t l (64 * p + k).
Proof.
  intros R Hl E Hk (i & Hi & Ep). apply (rep_tags _ _ _ _ R), elem_of_dom in Hi as [a Ha]. rewrite (rep_items _ _ _ _ R) in Ha.
  destruct (wf_above _ _ _ _ _ _ _ _ (S l) (rep_wf _ _ _ _ R) Ha) as [b Hb]; [lia|].
  rewrite Nat.add_0_r, pre_S, <- Ep, child_div in Hb by done. congruence.
Qed.
Lemma items_range s A h N i a : rep s A h N -> items A !! i = Some a -> 0 <= i < 2 ^ 32 /\ 0 < a /\ pre h i = 0 /\ (0 < h)%nat.
Proof.
  intros R Ha. rewrite (rep_items _ _ _ _ R) in Ha. pose proof (rep_wf _ _ _ _ R) as W. destruct (wf_cell _ _ _ _ _ W _ _ _ Ha) as (H1 & H2 & H3 & H4).
  destruct (wf_below_top _ _ _ _ _ _ _ _ W Ha) as [H5 _]. rewrite Z.mul_0_r, Z.shiftl_0_r in H4. replace (h - 0)%nat with h in H5 by lia. split_and!; try done.
  destruct h; [|lia]. rewrite (wf_empty _ _ _ _ _ W) in Ha by done. done.
Qed.

(** ** Allocation *)
Lemma new_object_fresh (m : gmap Z radix_tree_node) : m !! new_object m = None /\ 0 < new_object m.
Proof.
  assert (forall l x, x ∈ l -> x <= foldr Z.max 0 l) as Hle.
  { induction l as [|y l IH]; intros x; [by intros ?%elem_of_nil|]. intros [-> | H]%elem_of_cons; cbn; [lia|]. specialize (IH x H). lia. }
  assert (forall l, 0 <= foldr Z.max 0 l) as H0 by (induction l; cbn; lia).
  split; [|specialize (H0 ((map_to_list m).*1)); unfold new_object; lia].
  destruct (m !! new_object m) as [n|] eqn:E; [|done]. apply elem_of_map_to_list in E.
  assert (new_object m ∈ (map_to_list m).*1) as H by (apply list_elem_of_fmap; by eexists (_, _)).
  apply Hle in H. unfold new_object in H at 1. lia.
Qed.

Definition fresh_in (s : rt) (N : cells) (p : Z) : Prop :=
  0 < p /\ nodes s !! p = Some radix_tree_node_ctor /\ (p ∉ (cache s ++ preloads s)) /\ not_in N p.
Definition pool (s : rt) : nat := length (preloads s).

Lemma new_object_run s h N G (p := new_object (nodes s)) (s' := s <| nodes := <[p := radix_tree_node_ctor]> (nodes s) |>) :
  wf s h N G None -> wf s' h N G None /\ fresh_in s' N p.
Proof.
  intros W. destruct (new_object_fresh (nodes s)) as [H1 H2]. fold p in H1, H2.
  assert (forall b, b ∈ cache s ++ preloads s -> b <> p) as Hne.
  { intros b Hb ->. destruct (wf_free _ _ _ _ _ W _ Hb) as (_ & H & _). congruence. }
  assert (not_in N p) as Hni. { intros l q Ha. destruct (wf_node _ _ _ _ _ W _ _ _ Ha) as (n & Hn & _). congruence. }
  split; [|split_and!; cbn; [done|by rewrite lookup_insert_eq|intros Hb; by apply Hne in Hb|done]].
  destruct W. split; cbn; try done.
  - intros l q a Ha. rewrite lookup_insert_ne by (intros <-; by apply Hni in Ha). by apply wf_node.
  - intros b Hb. rewrite lookup_insert_ne by by apply not_eq_sym, Hne. by apply wf_free.
  - intros b. destruct (decide (b = p)) as [->|]; [done|]. rewrite lookup_insert_ne by done. apply wf_addr.
Qed.
Lemma cached_object_run s h N G p free : cache s = p :: free -> wf s h N G None ->
  wf (s <| cache := free |>) h N G None /\ fresh_in (s <| cache := free |>) N p.
Proof.
  intros Ec W. pose proof (wf_distinct _ _ _ _ _ W) as Hd. rewrite Ec in Hd. apply NoDup_cons in Hd as [Hp Hd].
  destruct (wf_free _ _ _ _ _ W p) as (H1 & H2 & H3); [rewrite Ec; left|]. split; [|by split_and!].
  destruct W. split; cbn; try done. intros b Hb. apply wf_free. rewrite Ec. by right.
Qed.
Lemma cache_alloc_run s h N G : wf s h N G None -> exists p s', kmem_cache_alloc s = Some (p, s') /\ wf s' h N G None /\
  root s' = root s /\ preloads s' = preloads s /\ (p = 0 \/ fresh_in s' N p).
Proof.
  intros W. assert (wf (s <| outcomes := tail (outcomes s) |>) h N G None) as W1 by by apply (wf_frame s).
  assert (exists p s', (free ← gets cache;
      match free with
      | p :: free => modify (fun s => s <| cache := free |>);; ret p
      | [] => p ← gets (fun s => new_object (nodes s)); modify (fun s => s <| nodes := <[p := radix_tree_node_ctor]> (nodes s) |>);; ret p
      end) (s <| outcomes := tail (outcomes s) |>) = Some (p, s') /\ wf s' h N G None /\
      root s' = root s /\ preloads s' = preloads s /\ fresh_in s' N p) as (p & s' & E & H).
  { unfold bind, gets. set (s1 := s <| outcomes := _ |>) in *. destruct (cache s1) as [|p free] eqn:Ec.
    - destruct (new_object_run _ _ _ _ W1). eexists _, _. split; [done|]. by split_and!.
    - destruct (cached_object_run _ _ _ _ _ _ Ec W1). eexists _, _. split; [done|]. by split_and!. }
  unfold kmem_cache_alloc, bind at 1, gets at 1. unfold bind at 1, modify at 1.
  destruct (outcomes s) as [|[] o]; [exists p, s'|exists p, s'|eexists 0, _; split_and!; try done; by left]; (split; [exact E|tauto]).
Qed.

Lemma node_alloc_run s h N G : wf s h N G None -> exists p s', radix_tree_node_alloc s = Some (p, s') /\ wf s' h N G None /\ root s' = root s /\
  (pool s <= S (pool s'))%nat /\
  ((p = 0 /\ (truth (Z.land (gfp_mask (root s)) __GFP_WAIT) = true \/ preloads s = [])) \/ fresh_in s' N p).
Proof.
  intros W. destruct (cache_alloc_run s h N G W) as (p & s1 & E & W1 & Er & Ep & Hp). unfold radix_tree_node_alloc, pool.
  erewrite bind_run by exact E. unfold bind at 1, gets. rewrite Er. destruct Hp as [->|Hp].
  - destruct (truth (Z.land _ __GFP_WAIT)) eqn:Em; cbn [Z.eqb negb andb].
    + exists 0, s1. split_and!; try done; [rewrite Ep; lia|left; tauto].
    + unfold bind at 1, gets. rewrite Ep. destruct (preloads s) as [|q qs] eqn:Eq.
      * exists 0, s1. split_and!; try done; [cbn; lia|left; tauto].
      * assert (q ∈ cache s1 ++ preloads s1) as Hin by (apply elem_of_app; right; rewrite Ep; left).
        destruct (wf_free _ _ _ _ _ W1 _ Hin) as (H1 & H2 & H3). pose proof (wf_distinct _ _ _ _ _ W1) as Hd. rewrite Ep in Hd.
        apply NoDup_app in Hd as (D1 & D2 & D3). apply NoDup_cons in D3 as [D3 D4].
        eexists _, _. split; [done|]. split_and!; try done; [|right; split_and!; try done].
        { destruct W1. split; cbn; try done.
          - intros b Hb. apply wf_free. rewrite Ep. apply elem_of_app in Hb as [?|?]; apply elem_of_app; [by left|right; by right].
          - apply NoDup_app. split_and!; try done. intros b Hb Hq. apply (D2 b Hb). by right. }
        cbn. intros [Hb|Hb]%elem_of_app; [|done]. apply (D2 q Hb). left.
  - assert ((p =? 0) = false) as -> by (destruct Hp; lia). cbn. exists p, s1. split_and!; try done; [rewrite Ep; lia|by right].
Qed.

(** ** Linking a node or an item into a slot of the path *)
Definition linked (s : rt) (slot : slot_ptr) (v : Z) : rt :=
  match slot with
  | RootSlot => s <| root := (root s) <| rnode := v |> |>
  | NodeSlot a k => s <| nodes := alter (fun n => (n <| slots := <[Z.to_nat k := v]> (slots n) |>) <| count := count n + 1 |>) a (nodes s) |>
  end.

Section Link.
Context (s : rt) (h : nat) (N : cells) (G : tagp) (i : Z) (l : nat) (node : Z) (slot : slot_ptr) (v : Z).
Context (W : wf s h N G None) (Hi : 0 <= i < 2 ^ 32) (Hp : pre h i = 0) (Hh : (0 < h)%nat) (Hs : slot_at h N i l node slot).
Context (Hnone : N !! (l, pre l i) = None) (Hv : 0 < v).
Context (Hnew : forall l', l = S l' -> fresh_in s N v /\ forall t k, 0 <= k < 64 -> ~ G t l' (64 * pre l i + k)).

Lemma wf_linked : wf (linked s slot v) h (<[(l, pre l i) := v]> N) G None.
Proof.
  assert (forall l', l = S l' -> nodes s !! v = Some radix_tree_node_ctor /\ (v ∉ (cache s ++ preloads s)) /\ not_in N v /\
    forall t k, 0 <= k < 64 -> ~ G t l' (64 * pre l i + k)) as Hnew'. { intros l' E. destruct (Hnew l' E) as [(_ & H1 & H2 & H3) H4]. done. }
  assert (Z.shiftl (pre l i) (6 * Z.of_nat l) < 2 ^ 32) by (pose proof (pre_le l i); lia). pose proof (pre_nonneg l i ltac:(lia)).
  destruct Hs as [(-> & -> & ->)|(Hl & Ha & ->)]; cbn.
  - apply (wf_add s); try done; try lia. cbn. rewrite Hp. unfold at_. by rewrite lookup_insert_eq.
  - rewrite pre_S in Ha. apply (wf_add s); cbn; try done; try lia.
    + rewrite at_insert, bool_decide_false by (intros [? _]; lia). apply W.
    + intros b Hb. rewrite lookup_alter_ne; [done|]. intros <-. by apply Hb.
    + intros a n _ Ha' Hn. replace a with node by congruence. rewrite lookup_alter_eq. replace node with a by congruence. by rewrite Hn.
Qed.

Lemma count_small a n : (l < h)%nat -> N !! (S l, pre (S l) i) = Some a -> nodes s !! a = Some n -> u32 (count n + 1) = count n + 1.
Proof.
  intros Hl Ha Hn. destruct (wf_node _ _ _ _ _ W _ _ _ Ha) as (n' & Hn' & Hok). replace n' with n in Hok by congruence.
  pose proof (nk_count _ _ _ _ _ _ Hok) as Hc. rewrite late_none in Hc. pose proof (occupied_range (slots n)) as Hr.
  rewrite (nk_length _ _ _ _ _ _ Hok) in Hr. apply u32_small. lia.
Qed.
Lemma write_inc_run : (write slot v;; when (truth node) (set_node node inc_count)) s = Some (tt, linked s slot v).
Proof.
  destruct Hs as [(-> & -> & ->)|(Hl & Ha & ->)]; [done|]. destruct (wf_node _ _ _ _ _ W _ _ _ Ha) as (n & Hn & Hok).
  assert (truth node = true) as Et. { destruct (wf_cell _ _ _ _ _ W _ _ _ Ha). unfold truth. by replace (node =? 0) with false by lia. }
  cbn [write]. erewrite bind_run by by apply set_node_run. rewrite Et. cbn [when].
  erewrite set_node_run by (cbn; by rewrite lookup_insert_eq). cbn. do 2 f_equal. unfold upd. cbn. f_equal.
  rewrite insert_insert_eq. apply map_eq. intros b. destruct (decide (b = node)) as [->|].
  - rewrite lookup_insert_eq, lookup_alter_eq, Hn. cbn. unfold inc_count, upd. cbn. by rewrite (count_small node n).
  - by rewrite lookup_insert_ne, lookup_alter_ne by done.
Qed.
(** The other order, with the checks of the tags between. *)
Lemma inc_write_run (Hl0 : l = O) (Hg : forall t, t = 0 \/ t = 1 -> ~ G t O i) offset : offset = off 0 i ->
  (when (truth node) (set_node node inc_count;; b0 ← tag_get node 0 offset; BUG_ON b0;; b1 ← tag_get node 1 offset; BUG_ON b1);; write slot v) s =
  Some (tt, linked s slot v).
Proof.
  intros ->. destruct Hs as [(-> & -> & ->)|(Hl & Ha & ->)]; [done|]. rewrite Hl0 in Ha, Hl |- *.
  destruct (wf_node _ _ _ _ _ W _ _ _ Ha) as (n & Hn & Hok).
  assert (truth node = true) as Et. { destruct (wf_cell _ _ _ _ _ W _ _ _ Ha). unfold truth. by replace (node =? 0) with false by lia. }
  rewrite Et. cbn [when]. unfold bind at 1. erewrite bind_run by by apply set_node_run.
  set (s1 := s <| nodes := _ |>). assert (forall t, t = 0 \/ t = 1 -> tag_get node t (off 0 i) s1 = Some (false, s1)) as Hget.
  { intros t Ht. destruct (nk_tags _ _ _ _ _ _ Hok t Ht) as (w & Hw & Hwo & Hb). unfold tag_get, node_at, bind, gets, s1. cbn.
    rewrite lookup_insert_eq. cbn. rewrite Hw. cbn. unfold ret. do 2 f_equal. apply not_true_is_false. intros E.
    apply (Hb _ (off_range 0 i)) in E. rewrite <- pre_split, pre_0 in E. by eapply Hg. }
  erewrite bind_run by (apply Hget; tauto). erewrite bind_run by done. erewrite bind_run by (apply Hget; tauto).
  change (BUG_ON false s1) with (Some (tt, s1)). cbn [write].
  erewrite set_node_run by (unfold s1; cbn; by rewrite lookup_insert_eq). cbn. do 2 f_equal. unfold upd. cbn. f_equal.
  rewrite insert_insert_eq. apply map_eq. intros b. destruct (decide (b = node)) as [->|].
  - rewrite lookup_insert_eq, lookup_alter_eq, Hn. cbn. unfold inc_count, upd. cbn. by rewrite (count_small node n) by (done || by rewrite Hl0).
  - by rewrite lookup_insert_ne, lookup_alter_ne by done.
Qed.
End Link.

(** ** Insertion *)
Definition can_wait (s : rt) : Prop := truth (Z.land (gfp_mask (root s)) __GFP_WAIT) = true.

Lemma rep_add s s' A h N l q v : rep s A h N -> wf s' h (<[(S l, q) := v]> N) (tg (tagged A)) None -> rep s' A h (<[(S l, q) := v]> N).
Proof. intros [W H1 H2] W'. split; try done. intros i. by rewrite lookup_insert_ne. Qed.

Lemma absent_item s A h N i l : rep s A h N -> (l <= h)%nat -> N !! (l, pre l i) = None -> items A !! i = None.
Proof.
  intros R Hl E. rewrite (rep_items _ _ _ _ R). destruct (N !! (0%nat, i)) as [a|] eqn:Ea; [|done].
  destruct (wf_above _ _ _ _ _ _ _ _ l (rep_wf _ _ _ _ R) Ea) as [b Hb]; [lia|]. rewrite Nat.add_0_r in Hb. congruence.
Qed.
Lemma add_child_run s A h N i l node slot : rep s A h N -> 0 <= i < 2 ^ 32 -> pre h i = 0 -> (S l <= h)%nat -> slot_at h N i (S l) node slot ->
  exists b s' N', add_child node slot s = Some (b, s') /\ rep s' A h N' /\ slot_at h N' i (S l) node slot /\
    gfp_mask (root s') = gfp_mask (root s) /\ (pool s <= S (pool s'))%nat /\
    (if b then is_Some (N' !! (S l, pre (S l) i)) else items A !! i = None /\ (can_wait s \/ preloads s = [])).
Proof.
  intros R Hi Hp Hl Hs. pose proof (rep_wf _ _ _ _ R) as W. unfold add_child. erewrite bind_run by (eapply (read_run _ _ _ _ _ i); [done|lia|done|done]).
  destruct (Z.eqb_spec (at_ N (S l) (pre (S l) i)) 0) as [E|E].
  2:{ exists true, s, N. split_and!; try done; [lia|]. eexists. by eapply at_pos. }
  apply (at_zero _ _ _ _ _ _ _ W) in E. destruct (node_alloc_run s h N _ W) as (p & s1 & Ea & W1 & Er & Epl & Hp').
  erewrite bind_run by exact Ea. destruct Hp' as [[-> Hf]|Hf].
  - exists false, s1, N. split_and!; try done; [by destruct R; split|by rewrite Er|]. by eapply absent_item.
  - destruct Hf as (H0 & Hf). replace (p =? 0) with false by lia.
    assert (forall l', S l = S l' -> fresh_in s1 N p /\ forall t k, 0 <= k < 64 -> ~ tg (tagged A) t l' (64 * pre (S l) i + k)) as Hnew.
    { intros l' [= <-]. split; [by split|]. intros t k Hk. by eapply absent_untagged. }
    assert (Hh : (0 < h)%nat) by lia. pose proof (wf_linked s1 h N _ i (S l) node slot p W1 Hi Hp Hh Hs E H0 Hnew) as W2.
    pose proof (write_inc_run s1 h N _ i (S l) node slot p W1 Hh Hs E Hnew) as Hw.
    exists true, (linked s1 slot p), (<[(S l, pre (S l) i) := p]> N). split_and!.
    + revert Hw. unfold bind, ret. destruct (write slot p s1) as [[[] s2]|]; [|done]. by destruct (when _ _ s2) as [[[] s3]|]; [intros [= ->]|].
    + by eapply rep_add.
    + destruct Hs as [(E1 & E2 & E3)|(E1 & E2 & E3)]; [by left|right]. split_and!; try done. rewrite lookup_insert_ne; [done|]. intros [= ?]. lia.
    + rewrite <- Er. by destruct slot.
    + etransitivity; [exact Epl|]. by destruct slot.
    + rewrite lookup_insert_eq. eauto.
Qed.

Lemma insert_loop_run A h i : 0 <= i < 2 ^ 32 -> pre h i = 0 -> (h <= 6)%nat -> forall l s N node slot offset shift,
  rep s A h N -> (l <= h)%nat -> slot_at h N i l node slot -> ((l < h)%nat -> offset = off l i) -> (forall l', l = S l' -> shift = 6 * Z.of_nat l') ->
  exists r s' N', insert_loop l shift i node slot offset s = Some (r, s') /\ rep s' A h N' /\
    match r with
    | inl e => e = - ENOMEM /\ items A !! i = None /\ (can_wait s \/ pool s < l)%nat
    | inr (node', slot', offset') => slot_at h N' i 0 node' slot' /\ ((0 < h)%nat -> offset' = off 0 i)
    end.
Proof.
  intros Hi Hp Hh. induction l as [|l IH]; intros s N node slot offset shift R Hl Hs Ho Hsh.
  - exists (inr (node, slot, offset)), s, N. by split_and!.
  - cbn [insert_loop]. destruct (add_child_run s A h N i l node slot R Hi Hp Hl Hs) as (b & s1 & N1 & E1 & R1 & Hs1 & Eg & Epl & Hb).
    erewrite bind_run by exact E1. destruct b; cbn [negb].
    2:{ eexists _, s1, N1. split_and!; [done|done|]. destruct Hb as [Hi0 Hb]. split; [done|]. split; [done|].
      destruct Hb as [Hb|Hb]; [by left|right]. unfold pool. rewrite Hb. cbn. lia. }
    destruct Hb as [a Ha]. erewrite bind_run by (eapply (read_run _ _ _ _ _ i); [apply R1|lia|done..]). rewrite (at_some _ _ _ _ Ha).
    rewrite (Hsh l eq_refl), offset_of_off. destruct (IH s1 N1 a (NodeSlot a (off l i)) (off l i) (next_shift (6 * Z.of_nat l))) as (r & s2 & N2 & E2 & R2 & Hr);
      [done|lia|right; split; [lia|done]|done|intros l' ->; apply next_shift_S; lia|].
    exists r, s2, N2. split_and!; [done|done|]. destruct r as [e|]; [|done]. destruct Hr as (-> & Hi0 & [Hr|Hr]); (split; [done|]); (split; [done|]).
    + left. unfold can_wait in *. by rewrite Eg in Hr.
    + right. lia.
Qed.

Definition with_item (A : rmap) (i v : Z) : rmap := {| items := <[i := v]> (items A); tagged := tagged A |}.

Lemma insert_item_run s A h N i node slot offset v : rep s A h N -> 0 <= i < 2 ^ 32 -> pre h i = 0 -> (0 < h)%nat -> 0 < v ->
  slot_at h N i 0 node slot -> offset = off 0 i ->
  exists s' A' N', insert_item node slot offset v s = Some (if items A !! i is Some _ then - EEXIST else 0, s') /\ rep s' A' h N' /\
    A' = if items A !! i is Some _ then A else with_item A i v.
Proof.
  intros R Hi Hp Hh Hv Hs ->. pose proof (rep_wf _ _ _ _ R) as W. unfold insert_item. erewrite bind_run by (eapply (read_run _ _ _ _ _ i); [done|lia|done..]).
  rewrite pre_0. rewrite (rep_items _ _ _ _ R). destruct (N !! (0%nat, i)) as [a|] eqn:Ea.
  - rewrite (at_some _ _ _ _ Ea). destruct (wf_cell _ _ _ _ _ W _ _ _ Ea) as [Ha _]. unfold truth. replace (a =? 0) with false by lia.
    exists s, A, N. by split_and!.
  - rewrite (proj2 (at_zero _ _ _ _ _ _ _ W) Ea). cbn [truth Z.eqb negb].
    assert (forall t, t = 0 \/ t = 1 -> ~ tg (tagged A) t O i) as Hg.
    { intros t _ (j & Hj & E). rewrite pre_0 in E. subst j. apply (rep_tags _ _ _ _ R), elem_of_dom in Hj as [b Hb].
      rewrite (rep_items _ _ _ _ R) in Hb. congruence. }
    assert (forall l', O = S l' -> fresh_in s N v /\ forall t k, 0 <= k < 64 -> ~ tg (tagged A) t l' (64 * pre 0 i + k)) as Hnew by done.
    rewrite <- (pre_0 i) in Ea. pose proof (inc_write_run s h N _ i 0 node slot v W Hi Hh Hs Ea Hnew eq_refl Hg (off 0 i) eq_refl) as Hw.
    pose proof (wf_linked s h N _ i 0 node slot v W Hi Hp Hh Hs Ea Hv Hnew) as W2.
    exists (linked s slot v), (with_item A i v), (<[(0%nat, i) := v]> N). split_and!; [|rewrite pre_0 in W2; split; cbn; [done| |]|done].
    + revert Hw. unfold bind, ret. destruct (when _ _ s) as [[[] s2]|]; [|done]. by destruct (write _ _ s2) as [[[] s3]|]; [intros [= ->]|].
    + intros j. rewrite (lookup_insert _ i), (lookup_insert _ (0%nat, i)). rewrite (rep_items _ _ _ _ R). destruct (decide (i = j)) as [->|]; [by rewrite decide_True|].
      by rewrite decide_False by congruence.
    + intros t. etransitivity; [apply R|]. rewrite dom_insert_L. set_solver.
Qed.

(** ** A higher tree *)
Lemma extend_height_run s i fuel k : 0 <= i < 2 ^ 32 -> (k <= 6)%nat -> (6 - k <= fuel)%nat ->
  exists k', (k <= k' <= 6)%nat /\ extend_height fuel (Z.of_nat k) i s = Some (Z.of_nat k', s) /\ pre k' i = 0.
Proof.
  intros Hi. revert k. induction fuel as [|fuel IH]; intros k Hk Hf; cbn [extend_height]; unfold bind, radix_tree_maxindex; rewrite Nat2Z.id;
    destruct (maxindex_le k i Hk Hi) as (m & -> & Hm); cbn [deref ret]; destruct (Z.ltb_spec m i) as [H|H];
    try (exists k; split_and!; [lia|lia|done|lia]).
  - apply Hm in H. assert (k = 6%nat) as -> by lia. exfalso. apply H. unfold pre. rewrite Z.shiftr_div_pow2 by lia. apply Z.div_small.
    change (2 ^ (6 * Z.of_nat 6)) with (2 ^ 36). lia.
  - apply Hm in H. assert (k <> 6%nat). { intros ->. apply H. unfold pre. rewrite Z.shiftr_div_pow2 by lia. apply Z.div_small.
      change (2 ^ (6 * Z.of_nat 6)) with (2 ^ 36). lia. }
    destruct (IH (S k)) as (k' & Hk' & E & Hp); [lia|lia|]. exists k'. split_and!; [lia|lia| |done].
    rewrite u32_small by lia. by replace (Z.of_nat k + 1) with (Z.of_nat (S k)) by lia.
Qed.

Definition pushed_node (top : Z) (t0 t1 : bool) : radix_tree_node :=
  {| count := 1; slots := top :: replicate 63 0; tags := [[of_bool t0; 0]; [of_bool t1; 0]] |}.
Lemma push_node_run s p top t0 t1 : nodes s !! p = Some radix_tree_node_ctor ->
  (write (NodeSlot p 0) top;; for_each [0; 1] (fun tag => when ([t0; t1] !!! Z.to_nat tag) (tag_set p tag 0));;
   set_node p (fun n => n <| count := 1 |>)) s = Some (tt, s <| nodes := <[p := pushed_node top t0 t1]> (nodes s) |>).
Proof.
  intros Hn. cbn [write]. erewrite bind_run by by apply set_node_run.
  assert (forall s t n w, nodes s !! p = Some n -> tags n !! Z.to_nat t = Some w -> test_bit 0 w = false ->
    tag_set p t 0 s = Some (tt, s <| nodes := <[p := with_tags t (__set_bit 0) n]> (nodes s) |>)) as Hset.
  { intros s0 t n w H1 H2 H3. unfold tag_set, tag_get, node_at, bind, gets. rewrite H1. cbn. rewrite H2. cbn. rewrite H3. cbn. by apply set_node_run. }
  cbn [for_each]. destruct t0, t1; cbn [when lookup_total list_lookup_total Z.to_nat Pos.to_nat].
  - erewrite bind_run; [|erewrite bind_run; [|by eapply Hset; [cbn; by rewrite lookup_insert_eq|..]];
      erewrite bind_run; [|by eapply Hset; [cbn; by rewrite lookup_insert_eq|..]]; done].
    erewrite set_node_run by (cbn; by rewrite lookup_insert_eq). do 2 f_equal. unfold upd. cbn. by rewrite !insert_insert_eq.
  - erewrite bind_run; [|erewrite bind_run; [|by eapply Hset; [cbn; by rewrite lookup_insert_eq|..]]; done].
    erewrite set_node_run by (cbn; by rewrite lookup_insert_eq). do 2 f_equal. unfold upd. cbn. by rewrite !insert_insert_eq.
  - erewrite bind_run; [|erewrite bind_run by done; erewrite bind_run; [|by eapply Hset; [cbn; by rewrite lookup_insert_eq|..]]; done].
    erewrite set_node_run by (cbn; by rewrite lookup_insert_eq). do 2 f_equal. unfold upd. cbn. by rewrite !insert_insert_eq.
  - erewrite bind_run by done.
    erewrite set_node_run by (cbn; by rewrite lookup_insert_eq). do 2 f_equal. unfold upd. cbn. by rewrite !insert_insert_eq.
Qed.

Definition pushed (s : rt) (p : Z) (t0 t1 : bool) : rt :=
  (s <| nodes := <[p := pushed_node (rnode (root s)) t0 t1]> (nodes s) |>)
    <| root := ((root s) <| rnode := p |>) <| height := u32 (height (root s) + 1) |> |>.

Lemma pushed_ok s A h N p (t0 t1 : bool) : rep s A h N -> (t0 = true <-> exists i, i ∈ tagged A 0) -> (t1 = true <-> exists i, i ∈ tagged A 1) ->
  node_ok (<[(S h, 0) := p]> N) (tg (tagged A)) h 0 0 (pushed_node (rnode (root s)) t0 t1) \/ rnode (root s) = 0.
Proof.
  intros R H0 H1. pose proof (rep_wf _ _ _ _ R) as W. destruct (decide (rnode (root s) = 0)) as [|Hr]; [by right|left].
  assert (forall t i, i ∈ tagged A t -> pre h i = 0) as Htop.
  { intros t i Hi. apply (rep_tags _ _ _ _ R), elem_of_dom in Hi as [a Ha]. by destruct (items_range _ _ _ _ _ _ R Ha) as (_ & _ & ? & _). }
  split; try done.
  - intros k Hk. rewrite at_insert, bool_decide_false by (intros [? _]; lia). rewrite (wf_root _ _ _ _ _ W). cbn [slots pushed_node].
    destruct (decide (k = 0)) as [->|]; [done|]. replace (Z.to_nat k) with (S (Z.to_nat (k - 1))) by lia.
    transitivity (replicate 63 0 !! Z.to_nat (k - 1)); [done|]. rewrite lookup_replicate_2 by lia. f_equal. symmetry.
    apply (at_zero _ _ _ _ _ _ _ W). destruct (N !! (h, 64 * 0 + k)) as [a|] eqn:E; [|done]. apply (wf_top _ _ _ _ _ W) in E. lia.
  - cbn [count pushed_node slots occupied]. unfold some_ at 1, truth. replace (rnode (root s) =? 0) with false by lia. done.
  - assert (forall (b : bool) t, (b = true <-> exists i, i ∈ tagged A t) -> words_ok [of_bool b; 0] /\
      forall k, 0 <= k < 64 -> test_bit k [of_bool b; 0] = true <-> tg (tagged A) t h (64 * 0 + k)) as Hw.
    { intros b t Hb. split; [eexists _, _; split; [done|destruct b; cbn; lia]|]. intros k Hk. rewrite test_bit_spec, Z.bits_0 by done.
      assert ((if k <? 32 then Z.testbit (of_bool b) k else false) = b && (k =? 0)) as ->.
      { destruct b; cbn [of_bool andb]; [|rewrite Z.bits_0; by destruct (k <? 32)]. change 1 with (2 ^ 0). rewrite testbit_pow2 by lia. destruct (Z.ltb_spec k 32); lia. }
      unfold tg. rewrite andb_true_iff, Hb, Z.eqb_eq. split.
      - intros [[i Hi] ->]. exists i. by rewrite (Htop _ _ Hi).
      - intros (i & Hi & E). rewrite (Htop _ _ Hi) in E. split; [eauto|lia]. }
    intros t [-> | ->]; [exists [of_bool t0; 0]|exists [of_bool t1; 0]]; (split; [done|]); by apply Hw.
Qed.

Lemma rep_pushed s A h N p t0 t1 : rep s A h N -> rnode (root s) <> 0 -> (h < 6)%nat -> fresh_in s N p ->
  (t0 = true <-> exists i, i ∈ tagged A 0) -> (t1 = true <-> exists i, i ∈ tagged A 1) ->
  rep (pushed s p t0 t1) A (S h) (<[(S h, 0) := p]> N).
Proof.
  intros R Hr Hh (Hp & Hn & Hf & Hni) H0 H1. pose proof (rep_wf _ _ _ _ R) as W.
  destruct (pushed_ok s A h N p t0 t1 R H0 H1) as [Hok|]; [|done].
  assert (forall l q a, <[(S h, 0) := p]> N !! (l, q) = Some a -> (l = S h /\ q = 0 /\ a = p) \/ (N !! (l, q) = Some a /\ (l <= h)%nat)) as Hlook.
  { intros l q a [[[= <- <-] <-]|[_ H]]%lookup_insert_Some; [by left|right]. split; [done|]. by destruct (wf_cell _ _ _ _ _ W _ _ _ H) as (_ & ? & _). }
  split; [split; cbn|intros i; rewrite lookup_insert_ne by done; apply R|apply R].
  - rewrite (wf_height _ _ _ _ _ W), u32_small; lia.
  - lia.
  - done.
  - unfold at_. by rewrite lookup_insert_eq.
  - intros l q a [(-> & -> & ->)|[H Hl]]%Hlook; [rewrite Z.shiftl_0_l; split_and!; lia|].
    destruct (wf_cell _ _ _ _ _ W _ _ _ H) as (? & ? & ? & ?). split_and!; try done. lia.
  - intros q a [(_ & -> & _)|[H Hl]]%Hlook; [done|lia].
  - intros l q a [(-> & -> & ->)|[H Hl]]%Hlook Hl'; [lia|]. destruct (decide (l = h)) as [->|].
    + rewrite (wf_top _ _ _ _ _ W _ _ H). rewrite lookup_insert_eq. eauto.
    + rewrite lookup_insert_ne by congruence. eapply wf_parent; [done|done|lia].
  - intros l q a [([= ->] & -> & ->)|[H Hl]]%Hlook; rewrite late_none; [rewrite lookup_insert_eq; eauto|].
    rewrite lookup_insert_ne by (intros <-; by apply Hni in H). destruct (wf_node _ _ _ _ _ W _ _ _ H) as (n & Hn' & Hok'). exists n. split; [done|].
    eapply node_ok_frame; [|done]. intros k Hk. by rewrite at_insert, bool_decide_false by (intros [? _]; lia).
  - intros l q l' q' a [([= ->] & -> & ->)|[H Hl]]%Hlook [([= ->] & -> & E)|[H' Hl']]%Hlook; try done.
    + by apply Hni in H'.
    + subst a. by apply Hni in H.
    + by eapply wf_inj.
  - intros b Hb. destruct (wf_free _ _ _ _ _ W b Hb) as (E1 & E2 & E3). split_and!; [done| |].
    + by rewrite lookup_insert_ne by (intros <-; done).
    + intros l q [(_ & _ & ->)|[H Hl]]%Hlook; [done|by apply E3 in H].
  - apply W.
  - intros b. destruct (decide (b = p)) as [->|]; [done|]. rewrite lookup_insert_ne by done. apply (wf_addr _ _ _ _ _ W).
Qed.

Lemma push_loop_run A t0 t1 k : (t0 = true <-> exists i, i ∈ tagged A 0) -> (t1 = true <-> exists i, i ∈ tagged A 1) -> (k <= 6)%nat ->
  forall fuel s h N, rep s A h N -> rnode (root s) <> 0 -> (h < k)%nat -> (k - h <= fuel)%nat ->
  exists r s' h' N', push_loop fuel (Z.of_nat k) [t0; t1] s = Some (r, s') /\ rep s' A h' N' /\
    ((r = 0 /\ h' = k) \/ (r = - ENOMEM /\ rnode (root s') <> 0 /\ (can_wait s \/ (pool s < k - h)%nat))) /\
    gfp_mask (root s') = gfp_mask (root s) /\ (pool s <= k - h + pool s')%nat.
Proof.
  intros H0 H1 Hk. induction fuel as [|fuel IH]; intros s h N R Hr Hh Hf; [lia|]. cbn [push_loop].
  destruct (node_alloc_run s h N _ (rep_wf _ _ _ _ R)) as (p & s1 & E1 & W1 & Er & Epl & Hp). erewrite bind_run by exact E1.
  assert (rep s1 A h N) as R1 by (destruct R; by split). destruct Hp as [[-> Hp]|Hp].
  - exists (- ENOMEM), s1, h, N. split_and!; try done; [|by rewrite Er|lia]. right. rewrite Er. split_and!; try done.
    destruct Hp as [Hp|Hp]; [by left|right]. unfold pool. rewrite Hp. cbn. lia.
  - pose proof Hp as (Hp0 & Hn & _). replace (p =? 0) with false by lia. erewrite (bind_run (gets _)) by done.
    rewrite <- Er in Hr. pose proof (push_node_run s1 p (rnode (root s1)) t0 t1 Hn) as Hrun.
    pose proof (rep_pushed s1 A h N p t0 t1 R1 Hr ltac:(lia) Hp H0 H1) as R2.
    assert (forall C (kk : M rt C), (write (NodeSlot p 0) (rnode (root s1));; for_each [0; 1] (fun tag => when ([t0; t1] !!! Z.to_nat tag) (tag_set p tag 0));;
       set_node p (fun n => n <| count := 1 |>);; kk) s1 = kk (s1 <| nodes := <[p := pushed_node (rnode (root s1)) t0 t1]> (nodes s1) |>)) as Hrun'.
    { intros C kk. revert Hrun. unfold bind. destruct (write _ _ s1) as [[[] s2]|]; [|done]. destruct (for_each _ _ s2) as [[[] s3]|]; [|done].
      by destruct (set_node _ _ s3) as [[[] s4]|]; [intros [= ->]|]. }
    rewrite Hrun'. erewrite bind_run by done. erewrite bind_run by done. change (upd root _ _) with (pushed s1 p t0 t1).
    rewrite (wf_height _ _ _ _ _ (rep_wf _ _ _ _ R2)). destruct (Z.ltb_spec (Z.of_nat (S h)) (Z.of_nat k)) as [Hlt|Hge].
    + destruct (IH (pushed s1 p t0 t1) (S h) (<[(S h, 0) := p]> N)) as (r & s' & h' & N' & E & R' & Hres & Hg & Hpl); [done|cbn; lia|lia|lia|].
      exists r, s', h', N'. split_and!; [done|done| |rewrite Hg; cbn; by rewrite Er|unfold pool in *; cbn in *; lia].
      destruct Hres as [?|(-> & ? & [Hc|Hc])]; [by left|right..]; (split_and!; [done|done|]).
      * left. unfold can_wait in *. cbn in Hc. by rewrite Er in Hc.
      * right. unfold pool in *. cbn in *. lia.
    + exists 0, (pushed s1 p t0 t1), (S h), (<[(S h, 0) := p]> N). split_and!; [done|done|left; split; [done|lia]|cbn; by rewrite Er|].
      unfold pool in *. cbn. lia.
Qed.

Lemma any_tag_top s A l N t b : rep s A (S l) N -> rnode (root s) <> 0 -> t = 0 \/ t = 1 -> any_tag (rnode (root s)) t s = Some (b, s) ->
  b = true <-> exists i, i ∈ tagged A t.
Proof.
  intros R Hr Ht E. pose proof (rep_wf _ _ _ _ R) as W. rewrite (wf_root _ _ _ _ _ W) in *. pose proof (at_pos _ _ _ _ _ _ _ W Hr) as Ha.
  destruct (any_tag_run _ _ _ _ _ _ _ _ t W Ha Ht) as (b' & E' & Hb). rewrite E in E'. injection E' as <-. rewrite Hb. split.
  - intros (k & Hk & i & Hi & _). eauto.
  - intros (i & Hi). pose proof Hi as Hi'. apply (rep_tags _ _ _ _ R), elem_of_dom in Hi' as [a Ha'].
    destruct (items_range _ _ _ _ _ _ R Ha') as (_ & _ & Hp & _). exists (off l i). split; [apply off_range|]. exists i. split; [done|].
    rewrite (pre_split l), Hp. lia.
Qed.

Lemma extend_run s A h N i : rep s A h N -> 0 <= i < 2 ^ 32 -> (h < 6)%nat ->
  exists r s' h' N', radix_tree_extend i s = Some (r, s') /\ rep s' A h' N' /\
    ((r = 0 /\ pre h' i = 0 /\ (0 < h')%nat) \/ (r = - ENOMEM /\ rnode (root s') <> 0 /\ rnode (root s) <> 0 /\ (can_wait s \/ (pool s < 6)%nat))) /\
    gfp_mask (root s') = gfp_mask (root s) /\ (pool s <= 6 + pool s')%nat /\ (rnode (root s) = 0 -> pool s' = pool s).
Proof.
  intros R Hi Hh. pose proof (rep_wf _ _ _ _ R) as W. unfold radix_tree_extend. erewrite (bind_run (gets _)) by done.
  rewrite (wf_height _ _ _ _ _ W), u32_small by lia. replace (Z.of_nat h + 1) with (Z.of_nat (S h)) by lia.
  destruct (extend_height_run s i (Z.to_nat RADIX_TREE_MAX_PATH) (S h) Hi) as (k & Hk & E & Hp); [lia|change (Z.to_nat RADIX_TREE_MAX_PATH) with 7%nat; lia|].
  erewrite bind_run by exact E. destruct (Z.eqb_spec (rnode (root s)) 0) as [E0|E0].
  - erewrite bind_run by done. eexists 0, _, k, ∅. split; [done|]. split_and!; try done; [|left; split_and!; try done; lia|unfold pool; cbn; lia].
    pose proof (wf_null _ _ _ _ _ W E0) as ->. split; [|apply R|apply R]. destruct W. split; cbn; try done; try lia.
  - destruct h as [|l]; [rewrite (wf_root _ _ _ _ _ W), (wf_empty _ _ _ _ _ W) in E0 by done; done|].
    assert (forall t, t = 0 \/ t = 1 -> exists b, any_tag (rnode (root s)) t s = Some (b, s) /\ (b = true <-> exists i, i ∈ tagged A t)) as Hany.
    { intros t Ht. pose proof E0 as E0'. rewrite (wf_root _ _ _ _ _ W) in E0' |- *. pose proof (at_pos _ _ _ _ _ _ _ W E0') as Ha.
      destruct (any_tag_run _ _ _ _ _ _ _ _ t W Ha Ht) as (b & Eb & _). exists b. split; [done|].
      eapply any_tag_top; [done|done|done|]. by rewrite (wf_root _ _ _ _ _ W). }
    destruct (Hany 0) as (t0 & Et0 & H0); [tauto|]. destruct (Hany 1) as (t1 & Et1 & H1); [tauto|].
    erewrite bind_run by exact Et0. erewrite bind_run by exact Et1.
    destruct (push_loop_run A t0 t1 k H0 H1 ltac:(lia) (Z.to_nat RADIX_TREE_MAX_PATH) s (S l) N R E0 ltac:(lia)) as (r & s' & h' & N' & Er & R' & Hr & Hg & Hpl);
      [change (Z.to_nat RADIX_TREE_MAX_PATH) with 7%nat; lia|].
    exists r, s', h', N'. split_and!; try done; [|lia]. destruct Hr as [[-> ->]|(-> & Hr & Hc)]; [left; split_and!; [done|done|lia]|right]. split_and!; try done.
    destruct Hc as [Hc|Hc]; [by left|right; lia].
Qed.

Lemma maxindex_run s A h N i : rep s A h N -> 0 <= i < 2 ^ 32 ->
  exists m, radix_tree_maxindex (height (root s)) s = Some (m, s) /\ (m < i <-> pre h i <> 0).
Proof.
  intros R Hi. pose proof (rep_wf _ _ _ _ R) as W. destruct (maxindex_le h i (wf_six _ _ _ _ _ W) Hi) as (m & E & Hm). exists m. split; [|done].
  unfold radix_tree_maxindex. rewrite (wf_height _ _ _ _ _ W), Nat2Z.id, E. done.
Qed.
Lemma six_enough i : 0 <= i < 2 ^ 32 -> pre 6 i = 0.
Proof. intros. unfold pre. rewrite Z.shiftr_div_pow2 by lia. apply Z.div_small. change (2 ^ (6 * Z.of_nat 6)) with (2 ^ 36). lia. Qed.
Lemma outside_absent s A h N i : rep s A h N -> pre h i <> 0 -> items A !! i = None.
Proof. intros R Hp. destruct (items A !! i) eqn:E; [|done]. destruct (items_range _ _ _ _ _ _ R E) as (_ & _ & ? & _). done. Qed.

(** What an insertion may do: it enters the item, finds one, or runs out of
    memory, which leaves the contents as they were. *)
Inductive inserted (A : rmap) (i v : Z) : Z -> rmap -> Prop :=
| Inserted : items A !! i = None -> inserted A i v 0 (with_item A i v)
| Exists_ u : items A !! i = Some u -> inserted A i v (- EEXIST) A
| NoMemory : items A !! i = None -> inserted A i v (- ENOMEM) A.

(** The second half of an insertion, in a tree that is high enough. *)
Lemma insert_down_run s A h N i v : rep s A h N -> 0 <= i < 2 ^ 32 -> 0 < v -> pre h i = 0 -> (0 < h)%nat ->
  exists r s' A' N', (e ← insert_loop h (first_shift (Z.of_nat h)) i 0 RootSlot 0;
    match e with inl error => ret error | inr (node, slot, offset) => insert_item node slot offset v end) s = Some (r, s') /\
    rep s' A' h N' /\ inserted A i v r A' /\ (r = - ENOMEM -> can_wait s \/ (pool s < h)%nat).
Proof.
  intros R Hi Hv Hp Hh. pose proof (wf_six _ _ _ _ _ (rep_wf _ _ _ _ R)) as H6.
  destruct (insert_loop_run A h i Hi Hp H6 h s N 0 RootSlot 0 (first_shift (Z.of_nat h)) R) as (e & s1 & N1 & E1 & R1 & He);
    [lia|by left|lia|intros l' ->; apply first_shift_S; lia|].
  erewrite bind_run by exact E1. destruct e as [e|[[node slot] offset]].
  - destruct He as (-> & Hnone & Hc). exists (- ENOMEM), s1, A, N1. split_and!; [done|done|by constructor|]. intros _. destruct Hc; [by left|by right].
  - destruct He as [Hs Ho]. destruct (insert_item_run s1 A h N1 i node slot offset v R1 Hi Hp Hh Hv Hs (Ho Hh)) as (s2 & A' & N' & E2 & R2 & ->).
    destruct (items A !! i) as [u|] eqn:Eu; eexists _, s2, _, N'; (split_and!; [exact E2|exact R2|by econstructor|]); intros [=].
Qed.

Lemma insert_run s A h N i v : rep s A h N -> 0 <= i < 2 ^ 32 -> 0 < v -> (i = 0 -> rnode (root s) = 0 -> (h < 6)%nat) ->
  exists r s' A' h' N', radix_tree_insert i v s = Some (r, s') /\ rep s' A' h' N' /\ inserted A i v r A' /\
    (r = - ENOMEM -> can_wait s \/ ((pool s < 12)%nat /\ (rnode (root s) = 0 \/ pre h i = 0 -> (pool s < 7)%nat))).
Proof.
  intros R Hi Hv H0. pose proof (rep_wf _ _ _ _ R) as W. pose proof (wf_six _ _ _ _ _ W) as H6. unfold radix_tree_insert.
  destruct (maxindex_run s A h N i R Hi) as (m & Em & Hm). erewrite (bind_run (gets _)) by done. erewrite bind_run by exact Em.
  assert (((i =? 0) && (rnode (root s) =? 0)) || (m <? i) = true -> (h < 6)%nat /\ items A !! i = None) as Hext.
  { intros [[H1 H2]%andb_prop|H]%orb_prop.
    - split; [apply H0; lia|]. rewrite (rep_items _ _ _ _ R), (wf_null _ _ _ _ _ W) by lia. done.
    - assert (pre h i <> 0) as Hp by (apply Hm; lia). split; [|by eapply outside_absent]. destruct (decide (h = 6%nat)) as [->|]; [|lia]. by rewrite six_enough in Hp. }
  destruct (((i =? 0) && (rnode (root s) =? 0)) || (m <? i)) eqn:Ee.
  - destruct (Hext eq_refl) as [Hh Hnone]. destruct (extend_run s A h N i R Hi Hh) as (e & s1 & h1 & N1 & E1 & R1 & He & Hg & Hpl & Hpl0).
    erewrite bind_run by exact E1. destruct He as [(-> & Hp1 & Hh1)|(-> & Hr1 & Hr & Hc)].
    2:{ eexists _, s1, A, h1, N1. split_and!; [done|done|by constructor|]. intros _. destruct Hc as [Hc|Hc]; [by left|right]. split; lia. }
    cbn [truth Z.eqb negb]. erewrite (bind_run (gets _)) by done. pose proof (wf_height _ _ _ _ _ (rep_wf _ _ _ _ R1)) as Eh. rewrite Eh, Nat2Z.id.
    pose proof (wf_six _ _ _ _ _ (rep_wf _ _ _ _ R1)) as H61.
    destruct (insert_down_run s1 A h1 N1 i v R1 Hi Hv Hp1 Hh1) as (r & s' & A' & N' & E & R' & Hins & Hc). exists r, s', A', h1, N'. split_and!; try done.
    intros Er. destruct (Hc Er) as [Hw|Hlt]; [left; unfold can_wait in *; by rewrite Hg in Hw|right]. split; [lia|]. intros [Hz|Hz]; [rewrite <- Hpl0 by done; lia|].
    destruct (Z.eqb_spec (rnode (root s)) 0) as [Ez|Ez]; [rewrite <- Hpl0 by done; lia|]. rewrite andb_false_r in Ee. cbn in Ee. lia.
  - erewrite (bind_run (ret _)) by done. cbn [truth Z.eqb negb]. erewrite (bind_run (gets _)) by done. rewrite (wf_height _ _ _ _ _ W), Nat2Z.id.
    assert (pre h i = 0) as Hp by (apply orb_false_iff in Ee as [_ Ee]; destruct (decide (pre h i = 0)) as [|Hne]; [done|apply Hm in Hne; lia]).
    assert (0 < h)%nat as Hh.
    { destruct h; [|lia]. rewrite pre_0 in Hp. subst i. rewrite (wf_root _ _ _ _ _ W), (wf_empty _ _ _ _ _ W) in Ee by done. done. }
    destruct (insert_down_run s A h N i v R Hi Hv Hp Hh) as (r & s' & A' & N' & E & R' & Hins & Hc). exists r, s', A', h, N'. split_and!; try done.
    intros Er. destruct (Hc Er); [by left|right]. split; [lia|]. intros _. lia.
Qed.

(** ** Lookup *)
Lemma lookup_loop_run s A h N i : rep s A h N -> 0 <= i < 2 ^ 32 -> pre h i = 0 -> forall l node slot shift,
  (l <= h)%nat -> slot_at h N i l node slot -> (forall l', l = S l' -> shift = 6 * Z.of_nat l') ->
  lookup_loop l shift i slot s = Some (default 0 (items A !! i), s).
Proof.
  intros R Hi Hp. pose proof (rep_wf _ _ _ _ R) as W. pose proof (wf_six _ _ _ _ _ W). induction l as [|l IH]; intros node slot shift Hl Hs Hsh; cbn [lookup_loop];
    erewrite bind_run by (eapply (read_run _ _ _ _ _ i); [done|lia|done|done]).
  - rewrite pre_0. by rewrite (rep_items _ _ _ _ R).
  - destruct (Z.eqb_spec (at_ N (S l) (pre (S l) i)) 0) as [E|E].
    + apply (at_zero _ _ _ _ _ _ _ W) in E. by rewrite (absent_item _ _ _ _ _ _ R Hl E).
    + apply (at_pos _ _ _ _ _ _ _ W) in E. rewrite (Hsh l eq_refl), offset_of_off. eapply IH; [lia|right; split; [lia|done]|].
      intros l' ->. apply next_shift_S. lia.
Qed.
Lemma lookup_run s A h N i : rep s A h N -> 0 <= i < 2 ^ 32 -> radix_tree_lookup i s = Some (default 0 (items A !! i), s).
Proof.
  intros R Hi. unfold radix_tree_lookup. erewrite (bind_run (gets _)) by done. destruct (maxindex_run s A h N i R Hi) as (m & Em & Hm).
  pose proof (wf_six _ _ _ _ _ (rep_wf _ _ _ _ R)). erewrite bind_run by exact Em. destruct (Z.ltb_spec m i) as [H1|H1].
  - apply Hm in H1. by rewrite (outside_absent _ _ _ _ _ R H1).
  - rewrite (wf_height _ _ _ _ _ (rep_wf _ _ _ _ R)), Nat2Z.id. eapply lookup_loop_run; [done|done| |done|by left|].
    + destruct (decide (pre h i = 0)) as [|Hne]; [done|apply Hm in Hne; lia].
    + intros l' ->. apply first_shift_S. lia.
Qed.

(** ** Setting a tag *)
Lemma tag_set_loop_run h N i v t : 0 <= i < 2 ^ 32 -> pre h i = 0 -> N !! (0%nat, i) = Some v -> t = 0 \/ t = 1 -> (h <= 6)%nat ->
  forall l s G node slot shift, wf s h N G None -> (l <= h)%nat -> slot_at h N i l node slot -> (forall l', l = S l' -> shift = 6 * Z.of_nat l') ->
  exists s', tag_set_loop l shift i t slot s = Some (v, s') /\ wf s' h N (fun t' l' p => G t' l' p \/ (t' = t /\ (l' < l)%nat /\ p = pre l' i)) None.
Proof.
  intros Hi Hp Hv Ht Hh. induction l as [|l IH]; intros s G node slot shift W Hl Hs Hsh; cbn [tag_set_loop].
  - exists s. split.
    + rewrite (read_run _ _ _ _ _ i 0 node slot W) by (done || lia). rewrite pre_0. by rewrite (at_some _ _ _ _ Hv).
    + eapply wf_equiv; [|done]. intros t' l' p _. split; [by left|]. intros [?|(_ & ? & _)]; [done|lia].
  - assert (forall k, (k <= h)%nat -> is_Some (N !! (k, pre k i))) as Hpath.
    { intros k Hk. destruct (wf_above _ _ _ _ _ _ _ _ k W Hv) as [b Hb]; [lia|]. rewrite Nat.add_0_r in Hb. eauto. }
    erewrite bind_run by (eapply (read_run _ _ _ _ _ i); [done|lia|done|done]). destruct (Hpath (S l) Hl) as [a Ha]. rewrite (at_some _ _ _ _ Ha).
    rewrite (Hsh l eq_refl), offset_of_off. destruct (tag_set_run _ _ _ _ _ _ _ _ t (off l i) W Ha Ht (off_range _ _)) as (s1 & E1 & W1).
    erewrite bind_run by exact E1. rewrite <- pre_split in W1. assert (slot_at h N i l a (NodeSlot a (off l i))) as Hs1 by (right; split; [lia|done]).
    erewrite bind_run by (eapply (read_run _ _ _ _ _ i l); [exact W1|lia|done|exact Hs1]). destruct (Hpath l ltac:(lia)) as [b Hb]. rewrite (at_some _ _ _ _ Hb).
    destruct (wf_cell _ _ _ _ _ W _ _ _ Hb) as [Hb0 _]. replace (b =? 0) with false by lia. erewrite (bind_run (BUG_ON false)) by done.
    destruct (IH s1 _ a (NodeSlot a (off l i)) (next_shift (6 * Z.of_nat l)) W1 ltac:(lia) Hs1) as (s2 & E2 & W2); [intros l' ->; apply next_shift_S; lia|].
    exists s2. split; [done|]. eapply wf_equiv; [|exact W2]. intros t' l' p _. unfold tag_add. split.
    + intros [[?|(-> & -> & ->)]|(-> & ? & ->)]; [by left|right; split_and!; [done|lia|done]..].
    + intros [?|(-> & ? & ->)]; [tauto|]. destruct (decide (l' = l)) as [->|]; [tauto|]. right. split_and!; [done|lia|done].
Qed.

Definition with_tag (A : rmap) (i t : Z) : rmap := {| items := items A; tagged := fun t' => if bool_decide (t' = t) then {[i]} ∪ tagged A t' else tagged A t' |}.

Lemma rep_retag s A A' h N G : rep s A h N -> items A' = items A -> (forall t, tagged A' t ⊆ dom (items A)) ->
  forall s', wf s' h N G None -> (forall t l p, (l < h)%nat -> G t l p <-> tg (tagged A') t l p) -> rep s' A' h N.
Proof.
  intros R Ei Ht s' W' Hg. split; [by eapply wf_equiv|intros i; rewrite Ei; apply R|intros t; rewrite Ei; apply Ht].
Qed.
Lemma tag_set_rep s A h N i v t : rep s A h N -> items A !! i = Some v -> t = 0 \/ t = 1 ->
  exists s', radix_tree_tag_set i t s = Some (v, s') /\ rep s' (with_tag A i t) h N.
Proof.
  intros R Hv Ht. destruct (items_range _ _ _ _ _ _ R Hv) as (Hi & Hv0 & Hp & Hh). pose proof (rep_wf _ _ _ _ R) as W. pose proof (wf_six _ _ _ _ _ W).
  unfold radix_tree_tag_set. erewrite (bind_run (gets _)) by done. destruct (maxindex_run s A h N i R Hi) as (m & Em & Hm). erewrite bind_run by exact Em.
  assert ((m <? i) = false) as -> by (destruct (Z.ltb_spec m i) as [H1|]; [apply Hm in H1; done|done]). rewrite (wf_height _ _ _ _ _ W), Nat2Z.id.
  pose proof Hv as Hv'. rewrite (rep_items _ _ _ _ R) in Hv'.
  destruct (tag_set_loop_run h N i v t Hi Hp Hv' Ht ltac:(lia) h s _ 0 RootSlot (first_shift (Z.of_nat h)) W ltac:(lia)) as (s' & E & W');
    [by left|intros l' ->; apply first_shift_S; lia|].
  exists s'. split; [done|]. eapply rep_retag; [done|done| |exact W'|].
  - intros t'. cbn. pose proof (rep_tags _ _ _ _ R t'). assert (i ∈ dom (items A)) by (apply elem_of_dom; eauto). case_bool_decide; set_solver.
  - intros t' l p Hl. unfold tg, with_tag. cbn. split.
    + intros [(j & Hj & ->)|(-> & _ & ->)].
      * exists j. split; [case_bool_decide; set_solver|done].
      * exists i. rewrite bool_decide_true by done. split; [set_solver|done].
    + intros (j & Hj & ->). case_bool_decide as Ht'; [|left; eauto]. apply elem_of_union in Hj as [->%elem_of_singleton|Hj]; [right; done|left; eauto].
Qed.

(** ** The path to a slot *)
Inductive on_path (N : cells) (h : nat) (i : Z) : nat -> radix_tree_path -> list radix_tree_path -> Prop :=
| on_top : on_path N h i h first_path []
| on_node l a pathp path : N !! (S l, pre (S l) i) = Some a -> (l < h)%nat -> on_path N h i (S l) pathp path ->
    on_path N h i l {| p_node := a; p_slot := NodeSlot a (off l i); p_offset := off l i |} (pathp :: path).

Lemma on_path_slot N h i l pathp path : on_path N h i l pathp path -> slot_at h N i l (p_node pathp) (p_slot pathp).
Proof. intros [|l' a pp pa Ha Hl _]; [by left|by right]. Qed.
Lemma path_loop_run s A h N i : rep s A h N -> 0 <= i < 2 ^ 32 -> pre h i = 0 -> forall l pathp path shift,
  (l <= h)%nat -> on_path N h i l pathp path -> (forall l', l = S l' -> shift = 6 * Z.of_nat l') ->
  exists r, path_loop l shift i pathp path s = Some (r, s) /\
    match r with Some (pathp', path') => on_path N h i 0 pathp' path' | None => items A !! i = None end.
Proof.
  intros R Hi Hp. pose proof (rep_wf _ _ _ _ R) as W. pose proof (wf_six _ _ _ _ _ W). induction l as [|l IH]; intros pathp path shift Hl Hon Hsh; cbn [path_loop].
  - by exists (Some (pathp, path)).
  - erewrite bind_run by (eapply (read_run _ _ _ _ _ i); [done|lia|done|by eapply on_path_slot]).
    destruct (Z.eqb_spec (at_ N (S l) (pre (S l) i)) 0) as [E|E].
    + exists None. split; [done|]. eapply absent_item; [done|exact Hl|]. by apply (at_zero _ _ _ _ _ _ _ W).
    + apply (at_pos _ _ _ _ _ _ _ W) in E. rewrite (Hsh l eq_refl), offset_of_off. apply IH; [lia|by constructor|]. intros l' ->. apply next_shift_S. lia.
Qed.
Lemma path_to_run s A h N i : rep s A h N -> 0 <= i < 2 ^ 32 -> exists r, path_to i s = Some (r, s) /\
  match r with Some (pathp, path) => on_path N h i 0 pathp path /\ pre h i = 0 | None => items A !! i = None end.
Proof.
  intros R Hi. unfold path_to. erewrite (bind_run (gets _)) by done. destruct (maxindex_run s A h N i R Hi) as (m & Em & Hm).
  pose proof (wf_six _ _ _ _ _ (rep_wf _ _ _ _ R)). erewrite bind_run by exact Em. destruct (Z.ltb_spec m i) as [H1|H1].
  - exists None. split; [done|]. apply Hm in H1. by eapply outside_absent.
  - assert (pre h i = 0) as Hp by (destruct (decide (pre h i = 0)) as [|Hne]; [done|apply Hm in Hne; lia]).
    rewrite (wf_height _ _ _ _ _ (rep_wf _ _ _ _ R)), Nat2Z.id.
    destruct (path_loop_run s A h N i R Hi Hp h first_path [] (first_shift (Z.of_nat h)) ltac:(lia)) as (r & E & Hr); [constructor|intros l' ->; apply first_shift_S; lia|].
    exists r. split; [done|]. by destruct r as [[]|].
Qed.
