(* ===== verification/RadixDelete.v ===== *)
(** * The radix tree: clearing tags and removing items *)
From S2P Require Import Prelude.
From S2P Require Import RadixTree.
From S2P Require Import RadixSpec.
From S2P Require Import RadixProof.

(** ** Clearing a tag on the way up

    At level [l] the tag of index [i] is cleared below [l]: [kept] says that
    another index keeps the node above tagged, so that nothing is left to do;
    else no other tagged index lies below the cell of [i]. *)
Definition clearing (T : gset Z) (i : Z) (l : nat) (kept : bool) (g : nat -> Z -> Prop) : Prop :=
  (forall l' p, (l' < l)%nat \/ kept = true -> g l' p <-> exists j, j ∈ T ∖ {[i]} /\ p = pre l' j) /\
  (kept = false -> (forall l' p, (l <= l')%nat -> g l' p <-> exists j, j ∈ T /\ p = pre l' j) /\
                   forall j, j ∈ T -> j <> i -> pre l j <> pre l i).

Lemma pre_eq_mono l l' i j : (l <= l')%nat -> pre l i = pre l j -> pre l' i = pre l' j.
Proof. intros Hl E. replace l' with ((l' - l) + l)%nat by lia. by rewrite <- !pre_add, E. Qed.

Lemma clearing_start T i : clearing T i 0 false (fun l p => exists j, j ∈ T /\ p = pre l j).
Proof. split; [intros l p [?|?]; [lia|done]|]. intros _. split; [done|]. intros j _ Hj. by rewrite !pre_0. Qed.
Lemma clearing_end T i h k g l p : clearing T i h k g -> (l < h)%nat -> g l p <-> exists j, j ∈ T ∖ {[i]} /\ p = pre l j.
Proof. intros [H _] Hl. apply H. by left. Qed.
Lemma clearing_kept T i l l' g : clearing T i l true g -> clearing T i l' true g.
Proof. intros [H _]. split; [|done]. intros l1 p _. apply H. by right. Qed.

(** One level: the bit is cleared, and the node looked at. *)
Lemma clearing_step T i l (m : bool) (g g' : nat -> Z -> Prop) : clearing T i l false g ->
  (forall l' p, g' l' p <-> g l' p /\ ~ (l' = l /\ p = pre l i)) ->
  (m = true <-> exists k, 0 <= k < 64 /\ g' l (64 * pre (S l) i + k)) -> clearing T i (S l) m g'.
Proof.
  intros [H1 H2] Hg Hm. destruct (H2 eq_refl) as [H3 H4].
  assert (forall p, g' l p <-> exists j, j ∈ T ∖ {[i]} /\ p = pre l j) as Hl.
  { intros p. rewrite Hg, H3 by lia. split.
    - intros [(j & Hj & ->) Hne]. exists j. split; [|done]. apply elem_of_difference. split; [done|]. intros ->%elem_of_singleton. tauto.
    - intros (j & [Hj Hji]%elem_of_difference & ->). split; [eauto|]. intros [_ E]. apply (H4 j Hj); [|done]. set_solver. }
  assert (m = true <-> exists j, j ∈ T ∖ {[i]} /\ pre (S l) j = pre (S l) i) as Hm'.
  { rewrite Hm. split.
    - intros (k & Hk & (j & Hj & E)%Hl). exists j. split; [done|]. rewrite pre_S, <- E. by apply child_div.
    - intros (j & Hj & E). exists (off l j). split; [apply off_range|]. apply Hl. exists j. split; [done|]. by rewrite (pre_split l j), E. }
  split.
  - intros l' p Hc. destruct (decide (l' < l)%nat) as [Hlt|Hge]; [|destruct (decide (l' = l)) as [->|Hne]; [apply Hl|]].
    + rewrite Hg, H1 by by left. split; [tauto|]. intros ?. split; [done|]. lia.
    + destruct Hc as [Hc|Hc]; [lia|]. apply Hm' in Hc as (j0 & Hj0 & E0). rewrite Hg, H3 by lia. split.
      * intros [(j & Hj & ->) _]. destruct (decide (j = i)) as [->|]; [exists j0|exists j; set_solver]. split; [done|]. by apply (pre_eq_mono (S l)); [lia|].
      * intros (j & [Hj _]%elem_of_difference & ->). split; [eauto|lia].
  - intros ->. split.
    + intros l' p Hl'. rewrite Hg, H3 by lia. split; [tauto|]. intros ?. split; [done|lia].
    + intros j Hj Hji E. enough (false = true) by done. apply Hm'. exists j. split; [set_solver|done].
Qed.

Lemma clear_bit_run s h N G D l a t i T : wf s h N G D -> N !! (S l, pre (S l) i) = Some a -> t = 0 \/ t = 1 -> clearing T i l false (G t) ->
  exists m s' G', (tag_clear a t (off l i);; any_tag a t) s = Some (m, s') /\ wf s' h N G' D /\ (forall t', t' <> t -> G' t' = G t') /\ clearing T i (S l) m (G' t).
Proof.
  intros W Ha Ht Hc. destruct (tag_clear_run _ _ _ _ _ _ _ _ t (off l i) W Ha Ht (off_range _ _)) as (s1 & E1 & W1). rewrite <- pre_split in W1.
  erewrite bind_run by exact E1. destruct (any_tag_run _ _ _ _ _ _ _ _ t W1 Ha Ht) as (m & E2 & Hm).
  set (G' := fun t' => if bool_decide (t' = t) then tag_del G t l (pre l i) t else G t').
  assert (G' t = tag_del G t l (pre l i) t) as Et by (unfold G'; by rewrite bool_decide_true).
  exists m, s1, G'. split_and!; [done| |intros t' Hne; unfold G'; by rewrite bool_decide_false|].
  - eapply wf_equiv; [|exact W1]. intros t' l' p _. unfold G'. case_bool_decide as E; [by subst|]. unfold tag_del. tauto.
  - rewrite Et. eapply clearing_step; [exact Hc| |exact Hm]. intros l' p. unfold tag_del. tauto.
Qed.

Lemma on_path_node N h i l pathp path : on_path N h i l pathp path -> (l < h)%nat -> exists a pathp' path',
  N !! (S l, pre (S l) i) = Some a /\ pathp = {| p_node := a; p_slot := NodeSlot a (off l i); p_offset := off l i |} /\ path = pathp' :: path' /\
  on_path N h i (S l) pathp' path'.
Proof. intros Hon Hl. destruct Hon as [|l a pp pa Ha Hlh Hon]; [lia|]. by exists a, pp, pa. Qed.
Lemma on_path_top s h N G D i l pathp path : wf s h N G D -> on_path N h i l pathp path -> truth (p_node pathp) = bool_decide (l < h)%nat.
Proof.
  intros W [|l' a pp pa Ha Hlh _]; cbn [p_node first_path]; [by rewrite bool_decide_false by lia|]. destruct (wf_cell _ _ _ _ _ W _ _ _ Ha).
  rewrite bool_decide_true by done. unfold truth. by replace (a =? 0) with false by lia.
Qed.

Lemma tag_clear_loop_run h N i t T : t = 0 \/ t = 1 -> forall path l pathp s G,
  wf s h N G None -> on_path N h i l pathp path -> (l < h)%nat -> clearing T i l false (G t) ->
  exists s' G', tag_clear_loop t pathp path s = Some (tt, s') /\ wf s' h N G' None /\ (forall t', t' <> t -> G' t' = G t') /\
    forall l' p, (l' < h)%nat -> G' t l' p <-> exists j, j ∈ T ∖ {[i]} /\ p = pre l' j.
Proof.
  intros Ht. induction path as [|pathp' path IH]; intros l pathp s G W Hon Hl Hc;
    destruct (on_path_node _ _ _ _ _ _ Hon Hl) as (a & pp & pa & Ha & -> & E & Hon'); [done|]. injection E as <- <-. cbn [tag_clear_loop p_node p_offset].
  destruct (clear_bit_run _ _ _ _ _ _ _ t i T W Ha Ht Hc) as (m & s1 & G1 & E1 & W1 & Hg1 & Hc1).
  assert (forall C (k : bool -> M rt C), (tag_clear a t (off l i);; x ← any_tag a t; k x) s = k m s1) as Hrun.
  { intros C k. revert E1. unfold bind. destruct (tag_clear a t (off l i) s) as [[[] s2]|]; [|done]. by intros ->. }
  rewrite Hrun. destruct m.
  - exists s1, G1. split_and!; try done. intros l' p _. apply (proj1 Hc1). by right.
  - rewrite (on_path_top _ _ _ _ _ _ _ _ _ W1 Hon'). case_bool_decide as Hl'.
    + destruct (IH (S l) pathp' s1 G1 W1 Hon' Hl' Hc1) as (s2 & G2 & E2 & W2 & Hg2 & Hr). exists s2, G2. split_and!; try done.
      intros t' Hne. by rewrite Hg2, Hg1.
    + exists s1, G1. split_and!; try done. intros l' p Hlh. eapply clearing_end; [exact Hc1|lia].
Qed.

Definition without_tag (A : rmap) (i t : Z) : rmap :=
  {| items := items A; tagged := fun t' => if bool_decide (t' = t) then tagged A t' ∖ {[i]} else tagged A t' |}.

Lemma tag_clear_rep s A h N i t : rep s A h N -> 0 <= i < 2 ^ 32 -> t = 0 \/ t = 1 ->
  exists s', radix_tree_tag_clear i t s = Some (default 0 (items A !! i), s') /\ rep s' (without_tag A i t) h N.
Proof.
  intros R Hi Ht. unfold radix_tree_tag_clear. destruct (path_to_run s A h N i R Hi) as (r & E & Hr). erewrite bind_run by exact E.
  assert (items A !! i = None -> rep s (without_tag A i t) h N) as Habs.
  { intros En. eapply rep_retag; [exact R|done| |apply R|].
    - intros t'. cbn. pose proof (rep_tags _ _ _ _ R t'). case_bool_decide; set_solver.
    - intros t' l p _. unfold tg, without_tag. cbn. case_bool_decide; [|done]. split; [|intros (j & [Hj _]%elem_of_difference & ->); eauto].
      intros (j & Hj & ->). exists j. split; [|done]. apply elem_of_difference. split; [done|]. intros ->%elem_of_singleton.
      apply (rep_tags _ _ _ _ R), elem_of_dom in Hj as [? ?]. congruence. }
  destruct r as [[pathp path]|]; [|exists s; rewrite Hr; by split; [|apply Habs]]. destruct Hr as [Hon Hp]. pose proof (rep_wf _ _ _ _ R) as W.
  erewrite bind_run by (eapply (read_run _ _ _ _ _ i); [done|lia|done|by eapply on_path_slot]). rewrite pre_0.
  destruct (Z.eqb_spec (at_ N 0 i) 0) as [Ez|Ez].
  - apply (at_zero _ _ _ _ _ _ _ W) in Ez. rewrite <- (rep_items _ _ _ _ R) in Ez. exists s. rewrite Ez. by split; [|apply Habs].
  - apply (at_pos _ _ _ _ _ _ _ W) in Ez. pose proof Ez as Ei. rewrite <- (rep_items _ _ _ _ R) in Ei. destruct (items_range _ _ _ _ _ _ R Ei) as (_ & _ & _ & Hh).
    destruct (tag_clear_loop_run h N i t (tagged A t) Ht path 0 pathp s _ W Hon Hh) as (s' & G' & E' & W' & Hg & Hc); [apply clearing_start|].
    erewrite bind_run by exact E'. exists s'. rewrite Ei. split; [done|]. eapply rep_retag; [exact R|done| |exact W'|].
    + intros t'. cbn. pose proof (rep_tags _ _ _ _ R t'). case_bool_decide; set_solver.
    + intros t' l p Hl. unfold without_tag, tg at 1. cbn. case_bool_decide as Et; [subst t'; by apply Hc|]. by rewrite Hg.
Qed.

(** ** Removing an item: its tags *)
Lemma delete_tag_run s h N G D l a t i T pathp kept : wf s h N G D -> N !! (S l, pre (S l) i) = Some a -> t = 0 \/ t = 1 ->
  p_node pathp = a -> p_offset pathp = off l i -> clearing T i l kept (G t) ->
  exists m s' G', delete_tag pathp t kept s = Some (m, s') /\ wf s' h N G' D /\ (forall t', t' <> t -> G' t' = G t') /\ clearing T i (S l) (kept || m) (G' t).
Proof.
  intros W Ha Ht En Eo Hc. unfold delete_tag. rewrite En, Eo. destruct kept; cbn [negb when orb].
  - destruct (any_tag_run _ _ _ _ _ _ _ _ t W Ha Ht) as (m & E & _). erewrite bind_run by done. exists m, s, G. split_and!; try done. by eapply clearing_kept.
  - by apply clear_bit_run.
Qed.

Lemma delete_tags_run h N i T0 T1 : forall path l pathp s G k0 k1,
  wf s h N G None -> on_path N h i l pathp path -> (l < h)%nat -> clearing T0 i l k0 (G 0) -> clearing T1 i l k1 (G 1) ->
  exists s' G', delete_tags pathp path k0 k1 s = Some (tt, s') /\ wf s' h N G' None /\
    (forall l' p, (l' < h)%nat -> G' 0 l' p <-> exists j, j ∈ T0 ∖ {[i]} /\ p = pre l' j) /\
    (forall l' p, (l' < h)%nat -> G' 1 l' p <-> exists j, j ∈ T1 ∖ {[i]} /\ p = pre l' j).
Proof.
  induction path as [|pathp' path IH]; intros l pathp s G k0 k1 W Hon Hl Hc0 Hc1;
    destruct (on_path_node _ _ _ _ _ _ Hon Hl) as (a & pp & pa & Ha & -> & E & Hon'); [done|]. injection E as <- <-. cbn [delete_tags].
  set (pathp := {| p_node := a |}).
  destruct (delete_tag_run _ _ _ _ _ _ a 0 i T0 pathp k0 W Ha ltac:(tauto) eq_refl eq_refl Hc0) as (m0 & s1 & G1 & E1 & W1 & Hg1 & Hc0'). erewrite bind_run by exact E1.
  rewrite <- Hg1 in Hc1 by done.
  destruct (delete_tag_run _ _ _ _ _ _ a 1 i T1 pathp k1 W1 Ha ltac:(tauto) eq_refl eq_refl Hc1) as (m1 & s2 & G2 & E2 & W2 & Hg2 & Hc1'). erewrite bind_run by exact E2.
  rewrite <- Hg2 in Hc0' by done. rewrite (on_path_top _ _ _ _ _ _ _ _ _ W2 Hon'). case_bool_decide as Hl'; cbn [andb].
  - destruct (m0 && m1) eqn:Em.
    + apply andb_prop in Em as [-> ->]. rewrite !orb_true_r in *. exists s2, G2. split_and!; try done.
      * intros l' p _. apply (proj1 Hc0'). by right.
      * intros l' p _. apply (proj1 Hc1'). by right.
    + replace (truth _) with true by (destruct m0, m1; done). by apply (IH (S l) pathp' s2 G2).
  - exists s2, G2. split_and!; try done; intros l' p Hlh; (eapply clearing_end; [eassumption|lia]).
Qed.

(** ** Removing an item: its slot and the nodes left empty *)
Definition cleared (s : rt) (slot : slot_ptr) : rt :=
  match slot with
  | RootSlot => s <| root := (root s) <| rnode := 0 |> |>
  | NodeSlot a k => s <| nodes := alter (fun n => n <| slots := <[Z.to_nat k := 0]> (slots n) |>) a (nodes s) |>
  end.
(** The node whose count is next, after the cell at level [l] of [i]. *)
Definition next_late (h : nat) (i : Z) (l : nat) : option (nat * Z) := if bool_decide (l < h)%nat then Some (S l, pre (S l) i) else None.

Lemma write_cleared_run s h N G D i l node slot : wf s h N G D -> slot_at h N i l node slot -> write slot 0 s = Some (tt, cleared s slot).
Proof.
  intros W [(-> & -> & ->)|(Hl & Ha & ->)]; [done|]. destruct (wf_node _ _ _ _ _ W _ _ _ Ha) as (n & Hn & _). cbn [write cleared].
  rewrite (set_node_run _ n) by done. do 2 f_equal. unfold upd. cbn. f_equal. apply map_eq. intros b. destruct (decide (b = node)) as [->|].
  - by rewrite lookup_insert_eq, lookup_alter_eq, Hn.
  - by rewrite lookup_insert_ne, lookup_alter_ne by done.
Qed.

Lemma wf_cleared s s' h N G i l node slot v : wf s h N G None -> pre h i = 0 -> slot_at h N i l node slot -> N !! (l, pre l i) = Some v ->
  (forall l', l = S l' -> forall k, 0 <= k < 64 -> N !! (l', 64 * pre l i + k) = None /\ forall t, ~ G t l' (64 * pre l i + k)) ->
  s' = (cleared s slot) <| cache := (if l is O then [] else [v]) ++ cache s |> -> wf s' h (delete (l, pre l i) N) G (next_late h i l).
Proof.
  intros W Hp Hs Hv Hnone ->. unfold next_late. rewrite pre_S. destruct Hs as [(-> & -> & ->)|(Hl & Ha & ->)]; cbn.
  - eapply (wf_remove s _ h N G h (pre h i) v); try done; [cbn; rewrite Hp; unfold at_; by rewrite lookup_delete_eq|lia].
  - rewrite pre_S in Ha. eapply (wf_remove s _ h N G l (pre l i) v); cbn; try done.
    + rewrite at_delete, bool_decide_false by (intros [? _]; lia). apply W.
    + intros b Hb. rewrite lookup_alter_ne; [done|]. intros <-. by apply Hb.
    + intros a n _ Ha' Hn. replace a with node by congruence. rewrite lookup_alter_eq. replace node with a by congruence. by rewrite Hn.
Qed.

Lemma on_path_delete N h i l pathp path l' q : on_path N h i l pathp path -> (l' <= l)%nat -> on_path (delete (l', q) N) h i l pathp path.
Proof.
  intros Hon. induction Hon as [|l a pp pa Ha Hl Hon IH]; intros Hle; constructor; try done; [|apply IH; lia].
  rewrite lookup_delete_ne; [done|]. intros [= ? ?]. lia.
Qed.

(** Nothing is tagged where there is no item. *)
Definition tags_inside (N : cells) (T : Z -> gset Z) : Prop := forall t i, i ∈ T t -> is_Some (N !! (0%nat, i)).
Lemma empty_untagged s h N T D l p k t : wf s h N (tg T) D -> tags_inside N T -> (l < h)%nat -> N !! (l, 64 * p + k) = None -> ~ tg T t l (64 * p + k).
Proof.
  intros W HT Hl E (i & Hi & Ep). destruct (HT t i Hi) as [a Ha]. destruct (wf_above _ _ _ _ _ _ _ _ l W Ha) as [b Hb]; [lia|].
  rewrite Nat.add_0_r, <- Ep in Hb. congruence.
Qed.

Lemma delete_nodes_run h i T : pre h i = 0 -> 0 <= i -> forall path l pathp s N,
  wf s h N (tg T) (next_late h i l) -> tags_inside N T -> on_path N h i l pathp path ->
  exists s' N', delete_nodes pathp path s = Some (tt, s') /\ wf s' h N' (tg T) None /\ forall j, N' !! (0%nat, j) = N !! (0%nat, j).
Proof.
  intros Hp Hi. induction path as [|pathp' path IH]; intros l pathp s N W HT Hon.
  { inversion Hon; subst. exists s, N. unfold next_late in W. rewrite bool_decide_false in W by lia. by split_and!. }
  assert (l < h)%nat as Hl by by inversion Hon. destruct (on_path_node _ _ _ _ _ _ Hon Hl) as (a & pp & pa & Ha & -> & E & Hon'). injection E as <- <-.
  cbn [delete_nodes p_node]. destruct (wf_cell _ _ _ _ _ W _ _ _ Ha) as [Ha0 _]. replace (a =? 0) with false by lia.
  unfold next_late in W. rewrite bool_decide_true in W by done.
  destruct (wf_node _ _ _ _ _ W _ _ _ Ha) as (n & Hn & _). destruct (wf_decrement _ _ _ _ _ _ _ _ W Ha Hn) as (W1 & Ec & Hok).
  erewrite bind_run by by apply set_node_run. cbv beta. rewrite Ec in W1 |- *. set (s1 := s <| nodes := _ |>) in *.
  assert (node_at a s1 = Some (n <| count := occupied (slots n) |>, s1)) as Hat by (unfold node_at, bind, gets, s1; cbn; by rewrite lookup_insert_eq).
  erewrite bind_run by exact Hat. cbn [count upd].
  destruct (truth (occupied (slots n))) eqn:Et; [exists s1, N; by split_and!|].
  assert (forall k, 0 <= k < 64 -> N !! (l, 64 * pre (S l) i + k) = None) as Hnone.
  { intros k Hk. apply (at_zero _ _ _ _ _ _ _ W1). unfold truth in Et. assert (occupied (slots n) = 0) as Ez by lia. apply occupied_zero in Ez.
    eapply (Forall_lookup_1 _ _ _ _ Ez). by apply (nk_slots _ _ _ _ _ _ Hok). }
  pose proof (on_path_slot _ _ _ _ _ _ Hon') as Hs.
  erewrite bind_run by (eapply (read_run _ _ _ _ _ i); [exact W1|lia|done|exact Hs]). rewrite (at_some _ _ _ _ Ha). replace (a =? 0) with false by lia.
  erewrite (bind_run (BUG_ON false)) by done. erewrite bind_run by by eapply write_cleared_run. erewrite bind_run by done.
  destruct (IH (S l) pathp' ((cleared s1 (p_slot pathp')) <| cache := [a] ++ cache s1 |>) (delete (S l, pre (S l) i) N)) as (s' & N' & E' & W' & Hi').
  - eapply (wf_cleared s1); [done|done|done|done| |done]. intros l' [= <-] k Hk. split; [by apply Hnone|]. intros t. eapply empty_untagged; [exact W1|done|done|by apply Hnone].
  - intros t j Hj. rewrite lookup_delete_ne by done. by eapply HT.
  - by apply on_path_delete.
  - exists s', N'. split_and!; [|done|intros j; rewrite Hi'; by rewrite lookup_delete_ne]. rewrite <- E'. f_equal. by destruct (p_slot pathp').
Qed.

Definition without (A : rmap) (i : Z) : rmap := {| items := delete i (items A); tagged := fun t => tagged A t ∖ {[i]} |}.

(** An index that is not there. *)
Lemma without_absent s A h N i : rep s A h N -> items A !! i = None -> rep s (without A i) h N.
Proof.
  intros R En. assert (forall t, tagged A t ∖ {[i]} = tagged A t) as Et.
  { intros t. apply leibniz_equiv. intros j. split; [set_solver|]. intros Hj. apply elem_of_difference. split; [done|]. intros ->%elem_of_singleton.
    apply (rep_tags _ _ _ _ R), elem_of_dom in Hj as [? ?]. congruence. }
  destruct R as [W Hit Htg]. split; cbn.
  - eapply wf_equiv; [|exact W]. intros t l p _. unfold tg. cbn. by rewrite Et.
  - intros j. rewrite <- Hit. by rewrite delete_id.
  - intros t. rewrite Et, delete_id by done. apply Htg.
Qed.
Lemma delete_rep s A h N i : rep s A h N -> 0 <= i < 2 ^ 32 -> exists s' h' N',
  radix_tree_delete i s = Some (default 0 (items A !! i), s') /\ rep s' (without A i) h' N'.
Proof.
  intros R Hi. unfold radix_tree_delete. destruct (path_to_run s A h N i R Hi) as (r & E & Hr). erewrite bind_run by exact E.
  pose proof (without_absent s A h N i R) as Habs.
  destruct r as [[pathp path]|]; [|exists s, h, N; rewrite Hr; by split; [|apply Habs]]. destruct Hr as [Hon Hp]. pose proof (rep_wf _ _ _ _ R) as W.
  pose proof (on_path_slot _ _ _ _ _ _ Hon) as Hs.
  erewrite bind_run by (eapply (read_run _ _ _ _ _ i); [done|lia|done|done]). rewrite pre_0.
  destruct (Z.eqb_spec (at_ N 0 i) 0) as [Ez|Ez].
  { apply (at_zero _ _ _ _ _ _ _ W) in Ez. rewrite <- (rep_items _ _ _ _ R) in Ez. exists s, h, N. rewrite Ez. by split; [|apply Habs]. }
  apply (at_pos _ _ _ _ _ _ _ W) in Ez. pose proof Ez as Ei. rewrite <- (rep_items _ _ _ _ R) in Ei. destruct (items_range _ _ _ _ _ _ R Ei) as (_ & Hv & _ & Hh).
  destruct (delete_tags_run h N i (tagged A 0) (tagged A 1) path 0 pathp s _ false false W Hon Hh) as (s1 & G1 & E1 & W1 & H0 & H1); [apply clearing_start..|].
  erewrite bind_run by exact E1. set (T := fun t => tagged A t ∖ {[i]}).
  assert (wf s1 h N (tg T) None) as W1'. { eapply wf_equiv_tags; [|exact W1]. intros t l p [-> | ->] Hl; [by apply H0|by apply H1]. }
  erewrite bind_run by by eapply write_cleared_run.
  assert (wf (cleared s1 (p_slot pathp)) h (delete (0%nat, i) N) (tg T) (next_late h i 0)) as W2.
  { replace (delete (0%nat, i) N) with (delete (0%nat, pre 0 i) N) by by rewrite pre_0. eapply (wf_cleared s1); [exact W1'|done|exact Hs|by rewrite pre_0|done|]. by destruct (p_slot pathp), s1. }
  destruct (delete_nodes_run h i T Hp ltac:(lia) path 0 pathp _ _ W2) as (s3 & N3 & E3 & W3 & Hi3); [|by apply on_path_delete|].
  { intros t j [Hj Hji]%elem_of_difference. apply (rep_tags _ _ _ _ R), elem_of_dom in Hj as [b Hb]. rewrite (rep_items _ _ _ _ R) in Hb.
    rewrite lookup_delete_ne; [eauto|]. intros [= ->]. set_solver. }
  erewrite bind_run by exact E3. erewrite (bind_run (gets _)) by done. rewrite Ei. cbn [default from_option id].
  assert (forall j, items (without A i) !! j = N3 !! (0%nat, j)) as Hits.
  { intros j. rewrite Hi3. cbn. destruct (decide (i = j)) as [->|]; [by rewrite !lookup_delete_eq|].
    rewrite !lookup_delete_ne by congruence. apply (rep_items _ _ _ _ R). }
  assert (forall t, tagged (without A i) t ⊆ dom (items (without A i))) as Htgs.
  { intros t. cbn. rewrite dom_delete_L. pose proof (rep_tags _ _ _ _ R t). set_solver. }
  destruct (Z.eqb_spec (rnode (root s3)) 0) as [Er|Er]; cbn [when].
  - erewrite bind_run by done. eexists _, O, N3. split; [done|]. split; [|done|done]. pose proof (wf_null _ _ _ _ _ W3 Er) as ->.
    destruct W3. split; cbn; try done; lia.
  - erewrite bind_run by done. by exists s3, h, N3.
Qed.
