(* ===== verification/RadixGang.v ===== *)
(** * The radix tree: gang lookups

    Both lookups collect, in ascending order, the items of the indices with a
    property that the slots tell level by level: being present, or having a
    tag.  A round of the loop passes at least one node of the tree, so the number of nodes
    in use bounds it. *)
From S2P Require Import Prelude.
From S2P Require Import RadixTree.
From S2P Require Import RadixSpec.
From S2P Require Import RadixProof.

(** The indices of [J] from [lo] to [hi], ascending. *)
Definition between (J : gset Z) (lo hi : Z) : list Z := filter (fun j => j ∈ J) (seqZ lo (hi - lo)).

Lemma between_app J lo mid hi : lo <= mid <= hi -> between J lo hi = between J lo mid ++ between J mid hi.
Proof.
  intros H. unfold between. replace (hi - lo) with ((mid - lo) + (hi - mid)) by lia. rewrite seqZ_app, filter_app by lia.
  by replace (lo + (mid - lo)) with mid by lia.
Qed.
Lemma between_none J lo hi : (forall j, lo <= j < hi -> j ∉ J) -> between J lo hi = [].
Proof.
  intros H. unfold between. apply elem_of_nil_inv. intros j [Hj Hin]%list_elem_of_filter. apply elem_of_seqZ in Hin.
  eapply H; [|done]. lia.
Qed.
Lemma between_one J j : between J j (j + 1) = if bool_decide (j ∈ J) then [j] else [].
Proof.
  unfold between. replace (j + 1 - j) with 1 by lia. rewrite seqZ_cons, seqZ_nil by lia. rewrite filter_cons, filter_nil.
  destruct (decide (j ∈ J)); [by rewrite bool_decide_true|by rewrite bool_decide_false].
Qed.

Lemma next_index_run l i : (l < 6)%nat -> 0 <= i < 2 ^ 32 ->
  u32 (Z.land i (u32 (Z.lnot (u32 (Z.shiftl 1 (6 * Z.of_nat l)) - 1))) + u32 (Z.shiftl 1 (6 * Z.of_nat l))) =
  u32 ((pre l i + 1) * 2 ^ (6 * Z.of_nat l)).
Proof.
  intros Hl Hi. rewrite Z.shiftl_1_l. assert (0 < 2 ^ (6 * Z.of_nat l) <= 2 ^ 30) as Hb.
  { split; [apply Z.pow_pos_nonneg; lia|apply Z.pow_le_mono_r; lia]. }
  rewrite (u32_small (2 ^ _)) by lia. rewrite <- (u32_small (2 ^ (6 * Z.of_nat l) - 1)) by lia. rewrite align_mask by lia.
  unfold pre. rewrite Z.shiftr_div_pow2 by lia. f_equal. lia.
Qed.
Lemma cell_after l i : i < (pre l i + 1) * 2 ^ (6 * Z.of_nat l).
Proof.
  unfold pre. rewrite Z.shiftr_div_pow2 by lia. set (m := 2 ^ (6 * Z.of_nat l)). assert (0 < m) by (apply Z.pow_pos_nonneg; lia).
  pose proof (Z.mul_succ_div_gt i m ltac:(lia)). lia.
Qed.
(** The end of a cell below level 6 is at most 2^32, where the index wraps. *)
Lemma cell_end l i : (l < 6)%nat -> 0 <= i < 2 ^ 32 -> i < (pre l i + 1) * 2 ^ (6 * Z.of_nat l) <= 2 ^ 32.
Proof.
  intros Hl Hi. unfold pre. rewrite Z.shiftr_div_pow2 by lia. set (m := 2 ^ (6 * Z.of_nat l)).
  assert (0 < m) by (apply Z.pow_pos_nonneg; lia). assert (2 ^ 32 = m * 2 ^ (32 - 6 * Z.of_nat l)) as E by (unfold m; rewrite <- Z.pow_add_r by lia; f_equal; lia).
  pose proof (Z.mul_succ_div_gt i m ltac:(lia)). split; [lia|]. rewrite E. rewrite (Z.mul_comm _ m). apply Z.mul_le_mono_nonneg_l; [lia|].
  enough (i / m < 2 ^ (32 - 6 * Z.of_nat l)) by lia. apply Z.div_lt_upper_bound; lia.
Qed.
Lemma cell_range l i j : 0 <= i -> i <= j < (pre l i + 1) * 2 ^ (6 * Z.of_nat l) -> pre l j = pre l i.
Proof.
  intros Hi Hj. unfold pre in *. rewrite !Z.shiftr_div_pow2 in * by lia. set (m := 2 ^ (6 * Z.of_nat l)) in *.
  assert (0 < m) by (apply Z.pow_pos_nonneg; lia). symmetry. apply Z.div_unique_pos with (j - m * (i / m)); [|lia].
  pose proof (Z.mul_div_le i m ltac:(lia)). lia.
Qed.

(** The nodes that are in use: in neither the slab cache nor the pool. *)
Definition in_use (s : rt) : gset Z := dom (nodes s) ∖ list_to_set (cache s ++ preloads s).
Lemma in_use_size s : (size (in_use s) <= size (nodes s))%nat.
Proof. rewrite <- (size_dom (D := gset Z) (nodes s)). apply subseteq_size. unfold in_use. set_solver. Qed.

(** The end of the indices an index stands for, as the code has it. *)
Definition limit (next : Z) : Z := if next =? 0 then 2 ^ 32 else next.
Lemma limit_u32 x : 0 < x <= 2 ^ 32 -> limit (u32 x) = x.
Proof.
  intros H. unfold limit. destruct (decide (x = 2 ^ 32)) as [->|]; [done|]. rewrite u32_small by lia. by replace (x =? 0) with false by lia.
Qed.

Section Gang.
Context (present : Z -> Z -> M rt bool) (s : rt) (A : rmap) (h : nat) (N : cells) (J : gset Z) (P : nat -> Z -> Prop).
Context (R : rep s A h N).
(** What [present] tells of a slot, and the property at the levels above. *)
Context (Hrun : forall l p a k, N !! (S l, p) = Some a -> 0 <= k < 64 ->
  exists b : bool, present a k s = Some (b, s) /\ (b = true <-> P l (64 * p + k))).
Context (Hin : forall l q, (l <= h)%nat -> P l q -> is_Some (N !! (l, q))) (Hup : forall l j, (l <= h)%nat -> j ∈ J -> P l (pre l j)) (Hitem : forall j, P O j <-> j ∈ J).
Let W : wf s h N (tg (tagged A)) None := rep_wf _ _ _ _ R.

Lemma none_in_cell l i : (l <= h)%nat -> 0 <= i < 2 ^ 32 -> ~ P l (pre l i) -> between J i ((pre l i + 1) * 2 ^ (6 * Z.of_nat l)) = [].
Proof. intros Hl Hi HP. apply between_none. intros j Hj HJ. apply HP. rewrite <- (cell_range l i j) by lia. by apply Hup. Qed.

(** Where the search in a node ends: at a slot, or past the node. *)
Definition skipped (l : nat) (i : Z) (r : option Z * Z) : Prop :=
  let '(o, i') := r in
  match o with
  | Some k => i <= i' < 2 ^ 32 /\ P l (pre l i') /\ k = off l i' /\ pre (S l) i' = pre (S l) i /\ between J i i' = []
  | None => i < limit i' <= 2 ^ 32 /\ between J i (limit i') = [] /\ 0 <= i' < 2 ^ 32 /\ (i' = 0 \/ (pre (S l) i + 1) * 2 ^ (6 * Z.of_nat (S l)) <= i')
  end.

Lemma skip_loop_run l a n : (l < 6)%nat -> forall i, 0 <= i < 2 ^ 32 -> N !! (S l, pre (S l) i) = Some a -> Z.of_nat n = 64 - off l i ->
  exists r, skip_loop present n a (off l i) (6 * Z.of_nat l) i s = Some (r, s) /\ skipped l i r.
Proof.
  intros Hl. induction n as [|n IH]; intros i Hi Ha Hn; [pose proof (off_range l i); lia|]. cbn [skip_loop].
  destruct (Hrun l _ a (off l i) Ha (off_range l i)) as (b & Eb & Hb). erewrite bind_run by exact Eb. rewrite <- pre_split in Hb. destruct b.
  { exists (Some (off l i), i). split; [done|]. cbn. split_and!; try done; try lia; [by apply Hb|]. apply between_none. lia. }
  rewrite next_index_run by done. set (e := (pre l i + 1) * 2 ^ (6 * Z.of_nat l)). pose proof (cell_end l i Hl Hi) as He. fold e in He.
  assert (between J i e = []) as Hnone by (apply none_in_cell; [destruct (wf_cell _ _ _ _ _ W _ _ _ Ha); lia|done|]; intros ?%Hb; done).
  pose proof (u32_range e) as Hr. pose proof (limit_u32 e ltac:(lia)) as Hlim. destruct (Z.eqb_spec (u32 e) 0) as [Ez|Ez].
  { exists (None, u32 e). split; [done|]. cbn. rewrite Hlim. split_and!; try done; try lia. }
  assert (u32 e = e) as Eu by (unfold limit in Hlim; by rewrite (proj2 (Z.eqb_neq _ _) Ez) in Hlim). rewrite Eu in *.
  assert (pre l e = pre l i + 1) as Epre by (unfold pre at 1; rewrite Z.shiftr_div_pow2 by lia; apply Z.div_mul; assert (0 < 2 ^ (6 * Z.of_nat l)) by (apply Z.pow_pos_nonneg; lia); lia).
  pose proof (pre_split l i) as Es. pose proof (off_range l i) as Ho. destruct (decide (off l i = 63)) as [E63|E63].
  - destruct n as [|n]; [|lia]. cbn [skip_loop]. exists (None, e). split; [done|]. cbn. unfold limit. rewrite (proj2 (Z.eqb_neq _ _) Ez).
    split_and!; try done; try lia. right. unfold e. rewrite Es, E63. replace (6 * Z.of_nat (S l)) with (6 * Z.of_nat l + 6) by lia. rewrite Z.pow_add_r by lia. lia.
  - assert (pre (S l) e = pre (S l) i /\ off l e = off l i + 1) as [E1 E2].
    { unfold off. rewrite (pre_S l e), Epre, Es. split; [by replace (64 * pre (S l) i + off l i + 1) with (64 * pre (S l) i + (off l i + 1)) by lia; apply child_div; lia|].
      rewrite <- Es. unfold off in *. Z.to_euclidean_division_equations; lia. }
    destruct (IH e ltac:(lia)) as (r & Er & Hsk); [by rewrite E1|lia|]. rewrite E2 in Er. exists r. split; [done|].
    destruct r as [[k|] i']; cbn in *.
    + destruct Hsk as (H1 & H2 & H3 & H4 & H5). split_and!; try done; try lia; try congruence. rewrite (between_app J i e) by lia. by rewrite Hnone, H5.
    + destruct Hsk as (H1 & H2 & H3 & H4). split_and!; try done; try lia; try (by rewrite E1 in H4). rewrite (between_app J i e) by lia. by rewrite Hnone, H2.
Qed.

Lemma leaf_end p a : N !! (1%nat, p) = Some a -> 0 <= p /\ 64 * p + 64 <= 2 ^ 32.
Proof.
  intros Ha. destruct (wf_cell _ _ _ _ _ W _ _ _ Ha) as (_ & _ & Hp & Hb). rewrite Z.shiftl_mul_pow2 in Hb by lia. split; [done|]. change (2 ^ (6 * Z.of_nat 1)) with 64 in Hb. lia.
Qed.
Lemma grab_loop_run p a max n : N !! (1%nat, p) = Some a -> forall k res, 0 <= k <= 64 -> Z.of_nat n = 64 - k -> Z.of_nat (length res) < max ->
  exists found i', grab_loop present n a k (u32 (64 * p + k)) max res s = Some ((res ++ found, i'), s) /\
    64 * p + k <= limit i' <= 64 * p + 64 /\ (k < 64 -> 64 * p + k < limit i') /\ 0 <= i' < 2 ^ 32 /\ found = at_ N 0 <$> between J (64 * p + k) (limit i') /\
    Z.of_nat (length (res ++ found)) <= max /\ (Z.of_nat (length (res ++ found)) = max \/ limit i' = 64 * p + 64).
Proof.
  intros Ha. destruct (leaf_end p a Ha) as [Hp He]. induction n as [|n IH]; intros k res Hk Hn Hres; cbn [grab_loop].
  { exists [], (u32 (64 * p + k)). rewrite limit_u32, app_nil_r by lia. assert (k = 64) as -> by lia. pose proof (u32_range (64 * p + 64)).
    split_and!; try done; try lia. by rewrite between_none by lia. }
  assert (u32 (u32 (64 * p + k) + 1) = u32 (64 * p + (k + 1))) as Ei by (rewrite (u32_small (64 * p + k)) by lia; f_equal; lia). rewrite Ei.
  destruct (Hrun 0 p a k Ha ltac:(lia)) as (b & Eb & Hb). erewrite bind_run by exact Eb. rewrite Hitem in Hb.
  assert (forall hi, 64 * p + (k + 1) <= hi -> between J (64 * p + k) hi = (if b then [64 * p + k] else []) ++ between J (64 * p + (k + 1)) hi) as Hsplit.
  { intros hi Hhi. rewrite (between_app J _ (64 * p + (k + 1))) by lia. f_equal. replace (64 * p + (k + 1)) with (64 * p + k + 1) by lia. rewrite between_one.
    case_bool_decide as H; destruct b; try done; [by apply Hb in H|by destruct H; apply Hb]. }
  destruct b.
  - unfold slot_of. erewrite bind_run by (eapply child_run; [apply W|exact Ha|lia]). set (v := at_ N 0 (64 * p + k)).
    assert (length (res ++ [v]) = S (length res)) as El by (rewrite length_app; cbn; lia). destruct (Z.eqb_spec (Z.of_nat (length (res ++ [v]))) max) as [Em|Em].
    + exists [v], (u32 (64 * p + (k + 1))). rewrite limit_u32 by lia. pose proof (u32_range (64 * p + (k + 1))). split_and!; try done; try lia.
      rewrite Hsplit by lia. by rewrite (between_none J _ (64 * p + (k + 1))) by lia.
    + destruct (IH (k + 1) (res ++ [v])) as (found & i' & E & H1 & H2 & H3 & H4 & H5 & H6); [lia|lia|lia|]. exists (v :: found), i'.
      rewrite E, <- !app_assoc in *. cbn [app] in *. split_and!; try done; try lia. rewrite Hsplit by lia. by rewrite H4.
  - destruct (IH (k + 1) res) as (found & i' & E & H1 & H2 & H3 & H4 & H5 & H6); [lia|lia|lia|]. exists found, i'. rewrite E. split_and!; try done; try lia.
    rewrite Hsplit by lia. by rewrite H4.
Qed.

(** What a walk from [i] finds: all up to the index it ends at, which passes a
    node unless enough was found. *)
Definition walked (i max : Z) (found : list Z) (i' : Z) : Prop :=
  i < limit i' <= 2 ^ 32 /\ 0 <= i' < 2 ^ 32 /\ found = at_ N 0 <$> between J i (limit i') /\ Z.of_nat (length found) <= max /\
  (Z.of_nat (length found) = max \/ i' = 0 \/ exists l p, is_Some (N !! (S l, p)) /\ i < (p + 1) * 2 ^ (6 * Z.of_nat (S l)) <= i').

Lemma skip_run l a i (o := offset_of i (6 * Z.of_nat l)) : (l < 6)%nat -> 0 <= i < 2 ^ 32 -> N !! (S l, pre (S l) i) = Some a ->
  exists r, skip_loop present (Z.to_nat (RADIX_TREE_MAP_SIZE - o)) a o (6 * Z.of_nat l) i s = Some (r, s) /\ skipped l i r.
Proof.
  intros Hl Hi Ha. unfold o. rewrite offset_of_off. pose proof (off_range l i). apply skip_loop_run; try done. change RADIX_TREE_MAP_SIZE with 64. lia.
Qed.
Lemma walk_none max l i i' a : 0 < max -> N !! (S l, pre (S l) i) = Some a -> skipped l i (None, i') -> walked i max [] i'.
Proof.
  intros Hmax Ha (H1 & H2 & H3 & H4). split_and!; try lia; [by rewrite H2|cbn; lia|]. right. destruct H4 as [->|H4]; [by left|right].
  exists l, (pre (S l) i). split; [eauto|]. split; [apply cell_after|done].
Qed.
Lemma gang_walk_run max l : 0 < max -> (l < 6)%nat -> forall i a, 0 <= i < 2 ^ 32 -> N !! (S l, pre (S l) i) = Some a ->
  exists found i', gang_walk present (S l) (6 * Z.of_nat l) i max a s = Some ((found, i'), s) /\ walked i max found i'.
Proof.
  intros Hmax. induction l as [|l IH]; intros Hl i a Hi Ha; destruct (skip_run _ a i Hl Hi Ha) as (r & Er & Hsk);
    (destruct r as [[k|] i1]; [|exists [], i1; split; [cbn [gang_walk]; by erewrite bind_run by exact Er|by eapply walk_none]]);
    cbn [gang_walk]; erewrite bind_run by exact Er; cbn in Hsk.
  - destruct Hsk as (H1 & H2 & -> & H4 & H5).
    assert (Z.land i1 RADIX_TREE_MAP_MASK = off 0 i1) as -> by (rewrite <- (offset_of_off 0); unfold offset_of; cbn; by rewrite Z.shiftr_0_r).
    rewrite <- H4 in Ha. pose proof (off_range 0 i1) as Ho1. pose proof (pre_split 0 i1) as Es. rewrite pre_0 in Es.
    destruct (grab_loop_run (pre 1 i1) a max (Z.to_nat (RADIX_TREE_MAP_SIZE - off 0 i1)) Ha (off 0 i1) []) as (found & i' & E & G1 & G2 & G3 & G4 & G5 & G6);
      [lia|change RADIX_TREE_MAP_SIZE with 64; lia|cbn; lia|]. rewrite <- Es in *. rewrite u32_small in E by lia. exists found, i'. split; [done|].
    destruct (leaf_end _ _ Ha) as [_ He]. split_and!; try done; try lia.
    + by rewrite (between_app J i i1), H5 by lia.
    + destruct G6 as [G6|G6]; [by left|right]. unfold limit in G6. destruct (Z.eqb_spec i' 0) as [->|]; [by left|right]. exists 0%nat, (pre 1 i1). split; [eauto|].
      change (2 ^ (6 * Z.of_nat 1)) with 64. rewrite H4. pose proof (cell_after 1 i). change (2 ^ (6 * Z.of_nat 1)) with 64 in *. lia.
  - destruct Hsk as (H1 & H2 & -> & H4 & H5). rewrite <- H4 in Ha. destruct (wf_cell _ _ _ _ _ W _ _ _ Ha) as (_ & Hlh & _). destruct (Hin (S l) (pre (S l) i1) ltac:(lia) H2) as [b Hb]. unfold slot_of.
    erewrite bind_run by (eapply child_run; [apply W|exact Ha|apply off_range]). rewrite <- pre_split, (at_some _ _ _ _ Hb). rewrite next_shift_S by lia.
    destruct (IH ltac:(lia) i1 b ltac:(lia) Hb) as (found & i' & E & G1 & G2 & G3 & G4 & G5). exists found, i'. split; [done|]. split_and!; try done; try lia.
    + by rewrite (between_app J i i1), H5 by lia.
    + destruct G5 as [?|[?|(l' & p' & Hn & Hr)]]; [by left|by right; left|right; right]. exists l', p'. split; [done|lia].
Qed.

(** The nodes that end after an index. *)
Definition ahead (i : Z) : cells := filter (fun c : nat * Z * Z => (0 < c.1.1)%nat /\ i < (c.1.2 + 1) * 2 ^ (6 * Z.of_nat c.1.1)) N.
Lemma ahead_less i i' l p : i <= i' -> is_Some (N !! (S l, p)) -> i < (p + 1) * 2 ^ (6 * Z.of_nat (S l)) <= i' -> (size (ahead i') < size (ahead i))%nat.
Proof.
  intros Hi [a Ha] He. apply map_subset_size. apply map_subset_alt. split.
  - apply map_subseteq_spec. intros c b [Hb [H1 H2]]%map_lookup_filter_Some. apply map_lookup_filter_Some. split; [done|]. split; [done|lia].
  - exists (S l, p). split.
    + apply map_lookup_filter_None. right. intros b _ [_ H]. cbn in H. lia.
    + exists a. apply map_lookup_filter_Some. split; [done|]. cbn. lia.
Qed.
(** The nodes in the tree are not free. *)
Lemma ahead_nodes i : (size (ahead i) <= size (in_use s))%nat.
Proof.
  rewrite <- length_map_to_list, <- (length_fmap snd).
  assert (NoDup ((map_to_list (ahead i)).*2)) as Hnd.
  { apply NoDup_fmap_2_strong; [|apply NoDup_map_to_list]. intros [[l p] a] [[l' p'] a'] H1%elem_of_map_to_list H2%elem_of_map_to_list E. cbn in E. subst a'.
    apply map_lookup_filter_Some in H1 as [H1 [Hl _]], H2 as [H2 [Hl' _]]. cbn in Hl, Hl'. destruct l as [|l], l' as [|l']; try lia.
    by destruct (wf_inj _ _ _ _ _ W _ _ _ _ _ H1 H2) as [-> ->]. }
  rewrite <- (size_list_to_set (C := gset Z)) by done. apply subseteq_size. intros a [[[l p] b] [-> H]]%elem_of_list_to_set%list_elem_of_fmap.
  apply elem_of_map_to_list, map_lookup_filter_Some in H as [H [Hl _]]. cbn in *. destruct l as [|l]; [lia|].
  destruct (wf_node _ _ _ _ _ W _ _ _ H) as (n & Hn & _). apply elem_of_difference. split; [apply elem_of_dom; eauto|].
  intros Hb%elem_of_list_to_set. destruct (wf_free _ _ _ _ _ W b Hb) as (_ & _ & H3). by apply (H3 l p).
Qed.

Lemma beyond j : j ∈ J -> 0 <= j < 2 ^ 32 /\ pre h j = 0.
Proof.
  intros HJ%Hitem. apply Hin in HJ as [a Ha]; [|lia]. rewrite <- (rep_items _ _ _ _ R) in Ha. by destruct (items_range _ _ _ _ _ _ R Ha) as (? & _ & ? & _).
Qed.
Lemma lookup_from_run i max : 0 <= i < 2 ^ 32 -> pre h i = 0 -> 0 < max -> (rnode (root s) = 0 -> h = O) ->
  exists found i', lookup_from present i max s = Some ((found, i'), s) /\ (walked i max found i' \/ (h = O /\ found = [] /\ i' = 0)).
Proof.
  intros Hi Hp Hmax Hset. unfold lookup_from. erewrite (bind_run (gets _)) by done. rewrite (wf_height _ _ _ _ _ W), Nat2Z.id, (wf_root _ _ _ _ _ W).
  destruct (decide (h = O)) as [E0|E0]; [exists [], i; rewrite E0 in Hp |- *; rewrite pre_0 in Hp; split; [done|]; by right|].
  assert (exists l, h = S l) as [l Eh] by (clear -E0; destruct h; [done|eauto]). pose proof (wf_six _ _ _ _ _ W).
  assert (N !! (h, pre h i) = Some (at_ N h 0)) as Ha.
  { rewrite Hp. eapply at_pos; [apply W|]. rewrite <- (wf_root _ _ _ _ _ W). intros Hz. by apply Hset in Hz. }
  rewrite Eh, first_shift_S by lia. rewrite Eh in Ha. destruct (gang_walk_run max l Hmax ltac:(lia) i _ Hi Ha) as (found & i' & E & Hw). exists found, i'. split; [done|by left].
Qed.

Lemma gang_loop_run max first m : (rnode (root s) = 0 -> h = O) -> 0 <= max -> 0 <= first < 2 ^ 32 -> (forall i, 0 <= i < 2 ^ 32 -> (m < i <-> pre h i <> 0)) ->
  forall fuel i, first <= i < 2 ^ 32 -> Z.of_nat (length (between J first i)) <= max -> (size (ahead i) < fuel)%nat ->
  exists hi, gang_loop present fuel m i max (at_ N 0 <$> between J first i) s = Some (at_ N 0 <$> between J first hi, s) /\ first <= hi <= 2 ^ 32 /\
    Z.of_nat (length (between J first hi)) <= max /\ (Z.of_nat (length (between J first hi)) = max \/ between J hi (2 ^ 32) = []).
Proof.
  intros Hset Hmax Hfirst Hm. induction fuel as [|fuel IH]; intros i Hi Hlen Hf; [lia|]. cbn [gang_loop]. rewrite length_fmap.
  destruct (Z.ltb_spec (Z.of_nat (length (between J first i))) max) as [Hlt|Hge]; cbn [andb].
  2:{ exists i. split_and!; try done; try lia. }
  destruct (Z.leb_spec i m) as [Hle|Hgt].
  2:{ exists i. split_and!; try done; try lia. right. apply between_none. intros j Hj HJ. destruct (beyond j HJ) as [Hr Hpj].
    destruct (decide (pre h j = 0)) as [Ez|Ez]; [|done]. assert (m < j) as Hmj by lia. by apply Hm in Hmj. }
  assert (pre h i = 0) as Hp by (destruct (decide (pre h i = 0)) as [|Hne]; [done|apply Hm in Hne; lia]).
  set (n := max - Z.of_nat (length (between J first i))). destruct (lookup_from_run i n ltac:(lia) Hp ltac:(lia) Hset) as (found & i' & E & Hw).
  erewrite bind_run by exact E. cbv beta iota zeta. destruct Hw as [(H1 & H2 & -> & H4 & H5)|(Eh & -> & ->)].
  - rewrite <- fmap_app, <- between_app by lia. rewrite length_fmap in H4, H5.
    assert (length (between J first (limit i')) = (length (between J first i) + length (between J i (limit i')))%nat) as El by (rewrite <- length_app, <- between_app by lia; done).
    unfold limit in *. destruct (Z.eqb_spec i' 0) as [Hz|Hz].
    + exists (2 ^ 32). split_and!; try done; try lia. right. by apply between_none; lia.
    + destruct H5 as [H5|[?|(l & p & Hn & Hr)]]; [|done|].
      * exists i'. split_and!; try lia. { destruct fuel; cbn [gang_loop]; rewrite length_fmap; by replace (_ <? max) with false by lia. }
      * apply IH; [lia|lia|]. pose proof (ahead_less i i' l p ltac:(lia) Hn Hr). lia.
  - rewrite app_nil_r. cbn [Z.eqb]. exists i. split_and!; try done; try lia. right. apply between_none. intros j Hj HJ. apply Hitem, Hin in HJ as [a Ha]; [|lia].
    by rewrite (wf_empty _ _ _ _ _ W Eh) in Ha.
Qed.

(** Any fuel above the number of nodes in use is enough. *)
Lemma gang_fuel_run first max m fuel : (rnode (root s) = 0 -> h = O) -> 0 <= max -> 0 <= first < 2 ^ 32 ->
  radix_tree_maxindex (height (root s)) s = Some (m, s) -> (size (in_use s) < fuel)%nat ->
  gang_loop present fuel m first max [] s = Some (take (Z.to_nat max) (at_ N 0 <$> between J first (2 ^ 32)), s).
Proof.
  intros Hset Hmax Hfirst Em Hf.
  assert (forall i, 0 <= i < 2 ^ 32 -> (m < i <-> pre h i <> 0)) as Hm.
  { intros i Hi. destruct (maxindex_run s A h N i R Hi) as (m' & Em' & Hm'). rewrite Em in Em'. by injection Em' as <-. }
  assert (between J first first = []) as E0 by (apply between_none; lia).
  destruct (gang_loop_run max first m Hset Hmax Hfirst Hm fuel first) as (hi & E & H1 & H2 & H3); [lia|rewrite E0; cbn; lia|pose proof (ahead_nodes first); lia|].
  rewrite E0 in E. cbn [fmap list_fmap] in E. rewrite E. do 2 f_equal. rewrite (between_app J first hi (2 ^ 32)) by lia. destruct H3 as [H3|H3].
  - rewrite fmap_app, take_app_length'; [done|]. rewrite length_fmap. lia.
  - rewrite H3, app_nil_r, take_ge; [done|]. rewrite length_fmap. lia.
Qed.
End Gang.

(** ** The two lookups *)
Section Lookups.
Context (s : rt) (A : rmap) (h : nat) (N : cells) (R : rep s A h N).
Let W : wf s h N (tg (tagged A)) None := rep_wf _ _ _ _ R.

(** Empty nodes that a failed insertion left have no item below them, so a
    slot may be in use where nothing is present. *)
Lemma has_slot_run l p a k : N !! (S l, p) = Some a -> 0 <= k < 64 ->
  exists b : bool, has_slot a k s = Some (b, s) /\ (b = true <-> is_Some (N !! (l, 64 * p + k))).
Proof.
  intros Ha Hk. unfold has_slot, slot_of. erewrite bind_run by (eapply child_run; [apply W|done|done]). eexists. split; [done|].
  unfold truth. rewrite negb_true_iff, Z.eqb_neq, (at_zero _ _ _ _ _ _ _ W). destruct (N !! (l, 64 * p + k)); split; eauto; by intros [].
Qed.
Lemma has_tag_run t l p a k : t = 0 \/ t = 1 -> N !! (S l, p) = Some a -> 0 <= k < 64 ->
  exists b : bool, has_tag t a k s = Some (b, s) /\ (b = true <-> tg (tagged A) t l (64 * p + k)).
Proof.
  intros Ht Ha Hk. destruct (tag_get_run _ _ _ _ _ _ _ _ t k W Ha Ht Hk) as (b & E & Hb). exists b. split; [|done]. unfold has_tag. erewrite bind_run by exact E.
  destruct b; cbn [when]; [|done]. assert (tg (tagged A) t l (64 * p + k)) as (j & Hj & Ep) by by apply Hb.
  apply (rep_tags _ _ _ _ R), elem_of_dom in Hj as [v Hv]. rewrite (rep_items _ _ _ _ R) in Hv. destruct (wf_cell _ _ _ _ _ W _ _ _ Ha) as (_ & Hl & _).
  destruct (wf_above _ _ _ _ _ _ _ _ l W Hv) as [c Hc]; [lia|]. rewrite Nat.add_0_r, <- Ep in Hc. destruct (wf_cell _ _ _ _ _ W _ _ _ Hc) as [Hc0 _].
  unfold slot_of. erewrite bind_run; [done|]. erewrite bind_run by (eapply child_run; [apply W|done|done]). rewrite (at_some _ _ _ _ Hc).
  by replace (c =? 0) with false by lia.
Qed.

Lemma values_at J first : J ⊆ dom (items A) -> at_ N 0 <$> between J first (2 ^ 32) = (fun j => default 0 (items A !! j)) <$> between J first (2 ^ 32).
Proof. intros _. apply list_fmap_ext. intros k j _. unfold at_. by rewrite (rep_items _ _ _ _ R). Qed.

(** The items from an index on, ascending. *)
Definition from_index (J : gset Z) (first max : Z) : list Z := take (Z.to_nat max) ((fun j => default 0 (items A !! j)) <$> between J first (2 ^ 32)).

Lemma slots_fuel_run first max m fuel : (rnode (root s) = 0 -> h = O) -> 0 <= max -> 0 <= first < 2 ^ 32 ->
  radix_tree_maxindex (height (root s)) s = Some (m, s) -> (size (in_use s) < fuel)%nat ->
  gang_loop has_slot fuel m first max [] s = Some (from_index (dom (items A)) first max, s).
Proof.
  intros. unfold from_index. rewrite <- values_at by done. eapply (gang_fuel_run has_slot s A h N _ (fun l q => is_Some (N !! (l, q))) R); try done.
  - intros l p a k Ha Hk. by apply has_slot_run.
  - intros l j Hl [v Hv]%elem_of_dom. rewrite (rep_items _ _ _ _ R) in Hv. destruct (wf_above _ _ _ _ _ _ _ _ l W Hv) as [c Hc]; [lia|].
    rewrite Nat.add_0_r in Hc. eauto.
  - intros j. by rewrite elem_of_dom, (rep_items _ _ _ _ R).
Qed.
Lemma tags_fuel_run t first max m fuel : t = 0 \/ t = 1 -> (rnode (root s) = 0 -> h = O) -> 0 <= max -> 0 <= first < 2 ^ 32 ->
  radix_tree_maxindex (height (root s)) s = Some (m, s) -> (size (in_use s) < fuel)%nat ->
  gang_loop (has_tag t) fuel m first max [] s = Some (from_index (tagged A t) first max, s).
Proof.
  intros Ht. intros. unfold from_index. rewrite <- values_at by apply R. eapply (gang_fuel_run (has_tag t) s A h N _ (tg (tagged A) t) R); try done.
  - intros l p a k Ha Hk. by apply has_tag_run.
  - intros l q Hl (j & Hj & ->). apply (rep_tags _ _ _ _ R), elem_of_dom in Hj as [v Hv]. rewrite (rep_items _ _ _ _ R) in Hv.
    destruct (wf_above _ _ _ _ _ _ _ _ l W Hv) as [c Hc]; [lia|]. rewrite Nat.add_0_r in Hc. eauto.
  - intros l j _ Hj. by exists j.
  - intros j. split; [intros (i & Hi & ->); by rewrite pre_0|]. intros Hj. exists j. by rewrite pre_0.
Qed.
End Lookups.
