(* ===== verification/RadixTheorems.v ===== *)
(** * The radix tree: its properties

    A history is any sequence of calls on a tree, from its initialisation on;
    the abstract state is a finite map with two sets of tagged indices. *)
From S2P Require Import Prelude.
From S2P Require Import RadixTree.
From S2P Require Import RadixSpec.
From S2P Require Import RadixProof.
From S2P Require Import RadixDelete.
From S2P Require Import RadixGang.

Inductive call :=
| Insert (i item : Z) | Delete (i : Z) | Lookup (i : Z) | TagSet (i t : Z) | TagClear (i t : Z) | Tagged (t : Z)
| Gang (first max : Z) | GangTag (first max t : Z) | Preload.

Definition one (m : M rt Z) : M rt (list Z) := r ← m; ret [r].
Definition run_call (c : call) : M rt (list Z) :=
  match c with
  | Insert i item => one (radix_tree_insert i item)
  | Delete i => one (radix_tree_delete i)
  | Lookup i => one (radix_tree_lookup i)
  | TagSet i t => one (radix_tree_tag_set i t)
  | TagClear i t => one (radix_tree_tag_clear i t)
  | Tagged t => one (radix_tree_tagged t)
  | Gang first max => radix_tree_gang_lookup first max
  | GangTag first max t => radix_tree_gang_lookup_tag first max t
  | Preload => one radix_tree_preload
  end.

(** ** The specification *)
Definition answer (A : rmap) (c : call) (r : list Z) : Prop :=
  match c with
  | Insert i _ => if items A !! i is Some _ then r = [- EEXIST] else r = [0] \/ r = [- ENOMEM]
  | Delete i | Lookup i | TagSet i _ | TagClear i _ => r = [default 0 (items A !! i)]
  | Tagged t => r = [of_bool (bool_decide (tagged A t ≠ ∅))]
  | Gang first max => r = from_index A (dom (items A)) first max
  | GangTag first max t => r = from_index A (tagged A t) first max
  | Preload => r = [0] \/ r = [- ENOMEM]
  end.
Definition after (A : rmap) (c : call) (r : list Z) : rmap :=
  match c with
  | Insert i item => if bool_decide (r = [0]) then with_item A i item else A
  | Delete i => without A i
  | TagSet i t => with_tag A i t
  | TagClear i t => without_tag A i t
  | _ => A
  end.

(** What callers must ensure.  Only an item that is there is tagged.  When the
    first insertion into a tree fails, the tree has a height but no node: then
    it must not be searched, and not be extended beyond the last height. *)
Definition is_index (i : Z) : Prop := 0 <= i < 2 ^ 32.
Definition is_tag (t : Z) : Prop := t = 0 \/ t = 1.
Definition settled (s : rt) : Prop := rnode (root s) = 0 -> height (root s) = 0.
Definition allowed (s : rt) (A : rmap) (c : call) : Prop :=
  match c with
  | Insert i item => is_index i /\ 0 < item /\ (i = 0 -> rnode (root s) = 0 -> height (root s) < 6)
  | Delete i | Lookup i => is_index i
  | TagSet i t => is_Some (items A !! i) /\ is_tag t
  | TagClear i t => is_index i /\ is_tag t
  | Tagged t => is_tag t
  | Gang first max => is_index first /\ 0 <= max /\ settled s
  | GangTag first max t => is_index first /\ 0 <= max /\ is_tag t /\ settled s
  | Preload => True
  end.

Definition empty_map : rmap := {| items := ∅; tagged := fun _ => ∅ |}.
Definition new_tree (mask : Z) (o : list bool) : rt := {| root := {| height := 0; gfp_mask := mask; rnode := 0 |}; nodes := ∅; cache := []; preloads := []; outcomes := o |}.
Inductive history : rt -> rmap -> Prop :=
| hist_new mask o : history (new_tree mask o) empty_map
| hist_call s A c r s' : history s A -> allowed s A c -> run_call c s = Some (r, s') -> history s' (after A c r).

(** ** The proof *)
Lemma preload_loop_run A h N fuel : forall s, rep s A h N -> (7 - pool s <= fuel)%nat ->
  exists r s', preload_loop fuel s = Some (r, s') /\ rep s' A h N /\ ((r = 0 /\ (7 <= pool s')%nat) \/ r = - ENOMEM) /\ root s' = root s.
Proof.
  assert (forall s, pool_full s = Some (bool_decide (7 <= pool s)%nat, s)) as Hfull.
  { intros s. unfold pool_full, gets. do 2 f_equal. change RADIX_TREE_MAX_PATH with 7. unfold pool. case_bool_decide; lia. }
  induction fuel as [|fuel IH]; intros s R Hf; cbn [preload_loop]; erewrite bind_run by apply Hfull; case_bool_decide as Hp; try lia;
    try (exists 0, s; split_and!; [done|done|by left|done]).
  destruct (cache_alloc_run s h N _ (rep_wf _ _ _ _ R)) as (p & s1 & E & W1 & Er & Epl & Hnew). erewrite bind_run by exact E.
  assert (rep s1 A h N) as R1 by (destruct R; by split). destruct Hnew as [->|(H0 & Hn & Hni & Hnn)]; [exists (- ENOMEM), s1; split_and!; try done; by right|].
  replace (p =? 0) with false by lia. erewrite bind_run by apply Hfull. unfold pool in *. rewrite Epl. rewrite bool_decide_false by lia. erewrite bind_run by done.
  destruct (IH (s1 <| preloads := p :: preloads s1 |>)) as (r & s' & E' & R' & Hr & Er'); [|cbn; rewrite Epl; lia|exists r, s'; split_and!; try done; by rewrite Er', <- Er].
  destruct R1 as [W2 H1 H2]. split; [|done|done]. destruct W2. split; cbn; try done.
  - intros b [Hb|[-> | Hb]%elem_of_cons]%elem_of_app; [apply wf_free, elem_of_app; by left|done|apply wf_free, elem_of_app; by right].
  - apply NoDup_app in wf_distinct as (D1 & D2 & D3). rewrite elem_of_app in Hni. apply NoDup_app. split_and!; [done| |constructor; [tauto|done]].
    intros b Hb [-> | Hb']%elem_of_cons; [tauto|by apply (D2 b)].
Qed.

Lemma tagged_run s A h N t : rep s A h N -> is_tag t -> radix_tree_tagged t s = Some (of_bool (bool_decide (tagged A t ≠ ∅)), s).
Proof.
  intros R Ht. pose proof (rep_wf _ _ _ _ R) as W. unfold radix_tree_tagged. erewrite (bind_run (gets _)) by done.
  destruct (Z.eqb_spec (rnode (root s)) 0) as [E|E].
  - rewrite bool_decide_false; [done|]. intros Hne. apply Hne. apply leibniz_equiv. intros i. split; [|set_solver]. intros Hi.
    apply (rep_tags _ _ _ _ R), elem_of_dom in Hi as [a Ha]. rewrite (rep_items _ _ _ _ R), (wf_null _ _ _ _ _ W E) in Ha. done.
  - destruct h as [|l]; [rewrite (wf_root _ _ _ _ _ W), (wf_empty _ _ _ _ _ W) in E by done; done|].
    pose proof E as E'. rewrite (wf_root _ _ _ _ _ W) in E'. pose proof (at_pos _ _ _ _ _ _ _ W E') as Ha. rewrite <- (wf_root _ _ _ _ _ W) in Ha.
    destruct (any_tag_run _ _ _ _ _ _ _ _ t W Ha Ht) as (b & Eb & _). erewrite bind_run by exact Eb. pose proof (any_tag_top s A l N t b R E Ht Eb) as Hb.
    unfold ret. do 3 f_equal.
    destruct b; symmetry; [apply bool_decide_true|apply bool_decide_false]; [destruct Hb as [Hb _]; destruct (Hb eq_refl); set_solver|].
    intros Hne. apply set_choose_L in Hne as [i Hi]. enough (false = true) by done. apply Hb. eauto.
Qed.

Lemma inserted_answer A i v r A' : inserted A i v r A' -> answer A (Insert i v) [r] /\ A' = after A (Insert i v) [r].
Proof.
  intros [E|u E|E]; cbn; rewrite E.
  - split; [by left|by rewrite bool_decide_true].
  - split; [done|]. by rewrite bool_decide_false.
  - split; [by right|]. by rewrite bool_decide_false.
Qed.

Lemma one_run m s r s' : m s = Some (r, s') -> one m s = Some ([r], s').
Proof. intros E. unfold one. by erewrite bind_run by exact E. Qed.

Lemma gang_run s A h N first max : rep s A h N -> is_index first -> 0 <= max -> settled s ->
  radix_tree_gang_lookup first max s = Some (from_index A (dom (items A)) first max, s) /\
  (forall t, is_tag t -> radix_tree_gang_lookup_tag first max t s = Some (from_index A (tagged A t) first max, s)).
Proof.
  intros R Hf Hm Hs. pose proof (rep_wf _ _ _ _ R) as W. assert (rnode (root s) = 0 -> h = O) as Hs' by (intros E; apply Hs in E; rewrite (wf_height _ _ _ _ _ W) in E; lia).
  destruct (maxindex_run s A h N first R Hf) as (m & Em & _). unfold radix_tree_gang_lookup, radix_tree_gang_lookup_tag, gang_lookup.
  split; [|intros t Ht]; do 1 (erewrite (bind_run (gets _)) by done); erewrite bind_run by exact Em; erewrite (bind_run (gets _)) by done.
  - by eapply slots_fuel_run; [..|pose proof (in_use_size s); lia].
  - by eapply tags_fuel_run; [..|pose proof (in_use_size s); lia].
Qed.

Lemma call_run s A h N c : rep s A h N -> allowed s A c ->
  exists r s' h' N', run_call c s = Some (r, s') /\ answer A c r /\ rep s' (after A c r) h' N'.
Proof.
  intros R. pose proof (rep_wf _ _ _ _ R) as W. destruct c as [i v|i|i|i t|i t|t|first max|first max t|]; cbn [allowed run_call].
  - intros (Hi & Hv & H0). destruct (insert_run s A h N i v R Hi Hv) as (r & s' & A' & h' & N' & E & R' & Hins & _).
    { intros Ei Er. specialize (H0 Ei Er). rewrite (wf_height _ _ _ _ _ W) in H0. lia. }
    apply inserted_answer in Hins as [Hans ->]. exists [r], s', h', N'. split; [by apply one_run|done].
  - intros Hi. destruct (delete_rep s A h N i R Hi) as (s' & h' & N' & E & R'). eexists _, s', h', N'. split; [by apply one_run|done].
  - intros Hi. eexists _, s, h, N. split; [by eapply one_run, lookup_run|done].
  - intros [[v Hv] Ht]. destruct (tag_set_rep s A h N i v t R Hv Ht) as (s' & E & R'). eexists _, s', h, N. split; [by apply one_run|]. split; [cbn; by rewrite Hv|done].
  - intros [Hi Ht]. destruct (tag_clear_rep s A h N i t R Hi Ht) as (s' & E & R'). eexists _, s', h, N. split; [by apply one_run|done].
  - intros Ht. eexists _, s, h, N. split; [by eapply one_run, tagged_run|done].
  - intros (Hf & Hm & Hs). destruct (gang_run s A h N first max R Hf Hm Hs) as [E _]. by eexists _, s, h, N.
  - intros (Hf & Hm & Ht & Hs). destruct (gang_run s A h N first max R Hf Hm Hs) as [_ E]. eexists _, s, h, N. split; [by apply E|done].
  - intros _. destruct (preload_loop_run A h N (Z.to_nat RADIX_TREE_MAX_PATH) s R) as (r & s' & E & R' & Hr & _); [change (Z.to_nat RADIX_TREE_MAX_PATH) with 7%nat; lia|].
    exists [r], s', h, N. split; [by apply one_run|]. split; [|done]. cbn. destruct Hr as [[-> _]| ->]; [by left|by right].
Qed.

Lemma history_rep s A : history s A -> exists h N, rep s A h N.
Proof.
  intros H. induction H as [mask o|s A c r s' H (h & N & R) Hc E].
  - exists O, ∅. split; [split; cbn; try done; try lia|done|done]; [by intros ? ?%elem_of_nil|constructor|by intros ? []].
  - destruct (call_run s A h N c R Hc) as (r' & s'' & h' & N' & E' & _ & R'). rewrite E in E'. injection E' as <- <-. eauto.
Qed.

(** ** Properties *)

(** C14.  The radix tree is a map: after any history of allowed insertions,
    removals, lookups, tag operations, gang lookups and preloads, with
    allocations that fail at will, every allowed call returns with the answer
    the abstract map gives: insertions never replace an item and fail only for
    lack of memory, which leaves the contents as they were, and gang lookups
    return the first items from an index on in ascending order, all of them or
    those with a tag.  Not allowed are: tagging an index that has no item, and,
    on a root that a failed first insertion left with a height but no node, a
    gang lookup, which oopses, and the insertion of index 0 when that height
    is the greatest, which reads past [height_to_maxindex]. *)
Theorem radix_tree_refines_map s A c : history s A -> allowed s A c ->
  exists r s', run_call c s = Some (r, s') /\ answer A c r /\ history s' (after A c r).
Proof.
  intros H Hc. destruct (history_rep s A H) as (h & N & R). destruct (call_run s A h N c R Hc) as (r & s' & _ & _ & E & Hr & _).
  exists r, s'. split_and!; [done|done|by econstructor].
Qed.

(** C15.  The tree stays well formed: in every state of a history the nodes
    form a tree of at most six levels in which each node has 64 slots, the
    number of those in use and, for each tag, exactly the bits of the slots with
    a tagged item below; and every free node, in the slab cache or in the pool,
    is as its constructor left it, is free once only and is not in the tree. *)
Theorem radix_tree_well_formed s A : history s A ->
  (exists h N, wf s h N (tg (tagged A)) None /\ (forall i, items A !! i = N !! (0%nat, i)) /\ forall a, a ∈ cache s ++ preloads s -> not_in N a) /\
  (forall a, a ∈ cache s ++ preloads s -> nodes s !! a = Some radix_tree_node_ctor) /\ NoDup (cache s ++ preloads s).
Proof.
  intros H. destruct (history_rep s A H) as (h & N & [W Hi Ht]). split_and!.
  - exists h, N. split_and!; [done|done|]. intros a Ha. by destruct (wf_free _ _ _ _ _ W a Ha) as (_ & _ & ?).
  - intros a Ha. by apply (wf_free _ _ _ _ _ W).
  - apply W.
Qed.

(** C16.  The loops of the gang lookups terminate: in a tree whose root has a
    node whenever it has a height, that is, not left by a failed first
    insertion, each takes at most one round per node in use, so any fuel above
    the number of nodes that are in neither the slab cache nor the pool gives
    the first [max] items from the first index on. *)
Theorem gang_lookup_terminates s A first max m fuel : history s A -> settled s -> is_index first -> 0 <= max ->
  radix_tree_maxindex (height (root s)) s = Some (m, s) -> (size (in_use s) < fuel)%nat ->
  gang_loop has_slot fuel m first max [] s = Some (from_index A (dom (items A)) first max, s) /\
  forall t, is_tag t -> gang_loop (has_tag t) fuel m first max [] s = Some (from_index A (tagged A t) first max, s).
Proof.
  intros H Hs Hf Hm Em Hfuel. destruct (history_rep s A H) as (h & N & R).
  assert (rnode (root s) = 0 -> h = O) as Hs' by (intros E; apply Hs in E; rewrite (wf_height _ _ _ _ _ (rep_wf _ _ _ _ R)) in E; lia).
  split; [|intros t Ht]; [by eapply slots_fuel_run|by eapply tags_fuel_run].
Qed.

(** C17.  Preloading works where the tree need not grow: when a preload has
    succeeded and the tree's allocations may not wait, the insertion of a new
    index that the height of the tree allows, or into an empty tree, succeeds
    whatever the slab cache does. *)
Theorem preloaded_insert_succeeds s A s1 i v : history s A -> radix_tree_preload s = Some (0, s1) ->
  truth (Z.land (gfp_mask (root s)) __GFP_WAIT) = false -> allowed s1 A (Insert i v) -> items A !! i = None ->
  (rnode (root s) = 0 \/ exists m, radix_tree_maxindex (height (root s)) s = Some (m, s) /\ i <= m) ->
  exists s2, radix_tree_insert i v s1 = Some (0, s2).
Proof.
  intros H Ep Hw (Hi & Hv & H0) Hnone Hhigh. destruct (history_rep s A H) as (h & N & R).
  destruct (preload_loop_run A h N (Z.to_nat RADIX_TREE_MAX_PATH) s R) as (r & s' & E & R' & Hr & Er); [change (Z.to_nat RADIX_TREE_MAX_PATH) with 7%nat; lia|].
  unfold radix_tree_preload in Ep. rewrite E in Ep. injection Ep as -> ->.
  destruct (insert_run s1 A h N i v R' Hi Hv) as (r & s2 & A' & h' & N' & E2 & _ & Hins & Hmem).
  { intros Ei Ez. specialize (H0 Ei Ez). rewrite (wf_height _ _ _ _ _ (rep_wf _ _ _ _ R')) in H0. lia. }
  exists s2. rewrite E2. destruct Hins as [_|u Hu|_]; [done|congruence|]. exfalso.
  destruct Hr as [[_ Hpool]|Hr]; [|done]. destruct (Hmem eq_refl) as [Hc|[_ Hc]]; [unfold can_wait in Hc; by rewrite Er, Hw in Hc|].
  enough (pool s1 < 7)%nat by lia. apply Hc. rewrite Er. destruct Hhigh as [Hz|(m & Em & Him)]; [by left|right].
  destruct (maxindex_run s A h N i R Hi) as (m' & Em' & Hm). rewrite Em in Em'. injection Em' as <-.
  destruct (decide (pre h i = 0)) as [|Hne]; [done|]. apply Hm in Hne. lia.
Qed.

(** ** Witnesses *)
Definition step_to (s : rt) (c : call) : rt := match run_call c s with Some (_, s') => s' | None => s end.
(** Two items of a tree of height 3, one of them tagged. *)
Definition demo1 : rt := step_to (new_tree 0 []) (Insert 70 5).
Definition demo2 : rt := step_to demo1 (Insert 5000 9).
Definition demo3 : rt := step_to demo2 (TagSet 5000 1).
Definition demo_map : rmap := after (after (after empty_map (Insert 70 5) [0]) (Insert 5000 9) [0]) (TagSet 5000 1) [9].

Lemma demo_history : history demo3 demo_map.
Proof.
  apply (hist_call demo2 _ _ [9]); [apply (hist_call demo1 _ _ [0]); [apply (hist_call (new_tree 0 []) _ _ [0]); [apply hist_new| |]| |]| |]; try (by vm_compute).
  all: cbn; unfold is_index, is_tag; try lia; split_and!; try lia; try done.
Qed.

Lemma radix_tree_refines_map_witness : exists r s', run_call (GangTag 3 10 1) demo3 = Some (r, s') /\ answer demo_map (GangTag 3 10 1) r.
Proof.
  destruct (radix_tree_refines_map demo3 demo_map (GangTag 3 10 1) demo_history) as (r & s' & E & H & _).
  - cbn. unfold is_index, is_tag. split_and!; try lia. by vm_compute.
  - exists r, s'. split; [exact E|exact H].
Defined.
Lemma radix_tree_well_formed_witness : NoDup (cache demo3 ++ preloads demo3).
Proof. apply (radix_tree_well_formed demo3 demo_map demo_history). Defined.
Lemma some_fst_inj {B C} (a a' : B) (b b' : C) : Some (a, b) = Some (a', b') -> a = a'.
Proof. by intros [= -> _]. Qed.
Lemma gang_lookup_terminates_witness :
  gang_loop has_slot 100 262143 3 10 [] demo3 = Some ([5; 9], demo3) /\ from_index demo_map (dom (items demo_map)) 3 10 = [5; 9].
Proof.
  assert (gang_loop has_slot 100 262143 3 10 [] demo3 = Some ([5; 9], demo3)) as E by by vm_compute. split; [exact E|].
  destruct (gang_lookup_terminates demo3 demo_map 3 10 262143 100 demo_history) as [H _]; [by vm_compute|unfold is_index; lia|lia|by vm_compute|vm_compute; lia|].
  rewrite E in H. exact (some_fst_inj _ _ _ _ (eq_sym H)).
Defined.
(** A preload of seven nodes, after which the slab cache has none. *)
Definition demo4 : rt := step_to demo3 Preload.
Lemma preloaded_insert_succeeds_witness : exists s2, radix_tree_insert 200000 3 demo4 = Some (0, s2).
Proof.
  apply (preloaded_insert_succeeds demo3 demo_map demo4 200000 3 demo_history); [by vm_compute|done| |by vm_compute|].
  - cbn. unfold is_index. split_and!; lia.
  - right. exists 262143. split; [by vm_compute|lia].
Defined.

(** ** Corner cases *)

(** A full pool is not enough when the tree must grow: with an item at 0, an
    insertion at 2^31 takes five nodes on top of the tree and five below. *)
Lemma preload_not_enough :
  let o := replicate 8 true ++ replicate 11 false in
  option_map fst ((a ← radix_tree_insert 0 5; b ← radix_tree_preload; c ← radix_tree_insert (2 ^ 31) 6; ret (a, b, c)) (new_tree 0 o)) = Some (0, 0, - ENOMEM).
Proof. by vm_compute. Qed.
(** When the first insertion fails, the tree has a height and no node, and a
    gang lookup dereferences NULL. *)
Lemma gang_lookup_oopses :
  option_map fst (radix_tree_insert 0 5 (new_tree __GFP_WAIT [false])) = Some (- ENOMEM) /\
  ((radix_tree_insert 0 5;; radix_tree_gang_lookup 0 1) (new_tree __GFP_WAIT [false]) = None).
Proof. split; by vm_compute. Qed.
(** Such a tree of the greatest height is extended once more by the insertion
    of index 0, which reads beyond [height_to_maxindex]. *)
Lemma extended_past_table :
  option_map fst (radix_tree_insert (2 ^ 31) 5 (new_tree __GFP_WAIT [false])) = Some (- ENOMEM) /\
  ((radix_tree_insert (2 ^ 31) 5;; radix_tree_insert 0 5) (new_tree __GFP_WAIT [false]) = None).
Proof. split; by vm_compute. Qed.
