(* ===== verification/Crc.v ===== *)
(** * lib/crc32.c, lib/gen_crc32table.c, lib/crc-ccitt.c, lib/libcrc32c.c

    Data is read from a memory of bytes, at addresses of 32 bits.  The code of
    lib/crc32.c depends on the byte order of the machine, the parameter
    [little]; the tables are those that gen_crc32table.c prints when the kernel
    is built.  Both the bit-wise variants and those with tables of 256 entries
    are modelled; the second are what is compiled. *)
From S2P Require Import Prelude.

Abbreviation mem := (gmap Z Z).
Definition byte_at (p : Z) : M mem Z := o ← gets (fun m : mem => m !! p); deref o.

Definition CRCPOLY_LE : Z := 0xedb88320.
Definition CRCPOLY_BE : Z := 0x04c11db7.

(** ** Bit by bit *)
Definition le_step (poly crc : Z) : Z := Z.lxor (Z.shiftr crc 1) (if truth (Z.land crc 1) then poly else 0).
Definition be_step (poly crc : Z) : Z := Z.lxor (u32 (Z.shiftl crc 1)) (if truth (Z.land crc 0x80000000) then poly else 0).

(** [while (len--) { ... *p++ ... }] *)
Fixpoint byte_loop (f : Z -> Z -> Z) (len : nat) (crc p : Z) : M mem Z :=
  match len with
  | O => ret crc
  | S len => x ← byte_at p; byte_loop f len (f crc x) (u32 (p + 1))
  end.
Definition le_byte (poly crc x : Z) : Z := Nat.iter 8 (le_step poly) (Z.lxor crc x).
Definition be_byte (poly crc x : Z) : Z := Nat.iter 8 (be_step poly) (Z.lxor crc (Z.shiftl x 24)).
Definition crc32_le_bitwise (crc p len : Z) : M mem Z := byte_loop (le_byte CRCPOLY_LE) (Z.to_nat len) crc p.
Definition crc32_be_bitwise (crc p len : Z) : M mem Z := byte_loop (be_byte CRCPOLY_BE) (Z.to_nat len) crc p.

(** ** The tables of gen_crc32table.c *)

(** [for (j = 0; j < LE_TABLE_SIZE; j += 2 * i) table[i + j] = crc ^ table[j];] *)
Definition le_fill (i crc : Z) (table : list Z) : list Z :=
  foldl (fun t j => let j := Z.of_nat j * (2 * i) in <[Z.to_nat (i + j) := Z.lxor crc (t !!! Z.to_nat j)]> t) table (seq 0 (Z.to_nat (256 / (2 * i)))).
Fixpoint le_table_loop (fuel : nat) (i crc : Z) (table : list Z) : list Z :=
  match fuel with
  | O => table
  | S fuel => if i =? 0 then table else let crc := le_step CRCPOLY_LE crc in le_table_loop fuel (Z.shiftr i 1) crc (le_fill i crc table)
  end.
Definition crc32init_le : list Z := le_table_loop 9 128 1 (replicate 256 0).

(** [for (j = 0; j < i; j++) table[i + j] = crc ^ table[j];] *)
Definition be_fill (i crc : Z) (table : list Z) : list Z :=
  foldl (fun t j => <[(Z.to_nat i + j)%nat := Z.lxor crc (t !!! j)]> t) table (seq 0 (Z.to_nat i)).
Fixpoint be_table_loop (fuel : nat) (i crc : Z) (table : list Z) : list Z :=
  match fuel with
  | O => table
  | S fuel => if i <? 256 then let crc := be_step CRCPOLY_BE crc in be_table_loop fuel (Z.shiftl i 1) crc (be_fill i crc table) else table
  end.
Definition crc32init_be : list Z := be_table_loop 9 1 0x80000000 (replicate 256 0).

(** ** With tables *)
Definition swab32 (x : Z) : Z :=
  Z.lor (Z.lor (Z.lor (Z.shiftl (Z.land x 0x000000ff) 24) (Z.shiftl (Z.land x 0x0000ff00) 8)) (Z.shiftr (Z.land x 0x00ff0000) 8)) (Z.shiftr (Z.land x 0xff000000) 24).

Section Crc32.
Context (little : bool).
(** A conversion between the byte order of the machine and a given one. *)
Definition cpu_to_le32 (x : Z) : Z := if little then x else swab32 x.
Definition cpu_to_be32 (x : Z) : Z := if little then swab32 x else x.
Definition crc32table_le : list Z := cpu_to_le32 <$> crc32init_le.
Definition crc32table_be : list Z := cpu_to_be32 <$> crc32init_be.

Definition DO_CRC (tab : list Z) (crc x : Z) : Z :=
  if little then Z.lxor (tab !!! Z.to_nat (Z.land (Z.lxor crc x) 255)) (Z.shiftr crc 8)
  else Z.lxor (tab !!! Z.to_nat (Z.land (Z.lxor (Z.shiftr crc 24) x) 255)) (u32 (Z.shiftl crc 8)).

(** [do { ... } while ((--len) && ((long)b)&3);] *)
Fixpoint align_loop (tab : list Z) (len : nat) (crc b : Z) : M mem (Z * Z * nat) :=
  match len with
  | O => ret (crc, b, O)
  | S len =>
      x ← byte_at b;
      let crc := DO_CRC tab crc x in
      let b := u32 (b + 1) in
      if bool_decide (len <> O) && truth (Z.land b 3) then align_loop tab len crc b else ret (crc, b, len)
  end.
(** A load of a word, which must be aligned. *)
Definition word_at (b : Z) : M mem Z :=
  when (truth (Z.land b 3)) oops;;
  x0 ← byte_at b; x1 ← byte_at (u32 (b + 1)); x2 ← byte_at (u32 (b + 2)); x3 ← byte_at (u32 (b + 3));
  let '(x0, x1, x2, x3) := if little then (x0, x1, x2, x3) else (x3, x2, x1, x0) in
  ret (x0 + Z.shiftl x1 8 + Z.shiftl x2 16 + Z.shiftl x3 24).
Fixpoint word_loop (tab : list Z) (n : nat) (crc b : Z) : M mem (Z * Z) :=
  match n with
  | O => ret (crc, b)
  | S n =>
      w ← word_at b;
      let crc := Z.lxor crc w in
      let crc := DO_CRC tab (DO_CRC tab (DO_CRC tab (DO_CRC tab crc 0) 0) 0) 0 in
      word_loop tab n crc (u32 (b + 4))
  end.
(** The body the two functions share. *)
Definition crc_table (tab : list Z) (crc p len : Z) : M mem Z :=
  r ← (if truth (Z.land p 3) && truth len then align_loop tab (Z.to_nat len) crc p else ret (crc, p, Z.to_nat len));
  let '(crc, b, len) := r : Z * Z * nat in
  r ← (if bool_decide (4 <= len)%nat then
         r ← word_loop tab (len / 4) crc b; ret (r.1, r.2, (len mod 4)%nat)
       else ret (crc, b, len));
  let '(crc, b, len) := r : Z * Z * nat in
  byte_loop (DO_CRC tab) len crc b.
Definition crc32_le (crc p len : Z) : M mem Z := r ← crc_table crc32table_le (cpu_to_le32 crc) p len; ret (cpu_to_le32 r).
Definition crc32_be (crc p len : Z) : M mem Z := r ← crc_table crc32table_be (cpu_to_be32 crc) p len; ret (cpu_to_be32 r).
End Crc32.

Definition bitreverse (x : Z) : Z :=
  let x := Z.lor (Z.shiftr x 16) (u32 (Z.shiftl x 16)) in
  let x := Z.lor (Z.land (Z.shiftr x 8) 0x00ff00ff) (Z.land (u32 (Z.shiftl x 8)) 0xff00ff00) in
  let x := Z.lor (Z.land (Z.shiftr x 4) 0x0f0f0f0f) (Z.land (u32 (Z.shiftl x 4)) 0xf0f0f0f0) in
  let x := Z.lor (Z.land (Z.shiftr x 2) 0x33333333) (Z.land (u32 (Z.shiftl x 2)) 0xcccccccc) in
  Z.lor (Z.land (Z.shiftr x 1) 0x55555555) (Z.land (u32 (Z.shiftl x 1)) 0xaaaaaaaa).

(** ** lib/crc-ccitt.c *)
Definition crc_ccitt_table : list Z :=
  [0x0000; 0x1189; 0x2312; 0x329b; 0x4624; 0x57ad; 0x6536; 0x74bf;
   0x8c48; 0x9dc1; 0xaf5a; 0xbed3; 0xca6c; 0xdbe5; 0xe97e; 0xf8f7;
   0x1081; 0x0108; 0x3393; 0x221a; 0x56a5; 0x472c; 0x75b7; 0x643e;
   0x9cc9; 0x8d40; 0xbfdb; 0xae52; 0xdaed; 0xcb64; 0xf9ff; 0xe876;
   0x2102; 0x308b; 0x0210; 0x1399; 0x6726; 0x76af; 0x4434; 0x55bd;
   0xad4a; 0xbcc3; 0x8e58; 0x9fd1; 0xeb6e; 0xfae7; 0xc87c; 0xd9f5;
   0x3183; 0x200a; 0x1291; 0x0318; 0x77a7; 0x662e; 0x54b5; 0x453c;
   0xbdcb; 0xac42; 0x9ed9; 0x8f50; 0xfbef; 0xea66; 0xd8fd; 0xc974;
   0x4204; 0x538d; 0x6116; 0x709f; 0x0420; 0x15a9; 0x2732; 0x36bb;
   0xce4c; 0xdfc5; 0xed5e; 0xfcd7; 0x8868; 0x99e1; 0xab7a; 0xbaf3;
   0x5285; 0x430c; 0x7197; 0x601e; 0x14a1; 0x0528; 0x37b3; 0x263a;
   0xdecd; 0xcf44; 0xfddf; 0xec56; 0x98e9; 0x8960; 0xbbfb; 0xaa72;
   0x6306; 0x728f; 0x4014; 0x519d; 0x2522; 0x34ab; 0x0630; 0x17b9;
   0xef4e; 0xfec7; 0xcc5c; 0xddd5; 0xa96a; 0xb8e3; 0x8a78; 0x9bf1;
   0x7387; 0x620e; 0x5095; 0x411c; 0x35a3; 0x242a; 0x16b1; 0x0738;
   0xffcf; 0xee46; 0xdcdd; 0xcd54; 0xb9eb; 0xa862; 0x9af9; 0x8b70;
   0x8408; 0x9581; 0xa71a; 0xb693; 0xc22c; 0xd3a5; 0xe13e; 0xf0b7;
   0x0840; 0x19c9; 0x2b52; 0x3adb; 0x4e64; 0x5fed; 0x6d76; 0x7cff;
   0x9489; 0x8500; 0xb79b; 0xa612; 0xd2ad; 0xc324; 0xf1bf; 0xe036;
   0x18c1; 0x0948; 0x3bd3; 0x2a5a; 0x5ee5; 0x4f6c; 0x7df7; 0x6c7e;
   0xa50a; 0xb483; 0x8618; 0x9791; 0xe32e; 0xf2a7; 0xc03c; 0xd1b5;
   0x2942; 0x38cb; 0x0a50; 0x1bd9; 0x6f66; 0x7eef; 0x4c74; 0x5dfd;
   0xb58b; 0xa402; 0x9699; 0x8710; 0xf3af; 0xe226; 0xd0bd; 0xc134;
   0x39c3; 0x284a; 0x1ad1; 0x0b58; 0x7fe7; 0x6e6e; 0x5cf5; 0x4d7c;
   0xc60c; 0xd785; 0xe51e; 0xf497; 0x8028; 0x91a1; 0xa33a; 0xb2b3;
   0x4a44; 0x5bcd; 0x6956; 0x78df; 0x0c60; 0x1de9; 0x2f72; 0x3efb;
   0xd68d; 0xc704; 0xf59f; 0xe416; 0x90a9; 0x8120; 0xb3bb; 0xa232;
   0x5ac5; 0x4b4c; 0x79d7; 0x685e; 0x1ce1; 0x0d68; 0x3ff3; 0x2e7a;
   0xe70e; 0xf687; 0xc41c; 0xd595; 0xa12a; 0xb0a3; 0x8238; 0x93b1;
   0x6b46; 0x7acf; 0x4854; 0x59dd; 0x2d62; 0x3ceb; 0x0e70; 0x1ff9;
   0xf78f; 0xe606; 0xd49d; 0xc514; 0xb1ab; 0xa022; 0x92b9; 0x8330;
   0x7bc7; 0x6a4e; 0x58d5; 0x495c; 0x3de3; 0x2c6a; 0x1ef1; 0x0f78].
Definition crc_ccitt_byte (crc c : Z) : Z := Z.lxor (Z.shiftr crc 8) (crc_ccitt_table !!! Z.to_nat (Z.land (Z.lxor crc c) 0xff)).
Definition crc_ccitt (crc buffer len : Z) : M mem Z := byte_loop crc_ccitt_byte (Z.to_nat len) crc buffer.

(** ** lib/libcrc32c.c *)
Definition CRC32C_POLY_BE : Z := 0x1edc6f41.
Definition CRC32C_POLY_LE : Z := 0x82f63b78.
Definition crc32c_table : list Z :=
  [0x00000000; 0xf26b8303; 0xe13b70f7; 0x1350f3f4;
   0xc79a971f; 0x35f1141c; 0x26a1e7e8; 0xd4ca64eb;
   0x8ad958cf; 0x78b2dbcc; 0x6be22838; 0x9989ab3b;
   0x4d43cfd0; 0xbf284cd3; 0xac78bf27; 0x5e133c24;
   0x105ec76f; 0xe235446c; 0xf165b798; 0x030e349b;
   0xd7c45070; 0x25afd373; 0x36ff2087; 0xc494a384;
   0x9a879fa0; 0x68ec1ca3; 0x7bbcef57; 0x89d76c54;
   0x5d1d08bf; 0xaf768bbc; 0xbc267848; 0x4e4dfb4b;
   0x20bd8ede; 0xd2d60ddd; 0xc186fe29; 0x33ed7d2a;
   0xe72719c1; 0x154c9ac2; 0x061c6936; 0xf477ea35;
   0xaa64d611; 0x580f5512; 0x4b5fa6e6; 0xb93425e5;
   0x6dfe410e; 0x9f95c20d; 0x8cc531f9; 0x7eaeb2fa;
   0x30e349b1; 0xc288cab2; 0xd1d83946; 0x23b3ba45;
   0xf779deae; 0x05125dad; 0x1642ae59; 0xe4292d5a;
   0xba3a117e; 0x4851927d; 0x5b016189; 0xa96ae28a;
   0x7da08661; 0x8fcb0562; 0x9c9bf696; 0x6ef07595;
   0x417b1dbc; 0xb3109ebf; 0xa0406d4b; 0x522bee48;
   0x86e18aa3; 0x748a09a0; 0x67dafa54; 0x95b17957;
   0xcba24573; 0x39c9c670; 0x2a993584; 0xd8f2b687;
   0x0c38d26c; 0xfe53516f; 0xed03a29b; 0x1f682198;
   0x5125dad3; 0xa34e59d0; 0xb01eaa24; 0x42752927;
   0x96bf4dcc; 0x64d4cecf; 0x77843d3b; 0x85efbe38;
   0xdbfc821c; 0x2997011f; 0x3ac7f2eb; 0xc8ac71e8;
   0x1c661503; 0xee0d9600; 0xfd5d65f4; 0x0f36e6f7;
   0x61c69362; 0x93ad1061; 0x80fde395; 0x72966096;
   0xa65c047d; 0x5437877e; 0x4767748a; 0xb50cf789;
   0xeb1fcbad; 0x197448ae; 0x0a24bb5a; 0xf84f3859;
   0x2c855cb2; 0xdeeedfb1; 0xcdbe2c45; 0x3fd5af46;
   0x7198540d; 0x83f3d70e; 0x90a324fa; 0x62c8a7f9;
   0xb602c312; 0x44694011; 0x5739b3e5; 0xa55230e6;
   0xfb410cc2; 0x092a8fc1; 0x1a7a7c35; 0xe811ff36;
   0x3cdb9bdd; 0xceb018de; 0xdde0eb2a; 0x2f8b6829;
   0x82f63b78; 0x709db87b; 0x63cd4b8f; 0x91a6c88c;
   0x456cac67; 0xb7072f64; 0xa457dc90; 0x563c5f93;
   0x082f63b7; 0xfa44e0b4; 0xe9141340; 0x1b7f9043;
   0xcfb5f4a8; 0x3dde77ab; 0x2e8e845f; 0xdce5075c;
   0x92a8fc17; 0x60c37f14; 0x73938ce0; 0x81f80fe3;
   0x55326b08; 0xa759e80b; 0xb4091bff; 0x466298fc;
   0x1871a4d8; 0xea1a27db; 0xf94ad42f; 0x0b21572c;
   0xdfeb33c7; 0x2d80b0c4; 0x3ed04330; 0xccbbc033;
   0xa24bb5a6; 0x502036a5; 0x4370c551; 0xb11b4652;
   0x65d122b9; 0x97baa1ba; 0x84ea524e; 0x7681d14d;
   0x2892ed69; 0xdaf96e6a; 0xc9a99d9e; 0x3bc21e9d;
   0xef087a76; 0x1d63f975; 0x0e330a81; 0xfc588982;
   0xb21572c9; 0x407ef1ca; 0x532e023e; 0xa145813d;
   0x758fe5d6; 0x87e466d5; 0x94b49521; 0x66df1622;
   0x38cc2a06; 0xcaa7a905; 0xd9f75af1; 0x2b9cd9f2;
   0xff56bd19; 0x0d3d3e1a; 0x1e6dcdee; 0xec064eed;
   0xc38d26c4; 0x31e6a5c7; 0x22b65633; 0xd0ddd530;
   0x0417b1db; 0xf67c32d8; 0xe52cc12c; 0x1747422f;
   0x49547e0b; 0xbb3ffd08; 0xa86f0efc; 0x5a048dff;
   0x8ecee914; 0x7ca56a17; 0x6ff599e3; 0x9d9e1ae0;
   0xd3d3e1ab; 0x21b862a8; 0x32e8915c; 0xc083125f;
   0x144976b4; 0xe622f5b7; 0xf5720643; 0x07198540;
   0x590ab964; 0xab613a67; 0xb831c993; 0x4a5a4a90;
   0x9e902e7b; 0x6cfbad78; 0x7fab5e8c; 0x8dc0dd8f;
   0xe330a81a; 0x115b2b19; 0x020bd8ed; 0xf0605bee;
   0x24aa3f05; 0xd6c1bc06; 0xc5914ff2; 0x37faccf1;
   0x69e9f0d5; 0x9b8273d6; 0x88d28022; 0x7ab90321;
   0xae7367ca; 0x5c18e4c9; 0x4f48173d; 0xbd23943e;
   0xf36e6f75; 0x0105ec76; 0x12551f82; 0xe03e9c81;
   0x34f4f86a; 0xc69f7b69; 0xd5cf889d; 0x27a40b9e;
   0x79b737ba; 0x8bdcb4b9; 0x988c474d; 0x6ae7c44e;
   0xbe2da0a5; 0x4c4623a6; 0x5f16d052; 0xad7d5351].
Definition crc32c_byte (crc x : Z) : Z := Z.lxor (crc32c_table !!! Z.to_nat (Z.land (Z.lxor crc x) 0xff)) (Z.shiftr crc 8).
Definition crc32c_le (little : bool) (seed data length : Z) : M mem Z :=
  r ← byte_loop crc32c_byte (Z.to_nat length) (cpu_to_le32 little seed) data; ret (cpu_to_le32 little r).
Definition crc32c_le_bitwise (crc p len : Z) : M mem Z := byte_loop (le_byte CRC32C_POLY_LE) (Z.to_nat len) crc p.
Definition crc32c_be (crc p len : Z) : M mem Z := byte_loop (be_byte CRC32C_POLY_BE) (Z.to_nat len) crc p.
