(* ===== verification/CrcTheorems.v ===== *)
(** * Cyclic redundancy checks: the code with tables computes the bit-wise one

    Everything here is linear over exclusive or, so an identity of words holds
    when it holds for the single bits, which is computed. *)
From S2P Require Import Prelude.
From S2P Require Import Crc.

Definition word (w x : Z) : Prop := 0 <= x < 2 ^ w.

(** ** Linear functions *)
Record linear (w : Z) (f : Z -> Z) : Prop := lin { lin_xor a b : word w a -> word w b -> f (Z.lxor a b) = Z.lxor (f a) (f b) }.

Lemma lxor_word w a b : 0 <= w -> word w a -> word w b -> word w (Z.lxor a b).
Proof.
  intros Hw [Ha1 Ha2] [Hb1 Hb2]. assert (0 <= Z.lxor a b) by (apply Z.lxor_nonneg; lia). split; [done|].
  assert (Z.lxor a b = Z.lxor a b mod 2 ^ w) as ->; [|apply Z.mod_pos_bound, Z.pow_pos_nonneg; lia].
  apply Z.bits_inj'. intros k Hk. destruct (decide (k < w)); [by rewrite Z.mod_pow2_bits_low by lia|].
  rewrite Z.mod_pow2_bits_high, Z.lxor_spec by lia. rewrite <- (Z.mod_small a (2 ^ w)), <- (Z.mod_small b (2 ^ w)) by lia.
  by rewrite !Z.mod_pow2_bits_high by lia.
Qed.

Lemma linear_zero w f : 0 <= w -> linear w f -> f 0 = 0.
Proof.
  intros Hw [L]. assert (word w 0) as H0 by (split; [lia|apply Z.pow_pos_nonneg; lia]). pose proof (L 0 0 H0 H0) as E. rewrite !Z.lxor_nilpotent in E. done.
Qed.
(** Two linear functions that agree on the single bits agree. *)
Lemma linear_ext (n : nat) f g : linear (Z.of_nat n) f -> linear (Z.of_nat n) g -> (forall k, (k < n)%nat -> f (2 ^ Z.of_nat k) = g (2 ^ Z.of_nat k)) ->
  forall x, word (Z.of_nat n) x -> f x = g x.
Proof.
  intros Lf Lg Hk. assert (forall m, (m <= n)%nat -> forall x, word (Z.of_nat m) x -> f x = g x) as H; [|by apply H].
  assert (forall m x, (m <= n)%nat -> word (Z.of_nat m) x -> word (Z.of_nat n) x) as Hmono.
  { intros m x Hm [H1 H2]. split; [done|]. assert (2 ^ Z.of_nat m <= 2 ^ Z.of_nat n) by (apply Z.pow_le_mono_r; lia). lia. }
  induction m as [|m IH]; intros Hm x Hx.
  - assert (x = 0) as -> by (destruct Hx as [H1 H2]; rewrite Nat2Z.inj_0, Z.pow_0_r in H2; lia). rewrite (linear_zero (Z.of_nat n) _ ltac:(lia) Lf), (linear_zero (Z.of_nat n) _ ltac:(lia) Lg). done.
  - destruct (decide (x < 2 ^ Z.of_nat m)) as [Hlt|Hge]; [apply IH; [lia|]; destruct Hx; by split|].
    set (y := x - 2 ^ Z.of_nat m). assert (0 < 2 ^ Z.of_nat m) as Hpos by (apply Z.pow_pos_nonneg; lia).
    assert (word (Z.of_nat m) y) as Hy.
    { destruct Hx as [H1 H2]. replace (Z.of_nat (S m)) with (Z.of_nat m + 1) in H2 by lia. rewrite Z.pow_add_r in H2 by lia. unfold y. split; lia. }
    assert (x = Z.lxor y (2 ^ Z.of_nat m)) as Ex.
    { rewrite <- Z.add_nocarry_lxor; [unfold y; lia|]. apply Z.bits_inj'. intros k Hk0. rewrite Z.land_spec, Z.bits_0.
      destruct (decide (k = Z.of_nat m)) as [->|]; [|rewrite Z.pow2_bits_false by lia; apply andb_false_r].
      rewrite <- (Z.mod_small y (2 ^ Z.of_nat m)) by (destruct Hy; lia). by rewrite Z.mod_pow2_bits_high by lia. }
    clearbody y. subst x. assert (word (Z.of_nat (S m)) (2 ^ Z.of_nat m)) as Hp. { split; [lia|]. apply Z.pow_lt_mono_r; lia. }
    destruct Lf as [Lf], Lg as [Lg]. rewrite Lf, Lg by (eapply Hmono; [|eassumption]; lia). rewrite (IH ltac:(lia) y Hy), (Hk m) by lia. done.
Qed.

(** ** What is linear *)
Lemma linear_id w : linear w (fun x => x).
Proof. by split. Qed.
Lemma linear_xor w f g : linear w f -> linear w g -> linear w (fun x => Z.lxor (f x) (g x)).
Proof. intros [Lf] [Lg]. split. intros a b Ha Hb. rewrite Lf, Lg by done. apply Z.bits_inj'. intros k _. rewrite !Z.lxor_spec. by destruct (Z.testbit (f a) k), (Z.testbit (f b) k), (Z.testbit (g a) k), (Z.testbit (g b) k). Qed.
Lemma linear_comp w v f g : linear w f -> (forall x, word w x -> word v (f x)) -> linear v g -> linear w (fun x => g (f x)).
Proof. intros [Lf] Hf [Lg]. split. intros a b Ha Hb. rewrite Lf, Lg; auto. Qed.
Lemma linear_same w f g : (forall x, word w x -> f x = g x) -> 0 <= w -> linear w f -> linear w g.
Proof. intros E Hw [Lf]. split. intros a b Ha Hb. rewrite <- !E by (try apply lxor_word; done). by apply Lf. Qed.
Lemma linear_land w f c : linear w f -> linear w (fun x => Z.land (f x) c).
Proof. intros [Lf]. split. intros a b Ha Hb. rewrite Lf by done. apply Z.bits_inj'. intros k _. rewrite !Z.land_spec, !Z.lxor_spec, !Z.land_spec. by destruct (Z.testbit c k), (Z.testbit (f a) k), (Z.testbit (f b) k). Qed.
Lemma linear_shiftr w f k : 0 <= k -> linear w f -> linear w (fun x => Z.shiftr (f x) k).
Proof. intros Hk [Lf]. split. intros a b Ha Hb. rewrite Lf by done. apply Z.shiftr_lxor. Qed.
Lemma linear_shiftl w f k : 0 <= k -> linear w f -> linear w (fun x => Z.shiftl (f x) k).
Proof. intros Hk [Lf]. split. intros a b Ha Hb. rewrite Lf by done. apply Z.shiftl_lxor. Qed.
Lemma linear_u32 w f : 0 <= w -> linear w f -> linear w (fun x => u32 (f x)).
Proof. intros Hw Lf. eapply (linear_same w (fun x => Z.land (f x) (Z.ones 32))); [intros; symmetry; apply u32_ones|done|by apply linear_land]. Qed.
Lemma linear_if w f k c : 0 <= k -> linear w f -> linear w (fun x => if truth (Z.land (f x) (2 ^ k)) then c else 0).
Proof.
  intros Hk [Lf]. assert (forall y, truth (Z.land y (2 ^ k)) = Z.testbit y k) as Ht.
  { intros y. unfold truth. destruct (Z.testbit y k) eqn:E.
    - destruct (Z.eqb_spec (Z.land y (2 ^ k)) 0) as [E0|]; [|done]. apply (f_equal (fun z => Z.testbit z k)) in E0.
      rewrite Z.land_spec, Z.pow2_bits_true, E, Z.bits_0 in E0 by done. done.
    - replace (Z.land y (2 ^ k)) with 0; [done|]. apply Z.bits_inj'. intros j Hj. rewrite Z.bits_0, Z.land_spec.
      destruct (decide (j = k)) as [->|]; [by rewrite E|]. rewrite Z.pow2_bits_false by done. symmetry. apply andb_false_r. }
  split. intros a b Ha Hb. rewrite !Ht, Lf, Z.lxor_spec by done. destruct (Z.testbit (f a) k), (Z.testbit (f b) k); cbn [xorb]; by rewrite ?Z.lxor_0_r, ?Z.lxor_0_l, ?Z.lxor_nilpotent.
Qed.
(** Parts that do not overlap. *)
Lemma linear_lor w f g c d : Z.land c d = 0 -> linear w f -> linear w g -> linear w (fun x => Z.lor (Z.land (f x) c) (Z.land (g x) d)).
Proof.
  intros E Lf Lg. assert (forall u v, Z.lor (Z.land u c) (Z.land v d) = Z.lxor (Z.land u c) (Z.land v d)) as Eq.
  { intros u v. symmetry. apply Z.lxor_lor. rewrite (Z.land_comm v), Z.land_assoc, <- (Z.land_assoc u c d), E, Z.land_0_r. apply Z.land_0_l. }
  split. intros a b Ha Hb. rewrite !Eq. by apply (linear_xor w (fun x => Z.land (f x) c) (fun x => Z.land (g x) d)); [apply linear_land..| |].
Qed.
Create HintDb linear.
#[export] Hint Resolve linear_id linear_xor linear_land linear_shiftr linear_shiftl linear_u32 linear_if linear_lor : linear.

Lemma linear_le_step w poly : linear w (le_step poly).
Proof. apply (linear_xor w (fun x => Z.shiftr x 1) (fun x => if truth (Z.land x (2 ^ 0)) then poly else 0)); [|apply linear_if; [lia|]]; eauto with linear lia. Qed.
Lemma linear_be_step w poly : 0 <= w -> linear w (be_step poly).
Proof. intros. apply (linear_xor w (fun x => u32 (Z.shiftl x 1)) (fun x => if truth (Z.land x (2 ^ 31)) then poly else 0)); [apply linear_u32; [done|]|apply linear_if; [lia|]]; eauto with linear lia. Qed.

Lemma le_step_word w poly x : 1 <= w -> word w poly -> word w x -> word w (le_step poly x).
Proof.
  intros Hw Hp Hx. unfold le_step. apply lxor_word; [lia| |destruct (truth _); [done|split; [lia|apply Z.pow_pos_nonneg; lia]]].
  destruct Hx as [H1 H2]. rewrite Z.shiftr_div_pow2 by lia. change (2 ^ 1) with 2. split; [apply Z.div_pos; lia|]. pose proof (Z.div_le_upper_bound x 2 x). lia.
Qed.
Lemma be_step_word poly x : word 32 poly -> word 32 x -> word 32 (be_step poly x).
Proof. intros Hp Hx. unfold be_step. apply lxor_word; [lia|apply u32_range|destruct (truth _); [done|split; lia]]. Qed.
Lemma iter_word w f n x : (forall x, word w x -> word w (f x)) -> word w x -> word w (Nat.iter n f x).
Proof. intros Hf Hx. induction n; [done|]. by apply Hf. Qed.
Lemma linear_iter w f n : linear w f -> (forall x, word w x -> word w (f x)) -> linear w (Nat.iter n f).
Proof. intros Lf Hf. induction n as [|n IH]; [apply linear_id|]. apply (linear_comp w w (Nat.iter n f) f); [done|intros; by apply iter_word|done]. Qed.

(** The check on the single bits. *)
Definition same_bits (n : nat) (f g : Z -> Z) : bool := forallb (fun k => f (2 ^ Z.of_nat k) =? g (2 ^ Z.of_nat k)) (seq 0 n).
Lemma linear_check n f g x : linear (Z.of_nat n) f -> linear (Z.of_nat n) g -> same_bits n f g = true -> word (Z.of_nat n) x -> f x = g x.
Proof.
  intros Lf Lg E. apply linear_ext; try done. intros k Hk. unfold same_bits in E. rewrite forallb_forall in E. apply Z.eqb_eq, E, in_seq. lia.
Qed.

(** ** A byte at a time, with a table *)
Definition table_ok (tab : list Z) (f : nat -> Z) : Prop := length tab = 256%nat /\ forall i, (i < 256)%nat -> tab !!! i = f i.
Lemma table_check tab f : length tab = 256%nat -> forallb (fun i => tab !!! i =? f i) (seq 0 256) = true -> table_ok tab f.
Proof. intros Hl E. split; [done|]. intros i Hi. rewrite forallb_forall in E. apply Z.eqb_eq, E, in_seq. lia. Qed.
Lemma low_byte y : 0 <= Z.land y 255 < 256.
Proof. change 255 with (Z.ones 8). rewrite Z.land_ones by lia. apply Z.mod_pos_bound. lia. Qed.
Lemma byte_shift x : 0 <= x < 256 -> Z.shiftr x 8 = 0.
Proof. intros. rewrite Z.shiftr_div_pow2 by lia. apply Z.div_small. lia. Qed.
Lemma byte_word w x : 8 <= w -> 0 <= x < 256 -> word w x.
Proof. intros Hw Hx. assert (2 ^ 8 <= 2 ^ w) by (apply Z.pow_le_mono_r; lia). split; lia. Qed.

Lemma le_table_byte (n : nat) poly tab crc x : (8 <= n)%nat -> word (Z.of_nat n) poly ->
  table_ok tab (fun i => Nat.iter 8 (le_step poly) (Z.of_nat i)) ->
  same_bits n (Nat.iter 8 (le_step poly)) (fun y => Z.lxor (Nat.iter 8 (le_step poly) (Z.land y 255)) (Z.shiftr y 8)) = true ->
  word (Z.of_nat n) crc -> 0 <= x < 256 ->
  le_byte poly crc x = Z.lxor (tab !!! Z.to_nat (Z.land (Z.lxor crc x) 255)) (Z.shiftr crc 8).
Proof.
  intros Hn Hp [_ Ht] Hc Hcrc Hx. unfold le_byte. set (B := Nat.iter 8 (le_step poly)) in *.
  assert (forall y, word (Z.of_nat n) y -> word (Z.of_nat n) (le_step poly y)) as Hw by (intros; by apply le_step_word; [lia|..]).
  assert (linear (Z.of_nat n) B) as LB by (apply linear_iter; [apply linear_le_step|done]).
  rewrite (linear_check n B (fun y => Z.lxor (B (Z.land y 255)) (Z.shiftr y 8))); try done.
  - pose proof (low_byte (Z.lxor crc x)). rewrite Ht by lia. rewrite Z2Nat.id, Z.shiftr_lxor, (byte_shift x), Z.lxor_0_r by lia. done.
  - apply linear_xor; [|apply linear_shiftr; [lia|apply linear_id]].
    apply (linear_comp _ (Z.of_nat n) (fun y => Z.land y 255) B); [apply linear_land, linear_id| |done]. intros y _. apply byte_word; [lia|apply low_byte].
  - apply lxor_word; [lia|done|]. apply byte_word; [lia|done].
Qed.
Lemma crc32_le_table crc x : word 32 crc -> 0 <= x < 256 -> le_byte CRCPOLY_LE crc x = DO_CRC true crc32init_le crc x.
Proof.
  intros Hc Hx. apply (le_table_byte 32); try done; [lia|by apply table_check; vm_compute].
Qed.
Lemma crc32c_table_byte crc x : word 32 crc -> 0 <= x < 256 -> le_byte CRC32C_POLY_LE crc x = crc32c_byte crc x.
Proof.
  intros Hc Hx. apply (le_table_byte 32); try done; [lia|by apply table_check; vm_compute].
Qed.
(** The polynomial the comment on the table names. *)
Definition CRC_CCITT_POLY : Z := 0x8408.
Lemma crc_ccitt_table_byte crc x : word 16 crc -> 0 <= x < 256 -> le_byte CRC_CCITT_POLY crc x = crc_ccitt_byte crc x.
Proof.
  intros Hc Hx. unfold crc_ccitt_byte. rewrite Z.lxor_comm. apply (le_table_byte 16); try done; [lia|by apply table_check; vm_compute].
Qed.
Lemma crc32_be_table crc x : word 32 crc -> 0 <= x < 256 -> be_byte CRCPOLY_BE crc x = DO_CRC false crc32init_be crc x.
Proof.
  intros Hc Hx. unfold be_byte, DO_CRC. set (B := Nat.iter 8 (be_step CRCPOLY_BE)).
  assert (linear 32 B) as LB by (apply linear_iter; [by apply linear_be_step|intros; by apply be_step_word]).
  assert (table_ok crc32init_be (fun i => B (Z.shiftl (Z.of_nat i) 24))) as [_ Ht] by (apply table_check; by vm_compute).
  assert (forall y, Z.shiftl (Z.land y 255) 24 = Z.land (Z.shiftl y 24) 0xff000000) as Es by (intros; by rewrite Z.shiftl_land).
  assert (word 32 (Z.shiftl x 24)) as Hx24 by (rewrite Z.shiftl_mul_pow2 by lia; split; lia).
  rewrite (linear_check 32 B (fun y => Z.lxor (B (Z.shiftl (Z.land (Z.shiftr y 24) 255) 24)) (u32 (Z.shiftl y 8)))); [|done| |by vm_compute|by apply lxor_word].
  - pose proof (low_byte (Z.lxor (Z.shiftr crc 24) x)). rewrite Ht by lia. rewrite Z2Nat.id by lia. rewrite Z.shiftr_lxor, Z.shiftr_shiftl_l, Z.shiftl_0_r by lia.
    f_equal. rewrite Z.shiftl_lxor, !u32_ones, (Z.shiftl_shiftl x) by lia. change (24 + 8) with 32. apply Z.bits_inj'. intros k Hk.
    rewrite !Z.land_spec, Z.lxor_spec. destruct (decide (k < 32)); [rewrite (Z.shiftl_spec_low x) by lia; by rewrite xorb_false_r|].
    rewrite Z.ones_spec_high by lia. by rewrite !andb_false_r.
  - apply linear_xor; [|apply linear_u32; [lia|apply linear_shiftl; [lia|apply linear_id]]].
    apply (linear_comp _ 32 (fun y => Z.shiftl (Z.land (Z.shiftr y 24) 255) 24) B); [|intros y _|done].
    + apply linear_shiftl; [lia|]. apply linear_land, linear_shiftr; [lia|apply linear_id].
    + pose proof (low_byte (Z.shiftr y 24)). rewrite Z.shiftl_mul_pow2 by lia. split; lia.
Qed.

Lemma shiftr_word w x k : 0 <= k -> word w x -> word w (Z.shiftr x k).
Proof.
  intros Hk [H1 H2]. rewrite Z.shiftr_div_pow2 by lia. assert (0 < 2 ^ k) by (apply Z.pow_pos_nonneg; lia). split; [apply Z.div_pos; lia|].
  apply Z.le_lt_trans with x; [|done]. apply Z.div_le_upper_bound; nia.
Qed.
Lemma land_byte x : 0 <= x < 256 -> Z.land x 255 = x.
Proof. intros. change 255 with (Z.ones 8). rewrite Z.land_ones, Z.mod_small by lia. done. Qed.
Lemma land_lxor a b : Z.land (Z.lxor a b) 255 = Z.lxor (Z.land a 255) (Z.land b 255).
Proof. apply Z.bits_inj'. intros k _. rewrite Z.land_spec, !Z.lxor_spec, !Z.land_spec. by destruct (Z.testbit 255 k), (Z.testbit a k), (Z.testbit b k). Qed.
Lemma land_twice a : Z.land (Z.land a 255) 255 = Z.land a 255.
Proof. by rewrite <- Z.land_assoc. Qed.

(** ** Byte orders *)
Lemma swab32_xor x : swab32 x = Z.lxor (Z.lxor (Z.lxor (Z.shiftl (Z.land x 0xff) 24) (Z.shiftl (Z.land x 0xff00) 8)) (Z.shiftr (Z.land x 0xff0000) 8)) (Z.shiftr (Z.land x 0xff000000) 24).
Proof.
  unfold swab32. rewrite !Z.shiftl_land, !Z.shiftr_land.
  assert (forall u v c d, Z.land c d = 0 -> Z.land (Z.land u c) (Z.land v d) = 0) as Hd.
  { intros u v c d E. rewrite (Z.land_comm v), Z.land_assoc, <- (Z.land_assoc u c d), E, Z.land_0_r. apply Z.land_0_l. }
  rewrite <- (Z.lxor_lor _ (Z.land (Z.shiftr x 24) _)) by (rewrite !Z.land_lor_distr_l, !Hd by done; done).
  rewrite <- (Z.lxor_lor _ (Z.land (Z.shiftr x 8) _)) by (rewrite Z.land_lor_distr_l, !Hd by done; done).
  by rewrite <- (Z.lxor_lor (Z.land (Z.shiftl x 24) _)) by by apply Hd.
Qed.
Lemma linear_swab32 : linear 32 swab32.
Proof.
  eapply (linear_same 32); [intros; symmetry; apply swab32_xor|lia|].
  repeat apply linear_xor; [apply linear_shiftl|apply linear_shiftl|apply linear_shiftr|apply linear_shiftr]; try lia; apply linear_land, linear_id.
Qed.
Lemma swab32_word x : word 32 x -> word 32 (swab32 x).
Proof.
  intros Hx. rewrite swab32_xor, !Z.shiftl_land, !Z.shiftr_land.
  assert (forall y c, word 32 c -> word 32 (Z.land y c)) as Hl.
  { intros y c Hc. rewrite <- (Z.mod_small c (2 ^ 32)), <- Z.land_ones, Z.land_assoc, Z.land_ones by (done || lia). apply Z.mod_pos_bound. lia. }
  repeat apply lxor_word; try lia; by apply Hl.
Qed.
Lemma swab32_twice x : word 32 x -> swab32 (swab32 x) = x.
Proof.
  apply (linear_check 32 (fun x => swab32 (swab32 x)) (fun x => x)); [|apply linear_id|by vm_compute].
  apply (linear_comp 32 32 swab32 swab32); [apply linear_swab32|apply swab32_word|apply linear_swab32].
Qed.
(** The byte a shift brings to the other end, and the rest. *)
Lemma swab32_first x : word 32 x -> Z.shiftr (swab32 x) 24 = Z.land x 255.
Proof.
  apply (linear_check 32 (fun x => Z.shiftr (swab32 x) 24) (fun x => Z.land x 255)); [|apply linear_land, linear_id|by vm_compute].
  apply linear_shiftr; [lia|apply linear_swab32].
Qed.
Lemma swab32_last x : word 32 x -> Z.land (swab32 x) 255 = Z.shiftr x 24.
Proof.
  apply (linear_check 32 (fun x => Z.land (swab32 x) 255) (fun x => Z.shiftr x 24)); [|apply linear_shiftr; [lia|apply linear_id]|by vm_compute].
  apply linear_land, linear_swab32.
Qed.
Lemma swab32_up x : word 32 x -> u32 (Z.shiftl (swab32 x) 8) = swab32 (Z.shiftr x 8).
Proof.
  apply (linear_check 32 (fun x => u32 (Z.shiftl (swab32 x) 8)) (fun x => swab32 (Z.shiftr x 8))); [| |by vm_compute].
  - apply linear_u32; [lia|]. apply linear_shiftl; [lia|apply linear_swab32].
  - apply (linear_comp 32 32 (fun x => Z.shiftr x 8) swab32); [apply linear_shiftr; [lia|apply linear_id]|intros; by apply shiftr_word|apply linear_swab32].
Qed.
Lemma swab32_down x : word 32 x -> Z.shiftr (swab32 x) 8 = swab32 (u32 (Z.shiftl x 8)).
Proof.
  apply (linear_check 32 (fun x => Z.shiftr (swab32 x) 8) (fun x => swab32 (u32 (Z.shiftl x 8)))); [| |by vm_compute].
  - apply linear_shiftr; [lia|apply linear_swab32].
  - apply (linear_comp 32 32 (fun x => u32 (Z.shiftl x 8)) swab32); [apply linear_u32; [lia|apply linear_shiftl; [lia|apply linear_id]]|intros; apply u32_range|apply linear_swab32].
Qed.

Lemma tables_words : Forall (word 32) crc32init_le /\ Forall (word 32) crc32init_be /\ length crc32init_le = 256%nat /\ length crc32init_be = 256%nat.
Proof.
  assert (forall l, forallb (fun x => (0 <=? x) && (x <? 2 ^ 32)) l = true -> Forall (word 32) l) as H.
  { intros l Hl. apply Forall_forall. intros x Hx. rewrite forallb_forall in Hl. apply Hl in Hx || (apply list_elem_of_In in Hx; apply Hl in Hx). unfold word. lia. }
  split_and!; [apply H; by vm_compute..|by vm_compute|by vm_compute].
Qed.
Lemma table_entry tab i : Forall (word 32) tab -> length tab = 256%nat -> 0 <= i < 256 ->
  word 32 (tab !!! Z.to_nat i) /\ (swab32 <$> tab) !!! Z.to_nat i = swab32 (tab !!! Z.to_nat i).
Proof.
  intros Hw Hl Hi. destruct (lookup_lt_is_Some_2 tab (Z.to_nat i)) as [y Hy]; [lia|]. rewrite (list_lookup_total_correct _ _ _ Hy). split.
  - by eapply Forall_lookup_1 in Hw.
  - apply list_lookup_total_correct. by rewrite list_lookup_fmap, Hy.
Qed.
Lemma top_byte c : word 32 c -> 0 <= Z.shiftr c 24 < 256.
Proof. intros [H1 H2]. rewrite Z.shiftr_div_pow2 by lia. split; [apply Z.div_pos; lia|apply Z.div_lt_upper_bound; lia]. Qed.
(** The code on the machine of the other byte order works on swapped words. *)
Lemma DO_CRC_other_le tab c x : Forall (word 32) tab -> length tab = 256%nat -> word 32 c -> 0 <= x < 256 ->
  DO_CRC false (swab32 <$> tab) (swab32 c) x = swab32 (DO_CRC true tab c x).
Proof.
  intros Hw Hl Hc Hx. unfold DO_CRC. rewrite swab32_first, swab32_up by done. rewrite (land_lxor (Z.land c 255)), land_twice, <- land_lxor.
  pose proof (low_byte (Z.lxor c x)) as Hb. destruct (table_entry tab _ Hw Hl Hb) as [Hy ->]. symmetry. apply linear_swab32; [done|by apply shiftr_word].
Qed.
Lemma DO_CRC_other_be tab c x : Forall (word 32) tab -> length tab = 256%nat -> word 32 c -> 0 <= x < 256 ->
  DO_CRC true (swab32 <$> tab) (swab32 c) x = swab32 (DO_CRC false tab c x).
Proof.
  intros Hw Hl Hc Hx. unfold DO_CRC. rewrite swab32_down by done. 
  assert (Z.land (Z.lxor (swab32 c) x) 255 = Z.land (Z.lxor (Z.shiftr c 24) x) 255) as ->.
  { rewrite !land_lxor, swab32_last by done. by rewrite (land_byte (Z.shiftr c 24)) by by apply top_byte. }
  pose proof (low_byte (Z.lxor (Z.shiftr c 24) x)) as Hb. destruct (table_entry tab _ Hw Hl Hb) as [Hy ->]. symmetry. apply linear_swab32; [done|apply u32_range].
Qed.

(** ** Four bytes at a time *)
Section Four.
(** [B] takes in a byte at its place [e0]; [e1], [e2] and [e3] are the places
    of the bytes that follow it in a word. *)
Context (B e0 e1 e2 e3 : Z -> Z) (LB : linear 32 B) (HB : forall y, word 32 y -> word 32 (B y)).
Context (L0 : linear 8 e0) (L1 : linear 8 e1) (L2 : linear 8 e2) (L3 : linear 8 e3).
Context (H0 : forall x, word 8 x -> word 32 (e0 x)) (H1 : forall x, word 8 x -> word 32 (e1 x)) (H2 : forall x, word 8 x -> word 32 (e2 x)) (H3 : forall x, word 8 x -> word 32 (e3 x)).
Context (C1 : same_bits 8 (fun x => B (e1 x)) e0 = true) (C2 : same_bits 8 (fun x => B (e2 x)) e1 = true) (C3 : same_bits 8 (fun x => B (e3 x)) e2 = true).

Lemma next_place x : word 8 x -> B (e1 x) = e0 x /\ B (e2 x) = e1 x /\ B (e3 x) = e2 x.
Proof.
  intros Hx. split_and!.
  - eapply (linear_check 8 (fun x => B (e1 x)) e0); [|done..]. by apply (linear_comp 8 32).
  - eapply (linear_check 8 (fun x => B (e2 x)) e1); [|done..]. by apply (linear_comp 8 32).
  - eapply (linear_check 8 (fun x => B (e3 x)) e2); [|done..]. by apply (linear_comp 8 32).
Qed.
Lemma four_bytes c x0 x1 x2 x3 : word 32 c -> word 8 x0 -> word 8 x1 -> word 8 x2 -> word 8 x3 ->
  Nat.iter 4 B (Z.lxor c (Z.lxor (e0 x0) (Z.lxor (e1 x1) (Z.lxor (e2 x2) (e3 x3))))) = foldl (fun c x => B (Z.lxor c (e0 x))) c [x0; x1; x2; x3].
Proof.
  cbn [Nat.iter nat_rect foldl]. intros Hc Hx0 Hx1 Hx2 Hx3. destruct (next_place x1 Hx1) as (E11 & E12 & E13). destruct (next_place x2 Hx2) as (E21 & E22 & E23). destruct (next_place x3 Hx3) as (E31 & E32 & E33).
  assert (forall a b, word 32 a -> word 32 b -> word 32 (Z.lxor a b)) as Hxw by (intros; by apply lxor_word).
  assert (forall a b, word 32 a -> word 32 b -> B (Z.lxor a b) = Z.lxor (B a) (B b)) as L by apply LB.
  rewrite <- (Z.lxor_assoc c), (L (Z.lxor c (e0 x0))), (L (e1 x1)), (L (e2 x2)), E11, E22, E33 by eauto 8.
  rewrite <- (Z.lxor_assoc (B (Z.lxor c (e0 x0)))), (L (Z.lxor (B _) (e0 x1))), (L (e1 x2)), E21, E32 by eauto 9.
  rewrite <- (Z.lxor_assoc (B (Z.lxor (B _) (e0 x1)))), (L (Z.lxor (B (Z.lxor (B _) _)) (e0 x2))), E31 by eauto 10.
  done.
Qed.
End Four.

Definition word_le (x0 x1 x2 x3 : Z) : Z := Z.lxor x0 (Z.lxor (Z.shiftl x1 8) (Z.lxor (Z.shiftl x2 16) (Z.shiftl x3 24))).
Definition word_be (x0 x1 x2 x3 : Z) : Z := Z.lxor (Z.shiftl x0 24) (Z.lxor (Z.shiftl x1 16) (Z.lxor (Z.shiftl x2 8) x3)).
Lemma shift_byte_word x k : word 8 x -> 0 <= k <= 24 -> word 32 (Z.shiftl x k).
Proof.
  intros [H1 H2] Hk. rewrite Z.shiftl_mul_pow2 by lia. assert (0 < 2 ^ k) by (apply Z.pow_pos_nonneg; lia). assert (2 ^ k <= 2 ^ 24) by (apply Z.pow_le_mono_r; lia).
  split; nia.
Qed.
Lemma word_8_32 x : word 8 x -> word 32 x.
Proof. intros [H1 H2]. split; lia. Qed.

Lemma linear_byte k : 0 <= k -> linear 8 (fun x => Z.shiftl x k).
Proof. intros. apply linear_shiftl; [done|apply linear_id]. Qed.
Lemma le_four c x0 x1 x2 x3 : word 32 c -> word 8 x0 -> word 8 x1 -> word 8 x2 -> word 8 x3 ->
  Nat.iter 4 (Nat.iter 8 (le_step CRCPOLY_LE)) (Z.lxor c (word_le x0 x1 x2 x3)) = foldl (le_byte CRCPOLY_LE) c [x0; x1; x2; x3].
Proof.
  assert (forall y, word 32 y -> word 32 (le_step CRCPOLY_LE y)) as Hw by (intros; by apply le_step_word).
  intros. apply (four_bytes (Nat.iter 8 (le_step CRCPOLY_LE)) (fun x => x) (fun x => Z.shiftl x 8) (fun x => Z.shiftl x 16) (fun x => Z.shiftl x 24));
    [..|vm_compute; reflexivity|vm_compute; reflexivity|vm_compute; reflexivity|assumption|assumption|assumption|assumption|assumption].
  all: try (intros; by apply shift_byte_word).
  - apply linear_iter; [apply linear_le_step|done].
  - intros. by apply iter_word.
  - apply linear_id.
  - by apply linear_byte.
  - by apply linear_byte.
  - by apply linear_byte.
  - apply word_8_32.
Qed.
Lemma be_four c x0 x1 x2 x3 : word 32 c -> word 8 x0 -> word 8 x1 -> word 8 x2 -> word 8 x3 ->
  Nat.iter 4 (Nat.iter 8 (be_step CRCPOLY_BE)) (Z.lxor c (word_be x0 x1 x2 x3)) = foldl (be_byte CRCPOLY_BE) c [x0; x1; x2; x3].
Proof.
  assert (forall y, word 32 y -> word 32 (be_step CRCPOLY_BE y)) as Hw by (intros; by apply be_step_word).
  intros. apply (four_bytes (Nat.iter 8 (be_step CRCPOLY_BE)) (fun x => Z.shiftl x 24) (fun x => Z.shiftl x 16) (fun x => Z.shiftl x 8) (fun x => x));
    [..|vm_compute; reflexivity|vm_compute; reflexivity|vm_compute; reflexivity|assumption|assumption|assumption|assumption|assumption].
  all: try (intros; by apply shift_byte_word).
  - apply linear_iter; [by apply linear_be_step|done].
  - intros. by apply iter_word.
  - by apply linear_byte.
  - by apply linear_byte.
  - by apply linear_byte.
  - apply linear_id.
  - apply word_8_32.
Qed.

(** ** Words in memory *)
Lemma add_shift a b k : 0 <= k -> word k a -> a + Z.shiftl b k = Z.lxor a (Z.shiftl b k).
Proof.
  intros Hk [H1 H2]. apply Z.add_nocarry_lxor. apply Z.bits_inj'. intros j Hj. rewrite Z.land_spec, Z.bits_0.
  destruct (decide (j < k)); [rewrite Z.shiftl_spec_low by lia; apply andb_false_r|].
  rewrite <- (Z.mod_small a (2 ^ k)) by lia. by rewrite Z.mod_pow2_bits_high by lia.
Qed.
Lemma word_sum x0 x1 x2 x3 : word 8 x0 -> word 8 x1 -> word 8 x2 -> word 8 x3 ->
  x0 + Z.shiftl x1 8 + Z.shiftl x2 16 + Z.shiftl x3 24 = word_le x0 x1 x2 x3.
Proof.
  intros [? ?] [? ?] [? ?] [? ?]. unfold word_le. rewrite (add_shift _ x3 24), (add_shift _ x2 16), (add_shift x0 x1 8) by (lia || (rewrite ?Z.shiftl_mul_pow2 by lia; split; lia)).
  by rewrite !Z.lxor_assoc.
Qed.
Lemma word_le_be x0 x1 x2 x3 : word_le x3 x2 x1 x0 = word_be x0 x1 x2 x3.
Proof. unfold word_le, word_be. apply Z.bits_inj'. intros k _. rewrite !Z.lxor_spec. by destruct (Z.testbit x3 k), (Z.testbit (Z.shiftl x2 8) k), (Z.testbit (Z.shiftl x1 16) k), (Z.testbit (Z.shiftl x0 24) k). Qed.
Lemma word_le_word x0 x1 x2 x3 : word 8 x0 -> word 8 x1 -> word 8 x2 -> word 8 x3 -> word 32 (word_le x0 x1 x2 x3).
Proof. intros. repeat apply lxor_word; try lia; try (by apply shift_byte_word). by apply word_8_32. Qed.
Lemma swab32_places x : word 8 x -> swab32 x = Z.shiftl x 24 /\ swab32 (Z.shiftl x 8) = Z.shiftl x 16 /\ swab32 (Z.shiftl x 16) = Z.shiftl x 8 /\ swab32 (Z.shiftl x 24) = x.
Proof.
  intros Hx. pose proof linear_swab32 as L. assert (forall k, 0 <= k <= 24 -> linear 8 (fun x => swab32 (Z.shiftl x k))) as Hk.
  { intros k Hk. apply (linear_comp 8 32 (fun x => Z.shiftl x k) swab32); [apply linear_byte; lia|intros; by apply shift_byte_word|done]. }
  split_and!.
  - apply (linear_check 8 swab32 (fun x => Z.shiftl x 24)); [|by apply linear_byte|by vm_compute|done].
    apply (linear_comp 8 32 (fun x => x) swab32); [apply linear_id|apply word_8_32|done].
  - by apply (linear_check 8 (fun x => swab32 (Z.shiftl x 8)) (fun x => Z.shiftl x 16)); [by apply Hk|by apply linear_byte|vm_compute|].
  - by apply (linear_check 8 (fun x => swab32 (Z.shiftl x 16)) (fun x => Z.shiftl x 8)); [by apply Hk|by apply linear_byte|vm_compute|].
  - by apply (linear_check 8 (fun x => swab32 (Z.shiftl x 24)) (fun x => x)); [by apply Hk|by apply linear_id|vm_compute|].
Qed.
Lemma swab32_word_le x0 x1 x2 x3 : word 8 x0 -> word 8 x1 -> word 8 x2 -> word 8 x3 -> swab32 (word_le x0 x1 x2 x3) = word_be x0 x1 x2 x3.
Proof.
  intros H0 H1 H2 H3. destruct (swab32_places x0 H0) as (E0 & _), (swab32_places x1 H1) as (_ & E1 & _), (swab32_places x2 H2) as (_ & _ & E2 & _), (swab32_places x3 H3) as (_ & _ & _ & E3).
  pose proof (word_8_32 _ H0). assert (forall x k, word 8 x -> 0 <= k <= 24 -> word 32 (Z.shiftl x k)) as Hs by apply shift_byte_word.
  assert (forall a b, word 32 a -> word 32 b -> word 32 (Z.lxor a b)) as Hxw by (intros; by apply lxor_word).
  assert (forall a b, word 32 a -> word 32 b -> swab32 (Z.lxor a b) = Z.lxor (swab32 a) (swab32 b)) as L by apply linear_swab32.
  unfold word_le, word_be. rewrite !L, E0, E1, E2, E3 by (repeat apply Hxw; done || (apply Hs; [done|lia])). done.
Qed.

(** The bytes [l] lie at [p]. *)
Fixpoint holds (m : mem) (p : Z) (l : list Z) : Prop :=
  match l with
  | [] => True
  | x :: l => m !! p = Some x /\ word 8 x /\ holds m (u32 (p + 1)) l
  end.
Lemma holds_prefix m l1 l2 p : holds m p (l1 ++ l2) -> holds m p l1.
Proof. revert p. induction l1 as [|x l1 IH]; intros p; [done|]. intros (? & ? & ?). split_and!; [done..|by apply IH]. Qed.
Lemma byte_at_run (m : mem) p x : m !! p = Some x -> byte_at p m = Some (x, m).
Proof. intros E. unfold byte_at, bind, gets, deref. by rewrite E. Qed.
Lemma byte_loop_run F m l c p : holds m p l -> byte_loop F (length l) c p m = Some (foldl F c l, m).
Proof.
  revert c p. induction l as [|x l IH]; intros c p; [done|]. intros (E & _ & H). cbn [byte_loop length foldl]. rewrite (bind_run _ _ _ _ _ (byte_at_run m p x E)). by apply IH.
Qed.
Definition aligned (b : Z) : Prop := truth (Z.land b 3) = false.
Lemma aligned_next b : aligned b -> aligned (u32 (b + 4)).
Proof.
  unfold aligned, truth. change 3 with (Z.ones 2). rewrite !Z.land_ones by lia. unfold u32. change (2 ^ 2) with 4. change (2 ^ 32) with (4 * 2 ^ 30).
  intros H. apply negb_false_iff, Z.eqb_eq in H. apply negb_false_iff, Z.eqb_eq. rewrite Z.mod_mod_divide by (exists (2 ^ 30); lia).
  replace (b + 4) with (b + 1 * 4) by lia. by rewrite Z.mod_add by lia.
Qed.

(** ** The code that reads words *)
Section Engine.
(** [sigma] is the conversion of byte order, [F] takes in a byte, [B] is [F] of
    a zero byte and [W] the word whose bytes [F] takes in one after the other. *)
Context (little : bool) (tab : list Z) (sigma : Z -> Z) (F : Z -> Z -> Z) (B : Z -> Z) (W : Z -> Z -> Z -> Z -> Z).
Context (Hs : linear 32 sigma) (HB : forall c, word 32 c -> word 32 (B c)) (HF : forall c x, word 32 c -> word 8 x -> word 32 (F c x)).
Context (F0 : forall c, F c 0 = B c).
Context (Hbyte : forall c x, word 32 c -> word 8 x -> DO_CRC little tab (sigma c) x = sigma (F c x)).
Context (HW : forall x0 x1 x2 x3, word 8 x0 -> word 8 x1 -> word 8 x2 -> word 8 x3 -> word 32 (W x0 x1 x2 x3)).
Context (Hload : forall x0 x1 x2 x3, word 8 x0 -> word 8 x1 -> word 8 x2 -> word 8 x3 -> (if little then word_le x0 x1 x2 x3 else word_le x3 x2 x1 x0) = sigma (W x0 x1 x2 x3)).
Context (Hfour : forall c x0 x1 x2 x3, word 32 c -> word 8 x0 -> word 8 x1 -> word 8 x2 -> word 8 x3 -> Nat.iter 4 B (Z.lxor c (W x0 x1 x2 x3)) = foldl F c [x0; x1; x2; x3]).

Lemma fold_word l c m p : word 32 c -> holds m p l -> word 32 (foldl F c l).
Proof. revert c p. induction l as [|x l IH]; intros c p Hc; [done|]. intros (_ & Hx & H). apply (IH _ (u32 (p + 1))); [by apply HF|done]. Qed.
Lemma bytes_run m l c p : word 32 c -> holds m p l -> byte_loop (DO_CRC little tab) (length l) (sigma c) p m = Some (sigma (foldl F c l), m).
Proof.
  intros Hc Hl. rewrite (byte_loop_run _ _ _ _ _ Hl). do 2 f_equal. revert c p Hc Hl. induction l as [|x l IH]; intros c p Hc; [done|].
  intros (_ & Hx & H). cbn [foldl]. rewrite Hbyte by done. apply (IH _ (u32 (p + 1))); [by apply HF|done].
Qed.
Lemma align_run m l c p : word 32 c -> holds m p l -> l <> [] -> exists l1 l2 q,
  l = l1 ++ l2 /\ align_loop little tab (length l) (sigma c) p m = Some ((sigma (foldl F c l1), q, length l2), m) /\ holds m q l2 /\ (l2 = [] \/ aligned q).
Proof.
  revert c p. induction l as [|x l IH]; intros c p Hc; [done|]. intros (E & Hx & H) _. cbn [align_loop length].
  rewrite (bind_run _ _ _ _ _ (byte_at_run m p x E)), Hbyte by done.
  destruct (bool_decide _ && truth _) eqn:Eg.
  - apply andb_true_iff in Eg as [Eg _]. apply bool_decide_eq_true in Eg. destruct (IH (F c x) (u32 (p + 1))) as (l1 & l2 & q & -> & R & Hq & Ha); [by apply HF|done|by intros ->|].
    exists (x :: l1), l2, q. by split_and!.
  - exists [x], l, (u32 (p + 1)). split_and!; try done. apply andb_false_iff in Eg as [Eg|Eg]; [|by right]. left. apply bool_decide_eq_false in Eg. destruct l; [done|]. by destruct Eg.
Qed.
Lemma word_run m b x0 x1 x2 x3 l : aligned b -> holds m b (x0 :: x1 :: x2 :: x3 :: l) ->
  word_at little b m = Some (sigma (W x0 x1 x2 x3), m) /\ holds m (u32 (b + 4)) l.
Proof.
  intros Ha (E0 & H0 & E1 & H1 & E2 & H2 & E3 & H3 & Hl).
  assert (forall i j, u32 (u32 (b + i) + j) = u32 (b + (i + j))) as Eu by (intros; unfold u32; rewrite Zplus_mod_idemp_l; f_equal; lia).
  rewrite !Eu in *. change (1 + 1) with 2 in *. change (1 + 2) with 3 in *. cbn in Eu. split.
  - unfold word_at. rewrite Ha. cbn [when]. rewrite (bind_run _ _ _ tt m eq_refl). rewrite (bind_run _ _ _ _ _ (byte_at_run m b x0 E0)).
    rewrite (bind_run _ _ _ _ _ (byte_at_run m _ x1 E1)), (bind_run _ _ _ _ _ (byte_at_run m _ x2 E2)), (bind_run _ _ _ _ _ (byte_at_run m _ x3 E3)).
    rewrite <- Hload by done. by destruct little; cbn; rewrite word_sum.
  - exact Hl.
Qed.
Lemma zero_bytes d : word 32 d -> DO_CRC little tab (DO_CRC little tab (DO_CRC little tab (DO_CRC little tab (sigma d) 0) 0) 0) 0 = sigma (Nat.iter 4 B d).
Proof. intros. assert (word 8 0) by done. rewrite !Hbyte, !F0 by (rewrite ?F0; auto). done. Qed.
Lemma words_run m n l c b : word 32 c -> aligned b -> holds m b l -> (4 * n <= length l)%nat -> exists q,
  word_loop little tab n (sigma c) b m = Some ((sigma (foldl F c (take (4 * n) l)), q), m) /\ holds m q (drop (4 * n) l).
Proof.
  revert c b l. induction n as [|n IH]; intros c b l Hc Ha Hl Hn; [by exists b|].
  destruct l as [|x0 [|x1 [|x2 [|x3 l]]]]; try (cbn in Hn; lia). destruct (word_run m b x0 x1 x2 x3 l Ha Hl) as [R Hl']. pose proof Hl as (_ & H0 & _ & H1 & _ & H2 & _ & H3 & _).
  replace (4 * S n)%nat with (4 + 4 * n)%nat by lia. cbn [word_loop]. rewrite (bind_run _ _ _ _ _ R). cbv zeta.
  destruct Hs as [Hx]. rewrite <- Hx by auto. rewrite zero_bytes by (apply lxor_word; auto; lia). rewrite Hfour by done.
  apply IH; [by eauto 8|by apply aligned_next|done|cbn in Hn; lia].
Qed.
Lemma crc_table_run m l c p : word 32 c -> holds m p l -> crc_table little tab (sigma c) p (Z.of_nat (length l)) m = Some (sigma (foldl F c l), m).
Proof.
  intros Hc Hl. unfold crc_table. rewrite Nat2Z.id.
  assert (exists l1 l2 q, l = l1 ++ l2 /\ (if truth (Z.land p 3) && truth (Z.of_nat (length l)) then align_loop little tab (length l) (sigma c) p else ret (sigma c, p, length l)) m
    = Some ((sigma (foldl F c l1), q, length l2), m) /\ holds m q l2 /\ (l2 = [] \/ aligned q)) as (l1 & l2 & q & -> & R & Hq & Ha).
  { destruct (truth (Z.land p 3)) eqn:Ep; [|exists [], l, p; split_and!; try done; by right].
    destruct l as [|x l]; [exists [], [], p; split_and!; try done; by left|]. by apply align_run. }
  rewrite (bind_run _ _ _ _ _ R). rewrite foldl_app. clear R.
  assert (word 32 (foldl F c l1)) as Hc1 by (eapply fold_word; [done|by eapply holds_prefix]).
  destruct (bool_decide_reflect (4 <= length l2)%nat) as [H4|H4].
  - destruct Ha as [->|Ha]; [cbn in H4; lia|]. pose proof (Nat.div_mod (length l2) 4). destruct (words_run m (length l2 / 4) l2 _ q Hc1 Ha Hq) as (q' & R & Hq'); [lia|].
    rewrite (bind_run _ _ m (_, q', (length l2 mod 4)%nat) m) by by rewrite (bind_run _ _ _ _ _ R). cbn [fst snd].
    replace (length l2 mod 4)%nat with (length (drop (4 * (length l2 / 4)) l2)) by (rewrite length_drop; lia).
    rewrite bytes_run; [by rewrite <- foldl_app, take_drop| |done]. eapply fold_word; [done|].
    eapply holds_prefix. by rewrite take_drop.
  - rewrite (bind_run _ _ m (_, q, length l2) m eq_refl). by apply bytes_run.
Qed.
End Engine.

Lemma le_byte_word poly c x : word 32 poly -> word 32 c -> word 8 x -> word 32 (le_byte poly c x).
Proof. intros Hp Hc Hx. apply iter_word; [intros; by apply le_step_word|]. apply lxor_word; [lia|done|by apply word_8_32]. Qed.
Lemma be_byte_word poly c x : word 32 poly -> word 32 c -> word 8 x -> word 32 (be_byte poly c x).
Proof. intros Hp Hc Hx. apply iter_word; [intros; by apply be_step_word|]. apply lxor_word; [lia|done|by apply shift_byte_word]. Qed.
Lemma le_byte_zero poly c : le_byte poly c 0 = Nat.iter 8 (le_step poly) c.
Proof. unfold le_byte. by rewrite Z.lxor_0_r. Qed.
Lemma be_byte_zero poly c : be_byte poly c 0 = Nat.iter 8 (be_step poly) c.
Proof. unfold be_byte. by rewrite Z.shiftl_0_l, Z.lxor_0_r. Qed.
Lemma word_be_word x0 x1 x2 x3 : word 8 x0 -> word 8 x1 -> word 8 x2 -> word 8 x3 -> word 32 (word_be x0 x1 x2 x3).
Proof. intros. rewrite <- word_le_be. by apply word_le_word. Qed.
Lemma swab32_word_be x0 x1 x2 x3 : word 8 x0 -> word 8 x1 -> word 8 x2 -> word 8 x3 -> swab32 (word_be x0 x1 x2 x3) = word_le x0 x1 x2 x3.
Proof. intros. rewrite <- swab32_word_le, swab32_twice by (try apply word_le_word; done). done. Qed.

Lemma poly_words : word 32 CRCPOLY_LE /\ word 32 CRCPOLY_BE /\ word 32 CRC32C_POLY_LE /\ word 32 CRC32C_POLY_BE.
Proof. unfold word, CRCPOLY_LE, CRCPOLY_BE, CRC32C_POLY_LE, CRC32C_POLY_BE. lia. Qed.
Lemma crc32_le_run little m l c p : word 32 c -> holds m p l -> crc32_le little c p (Z.of_nat (length l)) m = Some (foldl (le_byte CRCPOLY_LE) c l, m).
Proof.
  intros Hc Hl. destruct tables_words as (Hw & _ & Hn & _). destruct poly_words as (Hp & _).
  assert (forall c x, word 32 c -> word 8 x -> word 32 (le_byte CRCPOLY_LE c x)) as HF by (intros; by apply le_byte_word).
  assert (forall c, word 32 c -> word 32 (Nat.iter 8 (le_step CRCPOLY_LE) c)) as HB by (intros; rewrite <- le_byte_zero; apply HF; [assumption|split; lia]).
  assert (word 32 (foldl (le_byte CRCPOLY_LE) c l)) as Hr by (eapply fold_word; eassumption).
  unfold crc32_le, crc32table_le, cpu_to_le32. destruct little.
  - change ((fun x => x) <$> crc32init_le) with (id <$> crc32init_le). rewrite list_fmap_id.
    rewrite (bind_run _ _ m (foldl (le_byte CRCPOLY_LE) c l) m); [done|].
    apply (crc_table_run true crc32init_le (fun x => x) (le_byte CRCPOLY_LE) (Nat.iter 8 (le_step CRCPOLY_LE)) word_le); try assumption.
    + apply linear_id.
    + apply le_byte_zero.
    + intros. symmetry. by apply crc32_le_table.
    + apply word_le_word.
    + intros. reflexivity.
    + apply le_four.
  - rewrite (bind_run _ _ m (swab32 (foldl (le_byte CRCPOLY_LE) c l)) m); [unfold ret; by rewrite swab32_twice|].
    apply (crc_table_run false (swab32 <$> crc32init_le) swab32 (le_byte CRCPOLY_LE) (Nat.iter 8 (le_step CRCPOLY_LE)) word_le); try assumption.
    + apply linear_swab32.
    + apply le_byte_zero.
    + intros. rewrite DO_CRC_other_le by done. by rewrite crc32_le_table.
    + apply word_le_word.
    + intros. by rewrite word_le_be, swab32_word_le.
    + apply le_four.
Qed.
Lemma crc32_be_run little m l c p : word 32 c -> holds m p l -> crc32_be little c p (Z.of_nat (length l)) m = Some (foldl (be_byte CRCPOLY_BE) c l, m).
Proof.
  intros Hc Hl. destruct tables_words as (_ & Hw & _ & Hn). destruct poly_words as (_ & Hp & _).
  assert (forall c x, word 32 c -> word 8 x -> word 32 (be_byte CRCPOLY_BE c x)) as HF by (intros; by apply be_byte_word).
  assert (forall c, word 32 c -> word 32 (Nat.iter 8 (be_step CRCPOLY_BE) c)) as HB by (intros; rewrite <- be_byte_zero; apply HF; [assumption|split; lia]).
  assert (word 32 (foldl (be_byte CRCPOLY_BE) c l)) as Hr by (eapply fold_word; eassumption).
  unfold crc32_be, crc32table_be, cpu_to_be32. destruct little.
  - rewrite (bind_run _ _ m (swab32 (foldl (be_byte CRCPOLY_BE) c l)) m); [unfold ret; by rewrite swab32_twice|].
    apply (crc_table_run true (swab32 <$> crc32init_be) swab32 (be_byte CRCPOLY_BE) (Nat.iter 8 (be_step CRCPOLY_BE)) word_be); try assumption.
    + apply linear_swab32.
    + apply be_byte_zero.
    + intros. rewrite DO_CRC_other_be by done. by rewrite crc32_be_table.
    + apply word_be_word.
    + intros. by rewrite swab32_word_be.
    + apply be_four.
  - change ((fun x => x) <$> crc32init_be) with (id <$> crc32init_be). rewrite list_fmap_id.
    rewrite (bind_run _ _ m (foldl (be_byte CRCPOLY_BE) c l) m); [done|].
    apply (crc_table_run false crc32init_be (fun x => x) (be_byte CRCPOLY_BE) (Nat.iter 8 (be_step CRCPOLY_BE)) word_be); try assumption.
    + apply linear_id.
    + apply be_byte_zero.
    + intros. symmetry. by apply crc32_be_table.
    + apply word_be_word.
    + intros. by rewrite word_le_be.
    + apply be_four.
Qed.

(** ** The other checks *)
Lemma fold_same w F G l c m p : (forall c x, word w c -> word 8 x -> word w (F c x) /\ F c x = G c x) -> word w c -> holds m p l -> foldl G c l = foldl F c l.
Proof.
  intros H. revert c p. induction l as [|x l IH]; intros c p Hc; [done|]. intros (_ & Hx & Hl). destruct (H c x Hc Hx) as [Hw E]. cbn [foldl]. rewrite <- E. by apply (IH _ (u32 (p + 1))).
Qed.
Lemma crc32c_le_run m l c p : word 32 c -> holds m p l -> crc32c_le true c p (Z.of_nat (length l)) m = Some (foldl (le_byte CRC32C_POLY_LE) c l, m).
Proof.
  intros Hc Hl. unfold crc32c_le, cpu_to_le32. rewrite Nat2Z.id, (bind_run _ _ _ _ _ (byte_loop_run _ _ _ _ _ Hl)). unfold ret.
  rewrite (fold_same 32 (le_byte CRC32C_POLY_LE) crc32c_byte l c m p); try done. intros d x Hd Hx. split; [apply le_byte_word; [apply poly_words|assumption..]|by apply crc32c_table_byte].
Qed.
Lemma crc_ccitt_run m l c p : word 16 c -> holds m p l -> crc_ccitt c p (Z.of_nat (length l)) m = Some (foldl (le_byte CRC_CCITT_POLY) c l, m).
Proof.
  intros Hc Hl. unfold crc_ccitt. rewrite Nat2Z.id, (byte_loop_run _ _ _ _ _ Hl).
  rewrite (fold_same 16 (le_byte CRC_CCITT_POLY) crc_ccitt_byte l c m p); try done. intros d x Hd Hx. split; [|by apply crc_ccitt_table_byte].
  apply iter_word; [intros; by apply le_step_word|]. apply lxor_word; [lia|done|]. destruct Hx. split; lia.
Qed.

(** ** A step loses nothing *)
Lemma step_inverse f g : linear 32 f -> linear 32 g -> (forall x, word 32 x -> word 32 (f x)) -> same_bits 32 (fun x => g (f x)) (fun x => x) = true ->
  forall x y, word 32 x -> word 32 y -> f x = f y -> x = y.
Proof.
  intros Lf Lg Hf E x y Hx Hy Exy. rewrite <- (linear_check 32 (fun x => g (f x)) (fun x => x) x), <- (linear_check 32 (fun x => g (f x)) (fun x => x) y), Exy; try done.
  all: try apply linear_id; by apply (linear_comp 32 32 f g).
Qed.
Lemma iter_inj f n : (forall x, word 32 x -> word 32 (f x)) -> (forall x y, word 32 x -> word 32 y -> f x = f y -> x = y) ->
  forall x y, word 32 x -> word 32 y -> Nat.iter n f x = Nat.iter n f y -> x = y.
Proof. intros Hw Hi x y Hx Hy. induction n as [|n IH]; [done|]. intros E. apply IH, Hi; [by apply iter_word..|done]. Qed.
Lemma le_step_inj x y : word 32 x -> word 32 y -> le_step CRCPOLY_LE x = le_step CRCPOLY_LE y -> x = y.
Proof.
  apply (step_inverse _ (be_step (Z.lxor (u32 (Z.shiftl CRCPOLY_LE 1)) 1))); [apply linear_le_step|by apply linear_be_step| |by vm_compute].
  intros z Hz. apply le_step_word; [lia|apply poly_words|done].
Qed.
Lemma be_step_inj x y : word 32 x -> word 32 y -> be_step CRCPOLY_BE x = be_step CRCPOLY_BE y -> x = y.
Proof.
  apply (step_inverse _ (le_step (Z.lxor (Z.shiftr CRCPOLY_BE 1) 0x80000000))); [by apply linear_be_step|apply linear_le_step| |by vm_compute].
  intros z Hz. apply be_step_word; [apply poly_words|done].
Qed.
Lemma lxor_inj a b x : Z.lxor a x = Z.lxor b x -> a = b.
Proof. intros E. apply (f_equal (fun z => Z.lxor z x)) in E. by rewrite !Z.lxor_assoc, !Z.lxor_nilpotent, !Z.lxor_0_r in E. Qed.
Lemma word_le_inj x0 x1 x2 x3 y0 y1 y2 y3 : Forall (word 8) [x0; x1; x2; x3] -> Forall (word 8) [y0; y1; y2; y3] ->
  word_le x0 x1 x2 x3 = word_le y0 y1 y2 y3 -> [x0; x1; x2; x3] = [y0; y1; y2; y3].
Proof.
  rewrite !Forall_cons. intros ([? ?] & [? ?] & [? ?] & [? ?] & _) ([? ?] & [? ?] & [? ?] & [? ?] & _). rewrite <- !word_sum by by split. rewrite !Z.shiftl_mul_pow2 by lia. intros E.
  assert (x3 = y3 /\ x2 = y2 /\ x1 = y1 /\ x0 = y0) as (-> & -> & -> & ->) by lia. done.
Qed.

(** ** Frames with a check at the end *)
Definition trailer_le (c : Z) : list Z := [Z.land c 255; Z.land (Z.shiftr c 8) 255; Z.land (Z.shiftr c 16) 255; Z.shiftr c 24].
Definition trailer_be (c : Z) : list Z := [Z.shiftr c 24; Z.land (Z.shiftr c 16) 255; Z.land (Z.shiftr c 8) 255; Z.land c 255].
Lemma trailer_word c : word 32 c -> word_le (Z.land c 255) (Z.land (Z.shiftr c 8) 255) (Z.land (Z.shiftr c 16) 255) (Z.shiftr c 24) = c.
Proof.
  apply (linear_check 32 (fun c => word_le (Z.land c 255) (Z.land (Z.shiftr c 8) 255) (Z.land (Z.shiftr c 16) 255) (Z.shiftr c 24)) (fun c => c)); [|apply linear_id|by vm_compute].
  unfold word_le. pose proof (linear_id 32). repeat apply linear_xor; try apply linear_shiftl; try lia; try apply linear_land; try apply linear_shiftr; try lia; done.
Qed.
Lemma trailer_bytes c : word 32 c -> Forall (word 8) (trailer_le c) /\ Forall (word 8) (trailer_be c).
Proof.
  intros Hc. pose proof (low_byte c). pose proof (low_byte (Z.shiftr c 8)). pose proof (low_byte (Z.shiftr c 16)). pose proof (top_byte c Hc). split; repeat constructor; lia.
Qed.

Section Frame.
Context (F : Z -> Z -> Z) (B : Z -> Z) (W : Z -> Z -> Z -> Z -> Z) (HF : forall c x, word 32 c -> word 8 x -> word 32 (F c x)).
Context (HB : forall c, word 32 c -> word 32 (B c)) (Binj : forall c d, word 32 c -> word 32 d -> B c = B d -> c = d).
Context (e : Z -> Z) (He : forall x, word 8 x -> word 32 (e x)) (HFB : forall c x, F c x = B (Z.lxor c (e x))).
Context (HW : forall x0 x1 x2 x3, word 8 x0 -> word 8 x1 -> word 8 x2 -> word 8 x3 -> word 32 (W x0 x1 x2 x3)).
Context (Winj : forall x0 x1 x2 x3 y0 y1 y2 y3, Forall (word 8) [x0; x1; x2; x3] -> Forall (word 8) [y0; y1; y2; y3] -> W x0 x1 x2 x3 = W y0 y1 y2 y3 -> [x0; x1; x2; x3] = [y0; y1; y2; y3]).
Context (Hfour : forall c x0 x1 x2 x3, word 32 c -> word 8 x0 -> word 8 x1 -> word 8 x2 -> word 8 x3 -> Nat.iter 4 B (Z.lxor c (W x0 x1 x2 x3)) = foldl F c [x0; x1; x2; x3]).

Lemma fold_words l c : word 32 c -> Forall (word 8) l -> word 32 (foldl F c l).
Proof. intros Hc Hl. revert c Hc. induction Hl; intros c Hc; [done|]. cbn. auto. Qed.
Lemma fold_inj l c d : Forall (word 8) l -> word 32 c -> word 32 d -> foldl F c l = foldl F d l -> c = d.
Proof.
  intros Hl. revert c d. induction Hl as [|x l Hx Hl IH]; intros c d Hc Hd; [done|]. cbn. intros E. apply IH in E; [|by apply HF..].
  rewrite !HFB in E. apply Binj in E; [by eapply lxor_inj|by apply lxor_word; auto..].
Qed.
Lemma four_inj c x y : word 32 c -> Forall (word 8) x -> Forall (word 8) y -> length x = 4%nat -> length y = 4%nat -> foldl F c x = foldl F c y -> x = y.
Proof.
  intros Hc Hx Hy Lx Ly. destruct x as [|x0 [|x1 [|x2 [|x3 [|]]]]]; try done. destruct y as [|y0 [|y1 [|y2 [|y3 [|]]]]]; try done.
  pose proof Hx as Hx'. pose proof Hy as Hy'. rewrite !Forall_cons in Hx', Hy'. destruct Hx' as (? & ? & ? & ? & _), Hy' as (? & ? & ? & ? & _).
  rewrite <- !Hfour by done. intros E. apply Winj; [done..|]. apply (iter_inj B 4 HB Binj) in E; [|by apply lxor_word; auto..].
  rewrite !(Z.lxor_comm c) in E. by eapply lxor_inj.
Qed.
Lemma burst_inj c x y : word 32 c -> Forall (word 8) x -> Forall (word 8) y -> length y = length x -> (length x <= 4)%nat -> foldl F c x = foldl F c y -> x = y.
Proof.
  intros Hc Hx Hy Ly Lx E. set (z := replicate (4 - length x) 0). assert (Forall (word 8) z) as Hz by by apply Forall_replicate.
  assert (x ++ z = y ++ z) as Eq; [|by apply app_inv_tail in Eq].
  apply (four_inj c); [done|by apply Forall_app..| | |by rewrite !foldl_app, E]; unfold z; rewrite length_app, length_replicate; lia.
Qed.
Lemma frame_rejected c a x y b : word 32 c -> Forall (word 8) (a ++ x ++ b) -> Forall (word 8) y -> length y = length x -> (length x <= 4)%nat -> x <> y ->
  foldl F c (a ++ x ++ b) <> foldl F c (a ++ y ++ b).
Proof.
  rewrite !Forall_app. intros Hc (Ha & Hx & Hb) Hy Ly Lx Hne E. rewrite !foldl_app in E. pose proof (fold_words a c Hc Ha).
  apply fold_inj in E; [|done|by apply fold_words..]. by apply burst_inj in E.
Qed.
Lemma frame_accepted c l x0 x1 x2 x3 : B 0 = 0 -> word 32 c -> Forall (word 8) l -> Forall (word 8) [x0; x1; x2; x3] -> W x0 x1 x2 x3 = foldl F c l -> foldl F c (l ++ [x0; x1; x2; x3]) = 0.
Proof.
  rewrite !Forall_cons. intros B0 Hc Hl (? & ? & ? & ? & _) E. rewrite foldl_app, <- Hfour by (try apply fold_words; done). rewrite E, Z.lxor_nilpotent. cbn. by rewrite !B0.
Qed.
End Frame.

Lemma holds_bytes m p l : holds m p l -> Forall (word 8) l.
Proof. revert p. induction l as [|x l IH]; intros p; [constructor|]. intros (_ & Hx & Hl). constructor; [done|by eapply IH]. Qed.
Lemma le_frame c l a x y b : word 32 c -> Forall (word 8) l ->
  foldl (le_byte CRCPOLY_LE) c (l ++ trailer_le (foldl (le_byte CRCPOLY_LE) c l)) = 0 /\
  (Forall (word 8) (a ++ x ++ b) -> Forall (word 8) y -> length y = length x -> (length x <= 4)%nat -> x <> y ->
   foldl (le_byte CRCPOLY_LE) c (a ++ x ++ b) <> foldl (le_byte CRCPOLY_LE) c (a ++ y ++ b)).
Proof.
  intros Hc Hl. destruct poly_words as (Hp & _). assert (forall c x, word 32 c -> word 8 x -> word 32 (le_byte CRCPOLY_LE c x)) as HF by (intros; by apply le_byte_word).
  assert (forall x, word 32 x -> word 32 (le_step CRCPOLY_LE x)) as Hs by (intros; by apply le_step_word).
  assert (forall c, word 32 c -> word 32 (Nat.iter 8 (le_step CRCPOLY_LE) c)) as HB by (intros; by apply iter_word).
  assert (word 32 (foldl (le_byte CRCPOLY_LE) c l)) as Hr by by apply fold_words. split.
  - apply (frame_accepted _ (Nat.iter 8 (le_step CRCPOLY_LE)) word_le HF le_four); [by vm_compute|done|done|by apply trailer_bytes|by apply trailer_word].
  - intros. apply (frame_rejected _ (Nat.iter 8 (le_step CRCPOLY_LE)) word_le HF HB) with (e := fun x => x); try done; [|apply word_8_32|apply word_le_word|apply word_le_inj|apply le_four].
    apply iter_inj; [done|apply le_step_inj].
Qed.
Lemma be_frame c l a x y b : word 32 c -> Forall (word 8) l ->
  foldl (be_byte CRCPOLY_BE) c (l ++ trailer_be (foldl (be_byte CRCPOLY_BE) c l)) = 0 /\
  (Forall (word 8) (a ++ x ++ b) -> Forall (word 8) y -> length y = length x -> (length x <= 4)%nat -> x <> y ->
   foldl (be_byte CRCPOLY_BE) c (a ++ x ++ b) <> foldl (be_byte CRCPOLY_BE) c (a ++ y ++ b)).
Proof.
  intros Hc Hl. destruct poly_words as (_ & Hp & _). assert (forall c x, word 32 c -> word 8 x -> word 32 (be_byte CRCPOLY_BE c x)) as HF by (intros; by apply be_byte_word).
  assert (forall x, word 32 x -> word 32 (be_step CRCPOLY_BE x)) as Hs by (intros; by apply be_step_word).
  assert (forall c, word 32 c -> word 32 (Nat.iter 8 (be_step CRCPOLY_BE) c)) as HB by (intros; by apply iter_word).
  assert (word 32 (foldl (be_byte CRCPOLY_BE) c l)) as Hr by by apply fold_words. split.
  - apply (frame_accepted _ (Nat.iter 8 (be_step CRCPOLY_BE)) word_be HF be_four); [by vm_compute|done|done|by apply trailer_bytes|]. rewrite <- word_le_be. by apply trailer_word.
  - intros. apply (frame_rejected _ (Nat.iter 8 (be_step CRCPOLY_BE)) word_be HF HB) with (e := fun x => Z.shiftl x 24); try done; [|intros; by apply shift_byte_word|apply word_be_word| |apply be_four].
    + apply iter_inj; [done|apply be_step_inj].
    + intros x0 x1 x2 x3 y0 y1 y2 y3 Hx Hy. rewrite <- !word_le_be. intros E. apply word_le_inj in E; [by simplify_eq| |]; by rewrite !Forall_cons in *; naive_solver.
Qed.

(** ** Reflection *)
Lemma bitreverse_first x : word 32 x -> Z.lor (Z.shiftr x 16) (u32 (Z.shiftl x 16)) = Z.lor (Z.land (Z.shiftr x 16) 0xffff) (Z.land (Z.shiftl x 16) 0xffff0000).
Proof.
  intros [H1 H2]. f_equal.
  - change 0xffff with (Z.ones 16). rewrite Z.land_ones, Z.mod_small by (rewrite ?Z.shiftr_div_pow2 by lia; lia || (split; [apply Z.div_pos; lia|apply Z.div_lt_upper_bound; lia])). done.
  - change 0xffff0000 with (Z.shiftl (Z.ones 16) 16). rewrite <- Z.shiftl_land, Z.land_ones, !Z.shiftl_mul_pow2 by lia. unfold u32. change (2 ^ 32) with (2 ^ 16 * 2 ^ 16). by rewrite Z.mul_mod_distr_r.
Qed.
Lemma linear_bitreverse : linear 32 bitreverse.
Proof.
  eapply (linear_same 32); [intros x Hx; unfold bitreverse; rewrite (bitreverse_first x Hx); reflexivity|lia|]. cbv zeta.
  pose proof (linear_id 32). repeat (apply linear_lor; [done|apply linear_shiftr; [lia|]|first [apply linear_u32; [lia|]|idtac]; apply linear_shiftl; [lia|]]); done.
Qed.
Lemma bitreverse_word x : word 32 x -> word 32 (bitreverse x).
Proof.
  intros Hx. rewrite (linear_check 32 bitreverse (fun x => u32 (bitreverse x)) x); [apply u32_range|apply linear_bitreverse|apply linear_u32; [lia|apply linear_bitreverse]|by vm_compute|done].
Qed.
Lemma bitreverse_step x : word 32 x -> le_step CRCPOLY_LE (bitreverse x) = bitreverse (be_step CRCPOLY_BE x).
Proof.
  apply (linear_check 32 (fun x => le_step CRCPOLY_LE (bitreverse x)) (fun x => bitreverse (be_step CRCPOLY_BE x))); [| |by vm_compute].
  - apply (linear_comp 32 32 bitreverse); [apply linear_bitreverse|apply bitreverse_word|apply linear_le_step].
  - apply (linear_comp 32 32 (be_step CRCPOLY_BE) bitreverse); [by apply linear_be_step|intros; apply be_step_word; [apply poly_words|done]|apply linear_bitreverse].
Qed.
Definition reflect_byte (x : Z) : Z := Z.shiftr (bitreverse x) 24.
Lemma reflect_byte_place x : word 8 x -> reflect_byte x = bitreverse (Z.shiftl x 24) /\ word 8 (reflect_byte x).
Proof.
  intros Hx. split; [|apply top_byte, bitreverse_word, word_8_32, Hx]. apply (linear_check 8 reflect_byte (fun x => bitreverse (Z.shiftl x 24))); [| |by vm_compute|done].
  - apply linear_shiftr; [lia|]. apply (linear_comp 8 32 (fun x => x) bitreverse); [apply linear_id|apply word_8_32|apply linear_bitreverse].
  - apply (linear_comp 8 32 (fun x => Z.shiftl x 24) bitreverse); [by apply linear_byte|intros; by apply shift_byte_word|apply linear_bitreverse].
Qed.
Lemma reflected c l : word 32 c -> Forall (word 8) l -> foldl (le_byte CRCPOLY_LE) (bitreverse c) (reflect_byte <$> l) = bitreverse (foldl (be_byte CRCPOLY_BE) c l).
Proof.
  intros Hc Hl. destruct poly_words as (_ & Hp & _). revert c Hc. induction Hl as [|x l Hx Hl IH]; intros c Hc; [done|]. cbn [fmap list_fmap foldl].
  rewrite <- IH by by apply be_byte_word. f_equal. destruct (reflect_byte_place x Hx) as [E _]. unfold le_byte, be_byte.
  assert (word 32 (Z.shiftl x 24)) as Hs by by apply shift_byte_word. rewrite E, <- (lin_xor _ _ linear_bitreverse) by done.
  assert (word 32 (Z.lxor c (Z.shiftl x 24))) as Hy by by apply lxor_word. revert Hy. generalize (Z.lxor c (Z.shiftl x 24)) 8%nat. intros y n Hy.
  induction n as [|n IHn]; [done|]. rewrite !Nat.iter_succ, IHn, bitreverse_step; [done|]. apply iter_word; [intros; by apply be_step_word|done].
Qed.

(** ** Theorems *)

(** C18. Checksums: wherever the bytes of a message lie in memory, and on a
    machine of either byte order, the code of lib/crc32.c that aligns its
    pointer, reads whole words and looks up the generated tables returns what
    the bit-by-bit variants return, never reads a word at an unaligned address
    or a byte outside the message, and leaves memory alone; crc_ccitt and, on a
    little-endian machine, crc32c_le do so with their tables for their
    polynomials; a check may be computed in pieces; and crc32_be is the
    reflection by bitreverse of crc32_le. *)
Theorem crc_code_equals_bitwise little m p l crc : word 32 crc -> holds m p l ->
  let len := Z.of_nat (length l) in
  (crc32_le little crc p len m = Some (foldl (le_byte CRCPOLY_LE) crc l, m) /\ crc32_le_bitwise crc p len m = Some (foldl (le_byte CRCPOLY_LE) crc l, m)) /\
  (crc32_be little crc p len m = Some (foldl (be_byte CRCPOLY_BE) crc l, m) /\ crc32_be_bitwise crc p len m = Some (foldl (be_byte CRCPOLY_BE) crc l, m)) /\
  (crc32c_le true crc p len m = Some (foldl (le_byte CRC32C_POLY_LE) crc l, m) /\ crc32c_le_bitwise crc p len m = Some (foldl (le_byte CRC32C_POLY_LE) crc l, m)) /\
  crc32c_be crc p len m = Some (foldl (be_byte CRC32C_POLY_BE) crc l, m) /\
  (word 16 crc -> crc_ccitt crc p len m = Some (foldl (le_byte CRC_CCITT_POLY) crc l, m)) /\
  (forall m' q l', holds m' q l' -> (c ← crc32_le little crc p len; fun _ => crc32_le little c q (Z.of_nat (length l')) m') m = Some (foldl (le_byte CRCPOLY_LE) crc (l ++ l'), m')) /\
  (forall m' q, holds m' q (reflect_byte <$> l) -> crc32_le little (bitreverse crc) q len m' = Some (bitreverse (foldl (be_byte CRCPOLY_BE) crc l), m')).
Proof.
  intros Hc Hl len. unfold len, crc32_le_bitwise, crc32_be_bitwise, crc32c_le_bitwise, crc32c_be. rewrite Nat2Z.id, !(byte_loop_run _ _ _ _ _ Hl), crc32c_le_run by done.
  pose proof (holds_bytes m p l Hl) as Hb. rewrite (crc32_be_run little m l crc p Hc Hl). repeat (split; [by repeat split; try apply crc32_le_run|]). split_and!.
  - intros. by apply crc_ccitt_run.
  - intros m' q l' Hl'. rewrite (bind_run _ _ _ _ _ (crc32_le_run little m l crc p Hc Hl)), foldl_app. apply crc32_le_run; [|done].
    apply fold_words; [intros; apply le_byte_word; [apply poly_words|done..]|done..].
  - intros m' q Hq. rewrite <- reflected by done. rewrite <- (length_fmap reflect_byte l). apply crc32_le_run; [by apply bitreverse_word|done].
Qed.

Definition crc32 (big little : bool) : Z -> Z -> Z -> M mem Z := if big then crc32_be little else crc32_le little.
Definition trailer (big : bool) (c : Z) : list Z := if big then trailer_be c else trailer_le c.
(** C19. Error detection: when a sender appends to a message the check it
    computed, in the byte order of the check, a receiver, whatever its own byte
    order, computes zero over the frame; and if up to four consecutive bytes
    anywhere in the frame, the check included, were changed on the way, it
    computes something else. *)
Theorem crc32_guards_frames big snd rcv m0 p0 l crc c m p a x y b m' q :
  word 32 crc -> holds m0 p0 l -> crc32 big snd crc p0 (Z.of_nat (length l)) m0 = Some (c, m0) ->
  holds m p (l ++ trailer big c) -> l ++ trailer big c = a ++ x ++ b -> holds m' q (a ++ y ++ b) -> length y = length x -> (length x <= 4)%nat -> x <> y ->
  let len := Z.of_nat (length l + 4) in
  crc32 big rcv crc p len m = Some (0, m) /\ exists r, crc32 big rcv crc q len m' = Some (r, m') /\ r <> 0.
Proof.
  intros Hc Hl Es Hf Ef Hf' Ly Lx Hne len. pose proof (holds_bytes _ _ _ Hl) as Hlb. pose proof (holds_bytes _ _ _ Hf) as Hfb. pose proof (holds_bytes _ _ _ Hf') as Hfb'.
  assert (length (l ++ trailer big c) = length l + 4)%nat as L1 by (rewrite length_app; by destruct big).
  assert (length (a ++ y ++ b) = length l + 4)%nat as L2 by (rewrite <- L1, Ef, !length_app; lia).
  assert (Forall (word 8) y) as Hy by (rewrite !Forall_app in Hfb'; tauto).
  unfold len, crc32, trailer in *. destruct big; [destruct (be_frame crc l a x y b Hc Hlb) as [H0 Hd]; rewrite crc32_be_run in Es by done|destruct (le_frame crc l a x y b Hc Hlb) as [H0 Hd]; rewrite crc32_le_run in Es by done];
    injection Es as <-; rewrite Ef in *; (split; [rewrite <- L1; by rewrite ?crc32_be_run, ?crc32_le_run, H0|]); rewrite <- L2; rewrite ?crc32_be_run, ?crc32_le_run by done;
    eexists; (split; [done|]); specialize (Hd Hfb Hy Ly Lx Hne); congruence.
Qed.

(** The bytes from an address on. *)
Fixpoint store (p : Z) (l : list Z) : mem :=
  match l with
  | [] => ∅
  | x :: l => <[p := x]> (store (p + 1) l)
  end.
Definition digits : list Z := [0x31; 0x32; 0x33; 0x34; 0x35; 0x36; 0x37; 0x38; 0x39].
Lemma crc_code_equals_bitwise_witness : exists m, (word 32 0xffffffff /\ holds m 5 digits) /\
  crc32_le false 0xffffffff 5 9 m = Some (Z.lxor 0xcbf43926 0xffffffff, m) /\ crc32_be true 0xffffffff 5 9 m = Some (Z.lxor 0xfc891918 0xffffffff, m) /\
  crc32c_le true 0xffffffff 5 9 m = Some (Z.lxor 0xe3069283 0xffffffff, m).
Proof.
  exists (store 5 digits). assert (word 32 0xffffffff) as Hc by by vm_compute. assert (holds (store 5 digits) 5 digits) as Hm by by vm_compute. split; [done|].
  destruct (crc_code_equals_bitwise false (store 5 digits) 5 digits 0xffffffff Hc Hm) as ((H1 & _) & _).
  destruct (crc_code_equals_bitwise true (store 5 digits) 5 digits 0xffffffff Hc Hm) as (_ & (H2 & _) & (H3 & _) & _).
  split; [exact H1|]. split; [exact H2|]. exact H3.
Defined.
Lemma crc32_guards_frames_witness : exists m', crc32 false true 0xffffffff 3 13 m' <> Some (0, m').
Proof.
  set (frame := digits ++ trailer_le 0x340bc6d9). set (bad := [0x31; 0x32; 0x33] ++ [0x30; 0x35; 0x36; 0x39] ++ drop 7 frame).
  exists (store 3 bad).
  destruct (crc32_guards_frames false false true (store 8 digits) 8 digits 0xffffffff 0x340bc6d9 (store 1 frame) 1 [0x31; 0x32; 0x33] [0x34; 0x35; 0x36; 0x37] [0x30; 0x35; 0x36; 0x39] (drop 7 frame) (store 3 bad) 3) as (_ & r & E & Hr).
  - by vm_compute.
  - by vm_compute.
  - by vm_compute.
  - by vm_compute.
  - reflexivity.
  - by vm_compute.
  - reflexivity.
  - cbn. lia.
  - done.
  - change (Z.of_nat (length digits + 4)) with 13 in E. rewrite E. congruence.
Defined.

(** On a big-endian machine crc32c_le swaps the bytes of the seed and of the
    result around a loop that works on values in the order of the machine. *)
Lemma crc32c_le_swapped : exists m, holds m 0 digits /\ crc32c_le false 0xffffffff 0 9 m <> crc32c_le true 0xffffffff 0 9 m /\
  crc32c_le false 0xffffffff 0 9 m = Some (swab32 (Z.lxor 0xe3069283 0xffffffff), m).
Proof. exists (store 0 digits). split_and!; [by vm_compute..|by vm_compute]. Qed.
