(* ===== verification/StringOps.v ===== *)
(** * lib/string.c: strings and blocks of memory

    The generic routines, on a memory of bytes.  A [char] is its byte; where
    the code computes with it, it is signed.  A loop that runs up to a NUL has
    the number of bytes of memory as fuel: a loop over more addresses would
    leave memory. *)
From S2P Require Import Prelude.
From S2P Require Import LibVsprintf.

Definition memory_fuel : M memory nat := gets (fun m : memory => S (size m)).
(** [p++] and [--p] *)
Definition next (p : Z) : Z := u32 (p + 1).
Definition prev (p : Z) : Z := u32 (p - 1).

(** [while ( *sc != 0) ++sc;] *)
Fixpoint nul_loop (fuel : nat) (sc : Z) : M memory Z :=
  match fuel with
  | O => oops
  | S fuel => c ← load sc; if c =? 0 then ret sc else nul_loop fuel (next sc)
  end.
Definition strlen (s : Z) : M memory Z := fuel ← memory_fuel; sc ← nul_loop fuel s; ret (u32 (sc - s)).

(** ** Blocks *)
Fixpoint set_loop (count : nat) (xs c : Z) : M memory unit :=
  match count with O => ret tt | S count => store xs (u8 c);; set_loop count (next xs) c end.
Definition memset (s c count : Z) : M memory Z := set_loop (Z.to_nat count) s c;; ret s.
(** [while (count--) *tmp++ = *s++;] and, from the end, [*--tmp = *--s]. *)
Fixpoint copy_up (count : nat) (tmp s : Z) : M memory unit :=
  match count with O => ret tt | S count => c ← load s; store tmp c;; copy_up count (next tmp) (next s) end.
Fixpoint copy_down (count : nat) (tmp s : Z) : M memory unit :=
  match count with O => ret tt | S count => c ← load (prev s); store (prev tmp) c;; copy_down count (prev tmp) (prev s) end.
Definition memcpy (dest src count : Z) : M memory Z := copy_up (Z.to_nat count) dest src;; ret dest.
Definition bcopy (srcp destp count : Z) : M memory unit := copy_up (Z.to_nat count) destp srcp.
Definition memmove (dest src count : Z) : M memory Z :=
  (if dest <=? src then copy_up (Z.to_nat count) dest src
   else copy_down (Z.to_nat count) (u32 (dest + count)) (u32 (src + count)));;
  ret dest.
Fixpoint cmp_loop (count : nat) (su1 su2 : Z) : M memory Z :=
  match count with
  | O => ret 0
  | S count => a ← load su1; b ← load su2; let res := a - b in if truth res then ret res else cmp_loop count (next su1) (next su2)
  end.
Definition memcmp (cs ct count : Z) : M memory Z := cmp_loop (Z.to_nat count) cs ct.
Fixpoint memscan_loop (fuel : nat) (p e c : Z) : M memory Z :=
  if p =? e then ret p else
  match fuel with
  | O => oops
  | S fuel => x ← load p; if x =? u8 c then ret p else memscan_loop fuel (next p) e c
  end.
Definition memscan (addr c size : Z) : M memory Z := memscan_loop (Z.to_nat size) addr (u32 (addr + size)) c.
Fixpoint memchr_loop (n : nat) (p c : Z) : M memory Z :=
  match n with O => ret 0 | S n => x ← load p; if u8 c =? x then ret p else memchr_loop n (next p) c end.
Definition memchr (s c n : Z) : M memory Z := memchr_loop (Z.to_nat n) s c.

(** ** Copies of strings *)

(** [while (( *dest++ = *src++) != 0);] *)
Fixpoint strcpy_loop (fuel : nat) (dest src : Z) : M memory unit :=
  match fuel with
  | O => oops
  | S fuel => c ← load src; store dest c;; if c =? 0 then ret tt else strcpy_loop fuel (next dest) (next src)
  end.
Definition strcpy (dest src : Z) : M memory Z := fuel ← memory_fuel; strcpy_loop fuel dest src;; ret dest.
Fixpoint strncpy_loop (count : nat) (tmp src : Z) : M memory unit :=
  match count with
  | O => ret tt
  | S count => c ← load src; store tmp c;; strncpy_loop count (next tmp) (if truth c then next src else src)
  end.
Definition strncpy (dest src count : Z) : M memory Z := strncpy_loop (Z.to_nat count) dest src;; ret dest.
Definition strlcpy (dest src size : Z) : M memory Z :=
  r ← strlen src;
  when (truth size)
    (let len := if size <=? r then size - 1 else r in
     memcpy dest src len;; store (u32 (dest + len)) 0);;
  ret r.
Definition strcat (dest src : Z) : M memory Z :=
  fuel ← memory_fuel;
  d ← nul_loop fuel dest;
  strcpy_loop fuel d src;;
  ret dest.
Fixpoint strncat_loop (count : nat) (dest src : Z) : M memory unit :=
  match count with
  | O => ret tt
  | S count =>
      c ← load src; store dest c;;
      if c =? 0 then ret tt
      else match count with O => store (next dest) 0 | S _ => strncat_loop count (next dest) (next src) end
  end.
Definition strncat (dest src count : Z) : M memory Z :=
  when (truth count)
    (fuel ← memory_fuel; d ← nul_loop fuel dest; strncat_loop (Z.to_nat count) d src);;
  ret dest.
Definition strlcat (dest src count : Z) : M memory Z :=
  dsize ← strlen dest;
  len ← strlen src;
  let res := u32 (dsize + len) in
  when (count <=? dsize) oops;;
  let dest := u32 (dest + dsize) in
  let count := count - dsize in
  let len := if count <=? len then count - 1 else len in
  memcpy dest src len;;
  store (u32 (dest + len)) 0;;
  ret res.

(** ** Comparisons *)
Fixpoint strcmp_loop (fuel : nat) (cs ct : Z) : M memory Z :=
  match fuel with
  | O => oops
  | S fuel =>
      a ← load cs; b ← load ct;
      let res := s8 (s8 a - s8 b) in
      if truth res || negb (truth a) then ret res else strcmp_loop fuel (next cs) (next ct)
  end.
Definition strcmp (cs ct : Z) : M memory Z := fuel ← memory_fuel; strcmp_loop fuel cs ct.
Fixpoint strncmp_loop (count : nat) (cs ct : Z) : M memory Z :=
  match count with
  | O => ret 0
  | S count =>
      a ← load cs; b ← load ct;
      let res := s8 (s8 a - s8 b) in
      if truth res || negb (truth a) then ret res else strncmp_loop count (next cs) (next ct)
  end.
Definition strncmp (cs ct count : Z) : M memory Z := strncmp_loop (Z.to_nat count) cs ct.
(** [c1] and [c2] are the characters of the last round. *)
Fixpoint strnicmp_loop (len : nat) (s1 s2 c1 c2 : Z) : M memory Z :=
  match len with
  | O => ret (c1 - c2)
  | S len =>
      c1 ← load s1; c2 ← load s2;
      if negb (truth c1) || negb (truth c2) then ret (c1 - c2)
      else if c1 =? c2 then strnicmp_loop len (next s1) (next s2) c1 c2
      else let c1 := tolower c1 in let c2 := tolower c2 in
      if negb (c1 =? c2) then ret (c1 - c2) else strnicmp_loop len (next s1) (next s2) c1 c2
  end.
Definition strnicmp (s1 s2 len : Z) : M memory Z := strnicmp_loop (Z.to_nat len) s1 s2 0 0.

(** ** Searches *)
Fixpoint strchr_loop (fuel : nat) (s c : Z) : M memory Z :=
  match fuel with
  | O => oops
  | S fuel => x ← load s; if x =? u8 c then ret s else if x =? 0 then ret 0 else strchr_loop fuel (next s) c
  end.
Definition strchr (s c : Z) : M memory Z := fuel ← memory_fuel; strchr_loop fuel s c.
Fixpoint strrchr_loop (fuel : nat) (s p c : Z) : M memory Z :=
  match fuel with
  | O => oops
  | S fuel => x ← load p; if x =? u8 c then ret p else if s <=? prev p then strrchr_loop fuel s (prev p) c else ret 0
  end.
Definition strrchr (s c : Z) : M memory Z := len ← strlen s; fuel ← memory_fuel; strrchr_loop fuel s (u32 (s + len)) c.
Fixpoint strnchr_loop (count : nat) (s c : Z) : M memory Z :=
  match count with
  | O => ret 0
  | S count => x ← load s; if x =? 0 then ret 0 else if x =? u8 c then ret s else strnchr_loop count (next s) c
  end.
Definition strnchr (s count c : Z) : M memory Z := strnchr_loop (Z.to_nat count) s c.
(** The inner loops: whether a character is one of a string. *)
Fixpoint member_loop (fuel : nat) (a c : Z) : M memory bool :=
  match fuel with
  | O => oops
  | S fuel => x ← load a; if x =? 0 then ret false else if c =? x then ret true else member_loop fuel (next a) c
  end.
(** The characters up to the first that is not ([want]), or is, one of [a]. *)
Fixpoint span_loop (want : bool) (fuel : nat) (p a count : Z) : M memory Z :=
  match fuel with
  | O => oops
  | S fuel =>
      c ← load p;
      if c =? 0 then ret count else
      inner ← memory_fuel;
      b ← member_loop inner a c;
      if eqb b want then span_loop want fuel (next p) a (u32 (count + 1)) else ret count
  end.
Definition strspn (s accept : Z) : M memory Z := fuel ← memory_fuel; span_loop true fuel s accept 0.
Definition strcspn (s reject : Z) : M memory Z := fuel ← memory_fuel; span_loop false fuel s reject 0.
Fixpoint strpbrk_loop (fuel : nat) (sc1 ct : Z) : M memory Z :=
  match fuel with
  | O => oops
  | S fuel =>
      c ← load sc1;
      if c =? 0 then ret 0 else
      inner ← memory_fuel;
      b ← member_loop inner ct c;
      if b : bool then ret sc1 else strpbrk_loop fuel (next sc1) ct
  end.
Definition strpbrk (cs ct : Z) : M memory Z := fuel ← memory_fuel; strpbrk_loop fuel cs ct.
(** The new value of [*s], and the result. *)
Definition strsep (s ct : Z) : M memory (Z * Z) :=
  if s =? 0 then ret (s, 0) else
  end_ ← strpbrk s ct;
  (if truth end_ then store end_ 0;; ret (next end_, s) else ret (end_, s)).
Fixpoint strstr_loop (fuel : nat) (s1 s2 l1 l2 : Z) : M memory Z :=
  if l1 <? l2 then ret 0 else
  match fuel with
  | O => oops
  | S fuel =>
      r ← memcmp s1 s2 l2;
      if negb (truth r) then ret s1 else strstr_loop fuel (next s1) s2 (l1 - 1) l2
  end.
Definition strstr (s1 s2 : Z) : M memory Z :=
  l2 ← strlen s2;
  let l2 := s32 l2 in
  if negb (truth l2) then ret s1 else
  l1 ← strlen s1;
  strstr_loop (Z.to_nat (s32 l1)) s1 s2 (s32 l1) l2.
