(* ===== verification/StringTheorems.v ===== *)
(** * lib/string.c: what the routines do to strings in memory

    A string in memory is the list of its characters; copies are writes of
    lists, searches are searches in lists, and comparisons are the ones of the
    list models the bridge uses. *)
From S2P Require Import Prelude.
From S2P Require Import LibString.
From S2P Require Import BridgeIf.
From S2P Require Import LibVsprintf.
From S2P Require Import VsprintfProof.
From S2P Require Import StringOps.

(** ** Blocks and strings in memory *)
Record block (m : memory) (p : Z) (l : list Z) : Prop := {
  bl_range : 0 <= p /\ p + Z.of_nat (length l) < 2 ^ 32;
  bl_bytes (i : nat) x : l !! i = Some x -> m !! (p + Z.of_nat i) = Some x
}.
Definition is_char (c : Z) : Prop := 0 < c < 256.
Record text (m : memory) (p : Z) (s : list Z) : Prop := {
  tx_block : block m p (s ++ [0]);
  tx_chars : Forall is_char s
}.
Definition writable (m : memory) (d n : Z) : Prop := 0 <= d /\ d + n < 2 ^ 32 /\ forall a, d <= a < d + n -> is_Some (m !! a).

Lemma block_cons m p x l : block m p (x :: l) -> m !! p = Some x /\ next p = p + 1 /\ block m (p + 1) l.
Proof.
  intros [H1 H2]. cbn [length] in H1. split_and!.
  - rewrite <- (Z.add_0_r p). by apply (H2 O).
  - apply u32_small. lia.
  - split; [lia|]. intros i y Hy. replace (p + 1 + Z.of_nat i) with (p + Z.of_nat (S i)) by lia. by apply H2.
Qed.
Lemma block_app m p l1 l2 : block m p (l1 ++ l2) -> block m p l1 /\ block m (p + Z.of_nat (length l1)) l2.
Proof.
  intros [H1 H2]. rewrite length_app in H1. split; split; try lia.
  - intros i x Hx. apply H2. by apply lookup_app_l_Some.
  - intros i x Hx. rewrite <- Z.add_assoc, <- Nat2Z.inj_add. apply H2. rewrite lookup_app_r by lia. by rewrite Nat.add_comm, Nat.add_sub.
Qed.
Lemma block_insert m p l a x : block m p l -> a < p \/ p + Z.of_nat (length l) <= a -> block (<[a := x]> m) p l.
Proof.
  intros [H1 H2] Ha. split; [done|]. intros i y Hy. rewrite lookup_insert_ne; [by apply H2|]. apply lookup_lt_Some in Hy. lia.
Qed.
Lemma block_take m p l n : block m p l -> block m p (take n l).
Proof. intros H. rewrite <- (take_drop n l) in H. by apply block_app in H as [? _]. Qed.
(** A block lies in memory, so that the fuel of the scans is enough. *)
Lemma block_size m p l : block m p l -> (length l <= size m)%nat.
Proof.
  intros [H1 H2]. rewrite <- size_dom. set (X := list_to_set (C := gset Z) ((fun i : nat => p + Z.of_nat i) <$> seq 0 (length l))).
  assert (size X = length l) as <-.
  { unfold X. rewrite size_list_to_set, length_fmap, length_seq; [done|]. apply NoDup_fmap_2; [intros ? ? ?; lia|apply NoDup_seq]. }
  apply subseteq_size. intros a Ha. unfold X in Ha. rewrite elem_of_list_to_set, list_elem_of_fmap in Ha. destruct Ha as (i & -> & Hi).
  apply elem_of_seq in Hi. destruct (lookup_lt_is_Some_2 l i) as [x Hx]; [lia|]. apply elem_of_dom. exists x. by apply H2.
Qed.
Lemma load_run (m : memory) p x : m !! p = Some x -> load p m = Some (x, m).
Proof. intros E. unfold load, bind, gets, deref. by rewrite E. Qed.
Lemma fuel_run m : memory_fuel m = Some (S (size m), m).
Proof. done. Qed.
Lemma writable_cons m d n : writable m d n -> 0 < n -> is_Some (m !! d) /\ next d = d + 1 /\ forall x, writable (<[d := x]> m) (d + 1) (n - 1).
Proof.
  intros (H1 & H2 & H3) Hn. split_and!; [apply H3; lia|apply u32_small; lia|]. intros x. split_and!; [lia|lia|]. intros a Ha. rewrite lookup_insert_ne by lia. apply H3. lia.
Qed.

(** ** Lengths *)
Lemma nul_run m s : forall fuel p, block m p (s ++ [0]) -> Forall is_char s -> (length s < fuel)%nat -> nul_loop fuel p m = Some (p + Z.of_nat (length s), m).
Proof.
  induction s as [|x s IH]; intros [|fuel] p Hb Hs Hf; cbn in Hf; try lia; cbn [nul_loop app] in *; apply block_cons in Hb as (E & En & Hb); rewrite (bind_run _ _ _ _ _ (load_run _ _ _ E)).
  - cbn. by rewrite Z.add_0_r.
  - apply Forall_cons in Hs as [[Hx _] Hs]. replace (x =? 0) with false by lia. rewrite En, IH by (done || lia). do 2 f_equal. cbn [length]. lia.
Qed.
Lemma text_size m p s : text m p s -> (length s < size m)%nat /\ 0 <= p /\ p + Z.of_nat (length s) + 1 < 2 ^ 32.
Proof. intros [Hb _]. pose proof (block_size _ _ _ Hb) as Hl. destruct Hb as [Hr _]. rewrite length_app in Hl, Hr. cbn in Hl, Hr. lia. Qed.
Lemma text_nul m p s : text m p s -> nul_loop (S (size m)) p m = Some (p + Z.of_nat (length s), m).
Proof. intros H. pose proof (text_size _ _ _ H). destruct H as [Hb Hs]. apply nul_run; [done|done|lia]. Qed.
Lemma strlen_run m p s : text m p s -> strlen p m = Some (Z.of_nat (length s), m).
Proof.
  intros H. unfold strlen. rewrite (bind_run _ _ _ _ _ (fuel_run m)), (bind_run _ _ _ _ _ (text_nul _ _ _ H)). unfold ret. pose proof (text_size _ _ _ H).
  rewrite u32_small by lia. do 2 f_equal. lia.
Qed.

(** ** Searches *)

(** The place of the first character with a property, and the pointer to it. *)
Fixpoint index (f : Z -> bool) (l : list Z) : option Z :=
  match l with [] => None | x :: l => if f x then Some 0 else option_map Z.succ (index f l) end.
Definition ptr (p : Z) (o : option Z) : Z := match o with Some i => p + i | None => 0 end.
Definition member (t : list Z) (c : Z) : bool := existsb (Z.eqb c) t.
Lemma ptr_0 p : ptr p (Some 0) = p.
Proof. apply Z.add_0_r. Qed.
Lemma ptr_succ p o : ptr (p + 1) o = ptr p (option_map Z.succ o).
Proof. destruct o; cbn; [lia|done]. Qed.
Lemma index_bound f l i : index f l = Some i -> 0 <= i < Z.of_nat (length l).
Proof.
  revert i. induction l as [|x l IH]; intros i; cbn; [done|]. destruct (f x); [intros [= <-]; lia|]. destruct (index f l) as [j|]; cbn; [|done]. intros [= <-]. specialize (IH j eq_refl). lia.
Qed.
Lemma index_ext f g l : (forall x, f x = g x) -> index f l = index g l.
Proof. intros E. induction l as [|x l IH]; cbn; [done|]. by rewrite E, IH. Qed.

Lemma memchr_run m c l : forall p, block m p l -> memchr_loop (length l) p c m = Some (ptr p (index (Z.eqb (u8 c)) l), m).
Proof.
  induction l as [|x l IH]; intros p Hb; [done|]. apply block_cons in Hb as (E & En & Hb). cbn [memchr_loop length index]. rewrite (bind_run _ _ _ _ _ (load_run _ _ _ E)).
  destruct (u8 c =? x); [cbn; by rewrite Z.add_0_r|]. rewrite En, IH, ptr_succ by done. done.
Qed.
Lemma memscan_run m c l : forall p, block m p l -> memscan_loop (length l) p (p + Z.of_nat (length l)) c m = Some (p + default (Z.of_nat (length l)) (index (fun x => x =? u8 c) l), m).
Proof.
  induction l as [|x l IH]; intros p Hb; cbn [memscan_loop length index].
  - rewrite Z.add_0_r, Z.eqb_refl. cbn. by rewrite Z.add_0_r.
  - apply block_cons in Hb as (E & En & Hb). rewrite (proj2 (Z.eqb_neq p (p + Z.of_nat (S (length l))))) by lia. rewrite (bind_run _ _ _ _ _ (load_run _ _ _ E)).
    destruct (x =? u8 c); [cbn; by rewrite Z.add_0_r|]. rewrite En. replace (p + Z.of_nat (S (length l))) with (p + 1 + Z.of_nat (length l)) by lia. rewrite IH by done.
    do 2 f_equal. destruct (index _ l); cbn; lia.
Qed.
Lemma strchr_run m c s : forall fuel p, block m p (s ++ [0]) -> Forall is_char s -> (length s < fuel)%nat ->
  strchr_loop fuel p c m = Some (ptr p (index (fun x => x =? u8 c) (s ++ [0])), m).
Proof.
  induction s as [|x s IH]; intros [|fuel] p Hb Hs Hf; cbn in Hf; try lia; cbn [strchr_loop app index] in *; apply block_cons in Hb as (E & En & Hb); rewrite (bind_run _ _ _ _ _ (load_run _ _ _ E)).
  - destruct (0 =? u8 c); cbn; [by rewrite Z.add_0_r|done].
  - apply Forall_cons in Hs as [[Hx _] Hs]. destruct (x =? u8 c); [cbn; by rewrite Z.add_0_r|]. replace (x =? 0) with false by lia. rewrite En, IH, ptr_succ by (done || lia). done.
Qed.
Lemma strnchr_run m c s : forall n p, block m p (s ++ [0]) -> Forall is_char s ->
  strnchr_loop n p c m = Some (ptr p (index (fun x => x =? u8 c) (take n s)), m).
Proof.
  induction s as [|x s IH]; intros [|n] p Hb Hs; try done; cbn [strnchr_loop app index take] in *; apply block_cons in Hb as (E & En & Hb); rewrite (bind_run _ _ _ _ _ (load_run _ _ _ E)).
  - done.
  - apply Forall_cons in Hs as [[Hx _] Hs]. replace (x =? 0) with false by lia. destruct (x =? u8 c); [cbn; by rewrite Z.add_0_r|]. rewrite En, IH, ptr_succ by done. done.
Qed.
(** From the last byte of a block down to the first. *)
Lemma strrchr_run m c s l : forall fuel x, 0 < s -> block m s (l ++ [x]) -> (length l < fuel)%nat ->
  strrchr_loop fuel s (s + Z.of_nat (length l)) c m = Some (match index (fun x => x =? u8 c) (rev (l ++ [x])) with Some i => s + Z.of_nat (length l) - i | None => 0 end, m).
Proof.
  induction l as [|y l IH] using rev_ind; intros [|fuel] x Hp Hb Hf; try (cbn in Hf; lia); rewrite rev_app_distr; cbn [strrchr_loop rev app index];
    pose proof (block_app _ _ _ _ Hb) as [Hb1 Hb2]; apply block_cons in Hb2 as (E & _); rewrite (bind_run _ _ _ _ _ (load_run _ _ _ E)).
  - destruct (x =? u8 c); [by rewrite Z.sub_0_r|]. destruct Hb as [Hr _]. cbn [length app] in *. unfold prev. rewrite u32_small by lia. by rewrite (proj2 (Z.leb_gt s _)) by lia.
  - destruct (x =? u8 c); [by rewrite Z.sub_0_r|]. destruct Hb as [Hr _]. rewrite !length_app in *. cbn [length] in *. unfold prev. rewrite u32_small by lia.
    rewrite (proj2 (Z.leb_le s _)) by lia. replace (s + Z.of_nat (length l + 1) - 1) with (s + Z.of_nat (length l)) by lia. rewrite (IH fuel y) by (done || lia). do 2 f_equal.
    destruct (index _ _); cbn; lia.
Qed.
Lemma member_run m c t : forall fuel a, block m a (t ++ [0]) -> Forall is_char t -> (length t < fuel)%nat -> member_loop fuel a c m = Some (member t c, m).
Proof.
  induction t as [|x t IH]; intros [|fuel] a Hb Ht Hf; cbn in Hf; try lia; cbn [member_loop app] in *; apply block_cons in Hb as (E & En & Hb); rewrite (bind_run _ _ _ _ _ (load_run _ _ _ E)); [done|].
  apply Forall_cons in Ht as [[Hx _] Ht]. replace (x =? 0) with false by lia. unfold member. cbn [existsb]. destruct (c =? x); [done|]. rewrite En, IH by (done || lia). done.
Qed.
Lemma text_member m a t c : text m a t -> member_loop (S (size m)) a c m = Some (member t c, m).
Proof. intros H. pose proof (text_size _ _ _ H). destruct H. apply member_run; [done|done|lia]. Qed.
Lemma span_run want m a t s : text m a t -> forall fuel p count, block m p (s ++ [0]) -> Forall is_char s -> (length s < fuel)%nat -> 0 <= count -> count + Z.of_nat (length s) < 2 ^ 32 ->
  span_loop want fuel p a count m = Some (count + default (Z.of_nat (length s)) (index (fun x => negb (eqb (member t x) want)) s), m).
Proof.
  intros Ht. induction s as [|x s IH]; intros [|fuel] p count Hb Hs Hf Hc Hl; cbn in Hf; try lia; cbn [span_loop app index] in *; apply block_cons in Hb as (E & En & Hb); rewrite (bind_run _ _ _ _ _ (load_run _ _ _ E)).
  - cbn. by rewrite Z.add_0_r.
  - apply Forall_cons in Hs as [[Hx _] Hs]. replace (x =? 0) with false by lia. rewrite (bind_run _ _ _ _ _ (fuel_run m)), (bind_run _ _ _ _ _ (text_member _ _ _ x Ht)).
    destruct (eqb (member t x) want); [|cbn; by rewrite Z.add_0_r]. cbn [length] in Hl. rewrite En, u32_small, IH by (done || lia). do 2 f_equal. destruct (index _ s); cbn; lia.
Qed.
Lemma strpbrk_loop_run m a t s : text m a t -> forall fuel p, block m p (s ++ [0]) -> Forall is_char s -> (length s < fuel)%nat ->
  strpbrk_loop fuel p a m = Some (ptr p (index (member t) s), m).
Proof.
  intros Ht. induction s as [|x s IH]; intros [|fuel] p Hb Hs Hf; cbn in Hf; try lia; cbn [strpbrk_loop app index] in *; apply block_cons in Hb as (E & En & Hb); rewrite (bind_run _ _ _ _ _ (load_run _ _ _ E)); [done|].
  apply Forall_cons in Hs as [[Hx _] Hs]. replace (x =? 0) with false by lia. rewrite (bind_run _ _ _ _ _ (fuel_run m)), (bind_run _ _ _ _ _ (text_member _ _ _ x Ht)).
  destruct (member t x); [cbn; by rewrite Z.add_0_r|]. rewrite En, IH, ptr_succ by (done || lia). done.
Qed.
Lemma strpbrk_run m p s a t : text m p s -> text m a t -> strpbrk p a m = Some (ptr p (index (member t) s), m).
Proof.
  intros Hs Ht. unfold strpbrk. rewrite (bind_run _ _ _ _ _ (fuel_run m)). pose proof (text_size _ _ _ Hs). destruct Hs. apply strpbrk_loop_run; [done..|lia].
Qed.

(** ** Comparisons *)
Lemma cmp_run m n : forall p q l k, block m p l -> block m q k -> (n <= length l)%nat -> (n <= length k)%nat -> cmp_loop n p q m = Some (LibString.memcmp l k n, m).
Proof.
  induction n as [|n IH]; intros p q [|x l] [|y k] Hl Hk Hnl Hnk; cbn in Hnl, Hnk; try lia; try done.
  apply block_cons in Hl as (E & En & Hl). apply block_cons in Hk as (E' & En' & Hk). cbn [cmp_loop LibString.memcmp].
  rewrite (bind_run _ _ _ _ _ (load_run _ _ _ E)), (bind_run _ _ _ _ _ (load_run _ _ _ E')). cbv zeta. destruct (truth (x - y)); [done|]. rewrite En, En'. apply IH; [done..|lia|lia].
Qed.
Lemma s8_diff a b : s8 (s8 a - s8 b) = schar (a - b).
Proof.
  unfold s8, schar. change (2 ^ 7) with 128. change (2 ^ 8) with 256.
  assert (forall x, u8 ((if u8 x <? 128 then u8 x else u8 x - 256)) = u8 x) as H1.
  { intros x. unfold u8. destruct (_ <? 128); [apply Zmod_mod|]. replace (x mod 2 ^ 8 - 256) with (x mod 2 ^ 8 + -1 * 2 ^ 8) by lia. by rewrite Z.mod_add, Zmod_mod by lia. }
  assert (u8 ((if u8 a <? 128 then u8 a else u8 a - 256) - (if u8 b <? 128 then u8 b else u8 b - 256)) = u8 (a - b)) as ->; [|done].
  unfold u8 at 1. rewrite Zminus_mod. fold (u8 (if u8 a <? 128 then u8 a else u8 a - 256)). fold (u8 (if u8 b <? 128 then u8 b else u8 b - 256)). rewrite !H1. unfold u8. by rewrite <- Zminus_mod.
Qed.
Lemma schar_zero d : - 256 < d < 256 -> truth (schar d) = false -> d = 0.
Proof. unfold truth, schar, u8. change (2 ^ 8) with 256. intros Hd. destruct (Z.ltb_spec (d mod 256) 128); rewrite negb_false_iff, Z.eqb_eq; Z.to_euclidean_division_equations; lia. Qed.
Lemma schar_small d : - 128 <= d < 128 -> schar d = d.
Proof. unfold schar, u8. change (2 ^ 8) with 256. intros Hd. destruct (Z.ltb_spec (d mod 256) 128); Z.to_euclidean_division_equations; lia. Qed.

(** The character a string has at its start, and the rest of it. *)
Lemma text_head m p s : text m p s -> m !! p = Some (default 0 (head s)) /\ 0 <= default 0 (head s) < 256 /\
  match s with [] => True | _ :: s => next p = p + 1 /\ text m (p + 1) s end.
Proof.
  intros [Hb Hs]. destruct s as [|x s]; cbn [app] in Hb; apply block_cons in Hb as (E & En & Hb); cbn; [split_and!; [done|lia..|done]|].
  apply Forall_cons in Hs as [[Hx1 Hx2] Hs]. split_and!; [done|lia..|done|by split].
Qed.
Lemma strncmp_step m p q s t : text m p s -> text m q t ->
  (truth (schar (default 0 (head s) - default 0 (head t))) || negb (truth (default 0 (head s))) = false) ->
  exists x s' t', s = x :: s' /\ t = x :: t' /\ text m (next p) s' /\ text m (next q) t'.
Proof.
  intros Hs Ht E. apply orb_false_iff in E as [E1 E2]. destruct (text_head _ _ _ Hs) as (_ & Hx & Hs'), (text_head _ _ _ Ht) as (_ & Hy & Ht'). apply schar_zero in E1; [|lia].
  destruct s as [|x s]; [done|]. destruct Hs' as [-> Hs']. destruct t as [|y t]; cbn in *; [unfold truth in E2; lia|]. destruct Ht' as [-> Ht']. assert (x = y) as -> by lia. eauto 8.
Qed.
Lemma strncmp_run m n : forall p q s t, text m p s -> text m q t -> strncmp_loop n p q m = Some (BridgeIf.strncmp s t n, m).
Proof.
  induction n as [|n IH]; intros p q s t Hs Ht; [done|]. destruct (text_head _ _ _ Hs) as (E & _), (text_head _ _ _ Ht) as (E' & _). cbn [strncmp_loop BridgeIf.strncmp].
  rewrite (bind_run _ _ _ _ _ (load_run _ _ _ E)), (bind_run _ _ _ _ _ (load_run _ _ _ E')), s8_diff. destruct (_ || _) eqn:Ec; [done|].
  destruct (strncmp_step _ _ _ _ _ Hs Ht Ec) as (x & s' & t' & -> & -> & Hs' & Ht'). by apply IH.
Qed.
Lemma strcmp_run m : forall s fuel n p q t, text m p s -> text m q t -> (length s < fuel)%nat -> (length s < n)%nat -> strcmp_loop fuel p q m = Some (BridgeIf.strncmp s t n, m).
Proof.
  induction s as [|x s IH]; intros [|fuel] [|n] p q t Hs Ht Hf Hn; try lia; destruct (text_head _ _ _ Hs) as (E & _), (text_head _ _ _ Ht) as (E' & _); cbn [strcmp_loop BridgeIf.strncmp];
    rewrite (bind_run _ _ _ _ _ (load_run _ _ _ E)), (bind_run _ _ _ _ _ (load_run _ _ _ E')), s8_diff; destruct (_ || _) eqn:Ec; try done;
    destruct (strncmp_step _ _ _ _ _ Hs Ht Ec) as (y & s' & t' & Es & -> & Hs' & Ht'); [done|]. injection Es as -> ->. cbn in Hf, Hn. apply IH; [done..|lia|lia].
Qed.
Lemma strncmp_zero s t n : Forall is_char s -> Forall is_char t -> (length s < n)%nat -> BridgeIf.strncmp s t n = 0 <-> s = t.
Proof.
  intros Hs. revert t n. induction Hs as [|x s [Hx1 Hx2] Hs IH]; intros t [|n] Ht Hn; cbn in Hn; try lia; (destruct Ht as [|y t [Hy1 Hy2] Ht]; cbn [BridgeIf.strncmp head default from_option id tail]).
  - done.
  - cbn [truth negb orb]. rewrite orb_true_r. split; [|done]. intros E. assert (0 - y = 0); [|lia]. apply schar_zero; [lia|]. by rewrite E.
  - destruct (truth _) eqn:E; cbn [orb]; [split; [unfold truth in E; lia|done]|]. apply schar_zero in E; lia.
  - destruct (truth (schar _)) eqn:E; cbn [orb].
    + split; [unfold truth in E; lia|]. intros [= -> _]. by rewrite Z.sub_diag in E.
    + apply schar_zero in E; [|lia]. assert (x = y) as -> by lia. unfold truth. replace (y =? 0) with false by lia. cbn. rewrite IH by (done || lia). split; congruence.
Qed.
(** On characters below 128 it is the comparison of memory. *)
Lemma strncmp_ascii s t n : Forall (fun c => 0 < c < 128) s -> Forall (fun c => 0 < c < 128) t -> (length s < n)%nat -> BridgeIf.strncmp s t n = LibString.memcmp (s ++ [0]) (t ++ [0]) n.
Proof.
  intros Hs. revert t n. induction Hs as [|x s Hx Hs IH]; intros t [|n] Ht Hn; cbn in Hn; try lia; (destruct Ht as [|y t Hy Ht]; cbn [BridgeIf.strncmp head default from_option id tail LibString.memcmp app]); rewrite schar_small by lia.
  - cbn. by destruct n.
  - unfold truth. by replace (0 - y =? 0) with false by lia.
  - unfold truth. by replace (x - 0 =? 0) with false by lia.
  - unfold truth. destruct (Z.eqb_spec (x - y) 0); [|done]. cbn. replace (x =? 0) with false by lia. apply IH; [done|lia].
Qed.
Lemma strnicmp_run m n : forall p q s t c, text m p s -> text m q t ->
  exists r, strnicmp_loop n p q c c m = Some (r, m) /\ (r = 0 <-> tolower <$> take n s = tolower <$> take n t).
Proof.
  induction n as [|n IH]; intros p q s t c Hs Ht; [exists 0; cbn; by rewrite Z.sub_diag|].
  destruct (text_head _ _ _ Hs) as (E & Hx & Hs'), (text_head _ _ _ Ht) as (E' & Hy & Ht'). cbn [strnicmp_loop]. rewrite (bind_run _ _ _ _ _ (load_run _ _ _ E)), (bind_run _ _ _ _ _ (load_run _ _ _ E')).
  destruct Hs as [_ Hs], Ht as [_ Ht]. destruct Hs as [|x s [Hx1 Hx2] Hs], Ht as [|y t [Hy1 Hy2] Ht]; cbn [head default from_option id take fmap list_fmap] in *; unfold truth.
  - by exists 0.
  - exists (0 - y). split; [done|]. split; [lia|done].
  - replace (x =? 0) with false by lia. exists (x - 0). split; [done|]. split; [lia|done].
  - destruct Hs' as [-> Hs'], Ht' as [-> Ht']. replace (x =? 0) with false by lia. replace (y =? 0) with false by lia. cbn [negb orb].
    destruct (Z.eqb_spec x y) as [->|Hne]; [destruct (IH (p + 1) (q + 1) s t y Hs' Ht') as (r & Er & Hr); exists r; split; [done|]; rewrite Hr; split; congruence|].
    destruct (Z.eqb_spec (tolower x) (tolower y)) as [El|Hne']; cbn [negb].
    + rewrite El. destruct (IH (p + 1) (q + 1) s t (tolower y) Hs' Ht') as (r & Er & Hr). exists r. split; [done|]. rewrite Hr. split; congruence.
    + eexists. split; [done|]. split; [lia|congruence].
Qed.

(** The place of the first occurrence of a string in another. *)
Fixpoint find_sub (t s : list Z) : option Z :=
  if bool_decide (t `prefix_of` s) then Some 0 else
  match s with [] => None | _ :: s => option_map Z.succ (find_sub t s) end.
Lemma memcmp_prefix t s : (length t <= length s)%nat -> truth (LibString.memcmp s t (length t)) = negb (bool_decide (t `prefix_of` s)).
Proof.
  revert s. induction t as [|y t IH]; intros [|x s] Hl; cbn in Hl; try lia; cbn [LibString.memcmp length].
  - done.
  - rewrite bool_decide_true by apply prefix_nil. done.
  - destruct (truth (x - y)) eqn:E.
    + rewrite E. symmetry. apply negb_true_iff, bool_decide_false. intros ->%prefix_cons_inv_1. unfold truth in E. lia.
    + assert (x = y) as -> by (unfold truth in E; lia). rewrite IH by lia. f_equal. apply bool_decide_ext. split; [apply prefix_cons|apply prefix_cons_inv_2].
Qed.
Lemma find_sub_nil s : find_sub [] s = Some 0.
Proof. destruct s; cbn [find_sub]; by rewrite bool_decide_true by apply prefix_nil. Qed.
Lemma find_sub_short t s : (length s < length t)%nat -> find_sub t s = None.
Proof.
  induction s as [|x s IH]; cbn [length find_sub]; intros H; (rewrite bool_decide_false; [|intros Hp; apply prefix_length in Hp; cbn in Hp; lia]); [done|]. by rewrite IH by lia.
Qed.
Lemma strstr_run m q t s : block m q t -> t <> [] -> forall fuel p, block m p s -> (length s <= fuel)%nat ->
  strstr_loop fuel p q (Z.of_nat (length s)) (Z.of_nat (length t)) m = Some (ptr p (find_sub t s), m).
Proof.
  intros Ht Hne. assert (0 < length t)%nat by (destruct t; [done|cbn; lia]). induction s as [|x s IH]; intros fuel p Hb Hf.
  - rewrite find_sub_short by (cbn; lia). destruct fuel; cbn [strstr_loop length]; by rewrite (proj2 (Z.ltb_lt _ _)) by lia.
  - destruct fuel as [|fuel]; [cbn in Hf; lia|]. cbn [strstr_loop]. destruct (Z.ltb_spec (Z.of_nat (length (x :: s))) (Z.of_nat (length t))) as [Hlt|Hge]; [by rewrite find_sub_short by lia|].
    unfold memcmp. rewrite Nat2Z.id, (bind_run _ _ _ _ _ (cmp_run m (length t) p q (x :: s) t Hb Ht ltac:(lia) ltac:(lia))), memcmp_prefix by lia. cbn [find_sub].
    destruct (bool_decide _); cbn [negb]; [cbn; by rewrite Z.add_0_r|]. apply block_cons in Hb as (_ & En & Hb). rewrite En, <- ptr_succ. cbn [length] in *.
    replace (Z.of_nat (S (length s)) - 1) with (Z.of_nat (length s)) by lia. apply IH; [done|lia].
Qed.

(** ** Copies *)
(** A copy upwards reads no byte that it has written. *)
Definition upwards (d q n : Z) : Prop := d <= q \/ q + n <= d.
Lemma copy_up_run l : forall m d q, block m q l -> writable m d (Z.of_nat (length l)) -> upwards d q (Z.of_nat (length l)) -> copy_up (length l) d q m = Some (tt, write d l m).
Proof.
  induction l as [|x l IH]; intros m d q Hb Hw Hu; [done|]. cbn [length] in *. apply block_cons in Hb as (E & En & Hb). destruct (writable_cons _ _ _ Hw) as (Hd & En' & Hw'); [lia|].
  cbn [copy_up write]. rewrite (bind_run _ _ _ _ _ (load_run _ _ _ E)), (bind_run _ _ _ _ _ (store_run _ x _ Hd)), En, En'. unfold upwards in *. apply IH.
  - apply block_insert; [done|lia].
  - specialize (Hw' x). by replace (Z.of_nat (S (length l)) - 1) with (Z.of_nat (length l)) in Hw' by lia.
  - lia.
Qed.
Lemma write_insert d l m a x : a < d \/ d + Z.of_nat (length l) <= a -> write d l (<[a := x]> m) = <[a := x]> (write d l m).
Proof.
  revert d m. induction l as [|y l IH]; intros d m Ha; cbn [write length] in *; [done|]. rewrite <- IH by lia. f_equal. rewrite insert_insert_ne by lia. done.
Qed.
Lemma copy_down_run l : forall m d q, block m q l -> writable m d (Z.of_nat (length l)) -> q <= d ->
  copy_down (length l) (d + Z.of_nat (length l)) (q + Z.of_nat (length l)) m = Some (tt, write d l m).
Proof.
  induction l as [|x l IH] using rev_ind; intros m d q Hb Hw Hq; [done|]. pose proof Hb as [Hr _]. rewrite length_app in *. cbn [length] in *. rewrite Nat.add_1_r in *.
  apply block_app in Hb as [Hb Hx]. apply block_cons in Hx as (E & _). destruct Hw as (Hw1 & Hw2 & Hw3). cbn [copy_down]. unfold prev.
  rewrite !u32_small by lia. replace (q + Z.of_nat (S (length l)) - 1) with (q + Z.of_nat (length l)) by lia. replace (d + Z.of_nat (S (length l)) - 1) with (d + Z.of_nat (length l)) by lia.
  rewrite (bind_run _ _ _ _ _ (load_run _ _ _ E)), (bind_run _ _ _ _ _ (store_run _ x _ (Hw3 (d + Z.of_nat (length l)) ltac:(lia)))).
  rewrite IH; [|apply block_insert; [done|lia]| |done].
  - rewrite write_app. cbn [write]. by rewrite write_insert by lia.
  - split_and!; [lia|lia|]. intros a Ha. rewrite lookup_insert_ne by lia. apply Hw3. lia.
Qed.
Lemma set_run c n : forall m d, writable m d (Z.of_nat n) -> set_loop n d c m = Some (tt, write d (replicate n (u8 c)) m).
Proof.
  induction n as [|n IH]; intros m d Hw; [done|]. destruct (writable_cons _ _ _ Hw) as (Hd & En & Hw'); [lia|]. cbn [set_loop replicate write].
  rewrite (bind_run _ _ _ _ _ (store_run _ _ _ Hd)), En. apply IH. specialize (Hw' (u8 c)). by replace (Z.of_nat (S n) - 1) with (Z.of_nat n) in Hw' by lia.
Qed.
Lemma strcpy_run s : forall m fuel d q, block m q (s ++ [0]) -> Forall is_char s -> writable m d (Z.of_nat (length s) + 1) -> upwards d q (Z.of_nat (length s) + 1) -> (length s < fuel)%nat ->
  strcpy_loop fuel d q m = Some (tt, write d (s ++ [0]) m).
Proof.
  induction s as [|x s IH]; intros m [|fuel] d q Hb Hs Hw Hu Hf; cbn in Hf; try lia; cbn [strcpy_loop app write] in *; apply block_cons in Hb as (E & En & Hb);
    (destruct (writable_cons _ _ _ Hw) as (Hd & En' & Hw'); [lia|]); rewrite (bind_run _ _ _ _ _ (load_run _ _ _ E)), (bind_run _ _ _ _ _ (store_run _ _ _ Hd)); [done|].
  apply Forall_cons in Hs as [[Hx _] Hs]. replace (x =? 0) with false by lia. rewrite En, En'. cbn [length] in *. unfold upwards in *. apply IH; [|done| |lia|lia].
  - apply block_insert; [done|]. rewrite length_app. cbn. lia.
  - specialize (Hw' x). by replace (Z.of_nat (S (length s)) + 1 - 1) with (Z.of_nat (length s) + 1) in Hw' by lia.
Qed.
Definition apart (d n q k : Z) : Prop := d + n <= q \/ q + k <= d.
Lemma strncpy_run n : forall k m s d q, (n <= k)%nat -> text m q s -> writable m d (Z.of_nat n) -> apart d (Z.of_nat n) q (Z.of_nat (length s) + 1) ->
  strncpy_loop n d q m = Some (tt, write d (take n (s ++ replicate k 0)) m).
Proof.
  induction n as [|n IH]; intros k m s d q Hk Hs Hw Ha; [done|]. destruct (text_head _ _ _ Hs) as (E & _). destruct (writable_cons _ _ _ Hw) as (Hd & En' & Hw'); [lia|]. cbn [strncpy_loop].
  rewrite (bind_run _ _ _ _ _ (load_run _ _ _ E)), (bind_run _ _ _ _ _ (store_run _ _ _ Hd)). destruct k as [|k]; [lia|]. specialize (Hw' (default 0 (head s))).
  replace (Z.of_nat (S n) - 1) with (Z.of_nat n) in Hw' by lia. destruct Hs as [Hb Hc]. unfold apart in *. rewrite En'.
  destruct s as [|x s]; cbn [head default from_option id truth negb Z.eqb app replicate take write length] in *.
  - apply (IH k _ [] (d + 1) q); [lia| |done|cbn; lia]. split; [|done]. apply block_insert; [done|cbn; lia].
  - apply Forall_cons in Hc as [[Hx _] Hc]. unfold truth. replace (x =? 0) with false by lia. cbn [negb]. apply block_cons in Hb as (_ & En & Hb). rewrite En.
    apply (IH (S k) _ s (d + 1) (q + 1)); [lia| |done|lia]. split; [|done]. apply block_insert; [done|rewrite length_app; cbn; lia].
Qed.
Lemma strncat_run s : forall n m d q, (0 < n)%nat -> text m q s -> writable m d (Z.of_nat (length (take n s)) + 1) -> upwards d q (Z.of_nat (length s) + 1) ->
  strncat_loop n d q m = Some (tt, write d (take n s ++ [0]) m).
Proof.
  induction s as [|x s IH]; intros [|n] m d q Hn [Hb Hc] Hw Hu; [lia| |lia|]; cbn [strncat_loop app take write] in *; apply block_cons in Hb as (E & En & Hb);
    (destruct (writable_cons _ _ _ Hw) as (Hd & En' & Hw'); [lia|]); rewrite (bind_run _ _ _ _ _ (load_run _ _ _ E)), (bind_run _ _ _ _ _ (store_run _ _ _ Hd)); [done|].
  apply Forall_cons in Hc as [[Hx _] Hc]. replace (x =? 0) with false by lia. rewrite En, En'. cbn [length] in *. specialize (Hw' x).
  replace (Z.of_nat (S (length (take n s))) + 1 - 1) with (Z.of_nat (length (take n s)) + 1) in Hw' by lia. destruct n as [|n].
  - apply store_run, Hw'. cbn. lia.
  - unfold upwards in *. apply IH; [lia| |done|lia]. split; [|done]. apply block_insert; [done|rewrite length_app; cbn; lia].
Qed.
(** A block and a NUL behind it. *)
Lemma copy_terminated {A} m d q l (k : M memory A) : block m q l -> writable m d (Z.of_nat (length l) + 1) -> upwards d q (Z.of_nat (length l)) ->
  (memcpy d q (Z.of_nat (length l));; store (u32 (d + Z.of_nat (length l))) 0;; k) m = k (write d (l ++ [0]) m).
Proof.
  intros Hb Hw Hu. pose proof Hw as (Hw1 & Hw2 & Hw3). unfold memcpy. rewrite Nat2Z.id. rewrite (bind_run _ _ m d (write d l m)).
  - rewrite u32_small, write_app by lia. cbn [write]. rewrite (bind_run _ _ _ _ _ (store_run _ 0 _ (write_is_Some _ _ _ _ (Hw3 (d + Z.of_nat (length l)) ltac:(lia))))). done.
  - rewrite (bind_run _ _ _ _ _ (copy_up_run l m d q Hb ltac:(split_and!; [lia|lia|intros; apply Hw3; lia]) Hu)). done.
Qed.
Lemma strlcpy_run m d q s (n : nat) : text m q s -> writable m d (Z.of_nat (length (take n s)) + 1) -> upwards d q (Z.of_nat (length (take n s))) ->
  strlcpy d q (Z.of_nat (S n)) m = Some (Z.of_nat (length s), write d (take n s ++ [0]) m).
Proof.
  intros Hs Hw Hu. unfold strlcpy. rewrite (bind_run _ _ _ _ _ (strlen_run _ _ _ Hs)). destruct Hs as [Hb _]. apply block_app in Hb as [Hb _]. change (truth (Z.of_nat (S n))) with true. cbn [when].
  replace (if Z.of_nat (S n) <=? Z.of_nat (length s) then Z.of_nat (S n) - 1 else Z.of_nat (length s)) with (Z.of_nat (length (take n s))).
  - pose proof (copy_terminated m d q (take n s) (ret tt) (block_take _ _ _ n Hb) Hw Hu) as E. rewrite (bind_run _ _ m tt (write d (take n s ++ [0]) m)); [done|].
    etransitivity; [|exact E]. unfold bind, ret. destruct (memcpy _ _ _ m) as [[? m1]|]; [|done]. by destruct (store _ _ m1) as [[[] ?]|].
  - rewrite length_take. destruct (Z.leb_spec (Z.of_nat (S n)) (Z.of_nat (length s))); lia.
Qed.
Lemma strlcat_run m d a q s (n : nat) : text m d a -> text m q s -> 
  let e := d + Z.of_nat (length a) in
  writable m e (Z.of_nat (length (take n s)) + 1) -> upwards e q (Z.of_nat (length (take n s))) -> Z.of_nat (length a) + Z.of_nat (length s) < 2 ^ 32 ->
  strlcat d q (Z.of_nat (length a + S n)) m = Some (Z.of_nat (length a + length s), write e (take n s ++ [0]) m).
Proof.
  intros Ha Hs e Hw Hu Hr. unfold strlcat. pose proof (text_size _ _ _ Ha) as Hz. rewrite (bind_run _ _ _ _ _ (strlen_run _ _ _ Ha)), (bind_run _ _ _ _ _ (strlen_run _ _ _ Hs)). cbv zeta.
  rewrite (proj2 (Z.leb_gt _ _)) by lia. cbn [when]. rewrite (bind_run _ _ m tt m eq_refl).
  rewrite (u32_small (Z.of_nat (length a) + Z.of_nat (length s))), (u32_small (d + Z.of_nat (length a))) by lia.
  assert ((if Z.of_nat (length a + S n) - Z.of_nat (length a) <=? Z.of_nat (length s) then Z.of_nat (length a + S n) - Z.of_nat (length a) - 1 else Z.of_nat (length s)) = Z.of_nat (length (take n s))) as ->.
  { rewrite length_take. destruct (Z.leb_spec (Z.of_nat (length a + S n) - Z.of_nat (length a)) (Z.of_nat (length s))); lia. }
  destruct Hs as [Hb _]. apply block_app in Hb as [Hb _]. rewrite (copy_terminated m e q (take n s) _ (block_take _ _ _ n Hb) Hw Hu). unfold ret. do 2 f_equal. lia.
Qed.
Lemma strlcat_bug m d a q s count : text m d a -> text m q s -> count <= Z.of_nat (length a) -> strlcat d q count m = None.
Proof.
  intros Ha Hs Hc. unfold strlcat. rewrite (bind_run _ _ _ _ _ (strlen_run _ _ _ Ha)), (bind_run _ _ _ _ _ (strlen_run _ _ _ Hs)). cbv zeta. by rewrite (proj2 (Z.leb_le _ _)) by lia.
Qed.
Lemma strsep_run m p s a t : 0 < p -> text m p s -> text m a t ->
  strsep p a m = Some (match index (member t) s with None => (0, p, m) | Some i => (p + i + 1, p, <[p + i := 0]> m) end).
Proof.
  intros Hp Hs Ht. unfold strsep. replace (p =? 0) with false by lia. rewrite (bind_run _ _ _ _ _ (strpbrk_run _ _ _ _ _ Hs Ht)). pose proof (text_size _ _ _ Hs) as Hz.
  destruct (index (member t) s) as [i|] eqn:Ei; cbn [ptr]; [|done]. apply index_bound in Ei. unfold truth. replace (p + i =? 0) with false by lia. cbn [negb].
  destruct Hs as [[_ Hb] _]. destruct (lookup_lt_is_Some_2 (s ++ [0]) (Z.to_nat i)) as [x Hx]; [rewrite length_app; lia|]. apply Hb in Hx. rewrite Z2Nat.id in Hx by lia.
  rewrite (bind_run _ _ _ _ _ (store_run _ 0 _ (ex_intro _ x Hx))). unfold ret, next. rewrite u32_small by lia. done.
Qed.
Lemma strnlen_len m s : forall fuel p count n, block m p (s ++ [0]) -> Forall is_char s -> (length s < fuel)%nat -> 0 <= count ->
  strnlen_loop fuel count p n m = Some (n + Z.min count (Z.of_nat (length s)), m).
Proof.
  induction s as [|x s IH]; intros [|fuel] p count n Hb Hs Hf Hc; cbn in Hf; try lia; cbn [strnlen_loop app] in *;
    (destruct (Z.eqb_spec count 0) as [->|]; [unfold ret; do 2 f_equal; lia|]); apply block_cons in Hb as (E & En & Hb); rewrite (bind_run _ _ _ _ _ (load_run _ _ _ E)).
  - rewrite Z.eqb_refl. unfold ret. do 2 f_equal. cbn [length]. lia.
  - apply Forall_cons in Hs as [[Hx _] Hs]. replace (x =? 0) with false by lia. fold (next p). rewrite En, IH by (done || lia). do 2 f_equal. cbn [length]. lia.
Qed.

(** ** Theorems *)

(** C25. Strings: on strings in memory, none of the searches and comparisons
    of lib/string.c leaves the strings or changes memory, and each gives what
    the lists of characters say: lengths, first and last places of a character,
    spans, the first occurrence of a string, the cut of [strsep], and the
    comparisons.  [strcmp] is zero exactly for equal strings and orders
    strings of ASCII characters like [memcmp]; [strncmp] and [memcmp] compute
    the functions on lists the bridge is modelled with. *)
Theorem string_searches_correct m p s q t : 0 < p -> text m p s -> text m q t -> Z.of_nat (length s) < 2 ^ 31 -> Z.of_nat (length t) < 2 ^ 31 ->
  let len := Z.of_nat (length s) in
  strlen p m = Some (len, m) /\ (forall n, 0 <= n -> strnlen p n m = Some (Z.min n len, m)) /\
  (forall c, strchr p c m = Some (ptr p (index (fun x => x =? u8 c) (s ++ [0])), m) /\
    strrchr p c m = Some (match index (fun x => x =? u8 c) (rev (s ++ [0])) with Some i => p + len - i | None => 0 end, m) /\
    forall n, strnchr p (Z.of_nat n) c m = Some (ptr p (index (fun x => x =? u8 c) (take n s)), m)) /\
  strspn p q m = Some (default len (index (fun x => negb (member t x)) s), m) /\ strcspn p q m = Some (default len (index (member t) s), m) /\
  strpbrk p q m = Some (ptr p (index (member t) s), m) /\
  strsep p q m = Some (match index (member t) s with None => (0, p, m) | Some i => (p + i + 1, p, <[p + i := 0]> m) end) /\
  strstr p q m = Some (ptr p (find_sub t s), m) /\
  (exists r, strcmp p q m = Some (r, m) /\ (r = 0 <-> s = t) /\
    (Forall (fun c => 0 < c < 128) s -> Forall (fun c => 0 < c < 128) t -> r = LibString.memcmp (s ++ [0]) (t ++ [0]) (S (length s)))) /\
  (forall n, strncmp p q (Z.of_nat n) m = Some (BridgeIf.strncmp s t n, m) /\
    exists r, strnicmp p q (Z.of_nat n) m = Some (r, m) /\ (r = 0 <-> tolower <$> take n s = tolower <$> take n t)) /\
  (forall n, (n <= length s)%nat -> (n <= length t)%nat -> memcmp p q (Z.of_nat n) m = Some (LibString.memcmp s t n, m)) /\
  (forall c, memchr p c len m = Some (ptr p (index (Z.eqb (u8 c)) s), m) /\ memscan p c len m = Some (p + default len (index (fun x => x =? u8 c) s), m)).
Proof.
  intros Hp Hs Ht Hl Hl' len. pose proof (strpbrk_run _ _ _ _ _ Hs Ht) as Hbrk. pose proof (strsep_run _ _ _ _ _ Hp Hs Ht) as Hsep. pose proof (strlen_run _ _ _ Hs) as Hlen. pose proof (strlen_run _ _ _ Ht) as Hlen'.
  pose proof (text_size _ _ _ Hs) as Hz. pose proof Hs as [Hb Hc]. pose proof Ht as [Hb' Hc']. pose proof (block_app _ _ _ _ Hb) as [Hbs _]. pose proof (block_app _ _ _ _ Hb') as [Hbt _].
  repeat (refine (conj _ _); [first [exact Hlen | exact Hbrk | exact Hsep | idtac]|]).
  - intros n Hn. unfold strnlen. rewrite (bind_run _ _ _ _ _ (fuel_run m)). rewrite (strnlen_len _ s) by (done || lia). done.
  - intros c. split; [apply strchr_run; [done|done|lia]|]. split; [|intros n; unfold strnchr; rewrite Nat2Z.id; by apply strnchr_run].
    unfold strrchr. rewrite (bind_run _ _ _ _ _ Hlen), (bind_run _ _ _ _ _ (fuel_run m)), u32_small by lia. apply strrchr_run; [done|done|lia].
  - unfold strspn. rewrite (bind_run _ _ _ _ _ (fuel_run m)), (span_run true m q t s Ht) by (done || lia). rewrite Z.add_0_l. do 2 f_equal. f_equal. apply index_ext. intros x. by destruct (member t x).
  - unfold strcspn. rewrite (bind_run _ _ _ _ _ (fuel_run m)), (span_run false m q t s Ht) by (done || lia). rewrite Z.add_0_l. do 2 f_equal. f_equal. apply index_ext. intros x. by destruct (member t x).
  - unfold strstr. rewrite (bind_run _ _ _ _ _ Hlen'). rewrite s32_small by lia. destruct t as [|y t]; [by rewrite find_sub_nil, ptr_0|].
    change (negb (truth (Z.of_nat (length (y :: t))))) with false. cbv zeta iota. rewrite (bind_run _ _ _ _ _ Hlen), s32_small, Nat2Z.id by (fold len; lia). by apply strstr_run.
  - exists (BridgeIf.strncmp s t (S (length s))). split_and!; [|by apply strncmp_zero; [..|lia]|intros; apply strncmp_ascii; [done..|lia]].
    unfold strcmp. rewrite (bind_run _ _ _ _ _ (fuel_run m)). apply strcmp_run; [done..|lia|lia].
  - intros n. unfold strncmp, strnicmp. rewrite Nat2Z.id. split; [by apply strncmp_run|by apply strnicmp_run].
  - intros n Hn Hn'. unfold memcmp. rewrite Nat2Z.id. by apply cmp_run.
  - intros c. unfold memchr, memscan, len. rewrite Nat2Z.id, u32_small by lia. split; [by apply memchr_run|by apply memscan_run].
Qed.

(** C24. Copies: with a destination that is writable for the bytes the result
    needs, the copying routines put exactly these bytes there and change no
    other byte: [memmove] also when the blocks overlap, [memcpy], [bcopy] and
    the string copies when no byte is overwritten before it is read.  The
    bounded copies never need more room than the bound says: [strncpy] fills it
    with NULs, [strlcpy], [strncat] and [strlcat] cut the text and terminate it,
    and the second and the last return the length they wanted; [strlcat] to a
    string that does not fit its bound is caught. *)
Theorem copies_stay_in_bounds m d q s : text m q s ->
  let len := Z.of_nat (length s) in
  (forall c n, writable m d (Z.of_nat n) -> memset d c (Z.of_nat n) m = Some (d, write d (replicate n (u8 c)) m)) /\
  (forall l, block m q l -> let n := Z.of_nat (length l) in writable m d n ->
    memmove d q n m = Some (d, write d l m) /\
    (upwards d q n -> memcpy d q n m = Some (d, write d l m) /\ bcopy q d n m = Some (tt, write d l m))) /\
  (writable m d (len + 1) -> upwards d q (len + 1) -> strcpy d q m = Some (d, write d (s ++ [0]) m)) /\
  (forall n, writable m d (Z.of_nat n) -> apart d (Z.of_nat n) q (len + 1) -> strncpy d q (Z.of_nat n) m = Some (d, write d (take n (s ++ replicate n 0)) m)) /\
  (strlcpy d q 0 m = Some (len, m) /\ forall n, let k := Z.of_nat (length (take n s)) in
    writable m d (k + 1) -> upwards d q k -> strlcpy d q (Z.of_nat (S n)) m = Some (len, write d (take n s ++ [0]) m)) /\
  (forall a, text m d a -> let e := d + Z.of_nat (length a) in
    (writable m e (len + 1) -> upwards e q (len + 1) -> strcat d q m = Some (d, write e (s ++ [0]) m)) /\
    strncat d q 0 m = Some (d, m) /\
    (forall n, let k := Z.of_nat (length (take (S n) s)) in writable m e (k + 1) -> upwards e q (len + 1) ->
      strncat d q (Z.of_nat (S n)) m = Some (d, write e (take (S n) s ++ [0]) m)) /\
    (forall count, count <= Z.of_nat (length a) -> strlcat d q count m = None) /\
    (forall n, let k := Z.of_nat (length (take n s)) in writable m e (k + 1) -> upwards e q k -> Z.of_nat (length a) + len < 2 ^ 32 ->
      strlcat d q (Z.of_nat (length a + S n)) m = Some (Z.of_nat (length a + length s), write e (take n s ++ [0]) m))).
Proof.
  intros Hs len. pose proof (text_size _ _ _ Hs) as Hz. pose proof Hs as [Hb Hc]. repeat refine (conj _ _).
  - intros c n Hw. unfold memset. rewrite Nat2Z.id. by rewrite (bind_run _ _ _ _ _ (set_run c n m d Hw)).
  - intros l Hl n Hw. unfold memmove, memcpy, bcopy, n. rewrite Nat2Z.id. split; [|intros Hu; by rewrite (bind_run _ _ _ _ _ (copy_up_run l m d q Hl Hw Hu)), copy_up_run].
    destruct (Z.leb_spec d q) as [Hd|Hd]; [by rewrite (bind_run _ _ _ _ _ (copy_up_run l m d q Hl Hw (or_introl Hd)))|]. pose proof Hw as (Hw1 & Hw2 & _). pose proof Hl as [Hr _].
    rewrite !u32_small by (unfold n in *; lia). by rewrite (bind_run _ _ _ _ _ (copy_down_run l m d q Hl Hw ltac:(lia))).
  - intros Hw Hu. unfold strcpy. rewrite (bind_run _ _ _ _ _ (fuel_run m)). by rewrite (bind_run _ _ _ _ _ (strcpy_run s m (S (size m)) d q Hb Hc Hw Hu ltac:(lia))).
  - intros n Hw Ha. unfold strncpy. rewrite Nat2Z.id. by rewrite (bind_run _ _ _ _ _ (strncpy_run n n m s d q ltac:(lia) Hs Hw Ha)).
  - unfold strlcpy. by rewrite (bind_run _ _ _ _ _ (strlen_run _ _ _ Hs)).
  - intros n k Hw Hu. by apply strlcpy_run.
  - intros a Ha e. pose proof (text_nul _ _ _ Ha) as Hn. repeat refine (conj _ _); try done.
    + intros Hw Hu. unfold strcat. rewrite (bind_run _ _ _ _ _ (fuel_run m)), (bind_run _ _ _ _ _ Hn). by rewrite (bind_run _ _ _ _ _ (strcpy_run s m (S (size m)) _ q Hb Hc Hw Hu ltac:(lia))).
    + intros n k Hw Hu. unfold strncat. change (truth (Z.of_nat (S n))) with true. cbn [when]. rewrite Nat2Z.id. rewrite (bind_run _ _ m tt (write e (take (S n) s ++ [0]) m)); [done|].
      rewrite (bind_run _ _ _ _ _ (fuel_run m)), (bind_run _ _ _ _ _ Hn). by apply strncat_run; [lia|..].
    + intros count Hcount. by eapply strlcat_bug.
    + intros n k Hw Hu Hr. by apply strlcat_run.
Qed.

(** ** Witnesses *)
Definition block_check (m : memory) (p : Z) (l : list Z) : bool :=
  (0 <=? p) && (p + Z.of_nat (length l) <? 2 ^ 32) && forallb (fun i => bool_decide (m !! (p + Z.of_nat i) = l !! i)) (seq 0 (length l)).
Lemma block_checked m p l : block_check m p l = true -> block m p l.
Proof.
  unfold block_check. rewrite !andb_true_iff, forallb_forall. intros [[H1 H2] H3]. split; [lia|]. intros i x Hx. rewrite <- Hx. pose proof (lookup_lt_Some _ _ _ Hx). specialize (H3 i ltac:(apply in_seq; lia)). by apply bool_decide_eq_true in H3.
Qed.
Lemma text_checked m p s : block_check m p (s ++ [0]) && forallb (fun c => (0 <? c) && (c <? 256)) s = true -> text m p s.
Proof.
  rewrite andb_true_iff. intros [H1 H2]. split; [by apply block_checked|]. apply Forall_forall. rewrite forallb_forall in H2. intros c Hc. apply list_elem_of_In, H2 in Hc. unfold is_char. lia.
Qed.
Lemma writable_checked m d n : (0 <=? d) && (d + Z.of_nat n <? 2 ^ 32) && forallb (fun i => bool_decide (is_Some (m !! (d + Z.of_nat i)))) (seq 0 n) = true -> writable m d (Z.of_nat n).
Proof.
  rewrite !andb_true_iff, forallb_forall. intros [[H1 H2] H3]. split_and!; [lia|lia|]. intros a Ha. replace a with (d + Z.of_nat (Z.to_nat (a - d))) by lia. specialize (H3 (Z.to_nat (a - d)) ltac:(apply in_seq; lia)). by apply bool_decide_eq_true in H3.
Qed.

(** "ab,ba,c" at 64 and ",;" at 32. *)
Definition sample : memory := write 64 [97; 98; 44; 98; 97; 44; 99; 0] (write 32 [44; 59; 0] ∅).
Lemma string_searches_correct_witness : strcspn 64 32 sample = Some (2, sample) /\ strrchr 64 44 sample = Some (69, sample) /\
  strsep 64 32 sample = Some (67, 64, <[66 := 0]> sample).
Proof.
  destruct (string_searches_correct sample 64 [97; 98; 44; 98; 97; 44; 99] 32 [44; 59]) as (_ & _ & Hc & _ & Hs & _ & Hp & _);
    [lia|by apply text_checked; vm_compute|by apply text_checked; vm_compute|cbn; lia|cbn; lia|].
  split; [exact Hs|]. split; [exact (proj1 (proj2 (Hc 44)))|exact Hp].
Defined.
(** An overlapping move, and a copy cut to four bytes. *)
Lemma copies_stay_in_bounds_witness : memmove 66 64 5 sample = Some (66, write 66 [97; 98; 44; 98; 97] sample) /\
  strlcpy 32 64 3 sample = Some (7, write 32 [97; 98; 0] sample).
Proof.
  assert (text sample 64 [97; 98; 44; 98; 97; 44; 99]) as Ht by (apply text_checked; by vm_compute).
  destruct (copies_stay_in_bounds sample 66 64 [97; 98; 44; 98; 97; 44; 99] Ht) as (_ & Hm & _).
  destruct (copies_stay_in_bounds sample 32 64 [97; 98; 44; 98; 97; 44; 99] Ht) as (_ & _ & _ & _ & [_ Hc] & _).
  split; [exact (proj1 (Hm [97; 98; 44; 98; 97] ltac:(apply block_checked; by vm_compute) ltac:(apply (writable_checked _ _ 5); by vm_compute)))|].
  apply (Hc 2%nat); [apply (writable_checked _ _ 3); by vm_compute|left; lia].
Defined.

(** The difference of two characters is cut to a [signed char], so that with
    characters from 128 on the order is not transitive. *)
Lemma strcmp_not_transitive : exists m,
  (text m 0 [0x10] /\ text m 8 [0x60] /\ text m 16 [0xc0]) /\ strcmp 0 8 m = Some (-80, m) /\ strcmp 8 16 m = Some (-96, m) /\ strcmp 0 16 m = Some (80, m).
Proof.
  exists (write 0 [0x10; 0] (write 8 [0x60; 0] (write 16 [0xc0; 0] ∅))). split; [split_and!; apply text_checked; by vm_compute|]. split_and!; by vm_compute.
Qed.
