(* ===== verification/BitmapText.v ===== *)
(** * lib/bitmap.c: bit maps as text

    [bitmap_scnprintf] writes a map as groups of hexadecimal digits with
    [scnprintf], and [bitmap_parse] reads such a text from user memory.  The
    maps are in the memory of LibBitmap and the text in that of LibVsprintf.
    Here is the code, what it writes, and that the second undoes the first. *)
From Stdlib Require Import Ascii.
From Stdlib Require Import String.
From S2P Require Import Prelude.
From S2P Require Import BitOps.
From S2P Require Import LibBitmap.
From S2P Require Import LibVsprintf.
From S2P Require Import VsprintfProof.
From S2P Require Import VsprintfTheorems.
From S2P Require Import LibBitmapTheorems.

Definition CHUNKSZ : Z := 32.
Definition EOVERFLOW : Z := 79.
Definition nbits_to_hold_value (val : Z) : Z := generic_fls val.
Definition roundup_power2 (val modulus : Z) : Z := Z.land (val + modulus - 1) (Z.lnot (modulus - 1)).
Definition unhex (c : Z) : Z := if isdigit c then c - chr "0" else toupper c - chr "A" + 10.

Section Scnprintf.
(** The addresses of "<NULL>", of the empty string and of ","; the order of the
    bytes; the map. *)
Context (null_string empty comma : Z) (little : bool) (maps : list (list Z)) (maskp : nat).

Fixpoint scn_loop (fuel : nat) (buf buflen i chunksz sep len : Z) : M memory Z :=
  if i <? 0 then ret len else
  match fuel with
  | O => oops
  | S fuel =>
      let chunkmask := u32 (Z.shiftl 1 chunksz - 1) in
      let val := Z.land (Z.shiftr (LibBitmap.word maps maskp (Z.to_nat (i / 32))) (i mod 32)) chunkmask in
      n ← scnprintf null_string little (u32 (buf + len)) (u32 (buflen - len)) (bytes "%s%0*lx") [VWord sep; VWord ((chunksz + 3) / 4); VWord val];
      scn_loop fuel buf buflen (i - CHUNKSZ) CHUNKSZ comma (len + n)
  end.
Definition bitmap_scnprintf (buf buflen nmaskbits : Z) : M memory Z :=
  let chunksz := Z.land nmaskbits (CHUNKSZ - 1) in
  let chunksz := if chunksz =? 0 then CHUNKSZ else chunksz in
  let i := roundup_power2 nmaskbits CHUNKSZ - CHUNKSZ in
  scn_loop (BITS_TO_LONGS nmaskbits) buf buflen i chunksz empty 0.
End Scnprintf.

Definition bitmap_zero (m : list (list Z)) (p : nat) (nbits : Z) : list (list Z) :=
  if nbits <=? 32 then set_word m p 0 0 else clear_words p 0 (BITS_TO_LONGS nbits) m.

(** Where the reading of a text stands: the last character and the numbers
    [totaldigits], [chunk] and [ndigits]. *)
Record parse_state := { sc_c : Z; sc_total : Z; sc_chunk : Z; sc_ndigits : Z }.
(** The inner loop.  [ubuf] is user memory as far as it can be read, [ubuflen]
    the bytes left; an error, or the rest of both. *)
Fixpoint chunk_loop (ubuflen : nat) (ubuf : list Z) (st : parse_state) : Z + parse_state * list Z * nat :=
  match ubuflen with
  | O => inr (st, ubuf, O)
  | S ubuflen =>
      match ubuf with
      | [] => inl (- EFAULT)
      | c :: ubuf =>
          let old_c := sc_c st in
          let st := {| sc_c := c; sc_total := sc_total st; sc_chunk := sc_chunk st; sc_ndigits := sc_ndigits st |} in
          if isspace c then chunk_loop ubuflen ubuf st
          else if truth (sc_total st) && truth c && isspace old_c then inl (- EINVAL)
          else if (c =? 0) || (c =? chr ",") then inr (st, ubuf, ubuflen)
          else if negb (isxdigit c) then inl (- EINVAL)
          else if truth (Z.land (sc_chunk st) (u32 (Z.lnot (Z.shiftl 1 (CHUNKSZ - 4) - 1)))) then inl (- EOVERFLOW)
          else chunk_loop ubuflen ubuf
            {| sc_c := c; sc_total := sc_total st + 1; sc_chunk := Z.lor (u32 (Z.shiftl (sc_chunk st) 4)) (unhex c); sc_ndigits := sc_ndigits st + 1 |}
      end
  end.
(** The outer loop; the result and the maps. *)
Fixpoint parse_loop (fuel : nat) (ubuflen : nat) (ubuf : list Z) (maskp : nat) (nmaskbits c totaldigits nchunks nbits : Z) (m : list (list Z)) : option (Z * list (list Z)) :=
  match fuel with
  | O => None
  | S fuel =>
      match chunk_loop ubuflen ubuf {| sc_c := c; sc_total := totaldigits; sc_chunk := 0; sc_ndigits := 0 |} with
      | inl e => Some (e, m)
      | inr (st, ubuf, ubuflen) =>
          let more := negb (Nat.eqb ubuflen 0) && (sc_c st =? chr ",") in
          if sc_ndigits st =? 0 then Some (- EINVAL, m)
          else if (nchunks =? 0) && (sc_chunk st =? 0) then
            if more then parse_loop fuel ubuflen ubuf maskp nmaskbits (sc_c st) (sc_total st) nchunks nbits m else Some (0, m)
          else
            let m := __bitmap_shift_left m maskp maskp CHUNKSZ nmaskbits in
            let m := set_word m maskp 0 (Z.lor (LibBitmap.word m maskp 0) (sc_chunk st)) in
            let nchunks := nchunks + 1 in
            let nbits := nbits + (if nchunks =? 1 then nbits_to_hold_value (sc_chunk st) else CHUNKSZ) in
            if nmaskbits <? nbits then Some (- EOVERFLOW, m)
            else if more then parse_loop fuel ubuflen ubuf maskp nmaskbits (sc_c st) (sc_total st) nchunks nbits m else Some (0, m)
      end
  end.
Definition bitmap_parse (ubuf : list Z) (ubuflen : Z) (m : list (list Z)) (maskp : nat) (nmaskbits : Z) : option (Z * list (list Z)) :=
  parse_loop (S (Z.to_nat ubuflen)) (Z.to_nat ubuflen) ubuf maskp nmaskbits 0 0 0 0 (bitmap_zero m maskp nmaskbits).

(** ** The text of a map *)
Definition hex (width v : Z) : list Z := VsprintfProof.fill (chr "0") width (numeral false 16 v) ++ numeral false 16 v.
(** Chunks [n - 1], ..., [0] of the values [x]. *)
Fixpoint chunks_text (sep : list Z) (width : Z) (n : nat) (x : nat -> Z) : list Z :=
  match n with O => [] | S n => sep ++ hex width (x n) ++ chunks_text (bytes ",") 8 n x end.
Definition top_bits (nmaskbits : Z) : Z := if nmaskbits mod 32 =? 0 then 32 else nmaskbits mod 32.
Definition chunk_value (m : list (list Z)) (p : nat) (nmaskbits : Z) (k : nat) : Z :=
  Z.land (LibBitmap.word m p k) (Z.ones (if Nat.eqb k (BITS_TO_LONGS nmaskbits - 1) then top_bits nmaskbits else 32)).
Definition bitmap_text (m : list (list Z)) (p : nat) (nmaskbits : Z) : list Z :=
  chunks_text [] ((top_bits nmaskbits + 3) / 4) (BITS_TO_LONGS nmaskbits) (chunk_value m p nmaskbits).

(** ** What [bitmap_scnprintf] writes *)
Definition chunk_items : list item :=
  [Dir {| d_flags := []; d_width := NoWidth; d_prec := NoPrec; d_qual := QNone; d_conv := Cstr |};
   Dir {| d_flags := [FZero]; d_width := StarWidth; d_prec := NoPrec; d_qual := Ql; d_conv := Chex false |}].
Lemma chunk_render null ro p s width v : PAGE_SIZE <= p < 2 ^ 32 -> read_string (S (size ro)) ro (2 ^ 32 - 1) p = Some s -> 0 <= width < 2 ^ 31 -> 0 <= v < 2 ^ 32 ->
  render null ro chunk_items [VWord p; VWord width; VWord v] = Some (s ++ hex width v).
Proof.
  intros Hp Hs Hw Hv. unfold chunk_items. cbn [render render_item width_arg prec_arg d_width d_prec d_flags d_qual d_conv render_conv VsprintfProof.word]. rewrite (u32_small p) by (unfold PAGE_SIZE in *; lia).
  replace (p <? PAGE_SIZE) with false by lia. change (u32 (-1)) with (2 ^ 32 - 1). rewrite Hs. rewrite s32_small by lia. replace (width =? - 2 ^ 31) with false by lia.
  cbn [render_int int_arg get_fmt flagged existsb orb]. rewrite (u32_small v) by lia.
  replace (width <? 0) with false by lia. rewrite (Z.abs_eq width) by lia.
  assert (forall c l, VsprintfProof.fill c (-1) l = []) as F by (intros; unfold VsprintfProof.fill; by rewrite Z2Nat.nonpos by lia).
  unfold format_number, justify, get_fmt. cbn [flagged existsb orb nf_left nf_zero nf_hash nf_plus nf_space app]. by rewrite Z.abs_eq, !F, app_nil_r by lia.
Qed.
(** One text after another, each cut and terminated. *)
Lemma write_printed buf size a b m : 0 < size ->
  let r := Z.min (Z.of_nat (length a)) (size - 1) in
  write (buf + r) (printed (size - r) b) (write buf (printed size a) m) = write buf (printed size (a ++ b)) m.
Proof.
  intros Hs r. unfold printed. rewrite !(proj2 (Z.eqb_neq _ _)) by lia. destruct (Z.le_gt_cases (Z.of_nat (length a)) (size - 1)) as [Hl|Hl].
  - replace r with (Z.of_nat (length a)) by lia. rewrite (firstn_all2 a) by lia. rewrite take_app, (firstn_all2 a) by lia. rewrite <- app_assoc, !(write_app buf a). cbn [write].
    replace (Z.to_nat (size - 1) - length a)%nat with (Z.to_nat (size - Z.of_nat (length a) - 1)) by lia.
    destruct (take _ b ++ [0]) as [|c l] eqn:E; [by destruct (take _ b)|]. cbn [write]. by rewrite insert_insert_eq.
  - replace r with (size - 1) by lia. replace (size - (size - 1) - 1) with 0 by lia. rewrite take_app_le by lia. change (take (Z.to_nat 0) b ++ [0]) with [0].
    rewrite !write_app. cbn [write]. rewrite length_take. replace (buf + Z.of_nat (Nat.min (Z.to_nat (size - 1)) (length a))) with (buf + (size - 1)) by lia. by rewrite insert_insert_eq.
Qed.
Lemma length_hex width v : 0 <= width <= 8 -> (length (hex width v) <= 72)%nat.
Proof.
  intros Hw. unfold hex, VsprintfProof.fill. rewrite length_app, length_replicate. unfold numeral. rewrite length_fmap. unfold to_digits.
  destruct (v =? 0); [cbn; lia|]. rewrite length_rev. pose proof (length_digits 64 16 v). lia.
Qed.
Lemma chunks_text_ext sep width n x y : (forall k, (k < n)%nat -> x k = y k) -> chunks_text sep width n x = chunks_text sep width n y.
Proof. revert sep width. induction n as [|n IH]; intros sep width E; [done|]. cbn [chunks_text]. rewrite E by lia. f_equal. f_equal. apply IH. auto with lia. Qed.

Lemma chunk_mask c : 1 <= c <= 32 -> u32 (Z.shiftl 1 c - 1) = Z.ones c.
Proof.
  intros Hc. rewrite Z.ones_equiv, Z.shiftl_1_l. apply u32_small. assert (0 < 2 ^ c) by (apply Z.pow_pos_nonneg; lia). assert (2 ^ c <= 2 ^ 32) by (apply Z.pow_le_mono_r; lia). lia.
Qed.
Lemma chunk_place m p n : Z.shiftr (LibBitmap.word m p (Z.to_nat (32 * Z.of_nat n / 32))) (32 * Z.of_nat n mod 32) = LibBitmap.word m p n.
Proof. rewrite Z.mul_comm, Z.div_mul, Z.mod_mul, Nat2Z.id by lia. apply Z.shiftr_0_r. Qed.
Lemma masked_range w c : 1 <= c <= 32 -> 0 <= Z.land w (Z.ones c) < 2 ^ 32.
Proof.
  intros Hc. rewrite Z.land_ones by lia. assert (2 ^ c <= 2 ^ 32) by (apply Z.pow_le_mono_r; lia). pose proof (Z.mod_pos_bound w (2 ^ c) ltac:(apply Z.pow_pos_nonneg; lia)). lia.
Qed.

Lemma round_chunks nm : 0 < nm -> exists n : nat, BITS_TO_LONGS nm = S n /\ roundup_power2 nm CHUNKSZ - CHUNKSZ = 32 * Z.of_nat n /\ 32 * Z.of_nat n + top_bits nm = nm /\ 1 <= top_bits nm <= 32.
Proof.
  intros Hnm. exists (BITS_TO_LONGS nm - 1)%nat. assert (Z.of_nat (BITS_TO_LONGS nm) = (nm + 31) / 32) as E by (unfold BITS_TO_LONGS; lia).
  assert (roundup_power2 nm CHUNKSZ = 32 * ((nm + 31) / 32)) as ->.
  { unfold roundup_power2, CHUNKSZ. replace (nm + 32 - 1) with (nm + 31) by lia. change (32 - 1) with (Z.ones 5). rewrite <- Z.ldiff_land, Z.ldiff_ones_r, Z.shiftl_mul_pow2, Z.shiftr_div_pow2 by lia. change (2 ^ 5) with 32. lia. }
  unfold CHUNKSZ, top_bits. destruct (Z.eqb_spec (nm mod 32) 0); lia.
Qed.
Lemma first_chunk nm : 0 < nm -> (if Z.land nm (CHUNKSZ - 1) =? 0 then CHUNKSZ else Z.land nm (CHUNKSZ - 1)) = top_bits nm.
Proof. intros H. unfold CHUNKSZ, top_bits. change (32 - 1) with (Z.ones 5). by rewrite Z.land_ones by lia. Qed.

Section Print.
Context (null empty comma : Z) (little : bool) (maps : list (list Z)) (maskp : nat) (buf buflen : Z) (ro : memory).
Context (Hbuf : 0 < buf) (Hlen : 0 < buflen < 2 ^ 31) (Hend : buf + buflen + 80 <= 2 ^ 32).
Context (Hout : forall a, buf <= a < buf + buflen -> ro !! a = None).
Context (Hempty : PAGE_SIZE <= empty < 2 ^ 32 /\ ro !! empty = Some 0) (Hcomma : PAGE_SIZE <= comma < 2 ^ 32 - 1 /\ ro !! comma = Some (chr ",") /\ ro !! (comma + 1) = Some 0).

Lemma read_empty : read_string (S (size ro)) ro (2 ^ 32 - 1) empty = Some [].
Proof. destruct Hempty as [_ E]. cbn [read_string]. by rewrite E. Qed.
Lemma read_comma : read_string (S (size ro)) ro (2 ^ 32 - 1) comma = Some (bytes ",").
Proof.
  destruct Hcomma as (Hr & E & E'). assert (size ro <> O) as Hs. { intros Hz. apply map_size_empty_iff in Hz as ->. by rewrite lookup_empty in E. }
  destruct (size ro) as [|n]; [done|]. cbn [read_string]. rewrite E. change (chr "," =? 0) with false. rewrite u32_small by (unfold PAGE_SIZE in *; lia). rewrite E'. done.
Qed.

(** The state of the buffer between two calls. *)
Definition buffer_ok (m : memory) : Prop := (forall a, buf <= a < buf + buflen -> is_Some (m !! a)) /\ ro ⊆ m.
Lemma buffer_written m len l : buffer_ok m -> 0 <= len -> len + Z.of_nat (length l) <= buflen -> buffer_ok (write (buf + len) l m).
Proof.
  intros [H1 H2] H0 Hl. split; [intros a Ha; by apply write_is_Some, H1|]. apply map_subseteq_spec. intros a x Ha.
  rewrite write_lookup_out; [by eapply lookup_weaken|]. destruct (decide (buf <= a < buf + buflen)) as [Hin|Hin]; [rewrite Hout in Ha by done; done|lia].
Qed.
Lemma chunk_print m len sep s width v : buffer_ok m -> 0 <= len < buflen -> PAGE_SIZE <= sep < 2 ^ 32 -> read_string (S (size ro)) ro (2 ^ 32 - 1) sep = Some s -> (length s <= 1)%nat ->
  0 <= width <= 8 -> 0 <= v < 2 ^ 32 ->
  scnprintf null little (u32 (buf + len)) (u32 (buflen - len)) (bytes "%s%0*lx") [VWord sep; VWord width; VWord v] m =
    Some (Z.min (Z.of_nat (length (s ++ hex width v))) (buflen - len - 1), write (buf + len) (printed (buflen - len) (s ++ hex width v)) m).
Proof.
  intros [Hb Hro] Hl Hp Hs Hls Hw Hv. rewrite !u32_small by lia. pose proof (length_hex width v Hw) as Hh. unfold scnprintf. change (bytes "%s%0*lx") with (show chunk_items).
  erewrite bind_run; [|apply (vsnprintf_run _ _ _ _ _ _ _ ro (s ++ hex width v)); try lia; try done].
  - unfold ret. rewrite scn_result by (rewrite ?length_app; lia). done.
  - intros a Ha. apply Hb. lia.
  - intros a Ha. apply Hout. lia.
  - repeat constructor.
  - apply chunk_render; [done|done|lia|done].
  - rewrite length_app. lia.
  - rewrite length_app. lia.
Qed.
Lemma scn_loop_run n : forall fuel m len chunksz sep s, (n < fuel)%nat -> buffer_ok m -> 0 <= len < buflen -> 1 <= chunksz <= 32 ->
  PAGE_SIZE <= sep < 2 ^ 32 -> read_string (S (size ro)) ro (2 ^ 32 - 1) sep = Some s -> (length s <= 1)%nat ->
  let text := chunks_text s ((chunksz + 3) / 4) (S n) (fun k => Z.land (LibBitmap.word maps maskp k) (Z.ones (if Nat.eqb k n then chunksz else 32))) in
  scn_loop null comma little maps maskp fuel buf buflen (32 * Z.of_nat n) chunksz sep len m =
    Some (len + Z.min (Z.of_nat (length text)) (buflen - len - 1), write (buf + len) (printed (buflen - len) text) m).
Proof.
  induction n as [|n IH]; intros [|fuel] m len chunksz sep s Hf Hb Hl Hc Hp Hs Hls text; try lia; cbn [scn_loop]; rewrite (proj2 (Z.ltb_ge _ 0)) by lia; cbv zeta;
    rewrite chunk_mask, chunk_place by lia; pose proof (masked_range (LibBitmap.word maps maskp (S n)) chunksz Hc) as Hv || pose proof (masked_range (LibBitmap.word maps maskp 0) chunksz Hc) as Hv;
    rewrite (bind_run _ _ _ _ _ (chunk_print m len sep s ((chunksz + 3) / 4) _ Hb Hl Hp Hs Hls ltac:(lia) Hv)).
  - assert (text = s ++ hex ((chunksz + 3) / 4) (Z.land (LibBitmap.word maps maskp 0) (Z.ones chunksz))) as -> by (unfold text; cbn [chunks_text Nat.eqb]; by rewrite app_nil_r). by destruct fuel.
  - set (a := s ++ hex _ _). set (r := Z.min (Z.of_nat (length a)) _). set (rest := chunks_text (bytes ",") 8 (S n) (fun k => Z.land (LibBitmap.word maps maskp k) (Z.ones (if Nat.eqb k n then 32 else 32)))).
    assert (text = a ++ rest) as ->.
    { change text with (s ++ hex ((chunksz + 3) / 4) (Z.land (LibBitmap.word maps maskp (S n)) (Z.ones (if Nat.eqb (S n) (S n) then chunksz else 32))) ++
        chunks_text (bytes ",") 8 (S n) (fun k => Z.land (LibBitmap.word maps maskp k) (Z.ones (if Nat.eqb k (S n) then chunksz else 32)))).
      rewrite Nat.eqb_refl, app_assoc. unfold a, rest. f_equal. apply chunks_text_ext. intros k Hk. by rewrite (proj2 (Nat.eqb_neq k (S n))) by lia; destruct (Nat.eqb k n). }
    replace (32 * Z.of_nat (S n) - CHUNKSZ) with (32 * Z.of_nat n) by (unfold CHUNKSZ; lia).
    assert (0 <= r <= buflen - len - 1) as Hr by lia.
    rewrite (IH fuel _ (len + r) 32 comma (bytes ",")); [|lia| |lia|lia|destruct Hcomma; lia|apply read_comma|done].
    + change ((32 + 3) / 4) with 8. fold rest. rewrite (Z.add_assoc buf len r). replace (buflen - (len + r)) with (buflen - len - r) by lia. pose proof (write_printed (buf + len) (buflen - len) a rest m ltac:(lia)) as Ew. cbv zeta in Ew. fold r in Ew. rewrite Ew.
      assert (len + r + Z.min (Z.of_nat (length rest)) (buflen - len - r - 1) = len + Z.min (Z.of_nat (length (a ++ rest))) (buflen - len - 1)) as -> by (rewrite length_app; lia). done.
    + apply buffer_written; [done|lia|]. unfold printed. rewrite (proj2 (Z.eqb_neq _ 0)) by lia. rewrite length_app, length_take. cbn [length]. lia.
Qed.
Lemma bitmap_scnprintf_run m nm : 0 < nm -> buffer_ok m ->
  let text := bitmap_text maps maskp nm in
  bitmap_scnprintf null empty comma little maps maskp buf buflen nm m = Some (Z.min (Z.of_nat (length text)) (buflen - 1), write buf (printed buflen text) m).
Proof.
  intros Hnm Hb text. unfold bitmap_scnprintf. cbv zeta. rewrite first_chunk by done. destruct (round_chunks nm Hnm) as (n & En & Ei & Et & Ht). rewrite En, Ei.
  rewrite (scn_loop_run n (S n) m 0 (top_bits nm) empty []); [|lia|done|lia|lia|destruct Hempty; lia|apply read_empty|cbn; lia].
  assert (text = chunks_text [] ((top_bits nm + 3) / 4) (S n) (fun k => Z.land (LibBitmap.word maps maskp k) (Z.ones (if Nat.eqb k n then top_bits nm else 32)))) as <-.
  { unfold text, bitmap_text, chunk_value. rewrite En. by replace (S n - 1)%nat with n by lia. }
  by rewrite Z.add_0_l, Z.add_0_r, Z.sub_0_r.
Qed.
End Print.

(** ** What [bitmap_parse] reads *)
Definition horner (v : Z) (ds : list Z) : Z := foldl (fun v d => v * 16 + d) v ds.
Lemma hex_digits width v : 0 <= v < 2 ^ 32 -> exists ds, hex width v = digit_char false <$> ds /\ Forall (fun d => 0 <= d < 16) ds /\ horner 0 ds = v /\ ds <> [].
Proof.
  intros Hv. destruct (to_digits_numeral 16 v ltac:(lia) ltac:(lia)) as [E1 E2 [E3 _]]. unfold hex, VsprintfProof.fill. set (k := Z.to_nat _). exists (replicate k 0 ++ to_digits 16 v). split_and!.
  - rewrite fmap_app, fmap_replicate. done.
  - apply Forall_app. split; [by apply Forall_replicate|done].
  - unfold horner. rewrite foldl_app. replace (foldl _ 0 (replicate k 0)) with 0; [done|]. induction k; [done|]. cbn. done.
  - intros [_ ?]%app_eq_nil. done.
Qed.
Lemma no_overflow c : 0 <= c < 2 ^ 28 -> Z.land c (u32 (Z.lnot (Z.shiftl 1 (CHUNKSZ - 4) - 1))) = 0.
Proof.
  intros Hc. change (u32 _) with (Z.shiftl 15 28). apply Z.bits_inj'. intros j Hj. rewrite Z.land_spec, Z.bits_0. destruct (Z.lt_ge_cases j 28); [rewrite (Z.shiftl_spec_low 15) by lia; apply andb_false_r|].
  rewrite <- (Z.mod_small c (2 ^ 28)) by lia. by rewrite Z.mod_pow2_bits_high by lia.
Qed.
Lemma next_digit c d : 0 <= c < 2 ^ 28 -> 0 <= d < 16 -> Z.lor (u32 (Z.shiftl c 4)) d = c * 16 + d.
Proof.
  intros Hc Hd. rewrite Z.shiftl_mul_pow2, u32_small by lia. change (2 ^ 4) with 16. rewrite <- Z.lxor_lor, <- Z.add_nocarry_lxor; [done|..];
    (apply Z.bits_inj'; intros j Hj; rewrite Z.land_spec, Z.bits_0; change 16 with (2 ^ 4); rewrite <- Z.shiftl_mul_pow2 by lia; destruct (Z.lt_ge_cases j 4); [by rewrite Z.shiftl_spec_low by lia|];
     rewrite <- (Z.mod_small d (2 ^ 4)) by lia; rewrite Z.mod_pow2_bits_high by lia; apply andb_false_r).
Qed.
Lemma digit_step d : 0 <= d < 16 -> let c := digit_char false d in
  isspace c = false /\ truth c = true /\ ((c =? 0) || (c =? chr ",") = false) /\ isxdigit c = true /\ unhex c = d.
Proof.
  intros Hd c. destruct (digit_char_facts false d Hd) as (Hc & Hx & _ & Hv & Hs). fold c in Hc, Hx, Hv, Hs. split_and!; [done| | |done|done].
  - unfold truth. lia.
  - destruct (Z.eqb_spec c (chr ",")) as [E|]; [by rewrite E in Hx|]. by replace (c =? 0) with false by lia.
Qed.
Lemma chunk_digits ds rest n : forall st, Forall (fun d => 0 <= d < 16) ds -> ds <> [] -> isspace (sc_c st) = false -> 0 <= sc_chunk st -> horner (sc_chunk st) ds < 2 ^ 32 ->
  exists c, isspace c = false /\ c <> chr "," /\ chunk_loop (length ds + n) ((digit_char false <$> ds) ++ rest) st =
    chunk_loop n rest {| sc_c := c; sc_total := sc_total st + Z.of_nat (length ds); sc_chunk := horner (sc_chunk st) ds; sc_ndigits := sc_ndigits st + Z.of_nat (length ds) |}.
Proof.
  induction ds as [|d ds IH]; intros st Hd Hne Hsp Hc Hlt; [done|]. apply Forall_cons in Hd as [Hd Hds]. destruct (digit_step d Hd) as (E1 & E2 & E3 & E4 & E5).
  cbn [length Nat.add fmap list_fmap app chunk_loop sc_c sc_total sc_chunk sc_ndigits]. rewrite E1, Hsp, E3, E4, E5, andb_false_r. cbn [negb].
  pose proof (horner_grows 16 ds (sc_chunk st * 16 + d) ltac:(lia) (Forall_impl _ _ _ Hds (fun d H => proj1 H)) ltac:(lia)) as Hg. fold (horner (sc_chunk st * 16 + d) ds) in Hg. change (horner (sc_chunk st) (d :: ds)) with (horner (sc_chunk st * 16 + d) ds) in *.
  rewrite no_overflow, next_digit by lia. change (truth 0) with false. cbv iota. destruct ds as [|d' ds].
  - exists (digit_char false d). split_and!; [done| |done]. apply orb_false_iff in E3 as [_ E3]. lia.
  - edestruct (IH {| sc_c := digit_char false d; sc_total := sc_total st + 1; sc_chunk := sc_chunk st * 16 + d; sc_ndigits := sc_ndigits st + 1 |}) as (c & Hc1 & Hc2 & E); try done; [cbn; lia|].
    exists c. split_and!; [done..|]. etransitivity; [exact E|]. cbn [sc_total sc_chunk sc_ndigits]. f_equal. f_equal; cbn [length]; lia.
Qed.
(** A chunk and what ends it. *)
Lemma chunk_read width v c tot n rest : 0 <= v < 2 ^ 32 -> isspace c = false -> (n = O \/ exists e rest', rest = e :: rest' /\ (e = 0 \/ e = chr ",")) ->
  exists st, chunk_loop (length (hex width v) + n) (hex width v ++ rest) {| sc_c := c; sc_total := tot; sc_chunk := 0; sc_ndigits := 0 |} = inr (st, match n with O => rest | S _ => tail rest end, pred n) /\
    sc_chunk st = v /\ 0 < sc_ndigits st /\ isspace (sc_c st) = false /\
    (sc_c st = chr "," <-> n <> O /\ hd 0 rest = chr ",").
Proof.
  intros Hv Hc Hn. destruct (hex_digits width v Hv) as (ds & -> & Hd & E & Hne). rewrite length_fmap. assert (0 < length ds)%nat by (destruct ds; [done|cbn; lia]).
  destruct (chunk_digits ds rest n {| sc_c := c; sc_total := tot; sc_chunk := 0; sc_ndigits := 0 |} Hd Hne Hc ltac:(done) ltac:(cbn [sc_chunk]; lia)) as (c' & H1 & H2 & ->). cbn [sc_chunk sc_total sc_ndigits]. rewrite E.
  destruct n as [|n].
  - eexists. split; [done|]. cbn [sc_c sc_chunk sc_ndigits]. split_and!; [done|lia|done|]. split; [done|]. by intros [? _].
  - destruct Hn as [?|(e & rest' & -> & He)]; [done|]. cbn [chunk_loop sc_c sc_total]. assert (isspace e = false) as -> by (destruct He as [-> | ->]; done). rewrite H1, andb_false_r.
    assert ((e =? 0) || (e =? chr ",") = true) as -> by (destruct He as [-> | ->]; done). eexists. split; [done|]. cbn [sc_c sc_chunk sc_ndigits hd]. split_and!; [done|lia|destruct He as [-> | ->]; done|split; [done|by intros [_ ?]]].
Qed.

(** ** The map is shifted by a word *)
Lemma shift_word m p nm : 0 < nm -> (BITS_TO_LONGS nm <= len m p)%nat -> (forall k, (k < BITS_TO_LONGS nm)%nat -> 0 <= LibBitmap.word m p k < 2 ^ 32) ->
  (LibBitmap.word m p (BITS_TO_LONGS nm - 2) < 2 ^ top_bits nm) ->
  let m' := __bitmap_shift_left m p p CHUNKSZ nm in
  (forall k, (k < BITS_TO_LONGS nm)%nat -> LibBitmap.word m' p k = match k with O => 0 | S k => LibBitmap.word m p k end) /\ forall q, len m' q = len m q.
Proof.
  intros Hnm Hlen Hr Htop. unfold __bitmap_shift_left, CHUNKSZ. change (Z.to_nat (32 / 32)) with 1%nat. cbn [Nat.eqb]. cbv zeta. destruct (round_chunks nm Hnm) as (n & En & _ & Et & Ht). rewrite En in *.
  destruct (fill_down p (shift_left_word 32 nm p) 1 (S n - 1) m) as (H1 & H2 & H3); [lia| |].
  { intros k m' Hm. unfold shift_left_word. rewrite !Hm by lia. done. }
  set (m1 := LibBitmap.fill _ _ _ _ _) in *. destruct (fill_seq p (fun _ _ => 0) 0 1 m1) as (C1 & C2 & C3); [rewrite H3; lia|done|]. split; [|intros q; unfold clear_words; by rewrite C3, H3].
  intros [|k] Hk; unfold clear_words; [apply C1; lia|]. rewrite C2 by lia. replace (S k) with (k + 1)%nat by lia. rewrite H1 by lia. unfold shift_left_word. rewrite En. change (32 mod 32) with 0. change (Z.to_nat (32 / 32)) with 1%nat.
  cbn [truth negb Z.eqb andb]. cbv zeta. rewrite (proj2 (Nat.eqb_neq k (S n - 1))) by lia. rewrite andb_false_r. rewrite Z.shiftl_0_r, Z.shiftr_0_l, Z.lor_0_l, u32_small by (apply Hr; lia).
  destruct (truth (nm mod 32)) eqn:El; [|done]. destruct (Nat.eqb_spec (k + 1) (S n - 1)) as [Ek|]; [|done]. cbn [andb].
  assert (top_bits nm = nm mod 32) as Eb by (unfold top_bits, truth in *; destruct (nm mod 32 =? 0); done). rewrite Eb in *. replace (2 ^ (nm mod 32) - 1) with (Z.ones (nm mod 32)) by (rewrite Z.ones_equiv; lia).
  rewrite Z.land_ones, Z.mod_small; [done| |lia]. split; [apply Hr; lia|]. by replace k with (S n - 2)%nat by lia.
Qed.

Section Parse.
(** The words [X] of a map of [nm] bits. *)
Context (nm : Z) (p : nat) (X : nat -> Z) (lim := BITS_TO_LONGS nm).
Context (Hnm : 0 < nm) (HX : forall k, 0 <= X k < 2 ^ 32) (Hfit : forall k, X k <> 0 -> Z.log2 (X k) + 1 + 32 * Z.of_nat k <= nm).

(** The words from [j] on have been read. *)
Definition holds_from (m : list (list Z)) (j : nat) : Prop := (lim <= len m p)%nat /\ forall k, (k < lim)%nat -> LibBitmap.word m p k = X (k + j).
Lemma beyond_map k : (lim <= k)%nat -> X k = 0.
Proof.
  intros Hk. destruct (Z.eq_dec (X k) 0) as [|Hne]; [done|]. apply Hfit in Hne. pose proof (Z.log2_nonneg (X k)). destruct (round_chunks nm Hnm) as (n & En & _ & Et & Ht). unfold lim in Hk. lia.
Qed.
Lemma top_word : X (lim - 1) < 2 ^ top_bits nm.
Proof.
  destruct (round_chunks nm Hnm) as (n & En & _ & Et & Ht). unfold lim. rewrite En. replace (S n - 1)%nat with n by lia. pose proof (HX n). destruct (Z.eq_dec (X n) 0) as [->|Hne]; [apply Z.pow_pos_nonneg; lia|].
  apply Hfit in Hne as Hf. apply Z.log2_lt_pow2; lia.
Qed.
Lemma add_chunk m j : holds_from m (S j) ->
  let m1 := __bitmap_shift_left m p p CHUNKSZ nm in holds_from (set_word m1 p 0 (Z.lor (LibBitmap.word m1 p 0) (X j))) j.
Proof.
  intros [Hl Hw] m1. destruct (round_chunks nm Hnm) as (n & En & _ & Et & Ht).
  destruct (shift_word m p nm Hnm) as [H1 H2]; [done|intros k Hk; rewrite Hw by done; apply HX| |].
  { fold lim. destruct (Nat.lt_ge_cases (lim - 2) lim) as [Hlt|]; [|unfold lim in *; lia]. rewrite Hw by done. destruct (decide (lim - 2 + S j = lim - 1)%nat) as [->|]; [apply top_word|].
    rewrite beyond_map by (unfold lim in *; lia). apply Z.pow_pos_nonneg; lia. }
  fold m1 in H1, H2. split; [by rewrite len_set_word, H2|]. intros k Hk. destruct k as [|k].
  - rewrite word_set_word by (rewrite H2; unfold lim in *; lia). by rewrite H1 by done.
  - rewrite word_set_word_ne by lia. rewrite H1 by done. rewrite Hw by lia. f_equal. lia.
Qed.
Lemma fls_fits j : X j <> 0 -> nbits_to_hold_value (X j) + 32 * Z.of_nat j <= nm.
Proof. intros Hne. unfold nbits_to_hold_value. pose proof (HX j). rewrite generic_fls_spec by lia. by apply Hfit. Qed.

(** Where the outer loop stands when the chunks from [j] on have been read. *)
Record reading (m : list (list Z)) (j : nat) (c nchunks nbits : Z) : Prop := {
  rd_words : holds_from m j;
  rd_char : isspace c = false;
  rd_none : nchunks = 0 -> nbits = 0 /\ forall k, (j <= k)%nat -> X k = 0;
  rd_some : 0 <= nchunks /\ (nchunks <> 0 -> nbits + 32 * Z.of_nat j <= nm)
}.
(** A leading zero chunk is skipped; any other is added and fits. *)
Lemma reading_skip m j c c' nbits : reading m (S j) c 0 nbits -> X j = 0 -> isspace c' = false -> reading m j c' 0 nbits.
Proof.
  intros [[Hl Hw] _ H0 _] Ex Hc. destruct (H0 eq_refl) as [En Hz]. assert (forall k, (j <= k)%nat -> X k = 0) as Hz'.
  { intros k Hk. destruct (decide (k = j)) as [->|]; [done|]. apply Hz. lia. }
  split; [|done|done|done]. split; [done|]. intros k Hk. rewrite Hw, !Hz' by lia. done.
Qed.
Lemma reading_add m j c c' nchunks nbits : reading m (S j) c nchunks nbits -> (nchunks =? 0) && (X j =? 0) = false -> isspace c' = false ->
  let m1 := __bitmap_shift_left m p p CHUNKSZ nm in
  let nbits' := nbits + (if nchunks + 1 =? 1 then nbits_to_hold_value (X j) else CHUNKSZ) in
  (nm <? nbits') = false /\ reading (set_word m1 p 0 (Z.lor (LibBitmap.word m1 p 0) (X j))) j c' (nchunks + 1) nbits'.
Proof.
  intros [Hw _ H0 [H1 H2]] Ez Hc m1 nbits'. pose proof (fls_fits j) as Hf. assert (nbits' + 32 * Z.of_nat j <= nm) as Hb.
  { unfold nbits', CHUNKSZ. destruct (Z.eqb_spec (nchunks + 1) 1); [destruct (H0 ltac:(lia)) as [-> _]|]; lia. }
  split; [lia|]. split; [by apply add_chunk|done|lia|lia].
Qed.
Lemma parse_loop_run n : forall fuel width e rest m c tot nchunks nbits, (n < fuel)%nat -> reading m (S n) c nchunks nbits -> (e = O \/ exists rest', rest = 0 :: rest') ->
  let text := chunks_text [] width (S n) X in
  exists m', parse_loop fuel (length text + e) (text ++ rest) p nm c tot nchunks nbits m = Some (0, m') /\ holds_from m' 0.
Proof.
  induction n as [|n IH]; intros [|fuel] width e rest m c tot nchunks nbits Hf R He text; try lia; cbn [parse_loop]; pose proof (rd_char _ _ _ _ _ R) as Hc.
  - assert (text = hex width (X 0)) as -> by (unfold text; cbn; by rewrite app_nil_r).
    destruct (chunk_read width (X 0) c tot e rest (HX 0) Hc) as (st & -> & E1 & E2 & E3 & E4); [destruct He as [?|[? ->]]; [by left|right; eauto]|].
    replace (sc_ndigits st =? 0) with false by lia. rewrite E1. cbv zeta. assert (negb (Nat.eqb (pred e) 0) && (sc_c st =? chr ",") = false) as ->.
    { destruct (Z.eqb_spec (sc_c st) (chr ",")) as [Ec|]; [|apply andb_false_r]. apply E4 in Ec as [Hne Hh]. destruct He as [->|[? ->]]; done. }
    destruct ((nchunks =? 0) && (X 0%nat =? 0)) eqn:Ez.
    + assert (nchunks = 0 /\ X 0%nat = 0) as [-> Ex] by lia. exists m. split; [done|]. by eapply rd_words, reading_skip.
    + destruct (reading_add _ _ _ _ _ _ R Ez E3) as [-> R']. eexists. split; [done|]. by eapply rd_words.
  - set (text' := chunks_text [] 8 (S n) X). assert (text = hex width (X (S n)) ++ chr "," :: text') as -> by done.
    replace (length (hex width (X (S n)) ++ chr "," :: text') + e)%nat with (length (hex width (X (S n))) + S (length text' + e))%nat by (rewrite length_app; cbn [length]; lia). rewrite <- app_assoc.
    destruct (chunk_read width (X (S n)) c tot (S (length text' + e)) ((chr "," :: text') ++ rest) (HX _) Hc) as (st & -> & E1 & E2 & E3 & E4); [right; eexists _, _; split; [done|by right]|].
    replace (sc_ndigits st =? 0) with false by lia. rewrite E1. cbv zeta. cbn [pred app tail]. assert (sc_c st = chr ",") as Ec by by apply E4. rewrite Ec in E3 |- *.
    assert (Nat.eqb (length text' + e) 0 = false) as ->. { destruct (hex_digits 8 (X n) (HX n)) as (ds & Eh & _ & _ & Hne). apply Nat.eqb_neq. unfold text'. cbn [chunks_text app]. rewrite length_app, Eh, length_fmap. destruct ds; [done|cbn; lia]. }
    cbn [negb andb]. rewrite Z.eqb_refl. destruct ((nchunks =? 0) && (X (S n) =? 0)) eqn:Ez.
    + assert (nchunks = 0 /\ X (S n) = 0) as [-> Ex] by lia. apply IH; [lia|by eapply reading_skip|done].
    + destruct (reading_add _ _ _ _ _ _ R Ez E3) as [-> R']. apply IH; [lia|done|done].
Qed.
End Parse.

(** ** There and back *)
Lemma chunk_value_facts m p nm : 0 < nm -> let X := fun k => if Nat.ltb k (BITS_TO_LONGS nm) then chunk_value m p nm k else 0 in
  (forall k, 0 <= X k < 2 ^ 32) /\ (forall k, X k <> 0 -> Z.log2 (X k) + 1 + 32 * Z.of_nat k <= nm) /\
  forall i, 0 <= i < nm -> Z.testbit (X (Z.to_nat (i / 32))) (i mod 32) = bit m p i.
Proof.
  intros Hnm X. destruct (round_chunks nm Hnm) as (n & En & _ & Et & Ht). unfold X, chunk_value. rewrite En. replace (S n - 1)%nat with n by lia. split_and!.
  - intros k. destruct (Nat.ltb_spec k (S n)); [|lia]. apply masked_range. destruct (Nat.eqb k n); lia.
  - intros k. destruct (Nat.ltb_spec k (S n)); [|done]. set (w := if Nat.eqb k n then top_bits nm else 32). assert (w + 32 * Z.of_nat k <= nm /\ 1 <= w) as [Hw Hw1] by (unfold w; destruct (Nat.eqb_spec k n); lia).
    rewrite Z.land_ones by lia. intros Hne. pose proof (Z.mod_pos_bound (LibBitmap.word m p k) (2 ^ w) ltac:(apply Z.pow_pos_nonneg; lia)) as Hb.
    assert (Z.log2 (LibBitmap.word m p k mod 2 ^ w) < w); [|lia]. apply Z.log2_lt_pow2; lia.
  - intros i Hi. destruct (Nat.ltb_spec (Z.to_nat (i / 32)) (S n)); [|lia]. rewrite Z.land_spec, Z.ones_spec_low, andb_true_r; [done|].
    destruct (Nat.eqb_spec (Z.to_nat (i / 32)) n); lia.
Qed.
Lemma chunks_length sep width n X : (forall k, 0 <= X k < 2 ^ 32) -> (n <= length (chunks_text sep width n X))%nat.
Proof.
  intros HX. revert sep width. induction n as [|n IH]; intros sep width; [lia|]. cbn [chunks_text]. rewrite !length_app. destruct (hex_digits width (X n) (HX n)) as (ds & -> & _ & _ & Hne).
  specialize (IH (bytes ",") 8). rewrite length_fmap. destruct ds; [done|]. cbn [length]. lia.
Qed.
Lemma zeroed m p nm : 0 < nm -> (BITS_TO_LONGS nm <= len m p)%nat -> (BITS_TO_LONGS nm <= len (bitmap_zero m p nm) p)%nat /\ forall k, (k < BITS_TO_LONGS nm)%nat -> LibBitmap.word (bitmap_zero m p nm) p k = 0.
Proof.
  intros Hnm Hl. destruct (round_chunks nm Hnm) as (n & En & _ & Et & Ht). unfold bitmap_zero. destruct (Z.leb_spec nm 32).
  - rewrite len_set_word. split; [done|]. intros k Hk. assert (k = O) as -> by lia. apply word_set_word. lia.
  - destruct (fill_seq p (fun _ _ => 0) 0 (BITS_TO_LONGS nm) m) as (H1 & _ & H3); [lia|done|]. unfold clear_words. rewrite H3. split; [done|]. intros k Hk. apply H1. lia.
Qed.
Lemma bitmap_parse_run m p nm dst q rest (ubuflen : nat) : 0 < nm -> (BITS_TO_LONGS nm <= len dst q)%nat -> let text := bitmap_text m p nm in (length text <= ubuflen)%nat ->
  exists dst', bitmap_parse (text ++ 0 :: rest) (Z.of_nat ubuflen) dst q nm = Some (0, dst') /\ forall i, 0 <= i < nm -> bit dst' q i = bit m p i.
Proof.
  intros Hnm Hl text Hu. destruct (chunk_value_facts m p nm Hnm) as (HX & Hfit & Hbits). set (X := fun k => if Nat.ltb k (BITS_TO_LONGS nm) then chunk_value m p nm k else 0) in *. destruct (round_chunks nm Hnm) as (n & En & _ & Et & Ht).
  assert (text = chunks_text [] ((top_bits nm + 3) / 4) (S n) X) as E. { unfold text, bitmap_text. rewrite En. apply chunks_text_ext. intros k Hk. unfold X. by rewrite En, (proj2 (Nat.ltb_lt k (S n))) by lia. }
  pose proof (chunks_length [] ((top_bits nm + 3) / 4) (S n) X HX) as Hlen. rewrite <- E in Hlen. destruct (zeroed dst q nm Hnm Hl) as [Z1 Z2].
  destruct (parse_loop_run nm q X Hnm HX Hfit n (S ubuflen) ((top_bits nm + 3) / 4) (ubuflen - length text) (0 :: rest) (bitmap_zero dst q nm) 0 0 0 0) as (dst' & Ep & Hl' & Hw); [lia| |right; eauto|].
  - split; [|done| |done].
    + split; [done|]. intros k Hk. rewrite Z2 by done. symmetry. apply (beyond_map nm X Hnm Hfit). lia.
    + intros _. split; [done|]. intros k Hk. apply (beyond_map nm X Hnm Hfit). lia.
  - rewrite <- E in Ep. replace (length text + (ubuflen - length text))%nat with ubuflen in Ep by lia. exists dst'. unfold bitmap_parse. rewrite Nat2Z.id. split; [done|].
    intros i Hi. rewrite <- Hbits by done. unfold bit. rewrite Hw by lia. by rewrite Nat.add_0_r.
Qed.
(** A printed text, read back byte by byte. *)
Lemma printed_bytes buf text (m : memory) : (fun i : nat => default 0 (write buf (text ++ [0]) m !! (buf + Z.of_nat i))) <$> seq 0 (length text + 1) = text ++ [0].
Proof.
  apply list_eq. intros i. rewrite list_lookup_fmap. destruct (decide (i < length text + 1)%nat) as [Hi|Hi].
  - rewrite lookup_seq_lt by done. cbn. rewrite write_lookup_in by (rewrite length_app; cbn; lia). destruct (lookup_lt_is_Some_2 (text ++ [0]) i) as [x ->]; [rewrite length_app; cbn; lia|done].
  - rewrite lookup_seq_ge, lookup_ge_None_2 by (rewrite ?length_app; cbn; lia). done.
Qed.

(** C31. Bit maps as text: [bitmap_scnprintf] puts the hexadecimal text of the
    map into the buffer as far as it fits, terminated, and returns the number of
    characters; when the text fits, [bitmap_parse] of the bytes of the buffer
    succeeds and gives a map with the same bits. *)
Theorem bitmap_text_roundtrip null empty comma little maps maskp nm buf buflen (ro m : memory) dst p :
  0 < nm -> 0 < buf -> 0 < buflen < 2 ^ 31 -> buf + buflen + 80 <= 2 ^ 32 ->
  (forall a, buf <= a < buf + buflen -> is_Some (m !! a) /\ ro !! a = None) -> ro ⊆ m ->
  PAGE_SIZE <= empty < 2 ^ 32 -> ro !! empty = Some 0 ->
  PAGE_SIZE <= comma < 2 ^ 32 - 1 -> ro !! comma = Some (chr ",") -> ro !! (comma + 1) = Some 0 -> (BITS_TO_LONGS nm <= len dst p)%nat ->
  let text := bitmap_text maps maskp nm in
  let after := write buf (printed buflen text) m in
  bitmap_scnprintf null empty comma little maps maskp buf buflen nm m = Some (Z.min (Z.of_nat (length text)) (buflen - 1), after) /\
  (Z.of_nat (length text) < buflen -> forall ubuflen, (length text <= ubuflen)%nat ->
   exists dst', bitmap_parse ((fun i : nat => default 0 (after !! (buf + Z.of_nat i))) <$> seq 0 (length text + 1)) (Z.of_nat ubuflen) dst p nm = Some (0, dst') /\
     forall i, 0 <= i < nm -> bit dst' p i = bit maps maskp i).
Proof.
  intros Hnm Hb Hl Hend Hm Hro He1 He2 Hc1 Hc2 Hc3 Hd text after. split.
  - apply (bitmap_scnprintf_run null empty comma little maps maskp buf buflen ro); try done; [intros a Ha; by apply Hm|]. split; [|done]. intros a Ha. by apply Hm.
  - intros Hfit ubuflen Hu. assert (printed buflen text = text ++ [0]) as Ep.
    { unfold printed. rewrite (proj2 (Z.eqb_neq buflen 0)), firstn_all2 by lia. done. }
    unfold after. rewrite Ep, printed_bytes. by apply bitmap_parse_run.
Qed.

Definition literals : memory := write 5000 [0; chr ","; 0] ∅.
Definition text_mem : memory := write 100 (replicate 20 7) literals.
Lemma bitmap_text_roundtrip_witness : exists m', bitmap_scnprintf 0 5000 5001 true [[0x12345678; 0xff5]] 0 100 20 35 text_mem = Some (10, m') /\
  m' = write 100 (bytes "5,12345678" ++ [0]) text_mem.
Proof.
  destruct (bitmap_text_roundtrip 0 5000 5001 true [[0x12345678; 0xff5]] 0 35 100 20 literals text_mem [[7; 7]] 0) as [H _]; try lia; try done.
  - intros a Ha. unfold text_mem. replace a with (100 + Z.of_nat (Z.to_nat (a - 100))) by lia. rewrite write_lookup_in by (rewrite length_replicate; lia). rewrite lookup_replicate_2 by lia. split; [eauto|].
    unfold literals. by rewrite write_lookup_out by (cbn; lia).
  - apply map_subseteq_spec. intros a x Ha. unfold text_mem. destruct (decide (100 <= a < 120)) as [Hin|Hin].
    + unfold literals in Ha. by rewrite write_lookup_out in Ha by (cbn; lia).
    + by rewrite write_lookup_out by (rewrite length_replicate; lia).
  - exists (write 100 (bytes "5,12345678" ++ [0]) text_mem). split; [exact H|reflexivity].
Defined.

(** What [bitmap_parse] makes of texts that are no maps: the errors the comment
    lists, and a comma at the end of the buffer, which passes. *)
Lemma bitmap_parse_refuses :
  let parse (s : String.string) := fst <$> bitmap_parse (bytes s) (Z.of_nat (length (bytes s))) [[0; 0]] 0 40 in
  (parse "1,,5"%string = Some (- EINVAL) /\ parse ",44"%string = Some (- EINVAL) /\ parse ","%string = Some (- EINVAL) /\ parse String.EmptyString = Some (- EINVAL) /\ parse "1 2"%string = Some (- EINVAL) /\ parse "12g"%string = Some (- EINVAL) /\
   parse "100000000"%string = Some (- EOVERFLOW) /\ parse "1ff,00000000"%string = Some (- EOVERFLOW) /\ parse " 0,0,ff,00000001 "%string = Some 0) /\ parse "1,"%string = Some 0.
Proof. by vm_compute. Qed.
